(* ===== verification/_CoqProject ===== *)
-Q . S2P
Prelude.v
RunState.v
JsText.v
Dto.v
Limits.v
Framing.v
ResourceBroker.v
BrokerAccounting.v
BrokerScheduling.v
BrokerTheorems.v
ConPty.v
RunEvents.v
EventStream.v
RunJournal.v
JournalInvariant.v
JournalTheorems.v
JsObject.v
Tree.v
Validate.v
ValidateTheorems.v
SemanticDelta.v
SameValue.v
DeltaTheorems.v
DeltaRoundTrip.v
Marker.v
Pairing.v
PairingTheorems.v
JsSearch.v
Keys.v
Mouse.v
InputDecode.v
InputTheorems.v
Selectors.v
SelectorTheorems.v
Matching.v
MatchingTheorems.v
IndexTheorems.v
GridMatch.v
GridTheorems.v
ArtifactSafety.v
Sanitizer.v
SanitizerTheorems.v
CapabilityGraph.v
CapabilityTheorems.v
SessionContract.v
ActionModel.v
Conditions.v
ActionPlanner.v
PlannerTheorems.v
PlannerErrors.v
DeviceExecutor.v
ExecutorTheorems.v
ActionRun.v
ActionTheorems.v
ActionEnds.v
SessionActions.v
PointerRegions.v
BrokerLeases.v
LocalTransport.v
BrokerServer.v
ServerInvariant.v
ServerTheorems.v
BrokerClient.v
ClientTheorems.v
ScreenRevisions.v
RevisionTheorems.v
Inflate.v
InflateBits.v
Huffman.v
InflateTheorems.v
InflateStream.v
InflateTotal.v
