(* ===== verification/Prelude.v ===== *)
(** * Termwright in Rocq: prelude and guide

    Termwright drives terminal applications from tests.  A test host schedules
    attempts through a resource broker and merges the events of its workers into
    a journal; a driver runs the application in a PTY, reads its screen through a
    VT emulator, and, when the application is instrumented, receives semantic
    trees of what was drawn over a local socket.  This library models the parts
    of that system that decide something, in the order data flows through them,
    and proves what each promises.

    ** The parts and their files

    - _Language_ ([Prelude], [JsText], [JsObject]): results and methods, the
      numbers and strings of the language, UTF-8, decimal numerals, plain objects
      and insertion-ordered maps.
    - _Wire_ ([Limits], [Dto], [Framing]; packages/protocol/src limits.ts,
      errors.ts, framing.ts): the frame codec and the projection of untrusted
      object graphs.  [Dto.projectDto] runs on a heap, so aliases, cycles,
      accessors and foreign prototypes are inputs it can be given;
      [Framing.push] is [BufferedFrameDecoder.push] on the buffer and its two
      offsets.
    - _Semantic trees_ ([Tree], [Validate], [ValidateTheorems]; tree.ts,
      observation.ts, validate.ts): the data, the rectangle arithmetic and
      [validateSnapshot].
    - _Semantic deltas_ ([SemanticDelta], [DeltaTheorems], [SameValue],
      [DeltaRoundTrip]; semantic-state.ts, node-keys.ts): [diffSemanticSnapshots] and
      [applySemanticDelta], whose staged result goes through [Validate].
      [SameValue] says when two values are the same, without the code's
      [valueEqual], which is proved to decide it.
    - _Pairing_ ([Marker], [Pairing], [PairingTheorems]; protocol marker.ts,
      driver/src/pairing.ts): the authenticated render marker and the barrier at
      which a tree meets the marker of its revision.  The two maps of halves are
      instances of one class, [PendingStore], as [#retain] is generic in the
      source.
    - _Run lifecycle and events_ ([RunState], [RunEvents], [EventStream];
      run-state.ts, run-events.ts): states, identifiers, envelopes, producers and
      the stream validator.
    - _Journal_ ([RunJournal], [JournalInvariant], [JournalTheorems];
      run-journal.ts): the bounded backlog between producers and sink.
    - _Resource broker_ ([ResourceBroker], [BrokerAccounting],
      [BrokerScheduling], [BrokerTheorems]; packages/resource-broker/src/index.ts):
      the scheduler of host resources.
    - _Broker transport_ ([LocalTransport], [BrokerLeases], [BrokerServer],
      [ServerInvariant], [ServerTheorems], [BrokerClient], [ClientTheorems];
      packages/local-transport/src/index.ts, resource-broker/src/transport.ts): the
      bounded decoder and the envelopes of a local socket, the server that lets
      workers in and hands their requests to the broker, and the worker's client.
      An event of the server is one callback the runtime makes; a promise that is
      still to be looked at is an acquisition or a task of its state.
      [BrokerLeases] says what an operation of the broker may do to the promises
      and leases of others ([informs]); the server is proved against it.
    - _ConPTY_ ([ConPty]; packages/pty/src/windows-output-normalizer.ts,
      protocol conpty-host-rpc.ts): the transducer that hides what the Windows
      console host injects, and the routing of terminal replies.

    - _Input_ ([Keys], [Mouse], [InputDecode], [InputTheorems];
      packages/driver/src keys.ts, mouse.ts, packages/ui/src/input-decode.ts): key
      descriptions, text and mouse events to the bytes a terminal sends, and the
      recorder's streaming decoder back to actions.

    - _Locators_ ([JsSearch], [Selectors], [SelectorTheorems], [Matching],
      [MatchingTheorems], [IndexTheorems], [GridMatch], [GridTheorems];
      packages/driver/src selectors.ts, matching.ts): the selector language, the
      index over the accepted tree and its queries, and text queries over the
      cells of the screen.  [IndexTheorems] composes it with the deltas and the
      pairing.

    - _Artifacts_ ([ArtifactSafety], [Sanitizer], [SanitizerTheorems]; protocol
      artifact-safety.ts, packages/trace/src/terminal-sanitizer.ts): the policy on
      recorded values and the streaming sanitizer of recorded terminal output.

    - _Capabilities_ ([CapabilityGraph], [CapabilityTheorems], [SessionContract];
      protocol capability-graph.ts, contract.ts,
      driver/src/internal/session-semantic-plane.ts): the graph from producers to
      public consumers, its validation and resolution, and the contract a session
      freezes from it.
    - _Actions_ ([ActionModel], [Conditions], [ActionPlanner], [PlannerTheorems],
      [PlannerErrors], [PointerRegions], [DeviceExecutor], [ExecutorTheorems],
      [ActionRun], [ActionTheorems], [ActionEnds], [SessionActions]; protocol
      action-model.ts, driver/src action-planner.ts, session.ts ([pointerRegion],
      [executeDeviceOperations], [sendInput]), locator.ts ([resolve],
      [#awaitNegotiation], [#plannedPointer], [#plannedKeyboard], [#wheel],
      [#dragTo], [#waitForSemanticPostcondition], [#checkedAction]),
      internal/action-retry.ts, internal/session-actions.ts):
      from a locator to a target, from an intent and a target to a plan, from a plan
      to the bytes on the terminal, the retries around all of it and the wait for
      the effect.  [Moment] is what the driver reads of a session between two awaits;
      the sequence of moments, the readings of the clock and what the expression of
      a locator matches at each turn ([#evaluate]) are arbitrary functions.  A wait
      for a change of the session has a timer and comes back; the drain of the parser
      has none, and a [Moment] says whether it settles: a run that awaits one that
      does not is [stuck].
    - _Screen revisions_ ([ScreenRevisions], [RevisionTheorems];
      packages/driver/src/vt.ts): the published states of the screen, what observers
      are told and the answers about regions, over any terminal.
    - _Unicode tables_ ([Inflate], [InflateBits], [Huffman], [InflateTheorems],
      [InflateStream], [InflateTotal]; packages/vt/src/graphemes/tiny-inflate.ts):
      the DEFLATE decoder of the packed tables.

    Classes are records of their private fields; a public method is a function
    from the state (and arguments) to the result and the new state; an exception
    or an [{ ok: false }] result is [Err] of its machine-readable code, the detail
    text being dropped.  What [await]s is cut into steps at the [await]
    ([flushStart]/[flushEnd] of the journal, the stages of a watchdog), and timers,
    abort signals and promises are events, so that theorems about all event
    sequences cover all interleavings.

    ** What is proved

    - Framing: the chunking of the stream is irrelevant, frames round-trip, the
      decoder fails closed; the projection accepts exactly plain alias-free trees.
    - Trees: validation accepts exactly the forests within the limits, the depth
      computation always finishes and is exact, every reference resolves;
      rectangle operations are set operations on cells.
    - Deltas: deriving and applying is a round trip when the operations fit the
      node ceiling, every value the same up to the order of the members of an
      object, and is refused with [count] exactly when they do not; a delta
      touches only what it names; only a base mismatch asks for a
      resynchronisation.
    - Pairing: every run refines a specification that publishes only fresh, fully
      offered revisions; no half is lost silently; watchdogs and halves correspond;
      verification of markers accepts exactly what the encoder emits.
    - Events and journal: accepted streams are ordered and causal, producers are in
      order, ids keep their kind, validation is idempotent; authoritative events
      are delivered in order or pending, diagnostics are each delivered, pending or
      in the group of one gap that tells its number and ends, the backlog is bounded, a refused flush can be retried unchanged.
    - Broker: never overcommitted whatever the UUID source gives; when its UUIDs
      never repeat, books exact, work-conserving, first come first served for new
      attempts, each request answered once, a disconnected worker
      keeps nothing.  Two examples at the end of [BrokerTheorems] show a leak after
      UUID collisions and a hold-and-wait.
    - Broker transport: however a stream of bytes is cut it becomes the messages in
      it; with UUIDs that never repeat, every live lease is in the books of the one
      open connection of its worker or on its way there, and nothing outlives the
      connections; whoever has not shown the token changes nothing, and a message of
      a worker has the broker do one thing for that worker at most, on a lease only
      one of its own whose token it shows ([messages_act_for_their_worker]); every
      request of the client is settled once, save one whose error cannot be read,
      answers reach the
      request they name, and a lease crosses the wire unchanged.  Examples in
      [ServerTheorems] and [ClientTheorems] show a rejection nobody handles, a
      request that costs its connection, a worker no one disconnects and a promise
      that stays open.
    - ConPTY: chunking is irrelevant, everything but the injected sequences passes
      verbatim, replies are routed to their owner.
    - Input: typed text is recorded exactly however it is cut into chunks, the
      recorder's key vocabulary round-trips through the encoder, mouse reports are
      sent only when asked for and determine cell and button.  Four examples at the
      end of [InputTheorems] show where recording is not faithful.
    - Locators: a query selects exactly the nodes it asks for, in document order;
      an index updated with every published delta answers as one built afresh, and
      an example shows what happens when the pairing drops one; selectors and refs
      are read back as written; text on the screen is found where it is, and grid
      queries end and stay inside their scope.  Examples show a search that never
      ends, lost matches and lenient parsing.
    - Artifacts: a resolved policy is valid, published values never show what the
      policy withholds, and a registered secret never reaches a recording whole,
      however output is cut into chunks.  Two examples at the end of
      [SanitizerTheorems] show what passes.

    - Capabilities: a consumer is resolved exactly, with the absent leaves and the
      ways to repair them; diagnostics never unlock anything; the contract of a
      session claims exactly what its producers give it.
    - Actions: conditions never guess; a pointer plan aims at a cell of its target
      and its own, a keyboard plan does what its specification allows, wheel and
      drag plans add up; what the planner refuses is explained, but for arguments it
      cannot use.  The region a session
      derives is exactly the visible cells the hit grid gives to the node.
      Executing a plan sends its operations in order and nothing else, and leaves no
      button down; an action, through all its retries, sends the input of one plan
      at most, the reports of a pointer action hit its target, and every action ends
      if the clock passes its deadline and the parser drains ([actions_end]).  Each
      announced action ends once.
    - Screen revisions: what changed in a region since a published revision is told
      exactly, and observers hear of revisions in order.
    - Unicode tables: the inflater decodes every well-formed stream a reference
      encoder packs in which no header of a stored block ends on a byte boundary
      ([aligned_stored_block] shows that it loses a byte of such a block), and ends
      on any bytes.

    ** Bounds and fuel

    Recursion is structural wherever the source loops over a list.  Where it is
    not, the fuel is a quantity each iteration lowers, and it is proved to be
    enough: [decodeLoop] and [scanLoop] get the length of the buffer plus one (an
    iteration consumes a byte), [drain_loop] the length of the queue plus one,
    [projectNode] the depth left, [climb] the number of nodes plus two
    ([computeDepths_exact]), [scan_loop] the length of the input plus one
    ([push_total]), [text_ranges] and [regex_ranges] the length of the row
    ([text_ranges_complete], [regex_ranges_total]), [ancestors_from] the number of
    nodes ([ancestors_from_ext]), [compound_tokens] the length of the text,
    [all_matches] the length of the text plus two
    ([all_matches_ext]),
    [decimal] the number itself, [resolve] the number of nodes of the capability
    graph plus one (a chain of callers repeats none), [inflate_blocks] and the loops
    of the inflater eight per byte and one ([inflate_always_ends] shows that none
    runs out), [planKeyboard] two levels (it calls itself to plan a focus only), and
    the attempts, resolutions and waits of an action the readings of the clock before
    its deadline ([actions_end]: any fuel from some bound on is enough), [push_slices] the length of the chunk plus one (a turn
    takes a byte).  The eight attempts of
    [freshLeaseId] and [createEventId] are those of the source.

    ** Parameters

    Code outside the repository is an argument of the definitions that use it:
    [JSON.parse] and [JSON.stringify], the zod schema of a snapshot ([safeParse]),
    HMAC-SHA256 ([hmac], with a 32-byte digest), SHA-256 of the secrets of a socket, the clock and the UUID source
    (functions of how often they were read), the case mapping of text outside
    ASCII, grapheme segmentation and cell widths ([graphemes],
    [measureTextCellWidth]), and the [exec] of a regular expression the caller
    passes.  Their documented behaviour is a
    hypothesis where a theorem needs it, and each such theorem has an instance.

    ** Not modelled

    Declarative zod schemas (node-schema.ts, messages.ts); start, teardown and
    shell integration of sessions, the operation budget a session can be given, the
    evaluation of the expression of a locator, and its assertions and other waits; the
    connecting of sockets, the transport of the journal, which is built as that of
    the broker, and the recognizers; traces, history, UI, MCP, CLI and the
    framework probes; native addons, VT emulation, the generated Unicode tables and
    file or socket I/O.  Messages and diagnostics of errors are dropped.  Callbacks
    handed to the modelled classes are taken not to call back into them.  The
    interpolation of a drag is that of doubles ([SpecFloat]); the offsets of a
    position and the readings of the clock are integers. *)

From stdpp Require Export base decidable list gmap strings numbers relations.
From Stdlib Require Export ZArith Lia.

(** The scope the development's own notations live in. *)
Declare Scope tw_scope.
Delimit Scope tw_scope with tw.

(** ** Fallible code

    [throw]ing code and code that returns [{ ok: false, code }] is modelled by
    [result E A]: the error type carries the machine-readable code, the human
    readable detail text is dropped. *)
Inductive result (E A : Type) : Type :=
| Ok (a : A)
| Err (e : E).
Global Arguments Ok {E A} a.
Global Arguments Err {E A} e.

Global Instance result_ret E : MRet (result E) := fun A a => Ok a.
Global Instance result_bind E : MBind (result E) := fun A B f r =>
  match r with Ok a => f a | Err e => Err e end.
Global Instance result_fmap E : FMap (result E) := fun A B f r =>
  match r with Ok a => Ok (f a) | Err e => Err e end.

Global Instance result_eq_dec E A `{EqDecision E, EqDecision A} : EqDecision (result E A).
Proof. solve_decision. Defined.

Definition is_ok {E A} (r : result E A) : bool :=
  match r with Ok _ => true | Err _ => false end.

(** [guard_or b e] is the source's [if (!b) throw e]. *)
Definition guard_or {E} (b : bool) (e : E) : result E unit :=
  if b then Ok tt else Err e.

Lemma bind_Ok {E A B} (r : result E A) (f : A -> result E B) b :
  r ≫= f = Ok b <-> exists a, r = Ok a /\ f a = Ok b.
Proof.
  destruct r as [a|e]; cbn; split; intros H.
  - eauto.
  - destruct H as (a' & [= <-] & H); exact H.
  - discriminate.
  - destruct H as (a' & H & _); discriminate H.
Qed.

Lemma guard_or_Ok {E} b (e : E) u : guard_or b e = Ok u <-> b = true.
Proof. unfold guard_or; destruct b, u; split; congruence. Qed.

(** ** Effects

    Methods of a class that mutate its private fields and may throw: a state
    transformer that keeps the state it reached when it throws. *)
Definition method (S E A : Type) : Type := S -> result E A * S.

Global Instance method_ret S E : MRet (method S E) := fun A a s => (Ok a, s).
Global Instance method_bind S E : MBind (method S E) := fun A B f m s =>
  match m s with
  | (Ok a, s) => f a s
  | (Err e, s) => (Err e, s)
  end.

Definition throw {S E A} (e : E) : method S E A := fun s => (Err e, s).
Definition get {S E} : method S E S := fun s => (Ok s, s).
Definition modify {S E} (f : S -> S) : method S E unit := fun s => (Ok tt, f s).
Definition lift {S E A} (r : result E A) : method S E A := fun s => (r, s).
(** [catch m f]: run [m]; [f] handles what it throws, in the state it left. *)
Definition catch {S E A} (m : method S E A) (f : E -> method S E A) : method S E A := fun s =>
  match m s with
  | (Ok a, s) => (Ok a, s)
  | (Err e, s) => f e s
  end.

(** Runs the monadic operations at the head of a hypothesis. *)
Ltac run_in H :=
  unfold mbind, method_bind, mret, method_ret, modify, get, lift, throw, catch in H;
  cbv beta iota in H.

(** [preserves I m]: [m] keeps [I] whether it returns or throws. *)
Definition preserves {S E A} (I : S -> Prop) (m : method S E A) : Prop :=
  forall s, I s -> I (snd (m s)).

Lemma preserves_ret {S E A} I (a : A) : preserves I (mret a : method S E A).
Proof. by intros s. Qed.

Lemma preserves_bind {S E A B} I (m : method S E A) (f : A -> method S E B) :
  preserves I m -> (forall a, preserves I (f a)) -> preserves I (m ≫= f).
Proof.
  intros Hm Hf s Hs. unfold mbind, method_bind. specialize (Hm s Hs).
  destruct (m s) as [[a|e] s']; cbn in *; [by apply Hf|done].
Qed.

Lemma preserves_get {S E} (I : S -> Prop) : preserves I (get : method S E S).
Proof. by intros s. Qed.
Lemma preserves_lift {S E A} (I : S -> Prop) (r : result E A) : preserves I (lift r : method S E A).
Proof. by intros s. Qed.
Lemma preserves_throw {S E A} (I : S -> Prop) (e : E) : preserves I (throw e : method S E A).
Proof. by intros s. Qed.
Lemma preserves_catch {S E A} (I : S -> Prop) (m : method S E A) f : preserves I m -> (forall e, preserves I (f e)) -> preserves I (catch m f).
Proof. intros Hm Hf s H. unfold catch. specialize (Hm s H). destruct (m s) as [[a|e] s']; [done|by apply Hf]. Qed.

(** The same from one state. *)
Lemma preserves_after {S E A B} (I : S -> Prop) (m : method S E A) (f : A -> method S E B) s :
  I (snd (m s)) -> (forall a, preserves I (f a)) -> I (snd ((m ≫= f) s)).
Proof. intros Hm Hf. unfold mbind, method_bind. destruct (m s) as [[a|e] s']; [by apply Hf|done]. Qed.

(** What a sequence of two methods does. *)
Lemma method_bind_Ok {S E A B} (m : method S E A) (f : A -> method S E B) s b s' :
  (m ≫= f) s = (Ok b, s') <-> exists a s1, m s = (Ok a, s1) /\ f a s1 = (Ok b, s').
Proof.
  unfold mbind, method_bind. destruct (m s) as [[a|e] s1]; split; try congruence.
  - intros H. by exists a, s1.
  - intros (a' & s1' & H & Hf). congruence.
  - intros (a' & s1' & H & Hf). congruence.
Qed.

Lemma method_bind_Err {S E A B} (m : method S E A) (f : A -> method S E B) s e s' :
  (m ≫= f) s = (Err e, s') <-> m s = (Err e, s') \/ exists a s1, m s = (Ok a, s1) /\ f a s1 = (Err e, s').
Proof.
  unfold mbind, method_bind. destruct (m s) as [[a|e'] s1]; split.
  - intros H. right. by exists a, s1.
  - intros [H|(a' & s1' & H & Hf)]; congruence.
  - intros H. left. congruence.
  - intros [H|(a' & s1' & H & Hf)]; congruence.
Qed.

(** ** Numbers

    A finite double is an integral multiple of [2^-1074]; [Finite u] is the
    number [u * 2^-1074].  This is exact, has one representation per value and
    makes comparison the comparison of integers.  [Finite 0] is what
    both zeros are to [===] and to the comparisons; a value that may be compared
    with [Object.is] tells them apart by a constructor of its own ([VMinusZero] and
    [JMinusZero] of [Dto]).  Rounding of arithmetic is not modelled; no code
    translated here depends on it. *)
Inductive number : Type :=
| Finite (units : Z)
| Infinite (negative : bool)
| NaN.

Global Instance number_eq_dec : EqDecision number.
Proof. solve_decision. Defined.

Definition num_scale : Z := 2 ^ 1074.
Definition int (z : Z) : number := Finite (z * num_scale).

(** [Number.MAX_SAFE_INTEGER] *)
Definition max_safe : Z := 2 ^ 53 - 1.

(** [a <= b] and [a < b]; both are false when an operand is [NaN]. *)
Definition num_leb (a b : number) : bool :=
  match a, b with
  | NaN, _ | _, NaN => false
  | Infinite true, _ | _, Infinite false => true
  | Infinite false, _ | _, Infinite true => false
  | Finite u, Finite v => (u <=? v)%Z
  end.
Definition num_ltb (a b : number) : bool :=
  match a, b with
  | NaN, _ | _, NaN => false
  | _, _ => negb (num_leb b a)
  end.

Definition isFinite (n : number) : bool :=
  match n with Finite _ => true | _ => false end.

Lemma num_leb_trans a b c : num_leb a b = true -> num_leb b c = true -> num_leb a c = true.
Proof. destruct a as [u|[]|], b as [v|[]|], c as [w|[]|]; cbn; try done. rewrite !Z.leb_le. lia. Qed.

Lemma num_leb_refl a : a <> NaN -> num_leb a a = true.
Proof. destruct a as [u|[]|]; cbn; try done. intros _. by rewrite Z.leb_le. Qed.

Lemma num_leb_total a b : num_leb a b = false -> a <> NaN -> b = NaN \/ num_leb b a = true.
Proof. destruct a as [u|[]|], b as [v|[]|]; cbn; try done; try (by left); try (by right). rewrite Z.leb_gt, Z.leb_le. right. lia. Qed.

Lemma isFinite_not_NaN a : isFinite a = true -> a <> NaN.
Proof. by intros H ->. Qed.

(** [Number.isInteger], as the integer it is. *)
Definition to_integer (n : number) : option Z :=
  match n with
  | Finite u => let z := Z.shiftr u 1074 in if (z * num_scale =? u)%Z then Some z else None
  | _ => None
  end.

(** [Number.isSafeInteger], as the integer it is. *)
Definition to_safe_integer (n : number) : option Z :=
  match to_integer n with
  | Some z => if (Z.abs z <=? max_safe)%Z then Some z else None
  | None => None
  end.

Lemma num_scale_pos : (0 < num_scale)%Z.
Proof. unfold num_scale. apply Z.pow_pos_nonneg; lia. Qed.

Lemma shiftr_scale z : Z.shiftr (z * num_scale) 1074 = z.
Proof. rewrite Z.shiftr_div_pow2 by lia. apply Z.div_mul. pose proof num_scale_pos. unfold num_scale in *. lia. Qed.

Lemma to_integer_int z : to_integer (int z) = Some z.
Proof. unfold to_integer, int. by rewrite shiftr_scale, Z.eqb_refl. Qed.

Lemma to_integer_Some n z : to_integer n = Some z -> n = int z.
Proof.
  destruct n as [u| |]; try discriminate. unfold to_integer. cbn zeta.
  destruct (Z.eqb_spec (Z.shiftr u 1074 * num_scale) u) as [Hm|]; [|discriminate].
  intros [= <-]. unfold int. by rewrite Hm.
Qed.

Lemma to_safe_integer_Some n z :
  to_safe_integer n = Some z <-> n = int z /\ (Z.abs z <= max_safe)%Z.
Proof.
  unfold to_safe_integer. split.
  - destruct (to_integer n) as [z'|] eqn:E; [|discriminate].
    destruct (Z.leb_spec (Z.abs z') max_safe); [|discriminate].
    intros [= <-]. split; [by apply to_integer_Some|lia].
  - intros [-> Hz]. rewrite to_integer_int.
    destruct (Z.leb_spec (Z.abs z) max_safe); [done|lia].
Qed.

Global Opaque num_scale.
Global Arguments int : simpl never.
Global Arguments to_integer : simpl never.
Global Arguments to_safe_integer : simpl never.

(** Or-ing a value into zero low bits adds it. *)
Lemma lor_shiftl_add a b k :
  (0 <= k)%Z -> (0 <= b < 2 ^ k)%Z -> Z.lor (Z.shiftl a k) b = (a * 2 ^ k + b)%Z.
Proof.
  intros Hk Hb. pose proof (Z.add_lor_land (Z.shiftl a k) b) as H.
  assert (Z.land (Z.shiftl a k) b = 0%Z) as Hz.
  { apply Z.bits_inj'. intros i Hi. rewrite Z.land_spec, Z.bits_0.
    destruct (Z.lt_ge_cases i k) as [Hl|Hg].
    - by rewrite Z.shiftl_spec_low.
    - rewrite <- (Z.mod_small b (2 ^ k)) by lia.
      by rewrite Z.mod_pow2_bits_high, andb_false_r by lia. }
  rewrite Hz, Z.shiftl_mul_pow2 in H by lia. rewrite Z.shiftl_mul_pow2 by lia. lia.
Qed.

(** ** Automation *)

(** Turns boolean comparisons in hypotheses and goal into propositions. *)
Ltac breflect :=
  repeat match goal with
  | H : (_ && _)%bool = true |- _ => apply andb_true_iff in H as [? ?]
  | H : (_ || _)%bool = false |- _ => apply orb_false_iff in H as [? ?]
  | H : negb _ = true |- _ => apply negb_true_iff in H
  | H : negb _ = false |- _ => apply negb_false_iff in H
  | H : (_ <? _)%Z = true |- _ => apply Z.ltb_lt in H
  | H : (_ <? _)%Z = false |- _ => apply Z.ltb_ge in H
  | H : (_ <=? _)%Z = true |- _ => apply Z.leb_le in H
  | H : (_ <=? _)%Z = false |- _ => apply Z.leb_gt in H
  | H : (_ =? _)%Z = true |- _ => apply Z.eqb_eq in H
  | H : (_ =? _)%Z = false |- _ => apply Z.eqb_neq in H
  | H : (_ <? _)%nat = true |- _ => apply Nat.ltb_lt in H
  | H : (_ <? _)%nat = false |- _ => apply Nat.ltb_ge in H
  | H : (_ <=? _)%nat = true |- _ => apply Nat.leb_le in H
  | H : (_ <=? _)%nat = false |- _ => apply Nat.leb_gt in H
  | H : (_ =? _)%nat = true |- _ => apply Nat.eqb_eq in H
  | H : (_ =? _)%nat = false |- _ => apply Nat.eqb_neq in H
  | H : bool_decide _ = true |- _ => apply bool_decide_eq_true in H
  | H : bool_decide _ = false |- _ => apply bool_decide_eq_false in H
  end.

(** Splits the first conditional or match of a hypothesis until only one
    branch is left, naming nothing. *)
Ltac split_branches H :=
  repeat match type of H with
  | context [if ?b then _ else _] => destruct b eqn:?; simplify_eq/=
  | context [match ?x with _ => _ end] => destruct x eqn:?; simplify_eq/=
  end.

(** Hints that close the side conditions the components share. *)
Create HintDb tw discriminated.
#[export] Hint Extern 5 (_ <= _)%Z => lia : tw.
#[export] Hint Extern 5 (_ < _)%Z => lia : tw.
#[export] Hint Extern 5 (_ <= _)%nat => lia : tw.
#[export] Hint Extern 5 (_ < _)%nat => lia : tw.

(** ** Reachability

    The states a component reaches from [init] by its operations. *)
Section Reachability.
Context {S : Type} (init : S -> Prop) (step : S -> S -> Prop).

Inductive reachable : S -> Prop :=
| reachable_init s : init s -> reachable s
| reachable_step s s' : reachable s -> step s s' -> reachable s'.

(** An invariant of the initial states that every step preserves holds of
    every reachable state. *)
Lemma reachable_invariant (I : S -> Prop) :
  (forall s, init s -> I s) ->
  (forall s s', I s -> step s s' -> I s') ->
  forall s, reachable s -> I s.
Proof. intros Hi Hs s Hr. induction Hr; eauto. Qed.
End Reachability.

(** ** Lists *)

(** The sum of [f] over a list. *)
Fixpoint sum_with {A} (f : A -> Z) (l : list A) : Z :=
  match l with [] => 0 | a :: l => f a + sum_with f l end%Z.

Lemma sum_with_app {A} (f : A -> Z) l k :
  sum_with f (l ++ k) = (sum_with f l + sum_with f k)%Z.
Proof. induction l as [|a l IH]; cbn; lia. Qed.

Lemma sum_with_Permutation {A} (f : A -> Z) l k : l ≡ₚ k -> sum_with f l = sum_with f k.
Proof. induction 1; cbn; lia. Qed.

Lemma sum_with_delete {A} (f : A -> Z) l i x :
  l !! i = Some x -> sum_with f (delete i l) = (sum_with f l - f x)%Z.
Proof.
  intros H. rewrite (sum_with_Permutation f l (x :: delete i l)) by by apply delete_Permutation.
  cbn. lia.
Qed.

(** A list splits into what satisfies a predicate and the rest. *)
Lemma sum_with_filter {A} (f : A -> Z) (P : A -> bool) l :
  sum_with f l = (sum_with f (List.filter P l) + sum_with f (List.filter (fun a => negb (P a)) l))%Z.
Proof. induction l as [|a l IH]; cbn; [done|]. destruct (P a); cbn; lia. Qed.

Lemma sum_with_nonneg {A} (f : A -> Z) l :
  (forall a, a ∈ l -> 0 <= f a)%Z -> (0 <= sum_with f l)%Z.
Proof.
  induction l as [|a l IH]; cbn; intros H; [lia|].
  pose proof (H a ltac:(left)). 
  assert (0 <= sum_with f l)%Z by (apply IH; intros; apply H; by right). lia.
Qed.

Lemma forallb_pointwise {A} (f g : A -> bool) l :
  (forall a, In a l -> f a = g a) -> forallb f l = forallb g l.
Proof. induction l as [|a l IH]; cbn; intros H; [done|]. rewrite H, IH; auto. Qed.

Lemma mjoin_fmap_cons {A B} (f : A -> list B) a l :
  mjoin (f <$> a :: l) = f a ++ mjoin (f <$> l).
Proof. reflexivity. Qed.

Lemma NoDup_fmap_inj {A B} (f : A -> B) (l : list A) x y :
  NoDup (f <$> l) -> f x = f y -> x ∈ l -> y ∈ l -> x = y.
Proof.
  intros Hnd Heq [i Hi]%list_elem_of_lookup [j Hj]%list_elem_of_lookup.
  assert (i = j) as ->; [|congruence].
  apply (NoDup_lookup _ i j (f x) Hnd); rewrite list_lookup_fmap, ?Hi, ?Hj; cbn; congruence.
Qed.

(** The first element satisfying [P] and its position. *)
Fixpoint find_index {A} (P : A -> bool) (l : list A) : option nat :=
  match l with
  | [] => None
  | a :: l => if P a then Some 0 else S <$> find_index P l
  end.

Lemma find_index_Some {A} (P : A -> bool) l i :
  find_index P l = Some i <->
  exists a, l !! i = Some a /\ P a = true /\
    forall j b, (j < i)%nat -> l !! j = Some b -> P b = false.
Proof.
  revert i. induction l as [|x l IH]; intros i; cbn.
  - split; [discriminate|]. intros (a & H & _). discriminate.
  - destruct (P x) eqn:E; cbn.
    + split.
      * intros [= <-]. exists x. repeat split; auto. intros; lia.
      * intros (a & Ha & HP & Hmin). destruct i as [|i]; [done|].
        exfalso. assert (P x = false) by (eapply (Hmin 0); [lia|done]). congruence.
    + split.
      * intros H. apply fmap_Some in H as (k & Hk & ->).
        apply IH in Hk as (a & Ha & HP & Hmin). exists a. repeat split; auto.
        intros [|j] b Hj Hb; cbn in Hb; [congruence|]. eapply Hmin; eauto; lia.
      * intros (a & Ha & HP & Hmin). destruct i as [|i]; [cbn in Ha; congruence|].
        cbn in Ha. assert (find_index P l = Some i) as ->.
        { apply IH. exists a. repeat split; auto. intros j b Hj Hb.
          eapply (Hmin (S j)); [lia|done]. }
        reflexivity.
Qed.

Lemma find_index_None {A} (P : A -> bool) l :
  find_index P l = None <-> forall a, a ∈ l -> P a = false.
Proof.
  induction l as [|x l IH]; cbn.
  - split; [by intros _ a ?%elem_of_nil|done].
  - destruct (P x) eqn:E.
    + split; [done|]. intros H. specialize (H x ltac:(left)). congruence.
    + rewrite fmap_None, IH. split.
      * intros H a [->|Ha]%elem_of_cons; eauto.
      * intros H a Ha. apply H. by right.
Qed.

(** ** Finite maps *)

(** The sum of [f] over the values of a map. *)
Definition msum `{Countable K} {V} (f : V -> Z) (m : gmap K V) : Z :=
  map_fold (fun _ v acc => f v + acc)%Z 0%Z m.

Section MapSum.
Context `{Countable K} {V : Type} (f : V -> Z).

Lemma msum_empty : msum f (∅ : gmap K V) = 0%Z.
Proof. apply map_fold_empty. Qed.

Lemma msum_insert_new (m : gmap K V) k v :
  m !! k = None -> msum f (<[k := v]> m) = (f v + msum f m)%Z.
Proof. intros Hk. apply (map_fold_insert_L (fun _ v acc => f v + acc)%Z); [intros; lia|done]. Qed.

Lemma msum_delete (m : gmap K V) k v :
  m !! k = Some v -> msum f (delete k m) = (msum f m - f v)%Z.
Proof.
  intros Hk. rewrite <- (insert_delete_id m k v Hk) at 2.
  rewrite msum_insert_new by apply lookup_delete_eq. lia.
Qed.

Lemma msum_insert_old (m : gmap K V) k v w :
  m !! k = Some w -> msum f (<[k := v]> m) = (msum f m - f w + f v)%Z.
Proof.
  intros Hk. rewrite <- (insert_delete_eq m), msum_insert_new by apply lookup_delete_eq.
  rewrite (msum_delete m k w Hk). lia.
Qed.

Lemma msum_alter (m : gmap K V) k g v :
  m !! k = Some v -> msum f (alter g k m) = (msum f m - f v + f (g v))%Z.
Proof. intros Hk. rewrite (alter_alt_Some _ _ _ _ Hk). by apply msum_insert_old. Qed.

Lemma msum_nonneg (m : gmap K V) :
  (forall k v, m !! k = Some v -> 0 <= f v)%Z -> (0 <= msum f m)%Z.
Proof.
  induction m as [|k v m Hk IH] using map_ind; intros Hf; [by rewrite msum_empty|].
  rewrite msum_insert_new by done.
  pose proof (Hf k v (lookup_insert_eq m k v)).
  assert (0 <= msum f m)%Z; [|lia]. apply IH. intros j w Hj.
  apply (Hf j). rewrite lookup_insert_ne; [done|]. congruence.
Qed.

Lemma msum_union (m1 m2 : gmap K V) :
  m1 ##ₘ m2 -> msum f (m1 ∪ m2) = (msum f m1 + msum f m2)%Z.
Proof.
  induction m1 as [|k v m Hk IH] using map_ind; intros Hd.
  - by rewrite (left_id_L ∅ (∪)), msum_empty.
  - apply map_disjoint_insert_l in Hd as [Hk2 Hd].
    rewrite <- insert_union_l, !msum_insert_new, IH; [lia|done|done|].
    by apply lookup_union_None.
Qed.

(** One value is at most the sum of non-negative values. *)
Lemma msum_lookup_le (m : gmap K V) k v :
  (forall k v, m !! k = Some v -> 0 <= f v)%Z -> m !! k = Some v -> (f v <= msum f m)%Z.
Proof.
  intros Hf Hk. pose proof (msum_delete m k v Hk) as Hd.
  assert (0 <= msum f (delete k m))%Z; [|lia].
  apply msum_nonneg. intros j w Hj. apply lookup_delete_Some in Hj as [_ Hj]. eauto.
Qed.

Lemma msum_ext (g : V -> Z) (m : gmap K V) :
  (forall k v, m !! k = Some v -> f v = g v) -> msum f m = msum g m.
Proof.
  induction m as [|k v m Hk IH] using map_ind; intros Hf; [done|].
  rewrite msum_insert_new by done. unfold msum at 2.
  rewrite (map_fold_insert_L (fun _ v acc => g v + acc)%Z) by (done || (intros; lia)).
  rewrite (Hf k v (lookup_insert_eq m k v)). f_equal. apply IH.
  intros j w Hj. apply (Hf j). rewrite lookup_insert_ne; [done|]. congruence.
Qed.
End MapSum.
