(* ===== verification/RunState.v ===== *)
(** * Run lifecycle

    [packages/protocol/src/run-state.ts]: the closed vocabulary of run states,
    the executable transition graph and the validator every producer and
    consumer of a [run.state] event goes through. *)

From S2P Require Import Prelude.

(** ** Vocabulary *)

(** [RUN_STATES], [RunState] *)
Inductive RunState : Set :=
| requested | collecting | scheduled | running | cancelling | finalizing
| passed | passed_with_skips | failed | skipped | cancelled
| infrastructure_failed | crashed | incomplete | flaky.

Global Instance RunState_eq_dec : EqDecision RunState.
Proof. solve_decision. Defined.

Definition RUN_STATES : list RunState :=
  [requested; collecting; scheduled; running; cancelling; finalizing;
   passed; passed_with_skips; failed; skipped; cancelled;
   infrastructure_failed; crashed; incomplete; flaky].

(** The wire spelling of a state. *)
Definition run_state_name (s : RunState) : string :=
  match s with
  | requested => "requested" | collecting => "collecting"
  | scheduled => "scheduled" | running => "running"
  | cancelling => "cancelling" | finalizing => "finalizing"
  | passed => "passed" | passed_with_skips => "passed-with-skips"
  | failed => "failed" | skipped => "skipped" | cancelled => "cancelled"
  | infrastructure_failed => "infrastructure-failed" | crashed => "crashed"
  | incomplete => "incomplete" | flaky => "flaky"
  end.

Definition TERMINAL_RUN_STATES : list RunState :=
  [passed; passed_with_skips; failed; skipped; cancelled;
   infrastructure_failed; crashed; incomplete; flaky].

(** [RUN_STATE_TRANSITIONS] *)
Definition RUN_STATE_TRANSITIONS (s : RunState) : list RunState :=
  match s with
  | requested => [collecting; cancelling; infrastructure_failed]
  | collecting => [scheduled; cancelling; infrastructure_failed; incomplete]
  | scheduled => [running; cancelling; finalizing; infrastructure_failed; incomplete]
  | running => [cancelling; finalizing; infrastructure_failed; crashed; incomplete]
  | cancelling => [finalizing; cancelled; infrastructure_failed; incomplete]
  | finalizing => TERMINAL_RUN_STATES
  | passed | passed_with_skips | failed | skipped | cancelled
  | infrastructure_failed | crashed | incomplete | flaky => []
  end.

(** [isRunState] on a string value, as the state it names. *)
Definition isRunState (value : string) : option RunState :=
  List.find (fun s => bool_decide (run_state_name s = value)) RUN_STATES.

Definition isTerminalRunState (s : RunState) : bool :=
  bool_decide (s ∈ TERMINAL_RUN_STATES).

Definition canTransitionRunState (from to : RunState) : bool :=
  bool_decide (to ∈ RUN_STATE_TRANSITIONS from).

Inductive RunStateTransitionCode : Set :=
| invalid_run_state
| illegal_run_transition.

(** [validateRunStateTransition] on string values; a value that is not a string
    fails [isRunState] like an unknown string does. *)
Definition validateRunStateTransition (from to : string)
  : result RunStateTransitionCode (RunState * RunState) :=
  match isRunState from, isRunState to with
  | Some f, Some t =>
      if canTransitionRunState f t then Ok (f, t) else Err illegal_run_transition
  | _, _ => Err invalid_run_state
  end.

(** ** The lifecycle as a step relation *)

Definition run_step (from to : RunState) : Prop :=
  canTransitionRunState from to = true.

(** A run starts as [requested]. *)
Definition run_reachable : RunState -> Prop :=
  reachable (fun s => s = requested) run_step.

(** Distance to the end of the lifecycle: every transition lowers it. *)
Definition run_rank (s : RunState) : nat :=
  match s with
  | requested => 6 | collecting => 5 | scheduled => 4 | running => 3
  | cancelling => 2 | finalizing => 1
  | _ => 0
  end.

(** A lifecycle history: the states a run went through, each reached from the
    previous one by an accepted transition. *)
Fixpoint run_history (s : RunState) (l : list RunState) : Prop :=
  match l with
  | [] => True
  | t :: l => run_step s t /\ run_history t l
  end.

(** ** Lemmas *)

Lemma isRunState_name s : isRunState (run_state_name s) = Some s.
Proof. destruct s; reflexivity. Qed.

Lemma isRunState_Some value s : isRunState value = Some s -> run_state_name s = value.
Proof.
  intros H. apply List.find_some in H as [_ H]. by apply bool_decide_eq_true in H.
Qed.

Lemma run_step_rank s t : run_step s t -> (run_rank t < run_rank s)%nat.
Proof. unfold run_step. destruct s, t; vm_compute; intros H; (discriminate H || lia). Qed.
#[export] Hint Resolve run_step_rank : tw.

Lemma terminal_no_step s t : isTerminalRunState s = true -> ~ run_step s t.
Proof. unfold run_step. destruct s, t; vm_compute; congruence. Qed.

Lemma nonterminal_step s : isTerminalRunState s = false -> exists t, run_step s t /\ isTerminalRunState t = true.
Proof.
  intros H. destruct s; try (vm_compute in H; discriminate H).
  all: first [by exists infrastructure_failed | by exists passed].
Qed.

Lemma run_history_length s l : run_history s l -> (length l <= run_rank s)%nat.
Proof.
  revert s. induction l as [|t l IH]; intros s; cbn; [lia|].
  intros [Hs Hl]. apply IH in Hl. apply run_step_rank in Hs. lia.
Qed.

Lemma run_history_app s l k :
  run_history s (l ++ k) <-> run_history s l /\ run_history (List.last l s) k.
Proof.
  revert s. induction l as [|t l IH]; intros s; cbn; [tauto|].
  rewrite IH. destruct l as [|u l]; cbn; [tauto|].
  assert (List.last (u :: l) t = List.last (u :: l) s) as H.
  { clear. revert u. induction l as [|v l IH]; intros u; [done|]. apply IH. }
  cbn in H. rewrite H. tauto.
Qed.

(** ** Properties *)

(** The transition validator accepts exactly the edges of the published
    graph between the wire names of the vocabulary: it answers [Ok (f, t)] iff
    the two strings spell [f] and [t] and [t] is listed under [f]; a string
    outside the vocabulary is always [invalid-run-state], a known pair that is
    not an edge always [illegal-run-transition]. *)
Theorem validateRunStateTransition_spec from to :
  match validateRunStateTransition from to with
  | Ok (f, t) =>
      from = run_state_name f /\ to = run_state_name t /\ t ∈ RUN_STATE_TRANSITIONS f
  | Err invalid_run_state =>
      (forall s, run_state_name s <> from) \/ (forall s, run_state_name s <> to)
  | Err illegal_run_transition =>
      exists f t, from = run_state_name f /\ to = run_state_name t /\
                  t ∉ RUN_STATE_TRANSITIONS f
  end.
Proof.
  unfold validateRunStateTransition.
  destruct (isRunState from) as [f|] eqn:Ef.
  2: { left. intros s <-. by rewrite isRunState_name in Ef. }
  destruct (isRunState to) as [t|] eqn:Et.
  2: { right. intros s <-. by rewrite isRunState_name in Et. }
  apply isRunState_Some in Ef as <-. apply isRunState_Some in Et as <-.
  destruct (canTransitionRunState f t) eqn:E;
    unfold canTransitionRunState in E; breflect; eauto 10.
Qed.

(** Every run ends: a history of accepted transitions has at most the six
    phases, it can always be completed to a terminal state, and once it is in a
    terminal state no transition extends it. *)
Theorem run_lifecycle_ends l :
  run_history requested l ->
  (length l <= 6)%nat /\
  (exists l', run_history requested (l ++ l') /\
     isTerminalRunState (List.last (l ++ l') requested) = true) /\
  (isTerminalRunState (List.last l requested) = true ->
     forall t, ~ run_history requested (l ++ [t])).
Proof.
  intros Hl. split; [by apply run_history_length in Hl|]. split.
  - destruct (isTerminalRunState (List.last l requested)) eqn:E.
    + exists []. by rewrite app_nil_r.
    + destruct (nonterminal_step _ E) as (t & Ht & Htt).
      exists [t]. rewrite List.last_last, run_history_app. cbn. auto.
  - intros Ht t. rewrite run_history_app. intros (_ & Hs & _).
    by eapply terminal_no_step.
Qed.

Lemma run_lifecycle_ends_witness :
  run_history requested [collecting; scheduled; running] /\
  (length [collecting; scheduled; running] <= 6)%nat.
Proof.
  split; [vm_compute; auto|].
  apply (run_lifecycle_ends [collecting; scheduled; running]). vm_compute; auto.
Defined.
