(* ===== verification/JsText.v ===== *)
(** * JavaScript text

    Strings of the language are sequences of UTF-16 code units.  This file
    models the three library facilities the protocol code uses on them: the
    unpaired-surrogate pattern, [TextEncoder] and a fatal [TextDecoder]. *)

From S2P Require Import Prelude.

Local Open Scope Z_scope.

(** A string: its UTF-16 code units. *)
Abbreviation jstring := (list Z).
(** A byte buffer: each element in [0, 256). *)
Abbreviation bytes := (list Z).

(** The code units of an ASCII literal. *)
Fixpoint js (s : string) : jstring :=
  match s with
  | EmptyString => []
  | String c s => Z.of_N (Ascii.N_of_ascii c) :: js s
  end.

Definition is_unit (c : Z) : bool := (0 <=? c) && (c <? 65536).
Definition is_byte (b : Z) : bool := (0 <=? b) && (b <? 256).
Definition is_high (c : Z) : bool := (55296 <=? c) && (c <? 56320).
Definition is_low (c : Z) : bool := (56320 <=? c) && (c <? 57344).

(** [LONE_SURROGATE.test]: a high surrogate not followed by a low one, or a low
    surrogate not preceded by a high one. *)
Fixpoint lone_from (after_high : bool) (s : jstring) : bool :=
  match s with
  | [] => false
  | c :: t =>
      if is_high c then
        match t with d :: _ => negb (is_low d) | [] => true end || lone_from true t
      else if is_low c then negb after_high || lone_from false t
      else lone_from false t
  end.
Definition LONE_SURROGATE_test (s : jstring) : bool := lone_from false s.

(** ** UTF-8 *)

(** The scalar values [TextEncoder] sees: surrogate pairs are joined and an
    unpaired surrogate is replaced by U+FFFD. *)
Fixpoint scalar_values (s : jstring) : list Z :=
  match s with
  | [] => []
  | c :: t =>
      if is_high c then
        match t with
        | d :: t' =>
            if is_low d then (65536 + (c - 55296) * 1024 + (d - 56320)) :: scalar_values t'
            else 65533 :: scalar_values t
        | [] => [65533]
        end
      else if is_low c then 65533 :: scalar_values t
      else c :: scalar_values t
  end.

Definition utf8_scalar (c : Z) : bytes :=
  if c <? 128 then [c]
  else if c <? 2048 then [192 + c / 64; 128 + c mod 64]
  else if c <? 65536 then [224 + c / 4096; 128 + c / 64 mod 64; 128 + c mod 64]
  else [240 + c / 262144; 128 + c / 4096 mod 64; 128 + c / 64 mod 64; 128 + c mod 64].

(** [new TextEncoder().encode] *)
Definition utf8_encode (s : jstring) : bytes := mjoin (utf8_scalar <$> scalar_values s).

(** [utf8(value)], [Buffer.byteLength(value, 'utf8')] *)
Definition utf8_length (s : jstring) : Z := Z.of_nat (length (utf8_encode s)).

Definition utf16_scalar (c : Z) : jstring :=
  if c <? 65536 then [c]
  else [55296 + (c - 65536) / 1024; 56320 + (c - 65536) mod 1024].

Definition is_cont (b : Z) : bool := (128 <=? b) && (b <? 192).
Definition between (lo b hi : Z) : bool := (lo <=? b) && (b <=? hi).

(** The decoder of the Encoding Standard in fatal mode: [None] on any overlong,
    surrogate, out-of-range or truncated sequence. *)
Fixpoint utf8_scalars (bs : bytes) : option (list Z) :=
  match bs with
  | [] => Some []
  | b :: t =>
      if b <? 128 then cons b <$> utf8_scalars t
      else if between 194 b 223 then
        match t with
        | c :: t =>
            if is_cont c then cons ((b - 192) * 64 + (c - 128)) <$> utf8_scalars t else None
        | _ => None
        end
      else if between 224 b 239 then
        match t with
        | c :: d :: t =>
            if (between (if b =? 224 then 160 else 128) c (if b =? 237 then 159 else 191))
               && is_cont d
            then cons ((b - 224) * 4096 + (c - 128) * 64 + (d - 128)) <$> utf8_scalars t
            else None
        | _ => None
        end
      else if between 240 b 244 then
        match t with
        | c :: d :: e :: t =>
            if (between (if b =? 240 then 144 else 128) c (if b =? 244 then 143 else 191))
               && is_cont d && is_cont e
            then cons ((b - 240) * 262144 + (c - 128) * 4096 + (d - 128) * 64 + (e - 128))
                   <$> utf8_scalars t
            else None
        | _ => None
        end
      else None
  end.

(** [new TextDecoder('utf-8', { fatal: true }).decode]; a leading byte-order
    mark is dropped. *)
Definition utf8_decode (bs : bytes) : option jstring :=
  let body := if bool_decide (take 3 bs = [239; 187; 191]) then drop 3 bs else bs in
  (fun l => mjoin (utf16_scalar <$> l)) <$> utf8_scalars body.

(** ** Lemmas *)

(** Well-formed text: code units in range, surrogates paired. *)
Definition well_formed (s : jstring) : Prop :=
  Forall (fun c => is_unit c = true) s /\ LONE_SURROGATE_test s = false.

Definition is_scalar (c : Z) : Prop := 0 <= c < 55296 \/ 57344 <= c < 1114112.

Ltac unfold_units :=
  unfold is_unit, is_byte, is_high, is_low, is_cont, between, is_scalar in *.
Ltac solve_units := unfold_units; breflect; lia.

(** Decides a comparison of integers in the goal by [lia]. *)
Ltac decide_cmp :=
  repeat match goal with
  | |- context [?a <? ?b] =>
      first [rewrite (proj2 (Z.ltb_lt a b)) by lia | rewrite (proj2 (Z.ltb_ge a b)) by lia]
  | |- context [?a <=? ?b] =>
      first [rewrite (proj2 (Z.leb_le a b)) by lia | rewrite (proj2 (Z.leb_gt a b)) by lia]
  | |- context [?a =? ?b] =>
      first [rewrite (proj2 (Z.eqb_eq a b)) by lia | rewrite (proj2 (Z.eqb_neq a b)) by lia]
  end.

(** The base-64 digits of an integer. *)
Lemma digits64 c : 0 <= c -> exists r0 r1 r2 q1 q2 q3,
  c mod 64 = r0 /\ c / 64 = q1 /\ q1 mod 64 = r1 /\ c / 4096 = q2 /\
  q2 mod 64 = r2 /\ c / 262144 = q3 /\
  c = 64 * q1 + r0 /\ q1 = 64 * q2 + r1 /\ q2 = 64 * q3 + r2 /\ 0 <= q3 /\
  0 <= r0 < 64 /\ 0 <= r1 < 64 /\ 0 <= r2 < 64.
Proof.
  intros Hc.
  pose proof (Z.div_div c 64 64 ltac:(lia) ltac:(lia)) as D1.
  pose proof (Z.div_div c 4096 64 ltac:(lia) ltac:(lia)) as D2.
  change (64 * 64) with 4096 in D1. change (4096 * 64) with 262144 in D2.
  exists (c mod 64), (c / 64 mod 64), (c / 4096 mod 64), (c / 64), (c / 4096), (c / 262144).
  repeat split; try done.
  1: apply Z.div_mod; lia.
  1: rewrite <- D1; apply Z.div_mod; lia.
  1: rewrite <- D2; apply Z.div_mod; lia.
  1: apply Z.div_pos; lia.
  all: apply Z.mod_pos_bound; lia.
Qed.

Lemma utf8_scalars_app c bs :
  is_scalar c -> utf8_scalars (utf8_scalar c ++ bs) = cons c <$> utf8_scalars bs.
Proof.
  intros Hc. unfold is_scalar in Hc. unfold utf8_scalar.
  destruct (digits64 c ltac:(lia))
    as (r0 & r1 & r2 & q1 & q2 & q3 & -> & -> & -> & -> & -> & -> & Ec & E1 & E2 & Hq & Hr).
  destruct (Z.ltb_spec c 128).
  { cbn. decide_cmp. done. }
  destruct (Z.ltb_spec c 2048).
  { cbn [app utf8_scalars]. unfold is_cont, between.
    decide_cmp. cbn [andb]. f_equal. f_equal. lia. }
  destruct (Z.ltb_spec c 65536).
  { cbn [app utf8_scalars]. unfold is_cont, between.
    destruct (Z.eqb_spec (224 + q2) 224); destruct (Z.eqb_spec (224 + q2) 237);
      decide_cmp; cbn [andb]; f_equal; f_equal; lia. }
  cbn [app utf8_scalars]. unfold is_cont, between.
  destruct (Z.eqb_spec (240 + q3) 240); destruct (Z.eqb_spec (240 + q3) 244);
    decide_cmp; cbn [andb]; f_equal; f_equal; lia.
Qed.

Lemma utf8_scalars_encode cs :
  Forall is_scalar cs -> utf8_scalars (mjoin (utf8_scalar <$> cs)) = Some cs.
Proof.
  induction 1 as [|c cs Hc _ IH]; [done|].
  rewrite mjoin_fmap_cons, utf8_scalars_app by done. by rewrite IH.
Qed.

(** Strings of code units, walked one scalar value at a time. *)
Lemma jstring_ind2 (P : jstring -> Prop) :
  P [] -> (forall c t, P t -> (forall d t', t = d :: t' -> P t') -> P (c :: t)) ->
  forall s, P s.
Proof.
  intros H0 HS s.
  enough (P s /\ forall d t', s = d :: t' -> P t') by tauto.
  induction s as [|c t [IH IH']]; [split; [done|discriminate]|].
  split; [by apply HS|]. by intros d t' [= _ <-].
Qed.

Lemma lone_after b s : lone_from b s = false -> b = false -> lone_from false s = false.
Proof. by intros H ->. Qed.

Lemma scalar_values_scalar s :
  Forall (fun c => is_unit c = true) s -> Forall is_scalar (scalar_values s).
Proof.
  induction s as [|c t IH IH'] using jstring_ind2; intros Hs; [constructor|].
  apply Forall_cons in Hs as [Hc Ht]. cbn.
  destruct (is_high c) eqn:Eh.
  - destruct t as [|d t']; [repeat constructor; unfold is_scalar; lia|].
    apply Forall_cons in Ht as Ht2. destruct Ht2 as [Hd Ht'].
    destruct (is_low d) eqn:El.
    + constructor; [solve_units|]. eapply IH'; eauto.
    + constructor; [unfold is_scalar; lia|]. by apply IH.
  - destruct (is_low c) eqn:El.
    + constructor; [unfold is_scalar; lia|]. by apply IH.
    + constructor; [solve_units|]. by apply IH.
Qed.

Lemma utf16_scalar_values s :
  Forall (fun c => is_unit c = true) s -> LONE_SURROGATE_test s = false ->
  mjoin (utf16_scalar <$> scalar_values s) = s.
Proof.
  unfold LONE_SURROGATE_test.
  induction s as [|c t IH IH'] using jstring_ind2; intros Hs Hl; [done|].
  apply Forall_cons in Hs as [Hc Ht]. cbn in Hl. cbn [scalar_values].
  destruct (is_high c) eqn:Eh.
  - apply orb_false_iff in Hl as [Hd Hl]. destruct t as [|d t']; [discriminate|].
    apply negb_false_iff in Hd. apply Forall_cons in Ht as [Hdu Ht'].
    cbn in Hl. assert (is_high d = false) as Ehd by (destruct (is_high d) eqn:?; [solve_units|done]).
    rewrite Ehd, Hd in Hl. cbn in Hl. rewrite Hd, mjoin_fmap_cons, (IH' d t') by done.
    unfold utf16_scalar, is_high, is_low in *. breflect. decide_cmp. cbn.
    replace (65536 + (c - 55296) * 1024 + (d - 56320) - 65536)
      with ((c - 55296) * 1024 + (d - 56320)) by lia.
    rewrite Z.div_add_l, Z.div_small by lia.
    rewrite (Z.add_comm (_ * 1024)), Z.mod_add, Z.mod_small by lia.
    repeat f_equal; lia.
  - destruct (is_low c) eqn:El; [discriminate|].
    rewrite mjoin_fmap_cons, IH by done. unfold utf16_scalar.
    unfold is_unit, is_high, is_low in *. breflect. decide_cmp. done.
Qed.

(** Only U+FEFF encodes to the byte-order mark. *)
Lemma utf8_scalar_bom c bs :
  is_scalar c -> take 3 (utf8_scalar c ++ bs) = [239; 187; 191] -> c = 65279.
Proof.
  intros Hc. unfold is_scalar in Hc. unfold utf8_scalar.
  destruct (digits64 c ltac:(lia))
    as (r0 & r1 & r2 & q1 & q2 & q3 & -> & -> & -> & -> & -> & -> & Ec & E1 & E2 & Hq & Hr).
  destruct (Z.ltb_spec c 128); [|destruct (Z.ltb_spec c 2048); [|destruct (Z.ltb_spec c 65536)]];
    cbn; intros H'; injection H'; lia.
Qed.

Lemma scalar_values_head s l :
  Forall (fun c => is_unit c = true) s -> scalar_values s = 65279 :: l -> head s = Some 65279.
Proof.
  intros Hu Hs. destruct s as [|u t]; [done|]. cbn in Hs |- *.
  apply Forall_cons in Hu as [Hu0 _].
  destruct (is_high u) eqn:Eh.
  - destruct t as [|d t']; [injection Hs; lia|].
    destruct (is_low d) eqn:El; injection Hs; solve_units.
  - destruct (is_low u); injection Hs; intros; [lia|congruence].
Qed.

(** A text that does not begin with U+FEFF keeps all its units. *)
Lemma utf8_decode_encode s :
  well_formed s -> head s <> Some 65279 -> utf8_decode (utf8_encode s) = Some s.
Proof.
  intros [Hu Hl] Hb. pose proof (scalar_values_scalar s Hu) as Hsc.
  unfold utf8_decode, utf8_encode. rewrite bool_decide_eq_false_2.
  - rewrite utf8_scalars_encode by done. cbn. f_equal. by apply utf16_scalar_values.
  - intros Hr. apply Hb. destruct (scalar_values s) as [|c l] eqn:E; [done|].
    apply Forall_cons in Hsc as [Hc _]. rewrite mjoin_fmap_cons in Hr.
    apply utf8_scalar_bom in Hr as ->; [|done]. by eapply scalar_values_head.
Qed.

(** ** Decimal numerals *)

(** [String(n)] for a natural number; the fuel is at least the digits of [n]. *)
Fixpoint decimal_from (fuel : nat) (n : Z) : jstring :=
  match fuel with
  | O => []
  | S fuel => if n <? 10 then [48 + n] else decimal_from fuel (n / 10) ++ [48 + n mod 10]
  end.
Definition decimal (n : Z) : jstring := decimal_from (S (Z.to_nat n)) n.

(** [Number(s)] for a string of decimal digits. *)
Definition parse_decimal (s : jstring) : Z := foldl (fun acc c => acc * 10 + (c - 48)) 0 s.

Definition digit (c : Z) : Prop := 48 <= c <= 57.

Lemma decimal_from_spec fuel n :
  0 <= n < Z.of_nat fuel ->
  Forall digit (decimal_from fuel n) /\ parse_decimal (decimal_from fuel n) = n /\
  (exists c t, decimal_from fuel n = c :: t /\ (0 < n -> c <> 48)).
Proof.
  revert n. induction fuel as [|fuel IH]; intros n Hn; [lia|]. cbn [decimal_from].
  destruct (Z.ltb_spec n 10).
  - split_and!.
    + constructor; [unfold digit; lia|constructor].
    + unfold parse_decimal. cbn. lia.
    + do 2 eexists. split; [done|]. lia.
  - pose proof (Z.div_mod n 10 ltac:(lia)). pose proof (Z.mod_pos_bound n 10 ltac:(lia)).
    destruct (IH (n / 10) ltac:(lia)) as (Hd & Hp & c & t & Hc & Hz).
    split_and!.
    + apply Forall_app. split; [done|]. constructor; [unfold digit; lia|constructor].
    + unfold parse_decimal in *. rewrite foldl_app, Hp. cbn [foldl]. lia.
    + exists c, (t ++ [48 + n mod 10]). rewrite Hc. split; [done|]. intros _. apply Hz. lia.
Qed.

Lemma decimal_spec n :
  0 <= n -> Forall digit (decimal n) /\ parse_decimal (decimal n) = n /\
  (exists c t, decimal n = c :: t /\ (0 < n -> c <> 48)).
Proof. intros Hn. apply decimal_from_spec. lia. Qed.

Lemma decimal_from_length fuel n k :
  0 <= n < Z.of_nat fuel -> n < 10 ^ Z.of_nat (S k) -> (length (decimal_from fuel n) <= S k)%nat.
Proof.
  revert n k. induction fuel as [|fuel IH]; intros n k Hn Hk; [lia|]. cbn [decimal_from].
  destruct (Z.ltb_spec n 10); [cbn; lia|].
  pose proof (Z.div_mod n 10 ltac:(lia)). pose proof (Z.mod_pos_bound n 10 ltac:(lia)).
  destruct k as [|k]; [cbn in Hk; lia|].
  rewrite length_app. cbn [length].
  enough (length (decimal_from fuel (n / 10)) <= S k)%nat by lia.
  apply IH; [lia|]. rewrite Nat2Z.inj_succ, Z.pow_succ_r in Hk by lia. lia.
Qed.

Lemma parse_decimal_snoc s c : parse_decimal (s ++ [c]) = parse_decimal s * 10 + (c - 48).
Proof. unfold parse_decimal. by rewrite foldl_app. Qed.

Lemma parse_decimal_bounds s :
  Forall digit s -> 0 <= parse_decimal s < 10 ^ Z.of_nat (length s).
Proof.
  induction s as [|c s IH] using rev_ind; intros H; [cbn; lia|].
  apply Forall_app in H as [Hs Hc]. apply Forall_cons in Hc as [Hc _]. unfold digit in Hc.
  rewrite parse_decimal_snoc, length_app. cbn [length]. specialize (IH Hs).
  rewrite Nat2Z.inj_add, Z.pow_add_r by lia. change (10 ^ Z.of_nat 1) with 10. lia.
Qed.

Lemma parse_decimal_pos c s :
  Forall digit (c :: s) -> c <> 48 -> 10 ^ Z.of_nat (length s) <= parse_decimal (c :: s).
Proof.
  intros H Hc. induction s as [|d s IH] using rev_ind.
  - apply Forall_cons in H as [H _]. unfold digit in H. unfold parse_decimal. cbn. lia.
  - rewrite app_comm_cons in H. apply Forall_app in H as [H Hd]. apply Forall_cons in Hd as [Hd _].
    unfold digit in Hd. specialize (IH H). rewrite app_comm_cons, parse_decimal_snoc, length_app.
    cbn [length]. rewrite Nat2Z.inj_add, Z.pow_add_r by lia. change (10 ^ Z.of_nat 1) with 10. lia.
Qed.

(** The numeral without a leading zero is the only one. *)
Lemma decimal_from_parse fuel s c t :
  s = c :: t -> Forall digit s -> c <> 48 -> parse_decimal s < Z.of_nat fuel ->
  decimal_from fuel (parse_decimal s) = s.
Proof.
  intros -> Hd Hc. revert fuel. induction t as [|d t IH] using rev_ind; intros fuel Hf.
  - apply Forall_cons in Hd as [Hd _]. unfold digit in Hd.
    assert (parse_decimal [c] = c - 48) as E by (unfold parse_decimal; cbn; lia).
    rewrite E in *. destruct fuel as [|fuel]; [lia|]. cbn [decimal_from].
    destruct (Z.ltb_spec (c - 48) 10); [|lia]. f_equal. lia.
  - rewrite app_comm_cons in *. rewrite parse_decimal_snoc in *.
    apply Forall_app in Hd as [Hd Hd']. apply Forall_cons in Hd' as [Hd' _]. unfold digit in Hd'.
    pose proof (parse_decimal_pos c t Hd Hc). pose proof (Z.pow_pos_nonneg 10 (Z.of_nat (length t))).
    destruct fuel as [|fuel]; [lia|]. cbn [decimal_from].
    destruct (Z.ltb_spec (parse_decimal (c :: t) * 10 + (d - 48)) 10); [lia|].
    assert ((parse_decimal (c :: t) * 10 + (d - 48)) / 10 = parse_decimal (c :: t)) as ->.
    { symmetry. apply (Z.div_unique _ _ _ (d - 48)); lia. }
    assert ((parse_decimal (c :: t) * 10 + (d - 48)) mod 10 = d - 48) as ->.
    { symmetry. apply (Z.mod_unique _ _ (parse_decimal (c :: t))); lia. }
    rewrite IH by (done || lia). f_equal. f_equal. lia.
Qed.

Lemma decimal_parse c t :
  Forall digit (c :: t) -> c <> 48 -> decimal (parse_decimal (c :: t)) = c :: t.
Proof.
  intros Hd Hc. pose proof (parse_decimal_bounds _ Hd). unfold decimal.
  apply (decimal_from_parse _ (c :: t) c t); try done. lia.
Qed.

Definition is_digit (c : Z) : bool := (48 <=? c) && (c <=? 57).

(** The digits a text starts with, and the rest. *)
Fixpoint digits_span (s : jstring) : jstring * jstring :=
  match s with
  | c :: t => if is_digit c then let '(d, r) := digits_span t in (c :: d, r) else ([], s)
  | [] => ([], [])
  end.
Lemma is_digit_spec c : is_digit c = true <-> digit c.
Proof. unfold is_digit, digit. rewrite andb_true_iff, !Z.leb_le. done. Qed.

Lemma digits_span_spec s ds rest :
  digits_span s = (ds, rest) ->
  s = ds ++ rest /\ Forall digit ds /\ (forall c t, rest = c :: t -> is_digit c = false).
Proof.
  revert ds rest. induction s as [|c s IH]; intros ds rest; cbn.
  - intros [= <- <-]. done.
  - destruct (is_digit c) eqn:E.
    + destruct (digits_span s) as [d r]. intros [= <- <-]. destruct (IH d r eq_refl) as (-> & Hd & Hr).
      split_and!; [done|constructor; [by apply is_digit_spec|done]|done].
    + intros [= <- <-]. split_and!; [done|constructor|]. by intros c' t [= <- _].
Qed.

Lemma digits_span_app ds c rest :
  Forall digit ds -> is_digit c = false -> digits_span (ds ++ c :: rest) = (ds, c :: rest).
Proof.
  intros Hd Hc. induction Hd as [|d ds Hd Hds IH]; cbn; [by rewrite Hc|].
  apply is_digit_spec in Hd. by rewrite Hd, IH.
Qed.

Lemma utf8_encode_ascii s : Forall (fun c => 0 <= c < 128) s -> utf8_encode s = s.
Proof.
  unfold utf8_encode. induction 1 as [|c s Hc Hs IH]; [done|]. cbn [scalar_values].
  assert (is_high c = false /\ is_low c = false) as [-> ->].
  { unfold is_high, is_low. destruct (Z.leb_spec 55296 c), (Z.leb_spec 56320 c); split; done || (exfalso; lia). }
  rewrite mjoin_fmap_cons, IH. unfold utf8_scalar. by rewrite (proj2 (Z.ltb_lt c 128)) by lia.
Qed.
