(* ===== verification/Dto.v ===== *)
(** * DTO projection

    [projectDto] of [packages/protocol/src/framing.ts] copies an untrusted
    object graph into a frozen plain tree.  The graph lives in a heap of
    objects, so that aliases, cycles, accessors, holes, foreign prototypes and
    proxies are values the code can be run on; the tree is [json]. *)

From S2P Require Import Prelude JsText.

#[local] Set Warnings "-register-all".

(** ** Errors *)

(** [ProtocolViolationCode] *)
Inductive ViolationCode : Set :=
| frame_oversized | frame_malformed | frame_encoding | decoder_poisoned
| dto_scalar | dto_string | dto_alias | dto_accessor | dto_symbol
| dto_prototype | dto_sparse | dto_key | dto_depth | marker_argument.

Global Instance ViolationCode_eq_dec : EqDecision ViolationCode.
Proof. solve_decision. Defined.

(** ** Values and objects of the language *)

(** [value: unknown]; [VOther] is a bigint, a function or a symbol.  [VNum] holds
    every number but the negative zero, which is a value of its own. *)
Inductive value : Type :=
| VUndefined
| VNull
| VBool (b : bool)
| VNum (n : number)
| VMinusZero
| VStr (s : jstring)
| VOther
| VRef (a : positive).

(** [Object.getOwnPropertyDescriptor] *)
Inductive descriptor : Type :=
| DataProperty (v : value) (enumerable : bool)
| AccessorProperty (enumerable : bool).

Inductive prototype : Set :=
| ObjectPrototype | ArrayPrototype | NullPrototype | ForeignPrototype.

Global Instance prototype_eq_dec : EqDecision prototype.
Proof. solve_decision. Defined.

(** What [Array.isArray] and the own properties say of an object.  An array has
    one slot per index below its [length], [None] for a hole, and a number of
    own string properties other than its indices and [length], [hidden] of which
    are not enumerable. *)
Inductive contents : Type :=
| ArrayContents (slots : list (option descriptor)) (extras hidden : nat)
| ObjectContents (props : list (jstring * descriptor)).

Record object : Type := Object {
  o_proxy : bool;
  o_symbols : nat;
  o_prototype : prototype;
  o_contents : contents;
}.

Abbreviation heap := (gmap positive object).

(** A projected, frozen tree; the negative zero is kept apart as in [value]. *)
Inductive json : Type :=
| JNull
| JBool (b : bool)
| JNum (n : number)
| JMinusZero
| JStr (s : jstring)
| JArr (items : list json)
| JObj (members : list (jstring * json)).

(** The number a tree is, up to [===]. *)
Definition json_number (j : json) : option number :=
  match j with JNum n => Some n | JMinusZero => Some (int 0) | _ => None end.

(** [RESERVED_KEYS] *)
Definition RESERVED_KEYS : list jstring :=
  [js "__proto__"; js "constructor"; js "prototype"].

(** ** The projection *)

Definition projectScalar (v : value) : result ViolationCode json :=
  match v with
  | VNull => Ok JNull
  | VBool b => Ok (JBool b)
  | VNum n => if isFinite n then Ok (JNum n) else Err dto_scalar
  | VMinusZero => Ok JMinusZero
  | VStr s => if LONE_SURROGATE_test s then Err dto_string else Ok (JStr s)
  | _ => Err dto_scalar
  end.

Section Project.
(** [ownedProjectedDtos]: the trees earlier projections produced, by the
    address of the frozen object. *)
Context (h : heap) (owned : gmap positive json).

Abbreviation visit := (value -> gset positive -> result ViolationCode (json * gset positive)).

Fixpoint projectSlots (project : visit) (slots : list (option descriptor))
    (seen : gset positive) : result ViolationCode (list json * gset positive) :=
  match slots with
  | [] => Ok ([], seen)
  | None :: _ => Err dto_sparse
  | Some (AccessorProperty _) :: _ => Err dto_accessor
  | Some (DataProperty v _) :: slots =>
      match project v seen with
      | Err e => Err e
      | Ok (j, seen) =>
          match projectSlots project slots seen with
          | Err e => Err e
          | Ok (js, seen) => Ok (j :: js, seen)
          end
      end
  end.

Definition projectArray (project : visit) (proto : prototype)
    (slots : list (option descriptor)) (extras : nat) (seen : gset positive)
    : result ViolationCode (json * gset positive) :=
  if bool_decide (proto <> ArrayPrototype) then Err dto_prototype
  else match projectSlots project slots seen with
       | Err e => Err e
       | Ok (js, seen) => if (extras =? 0)%nat then Ok (JArr js, seen) else Err dto_sparse
       end.

Fixpoint projectProps (project : visit) (props : list (jstring * descriptor))
    (seen : gset positive) : result ViolationCode (list (jstring * json) * gset positive) :=
  match props with
  | [] => Ok ([], seen)
  | (key, d) :: props =>
      if bool_decide (key ∈ RESERVED_KEYS) then Err dto_key
      else match d with
      | AccessorProperty _ => Err dto_accessor
      | DataProperty v enumerable =>
          if negb enumerable then Err dto_key
          else if LONE_SURROGATE_test key then Err dto_string
          else match project v seen with
          | Err e => Err e
          | Ok (j, seen) =>
              match projectProps project props seen with
              | Err e => Err e
              | Ok (js, seen) => Ok ((key, j) :: js, seen)
              end
          end
      end
  end.

Definition projectObject (project : visit) (proto : prototype)
    (props : list (jstring * descriptor)) (seen : gset positive)
    : result ViolationCode (json * gset positive) :=
  if bool_decide (proto <> ObjectPrototype /\ proto <> NullPrototype) then Err dto_prototype
  else match projectProps project props seen with
       | Err e => Err e
       | Ok (js, seen) => Ok (JObj js, seen)
       end.

(** [projectNode] at [depth] with [room = maxDepth + 1 - depth] levels left,
    so [depth > maxDepth] is [room = 0].  Every reference of the language has
    an object; a dangling one is refused like a foreign object. *)
Fixpoint projectNode (room : nat) (v : value) (seen : gset positive)
    : result ViolationCode (json * gset positive) :=
  match v with
  | VRef a =>
      match owned !! a with
      | Some j => Ok (j, seen)
      | None =>
          match room with
          | O => Err dto_depth
          | S room =>
              match h !! a with
              | None => Err dto_prototype
              | Some o =>
                  if o_proxy o then Err dto_prototype
                  else if bool_decide (a ∈ seen) then Err dto_alias
                  else if negb (o_symbols o =? 0)%nat then Err dto_symbol
                  else match o_contents o with
                  | ArrayContents slots extras _ =>
                      projectArray (projectNode room) (o_prototype o) slots extras ({[a]} ∪ seen)
                  | ObjectContents props =>
                      projectObject (projectNode room) (o_prototype o) props ({[a]} ∪ seen)
                  end
              end
          end
      end
  | _ =>
      match projectScalar v with
      | Err e => Err e
      | Ok j => Ok (j, seen)
      end
  end.

Definition projectDto (v : value) (maxDepth : number) : result ViolationCode json :=
  match to_safe_integer maxDepth with
  | None => Err dto_depth
  | Some d =>
      if (d <? 0)%Z then Err dto_depth
      else match projectNode (Z.to_nat (d + 1)) v ∅ with
           | Err e => Err e
           | Ok (j, _) => Ok j
           end
  end.

(** ** What a projection means

    [plain room v j as_] holds when [v] is the root of a plain tree of at
    most [room] levels whose copy is [j] and whose objects, in order of
    visit, are [as_]: dense arrays of the built-in prototype, objects of a
    plain prototype with enumerable data properties and unreserved
    well-formed keys, finite numbers and well-formed strings. *)

Inductive plain_slots (P : value -> json -> list positive -> Prop)
    : list (option descriptor) -> list json -> list positive -> Prop :=
| plain_slots_nil : plain_slots P [] [] []
| plain_slots_cons v e j as1 slots js as2 :
    P v j as1 -> plain_slots P slots js as2 ->
    plain_slots P (Some (DataProperty v e) :: slots) (j :: js) (as1 ++ as2).

Inductive plain_props (P : value -> json -> list positive -> Prop)
    : list (jstring * descriptor) -> list (jstring * json) -> list positive -> Prop :=
| plain_props_nil : plain_props P [] [] []
| plain_props_cons key v j as1 props js as2 :
    key ∉ RESERVED_KEYS -> LONE_SURROGATE_test key = false ->
    P v j as1 -> plain_props P props js as2 ->
    plain_props P ((key, DataProperty v true) :: props) ((key, j) :: js) (as1 ++ as2).

(** The own state of an object a tree may contain. *)
Definition plain_object (o : object) : Prop :=
  o_proxy o = false /\ o_symbols o = 0%nat /\
  match o_contents o with
  | ArrayContents _ extras _ => o_prototype o = ArrayPrototype /\ extras = 0%nat
  | ObjectContents _ => o_prototype o = ObjectPrototype \/ o_prototype o = NullPrototype
  end.

Fixpoint plain (room : nat) (v : value) (j : json) (as_ : list positive) : Prop :=
  match v with
  | VRef a =>
      (owned !! a = Some j /\ as_ = []) \/
      (owned !! a = None /\
       match room with
       | O => False
       | S room =>
           exists o rest, h !! a = Some o /\ plain_object o /\ as_ = a :: rest /\
             match o_contents o with
             | ArrayContents slots _ _ =>
                 exists js, j = JArr js /\ plain_slots (plain room) slots js rest
             | ObjectContents props =>
                 exists js, j = JObj js /\ plain_props (plain room) props js rest
             end
       end)
  | _ => projectScalar v = Ok j /\ as_ = []
  end.
End Project.

(** ** Lemmas *)

(** Addresses visited once, none of them seen before. *)
Definition fresh (as_ : list positive) (seen : gset positive) : Prop :=
  NoDup as_ /\ forall a, a ∈ as_ -> a ∉ seen.

Lemma fresh_nil seen : fresh [] seen.
Proof. split; [constructor|]. intros a Ha. by apply not_elem_of_nil in Ha. Qed.

Lemma fresh_app as1 as2 seen :
  fresh (as1 ++ as2) seen <-> fresh as1 seen /\ fresh as2 (list_to_set as1 ∪ seen).
Proof. unfold fresh. rewrite NoDup_app. set_solver. Qed.

Lemma fresh_cons a as_ seen :
  fresh (a :: as_) seen <-> a ∉ seen /\ fresh as_ ({[a]} ∪ seen).
Proof. unfold fresh. rewrite NoDup_cons. set_solver. Qed.

Section ProjectFacts.
Context (h : heap) (owned : gmap positive json).

(** [f] computes the relation [P] and records what it visits. *)
Definition computes
    (f : value -> gset positive -> result ViolationCode (json * gset positive))
    (P : value -> json -> list positive -> Prop) : Prop :=
  forall v seen j seen',
    f v seen = Ok (j, seen') <->
    exists as_, P v j as_ /\ fresh as_ seen /\ seen' = list_to_set as_ ∪ seen.

Lemma projectSlots_spec f P slots seen js seen' :
  computes f P ->
  projectSlots f slots seen = Ok (js, seen') <->
  exists as_, plain_slots P slots js as_ /\ fresh as_ seen /\ seen' = list_to_set as_ ∪ seen.
Proof.
  intros HP. revert seen js seen'.
  induction slots as [|[[v e|]|] slots IH]; intros seen js seen'; cbn.
  - split.
    + intros [= <- <-]. exists []. repeat split; try constructor.
      * intros a Ha. by apply not_elem_of_nil in Ha.
      * set_solver.
    + intros (as_ & H & _ & ->). inversion H; subst. do 2 f_equal. set_solver.
  - split.
    + destruct (f v seen) as [[j s1]|] eqn:E; [|discriminate].
      destruct (projectSlots f slots s1) as [[js' s2]|] eqn:E2; [|discriminate].
      intros [= <- <-]. apply HP in E as (as1 & H1 & F1 & ->).
      apply IH in E2 as (as2 & H2 & F2 & ->).
      exists (as1 ++ as2). rewrite fresh_app.
      repeat split; [by econstructor|apply F1|apply F1|apply F2|apply F2|set_solver].
    + intros (as_ & H & F & ->). inversion H as [|v' e' j as1 slots' js' as2 HPv Hs]; subst.
      apply fresh_app in F as [F1 F2].
      rewrite (proj2 (HP v seen j _) (ex_intro _ as1 (conj HPv (conj F1 eq_refl)))).
      rewrite (proj2 (IH _ js' _) (ex_intro _ as2 (conj Hs (conj F2 eq_refl)))).
      do 2 f_equal. set_solver.
  - split; [discriminate|]. intros (as_ & H & _). inversion H.
  - split; [discriminate|]. intros (as_ & H & _). inversion H.
Qed.

Lemma projectProps_spec f P props seen js seen' :
  computes f P ->
  projectProps f props seen = Ok (js, seen') <->
  exists as_, plain_props P props js as_ /\ fresh as_ seen /\ seen' = list_to_set as_ ∪ seen.
Proof.
  intros HP. revert seen js seen'.
  induction props as [|[key d] props IH]; intros seen js seen'; cbn.
  - split.
    + intros [= <- <-]. exists []. repeat split; try constructor.
      * intros a Ha. by apply not_elem_of_nil in Ha.
      * set_solver.
    + intros (as_ & H & _ & ->). inversion H; subst. do 2 f_equal. set_solver.
  - case_bool_decide as Hk.
    { split; [discriminate|]. intros (as_ & H & _). inversion H; subst; contradiction. }
    destruct d as [v e|]; [|split; [discriminate|intros (as_ & H & _); inversion H]].
    destruct e; cbn; [|split; [discriminate|intros (as_ & H & _); inversion H]].
    destruct (LONE_SURROGATE_test key) eqn:El.
    { split; [discriminate|]. intros (as_ & H & _). inversion H; congruence. }
    split.
    + destruct (f v seen) as [[j s1]|] eqn:E; [|discriminate].
      destruct (projectProps f props s1) as [[js' s2]|] eqn:E2; [|discriminate].
      intros [= <- <-]. apply HP in E as (as1 & H1 & F1 & ->).
      apply IH in E2 as (as2 & H2 & F2 & ->).
      exists (as1 ++ as2). rewrite fresh_app.
      repeat split; [by econstructor|apply F1|apply F1|apply F2|apply F2|set_solver].
    + intros (as_ & H & F & ->).
      inversion H as [|key' v' j as1 props' js' as2 _ _ HPv Hs]; subst.
      apply fresh_app in F as [F1 F2].
      rewrite (proj2 (HP v seen j _) (ex_intro _ as1 (conj HPv (conj F1 eq_refl)))).
      rewrite (proj2 (IH _ js' _) (ex_intro _ as2 (conj Hs (conj F2 eq_refl)))).
      do 2 f_equal. set_solver.
Qed.

Lemma projectArray_spec f P proto slots extras seen j seen' :
  computes f P ->
  projectArray f proto slots extras seen = Ok (j, seen') <->
  proto = ArrayPrototype /\ extras = 0%nat /\
  exists js as_, j = JArr js /\ plain_slots P slots js as_ /\ fresh as_ seen /\
    seen' = list_to_set as_ ∪ seen.
Proof.
  intros HP. unfold projectArray. case_bool_decide as Hp.
  { split; [discriminate|]. naive_solver. }
  subst proto. split.
  - destruct (projectSlots f slots seen) as [[js s1]|] eqn:E; [|discriminate].
    destruct (Nat.eqb_spec extras 0); [|discriminate]. intros [= <- <-].
    apply (projectSlots_spec _ P) in E as (as_ & H & F & ->); [|done]. eauto 10.
  - intros (_ & -> & js & as_ & -> & H & F & ->).
    rewrite (proj2 (projectSlots_spec f P slots seen js _ HP)
      (ex_intro _ as_ (conj H (conj F eq_refl)))). done.
Qed.

Lemma projectObject_spec f P proto props seen j seen' :
  computes f P ->
  projectObject f proto props seen = Ok (j, seen') <->
  (proto = ObjectPrototype \/ proto = NullPrototype) /\
  exists js as_, j = JObj js /\ plain_props P props js as_ /\ fresh as_ seen /\
    seen' = list_to_set as_ ∪ seen.
Proof.
  intros HP. unfold projectObject. case_bool_decide as Hp.
  { split; [discriminate|]. naive_solver. }
  assert (proto = ObjectPrototype \/ proto = NullPrototype) as Hp' by (destruct proto; naive_solver).
  split.
  - destruct (projectProps f props seen) as [[js s1]|] eqn:E; [|discriminate].
    intros [= <- <-]. apply (projectProps_spec _ P) in E as (as_ & H & F & ->); [|done].
    eauto 10.
  - intros (_ & js & as_ & -> & H & F & ->).
    rewrite (proj2 (projectProps_spec f P props seen js _ HP)
      (ex_intro _ as_ (conj H (conj F eq_refl)))). done.
Qed.

Lemma scalar_computes v seen j seen' :
  match projectScalar v with Err e => Err e | Ok j => Ok (j, seen) end = Ok (j, seen') <->
  exists as_ : list positive, (projectScalar v = Ok j /\ as_ = []) /\ fresh as_ seen /\
    seen' = list_to_set as_ ∪ seen.
Proof.
  split.
  - destruct (projectScalar v) as [j'|] eqn:E; [|discriminate]. intros [= <- <-].
    exists []. split; [done|]. split; [apply fresh_nil|set_solver].
  - intros (as_ & [-> ->] & _ & ->). do 2 f_equal. set_solver.
Qed.

Lemma projectNode_computes room : computes (projectNode h owned room) (plain h owned room).
Proof.
  induction room as [|room IH]; intros v seen j seen'.
  all: destruct v as [| |bo|n| |s| |a];
    [apply (scalar_computes VUndefined)|apply (scalar_computes VNull)
    |apply (scalar_computes (VBool bo))|apply (scalar_computes (VNum n))|apply (scalar_computes VMinusZero)
    |apply (scalar_computes (VStr s))|apply (scalar_computes VOther)|].
  all: cbn; destruct (owned !! a) as [jo|] eqn:Eo.
  all: try (split;
    [intros [= <- <-]; exists []; split; [by left|]; split; [apply fresh_nil|set_solver]
    |intros (as_ & [[[= ->] ->]|[? _]] & _ & ->); [do 2 f_equal; set_solver|done]]).
  { split; [discriminate|]. intros (as_ & [[? _]|[_ []]] & _); done. }
  split.
  - destruct (h !! a) as [o|] eqn:Eh; [|discriminate].
    destruct (o_proxy o) eqn:Epx; [discriminate|].
    case_bool_decide as Hs; [discriminate|].
    destruct (Nat.eqb_spec (o_symbols o) 0); [|discriminate]. cbn.
    destruct (o_contents o) as [slots extras|props] eqn:Ec; intros H.
    + apply (projectArray_spec _ (plain h owned room)) in H
        as (Hp & He & js & as_ & -> & Hsl & F & ->); [|done].
      assert (plain_object o) by (unfold plain_object; rewrite Ec; auto).
      exists (a :: as_). split_and!; [|by apply fresh_cons|set_solver].
      right. split; [done|]. exists o, as_. split_and!; [done..|]. rewrite Ec. eauto.
    + apply (projectObject_spec _ (plain h owned room)) in H
        as (Hp & js & as_ & -> & Hsl & F & ->); [|done].
      assert (plain_object o) by (unfold plain_object; rewrite Ec; auto).
      exists (a :: as_). split_and!; [|by apply fresh_cons|set_solver].
      right. split; [done|]. exists o, as_. split_and!; [done..|]. rewrite Ec. eauto.
  - intros (as_ & [[? _]|(_ & o & rest & Ho & (Hpx & Hsy & Hob) & -> & Hc)] & F & ->); [done|].
    apply fresh_cons in F as [Hns F].
    rewrite Ho, Hpx, bool_decide_eq_false_2, Hsy by done. cbn.
    destruct (o_contents o) as [slots extras|props].
    + destruct Hc as (js & -> & Hsl). destruct Hob as [Hp ->].
      apply (projectArray_spec _ (plain h owned room)); [done|]. repeat split; [done|].
      exists js, rest. repeat split; [done|apply F|apply F|set_solver].
    + destruct Hc as (js & -> & Hsl).
      apply (projectObject_spec _ (plain h owned room)); [done|]. split; [done|].
      exists js, rest. repeat split; [done|apply F|apply F|set_solver].
Qed.
End ProjectFacts.

(** ** Safe trees *)

(** The trees every consumer may rely on: finite numbers, paired surrogates,
    no reserved property name. *)
Fixpoint json_safe (j : json) : bool :=
  match j with
  | JNull | JBool _ | JMinusZero => true
  | JNum n => isFinite n
  | JStr s => negb (LONE_SURROGATE_test s)
  | JArr l => forallb json_safe l
  | JObj l => forallb (fun '(k, j) =>
      negb (bool_decide (k ∈ RESERVED_KEYS)) && negb (LONE_SURROGATE_test k) && json_safe j) l
  end.

(** Levels of nesting; a scalar has none. *)
Fixpoint json_depth (j : json) : nat :=
  match j with
  | JArr l => S (max_list_with json_depth l)
  | JObj l => S (max_list_with (fun kj => json_depth (snd kj)) l)
  | _ => 0
  end.

Lemma projectScalar_safe v j :
  projectScalar v = Ok j -> json_safe j = true /\ json_depth j = 0%nat.
Proof.
  destruct v; cbn; intros H; simplify_eq/=; try done.
  - destruct (isFinite n) eqn:E; simplify_eq/=. by rewrite E.
  - destruct (LONE_SURROGATE_test s) eqn:E; simplify_eq/=. by rewrite E.
Qed.

Lemma plain_slots_safe P room slots js as_ :
  (forall v j as_, P v j as_ -> json_safe j = true /\ (json_depth j <= room)%nat) ->
  plain_slots P slots js as_ ->
  forallb json_safe js = true /\ (max_list_with json_depth js <= room)%nat.
Proof.
  intros HP. induction 1 as [|v e j as1 slots js as2 Hv _ [IH1 IH2]]; cbn; [auto with tw|].
  apply HP in Hv as [-> Hd]. rewrite IH1. cbn. lia.
Qed.

Lemma plain_props_safe P room props js as_ :
  (forall v j as_, P v j as_ -> json_safe j = true /\ (json_depth j <= room)%nat) ->
  plain_props P props js as_ ->
  json_safe (JObj js) = true /\ (max_list_with (fun kj => json_depth (snd kj)) js <= room)%nat.
Proof.
  intros HP. induction 1 as [|key v j as1 props js as2 Hk Hl Hv _ [IH1 IH2]]; cbn; [auto with tw|].
  apply HP in Hv as [-> Hd]. cbn in IH1. rewrite IH1, Hl, bool_decide_eq_false_2 by done.
  cbn. lia.
Qed.

Lemma plain_safe h room v j as_ :
  plain h ∅ room v j as_ -> json_safe j = true /\ (json_depth j <= room)%nat.
Proof.
  revert v j as_. induction room as [|room IH]; intros v j as_;
    (destruct v as [| |bo|n| |s| |a];
     [intros [H _]; apply projectScalar_safe in H as [? ->]; auto with tw..|]);
    cbn; rewrite lookup_empty; intros [[? _]|[_ H]]; try done.
  destruct H as (o & rest & _ & _ & _ & H).
  destruct (o_contents o); destruct H as (js & -> & H); cbn.
  - apply (plain_slots_safe _ room) in H as [-> H]; [|exact IH]. split; [done|lia].
  - apply (plain_props_safe _ room) in H as [H1 H]; [|exact IH]. cbn in H1. split; [done|lia].
Qed.

(** What [projectDto] returns is safe to retain: no non-finite number, no
    unpaired surrogate in a string or key, no reserved property name, and no
    deeper than the limit allows, whatever object graph it was given. *)
Lemma projectDto_safe h v n j :
  projectDto h ∅ v n = Ok j ->
  exists d, n = int d /\ (0 <= d)%Z /\ json_safe j = true /\ (Z.of_nat (json_depth j) <= d + 1)%Z.
Proof.
  unfold projectDto. destruct (to_safe_integer n) as [d|] eqn:E; [|discriminate].
  apply to_safe_integer_Some in E as [-> Hd].
  destruct (Z.ltb_spec d 0); [discriminate|].
  destruct (projectNode h ∅ _ v ∅) as [[j' s]|] eqn:E; [|discriminate]. intros [= ->].
  apply projectNode_computes in E as (as_ & Hp & _). apply plain_safe in Hp as [? ?].
  exists d. split_and!; [done|lia|done|lia].
Qed.

(** ** Properties *)

(** C22 [projectDto] accepts exactly the plain trees: for a legal depth it
    returns [j] iff the value is the root of a plain tree of at most
    [maxDepth + 1] object levels whose copy is [j] and no object of which is
    reachable twice (so no alias and no cycle is ever copied). *)
Theorem projectDto_iff_plain_tree h owned v d j :
  (0 <= d <= max_safe)%Z ->
  projectDto h owned v (int d) = Ok j <->
  exists as_, plain h owned (Z.to_nat (d + 1)) v j as_ /\ NoDup as_.
Proof.
  intros Hd. unfold projectDto.
  rewrite (proj2 (to_safe_integer_Some (int d) d)) by (split; [done|lia]).
  destruct (Z.ltb_spec d 0); [lia|].
  split.
  - destruct (projectNode _ _ _ _ _) as [[j' s]|] eqn:E; [|discriminate]. intros [= ->].
    apply projectNode_computes in E as (as_ & Hp & [Hn _] & _). eauto.
  - intros (as_ & Hp & Hn).
    rewrite (proj2 (projectNode_computes h owned (Z.to_nat (d + 1)) v ∅ j
      (list_to_set as_ ∪ ∅))); [done|].
    exists as_. split_and!; [done|split; [done|set_solver]|done].
Qed.

Lemma projectDto_iff_plain_tree_witness :
  projectDto {[1%positive := Object false 0 ArrayPrototype
    (ArrayContents [Some (DataProperty (VBool true) true)] 0 0)]} ∅ (VRef 1) (int 64)
  = Ok (JArr [JBool true]) /\
  exists as_, plain {[1%positive := Object false 0 ArrayPrototype
    (ArrayContents [Some (DataProperty (VBool true) true)] 0 0)]} ∅
    (Z.to_nat (64 + 1)) (VRef 1) (JArr [JBool true]) as_ /\ NoDup as_.
Proof.
  split; [vm_compute; reflexivity|].
  apply (projectDto_iff_plain_tree _ _ _ 64 _); [unfold max_safe; lia|].
  vm_compute; reflexivity.
Defined.

(** A cyclic graph, a shared child and a hole are refused. *)
Example projectDto_cycle :
  projectDto {[1%positive := Object false 0 ObjectPrototype
    (ObjectContents [(js "self", DataProperty (VRef 1) true)])]} ∅ (VRef 1) (int 64)
  = Err dto_alias.
Proof. vm_compute. reflexivity. Qed.

Example projectDto_hole :
  projectDto {[1%positive := Object false 0 ArrayPrototype (ArrayContents [None] 0 0)]} ∅
    (VRef 1) (int 64) = Err dto_sparse.
Proof. vm_compute. reflexivity. Qed.
