(* ===== verification/Limits.v ===== *)
(** * Protocol limits

    [packages/protocol/src/limits.ts]: the conservative defaults and the
    absolute maxima every ceiling of the protocol is taken from. *)

From S2P Require Import Prelude.

Local Open Scope Z_scope.

Record ProtocolLimits : Set := {
  maxFrameBytes : Z;
  maxSnapshotBytes : Z;
  maxNodes : Z;
  maxDepth : Z;
  maxStringBytes : Z;
  maxRelationTargets : Z;
  maxQueuedFrames : Z;
  maxPendingWaiters : Z;
  maxSessions : Z;
  maxLogRecordBytes : Z;
  maxLogQueue : Z;
}.

Definition DEFAULT_LIMITS : ProtocolLimits := {|
  maxFrameBytes := 1 * 1024 * 1024;
  maxSnapshotBytes := 2 * 1024 * 1024;
  maxNodes := 5000;
  maxDepth := 64;
  maxStringBytes := 16 * 1024;
  maxRelationTargets := 64;
  maxQueuedFrames := 32;
  maxPendingWaiters := 256;
  maxSessions := 16;
  maxLogRecordBytes := 32 * 1024;
  maxLogQueue := 1000;
|}.

Definition ABSOLUTE_LIMITS : ProtocolLimits := {|
  maxFrameBytes := 8 * 1024 * 1024;
  maxSnapshotBytes := 8 * 1024 * 1024;
  maxNodes := 50000;
  maxDepth := 256;
  maxStringBytes := 256 * 1024;
  maxRelationTargets := 1024;
  maxQueuedFrames := 256;
  maxPendingWaiters := 4096;
  maxSessions := 128;
  maxLogRecordBytes := 256 * 1024;
  maxLogQueue := 10000;
|}.
