(* ===== verification/Framing.v ===== *)
(** * Wire framing

    [packages/protocol/src/framing.ts]: the length-prefixed frame codec between
    the driver and an instrumented application.  The decoder is the class
    [BufferedFrameDecoder] with its buffer, its two offsets and its poisoned
    state; [push] is total and returns what the method returns or throws
    together with the decoder it leaves behind.

    [JSON.parse] allocates a graph of fresh objects: it is the parameter
    [json_parse], which answers [None] where the built-in throws. *)

From S2P Require Import Prelude JsText Dto Limits.

Local Open Scope Z_scope.

Definition FRAME_HEADER_BYTES : nat := 4.
Definition FRAME_PROJECTION_DEPTH : Z := maxDepth DEFAULT_LIMITS.

(** ** Typed arrays *)

(** [array.subarray(from, to)] for offsets in range. *)
Definition subarray (l : bytes) (from to : nat) : bytes := take (to - from) (drop from l).

(** [array.set(data, offset)]; the [RangeError] of a store past the end is the
    violation [push] turns every foreign error into. *)
Definition typed_set (l : bytes) (offset : nat) (data : bytes) : result ViolationCode bytes :=
  if (offset + length data <=? length l)%nat
  then Ok (take offset l ++ data ++ drop (offset + length data) l)
  else Err frame_malformed.

(** ** Encoder *)

(** What [JSON.stringify(message)] does. *)
Inductive stringified : Type :=
| StringifyThrows
| StringifyUndefined
| StringifyText (text : jstring).

(** [assertPositiveByteCeiling] *)
Definition assertPositiveByteCeiling (n : number) : result ViolationCode Z :=
  match to_safe_integer n with
  | Some z => if (z <=? 0) then Err frame_malformed else Ok z
  | None => Err frame_malformed
  end.

Definition frame_header (n : Z) : bytes :=
  [Z.land (Z.shiftr n 24) 255; Z.land (Z.shiftr n 16) 255;
   Z.land (Z.shiftr n 8) 255; Z.land n 255].

Definition encodeFrame (message : stringified) (ceiling : number) : result ViolationCode bytes :=
  match assertPositiveByteCeiling ceiling with
  | Err e => Err e
  | Ok max =>
      match message with
      | StringifyThrows => Err frame_malformed
      | StringifyUndefined => Err dto_scalar
      | StringifyText text =>
          let body := utf8_encode text in
          if (max <? Z.of_nat (length body)) then Err frame_oversized
          else Ok (frame_header (Z.of_nat (length body)) ++ body)
      end
  end.

(** ** Decoder *)

(** A decoded frame and what [framedByteLength] answers for it. *)
Record message : Type := Message {
  m_dto : json;
  m_framedByteLength : option Z;
}.

Record FrameDecoder : Type := Decoder {
  d_maxFrameBytes : Z;
  d_buffer : bytes;
  d_start : nat;
  d_end : nat;
  d_failure : option ViolationCode;
}.

(** [createFrameDecoder], the constructor *)
Definition createFrameDecoder (ceiling : number) : result ViolationCode FrameDecoder :=
  match assertPositiveByteCeiling ceiling with
  | Err e => Err e
  | Ok max => Ok (Decoder max [] 0 0 None)
  end.

Definition buffered (d : FrameDecoder) : nat := d_end d - d_start d.

(** [#readLength]: [(b0 * 0x1000000 + ((b1 << 16) | (b2 << 8) | b3)) >>> 0] *)
Definition readLength (b : bytes) (i : nat) : Z :=
  (nth i b 0 * 16777216 +
   Z.lor (Z.lor (Z.shiftl (nth (i + 1) b 0) 16) (Z.shiftl (nth (i + 2) b 0) 8))
         (nth (i + 3) b 0)) mod 2 ^ 32.

(** [#append] *)
Definition append (d : FrameDecoder) (chunk : bytes) : result ViolationCode FrameDecoder :=
  let kept := (d_end d - d_start d)%nat in
  let needed := (kept + length chunk)%nat in
  let grown :=
    if (length (d_buffer d) - d_start d <? needed)%nat then
      match typed_set (replicate needed 0) 0 (subarray (d_buffer d) (d_start d) (d_end d)) with
      | Err e => Err e
      | Ok next => Ok (Decoder (d_maxFrameBytes d) next 0 kept (d_failure d))
      end
    else Ok d in
  match grown with
  | Err e => Err e
  | Ok d =>
      match typed_set (d_buffer d) (d_end d) chunk with
      | Err e => Err e
      | Ok next =>
          Ok (Decoder (d_maxFrameBytes d) next (d_start d) (d_end d + length chunk) (d_failure d))
      end
  end.

(** [#compact] *)
Definition compact (d : FrameDecoder) : result ViolationCode FrameDecoder :=
  if (d_start d =? 0)%nat then Ok d
  else
    let kept := (d_end d - d_start d)%nat in
    if (kept =? 0)%nat then Ok (Decoder (d_maxFrameBytes d) [] 0 kept (d_failure d))
    else match typed_set (replicate kept 0) 0 (subarray (d_buffer d) (d_start d) (d_end d)) with
         | Err e => Err e
         | Ok next => Ok (Decoder (d_maxFrameBytes d) next 0 kept (d_failure d))
         end.

Section Decoding.
Context (json_parse : jstring -> option (heap * value)).

Definition decodeBody (body : bytes) : result ViolationCode message :=
  match utf8_decode body with
  | None => Err frame_encoding
  | Some text =>
      match json_parse text with
      | None => Err frame_malformed
      | Some (h, parsed) =>
          match projectDto h ∅ parsed (int FRAME_PROJECTION_DEPTH) with
          | Err e => Err e
          | Ok projected =>
              Ok (Message projected
                match projected with
                | JArr _ | JObj _ => Some (Z.of_nat (length body))
                | _ => None
                end)
          end
      end
  end.

(** The loop of [#pushOrThrow]: the messages decoded and the offset reached.
    An iteration that does not leave the loop consumes a header, so
    [S (length buffer)] iterations are enough ({!decodeLoop_scans}). *)
Fixpoint decodeLoop (fuel : nat) (max : Z) (b : bytes) (start end_ : nat)
    : result ViolationCode (list message * nat) :=
  match fuel with
  | O => Ok ([], start)
  | S fuel =>
      let available := (end_ - start)%nat in
      if (available <? FRAME_HEADER_BYTES)%nat then Ok ([], start)
      else
        let len := readLength b start in
        if len =? 0 then Err frame_malformed
        else if max <? len then Err frame_oversized
        else if (Z.of_nat available <? Z.of_nat FRAME_HEADER_BYTES + len) then Ok ([], start)
        else
          let bodyStart := (start + FRAME_HEADER_BYTES)%nat in
          let body := subarray b bodyStart (bodyStart + Z.to_nat len) in
          match decodeBody body with
          | Err e => Err e
          | Ok m =>
              match decodeLoop fuel max b (bodyStart + Z.to_nat len) end_ with
              | Err e => Err e
              | Ok (ms, start) => Ok (m :: ms, start)
              end
          end
  end.

Definition pushOrThrow (d : FrameDecoder) (chunk : bytes)
    : result ViolationCode (list message * FrameDecoder) :=
  match append d chunk with
  | Err e => Err e
  | Ok d =>
      match decodeLoop (S (length (d_buffer d))) (d_maxFrameBytes d)
              (d_buffer d) (d_start d) (d_end d) with
      | Err e => Err e
      | Ok (messages, start) =>
          match compact (Decoder (d_maxFrameBytes d) (d_buffer d) start (d_end d) (d_failure d)) with
          | Err e => Err e
          | Ok d =>
              if d_maxFrameBytes d + Z.of_nat FRAME_HEADER_BYTES <? Z.of_nat (buffered d)
              then Err frame_oversized
              else Ok (messages, d)
          end
      end
  end.

(** [push]: a violation poisons the decoder and releases its buffer. *)
Definition push (d : FrameDecoder) (chunk : bytes)
    : result ViolationCode (list message) * FrameDecoder :=
  match d_failure d with
  | Some _ => (Err decoder_poisoned, d)
  | None =>
      match pushOrThrow d chunk with
      | Ok (messages, d) => (Ok messages, d)
      | Err e => (Err e, Decoder (d_maxFrameBytes d) [] 0 0 (Some e))
      end
  end.

(** The pushes of a connection, in order. *)
Fixpoint feed (d : FrameDecoder) (chunks : list bytes)
    : list (result ViolationCode (list message)) * FrameDecoder :=
  match chunks with
  | [] => ([], d)
  | c :: chunks =>
      let '(r, d) := push d c in
      let '(rs, d) := feed d chunks in
      (r :: rs, d)
  end.

(** ** The abstract decoder

    [scans max bs ms o]: a stream that starts with the bytes [bs] carries the
    messages [ms], and then either [o = inl rest], the bytes of an incomplete
    frame, or [o = inr e], the violation the stream commits. *)
Inductive scans (max : Z) : bytes -> list message -> bytes + ViolationCode -> Prop :=
| scans_short bs :
    (length bs < FRAME_HEADER_BYTES)%nat -> scans max bs [] (inl bs)
| scans_zero bs :
    (FRAME_HEADER_BYTES <= length bs)%nat -> readLength bs 0 = 0 ->
    scans max bs [] (inr frame_malformed)
| scans_oversized bs :
    (FRAME_HEADER_BYTES <= length bs)%nat -> readLength bs 0 <> 0 ->
    max < readLength bs 0 -> scans max bs [] (inr frame_oversized)
| scans_partial bs :
    (FRAME_HEADER_BYTES <= length bs)%nat -> readLength bs 0 <> 0 -> readLength bs 0 <= max ->
    Z.of_nat (length bs) < 4 + readLength bs 0 -> scans max bs [] (inl bs)
| scans_bad bs body rest e :
    bs = body ++ rest -> (FRAME_HEADER_BYTES <= length bs)%nat ->
    readLength bs 0 <> 0 -> readLength bs 0 <= max ->
    Z.of_nat (length body) = 4 + readLength bs 0 ->
    decodeBody (drop FRAME_HEADER_BYTES body) = Err e -> scans max bs [] (inr e)
| scans_frame bs body rest m ms o :
    bs = body ++ rest -> (FRAME_HEADER_BYTES <= length bs)%nat ->
    readLength bs 0 <> 0 -> readLength bs 0 <= max ->
    Z.of_nat (length body) = 4 + readLength bs 0 ->
    decodeBody (drop FRAME_HEADER_BYTES body) = Ok m ->
    scans max rest ms o -> scans max bs (m :: ms) o.
End Decoding.

(** ** Lemmas on buffers *)

Lemma length_subarray l from to :
  (from <= to <= length l)%nat -> length (subarray l from to) = (to - from)%nat.
Proof. intros H. unfold subarray. rewrite length_take, length_drop. lia. Qed.

Lemma typed_set_fits l offset data :
  (offset + length data <= length l)%nat ->
  typed_set l offset data = Ok (take offset l ++ data ++ drop (offset + length data) l).
Proof. intros H. unfold typed_set. by rewrite (proj2 (Nat.leb_le _ _)). Qed.

Lemma readLength_nonneg b i : 0 <= readLength b i.
Proof. unfold readLength. apply Z.mod_pos_bound. lia. Qed.

Lemma readLength_drop b i : readLength b i = readLength (drop i b) 0.
Proof. unfold readLength. rewrite !List.nth_skipn, Nat.add_0_r. by rewrite !Nat.add_0_l. Qed.

Lemma readLength_app b c :
  (FRAME_HEADER_BYTES <= length b)%nat -> readLength (b ++ c) 0 = readLength b 0.
Proof.
  unfold FRAME_HEADER_BYTES. intros H. unfold readLength.
  rewrite !app_nth1 by lia. done.
Qed.

(** The unread bytes of a decoder. *)
Definition pending (d : FrameDecoder) : bytes := subarray (d_buffer d) (d_start d) (d_end d).

(** The type invariant of [BufferedFrameDecoder]. *)
Definition decoder_ok (d : FrameDecoder) : Prop :=
  0 < d_maxFrameBytes d /\ (d_start d <= d_end d <= length (d_buffer d))%nat.

Lemma length_pending d : decoder_ok d -> length (pending d) = buffered d.
Proof. intros [_ H]. unfold pending, buffered. rewrite length_subarray; lia. Qed.

(** Writing [chunk] just past the unread bytes extends them. *)
Lemma subarray_extend b start end_ chunk :
  (start <= end_)%nat -> (end_ + length chunk <= length b)%nat ->
  subarray (take end_ b ++ chunk ++ drop (end_ + length chunk) b) start (end_ + length chunk)
  = subarray b start end_ ++ chunk.
Proof.
  intros Hs He. unfold subarray.
  rewrite drop_app_le by (rewrite length_take; lia).
  rewrite take_app_ge by (rewrite length_drop, length_take; lia).
  rewrite length_drop, length_take.
  replace (end_ + length chunk - start - (end_ `min` length b - start))%nat
    with (length chunk) by lia.
  rewrite take_app_length, take_drop_commute.
  by replace (start + (end_ - start))%nat with end_ by lia.
Qed.

(** Appending never overflows the buffer and adds the chunk to the unread
    bytes. *)
Lemma append_ok d chunk :
  decoder_ok d -> exists d', append d chunk = Ok d' /\ decoder_ok d' /\
    pending d' = pending d ++ chunk /\
    d_maxFrameBytes d' = d_maxFrameBytes d /\ d_failure d' = d_failure d.
Proof.
  intros Hok. pose proof (length_pending d Hok) as Hl. destruct Hok as [Hm Hr].
  unfold append. unfold buffered in Hl. destruct (Nat.ltb_spec (length (d_buffer d) - d_start d)
    (d_end d - d_start d + length chunk)) as [Hlt|Hge].
  - rewrite typed_set_fits by (rewrite length_replicate; fold (pending d); lia).
    fold (pending d). cbn [d_buffer d_end d_start d_maxFrameBytes d_failure]. rewrite take_0, app_nil_l.
    set (b := pending d ++ _).
    assert (length b = (d_end d - d_start d + length chunk)%nat) as Hb.
    { unfold b. rewrite length_app, length_drop, length_replicate. lia. }
    rewrite typed_set_fits by lia. eexists. split; [done|]. split_and!; try done.
    + split; [done|]. cbn [d_buffer d_end d_start]. rewrite !length_app, length_take, length_drop. lia.
    + unfold pending at 1. cbn [d_buffer d_end d_start].
      rewrite subarray_extend by lia. f_equal. unfold subarray, b. rewrite drop_0, Nat.sub_0_r.
      rewrite take_app_le by lia. rewrite take_ge; [done|lia].
  - rewrite typed_set_fits by lia. eexists. split; [done|]. split_and!; try done.
    + split; [done|]. cbn [d_buffer d_end d_start]. rewrite !length_app, length_take, length_drop. lia.
    + unfold pending at 1. cbn [d_buffer d_end d_start]. rewrite subarray_extend by lia. done.
Qed.

Lemma compact_ok d :
  decoder_ok d -> exists d', compact d = Ok d' /\ decoder_ok d' /\ pending d' = pending d /\
    d_maxFrameBytes d' = d_maxFrameBytes d /\ d_failure d' = d_failure d.
Proof.
  intros Hok. pose proof (length_pending d Hok) as Hl. pose proof Hok as [Hm Hr].
  unfold compact. destruct (Nat.eqb_spec (d_start d) 0); [by eauto 10|].
  unfold buffered in Hl. destruct (Nat.eqb_spec (d_end d - d_start d) 0) as [E|E].
  - eexists. split; [done|]. rewrite E.
    split; [split; cbn; lia|]. split; [|done].
    rewrite E in Hl. by apply nil_length_inv in Hl as ->.
  - rewrite typed_set_fits by (rewrite length_replicate; fold (pending d); lia).
    fold (pending d). eexists. split; [done|].
    rewrite take_0, app_nil_l, drop_ge, app_nil_r by (rewrite length_replicate; lia).
    split; [split; cbn; lia|]. split; [|done].
    unfold pending at 1. cbn [d_buffer d_end d_start]. unfold subarray.
    rewrite drop_0, Nat.sub_0_r, <- Hl. by rewrite take_ge.
Qed.

(** ** Lemmas on the abstract decoder *)

Section ScanFacts.
Context (json_parse : jstring -> option (heap * value)) (max : Z).

Abbreviation scan := (scans json_parse max).

(** The shape of a frame at the front of [bs]. *)
Lemma frame_split bs :
  (FRAME_HEADER_BYTES <= length bs)%nat ->
  4 + readLength bs 0 <= Z.of_nat (length bs) ->
  exists body rest, bs = body ++ rest /\ Z.of_nat (length body) = 4 + readLength bs 0.
Proof.
  intros Hl Hr. pose proof (readLength_nonneg bs 0).
  exists (take (Z.to_nat (4 + readLength bs 0)) bs), (drop (Z.to_nat (4 + readLength bs 0)) bs).
  rewrite take_drop. split; [done|]. rewrite length_take. lia.
Qed.

Lemma scans_total bs : exists ms o, scan bs ms o.
Proof.
  remember (length bs) as n eqn:En. revert bs En.
  induction n as [n IH] using lt_wf_ind. intros bs ->.
  destruct (Nat.lt_ge_cases (length bs) FRAME_HEADER_BYTES); [eauto using scans_short|].
  destruct (decide (readLength bs 0 = 0)); [eauto using scans_zero|].
  destruct (Z.lt_ge_cases max (readLength bs 0)); [eauto using scans_oversized|].
  destruct (Z.lt_ge_cases (Z.of_nat (length bs)) (4 + readLength bs 0));
    [eauto using scans_partial|].
  destruct (frame_split bs) as (body & rest & E & Hb); [done|lia|].
  destruct (decodeBody json_parse (drop FRAME_HEADER_BYTES body)) as [m|e] eqn:Ed;
    [|eauto using scans_bad].
  pose proof (readLength_nonneg bs 0).
  destruct (IH (length rest)) with (bs := rest) as (ms & o & Hs); [|done|eauto using scans_frame].
  rewrite E, length_app. lia.
Qed.

Lemma frame_unique (bs body rest body' rest' : bytes) n :
  bs = body ++ rest -> bs = body' ++ rest' ->
  Z.of_nat (length body) = n -> Z.of_nat (length body') = n -> body = body' /\ rest = rest'.
Proof. intros -> H ? ?. apply app_inj_1 in H; [done|lia]. Qed.

Lemma scans_functional bs ms o ms' o' :
  scan bs ms o -> scan bs ms' o' -> ms = ms' /\ o = o'.
Proof.
  intros H. revert ms' o'. induction H; intros ms' o' H'; inversion H'; subst; try lia; try done.
  all: try (rewrite length_app in *; lia).
  all: match goal with
    | E : ?b ++ ?r = ?b' ++ ?r', H1 : Z.of_nat (length ?b) = _, H2 : Z.of_nat (length ?b') = _ |- _ =>
        destruct (frame_unique _ b r b' r' _ eq_refl E H1 H2) as [-> ->]
    end; try congruence.
  - split; congruence.
  - assert (m0 = m) as -> by congruence.
    match goal with
    | IH : forall ms' o', _ -> ms = ms' /\ o = o', H' : scans _ _ rest0 _ _ |- _ =>
        by destruct (IH _ _ H') as [-> ->]
    end.
Qed.

Lemma scans_app_inl a ms r b ms' o :
  scan a ms (inl r) -> scan (r ++ b) ms' o -> scan (a ++ b) (ms ++ ms') o.
Proof.
  remember (inl r) as i eqn:Ei. intros H. induction H; simplify_eq; try done.
  intros Hr. cbn [app].
  apply (scans_frame _ _ _ body (rest ++ b)); rewrite ?readLength_app by done; try done.
  - by rewrite app_assoc.
  - rewrite !length_app in *. lia.
  - by apply IHscans.
Qed.

Lemma scans_app_inr a ms e b :
  scan a ms (inr e) -> scan (a ++ b) ms (inr e).
Proof.
  remember (inr e) as i eqn:Ei. intros H. induction H; simplify_eq.
  - apply scans_zero; [rewrite length_app; lia|]. by rewrite readLength_app.
  - apply scans_oversized; [rewrite length_app; lia| |]; by rewrite readLength_app.
  - eapply scans_bad; [by rewrite <- app_assoc|rewrite !length_app in *; lia| | | |done];
      by rewrite readLength_app.
  - apply (scans_frame _ _ _ body (rest ++ b)); rewrite ?readLength_app by done; try done.
    + by rewrite app_assoc.
    + rewrite !length_app in *. lia.
    + by apply IHscans.
Qed.

(** What is left over is a suffix shorter than one maximal frame. *)
Lemma scans_rest bs ms r :
  0 < max -> scan bs ms (inl r) ->
  (exists consumed, bs = consumed ++ r) /\ Z.of_nat (length r) < max + 4 /\ scan r [] (inl r).
Proof.
  intros Hm. remember (inl r) as i eqn:Ei. intros H. induction H; simplify_eq.
  - split_and!; [by exists []|unfold FRAME_HEADER_BYTES in *; lia|by constructor].
  - split_and!; [by exists []|lia|by apply scans_partial].
  - destruct IHscans as ((c & ->) & ? & ?); [done|].
    split_and!; [|done|done]. exists (body ++ c). by rewrite app_assoc.
Qed.

Lemma subarray_split b start end_ body rest :
  (start <= end_ <= length b)%nat -> subarray b start end_ = body ++ rest ->
  (length body <= end_ - start)%nat /\
  drop FRAME_HEADER_BYTES body =
    subarray b (start + FRAME_HEADER_BYTES) (start + length body) /\
  rest = subarray b (start + length body) end_.
Proof.
  intros Hr E. pose proof (f_equal length E) as El.
  rewrite length_subarray, length_app in El by done.
  assert (body = subarray b start (start + length body)) as Hb.
  { unfold subarray in *. replace (start + length body - start)%nat with (length body) by lia.
    apply (f_equal (take (length body))) in E. rewrite take_take, take_app_length in E.
    rewrite <- E at 1. f_equal. lia. }
  split; [lia|]. split.
  - rewrite Hb at 1. unfold subarray. rewrite List.skipn_firstn_comm, drop_drop.
    f_equal; lia.
  - unfold subarray in *. apply (f_equal (drop (length body))) in E.
    rewrite drop_app_length in E. rewrite <- E, List.skipn_firstn_comm, drop_drop.
    f_equal; lia.
Qed.

(** The loop computes the abstract scan of the unread bytes, whatever fuel
    beyond the number of unread bytes it is given. *)
Lemma decodeLoop_scans fuel b start end_ ms o :
  (start <= end_ <= length b)%nat -> (end_ - start < fuel)%nat ->
  scan (subarray b start end_) ms o ->
  decodeLoop json_parse fuel max b start end_ =
    match o with inl r => Ok (ms, (end_ - length r)%nat) | inr e => Err e end.
Proof.
  revert start ms o. induction fuel as [|fuel IH]; intros start ms o Hr Hf H; [lia|].
  pose proof (length_subarray b start end_ Hr) as Hlen.
  pose proof (readLength_nonneg (subarray b start end_) 0) as Hnn.
  assert (readLength b start = readLength (subarray b start end_) 0 \/
          (length (subarray b start end_) < FRAME_HEADER_BYTES)%nat) as HL.
  { destruct (Nat.lt_ge_cases (length (subarray b start end_)) FRAME_HEADER_BYTES); [by right|left].
    rewrite readLength_drop.
    rewrite <- (take_drop (end_ - start) (drop start b)), readLength_app; [done|].
    unfold subarray in *. lia. }
  cbn [decodeLoop].
  inversion H as [bs Hs|bs Hs H0|bs Hs H0 Hm|bs Hs H0 Hm Hp|bs body rest e E Hs H0 Hm Hb Hd
                 |bs body rest m ms' o' E Hs H0 Hm Hb Hd Hrest]; subst.
  - rewrite (proj2 (Nat.ltb_lt _ _)) by lia. do 2 f_equal. lia.
  - rewrite (proj2 (Nat.ltb_ge _ _)) by lia. destruct HL as [->|]; [|lia].
    by rewrite (proj2 (Z.eqb_eq _ _)).
  - rewrite (proj2 (Nat.ltb_ge _ _)) by lia. destruct HL as [->|]; [|lia].
    by rewrite (proj2 (Z.eqb_neq _ _)), (proj2 (Z.ltb_lt _ _)).
  - rewrite (proj2 (Nat.ltb_ge _ _)) by lia. destruct HL as [->|]; [|lia].
    rewrite (proj2 (Z.eqb_neq _ _)), (proj2 (Z.ltb_ge _ _)), (proj2 (Z.ltb_lt _ _)) by (done || (unfold FRAME_HEADER_BYTES in *; lia)).
    do 2 f_equal. lia.
  - rewrite (proj2 (Nat.ltb_ge _ _)) by lia. destruct HL as [->|]; [|lia].
    destruct (subarray_split _ _ _ _ _ Hr E) as (Hbl & Hbody & _).
    rewrite (proj2 (Z.eqb_neq _ _)), (proj2 (Z.ltb_ge _ _)), (proj2 (Z.ltb_ge _ _)) by (done || (unfold FRAME_HEADER_BYTES in *; lia)).
    replace (start + FRAME_HEADER_BYTES + Z.to_nat (readLength (subarray b start end_) 0))%nat
      with (start + length body)%nat by (unfold FRAME_HEADER_BYTES; lia).
    by rewrite <- Hbody, Hd.
  - rewrite (proj2 (Nat.ltb_ge _ _)) by lia. destruct HL as [->|]; [|lia].
    destruct (subarray_split _ _ _ _ _ Hr E) as (Hbl & Hbody & Hrst).
    rewrite (proj2 (Z.eqb_neq _ _)), (proj2 (Z.ltb_ge _ _)), (proj2 (Z.ltb_ge _ _)) by (done || (unfold FRAME_HEADER_BYTES in *; lia)).
    replace (start + FRAME_HEADER_BYTES + Z.to_nat (readLength (subarray b start end_) 0))%nat
      with (start + length body)%nat by (unfold FRAME_HEADER_BYTES; lia).
    rewrite <- Hbody, Hd.
    rewrite (IH (start + length body)%nat ms' o); [by destruct o|lia|lia|by rewrite <- Hrst].
Qed.
End ScanFacts.

Section DecoderFacts.
Context (json_parse : jstring -> option (heap * value)).

Abbreviation scan max := (scans json_parse max).

(** A decoder between two calls: no violation yet, and what it holds is not
    a complete frame. *)
Definition waiting (d : FrameDecoder) : Prop :=
  decoder_ok d /\ d_failure d = None /\
  scan (d_maxFrameBytes d) (pending d) [] (inl (pending d)).

(** One call follows the abstract decoder: the final size check of the source
    never rejects. *)
Lemma push_scans d chunk ms o :
  decoder_ok d -> d_failure d = None ->
  scan (d_maxFrameBytes d) (pending d ++ chunk) ms o ->
  match o with
  | inl r => exists d', push json_parse d chunk = (Ok ms, d') /\ waiting d' /\
      pending d' = r /\ d_maxFrameBytes d' = d_maxFrameBytes d
  | inr e => push json_parse d chunk = (Err e, Decoder (d_maxFrameBytes d) [] 0 0 (Some e))
  end.
Proof.
  intros Hok Hf Hs. unfold push, pushOrThrow. rewrite Hf.
  destruct (append_ok d chunk Hok) as (d1 & -> & Hok1 & Hp1 & Hm1 & Hf1).
  rewrite <- Hp1, <- Hm1 in Hs. destruct Hok1 as [Hm Hr].
  erewrite decodeLoop_scans; [|exact Hr|lia|exact Hs].
  destruct o as [r|e]; [|done].
  destruct (scans_rest _ _ _ _ _ Hm Hs) as ((c & Hc) & Hlt & Hrest).
  assert (length r <= d_end d1 - d_start d1)%nat as Hlr.
  { apply (f_equal length) in Hc. rewrite length_app in Hc. unfold pending in Hc.
    rewrite length_subarray in Hc by done. lia. }
  set (d2 := Decoder _ _ _ _ _).
  assert (pending d2 = r) as Hp2.
  { destruct (subarray_split _ _ _ _ _ Hr Hc) as (_ & _ & Hr').
    etrans; [|symmetry; exact Hr']. unfold pending, d2.
    cbn [d_buffer d_start d_end]. f_equal.
    apply (f_equal length) in Hc. unfold pending in Hc.
    rewrite length_subarray, length_app in Hc by done. lia. }
  destruct (compact_ok d2) as (d3 & -> & Hok3 & Hp3 & Hm3 & Hf3).
  { split; cbn; [done|lia]. }
  rewrite <- (length_pending d3 Hok3), Hp3, Hp2, Hm3. cbn [d2 d_maxFrameBytes].
  rewrite (proj2 (Z.ltb_ge _ _)) by (unfold FRAME_HEADER_BYTES; lia).
  exists d3. split_and!; [done| |congruence|cbn in Hm3; congruence].
  split_and!; [done|cbn in Hf3; congruence|].
  cbn in Hm3. rewrite Hp3, Hp2, Hm3. done.
Qed.
Lemma createFrameDecoder_waiting n d :
  createFrameDecoder n = Ok d ->
  waiting d /\ pending d = [] /\ n = int (d_maxFrameBytes d).
Proof.
  unfold createFrameDecoder, assertPositiveByteCeiling.
  destruct (to_safe_integer n) as [z|] eqn:E; [|discriminate].
  apply to_safe_integer_Some in E as [-> _].
  destruct (Z.leb_spec z 0); [discriminate|]. intros [= <-].
  split_and!; try done. split_and!; [split; cbn; [lia|lia]|done|].
  apply scans_short. cbn. unfold FRAME_HEADER_BYTES. lia.
Qed.

(** The messages the calls of a connection returned. *)
Definition delivered (rs : list (result ViolationCode (list message))) : list message :=
  mjoin ((fun r => match r with Ok ms => ms | Err _ => [] end) <$> rs).

Lemma feed_poisoned d cs e :
  d_failure d = Some e ->
  feed json_parse d cs = (replicate (length cs) (Err decoder_poisoned), d).
Proof.
  intros Hf. induction cs as [|c cs IH]; [done|]. cbn. unfold push. rewrite Hf, IH. done.
Qed.

(** A connection follows the abstract decoder whatever the chunks are: on a
    clean stream every call succeeds, the calls together return exactly the
    messages of the stream and the decoder keeps exactly the unfinished
    frame; on a violating stream one call reports the violation, the calls
    before it returned a prefix of the messages, and all later calls are
    refused. *)
Lemma feed_scans d cs ms o :
  waiting d -> scan (d_maxFrameBytes d) (pending d ++ mjoin cs) ms o ->
  let '(rs, d') := feed json_parse d cs in
  match o with
  | inl r => Forall (fun x => is_ok x = true) rs /\
      delivered rs = ms /\ pending d' = r /\ waiting d'
  | inr e => exists rs1 k,
      rs = rs1 ++ Err e :: replicate k (Err decoder_poisoned) /\
      Forall (fun x => is_ok x = true) rs1 /\
      delivered rs1 `prefix_of` ms /\
      d' = Decoder (d_maxFrameBytes d) [] 0 0 (Some e)
  end.
Proof.
  revert d ms. induction cs as [|c cs IH]; intros d ms Hw Hs; cbn [feed].
  - cbn in Hs. rewrite app_nil_r in Hs.
    destruct (scans_functional _ _ _ _ _ _ _ Hs (proj2 (proj2 Hw))) as [-> ->].
    split_and!; [constructor|done|done|done..].
  - destruct Hw as (Hok & Hf & Hq).
    destruct (scans_total json_parse (d_maxFrameBytes d) (pending d ++ c)) as (ms1 & o1 & H1).
    pose proof (push_scans d c ms1 o1 Hok Hf H1) as Hp. destruct o1 as [r|e].
    + destruct Hp as (d1 & -> & Hw1 & Hr1 & Hm1).
      destruct (scans_total json_parse (d_maxFrameBytes d) (r ++ mjoin cs)) as (ms2 & o2 & H2).
      pose proof (scans_app_inl _ _ _ _ _ _ _ _ H1 H2) as H3.
      rewrite <- app_assoc in H3.
      destruct (scans_functional _ _ _ _ _ _ _ Hs H3) as [-> ->].
      rewrite <- Hm1, <- Hr1 in H2. specialize (IH d1 ms2 Hw1 H2).
      destruct (feed json_parse d1 cs) as [rs d'].
      destruct o2 as [r2|e2].
      * destruct IH as (Ha & Hd & Hp' & Hw'). split_and!; [| |done..].
        -- constructor; [eauto|done].
        -- unfold delivered. rewrite mjoin_fmap_cons. unfold delivered in Hd. by rewrite Hd.
      * destruct IH as (rs1 & k & -> & Ha & Hpre & ->).
        exists (Ok ms1 :: rs1), k. split_and!; [done|constructor; [eauto|done]| |by rewrite Hm1].
        unfold delivered. rewrite mjoin_fmap_cons. by apply prefix_app.
    + rewrite Hp.
      pose proof (scans_app_inr _ _ _ _ _ (mjoin cs) H1) as H3. rewrite <- app_assoc in H3.
      destruct (scans_functional _ _ _ _ _ _ _ Hs H3) as [-> ->].
      rewrite (feed_poisoned _ _ e) by done.
      exists [], (length cs). split_and!; [done|constructor|apply prefix_nil|done].
Qed.
End DecoderFacts.

(** ** Lemmas on messages *)

(** A message safe to retain. *)
Definition safe_message (m : message) : Prop :=
  json_safe (m_dto m) = true /\ (json_depth (m_dto m) <= 65)%nat.

Lemma decodeBody_safe json_parse body m :
  decodeBody json_parse body = Ok m -> safe_message m.
Proof.
  unfold decodeBody. destruct (utf8_decode body) as [text|]; [|discriminate].
  destruct (json_parse text) as [[h v]|]; [|discriminate].
  destruct (projectDto h ∅ v _) as [j|] eqn:E; [|discriminate]. intros [= <-].
  apply projectDto_safe in E as (d & Ed & _ & Hs & Hd).
  apply (f_equal to_integer) in Ed. rewrite !to_integer_int in Ed. simplify_eq.
  split; cbn; [done|]. unfold FRAME_PROJECTION_DEPTH in Hd. cbn in Hd. lia.
Qed.

Lemma scans_safe json_parse max bs ms o :
  scans json_parse max bs ms o -> Forall safe_message ms.
Proof. induction 1; constructor; eauto using decodeBody_safe. Qed.

Lemma delivered_stop rs e k :
  delivered (rs ++ Err e :: replicate k (Err decoder_poisoned)) = delivered rs.
Proof.
  unfold delivered. rewrite fmap_app, join_app.
  rewrite (join_nil_2 (_ <$> _ :: _)), app_nil_r; [done|].
  constructor; [done|]. apply Forall_fmap, Forall_replicate. done.
Qed.

(** The header is read back as the length it was written from. *)
Lemma readLength_header n bs :
  0 <= n < 2 ^ 32 -> readLength (frame_header n ++ bs) 0 = n.
Proof.
  intros Hn. unfold readLength, frame_header. cbn [nth app Nat.add].
  change 255 with (Z.ones 8). rewrite !Z.land_ones, !Z.shiftr_div_pow2 by lia.
  pose proof (Z.div_div n (2 ^ 8) (2 ^ 8) ltac:(lia) ltac:(lia)) as D1.
  pose proof (Z.div_div n (2 ^ 16) (2 ^ 8) ltac:(lia) ltac:(lia)) as D2.
  change (2 ^ 8 * 2 ^ 8) with (2 ^ 16) in D1. change (2 ^ 16 * 2 ^ 8) with (2 ^ 24) in D2.
  pose proof (Z.div_mod n (2 ^ 8) ltac:(lia)) as E0.
  pose proof (Z.div_mod (n / 2 ^ 8) (2 ^ 8) ltac:(lia)) as E1.
  pose proof (Z.div_mod (n / 2 ^ 16) (2 ^ 8) ltac:(lia)) as E2.
  rewrite D1 in E1. rewrite D2 in E2.
  pose proof (Z.mod_pos_bound n (2 ^ 8) ltac:(lia)).
  pose proof (Z.mod_pos_bound (n / 2 ^ 8) (2 ^ 8) ltac:(lia)).
  pose proof (Z.mod_pos_bound (n / 2 ^ 16) (2 ^ 8) ltac:(lia)).
  rewrite (Z.mod_small (n / 2 ^ 24)) by lia.
  generalize dependent (n / 2 ^ 24). intros q3 _ E2.
  generalize dependent (n / 2 ^ 16 mod 2 ^ 8). intros r2 E2 ?.
  generalize dependent (n / 2 ^ 8 mod 2 ^ 8). intros r1 E1 ?.
  generalize dependent (n mod 2 ^ 8). intros r0 E0 ?.
  rewrite <- Z.lor_assoc, (lor_shiftl_add r1 r0 8), (lor_shiftl_add r2) by lia.
  rewrite Z.mod_small; lia.
Qed.

Lemma encodeFrame_Ok text max frame :
  encodeFrame (StringifyText text) (int max) = Ok frame ->
  Z.of_nat (length (utf8_encode text)) <= max /\
  frame = frame_header (Z.of_nat (length (utf8_encode text))) ++ utf8_encode text.
Proof.
  unfold encodeFrame, assertPositiveByteCeiling.
  destruct (to_safe_integer (int max)) as [z|] eqn:E; [|discriminate].
  apply to_safe_integer_Some in E as [E _]. apply (f_equal to_integer) in E.
  rewrite !to_integer_int in E. simplify_eq.
  destruct (Z.leb_spec z 0); [discriminate|].
  destruct (Z.ltb_spec z (Z.of_nat (length (utf8_encode text)))); [discriminate|].
  intros [= <-]. split; [lia|done].
Qed.

Lemma utf8_encode_nonempty text : text <> [] -> (0 < length (utf8_encode text))%nat.
Proof.
  intros H. assert (scalar_values text <> []) as Hs.
  { destruct text as [|c t]; [done|]. cbn. destruct (is_high c).
    - destruct t as [|d t]; [done|]. by destruct (is_low d).
    - by destruct (is_low c). }
  unfold utf8_encode. destruct (scalar_values text) as [|c l]; [done|].
  rewrite mjoin_fmap_cons, length_app. unfold utf8_scalar.
  destruct (c <? 128), (c <? 2048), (c <? 65536); cbn; lia.
Qed.

(** The stream of well-formed frames carries exactly their messages. *)
Lemma scans_frames json_parse max (msgs : list (jstring * json)) frames :
  Forall2 (fun '(text, j) frame =>
    well_formed text /\ text <> [] /\ head text <> Some 65279 /\
    (exists h v, json_parse text = Some (h, v) /\
       projectDto h ∅ v (int FRAME_PROJECTION_DEPTH) = Ok j) /\
    Z.of_nat (length (utf8_encode text)) < 2 ^ 32 /\
    encodeFrame (StringifyText text) (int max) = Ok frame) msgs frames ->
  exists ms, map m_dto ms = map snd msgs /\ scans json_parse max (mjoin frames) ms (inl []).
Proof.
  induction 1 as [|[text j] frame msgs frames (Hwf & Hne & Hbom & (h & v & Hp & Hj) & Hlt & He) _
                   (ms & Hms & Hs)].
  - exists []. split; [done|]. apply scans_short. cbn. unfold FRAME_HEADER_BYTES. lia.
  - apply encodeFrame_Ok in He as [Hmax ->]. pose proof (utf8_encode_nonempty text Hne) as Hpos.
    set (body := utf8_encode text) in *. set (n := Z.of_nat (length body)) in *.
    assert (readLength (mjoin ((frame_header n ++ body) :: frames)) 0 = n) as HL.
    { cbn [mjoin list_join]. rewrite <- app_assoc. apply readLength_header. lia. }
    eexists (Message j _ :: ms). split; [cbn; by rewrite Hms|].
    apply (scans_frame _ _ _ (frame_header n ++ body) (mjoin frames)); rewrite ?HL.
    + done.
    + cbn. unfold FRAME_HEADER_BYTES. lia.
    + lia.
    + lia.
    + rewrite length_app. cbn. lia.
    + change (drop FRAME_HEADER_BYTES (frame_header n ++ body)) with (utf8_encode text).
      unfold decodeBody. rewrite utf8_decode_encode by done. rewrite Hp, Hj. done.
    + done.
Qed.

(** ** Properties *)

(** C1 Chunk boundaries are invisible: two ways of cutting the same byte stream
    end with the same failure or with none.  Without one, both delivered the same
    messages in the same order and hold back the same unfinished bytes.  With one,
    a chunk that holds the violation delivers nothing, so the cut decides how many
    of the messages before it were delivered: one connection delivered a prefix of
    what the other did, never another message and never another order. *)
Theorem decoder_chunking_irrelevant json_parse n d cs1 cs2 :
  createFrameDecoder n = Ok d -> mjoin cs1 = mjoin cs2 ->
  let '(rs1, d1) := feed json_parse d cs1 in
  let '(rs2, d2) := feed json_parse d cs2 in
  d_failure d1 = d_failure d2 /\
  (d_failure d1 = None -> delivered rs1 = delivered rs2 /\ pending d1 = pending d2) /\
  (delivered rs1 `prefix_of` delivered rs2 \/ delivered rs2 `prefix_of` delivered rs1).
Proof.
  intros Hd Hc. destruct (createFrameDecoder_waiting json_parse n d Hd) as (Hw & Hp & _).
  destruct (scans_total json_parse (d_maxFrameBytes d) (pending d ++ mjoin cs1)) as (ms & o & Hs).
  pose proof (feed_scans json_parse d cs1 ms o Hw Hs) as H1.
  rewrite Hc in Hs. pose proof (feed_scans json_parse d cs2 ms o Hw Hs) as H2.
  destruct (feed json_parse d cs1) as [rs1 d1], (feed json_parse d cs2) as [rs2 d2].
  destruct o as [r|e].
  - destruct H1 as (_ & <- & Hp1 & (_ & -> & _)), H2 as (_ & <- & Hp2 & (_ & -> & _)).
    split_and!; [done|intros _; split; congruence|left; done].
  - destruct H1 as (? & ? & -> & _ & H1 & ->), H2 as (? & ? & -> & _ & H2 & ->). rewrite !delivered_stop.
    split_and!; [done|done|]. by apply (prefix_weak_total _ _ ms).
Qed.

(** A good frame followed by an empty one: whole, the bytes deliver nothing; cut
    between the frames, the message of the first. *)
Example violation_hides_its_chunk :
  let parse _ := Some (∅, VBool true) in
  delivered (feed parse (Decoder 8 [] 0 0 None) [[0; 0; 0; 1; 49; 0; 0; 0; 0]]).1 = [] /\
  length (delivered (feed parse (Decoder 8 [] 0 0 None) [[0; 0; 0; 1; 49]; [0; 0; 0; 0]]).1) = 1%nat.
Proof. split; vm_compute; reflexivity. Qed.

Lemma decoder_chunking_irrelevant_witness :
  let '(rs1, d1) := feed (fun _ => Some (∅, VBool true)) (Decoder 8 [] 0 0 None)
                      [[0; 0; 0]; [1; 49; 0]] in
  let '(rs2, d2) := feed (fun _ => Some (∅, VBool true)) (Decoder 8 [] 0 0 None)
                      [[0]; [0; 0; 1]; [49; 0]] in
  d_failure d1 = d_failure d2 /\
  (d_failure d1 = None -> delivered rs1 = delivered rs2 /\ pending d1 = pending d2) /\
  (delivered rs1 `prefix_of` delivered rs2 \/ delivered rs2 `prefix_of` delivered rs1).
Proof.
  apply (decoder_chunking_irrelevant (fun _ => Some (∅, VBool true)) (int 8)).
  - vm_compute. reflexivity.
  - reflexivity.
Defined.

(** C21 Safety of the decoder on any input: whatever bytes arrive in whatever
    chunks, no buffer store is out of range, what is held back stays below the
    ceiling plus the header, every message returned is a safe tree of at most
    65 levels, and once a call has reported a violation the buffer is released
    and every later call answers [decoder-poisoned]. *)
Theorem decoder_fails_closed json_parse n d cs :
  createFrameDecoder n = Ok d ->
  let '(rs, d') := feed json_parse d cs in
  decoder_ok d' /\
  Z.of_nat (buffered d') < d_maxFrameBytes d + 4 /\
  Forall safe_message (delivered rs) /\
  forall i e, rs !! i = Some (Err e) ->
    d_buffer d' = [] /\ is_Some (d_failure d') /\
    forall k, (i < k < length rs)%nat -> rs !! k = Some (Err decoder_poisoned).
Proof.
  intros Hd. destruct (createFrameDecoder_waiting json_parse n d Hd) as (Hw & Hp & _).
  destruct (scans_total json_parse (d_maxFrameBytes d) (pending d ++ mjoin cs)) as (ms & o & Hs).
  pose proof (scans_safe _ _ _ _ _ Hs) as Hsafe.
  pose proof (feed_scans json_parse d cs ms o Hw Hs) as H1.
  destruct (feed json_parse d cs) as [rs d']. destruct Hw as ((Hm & _) & _ & _).
  destruct o as [r|e].
  - destruct H1 as (Hall & -> & Hr & (Hok & _ & _)).
    destruct (scans_rest _ _ _ _ _ Hm Hs) as (_ & Hlt & _).
    split_and!; [done| |done|].
    + rewrite <- (length_pending d' Hok), Hr. done.
    + intros i e Hi. rewrite Forall_lookup in Hall. by apply Hall in Hi.
  - destruct H1 as (rs1 & k & -> & Hall & Hpre & ->).
    split_and!; [split; cbn; lia|cbn; lia| |].
    + rewrite delivered_stop. destruct Hpre as [tl ->]. by apply Forall_app in Hsafe as [? _].
    + intros i e' Hi. split_and!; [done|eauto|]. intros j Hj.
      assert (length rs1 <= i)%nat as Hi'.
      { destruct (Nat.lt_ge_cases i (length rs1)); [|done].
        rewrite lookup_app_l in Hi by done. rewrite Forall_lookup in Hall.
        by apply Hall in Hi. }
      rewrite lookup_app_r by lia. rewrite length_app in Hj. cbn in Hj.
      rewrite length_replicate in Hj.
      destruct (j - length rs1)%nat as [|j'] eqn:Ej; [lia|]. cbn.
      apply lookup_replicate. split; [done|lia].
Qed.

Lemma decoder_fails_closed_witness :
  let '(rs, d') := feed (fun _ => None) (Decoder 8 [] 0 0 None) [[0; 0; 0]; [1; 49]; [0]] in
  decoder_ok d' /\
  Z.of_nat (buffered d') < 8 + 4 /\
  Forall safe_message (delivered rs) /\
  forall i e, rs !! i = Some (Err e) ->
    d_buffer d' = [] /\ is_Some (d_failure d') /\
    forall k, (i < k < length rs)%nat -> rs !! k = Some (Err decoder_poisoned).
Proof.
  apply (decoder_fails_closed (fun _ => None) (int 8) (Decoder 8 [] 0 0 None)).
  vm_compute. reflexivity.
Defined.

(** C2 Round trip through the wire: encode any messages, concatenate the frames
    and cut the bytes anywhere; a decoder with the same ceiling returns the
    messages in order and holds nothing back.  A message is its JSON text; it
    is only required that the text has paired surrogates, is not empty, does
    not begin with a byte-order mark, and that the runtime parses it to a value
    [projectDto] accepts as [j]. *)
Theorem frames_round_trip json_parse n d (msgs : list (jstring * json)) frames cs :
  createFrameDecoder n = Ok d ->
  Forall2 (fun '(text, j) frame =>
    well_formed text /\ text <> [] /\ head text <> Some 65279 /\
    (exists h v, json_parse text = Some (h, v) /\
       projectDto h ∅ v (int FRAME_PROJECTION_DEPTH) = Ok j) /\
    Z.of_nat (length (utf8_encode text)) < 2 ^ 32 /\
    encodeFrame (StringifyText text) n = Ok frame) msgs frames ->
  mjoin cs = mjoin frames ->
  let '(rs, d') := feed json_parse d cs in
  map m_dto (delivered rs) = map snd msgs /\ buffered d' = 0%nat /\ d_failure d' = None.
Proof.
  intros Hd Hm Hc. destruct (createFrameDecoder_waiting json_parse n d Hd) as (Hw & Hp & ->).
  destruct (scans_frames json_parse (d_maxFrameBytes d) msgs frames Hm) as (ms & Hms & Hs).
  rewrite <- Hc in Hs. rewrite <- (app_nil_l (mjoin cs)), <- Hp in Hs.
  pose proof (feed_scans json_parse d cs ms _ Hw Hs) as H1.
  destruct (feed json_parse d cs) as [rs d'].
  destruct H1 as (_ & -> & Hr & (Hok & Hf & _)).
  split_and!; [done| |done]. by rewrite <- (length_pending d' Hok), Hr, Hp.
Qed.

Lemma frames_round_trip_witness :
  let '(rs, d') := feed (fun _ => Some (∅, VBool true)) (Decoder 8 [] 0 0 None)
                     [[0; 0]; [0; 4; 116; 114]; [117; 101]] in
  map m_dto (delivered rs) = map snd [(js "true", JBool true)] /\ buffered d' = 0%nat /\
  d_failure d' = None.
Proof.
  apply (frames_round_trip (fun _ => Some (∅, VBool true)) (int 8) (Decoder 8 [] 0 0 None)
           [(js "true", JBool true)] [[0; 0; 0; 4; 116; 114; 117; 101]]).
  - vm_compute. reflexivity.
  - constructor; [|constructor]. split_and!.
    + split; [repeat constructor|reflexivity].
    + discriminate.
    + discriminate.
    + exists ∅, (VBool true). split; [reflexivity|]. vm_compute. reflexivity.
    + vm_compute. reflexivity.
    + vm_compute. reflexivity.
  - reflexivity.
Defined.
