(* ===== verification/ResourceBroker.v ===== *)
(** * The resource broker (packages/resource-broker/src/index.ts)

    A deterministic scheduler that grants vectors of host resources to test
    attempts.  The broker is a state machine: its fields are the record
    [Broker], each public operation and each callback (a deadline timer, an
    abort signal) is a [method].  The clock and the UUID source are read
    through oracles, functions of the number of earlier reads.

    Mutable objects are kept as such: lease records live in [heap] because a
    lease handle outlives its entry in [#leases]; attempts are addressed by
    their id, pending acquisitions by their sequence number. *)

From S2P Require Import Prelude JsText.

Local Open Scope Z_scope.

(** ** Data *)

Inductive ResourceClass : Type :=
| ptySession | externalProcess | semanticEndpoint | nativeHostPressure
| traceWriter | cpuWeight | memoryWeight | ioWeight.

Global Instance ResourceClass_eq_dec : EqDecision ResourceClass.
Proof. solve_decision. Defined.

Definition RESOURCE_CLASSES : list ResourceClass :=
  [ptySession; externalProcess; semanticEndpoint; nativeHostPressure;
   traceWriter; cpuWeight; memoryWeight; ioWeight].

Definition class_name (r : ResourceClass) : jstring :=
  js match r with
     | ptySession => "ptySession" | externalProcess => "externalProcess"
     | semanticEndpoint => "semanticEndpoint"
     | nativeHostPressure => "nativeHostPressure" | traceWriter => "traceWriter"
     | cpuWeight => "cpuWeight" | memoryWeight => "memoryWeight" | ioWeight => "ioWeight"
     end.

(** [Record<ResourceClass, number>] after normalization: safe integers.  A sum
    of two of them is compared with a third only, and rounding is monotone and
    exact below 2^53, so integer arithmetic decides as the source does. *)
Definition amounts : Type := ResourceClass -> Z.
Definition ZERO : amounts := fun _ => 0.

(** A caller's vector: an object's own enumerable properties. *)
Definition ResourceVector : Type := gmap jstring number.

Record WorkerIdentity : Type := {
  runId : jstring;
  workerId : jstring;
  workerEpoch : number;
}.
Record AttemptIdentity : Type := {
  worker : WorkerIdentity;
  attemptId : jstring;
}.
Global Instance WorkerIdentity_eq_dec : EqDecision WorkerIdentity.
Proof. solve_decision. Defined.
Global Instance AttemptIdentity_eq_dec : EqDecision AttemptIdentity.
Proof. solve_decision. Defined.

Record ResourceAttachment : Type := {
  resource : jstring;
  pid : option number;
  sessionId : option jstring;
}.

Inductive ResourceBrokerErrorCode : Type :=
| aborted | attempt_owner_mismatch | deadline_exceeded | invalid_request | queue_full
| resource_unavailable | stale_lease | stale_run | stale_worker.
Global Instance ErrorCode_eq_dec : EqDecision ResourceBrokerErrorCode.
Proof. solve_decision. Defined.

(** [signal]: absent, or present and [aborted] or not. *)
Record AcquireResourcesOptions : Type := {
  owner : AttemptIdentity;
  requested : ResourceVector;
  until : number;
  signal : option bool;
}.

(** [leases] maps lease ids to addresses of [heap]. *)
Record AttemptState : Type := {
  identity : AttemptIdentity;
  held : gmap jstring nat;
  reservation : amounts;
  queued : Z;
}.

(** [releasePromise] is the memoized promise, as what it settled to. *)
Record LeaseRecord : Type := {
  leaseId : jstring;
  token : jstring;
  lessee : AttemptIdentity;
  resources : amounts;
  attachments : list ResourceAttachment;
  released : bool;
  releasePromise : option (result ResourceBrokerErrorCode unit);
}.

Record PendingAcquire : Type := {
  number_of : Z;
  claimant : AttemptIdentity;
  demand : amounts;
  deadline : number;
  abortable : bool;
}.

(** How the promise of a queued acquisition settled. *)
Inductive Settlement : Type :=
| Granted (lease : nat)
| Refused (code : ResourceBrokerErrorCode).

(** What [acquire] returns when it does not throw: a promise that is already
    settled, or one that the queue entry with this number settles. *)
Inductive Promised : Type :=
| Settled (r : Settlement)
| Waiting (sequence : Z).

Record Config : Type := {
  brokerRun : jstring;
  capacities : amounts;
  maxQueued : Z;
}.

Record Broker : Type := mkBroker {
  config : Config;  (** readonly fields *)
  workers : gmap jstring number;  (** live workers and their epoch *)
  highestEpoch : gmap jstring number;
  attempts : gmap jstring AttemptState;
  heap : gmap nat LeaseRecord;  (** every lease record ever granted *)
  leases : gmap jstring nat;  (** live leases: lease id to record *)
  queue : list PendingAcquire;
  used : amounts;
  sequence : Z;
  settled : gset Z;  (** pending acquisitions whose [settled] flag is set *)
  outbox : gmap Z Settlement;  (** how the promise of a queued acquisition was settled *)
  allocated : nat;  (** the next address of [heap] *)
  ticks : nat;  (** how often the clock was read *)
  draws : nat  (** how often the UUID source was read *)
}.

Definition set_workers (x : gmap jstring number) (s : Broker) : Broker :=
  mkBroker (s.(config)) x (s.(highestEpoch)) (s.(attempts)) (s.(heap)) (s.(leases)) (s.(queue)) (s.(used)) (s.(sequence)) (s.(settled)) (s.(outbox)) (s.(allocated)) (s.(ticks)) (s.(draws)).
Definition set_highestEpoch (x : gmap jstring number) (s : Broker) : Broker :=
  mkBroker (s.(config)) (s.(workers)) x (s.(attempts)) (s.(heap)) (s.(leases)) (s.(queue)) (s.(used)) (s.(sequence)) (s.(settled)) (s.(outbox)) (s.(allocated)) (s.(ticks)) (s.(draws)).
Definition set_attempts (x : gmap jstring AttemptState) (s : Broker) : Broker :=
  mkBroker (s.(config)) (s.(workers)) (s.(highestEpoch)) x (s.(heap)) (s.(leases)) (s.(queue)) (s.(used)) (s.(sequence)) (s.(settled)) (s.(outbox)) (s.(allocated)) (s.(ticks)) (s.(draws)).
Definition set_heap (x : gmap nat LeaseRecord) (s : Broker) : Broker :=
  mkBroker (s.(config)) (s.(workers)) (s.(highestEpoch)) (s.(attempts)) x (s.(leases)) (s.(queue)) (s.(used)) (s.(sequence)) (s.(settled)) (s.(outbox)) (s.(allocated)) (s.(ticks)) (s.(draws)).
Definition set_leases (x : gmap jstring nat) (s : Broker) : Broker :=
  mkBroker (s.(config)) (s.(workers)) (s.(highestEpoch)) (s.(attempts)) (s.(heap)) x (s.(queue)) (s.(used)) (s.(sequence)) (s.(settled)) (s.(outbox)) (s.(allocated)) (s.(ticks)) (s.(draws)).
Definition set_queue (x : list PendingAcquire) (s : Broker) : Broker :=
  mkBroker (s.(config)) (s.(workers)) (s.(highestEpoch)) (s.(attempts)) (s.(heap)) (s.(leases)) x (s.(used)) (s.(sequence)) (s.(settled)) (s.(outbox)) (s.(allocated)) (s.(ticks)) (s.(draws)).
Definition set_used (x : amounts) (s : Broker) : Broker :=
  mkBroker (s.(config)) (s.(workers)) (s.(highestEpoch)) (s.(attempts)) (s.(heap)) (s.(leases)) (s.(queue)) x (s.(sequence)) (s.(settled)) (s.(outbox)) (s.(allocated)) (s.(ticks)) (s.(draws)).
Definition set_sequence (x : Z) (s : Broker) : Broker :=
  mkBroker (s.(config)) (s.(workers)) (s.(highestEpoch)) (s.(attempts)) (s.(heap)) (s.(leases)) (s.(queue)) (s.(used)) x (s.(settled)) (s.(outbox)) (s.(allocated)) (s.(ticks)) (s.(draws)).
Definition set_settled (x : gset Z) (s : Broker) : Broker :=
  mkBroker (s.(config)) (s.(workers)) (s.(highestEpoch)) (s.(attempts)) (s.(heap)) (s.(leases)) (s.(queue)) (s.(used)) (s.(sequence)) x (s.(outbox)) (s.(allocated)) (s.(ticks)) (s.(draws)).
Definition set_outbox (x : gmap Z Settlement) (s : Broker) : Broker :=
  mkBroker (s.(config)) (s.(workers)) (s.(highestEpoch)) (s.(attempts)) (s.(heap)) (s.(leases)) (s.(queue)) (s.(used)) (s.(sequence)) (s.(settled)) x (s.(allocated)) (s.(ticks)) (s.(draws)).
Definition set_allocated (x : nat) (s : Broker) : Broker :=
  mkBroker (s.(config)) (s.(workers)) (s.(highestEpoch)) (s.(attempts)) (s.(heap)) (s.(leases)) (s.(queue)) (s.(used)) (s.(sequence)) (s.(settled)) (s.(outbox)) x (s.(ticks)) (s.(draws)).
Definition set_ticks (x : nat) (s : Broker) : Broker :=
  mkBroker (s.(config)) (s.(workers)) (s.(highestEpoch)) (s.(attempts)) (s.(heap)) (s.(leases)) (s.(queue)) (s.(used)) (s.(sequence)) (s.(settled)) (s.(outbox)) (s.(allocated)) x (s.(draws)).
Definition set_draws (x : nat) (s : Broker) : Broker :=
  mkBroker (s.(config)) (s.(workers)) (s.(highestEpoch)) (s.(attempts)) (s.(heap)) (s.(leases)) (s.(queue)) (s.(used)) (s.(sequence)) (s.(settled)) (s.(outbox)) (s.(allocated)) (s.(ticks)) x.

Abbreviation op := (method Broker ResourceBrokerErrorCode).

(** ** Pure helpers *)

Definition positiveInteger (value : number) (allowZero : bool) : result ResourceBrokerErrorCode Z :=
  match to_safe_integer value with
  | Some z => if z <? (if allowZero then 0 else 1) then Err invalid_request else Ok z
  | None => Err invalid_request
  end.

Definition normalizeCapacities (given : ResourceVector) : result ResourceBrokerErrorCode amounts :=
  foldr (fun r rest =>
           units ← positiveInteger (default (int 0) (given !! class_name r)) true;
           next ← rest;
           Ok (fun r' => if decide (r' = r) then units else next r'))
        (Ok ZERO) RESOURCE_CLASSES.

(** The loop of [normalizeVector]: the amounts read so far and their total. *)
Definition normalizeStep (vector : ResourceVector) (limit : amounts)
    (acc : result ResourceBrokerErrorCode (amounts * Z)) (r : ResourceClass) :
    result ResourceBrokerErrorCode (amounts * Z) :=
  '(normalized, total) ← acc;
  units ← positiveInteger (default (int 0) (vector !! class_name r)) true;
  _ ← guard_or (units <=? limit r) resource_unavailable;
  Ok (fun r' => if decide (r' = r) then units else normalized r', total + units).

Definition known_class (key : jstring) : bool :=
  bool_decide (key ∈ class_name <$> RESOURCE_CLASSES).

Definition normalizeVector (vector : ResourceVector) (limit : amounts) :
    result ResourceBrokerErrorCode amounts :=
  '(normalized, total) ← foldl (normalizeStep vector limit) (Ok (ZERO, 0)) RESOURCE_CLASSES;
  _ ← guard_or (negb (total =? 0)) invalid_request;
  _ ← guard_or (forallb known_class (map_to_list vector).*1) invalid_request;
  Ok normalized.

Definition assertWorker (id : jstring) (epoch : number) : result ResourceBrokerErrorCode unit :=
  _ ← guard_or (negb ((length id =? 0)%nat || (256 <? Z.of_nat (length id)))) invalid_request;
  match to_safe_integer epoch with
  | Some e => guard_or (0 <=? e) invalid_request
  | None => Err invalid_request
  end.

(** [===] on numbers. *)
Definition same_number (a b : number) : bool := num_leb a b && num_leb b a.

Definition sameWorker (l r : WorkerIdentity) : bool :=
  bool_decide (runId l = runId r) && bool_decide (workerId l = workerId r) &&
  same_number (workerEpoch l) (workerEpoch r).
Definition sameAttempt (l r : AttemptIdentity) : bool :=
  sameWorker (worker l) (worker r) && bool_decide (attemptId l = attemptId r).

(** [#fits] and [#limitedBy] *)
Definition fits (s : Broker) (additional : amounts) : bool :=
  forallb (fun r => used s r + additional r <=? capacities (config s) r) RESOURCE_CLASSES.
Definition limitedBy (s : Broker) (additional : amounts) : list ResourceClass :=
  filter (fun r => capacities (config s) r < used s r + additional r) RESOURCE_CLASSES.

Global Arguments fits : simpl never.

(** ** Guards *)

Definition assertRun (run : jstring) : op unit := fun s =>
  (guard_or (bool_decide (run = brokerRun (config s))) stale_run, s).

Definition assertIdentity (w : WorkerIdentity) : op unit :=
  _ ← assertRun (runId w);
  _ ← lift (assertWorker (workerId w) (workerEpoch w));
  s ← get;
  lift (guard_or (match workers s !! workerId w with
                  | Some epoch => same_number epoch (workerEpoch w)
                  | None => false
                  end) stale_worker).

(** ** Bookkeeping *)

Definition update_attempt (id : jstring) (f : AttemptState -> AttemptState) (s : Broker) : Broker :=
  set_attempts (alter f id (attempts s)) s.

(** [#attempt]: the attempt of an identity, created when it is new. *)
Definition attempt_of (who : AttemptIdentity) : op unit := fun s =>
  match attempts s !! attemptId who with
  | Some existing =>
      (guard_or (sameWorker (worker (identity existing)) (worker who)) attempt_owner_mismatch, s)
  | None =>
      (Ok tt, set_attempts
        (<[attemptId who := {| identity := who; held := ∅; reservation := ZERO; queued := 0 |}]>
           (attempts s)) s)
  end.

Definition deleteAttemptIfEmpty (id : jstring) (s : Broker) : Broker :=
  match attempts s !! id with
  | Some a => if bool_decide (held a = ∅) && (queued a =? 0)
              then set_attempts (delete id (attempts s)) s else s
  | None => s
  end.

(** The sum of the leases an attempt holds. *)
Definition lease_amount (h : gmap nat LeaseRecord) (r : ResourceClass) (addr : nat) : Z :=
  match h !! addr with Some l => resources l r | None => 0 end.
Definition held_amount (h : gmap nat LeaseRecord) (a : AttemptState) : amounts := fun r =>
  msum (lease_amount h r) (held a).

Definition recomputeReservation (id : jstring) (s : Broker) : Broker :=
  match attempts s !! id with
  | Some a =>
      let next := held_amount (heap s) a in
      set_used (fun r => used s r + (next r - reservation a r))
        (update_attempt id (fun a =>
           {| identity := identity a; held := held a; reservation := next; queued := queued a |}) s)
  | None => s
  end.

Definition mark_settled (p : PendingAcquire) (s : Broker) : Broker :=
  set_settled ({[number_of p]} ∪ settled s) s.

Definition settlePending (p : PendingAcquire) (s : Broker) : Broker :=
  if bool_decide (number_of p ∈ settled s) then s
  else update_attempt (attemptId (claimant p)) (fun a =>
         {| identity := identity a; held := held a; reservation := reservation a;
            queued := queued a - 1 |}) (mark_settled p s).

(** [pending.resolve] and [pending.reject]: the first call settles. *)
Definition settle_promise (n : Z) (r : Settlement) (s : Broker) : Broker :=
  match outbox s !! n with
  | Some _ => s
  | None => set_outbox (<[n := r]> (outbox s)) s
  end.

(** [this.#queue.indexOf(pending)] and the [splice] that removes it. *)
Definition queue_index (p : PendingAcquire) (s : Broker) : option nat :=
  find_index (fun q => number_of q =? number_of p) (queue s).
Definition unqueue (p : PendingAcquire) (s : Broker) : Broker :=
  match queue_index p s with
  | Some i => set_queue (delete i (queue s)) s
  | None => s
  end.

(** [#nextDrainableIndex] *)
Definition continues (s : Broker) (p : PendingAcquire) : bool :=
  fits s (demand p) &&
  match attempts s !! attemptId (claimant p) with
  | Some a => negb (bool_decide (held a = ∅))
  | None => false
  end.
Definition nextDrainableIndex (s : Broker) : nat :=
  default 0%nat (find_index (continues s) (queue s)).

(** ** Operations *)

Section Broker.
Context (clock : nat -> number) (uuid : nat -> jstring).

Definition now : op number := fun s => (Ok (clock (ticks s)), set_ticks (S (ticks s)) s).
Definition randomUUID : op jstring := fun s => (Ok (uuid (draws s)), set_draws (S (draws s)) s).

(** The loop of [#freshLeaseId], with the attempts it has left. *)
Fixpoint fresh_loop (attempts_left : nat) : op jstring :=
  match attempts_left with
  | O => throw invalid_request
  | S n =>
      id ← randomUUID;
      s ← get;
      let leaseId := js "lease:" ++ id in
      if bool_decide (leases s !! leaseId = None) then mret leaseId else fresh_loop n
  end.
Definition freshLeaseId : op jstring := fresh_loop 8.

(** [#grant]: the amounts are added before the lease id is drawn. *)
Definition grant (id : jstring) (want : amounts) : op nat :=
  _ ← modify (fun s =>
        set_used (fun r => used s r + want r)
          (update_attempt id (fun a =>
             {| identity := identity a; held := held a;
                reservation := fun r => reservation a r + want r; queued := queued a |}) s));
  lid ← freshLeaseId;
  tok ← randomUUID;
  s ← get;
  match attempts s !! id with
  | Some a =>
      let addr := allocated s in
      let lease := {| leaseId := lid; token := tok; lessee := identity a; resources := want;
                      attachments := []; released := false; releasePromise := None |} in
      _ ← modify (fun s =>
            set_allocated (S addr)
              (set_leases (<[lid := addr]> (leases s))
                (set_heap (<[addr := lease]> (heap s))
                  (update_attempt id (fun a =>
                     {| identity := identity a; held := <[lid := addr]> (held a);
                        reservation := reservation a; queued := queued a |}) s))));
      mret addr
  | None => throw invalid_request
  end.

(** [#cancel], with the drain it ends in as an argument. *)
Definition cancel_with (drain : op unit) (p : PendingAcquire)
    (e : ResourceBrokerErrorCode) : op unit := fun s =>
  if bool_decide (number_of p ∈ settled s) then (Ok tt, s)
  else
    let s := unqueue p s in
    let id := attemptId (claimant p) in
    let s := match attempts s !! id with
             | Some _ => settlePending p s
             | None => mark_settled p s
             end in
    let s := deleteAttemptIfEmpty id s in
    drain (settle_promise (number_of p) (Refused e) s).

(** [#drain]: every turn of the loop that does not return removes an entry of
    the queue, so one more turn than the queue is long is enough. *)
Fixpoint drain_loop (fuel : nat) : op unit :=
  match fuel with
  | O => mret tt
  | S fuel =>
      s ← get;
      match queue s !! nextDrainableIndex s with
      | None => mret tt
      | Some p =>
          t ← now;
          if num_leb (deadline p) t then
            _ ← cancel_with (drain_loop fuel) p deadline_exceeded;
            drain_loop fuel
          else
            match attempts s !! attemptId (claimant p) with
            | None =>
                _ ← cancel_with (drain_loop fuel) p stale_worker;
                drain_loop fuel
            | Some _ =>
                if negb (fits s (demand p)) then mret tt
                else
                  _ ← modify (fun s => set_queue (delete (nextDrainableIndex s) (queue s)) s);
                  _ ← modify (settlePending p);
                  addr ← grant (attemptId (claimant p)) (demand p);
                  _ ← modify (settle_promise (number_of p) (Granted addr));
                  drain_loop fuel
            end
      end
  end.
Definition drain : op unit := fun s => drain_loop (S (length (queue s))) s.
Definition cancel : PendingAcquire -> ResourceBrokerErrorCode -> op unit := cancel_with drain.

(** [#reclaimWorker] *)
Definition owned_by (w : WorkerIdentity) (id : jstring) (epoch : number) : bool :=
  bool_decide (workerId w = id) && same_number (workerEpoch w) epoch.

Fixpoint cancel_each (ps : list PendingAcquire) : op unit :=
  match ps with
  | [] => mret tt
  | p :: ps => _ ← cancel p stale_worker; cancel_each ps
  end.

(** One turn of the loop over the attempts: every lease it holds is released. *)
Definition reclaim_attempt (id : jstring) (s : Broker) : Broker :=
  match attempts s !! id with
  | Some a =>
      let s :=
        map_fold (fun lid addr s =>
          set_leases (delete lid (leases s))
            (set_heap (alter (fun l =>
               {| leaseId := leaseId l; token := token l; lessee := lessee l;
                  resources := resources l; attachments := attachments l; released := true;
                  releasePromise := releasePromise l |}) addr (heap s)) s)) s (held a) in
      let s := update_attempt id (fun a =>
                 {| identity := identity a; held := ∅; reservation := reservation a;
                    queued := queued a |}) s in
      deleteAttemptIfEmpty id (recomputeReservation id s)
  | None => s
  end.

Definition owned_attempts (id : jstring) (epoch : number) (s : Broker) : list jstring :=
  fst <$> filter (fun ka => Is_true (owned_by (worker (identity ka.2)) id epoch))
            (map_to_list (attempts s)).

Definition reclaimWorker (id : jstring) (epoch : number) : op unit :=
  s ← get;
  _ ← cancel_each (filter (fun p => Is_true (owned_by (worker (claimant p)) id epoch)) (queue s));
  modify (fun s => foldl (fun s id => reclaim_attempt id s) s (owned_attempts id epoch s)).

Definition registerWorker (w : WorkerIdentity) : op unit :=
  _ ← assertRun (runId w);
  _ ← lift (assertWorker (workerId w) (workerEpoch w));
  s ← get;
  if match highestEpoch s !! workerId w with
     | Some highest => num_leb (workerEpoch w) highest
     | None => false
     end
  then throw stale_worker
  else
    let current := workers s !! workerId w in
    _ ← match current with
        | Some epoch => reclaimWorker (workerId w) epoch
        | None => mret tt
        end;
    _ ← modify (fun s =>
          set_highestEpoch (<[workerId w := workerEpoch w]> (highestEpoch s))
            (set_workers (<[workerId w := workerEpoch w]> (workers s)) s));
    match current with Some _ => drain | None => mret tt end.

Definition disconnectWorker (w : WorkerIdentity) : op unit :=
  _ ← assertRun (runId w);
  s ← get;
  if match workers s !! workerId w with
     | Some epoch => same_number epoch (workerEpoch w)
     | None => false
     end
  then
    _ ← reclaimWorker (workerId w) (workerEpoch w);
    _ ← modify (fun s => set_workers (delete (workerId w) (workers s)) s);
    drain
  else mret tt.

Definition acquire (o : AcquireResourcesOptions) : op Promised :=
  let id := attemptId (owner o) in
  _ ← assertIdentity (worker (owner o));
  s ← get;
  want ← lift (normalizeVector (requested o) (capacities (config s)));
  if negb (isFinite (until o)) then mret (Settled (Refused invalid_request))
  else if bool_decide (signal o = Some true) then mret (Settled (Refused aborted))
  else
    t ← now;
    if num_leb (until o) t then mret (Settled (Refused deadline_exceeded))
    else
      _ ← attempt_of (owner o);
      s ← get;
      if (length (queue s) =? 0)%nat && fits s want then
        addr ← grant id want;
        mret (Settled (Granted addr))
      else if maxQueued (config s) <=? Z.of_nat (length (queue s)) then
        _ ← modify (deleteAttemptIfEmpty id);
        mret (Settled (Refused queue_full))
      else
        let n := sequence s + 1 in
        let p := {| number_of := n; claimant := owner o; demand := want; deadline := until o;
                    abortable := match signal o with Some _ => true | None => false end |} in
        _ ← modify (fun s =>
              set_queue (queue s ++ [p])
                (update_attempt id (fun a =>
                   {| identity := identity a; held := held a; reservation := reservation a;
                      queued := queued a + 1 |}) (set_sequence n s)));
        _ ← now;
        _ ← catch drain (fun e => modify (settle_promise n (Refused e)));
        mret (Waiting n).

(** The deadline timer and the abort listener of a pending acquisition. *)
Definition onTimer (p : PendingAcquire) : op unit := cancel p deadline_exceeded.
Definition onAbort (p : PendingAcquire) : op unit :=
  if abortable p then cancel p aborted else mret tt.

Definition authenticatedLease (who : AttemptIdentity) (lid tok : jstring) :
    op (nat * LeaseRecord) :=
  _ ← assertIdentity (worker who);
  s ← get;
  match leases s !! lid ≫= fun addr => l ← heap s !! addr; Some (addr, l) with
  | Some (addr, l) =>
      if bool_decide (token l = tok) && sameAttempt (lessee l) who then mret (addr, l)
      else throw stale_lease
  | None => throw stale_lease
  end.

Definition parse_class (name : jstring) : option ResourceClass :=
  snd <$> find (fun '(n, _) => bool_decide (n = name))
            ((fun r => (class_name r, r)) <$> RESOURCE_CLASSES).

Definition checkAttachment (l : LeaseRecord) (a : ResourceAttachment) :
    result ResourceBrokerErrorCode ResourceAttachment :=
  match parse_class (resource a) with
  | None => Err invalid_request
  | Some r =>
      _ ← guard_or (negb (resources l r =? 0)) invalid_request;
      _ ← guard_or match pid a with
                   | Some n => match to_integer n with Some z => 0 <? z | None => false end
                   | None => true
                   end invalid_request;
      _ ← guard_or match sessionId a with
                   | Some t => negb (length t =? 0)%nat
                   | None => true
                   end invalid_request;
      Ok a
  end.

Fixpoint checkAttachments (l : LeaseRecord) (given : list ResourceAttachment) :
    result ResourceBrokerErrorCode (list ResourceAttachment) :=
  match given with
  | [] => Ok []
  | a :: given =>
      a ← checkAttachment l a;
      given ← checkAttachments l given;
      Ok (a :: given)
  end.

Definition attach_lease (who : AttemptIdentity) (lid tok : jstring)
    (given : list ResourceAttachment) : op unit :=
  '(addr, l) ← authenticatedLease who lid tok;
  checked ← lift (checkAttachments l given);
  modify (fun s => set_heap (alter (fun l =>
    {| leaseId := leaseId l; token := token l; lessee := lessee l; resources := resources l;
       attachments := checked; released := released l;
       releasePromise := releasePromise l |}) addr (heap s)) s).

Definition release_lease (who : AttemptIdentity) (lid tok : jstring) : op unit :=
  '(addr, l) ← authenticatedLease who lid tok;
  if released l then mret tt
  else
    let id := attemptId (lessee l) in
    _ ← modify (fun s => set_heap (alter (fun l =>
          {| leaseId := leaseId l; token := token l; lessee := lessee l; resources := resources l;
             attachments := attachments l; released := true;
             releasePromise := releasePromise l |}) addr (heap s)) s);
    _ ← modify (fun s => set_leases (delete (leaseId l) (leases s)) s);
    _ ← modify (update_attempt id (fun a =>
          {| identity := identity a; held := delete (leaseId l) (held a);
             reservation := reservation a; queued := queued a |}));
    _ ← modify (recomputeReservation id);
    _ ← modify (deleteAttemptIfEmpty id);
    drain.

(** The methods of a lease handle ([#publicLease]); the handle of a record is
    its address. *)
Definition attach (handle : nat) (given : list ResourceAttachment) : op unit :=
  s ← get;
  match heap s !! handle with
  | Some l => attach_lease (lessee l) (leaseId l) (token l) given
  | None => throw stale_lease
  end.

Definition release (handle : nat) : op unit :=
  s ← get;
  match heap s !! handle with
  | Some l =>
      match releasePromise l with
      | Some r => lift r
      | None => fun s =>
          let '(r, s) := release_lease (lessee l) (leaseId l) (token l) s in
          (r, set_heap (alter (fun l =>
             {| leaseId := leaseId l; token := token l; lessee := lessee l;
                resources := resources l; attachments := attachments l;
                released := released l; releasePromise := Some r |}) handle (heap s)) s)
      end
  | None => throw stale_lease
  end.

End Broker.

(** ** Snapshots and construction *)

Record LeaseSnapshot : Type := {
  leaseOwner : AttemptIdentity;
  snapshotLeaseId : jstring;
  leaseResources : list (ResourceClass * Z);
  leaseAttachments : list ResourceAttachment;
}.
Record QueueSnapshot : Type := {
  queueOwner : AttemptIdentity;
  position : Z;
  queueResources : list (ResourceClass * Z);
  queueDeadline : number;
  (** [None] is ['fifo'] *)
  queueLimitedBy : list (option ResourceClass);
}.
Record BrokerSnapshot : Type := {
  snapshotRun : jstring;
  snapshotCapacities : list (ResourceClass * Z);
  snapshotUsed : list (ResourceClass * Z);
  active : list LeaseSnapshot;
  waiting : list QueueSnapshot;
}.

Definition listed (a : amounts) : list (ResourceClass * Z) :=
  (fun r => (r, a r)) <$> RESOURCE_CLASSES.

Definition freezeLeaseSnapshot (l : LeaseRecord) : LeaseSnapshot :=
  {| leaseOwner := lessee l; snapshotLeaseId := leaseId l;
     leaseResources := listed (resources l); leaseAttachments := attachments l |}.

(** [#leases] in insertion order is the order of the addresses. *)
Definition live_records (s : Broker) : list LeaseRecord :=
  omap (fun addr =>
          match heap s !! addr with
          | Some l => if bool_decide (leases s !! leaseId l = Some addr) then Some l else None
          | None => None
          end) (seq 0 (allocated s)).

Definition snapshot (s : Broker) : BrokerSnapshot :=
  {| snapshotRun := brokerRun (config s);
     snapshotCapacities := listed (capacities (config s));
     snapshotUsed := listed (used s);
     active := freezeLeaseSnapshot <$> live_records s;
     waiting := imap (fun index p =>
       {| queueOwner := claimant p; position := Z.of_nat index + 1;
          queueResources := listed (demand p); queueDeadline := deadline p;
          queueLimitedBy := (if (index =? 0)%nat then [] else [None]) ++
                            (Some <$> limitedBy s (demand p)) |}) (queue s) |}.

(** The constructor; [limit] is [options.maxQueued]. *)
Definition construct (run : jstring) (given : ResourceVector) (limit : option number) :
    result ResourceBrokerErrorCode Broker :=
  caps ← normalizeCapacities given;
  bound ← positiveInteger (default (int 1000) limit) false;
  Ok (mkBroker {| brokerRun := run; capacities := caps; maxQueued := bound |}
        ∅ ∅ ∅ ∅ ∅ [] ZERO 0 ∅ ∅ 0 0 0).

(** ** Basic facts *)

Lemma same_number_eq a b : same_number a b = true -> a = b.
Proof.
  unfold same_number. destruct a as [u|[]|], b as [v|[]|]; cbn; try done.
  intros H. breflect. f_equal. lia.
Qed.

Lemma same_number_refl a : a <> NaN -> same_number a a = true.
Proof. unfold same_number. destruct a as [u|[]|]; cbn; try done. by rewrite Z.leb_refl. Qed.

Lemma sameWorker_eq l r : sameWorker l r = true -> l = r.
Proof.
  unfold sameWorker. intros H. breflect. destruct l, r; cbn in *.
  match goal with H : same_number _ _ = true |- _ => apply same_number_eq in H end.
  congruence.
Qed.

Lemma fits_spec s want :
  fits s want = true <-> forall r, used s r + want r <= capacities (config s) r.
Proof.
  unfold fits. rewrite forallb_forall. split.
  - intros H r. assert (In r RESOURCE_CLASSES) as Hin by (destruct r; cbn; tauto).
    by apply H, Z.leb_le in Hin.
  - intros H r _. by apply Z.leb_le.
Qed.

Lemma positiveInteger_Ok v z0 z :
  positiveInteger v z0 = Ok z -> (if z0 then 0 else 1) <= z <= max_safe.
Proof.
  unfold positiveInteger. destruct (to_safe_integer v) as [x|] eqn:E; [|done].
  apply to_safe_integer_Some in E as [_ Hx].
  destruct (_ <? _) eqn:Hlt; [done|]. intros [= <-]. breflect. destruct z0; lia.
Qed.

(** What a normalized vector satisfies. *)
Definition demand_ok (limit want : amounts) : Prop := forall r, 0 <= want r <= limit r.

Lemma normalize_fold_Err vector limit rs e :
  foldl (normalizeStep vector limit) (Err e) rs = Err e.
Proof. by induction rs. Qed.

Lemma normalize_fold vector limit rs normalized total n t :
  (forall r, 0 <= normalized r) ->
  foldl (normalizeStep vector limit) (Ok (normalized, total)) rs = Ok (n, t) ->
  (forall r, 0 <= n r) /\ (forall r, r ∈ rs -> n r <= limit r) /\
  (forall r, r ∉ rs -> n r = normalized r).
Proof.
  revert normalized total. induction rs as [|r rs IH]; intros normalized total H0 H; cbn in H.
  - simplify_eq. split_and!; [done|by intros r ?%not_elem_of_nil|done].
  - destruct (positiveInteger _ true) as [units|e] eqn:Hu; cbn in H;
      [|by rewrite normalize_fold_Err in H].
    unfold guard_or in H.
    destruct (units <=? limit r) eqn:Hle; cbn in H; [|by rewrite normalize_fold_Err in H].
    apply positiveInteger_Ok in Hu. breflect.
    apply IH in H as (Hn & Hl & Ho); [|intros r'; destruct (decide (r' = r)); [lia|done]].
    split_and!; [done| |].
    + intros r' [->|Hin]%elem_of_cons; [|auto].
      destruct (decide (r ∈ rs)) as [|Hnin]; [auto|]. rewrite (Ho r Hnin). by rewrite decide_True.
    + intros r' [Hne Hnin]%not_elem_of_cons. rewrite (Ho r' Hnin). by rewrite decide_False.
Qed.

Lemma normalizeVector_Ok vector limit want :
  normalizeVector vector limit = Ok want -> demand_ok limit want.
Proof.
  unfold normalizeVector. intros H. apply bind_Ok in H as ([n t] & Hf & H).
  apply bind_Ok in H as (? & _ & H). apply bind_Ok in H as (? & _ & [= <-]).
  apply normalize_fold in Hf as (H0 & Hl & _); [|done].
  intros r. split; [apply H0|]. apply Hl. destruct r; set_solver.
Qed.
