(* ===== verification/BrokerAccounting.v ===== *)
(** * The resource broker: accounting

    The invariant that ties [#used], the reservations of the attempts, the live
    leases and the queue together, and that every operation of
    [ResourceBroker] preserves it. *)

From S2P Require Import Prelude JsText ResourceBroker.

Local Open Scope Z_scope.

(** The accounting is exact ([tight]) as long as the UUID source does not
    repeat itself; otherwise a grant that finds no fresh lease id leaves its
    amounts reserved, and the books are an upper bound. *)
Definition rel (tight : bool) (x y : Z) : Prop := if tight then x = y else x <= y.

Lemma rel_refl t x : rel t x x.
Proof. destruct t; cbn; lia. Qed.
Lemma rel_add t x y z : rel t x y -> rel t (x + z) (y + z).
Proof. destruct t; cbn; lia. Qed.
Lemma rel_le t x y : rel t x y -> x <= y.
Proof. destruct t; cbn; lia. Qed.

(** Projections of updated states. *)
Ltac bcbn :=
  cbn [update_attempt mark_settled config workers highestEpoch attempts heap leases queue used sequence settled outbox allocated ticks draws
       set_workers set_highestEpoch set_attempts set_heap set_leases set_queue set_used set_sequence set_settled set_outbox set_allocated set_ticks set_draws
       identity held reservation queued worker attemptId fst snd] in *.

(** The queue entries of an attempt. *)
Definition entries (k : jstring) (q : list PendingAcquire) : list PendingAcquire :=
  filter (fun p => attemptId (claimant p) = k) q.

(** The attempt found in an updated map: the updated one or another. *)
Ltac alter_cases H := apply lookup_alter_Some in H as [(<- & ? & H & ->)|[? H]]; bcbn.

(** An attempt keeps its owner when its identity is kept. *)
Lemma alter_owner (j k : jstring) (f : AttemptState -> AttemptState) (m : gmap jstring AttemptState) w :
  (exists a, m !! k = Some a /\ worker (identity a) = w) ->
  (forall a, identity (f a) = identity a) ->
  exists a, alter f j m !! k = Some a /\ worker (identity a) = w.
Proof.
  intros (a & Ha & Hw) Hf. destruct (decide (j = k)) as [->|Hne].
  - exists (f a). by rewrite lookup_alter_eq, Ha, Hf.
  - exists a. by rewrite lookup_alter_ne.
Qed.

(** A property of some attempt survives an update that keeps it. *)
Lemma alter_exists {A} (P : A -> Prop) (j : jstring) (f : A -> A) (m : gmap jstring A) :
  (exists k a, m !! k = Some a /\ P a) -> (forall a, m !! j = Some a -> P a -> P (f a)) ->
  exists k a, alter f j m !! k = Some a /\ P a.
Proof.
  intros (k & a & Ha & HP) Hf. destruct (decide (j = k)) as [->|Hne].
  - exists k, (f a). rewrite lookup_alter_eq, Ha. eauto.
  - exists k, a. by rewrite lookup_alter_ne.
Qed.

Lemma entries_delete k q i p :
  q !! i = Some p ->
  length (entries k q) =
  ((if decide (attemptId (claimant p) = k) then 1 else 0) + length (entries k (delete i q)))%nat.
Proof.
  intros Hp. unfold entries. rewrite (delete_Permutation q i p Hp) at 1. rewrite filter_cons.
  by destruct (decide _).
Qed.

Lemma elem_of_delete {A} (q : list A) i p x : q !! i = Some p -> x ∈ delete i q -> x ∈ q.
Proof. intros Hp Hx. rewrite (delete_Permutation q i p Hp). by right. Qed.

Lemma numbers_delete (q : list PendingAcquire) i p :
  q !! i = Some p -> NoDup (number_of <$> q) ->
  NoDup (number_of <$> delete i q) /\ forall x, x ∈ delete i q -> number_of x <> number_of p.
Proof.
  intros Hp Hn. rewrite (delete_Permutation q i p Hp), fmap_cons in Hn.
  apply NoDup_cons in Hn as [Hnin Hn]. split; [done|]. intros x Hx Heq. apply Hnin.
  rewrite <- Heq. by apply list_elem_of_fmap_2.
Qed.

Section Accounting.
Context (uuid : nat -> jstring).

Record accounting (tight : bool) (s : Broker) : Prop := {
  acc_key k a : attempts s !! k = Some a -> attemptId (identity a) = k;
  acc_owner k a : attempts s !! k = Some a ->
    workers s !! workerId (worker (identity a)) = Some (workerEpoch (worker (identity a)));
  acc_queue p : p ∈ queue s -> exists a, attempts s !! attemptId (claimant p) = Some a /\
    worker (identity a) = worker (claimant p);
  acc_demand p : p ∈ queue s -> demand_ok (capacities (config s)) (demand p);
  acc_number p : p ∈ queue s -> 0 < number_of p <= sequence s /\ number_of p ∉ settled s;
  acc_numbers : NoDup (number_of <$> queue s);
  acc_queued k a : attempts s !! k = Some a -> queued a = Z.of_nat (length (entries k (queue s)));
  acc_held k a lid addr : attempts s !! k = Some a -> held a !! lid = Some addr ->
    leases s !! lid = Some addr /\ exists l, heap s !! addr = Some l /\
      leaseId l = lid /\ lessee l = identity a /\ released l = false;
  acc_lease lid addr : leases s !! lid = Some addr ->
    exists k a, attempts s !! k = Some a /\ held a !! lid = Some addr;
  acc_heap addr l : heap s !! addr = Some l ->
    (addr < allocated s)%nat /\ forall r, 0 <= resources l r;
  acc_reservation k a r : attempts s !! k = Some a ->
    rel tight (held_amount (heap s) a r) (reservation a r);
  acc_used r : rel tight (msum (fun a => reservation a r) (attempts s)) (used s r);
  acc_bound r : used s r <= capacities (config s) r;
  acc_ids lid addr : leases s !! lid = Some addr ->
    exists i, (i < draws s)%nat /\ lid = js "lease:" ++ uuid i;
  acc_queue_length : Z.of_nat (length (queue s)) <= maxQueued (config s);
}.

Lemma lease_amount_nonneg t s r addr : accounting t s -> 0 <= lease_amount (heap s) r addr.
Proof.
  intros H. unfold lease_amount. destruct (heap s !! addr) as [l|] eqn:E; [|lia].
  by apply (acc_heap _ _ H) in E as [_ E].
Qed.

Lemma held_nonneg t s a r : accounting t s -> 0 <= held_amount (heap s) a r.
Proof. intros H. apply msum_nonneg. intros. by eapply lease_amount_nonneg. Qed.

Lemma reservation_nonneg t s k a r :
  accounting t s -> attempts s !! k = Some a -> 0 <= reservation a r.
Proof.
  intros H Ha. pose proof (acc_reservation _ _ H k a r Ha) as Hr%rel_le.
  pose proof (held_nonneg t s a r H). lia.
Qed.

Lemma used_nonneg t s r : accounting t s -> 0 <= used s r.
Proof.
  intros H. pose proof (acc_used _ _ H r) as Hu%rel_le.
  assert (0 <= msum (fun a => reservation a r) (attempts s)); [|lia].
  apply msum_nonneg. intros k a Ha. by eapply reservation_nonneg.
Qed.

(** Counters the accounting does not depend on. *)
Lemma accounting_tick t s n : accounting t s -> accounting t (set_ticks n s).
Proof. intros []; constructor; done. Qed.
Lemma accounting_draw t s n : (draws s <= n)%nat -> accounting t s -> accounting t (set_draws n s).
Proof.
  intros Hn []; constructor; try done. cbn. intros lid addr Hl.
  destruct (acc_ids0 lid addr Hl) as (i & Hi & ->). exists i. split; [lia|done].
Qed.
Lemma accounting_promise t s n r : accounting t s -> accounting t (settle_promise n r s).
Proof. intros H. unfold settle_promise. destruct (outbox s !! n); [done|]. destruct H; constructor; done. Qed.

(** ** Attempts *)

Lemma accounting_delete_attempt t s k :
  accounting t s -> accounting t (deleteAttemptIfEmpty k s).
Proof.
  intros H. unfold deleteAttemptIfEmpty. destruct (attempts s !! k) as [a|] eqn:Ha; [|done].
  destruct (bool_decide (held a = ∅)) eqn:Hh; [|done]. cbn.
  destruct (queued a =? 0) eqn:Hq; [|done]. breflect.
  pose proof (acc_queued _ _ H k a Ha) as Hn. rewrite Hq in Hn.
  pose proof (acc_reservation _ _ H k a) as Hres.
  pose proof (fun r => reservation_nonneg t s k a r H Ha) as Hpos.
  assert (forall p, p ∈ queue s -> attemptId (claimant p) <> k) as Hne.
  { intros p Hp Hk. assert (p ∈ entries k (queue s)) as Hin.
    { apply list_elem_of_filter. done. }
    destruct (entries k (queue s)); [by apply elem_of_nil in Hin|cbn in Hn; lia]. }
  destruct H; constructor; bcbn; try done.
  - intros k' a' [_ ?]%lookup_delete_Some. eauto.
  - intros k' a' [_ ?]%lookup_delete_Some. eauto.
  - intros p Hp. rewrite lookup_delete_ne by (intros ?; by eapply Hne). eauto.
  - intros k' a' [_ ?]%lookup_delete_Some. eauto.
  - intros k' a' lid addr [_ ?]%lookup_delete_Some. eauto.
  - intros lid addr Hl. destruct (acc_lease0 lid addr Hl) as (k' & a' & Hk & Hl').
    exists k', a'. split; [|done]. apply lookup_delete_Some. split; [|done].
    intros ->. rewrite Ha in Hk. injection Hk as <-. by rewrite Hh, lookup_empty in Hl'.
  - intros k' a' r [_ ?]%lookup_delete_Some. eauto.
  - intros r. rewrite (msum_delete _ _ _ _ Ha). specialize (acc_used0 r).
    specialize (Hres r Ha). unfold held_amount in Hres. rewrite Hh, msum_empty in Hres.
    specialize (Hpos r).
    destruct t; cbn in *; lia.
Qed.

Lemma accounting_attempt_of t s who r s' :
  accounting t s ->
  workers s !! workerId (worker who) = Some (workerEpoch (worker who)) ->
  attempt_of who s = (r, s') ->
  accounting t s' /\ (r = Ok tt -> exists a, attempts s' !! attemptId who = Some a /\
                                   worker (identity a) = worker who).
Proof.
  intros H Hw Hr. unfold attempt_of in Hr. destruct (attempts s !! attemptId who) as [a|] eqn:Ha.
  - injection Hr as <- <-. split; [done|]. intros Hg%guard_or_Ok. eauto using sameWorker_eq.
  - injection Hr as <- <-. split.
    2:{ intros _. bcbn. rewrite lookup_insert_eq. eauto. }
    assert (entries (attemptId who) (queue s) = []) as He.
    { apply elem_of_nil_inv. intros p Hp. apply list_elem_of_filter in Hp as [Hk Hp].
      destruct (acc_queue _ _ H p Hp) as (? & ? & _). congruence. }
    destruct H; constructor; bcbn; try done.
    + intros k a [[<- <-]|[_ ?]]%lookup_insert_Some; eauto.
    + intros k a [[<- <-]|[_ ?]]%lookup_insert_Some; eauto.
    + intros p Hp. destruct (acc_queue0 p Hp) as (a & Ha' & Hw').
      rewrite lookup_insert_ne by congruence. eauto.
    + intros k a [[<- <-]|[_ ?]]%lookup_insert_Some; cbn; [by rewrite He|eauto].
    + intros k a lid addr [[<- <-]|[_ ?]]%lookup_insert_Some; cbn; [by rewrite lookup_empty|eauto].
    + intros lid addr Hl. destruct (acc_lease0 lid addr Hl) as (k & a & Hk & Hl').
      exists k, a. rewrite lookup_insert_ne by congruence. done.
    + intros k a r [[<- <-]|[_ ?]]%lookup_insert_Some; [|eauto].
      unfold held_amount. cbn. rewrite msum_empty. apply rel_refl.
    + intros r. rewrite msum_insert_new by done. cbn. rewrite Z.add_0_l. done.
Qed.

(** ** The queue *)

(** The turn of the drain that removes an entry from the queue. *)
Lemma accounting_settle t s i p :
  accounting t s -> queue s !! i = Some p ->
  accounting t (settlePending p (set_queue (delete i (queue s)) s)).
Proof.
  intros H Hp. assert (p ∈ queue s) as Hin by by eapply list_elem_of_lookup_2.
  destruct (acc_number _ _ H p Hin) as [_ Hns].
  destruct (numbers_delete _ _ _ Hp (acc_numbers _ _ H)) as [Hnd Hne].
  destruct (acc_queue _ _ H p Hin) as (a & Ha & _).
  unfold settlePending. bcbn. rewrite bool_decide_eq_false_2 by done.
  assert (forall x, x ∈ delete i (queue s) -> x ∈ queue s) as Hsub
    by (intros; by eapply elem_of_delete).
  destruct H; constructor; bcbn; try done.
  - intros k b Hb. alter_cases Hb; eauto.
  - intros k b Hb. alter_cases Hb; eauto.
  - intros x Hx. apply alter_owner; eauto.
  - eauto.
  - intros x Hx. destruct (acc_number0 x (Hsub x Hx)). split; [done|].
    apply not_elem_of_union. split; [by apply not_elem_of_singleton, Hne|done].
  - intros k b Hb. apply lookup_alter_Some in Hb as [(<- & b' & Hb & ->)|[Hk Hb]];
      pose proof (acc_queued0 _ _ Hb) as Hq; erewrite entries_delete in Hq by done; bcbn.
    + rewrite decide_True in Hq by done. lia.
    + rewrite decide_False in Hq by done. lia.
  - intros k b lid addr Hb. alter_cases Hb; eauto.
  - intros lid addr Hl. apply alter_exists; eauto.
  - intros k b r Hb. apply lookup_alter_Some in Hb as [(<- & b' & Hb & ->)|[_ Hb]]; [|eauto].
    exact (acc_reservation0 (attemptId (claimant p)) b' r Hb).
  - intros r. rewrite (msum_alter _ _ _ _ _ Ha). bcbn. by rewrite Z.sub_add.
  - rewrite length_delete by eauto. lia.
Qed.

(** ** Granting *)

(** What [grant] has done before it draws a lease id. *)
Definition bumped (id : jstring) (want : amounts) (s : Broker) : Broker :=
  set_used (fun r => used s r + want r)
    (update_attempt id (fun a =>
       {| identity := identity a; held := held a;
          reservation := fun r => reservation a r + want r; queued := queued a |}) s).

(** The state after a grant to attempt [a] under lease id [lid]. *)
Definition granted (id : jstring) (a : AttemptState) (want : amounts) (lid tok : jstring)
    (d : nat) (s : Broker) : Broker :=
  let lease := {| leaseId := lid; token := tok; lessee := identity a; resources := want;
                  attachments := []; released := false; releasePromise := None |} in
  set_allocated (S (allocated s))
    (set_leases (<[lid := allocated s]> (leases s))
      (set_heap (<[allocated s := lease]> (heap s))
        (set_attempts (<[id := {| identity := identity a; held := <[lid := allocated s]> (held a);
                                  reservation := fun r => reservation a r + want r;
                                  queued := queued a |}]> (attempts s))
          (set_draws d (set_used (fun r => used s r + want r) s))))).

Lemma fresh_loop_spec n s r s' :
  fresh_loop uuid n s = (r, s') ->
  exists d, (draws s <= d)%nat /\ s' = set_draws d s /\
    match r with
    | Ok lid => leases s !! lid = None /\ exists i, (i < d)%nat /\ lid = js "lease:" ++ uuid i
    | Err e => e = invalid_request
    end.
Proof.
  revert s. induction n as [|n IH]; intros s H.
  - injection H as <- <-. exists (draws s). by destruct s.
  - cbn [fresh_loop] in H. unfold randomUUID in H. run_in H. destruct (bool_decide _) eqn:E; breflect.
    + injection H as <- <-. exists (S (draws s)). split_and!; [lia|done|done|].
      exists (draws s). split; [lia|done].
    + apply IH in H as (d & Hd & -> & Hr). exists d. split_and!; [cbn in Hd; lia|done|].
      destruct r; [|done]. done.
Qed.

Lemma grant_spec id want s a r s' :
  attempts s !! id = Some a -> grant uuid id want s = (r, s') ->
  exists d, (draws s <= d)%nat /\
    match r with
    | Ok addr => exists lid tok, addr = allocated s /\ leases s !! lid = None /\
        (exists i, (i < d)%nat /\ lid = js "lease:" ++ uuid i) /\
        s' = granted id a want lid tok d s
    | Err e => s' = set_draws d (bumped id want s)
    end.
Proof.
  intros Ha H. unfold grant in H. run_in H.
  fold (bumped id want s) in H. unfold freshLeaseId in H.
  destruct (fresh_loop uuid 8 (bumped id want s)) as [[lid|e] s1] eqn:Hf;
    apply fresh_loop_spec in Hf as (d & Hd & -> & Hr).
  - assert (attempts (bumped id want s) !! id =
            Some {| identity := identity a; held := held a;
                    reservation := fun r => reservation a r + want r; queued := queued a |}) as Hb.
    { unfold bumped. bcbn. by rewrite lookup_alter_eq, Ha. }
    unfold randomUUID in H. bcbn. rewrite Hb in H. injection H as <- <-.
    exists (S d). split; [cbn in Hd; lia|]. exists lid, (uuid d).
    destruct Hr as (Hl & i & Hi & ->). split_and!; [done|done|exists i; split; [lia|done]|].
    unfold bumped, granted, update_attempt. bcbn. f_equal.
    rewrite (alter_alt_Some _ _ _ _ Ha), alter_insert_eq. done.
  - injection H as <- <-. exists d. split; [done|done].
Qed.

Lemma held_amount_ext h h' a r :
  (forall lid addr, held a !! lid = Some addr -> lease_amount h r addr = lease_amount h' r addr) ->
  held_amount h a r = held_amount h' a r.
Proof. intros H. apply msum_ext. eauto. Qed.

Lemma held_allocated t s k a lid addr :
  accounting t s -> attempts s !! k = Some a -> held a !! lid = Some addr ->
  addr <> allocated s.
Proof.
  intros H Ha Hl. destruct (acc_held _ _ H _ _ _ _ Ha Hl) as (_ & l & Hh & _).
  apply (acc_heap _ _ H) in Hh as [? _]. lia.
Qed.

Lemma held_amount_allocate t s k a l r :
  accounting t s -> attempts s !! k = Some a ->
  held_amount (<[allocated s := l]> (heap s)) a r = held_amount (heap s) a r.
Proof.
  intros H Ha. apply held_amount_ext. intros lid addr Hl. unfold lease_amount.
  rewrite lookup_insert_ne; [done|]. by eapply not_eq_sym, held_allocated.
Qed.

Lemma accounting_granted t s id a want lid tok d i :
  accounting t s -> attempts s !! id = Some a ->
  fits s want = true -> (forall r, 0 <= want r) -> leases s !! lid = None ->
  (i < d)%nat -> lid = js "lease:" ++ uuid i -> (draws s <= d)%nat ->
  accounting t (granted id a want lid tok d s).
Proof.
  intros H Ha Hf Hw Hl Hi Hlid Hd. rewrite fits_spec in Hf.
  pose proof (fun k b l r => held_amount_allocate t s k b l r H) as Halloc.
  pose proof (fun k b lid addr => held_allocated t s k b lid addr H) as Hlt.
  assert (forall k b, attempts s !! k = Some b -> held b !! lid = None) as Hfree.
  { intros k b Hb. destruct (held b !! lid) as [x|] eqn:E; [|done].
    apply (acc_held _ _ H _ _ _ _ Hb) in E as [E _]. congruence. }
  destruct H; constructor; unfold granted; bcbn; try done.
  - intros k b [[<- <-]|[_ ?]]%lookup_insert_Some; bcbn; eauto.
  - intros k b [[<- <-]|[_ ?]]%lookup_insert_Some; bcbn; eauto.
  - intros p Hp. destruct (acc_queue0 p Hp) as (b & Hb & Hwk).
    destruct (decide (id = attemptId (claimant p))) as [He|He].
    + rewrite <- He, lookup_insert_eq. rewrite <- He in Hb. eexists. split; [done|]. bcbn. congruence.
    + rewrite lookup_insert_ne by done. eauto.
  - intros k b [[<- <-]|[_ ?]]%lookup_insert_Some; bcbn; eauto.
  - intros k b lid' addr' Hb Hh.
    assert (lid' = lid /\ addr' = allocated s /\ identity b = identity a \/
            exists c, attempts s !! k = Some c /\ held c !! lid' = Some addr' /\
                      identity c = identity b) as [(-> & -> & ->)|(c & Hc & Hh' & <-)].
    { apply lookup_insert_Some in Hb as [[<- <-]|[_ Hb]]; [|eauto 6]. bcbn.
      apply lookup_insert_Some in Hh as [[<- <-]|[_ Hh]]; eauto 6. }
    + rewrite !lookup_insert_eq. eauto 6.
    + rewrite !lookup_insert_ne; [eauto|by eapply not_eq_sym, Hlt|].
      intros <-. by rewrite (Hfree k c Hc) in Hh'.
  - intros lid' addr' [[<- <-]|[Hne Hl']]%lookup_insert_Some.
    + do 2 eexists. rewrite lookup_insert_eq. split; [done|]. bcbn. by rewrite lookup_insert_eq.
    + rewrite (eq_sym (alter_alt_Some (fun _ => _) _ _ _ Ha)).
      apply alter_exists; [eauto|]. intros b Hb. bcbn. rewrite Ha in Hb. injection Hb as <-.
      by rewrite lookup_insert_ne.
  - intros addr' l' [[<- <-]|[_ Hh]]%lookup_insert_Some; cbn; [split; [lia|done]|].
    destruct (acc_heap0 addr' l' Hh). split; [lia|done].
  - intros k b r [[<- <-]|[_ Hb]]%lookup_insert_Some; bcbn; [|rewrite (Halloc k b _ r Hb); eauto].
    unfold held_amount. bcbn. rewrite msum_insert_new by eauto.
    fold (held_amount (<[allocated s := {| leaseId := lid; token := tok; lessee := identity a;
      resources := want; attachments := []; released := false; releasePromise := None |}]> (heap s)) a r).
    rewrite (Halloc id a _ r Ha). unfold lease_amount. rewrite lookup_insert_eq. cbn.
    rewrite Z.add_comm. by apply rel_add, acc_reservation0 with id.
  - intros r. rewrite (msum_insert_old _ _ _ _ _ Ha). bcbn.
    specialize (acc_used0 r). destruct t; cbn in *; lia.
  - intros lid' addr' [[<- <-]|[_ Hl']]%lookup_insert_Some; [eauto|].
    destruct (acc_ids0 _ _ Hl') as (j & Hj & ->). exists j. split; [lia|done].
Qed.

(** A grant that throws keeps the books as an upper bound. *)
Lemma accounting_bumped s id a want :
  accounting false s -> attempts s !! id = Some a ->
  fits s want = true -> (forall r, 0 <= want r) -> accounting false (bumped id want s).
Proof.
  intros H Ha Hf Hw. rewrite fits_spec in Hf.
  destruct H; constructor; unfold bumped; bcbn; try done.
  - intros k b Hb. alter_cases Hb; eauto.
  - intros k b Hb. alter_cases Hb; eauto.
  - intros p Hp. apply alter_owner; eauto.
  - intros k b Hb. alter_cases Hb; eauto.
  - intros k b lid addr Hb. alter_cases Hb; eauto.
  - intros lid addr Hl. apply alter_exists; eauto.
  - intros k b r Hb. apply lookup_alter_Some in Hb as [(<- & b' & Hb & ->)|[_ Hb]]; [|eauto]. bcbn.
    pose proof (acc_reservation0 id b' r Hb). specialize (Hw r).
    unfold held_amount in *. cbn in *. lia.
  - intros r. rewrite (msum_alter _ _ _ _ _ Ha). bcbn. specialize (acc_used0 r). cbn in *. lia.
Qed.

Lemma accounting_enqueue t s p a :
  accounting t s -> attempts s !! attemptId (claimant p) = Some a ->
  worker (identity a) = worker (claimant p) ->
  demand_ok (capacities (config s)) (demand p) ->
  number_of p = sequence s + 1 -> 0 <= sequence s ->
  (forall n, n ∈ settled s -> n <= sequence s) ->
  Z.of_nat (length (queue s)) < maxQueued (config s) ->
  accounting t (set_queue (queue s ++ [p])
    (update_attempt (attemptId (claimant p)) (fun a =>
       {| identity := identity a; held := held a; reservation := reservation a;
          queued := queued a + 1 |}) (set_sequence (number_of p) s))).
Proof.
  intros H Ha Hwk Hd Hn Hs Hset Hlen.
  destruct H; constructor; bcbn; try done.
  - intros k b Hb. alter_cases Hb; eauto.
  - intros k b Hb. alter_cases Hb; eauto.
  - intros x [Hx| ->%list_elem_of_singleton]%elem_of_app; apply alter_owner; eauto.
  - intros x [Hx| ->%list_elem_of_singleton]%elem_of_app; eauto.
  - intros x [Hx| ->%list_elem_of_singleton]%elem_of_app.
    + destruct (acc_number0 x Hx). split; [lia|done].
    + split; [lia|]. intros Hin%Hset. lia.
  - rewrite fmap_app. apply NoDup_app. split_and!; [done| |apply NoDup_singleton].
    intros n (x & -> & Hx)%list_elem_of_fmap Hn'%list_elem_of_singleton.
    destruct (acc_number0 x Hx). lia.
  - intros k b Hb. unfold entries in *. rewrite filter_app, length_app, filter_cons, filter_nil.
    alter_cases Hb; rewrite (acc_queued0 _ _ Hb).
    + rewrite decide_True by done. cbn. lia.
    + rewrite decide_False by done. cbn. lia.
  - intros k b lid addr Hb. alter_cases Hb; eauto.
  - intros lid addr Hl. apply alter_exists; eauto.
  - intros k b r Hb. apply lookup_alter_Some in Hb as [(<- & b' & Hb & ->)|[_ Hb]]; [|eauto].
    exact (acc_reservation0 (attemptId (claimant p)) b' r Hb).
  - intros r. rewrite (msum_alter _ _ _ _ _ Ha). bcbn. by rewrite Z.sub_add.
  - rewrite length_app. cbn. lia.
Qed.

(** ** Giving leases back *)

(** The heap [h'] is [h] with the [released] flag of addresses in [D] set. *)
Definition flagged (D : nat -> Prop) (h h' : gmap nat LeaseRecord) : Prop :=
  (forall addr l, h !! addr = Some l -> exists l', h' !! addr = Some l' /\
     leaseId l' = leaseId l /\ lessee l' = lessee l /\ resources l' = resources l /\
     (released l' = released l \/ D addr)) /\
  (forall addr, h !! addr = None -> h' !! addr = None).

Lemma flagged_amount D h h' r addr :
  flagged D h h' -> lease_amount h' r addr = lease_amount h r addr.
Proof.
  intros [H1 H2]. unfold lease_amount. destruct (h !! addr) as [l|] eqn:E.
  - destruct (H1 addr l E) as (l' & -> & _ & _ & -> & _). done.
  - by rewrite (H2 addr E).
Qed.

(** [s'] is [s] after attempt [a] with id [k] gave back all its leases but [h]. *)
Record gave_back (k : jstring) (a : AttemptState) (h : gmap jstring nat) (s s' : Broker) : Prop := {
  gb_config : config s' = config s;
  gb_workers : workers s' = workers s;
  gb_queue : queue s' = queue s;
  gb_sequence : sequence s' = sequence s;
  gb_settled : settled s' = settled s;
  gb_outbox : outbox s' = outbox s;
  gb_draws : draws s' = draws s;
  gb_allocated : allocated s' = allocated s;
  gb_attempts : attempts s' =
    <[k := {| identity := identity a; held := h;
              reservation := fun r => msum (lease_amount (heap s') r) h;
              queued := queued a |}]> (attempts s);
  gb_used r : used s' r = used s r + (msum (lease_amount (heap s') r) h - reservation a r);
  gb_leases lid : leases s' !! lid =
    if decide (is_Some (held a !! lid) /\ h !! lid = None) then None else leases s !! lid;
  gb_heap : flagged (fun addr => exists lid, held a !! lid = Some addr /\ h !! lid = None)
              (heap s) (heap s');
}.

Lemma held_le t s k a h r :
  accounting t s -> attempts s !! k = Some a -> h ⊆ held a ->
  msum (lease_amount (heap s) r) h <= reservation a r.
Proof.
  intros H Ha Hh. pose proof (acc_reservation _ _ H k a r Ha) as Hr%rel_le.
  assert (msum (lease_amount (heap s) r) h <= held_amount (heap s) a r); [|lia].
  unfold held_amount. rewrite <- (map_difference_union _ _ Hh).
  rewrite msum_union by (by apply map_disjoint_difference_r1).
  assert (0 <= msum (lease_amount (heap s) r) (held a ∖ h)); [|lia].
  apply msum_nonneg. intros. by eapply lease_amount_nonneg.
Qed.

(** A lease is held by one attempt. *)
Lemma held_once t s k a k' a' lid addr addr' :
  accounting t s -> attempts s !! k = Some a -> attempts s !! k' = Some a' ->
  held a !! lid = Some addr -> held a' !! lid = Some addr' -> k = k' /\ addr = addr'.
Proof.
  intros H Ha Ha' Hl Hl'.
  destruct (acc_held _ _ H _ _ _ _ Ha Hl) as (E & l & Hh & _ & Hi & _).
  destruct (acc_held _ _ H _ _ _ _ Ha' Hl') as (E' & l' & Hh' & _ & Hi' & _).
  rewrite E in E'. injection E' as <-. split; [|done]. rewrite Hh in Hh'. injection Hh' as <-.
  rewrite <- (acc_key _ _ H _ _ Ha), <- (acc_key _ _ H _ _ Ha'). congruence.
Qed.

Lemma held_address t s k a k' a' lid lid' addr :
  accounting t s -> attempts s !! k = Some a -> attempts s !! k' = Some a' ->
  held a !! lid = Some addr -> held a' !! lid' = Some addr -> lid = lid'.
Proof.
  intros H Ha Ha' Hl Hl'.
  destruct (acc_held _ _ H _ _ _ _ Ha Hl) as (_ & l & Hh & <- & _).
  destruct (acc_held _ _ H _ _ _ _ Ha' Hl') as (_ & l' & Hh' & <- & _). congruence.
Qed.

Lemma accounting_gave_back t s s' k a h :
  accounting t s -> attempts s !! k = Some a -> h ⊆ held a -> gave_back k a h s s' ->
  accounting t s'.
Proof.
  intros H Ha Hh G.
  pose proof (fun r => held_le t s k a h r H Ha Hh) as Hle.
  assert (forall k' b lid addr, attempts s' !! k' = Some b -> held b !! lid = Some addr ->
    exists c, attempts s !! k' = Some c /\ held c !! lid = Some addr /\ identity c = identity b /\
      ~ (is_Some (held a !! lid) /\ h !! lid = None)) as Hold.
  { intros k' b lid addr Hb Hl. rewrite (gb_attempts _ _ _ _ _ G) in Hb.
    apply lookup_insert_Some in Hb as [[<- <-]|[Hne Hb]]; bcbn.
    - exists a. split_and!; try done; [by eapply lookup_weaken|]. intros [_ ?]. congruence.
    - exists b. split_and!; try done. intros [[x Hx] _].
      destruct (held_once t s k a k' b lid x addr); done. }
  assert (forall r addr, lease_amount (heap s') r addr = lease_amount (heap s) r addr) as Ham.
  { intros. eapply flagged_amount, gb_heap, G. }
  assert (forall (m : gmap jstring nat) r, msum (lease_amount (heap s') r) m = msum (lease_amount (heap s) r) m) as Hms.
  { intros m r. apply msum_ext. eauto. }
  constructor.
  - intros k' b Hb. rewrite (gb_attempts _ _ _ _ _ G) in Hb.
    apply lookup_insert_Some in Hb as [[<- <-]|[_ Hb]]; bcbn; by eapply acc_key.
  - intros k' b Hb. rewrite (gb_workers _ _ _ _ _ G). rewrite (gb_attempts _ _ _ _ _ G) in Hb.
    apply lookup_insert_Some in Hb as [[<- <-]|[_ Hb]]; bcbn; by eapply acc_owner.
  - intros p. rewrite (gb_queue _ _ _ _ _ G), (gb_attempts _ _ _ _ _ G). intros Hp.
    rewrite <- (alter_alt_Some (fun _ => _) _ _ _ Ha).
    destruct (acc_queue _ _ H p Hp) as (b & Hb & Hw).
    destruct (decide (k = attemptId (claimant p))) as [He|He].
    + rewrite <- He, lookup_alter_eq, He, Hb. eexists. split; [done|]. bcbn. congruence.
    + rewrite lookup_alter_ne by done. eauto.
  - intros p. rewrite (gb_queue _ _ _ _ _ G), (gb_config _ _ _ _ _ G). apply (acc_demand _ _ H).
  - intros p. rewrite (gb_queue _ _ _ _ _ G), (gb_sequence _ _ _ _ _ G), (gb_settled _ _ _ _ _ G).
    apply (acc_number _ _ H).
  - rewrite (gb_queue _ _ _ _ _ G). apply (acc_numbers _ _ H).
  - intros k' b Hb. rewrite (gb_queue _ _ _ _ _ G). rewrite (gb_attempts _ _ _ _ _ G) in Hb.
    apply lookup_insert_Some in Hb as [[<- <-]|[_ Hb]]; bcbn; by eapply acc_queued.
  - intros k' b lid addr Hb Hl. destruct (Hold _ _ _ _ Hb Hl) as (c & Hc & Hl' & <- & Hn).
    destruct (acc_held _ _ H _ _ _ _ Hc Hl') as (E & l & Hg & Hid & Hle' & Hrel).
    rewrite (gb_leases _ _ _ _ _ G), decide_False by done. split; [done|].
    destruct (proj1 (gb_heap _ _ _ _ _ G) addr l Hg) as (l' & -> & Hi' & Hs' & _ & [Hr'|(lid' & Hd & Hd')]).
    + exists l'. split_and!; congruence.
    + exfalso. apply Hn. assert (lid' = lid) as ->; [|eauto].
      exact (held_address t s k a k' c lid' lid addr H Ha Hc Hd Hl').
  - intros lid addr Hl. rewrite (gb_leases _ _ _ _ _ G) in Hl. case_decide as Hd; [done|].
    rewrite (gb_attempts _ _ _ _ _ G). destruct (acc_lease _ _ H lid addr Hl) as (k' & b & Hb & Hl').
    destruct (decide (k = k')) as [<-|Hne].
    + rewrite Ha in Hb. injection Hb as <-. do 2 eexists. rewrite lookup_insert_eq. split; [done|].
      bcbn. destruct (h !! lid) as [x|] eqn:E.
      * rewrite (lookup_weaken _ _ _ _ E Hh) in Hl'. done.
      * exfalso. apply Hd. eauto.
    + exists k', b. by rewrite lookup_insert_ne.
  - intros addr l' Hl'. rewrite (gb_allocated _ _ _ _ _ G).
    destruct (heap s !! addr) as [l|] eqn:E.
    + destruct (proj1 (gb_heap _ _ _ _ _ G) addr l E) as (l2 & Hl2 & _ & _ & Hres & _).
      rewrite Hl2 in Hl'. injection Hl' as <-. rewrite Hres. by apply (acc_heap _ _ H).
    + rewrite (proj2 (gb_heap _ _ _ _ _ G) addr E) in Hl'. done.
  - intros k' b r Hb. rewrite (gb_attempts _ _ _ _ _ G) in Hb.
    apply lookup_insert_Some in Hb as [[<- <-]|[_ Hb]]; unfold held_amount; bcbn; [apply rel_refl|].
    rewrite Hms. by eapply (acc_reservation _ _ H k').
  - intros r. rewrite (gb_attempts _ _ _ _ _ G), (gb_used _ _ _ _ _ G).
    rewrite (msum_insert_old _ _ _ _ _ Ha). bcbn. pose proof (acc_used _ _ H r). destruct t; cbn in *; lia.
  - intros r. rewrite (gb_used _ _ _ _ _ G), (gb_config _ _ _ _ _ G), Hms.
    specialize (Hle r). pose proof (acc_bound _ _ H r). lia.
  - intros lid addr Hl. rewrite (gb_leases _ _ _ _ _ G) in Hl. case_decide; [done|].
    rewrite (gb_draws _ _ _ _ _ G). by eapply acc_ids.
  - rewrite (gb_queue _ _ _ _ _ G), (gb_config _ _ _ _ _ G). apply (acc_queue_length _ _ H).
Qed.
End Accounting.
