(* ===== verification/BrokerScheduling.v ===== *)
(** * The resource broker: scheduling

    The drain loop and the public operations: that they keep the accounting,
    that every reachable state is drained (no waiting request could be granted
    under the policy), that queued acquisitions are answered exactly once, that
    a disconnected worker owns nothing, and the order in which grants happen. *)

From S2P Require Import Prelude JsText ResourceBroker BrokerAccounting.

Local Open Scope Z_scope.

(** No waiting request could be granted: neither the one the policy would serve
    next nor, by [drained_iff], the oldest one or a continuation. *)
Definition drained (s : Broker) : Prop :=
  forall p, queue s !! nextDrainableIndex s = Some p -> fits s (demand p) = false.

(** The settled acquisitions are those whose promise is settled. *)
Definition answered (s : Broker) : Prop :=
  forall n, n ∈ settled s <-> is_Some (outbox s !! n).

Definition holds_lease (s : Broker) (k : jstring) : Prop :=
  exists a, attempts s !! k = Some a /\ held a <> ∅.

Lemma continues_spec s p :
  continues s p = true <-> fits s (demand p) = true /\ holds_lease s (attemptId (claimant p)).
Proof.
  unfold continues, holds_lease. destruct (attempts s !! _) as [a|] eqn:Ha.
  - rewrite andb_true_iff, negb_true_iff, bool_decide_eq_false. split; [|intros [? (b & [= <-] & ?)]]; eauto.
    intros [? ?]; eauto.
  - rewrite andb_false_r. split; [done|]. intros [_ (b & [=] & _)].
Qed.

Lemma drained_iff s :
  drained s <->
  (forall p, head (queue s) = Some p -> fits s (demand p) = false) /\
  (forall p, p ∈ queue s -> holds_lease s (attemptId (claimant p)) -> fits s (demand p) = false).
Proof.
  unfold drained, nextDrainableIndex. destruct (find_index _ _) as [i|] eqn:E; cbn [default].
  - apply find_index_Some in E as (p & Hp & Hc & _). apply continues_spec in Hc as [Hf Hh].
    split.
    + intros H. specialize (H p Hp). congruence.
    + intros [_ H]. rewrite (H p) in Hf; [done|by eapply list_elem_of_lookup_2|done].
  - assert (forall p, p ∈ queue s -> continues s p = false) as Hn by by apply find_index_None.
    split.
    + intros H. split.
      * intros p Hp. apply H. by destruct (queue s).
      * intros p Hp Hh. specialize (Hn p Hp). destruct (fits s (demand p)) eqn:Hf; [|done].
        assert (continues s p = true); [by apply continues_spec|congruence].
    + intros [H _] p Hp. apply H. by destruct (queue s).
Qed.

(** How the queue and the settled flags move inside an operation. *)
Record evolves (s s' : Broker) : Prop := {
  ev_config : config s' = config s;
  ev_workers : workers s' = workers s;
  ev_sequence : sequence s' = sequence s;
  ev_queue : sublist (queue s') (queue s);
  ev_gone p : p ∈ queue s -> p ∈ queue s' \/ number_of p ∈ settled s';
  ev_settled n : n ∈ settled s -> n ∈ settled s';
  ev_new n : n ∈ settled s' -> n ∈ settled s \/ exists p, p ∈ queue s /\ number_of p = n;
}.

Lemma evolves_refl s : evolves s s.
Proof. constructor; eauto. Qed.

Lemma evolves_trans s1 s2 s3 : evolves s1 s2 -> evolves s2 s3 -> evolves s1 s3.
Proof.
  intros [] []. constructor; try congruence; eauto.
  - by etrans.
  - intros p Hp. destruct (ev_gone0 p Hp); eauto.
  - intros n [Hn|(p & Hp & <-)]%ev_new1; eauto. right. exists p. split; [|done].
    by eapply elem_of_submseteq, sublist_submseteq.
Qed.

(** An update that does not touch what [evolves] looks at. *)
Lemma evolves_same s s' :
  config s' = config s -> workers s' = workers s -> sequence s' = sequence s ->
  queue s' = queue s -> settled s' = settled s -> evolves s s'.
Proof. intros E1 E2 E3 E4 E5. constructor; rewrite ?E4, ?E5; eauto. Qed.

Section Scheduling.
Context (clock : nat -> number) (uuid : nat -> jstring).

(** ** Cancelling *)

(** The state in which [cancel] of a queued entry starts the drain. *)
Definition cancelled (p : PendingAcquire) (e : ResourceBrokerErrorCode) (s : Broker) : Broker :=
  let s := unqueue p s in
  let id := attemptId (claimant p) in
  let s := match attempts s !! id with
           | Some _ => settlePending p s
           | None => mark_settled p s
           end in
  settle_promise (number_of p) (Refused e) (deleteAttemptIfEmpty id s).

Lemma cancel_with_queued D p e s :
  number_of p ∉ settled s -> cancel_with D p e s = D (cancelled p e s).
Proof. intros Hn. unfold cancel_with. by rewrite bool_decide_eq_false_2. Qed.

Lemma cancel_with_settled D p e s :
  number_of p ∈ settled s -> cancel_with D p e s = (Ok tt, s).
Proof. intros Hn. unfold cancel_with. by rewrite bool_decide_eq_true_2. Qed.

Lemma queue_index_Some t s p :
  accounting uuid t s -> p ∈ queue s ->
  exists i, queue_index p s = Some i /\ queue s !! i = Some p.
Proof.
  intros H [i Hi]%list_elem_of_lookup. exists i. split; [|done].
  apply find_index_Some. exists p. split_and!; [done|apply Z.eqb_refl|].
  intros j q Hj Hq. apply Z.eqb_neq. intros Heq.
  assert (j = i); [|lia].
  apply (NoDup_lookup _ j i (number_of p) (acc_numbers _ _ _ H)); rewrite list_lookup_fmap.
  - rewrite Hq. cbn. by rewrite Heq.
  - by rewrite Hi.
Qed.

(** A queued entry, taken out of the queue and marked settled. *)
Lemma settled_out t s p i :
  accounting uuid t s -> queue s !! i = Some p ->
  let s' := settlePending p (set_queue (delete i (queue s)) s) in
  evolves s s' /\ queue s' = delete i (queue s) /\ settled s' = {[number_of p]} ∪ settled s /\
  outbox s' = outbox s /\ used s' = used s /\ draws s' = draws s /\ leases s' = leases s.
Proof.
  intros H Hi. assert (p ∈ queue s) as Hp by by eapply list_elem_of_lookup_2.
  destruct (acc_number _ _ _ H p Hp) as [_ Hn]. unfold settlePending. bcbn.
  rewrite bool_decide_eq_false_2 by done. bcbn. split_and!; try done.
  constructor; bcbn; try done.
  - apply sublist_delete.
  - intros x Hx. rewrite (delete_Permutation _ _ _ Hi) in Hx.
    apply elem_of_cons in Hx as [->|Hx]; [right; apply elem_of_union; left; by apply elem_of_singleton|by left].
  - intros n Hin. apply elem_of_union. by right.
  - intros n. rewrite elem_of_union, elem_of_singleton. intros [->|]; eauto.
Qed.

Lemma delete_attempt_same k s :
  let s' := deleteAttemptIfEmpty k s in
  evolves s s' /\ queue s' = queue s /\ settled s' = settled s /\ outbox s' = outbox s.
Proof.
  unfold deleteAttemptIfEmpty. destruct (attempts s !! k) as [a|]; [|auto using evolves_refl].
  destruct (_ && _); [|auto using evolves_refl]. split_and!; try done. by apply evolves_same.
Qed.

Lemma settle_promise_same n r s :
  let s' := settle_promise n r s in
  evolves s s' /\ queue s' = queue s /\ settled s' = settled s /\
  (forall m, is_Some (outbox s' !! m) <-> m = n \/ is_Some (outbox s !! m)).
Proof.
  unfold settle_promise. destruct (outbox s !! n) eqn:E.
  - split_and!; try done; [apply evolves_refl|]. intros m. split; [eauto|]. intros [->|]; eauto.
  - split_and!; try done; [by apply evolves_same|]. intros m. bcbn.
    destruct (decide (n = m)) as [->|]; [rewrite lookup_insert_eq; naive_solver|].
    rewrite lookup_insert_ne by done. naive_solver.
Qed.

Lemma cancelled_spec t s p e :
  accounting uuid t s -> p ∈ queue s ->
  accounting uuid t (cancelled p e s) /\ evolves s (cancelled p e s) /\
  length (queue s) = S (length (queue (cancelled p e s))) /\
  number_of p ∈ settled (cancelled p e s) /\
  (answered s -> answered (cancelled p e s)).
Proof.
  intros H Hp. destruct (queue_index_Some t s p H Hp) as (i & Hix & Hi).
  destruct (acc_queue _ _ _ H p Hp) as (a & Ha & _).
  pose proof (accounting_settle uuid t s i p H Hi) as Hacc.
  destruct (settled_out t s p i H Hi) as (Hev & Hq & Hset & Hout & _).
  unfold cancelled, unqueue. rewrite Hix. bcbn. rewrite Ha.
  set (s1 := settlePending p (set_queue (delete i (queue s)) s)) in *.
  destruct (delete_attempt_same (attemptId (claimant p)) s1) as (Hev2 & Hq2 & Hset2 & Hout2).
  set (s2 := deleteAttemptIfEmpty (attemptId (claimant p)) s1) in *.
  destruct (settle_promise_same (number_of p) (Refused e) s2) as (Hev3 & Hq3 & Hset3 & Ho).
  split_and!.
  - apply accounting_promise, accounting_delete_attempt, Hacc.
  - eapply evolves_trans; [done|]. by eapply evolves_trans.
  - rewrite Hq3, Hq2, Hq, length_delete by eauto.
    apply lookup_lt_Some in Hi. lia.
  - rewrite Hset3, Hset2, Hset. apply elem_of_union. left. by apply elem_of_singleton.
  - intros Hans n. rewrite Hset3, Hset2, Hset, elem_of_union, elem_of_singleton.
    by rewrite (Ho n), Hout2, Hout, (Hans n).
Qed.

(** ** Draining *)

(** With a UUID source that never repeats, a grant finds its lease id. *)
Lemma grant_total t s id a want r s' :
  (forall i j, uuid i = uuid j -> i = j) -> accounting uuid t s ->
  attempts s !! id = Some a -> grant uuid id want s = (r, s') -> exists addr, r = Ok addr.
Proof.
  intros Hinj H Ha Hg. unfold grant in Hg. run_in Hg. fold (bumped id want s) in Hg.
  unfold freshLeaseId in Hg. cbn [fresh_loop] in Hg. unfold randomUUID in Hg. run_in Hg. bcbn.
  rewrite bool_decide_eq_true_2 in Hg.
  - unfold bumped in Hg. bcbn. rewrite lookup_alter_eq, Ha in Hg. cbn in Hg.
    injection Hg as <- _. eauto.
  - unfold bumped. bcbn. destruct (leases s !! _) as [x|] eqn:E; [|done].
    apply (acc_ids _ _ _ H) in E as (j & Hj & E). apply app_inv_head, Hinj in E. lia.
Qed.

(** What a (sub)drain guarantees. *)
Record drain_post (t : bool) (s : Broker) (r : result ResourceBrokerErrorCode unit)
    (s' : Broker) : Prop := {
  dp_accounting : accounting uuid t s';
  dp_evolves : evolves s s';
  dp_total : t = true -> r = Ok tt;
  dp_answered : t = true -> answered s -> answered s';
}.

Lemma drain_post_trans t s1 s2 s3 r r' :
  evolves s1 s2 -> (t = true -> answered s1 -> answered s2) -> drain_post t s2 r s3 ->
  (t = true -> r' = Ok tt) -> drain_post t s1 r' s3.
Proof. intros He Ha [] Hr. constructor; eauto using evolves_trans. Qed.

(** One grant out of the queue. *)
Lemma drain_grant t s i p r s' :
  (t = true -> forall i j, uuid i = uuid j -> i = j) ->
  accounting uuid t s -> queue s !! i = Some p -> fits s (demand p) = true ->
  grant uuid (attemptId (claimant p)) (demand p)
    (settlePending p (set_queue (delete i (queue s)) s)) = (r, s') ->
  accounting uuid t s' /\ evolves s s' /\ queue s' = delete i (queue s) /\
  settled s' = {[number_of p]} ∪ settled s /\ outbox s' = outbox s /\
  (t = true -> exists addr, r = Ok addr).
Proof.
  intros Hinj H Hi Hf Hg. assert (p ∈ queue s) as Hp by by eapply list_elem_of_lookup_2.
  pose proof (accounting_settle uuid t s i p H Hi) as Hacc.
  destruct (settled_out t s p i H Hi) as (Hev & Hq & Hset & Hout & Hused & _).
  pose proof (acc_demand _ _ _ H p Hp) as Hd.
  set (s1 := settlePending p (set_queue (delete i (queue s)) s)) in *.
  assert (exists a, attempts s1 !! attemptId (claimant p) = Some a) as [a Ha].
  { destruct (acc_queue _ _ _ H p Hp) as (a & Ha & _). unfold s1, settlePending.
    case_bool_decide; bcbn; [eauto|]. rewrite lookup_alter_eq, Ha. eauto. }
  assert (fits s1 (demand p) = true) as Hf1.
  { rewrite fits_spec in *. rewrite Hused, (ev_config _ _ Hev). done. }
  destruct (grant_spec uuid _ _ _ _ _ _ Ha Hg) as (d & Hdr & Hr).
  assert (t = true -> exists addr, r = Ok addr) as Htot by (intros; eapply grant_total; eauto).
  destruct r as [addr|e].
  - destruct Hr as (lid & tok & -> & Hl & (j & Hj & Hlid) & ->). split_and!; try done.
    + eapply accounting_granted; eauto. intros. apply Hd.
    + eapply evolves_trans; [done|]. by apply evolves_same.
  - destruct t; [destruct (Htot eq_refl); discriminate|]. subst s'. split_and!; try done.
    + apply accounting_draw; [done|]. eapply accounting_bumped; eauto. intros. apply Hd.
    + eapply evolves_trans; [done|]. by apply evolves_same.
Qed.

Lemma answered_tick s n : answered s -> answered (set_ticks n s).
Proof. done. Qed.

Lemma drain_loop_spec t fuel s r s' :
  (t = true -> forall i j, uuid i = uuid j -> i = j) ->
  accounting uuid t s -> drain_loop clock uuid fuel s = (r, s') ->
  drain_post t s r s' /\ (r = Ok tt -> (length (queue s) < fuel)%nat -> drained s').
Proof.
  intros Hinj. revert s r s'. induction fuel as [|fuel IH]; intros s r s' H Hd.
  { injection Hd as <- <-. split; [|lia]. constructor; eauto using evolves_refl. }
  cbn [drain_loop] in Hd. unfold now in Hd. run_in Hd.
  destruct (queue s !! nextDrainableIndex s) as [p|] eqn:Hp.
  2:{ injection Hd as <- <-. split; [constructor; eauto using evolves_refl|].
      intros _ _ q Hq. congruence. }
  assert (p ∈ queue s) as Hin by by eapply list_elem_of_lookup_2.
  set (s1 := set_ticks (S (ticks s)) s) in *.
  assert (accounting uuid t s1) as H1 by by apply accounting_tick.
  assert (evolves s s1) as Hev1 by by apply evolves_same.
  destruct (num_leb (deadline p) (clock (ticks s))) eqn:Hexp.
  - (* expired: cancelled, drained, and the loop goes on *)
    rewrite cancel_with_queued in Hd by apply (acc_number _ _ _ H p Hin).
    destruct (cancelled_spec t s1 p deadline_exceeded H1 Hin) as (H2 & Hev2 & Hlen & _ & Hans2).
    destruct (drain_loop clock uuid fuel (cancelled p deadline_exceeded s1)) as [r1 s2] eqn:Hd1.
    apply IH in Hd1 as [P1 _]; [|done].
    assert (drain_post t s r1 s2) as P1'.
    { eapply drain_post_trans; [eapply evolves_trans; eassumption|eauto|done|apply P1]. }
    destruct r1 as [[]|e]; [|injection Hd as <- <-; split; [done|discriminate]].
    apply IH in Hd as [P2 Hdr]; [|apply P1]. split.
    + eapply drain_post_trans; [apply P1'|apply P1'|done|apply P2].
    + intros Hr Hf. apply Hdr; [done|]. pose proof (sublist_length _ _ (ev_queue _ _ (dp_evolves _ _ _ _ P1))).
      cbn [queue s1 set_ticks] in Hlen. lia.
  - destruct (acc_queue _ _ _ H p Hin) as (a & Ha & _). rewrite Ha in Hd.
    destruct (fits s (demand p)) eqn:Hf; cbn [negb] in Hd.
    + change (set_queue (delete (nextDrainableIndex s1) (queue s1)) s1)
        with (set_queue (delete (nextDrainableIndex s) (queue s1)) s1) in Hd.
      destruct (grant uuid _ _ _) as [[addr|e] s2] eqn:Hg;
        destruct (drain_grant t s1 _ p _ _ Hinj H1 Hp Hf Hg) as (H2 & Hev2 & Hq & Hset & Hout & Htot).
      * destruct (settle_promise_same (number_of p) (Granted addr) s2) as (Hev3 & Hq3 & Hset3 & Ho).
        apply IH in Hd as [P Hdr]; [|by apply accounting_promise]. split.
        -- eapply drain_post_trans; [| |done|apply P].
           ++ eapply evolves_trans; [|eassumption]. by eapply evolves_trans.
           ++ intros _ Hans n. rewrite Hset3, Hset, elem_of_union, elem_of_singleton.
              rewrite (Ho n), Hout. unfold s1. bcbn. by rewrite (Hans n).
        -- intros Hr Hlt. apply Hdr; [done|]. rewrite Hq3, Hq.
           change (queue s1) with (queue s). rewrite length_delete by eauto.
           apply lookup_lt_Some in Hp. lia.
      * injection Hd as <- <-. split; [|discriminate]. destruct t.
        { by destruct (Htot eq_refl). }
        constructor; try done. by eapply evolves_trans.
    + injection Hd as <- <-. split; [constructor; done|].
      intros _ _ q Hq. change (queue s !! nextDrainableIndex s = Some q) in Hq.
      rewrite Hp in Hq. injection Hq as <-. done.
Qed.

Lemma drain_spec t s r s' :
  (t = true -> forall i j, uuid i = uuid j -> i = j) ->
  accounting uuid t s -> drain clock uuid s = (r, s') ->
  drain_post t s r s' /\ (r = Ok tt -> drained s').
Proof.
  intros Hinj H Hd. destruct (drain_loop_spec t _ s r s' Hinj H Hd) as [? Hdr]. eauto.
Qed.

Lemma cancel_spec t s p e r s' :
  (t = true -> forall i j, uuid i = uuid j -> i = j) ->
  accounting uuid t s -> p ∈ queue s \/ number_of p ∈ settled s ->
  cancel clock uuid p e s = (r, s') ->
  drain_post t s r s' /\ (r = Ok tt -> drained s -> drained s') /\
  (r = Ok tt -> number_of p ∈ settled s').
Proof.
  intros Hinj H Hp Hc. unfold cancel in Hc.
  destruct (decide (number_of p ∈ settled s)) as [Hs|Hs].
  - rewrite cancel_with_settled in Hc by done. injection Hc as <- <-.
    split_and!; [constructor; eauto using evolves_refl|done|done].
  - destruct Hp as [Hp|]; [|done]. rewrite cancel_with_queued in Hc by done.
    destruct (cancelled_spec t s p e H Hp) as (H2 & Hev & _ & Hset & Hans).
    apply (drain_spec t) in Hc as [P Hdr]; [|done|done]. split_and!; [|eauto|].
    + eapply drain_post_trans; [done|eauto|done|apply P].
    + intros _. by eapply ev_settled; [apply P|].
Qed.

(** ** The invariant of the operations *)

Record core (t : bool) (s : Broker) : Prop := {
  core_accounting : accounting uuid t s;
  core_sequence : 0 <= sequence s;
  core_settled n : n ∈ settled s -> 0 < n <= sequence s;
  core_numbers n : 0 < n <= sequence s ->
    n ∈ settled s \/ exists p, p ∈ queue s /\ number_of p = n;
  core_answered : t = true -> answered s;
  core_epoch w e : workers s !! w = Some e -> e <> NaN;
}.

(** [core], and nothing that waits could be granted. *)
Definition wf (t : bool) (s : Broker) : Prop := core t s /\ (t = true -> drained s).

Lemma core_evolves t s s' :
  core t s -> accounting uuid t s' -> evolves s s' -> (t = true -> answered s -> answered s') ->
  core t s'.
Proof.
  intros [] Hacc Hev Hans. constructor; [done|by rewrite (ev_sequence _ _ Hev)| | |eauto|by rewrite (ev_workers _ _ Hev)].
  - intros n Hn. rewrite (ev_sequence _ _ Hev). apply (ev_new _ _ Hev) in Hn as [Hn|(p & Hp & <-)]; [eauto|].
    apply (acc_number _ _ _ core_accounting0 p Hp).
  - intros n. rewrite (ev_sequence _ _ Hev). intros [Hn|(p & Hp & <-)]%core_numbers0.
    + left. by apply (ev_settled _ _ Hev).
    + destruct (ev_gone _ _ Hev p Hp); eauto.
Qed.

Lemma core_same t s s' :
  core t s -> accounting uuid t s' -> evolves s s' -> settled s' = settled s ->
  outbox s' = outbox s -> core t s'.
Proof.
  intros H Ha He Hs Ho. eapply core_evolves; eauto. unfold answered. by rewrite Hs, Ho.
Qed.

Context (tight : bool) (unique : tight = true -> forall i j, uuid i = uuid j -> i = j).

Lemma drain_wf s r s' :
  core tight s -> drain clock uuid s = (r, s') -> wf tight s'.
Proof.
  intros H Hd. destruct (drain_spec tight s r s' unique (core_accounting _ _ H) Hd) as [P Hdr].
  split; [eapply core_evolves; eauto; apply P|]. intros Ht. apply Hdr. by apply P.
Qed.

(** Lease records keep their ids, owners and amounts. *)
Lemma accounting_heap_alter t s addr f :
  (forall l, leaseId (f l) = leaseId l /\ lessee (f l) = lessee l /\
             resources (f l) = resources l /\ released (f l) = released l) ->
  accounting uuid t s -> accounting uuid t (set_heap (alter f addr (heap s)) s).
Proof.
  intros Hf H.
  assert (forall r x, lease_amount (alter f addr (heap s)) r x = lease_amount (heap s) r x) as Ham.
  { intros r x. unfold lease_amount. destruct (decide (addr = x)) as [->|].
    - rewrite lookup_alter_eq. destruct (heap s !! x); [|done]. cbn. by destruct (Hf l) as (_ & _ & -> & _).
    - by rewrite lookup_alter_ne. }
  destruct H; constructor; bcbn; try done.
  - intros k a lid x Ha Hl. destruct (acc_held k a lid x Ha Hl) as (E & l & Hl' & Hid & Hle & Hre).
    split; [done|]. destruct (decide (addr = x)) as [->|].
    + exists (f l). destruct (Hf l) as (E1 & E2 & _ & E4).
      rewrite lookup_alter_eq, Hl'. split_and!; [done|congruence..].
    + exists l. by rewrite lookup_alter_ne.
  - intros x l Hl. apply lookup_alter_Some in Hl as [(<- & l' & Hl & ->)|[_ Hl]]; [|eauto].
    destruct (Hf l') as (_ & _ & -> & _). eauto.
  - intros k a r Ha. rewrite (held_amount_ext _ (heap s)) by eauto. eauto.
Qed.

(** Without a change of the queue, the attempts or the amounts in use, the
    drained state stays drained. *)
Lemma drained_same s s' :
  queue s' = queue s -> attempts s' = attempts s -> used s' = used s -> config s' = config s ->
  drained s -> drained s'.
Proof.
  intros E1 E2 E3 E4. unfold drained, nextDrainableIndex, continues, fits. by rewrite E1, E2, E3, E4.
Qed.

Lemma wf_heap_alter s addr f :
  (forall l, leaseId (f l) = leaseId l /\ lessee (f l) = lessee l /\
             resources (f l) = resources l /\ released (f l) = released l) ->
  wf tight s -> wf tight (set_heap (alter f addr (heap s)) s).
Proof.
  intros Hf [H Hd]. split; [|by eauto using drained_same].
  eapply core_same; eauto; [by apply accounting_heap_alter, H|by apply evolves_same].
Qed.

Lemma assertIdentity_spec w s r s' :
  assertIdentity w s = (r, s') -> s' = s /\
  (r = Ok tt -> runId w = brokerRun (config s) /\ workers s !! workerId w = Some (workerEpoch w)).
Proof.
  unfold assertIdentity, assertRun. intros H. run_in H.
  destruct (guard_or (bool_decide _) _) as [[]|] eqn:E1; [|injection H as <- <-; done].
  destruct (assertWorker _ _) as [[]|] eqn:E2; [|injection H as <- <-; done].
  injection H as <- <-. split; [done|]. intros Hg%guard_or_Ok. apply guard_or_Ok in E1. breflect.
  split; [done|]. destruct (workers s !! _) as [e|]; [|done]. by apply same_number_eq in Hg as ->.
Qed.

Lemma authenticatedLease_spec who lid tok s r s' :
  authenticatedLease who lid tok s = (r, s') -> s' = s /\
  forall addr l, r = Ok (addr, l) -> leases s !! lid = Some addr /\ heap s !! addr = Some l.
Proof.
  unfold authenticatedLease. intros H. run_in H.
  destruct (assertIdentity _ s) as [[[]|] s1] eqn:E; apply assertIdentity_spec in E as [-> _];
    [|injection H as <- <-; done].
  destruct (leases s !! lid) as [x|]; cbn in H; [|injection H as <- <-; done].
  destruct (heap s !! x) as [y|] eqn:Hx; cbn in H; [|injection H as <- <-; done].
  destruct (_ && _); injection H as <- <-; (split; [done|]); intros addr l [= <- <-]. done.
Qed.

(** ** Releasing *)

Definition flag_released (l : LeaseRecord) : LeaseRecord :=
  {| leaseId := leaseId l; token := token l; lessee := lessee l; resources := resources l;
     attachments := attachments l; released := true; releasePromise := releasePromise l |}.

Lemma flagged_alter (D : nat -> Prop) addr h :
  D addr -> flagged D h (alter flag_released addr h).
Proof.
  intros HD. split.
  - intros x l Hl. destruct (decide (addr = x)) as [->|].
    + exists (flag_released l). rewrite lookup_alter_eq, Hl. cbn. eauto 7.
    + exists l. rewrite lookup_alter_ne by done. eauto 7.
  - intros x Hx. destruct (decide (addr = x)) as [->|].
    + by rewrite lookup_alter_eq, Hx.
    + by rewrite lookup_alter_ne.
Qed.

(** [release] after its guards, up to the drain. *)
Definition given_back (addr : nat) (l : LeaseRecord) (s : Broker) : Broker :=
  let id := attemptId (lessee l) in
  deleteAttemptIfEmpty id (recomputeReservation id (update_attempt id (fun a =>
    {| identity := identity a; held := delete (leaseId l) (held a);
       reservation := reservation a; queued := queued a |})
    (set_leases (delete (leaseId l) (leases s))
       (set_heap (alter flag_released addr (heap s)) s)))).

Lemma release_lease_run who lid tok s addr l :
  authenticatedLease who lid tok s = (Ok (addr, l), s) -> released l = false ->
  release_lease clock uuid who lid tok s = drain clock uuid (given_back addr l s).
Proof. intros H Hr. unfold release_lease. unfold mbind, method_bind. rewrite H, Hr. reflexivity. Qed.

Lemma recompute_gave_back k a h s s1 :
  attempts s1 = <[k := {| identity := identity a; held := h; reservation := reservation a;
                          queued := queued a |}]> (attempts s) ->
  config s1 = config s -> workers s1 = workers s -> queue s1 = queue s ->
  sequence s1 = sequence s -> settled s1 = settled s -> outbox s1 = outbox s ->
  draws s1 = draws s ->
  allocated s1 = allocated s -> used s1 = used s ->
  (forall lid, leases s1 !! lid =
     if decide (is_Some (held a !! lid) /\ h !! lid = None) then None else leases s !! lid) ->
  flagged (fun addr => exists lid, held a !! lid = Some addr /\ h !! lid = None) (heap s) (heap s1) ->
  gave_back k a h s (recomputeReservation k s1).
Proof.
  intros E1 ??????????.
  unfold recomputeReservation. rewrite E1, lookup_insert_eq. cbv zeta.
  constructor; bcbn; try done.
  - rewrite E1. rewrite alter_insert_eq. done.
  - intros r. unfold held_amount. bcbn. congruence.
Qed.

Lemma gave_back_evolves k a h s s' : gave_back k a h s s' -> evolves s s'.
Proof. intros G. apply evolves_same; apply G. Qed.

Lemma given_back_spec t s lid addr l :
  core t s -> leases s !! lid = Some addr -> heap s !! addr = Some l ->
  released l = false /\ core t (given_back addr l s) /\ leases (given_back addr l s) !! lid = None.
Proof.
  intros H Hl Hh. pose proof (core_accounting _ _ H) as Hacc.
  destruct (acc_lease _ _ _ Hacc lid addr Hl) as (k & a & Ha & Hheld).
  destruct (acc_held _ _ _ Hacc _ _ _ _ Ha Hheld) as (_ & l' & Hl' & Hid & Hle & Hrel).
  rewrite Hh in Hl'. injection Hl' as <-. split; [done|].
  assert (attemptId (lessee l) = k) as Hk by (rewrite Hle; by eapply acc_key).
  unfold given_back. rewrite Hk, Hid. cbv zeta.
  set (s1 := update_attempt _ _ _).
  assert (gave_back k a (delete lid (held a)) s (recomputeReservation k s1)) as G.
  { apply recompute_gave_back; try done.
    - unfold s1. bcbn. by rewrite (alter_alt_Some _ _ _ _ Ha).
    - intros x. unfold s1. bcbn. destruct (decide (lid = x)) as [->|Hne].
      + rewrite !lookup_delete_eq. rewrite decide_True; eauto.
      + rewrite !lookup_delete_ne by done. destruct (held a !! x) eqn:E.
        * rewrite decide_False; [done|]. by intros [_ ?].
        * rewrite decide_False; [done|]. by intros [[??] _].
    - apply flagged_alter. exists lid. split; [done|]. apply lookup_delete_eq. }
  pose proof (accounting_gave_back uuid t s _ k a _ Hacc Ha (delete_subseteq _ _) G) as Hacc'.
  assert (leases (recomputeReservation k s1) !! lid = None) as Hnone.
  { rewrite (gb_leases _ _ _ _ _ G), decide_True; [done|]. split; [eauto|apply lookup_delete_eq]. }
  pose proof (gave_back_evolves _ _ _ _ _ G) as Hev. pose proof (gb_outbox _ _ _ _ _ G) as Hout.
  destruct (delete_attempt_same k (recomputeReservation k s1)) as (Hev2 & _ & Hset2 & Hout2).
  split.
  - eapply core_same; [done|by apply accounting_delete_attempt|by eapply evolves_trans| |congruence].
    by rewrite Hset2, (gb_settled _ _ _ _ _ G).
  - revert Hnone. unfold deleteAttemptIfEmpty.
    destruct (attempts (recomputeReservation k s1) !! k) as [b|]; [|done].
    by destruct (_ && _).
Qed.

Lemma release_lease_wf who lid tok s r s' :
  wf tight s -> release_lease clock uuid who lid tok s = (r, s') -> wf tight s'.
Proof.
  intros [H Hd] Hr. destruct (authenticatedLease who lid tok s) as [r1 s1] eqn:E.
  pose proof (authenticatedLease_spec _ _ _ _ _ _ E) as [-> Hok].
  destruct r1 as [[addr l]|e].
  - destruct (Hok addr l eq_refl) as [Hl Hh].
    destruct (given_back_spec tight s lid addr l H Hl Hh) as (Hrel & Hc & _).
    rewrite (release_lease_run _ _ _ _ _ _ E Hrel) in Hr. by eapply drain_wf.
  - unfold release_lease in Hr. unfold mbind, method_bind in Hr. rewrite E in Hr.
    injection Hr as _ <-. done.
Qed.

Lemma release_wf h s r s' :
  wf tight s -> release clock uuid h s = (r, s') -> wf tight s'.
Proof.
  intros H Hr. unfold release in Hr. run_in Hr. destruct (heap s !! h) as [l|]; [|by injection Hr as _ <-].
  destruct (releasePromise l); [by injection Hr as _ <-|].
  destruct (release_lease _ _ _ _ _ s) as [r1 s1] eqn:E. injection Hr as <- <-.
  apply wf_heap_alter; [done|]. by eapply release_lease_wf.
Qed.

Lemma attach_wf h given s r s' : wf tight s -> attach h given s = (r, s') -> wf tight s'.
Proof.
  intros H Hr. unfold attach in Hr. run_in Hr. destruct (heap s !! h) as [l|]; [|by injection Hr as _ <-].
  unfold attach_lease in Hr. run_in Hr.
  destruct (authenticatedLease _ _ _ s) as [[[addr l1]|e] s1] eqn:E;
    apply authenticatedLease_spec in E as [-> _]; [|by injection Hr as _ <-].
  destruct (checkAttachments l1 given); injection Hr as _ <-; [|done].
  by apply wf_heap_alter.
Qed.

(** ** Reclaiming a worker *)

Lemma cancel_each_spec s ps r s' :
  core tight s -> (forall p, p ∈ ps -> p ∈ queue s \/ number_of p ∈ settled s) ->
  cancel_each clock uuid ps s = (r, s') ->
  core tight s' /\ evolves s s' /\ (tight = true -> r = Ok tt) /\
  (r = Ok tt -> forall p, p ∈ ps -> number_of p ∈ settled s').
Proof.
  revert s. induction ps as [|p ps IH]; intros s H Hps Hr; cbn [cancel_each] in Hr; run_in Hr.
  - injection Hr as <- <-. split_and!; [done|apply evolves_refl|done|]. by intros _ p ?%elem_of_nil.
  - destruct (cancel clock uuid p stale_worker s) as [r1 s1] eqn:E.
    apply (cancel_spec tight) in E as (P & _ & Hset); [|exact unique|apply H|apply Hps; left].
    assert (core tight s1) as H1 by (eapply core_evolves; eauto; apply P).
    pose proof (dp_evolves _ _ _ _ P) as Hev.
    destruct r1 as [[]|e].
    + apply IH in Hr as (H2 & Hev2 & Ht & Hall); [|done|].
      * split_and!; [done|by eapply evolves_trans|done|]. intros Hok q [->|Hq]%elem_of_cons; [|eauto].
        eapply ev_settled; eauto.
      * intros q Hq. destruct (Hps q ltac:(by right)) as [Hq'|Hq'].
        -- destruct (ev_gone _ _ Hev q Hq'); eauto.
        -- right. by apply (ev_settled _ _ Hev).
    + injection Hr as <- <-. split_and!; [done|done|apply P|discriminate].
Qed.

(** [s'] is [s] without the live leases [m], whose records are flagged. *)
Definition leases_flagged (s s' : Broker) (m : gmap jstring nat) : Prop :=
  s' = set_leases (leases s') (set_heap (heap s') s) /\
  (forall lid, leases s' !! lid = if decide (is_Some (m !! lid)) then None else leases s !! lid) /\
  flagged (fun addr => exists lid, m !! lid = Some addr) (heap s) (heap s').

Lemma reclaim_fold (m : gmap jstring nat) s :
  leases_flagged s (map_fold (fun lid addr s =>
    set_leases (delete lid (leases s)) (set_heap (alter flag_released addr (heap s)) s)) s m) m.
Proof.
  apply (map_fold_weak_ind (leases_flagged s)).
  - split_and!; [by destruct s| |].
    + intros lid. rewrite decide_False; [done|]. rewrite lookup_empty. by intros [??].
    + split; [|done]. intros addr l Hl. exists l. eauto 7.
  - intros lid addr m' s' Hm (Es & El & Hfl1 & Hfl2). split_and!.
    + by rewrite Es.
    + intros x. bcbn. destruct (decide (lid = x)) as [->|Hne].
      * rewrite lookup_delete_eq, decide_True; [done|]. rewrite lookup_insert_eq. eauto.
      * rewrite lookup_delete_ne, El by done. by rewrite lookup_insert_ne.
    + bcbn. split.
      * intros x l Hl. destruct (Hfl1 x l Hl) as (l1 & Hl1 & E1 & E2 & E3 & E4).
        destruct (decide (addr = x)) as [->|Hne].
        -- exists (flag_released l1). rewrite lookup_alter_eq, Hl1. cbn. split_and!; try done.
           right. exists lid. apply lookup_insert_eq.
        -- exists l1. rewrite lookup_alter_ne by done. split_and!; try done.
           destruct E4 as [E4|(y & Hy)]; [eauto|]. right. exists y.
           rewrite lookup_insert_ne; [done|]. congruence.
      * intros x Hx. specialize (Hfl2 x Hx). destruct (decide (addr = x)) as [->|Hne].
        -- by rewrite lookup_alter_eq, Hfl2.
        -- by rewrite lookup_alter_ne.
Qed.

Lemma reclaim_attempt_spec t s k a :
  core t s -> attempts s !! k = Some a -> entries k (queue s) = [] ->
  core t (reclaim_attempt k s) /\ evolves s (reclaim_attempt k s) /\
  queue (reclaim_attempt k s) = queue s /\ outbox (reclaim_attempt k s) = outbox s /\
  attempts (reclaim_attempt k s) = delete k (attempts s).
Proof.
  intros H Ha He. pose proof (core_accounting _ _ H) as Hacc.
  unfold reclaim_attempt. rewrite Ha. destruct (reclaim_fold (held a) s) as (Es & El & Hfl).
  change (fun l => {| leaseId := leaseId l; token := token l; lessee := lessee l;
    resources := resources l; attachments := attachments l; released := true;
    releasePromise := releasePromise l |}) with flag_released.
  cbv zeta in *. revert Es El Hfl. set (s0 := map_fold _ _ _). intros Es El Hfl.
  clearbody s0. set (s1 := update_attempt _ _ _).
  assert (gave_back k a ∅ s (recomputeReservation k s1)) as G.
  { apply recompute_gave_back; try (unfold s1; rewrite Es; done).
    - unfold s1. rewrite Es. bcbn. by rewrite (alter_alt_Some _ _ _ _ Ha).
    - intros x. unfold s1. bcbn. rewrite El. destruct (decide (is_Some _)).
      + rewrite decide_True; [done|]. split; [done|apply lookup_empty].
      + rewrite decide_False; [done|]. by intros [? _].
    - destruct Hfl as [Hf1 Hf2]. split; [|done]. intros x l Hl.
      destruct (Hf1 x l Hl) as (l' & ? & ? & ? & ? & Hr). exists l'. split_and!; try done.
      destruct Hr as [|(y & Hy)]; [eauto|]. right. exists y. split; [done|apply lookup_empty]. }
  pose proof (accounting_gave_back uuid t s _ k a _ Hacc Ha (map_empty_subseteq _) G) as Hacc'.
  set (s2 := recomputeReservation k s1) in *.
  pose proof (gave_back_evolves _ _ _ _ _ G) as Hev. pose proof (gb_outbox _ _ _ _ _ G) as Hout.
  destruct (delete_attempt_same k s2) as (Hev2 & Hq2 & Hset2 & Hout2).
  split_and!.
  - eapply core_same; [done|by apply accounting_delete_attempt|by eapply evolves_trans| |congruence].
    by rewrite Hset2, (gb_settled _ _ _ _ _ G).
  - by eapply evolves_trans.
  - by rewrite Hq2, (gb_queue _ _ _ _ _ G).
  - congruence.
  - pose proof (acc_queued _ _ _ Hacc k a Ha) as Hn. rewrite He in Hn. cbn in Hn.
    unfold deleteAttemptIfEmpty. rewrite (gb_attempts _ _ _ _ _ G), lookup_insert_eq. bcbn.
    rewrite bool_decide_eq_true_2, Hn by done. bcbn. cbn [Z.eqb andb].
    bcbn. by rewrite delete_insert_eq.
Qed.

Lemma reclaim_attempts_spec t ks s :
  core t s -> (forall k, k ∈ ks -> entries k (queue s) = []) ->
  let s' := foldl (fun s id => reclaim_attempt id s) s ks in
  core t s' /\ evolves s s' /\ queue s' = queue s /\ outbox s' = outbox s /\
  forall k a, attempts s' !! k = Some a -> attempts s !! k = Some a /\ k ∉ ks.
Proof.
  revert s. induction ks as [|k ks IH]; intros s H He; cbn [foldl].
  { split_and!; [done|apply evolves_refl|done|done|]. intros k a Ha.
    split; [done|apply not_elem_of_nil]. }
  destruct (attempts s !! k) as [a|] eqn:Ha.
  - destruct (reclaim_attempt_spec t s k a H Ha ltac:(apply He; left)) as (H1 & Hev & Hq & Ho & Hatt).
    destruct (IH (reclaim_attempt k s) H1) as (H2 & Hev2 & Hq2 & Ho2 & Hout).
    { rewrite Hq. intros j Hj. apply He. by right. }
    split_and!; [done|by eapply evolves_trans|congruence..|]. intros j b Hb.
    destruct (Hout j b Hb) as [Hj Hnin]. rewrite Hatt in Hj.
    apply lookup_delete_Some in Hj as [Hne Hj]. split; [done|].
    apply not_elem_of_cons. done.
  - assert (reclaim_attempt k s = s) as ->; [by unfold reclaim_attempt; rewrite Ha|].
    destruct (IH s H) as (H2 & Hev2 & Hq2 & Ho2 & Hout); [intros; apply He; by right|].
    split_and!; [done..|]. intros j b Hb. destruct (Hout j b Hb) as [Hj Hnin].
    split; [done|]. apply not_elem_of_cons. split; [congruence|done].
Qed.

Lemma owned_by_spec w id epoch :
  owned_by w id epoch = true -> workerId w = id /\ workerEpoch w = epoch.
Proof. unfold owned_by. intros H. breflect. eauto using same_number_eq. Qed.

Lemma owned_by_refl w : workerEpoch w <> NaN -> owned_by w (workerId w) (workerEpoch w) = true.
Proof. intros H. unfold owned_by. by rewrite bool_decide_eq_true_2, same_number_refl. Qed.

Lemma reclaimWorker_spec id epoch s r s' :
  core tight s -> workers s !! id = Some epoch ->
  reclaimWorker clock uuid id epoch s = (r, s') ->
  core tight s' /\ evolves s s' /\ (tight = true -> r = Ok tt) /\
  (r = Ok tt -> forall k a, attempts s' !! k = Some a -> workerId (worker (identity a)) <> id) /\
  exists r1 s1,
    cancel_each clock uuid
      (filter (fun p => Is_true (owned_by (worker (claimant p)) id epoch)) (queue s)) s = (r1, s1) /\
    queue s' = queue s1 /\ outbox s' = outbox s1 /\
    forall k, holds_lease s' k -> holds_lease s1 k.
Proof.
  intros H Hw Hr. unfold reclaimWorker in Hr. run_in Hr.
  destruct (cancel_each _ _ _ s) as [r1 s1] eqn:E.
  apply cancel_each_spec in E as (H1 & Hev & Htot & Hset); [|done|].
  2:{ intros p Hp. apply list_elem_of_filter in Hp as [_ Hp]. by left. }
  destruct r1 as [[]|e]; [|injection Hr as <- <-; split_and!; eauto 6; discriminate].
  injection Hr as <- <-.
  assert (forall p, p ∈ queue s1 -> workerId (worker (claimant p)) <> id) as Hnone.
  { intros p Hp Hid. pose proof (core_accounting _ _ H1) as Hacc.
    destruct (acc_number _ _ _ Hacc p Hp) as [_ Hns]. apply Hns, (Hset eq_refl).
    apply list_elem_of_filter. split; [|by eapply elem_of_submseteq, sublist_submseteq, Hev].
    destruct (acc_queue _ _ _ Hacc p Hp) as (a & Ha & Heq).
    pose proof (acc_owner _ _ _ Hacc _ _ Ha) as Ho. rewrite Heq, Hid in Ho.
    rewrite (ev_workers _ _ Hev), Hw in Ho. injection Ho as ->. rewrite <- Hid.
    apply Is_true_true, owned_by_refl. exact (core_epoch _ _ H _ _ Hw). }
  destruct (reclaim_attempts_spec tight (owned_attempts id epoch s1) s1 H1) as (H2 & Hev2 & Hq2 & Ho2 & Hout).
  { intros k Hk. apply elem_of_nil_inv. intros p Hp. apply list_elem_of_filter in Hp as [Hk' Hp].
    apply list_elem_of_fmap in Hk as ([k2 a] & -> & Hka). apply list_elem_of_filter in Hka as [Ho Hka].
    apply elem_of_map_to_list in Hka. cbn in *.
    apply Is_true_true, owned_by_spec in Ho as [Ho _].
    destruct (acc_queue _ _ _ (core_accounting _ _ H1) p Hp) as (b & Hb & Heq).
    rewrite Hk', Hka in Hb. injection Hb as <-. apply (Hnone p Hp). by rewrite <- Heq. }
  split_and!; [done|by eapply evolves_trans|done| |].
  2:{ do 2 eexists. split_and!; [reflexivity|done|done|].
      intros k (a & Ha & Hh). destruct (Hout k a Ha). by exists a. }
  intros _ k a Ha Hid. destruct (Hout k a Ha) as [Ha1 Hnin]. apply Hnin.
  apply list_elem_of_fmap. exists (k, a). split; [done|]. apply list_elem_of_filter.
  split; [|by apply elem_of_map_to_list]. cbn.
  pose proof (acc_owner _ _ _ (core_accounting _ _ H1) _ _ Ha1) as Ho. rewrite Hid in Ho.
  rewrite (ev_workers _ _ Hev), Hw in Ho. injection Ho as ->. rewrite <- Hid.
  apply Is_true_true, owned_by_refl. exact (core_epoch _ _ H _ _ Hw).
Qed.

(** Changing the workers keeps the books when no attempt is affected. *)
Lemma core_set_workers t s m :
  core t s -> (forall w e, m !! w = Some e -> e <> NaN) ->
  (forall k a, attempts s !! k = Some a ->
     m !! workerId (worker (identity a)) = workers s !! workerId (worker (identity a))) ->
  core t (set_workers m s).
Proof.
  intros [[] ] Hm Hk. constructor; try done. constructor; try done.
  intros k a Ha. bcbn. rewrite (Hk k a Ha). eauto.
Qed.

Lemma assertWorker_epoch id e u : assertWorker id e = Ok u -> e <> NaN.
Proof. intros H ->. apply bind_Ok in H as (? & _ & H). discriminate. Qed.

Lemma drained_weaken s s' :
  queue s' = queue s -> used s' = used s -> config s' = config s ->
  (forall k, holds_lease s' k -> holds_lease s k) -> drained s -> drained s'.
Proof.
  intros E1 E2 E3 Hh. rewrite !drained_iff. unfold fits. rewrite E1, E2, E3. intros [? ?]. eauto.
Qed.

(** A worker none of whose attempts is left may be registered and removed. *)
Lemma registered_core t w x :
  core t x -> workerEpoch w <> NaN ->
  (forall k a, attempts x !! k = Some a -> workerId (worker (identity a)) <> workerId w) ->
  core t (set_highestEpoch (<[workerId w := workerEpoch w]> (highestEpoch x))
    (set_workers (<[workerId w := workerEpoch w]> (workers x)) x)).
Proof.
  intros Hx Hw Hno.
  assert (core t (set_workers (<[workerId w := workerEpoch w]> (workers x)) x)) as Hc.
  { apply core_set_workers; [done| |].
    - intros v e [[<- <-]|[_ Hv]]%lookup_insert_Some; [done|]. by eapply core_epoch.
    - intros k a Ha. rewrite lookup_insert_ne; [done|]. by eapply not_eq_sym, Hno. }
  destruct Hc as [[] ]. constructor; try done.
Qed.

Lemma unregistered_core t w x :
  core t x -> (forall k a, attempts x !! k = Some a -> workerId (worker (identity a)) <> workerId w) ->
  core t (set_workers (delete (workerId w) (workers x)) x).
Proof.
  intros Hx Hno. apply core_set_workers; [done| |].
  - intros v e [_ Hv]%lookup_delete_Some. by eapply core_epoch.
  - intros k a Ha. rewrite lookup_delete_ne; [done|]. by eapply not_eq_sym, Hno.
Qed.

Lemma registerWorker_wf w s r s' :
  wf tight s -> registerWorker clock uuid w s = (r, s') -> wf tight s'.
Proof.
  intros [H Hd] Hr. unfold registerWorker, assertRun in Hr. run_in Hr.
  destruct (guard_or _ _) as [[]|]; [|by injection Hr as _ <-].
  destruct (assertWorker _ _) as [u|] eqn:Ew; [|by injection Hr as _ <-].
  apply assertWorker_epoch in Ew.
  destruct (match highestEpoch s !! _ with Some _ => _ | None => _ end); [by injection Hr as _ <-|].
  destruct (workers s !! workerId w) as [e|] eqn:Hw.
  - destruct (reclaimWorker _ _ _ _ s) as [r1 s1] eqn:E.
    apply reclaimWorker_spec in E as (H1 & _ & Htot & Hno & _); [|done|done].
    destruct r1 as [[]|]; [|injection Hr as <- <-; split; [done|by intros ?%Htot]].
    eapply drain_wf, Hr. apply registered_core; eauto.
  - injection Hr as _ <-. split; [|intros; by eapply drained_same, Hd].
    apply registered_core; [done|done|]. intros k a Ha Heq.
    pose proof (acc_owner _ _ _ (core_accounting _ _ H) _ _ Ha). congruence.
Qed.

Lemma disconnectWorker_wf w s r s' :
  wf tight s -> disconnectWorker clock uuid w s = (r, s') -> wf tight s'.
Proof.
  intros [H Hd] Hr. unfold disconnectWorker, assertRun in Hr. run_in Hr.
  destruct (guard_or _ _) as [[]|]; [|by injection Hr as _ <-].
  destruct (workers s !! workerId w) as [e|] eqn:Hw; [|by injection Hr as _ <-].
  destruct (same_number e _) eqn:He; [|by injection Hr as _ <-]. apply same_number_eq in He as ->.
  destruct (reclaimWorker _ _ _ _ s) as [r1 s1] eqn:E.
  apply reclaimWorker_spec in E as (H1 & _ & Htot & Hno & _); [|done|done].
  destruct r1 as [[]|]; [|injection Hr as <- <-; split; [done|by intros ?%Htot]].
  eapply drain_wf, Hr. apply unregistered_core; eauto.
Qed.

Lemma cancel_wf p e s r s' :
  wf tight s -> p ∈ queue s -> cancel clock uuid p e s = (r, s') -> wf tight s'.
Proof.
  intros [H Hd] Hp E.
  destruct (cancel_spec tight s p e r s' unique (core_accounting _ _ H) ltac:(by left) E) as (P & Hdr & _).
  split; [eapply core_evolves; eauto; apply P|]. intros Ht. apply Hdr; [by apply P|auto].
Qed.

(** ** Acquiring *)

Lemma attempt_of_same who s r s' :
  attempt_of who s = (r, s') ->
  evolves s s' /\ queue s' = queue s /\ settled s' = settled s /\ outbox s' = outbox s /\
  used s' = used s /\ forall k, holds_lease s' k -> holds_lease s k.
Proof.
  unfold attempt_of. destruct (attempts s !! attemptId who) eqn:E; intros [= <- <-].
  - split_and!; auto using evolves_refl.
  - split_and!; try done; [by apply evolves_same|].
    intros k (a & Ha & Hh). bcbn.
    apply lookup_insert_Some in Ha as [[<- <-]|[_ Ha]]; [done|]. by exists a.
Qed.

Lemma delete_attempt_holds k s j : holds_lease (deleteAttemptIfEmpty k s) j -> holds_lease s j.
Proof.
  unfold deleteAttemptIfEmpty. destruct (attempts s !! k) as [b|]; [|done].
  destruct (_ && _); [|done]. intros (a & Ha & Hh). bcbn. apply lookup_delete_Some in Ha as [_ Ha].
  by exists a.
Qed.

Lemma delete_attempt_used k s : used (deleteAttemptIfEmpty k s) = used s.
Proof. unfold deleteAttemptIfEmpty. destruct (attempts s !! k); [|done]. by destruct (_ && _). Qed.

(** An acquisition granted at once, when nobody waits. *)
Lemma grant_now_wf id a want s r s' :
  core tight s -> queue s = [] -> attempts s !! id = Some a -> fits s want = true ->
  (forall r, 0 <= want r) -> grant uuid id want s = (r, s') -> wf tight s'.
Proof.
  intros H Hq Ha Hf Hw Hg. pose proof (core_accounting _ _ H) as Hacc.
  assert (forall s1, queue s1 = queue s -> drained s1) as Hdr.
  { intros s1 E p. rewrite E, Hq. done. }
  destruct (grant_spec uuid _ _ _ _ _ _ Ha Hg) as (d & Hd & Hr). destruct r as [addr|e].
  - destruct Hr as (lid & tok & -> & Hl & (j & Hj & Hlid) & ->). split; [|by intros; apply Hdr].
    eapply core_same; [done|by eapply accounting_granted|by apply evolves_same|done|done].
  - subst s'. split; [|by intros; apply Hdr]. destruct tight.
    + by destruct (grant_total true s id a want _ _ (unique eq_refl) Hacc Ha Hg).
    + eapply core_same; [done| |by apply evolves_same|done|done].
      apply accounting_draw; [done|]. by eapply accounting_bumped.
Qed.

Lemma core_enqueue t s p a :
  core t s -> attempts s !! attemptId (claimant p) = Some a ->
  worker (identity a) = worker (claimant p) ->
  demand_ok (capacities (config s)) (demand p) -> number_of p = sequence s + 1 ->
  Z.of_nat (length (queue s)) < maxQueued (config s) ->
  core t (set_queue (queue s ++ [p])
    (update_attempt (attemptId (claimant p)) (fun a =>
       {| identity := identity a; held := held a; reservation := reservation a;
          queued := queued a + 1 |}) (set_sequence (number_of p) s))).
Proof.
  intros H Ha Hw Hd Hn Hlen. pose proof (core_sequence _ _ H) as H0. constructor; bcbn.
  - eapply accounting_enqueue; eauto; [apply H|]. intros n ?%(core_settled _ _ H). lia.
  - lia.
  - intros n ?%(core_settled _ _ H). lia.
  - intros n Hn'. destruct (decide (n = number_of p)) as [->|].
    + right. exists p. split; [|done]. apply elem_of_app. right. by apply list_elem_of_singleton.
    + destruct (core_numbers _ _ H n ltac:(lia)) as [|(q & Hq & <-)]; [by left|].
      right. exists q. split; [|done]. apply elem_of_app. by left.
  - apply (core_answered _ _ H).
  - apply (core_epoch _ _ H).
Qed.

Lemma acquire_wf o s r s' :
  wf tight s -> acquire clock uuid o s = (r, s') -> wf tight s'.
Proof.
  intros [H Hd] Hr. unfold acquire, now in Hr. run_in Hr.
  destruct (assertIdentity _ s) as [[[]|] s0] eqn:Ei;
    apply assertIdentity_spec in Ei as [-> Hid]; [|by injection Hr as _ <-].
  destruct (Hid eq_refl) as [_ Hwk].
  destruct (normalizeVector _ _) as [want|] eqn:En; [|by injection Hr as _ <-].
  apply normalizeVector_Ok in En.
  destruct (negb _); [by injection Hr as _ <-|].
  destruct (bool_decide _); [by injection Hr as _ <-|].
  set (s1 := set_ticks (S (ticks s)) s) in *.
  assert (core tight s1) as H1.
  { eapply core_same; [done|by apply accounting_tick, H|by apply evolves_same|done|done]. }
  assert (tight = true -> drained s1) as Hd1 by (intros; by eapply drained_same, Hd).
  destruct (num_leb _ _); [by injection Hr as _ <-|].
  destruct (attempt_of (owner o) s1) as [r2 s2] eqn:Ea.
  destruct (accounting_attempt_of uuid tight s1 _ _ _ (core_accounting _ _ H1) Hwk Ea) as [Hacc2 Hatt].
  destruct (attempt_of_same _ _ _ _ Ea) as (Hev & Hq & Hset & Hout & Hus & Hh).
  assert (core tight s2) as H2 by by eapply core_same.
  assert (tight = true -> drained s2) as Hd2.
  { intros Ht. eapply drained_weaken; [done..|by apply Hev|done|auto]. }
  destruct r2 as [[]|]; [|by injection Hr as _ <-]. destruct (Hatt eq_refl) as (a & Ha & Hown).
  assert (config s2 = config s) as Hcfg by apply Hev.
  destruct (_ && fits s2 want) eqn:Enow.
  - breflect. destruct (grant uuid _ _ s2) as [r3 s3] eqn:Eg.
    eapply grant_now_wf in Eg; eauto; [|by apply nil_length_inv|intros; apply En].
    destruct r3; by injection Hr as _ <-.
  - destruct (maxQueued _ <=? _) eqn:Efull.
    + injection Hr as _ <-. destruct (delete_attempt_same (attemptId (owner o)) s2) as (He & Hq3 & Hs3 & Ho3).
      split; [eapply core_same; [done|by apply accounting_delete_attempt, H2|done..]|].
      intros Ht. eapply drained_weaken; [done|apply delete_attempt_used|apply He| |auto].
      apply delete_attempt_holds.
    + breflect.
      set (p := {| number_of := sequence s2 + 1; claimant := owner o; demand := want;
                   deadline := until o; abortable := _ |}) in *.
      match type of Hr with context [drain clock uuid ?x] => set (s3 := x) in * end.
      assert (core tight s3) as H3.
      { assert (demand_ok (capacities (config s2)) (demand p)) as Hdem by by rewrite Hcfg.
        pose proof (core_enqueue tight s2 p a H2 Ha Hown Hdem eq_refl Efull) as He.
        eapply core_same; [exact He|apply accounting_tick, He|by apply evolves_same|done|done]. }
      destruct (drain clock uuid s3) as [r4 s4] eqn:Ed.
      pose proof (drain_spec tight s3 r4 s4 unique (core_accounting _ _ H3) Ed) as [P _].
      apply drain_wf in Ed as H4; [|done].
      destruct r4 as [[]|e]; injection Hr as _ <-; [done|].
      destruct tight; [by discriminate (dp_total _ _ _ _ P eq_refl)|].
      destruct (settle_promise_same (sequence s2 + 1) (Refused e) s4) as (He5 & _).
      split; [|done]. eapply core_evolves; [apply H4|by apply accounting_promise, H4|done|done].
Qed.

(** ** Every interleaving of operations and callbacks *)

Inductive step : Broker -> Broker -> Prop :=
| step_register w s r s' : registerWorker clock uuid w s = (r, s') -> step s s'
| step_disconnect w s r s' : disconnectWorker clock uuid w s = (r, s') -> step s s'
| step_acquire o s r s' : acquire clock uuid o s = (r, s') -> step s s'
| step_timer p s r s' : p ∈ queue s -> onTimer clock uuid p s = (r, s') -> step s s'
| step_abort p s r s' : p ∈ queue s -> onAbort clock uuid p s = (r, s') -> step s s'
| step_attach h given s r s' : attach h given s = (r, s') -> step s s'
| step_release h s r s' : release clock uuid h s = (r, s') -> step s s'.

Definition initial (s : Broker) : Prop :=
  exists run given limit, construct run given limit = Ok s.

Definition reached : Broker -> Prop := reachable initial step.

Lemma normalizeCapacities_nonneg given caps :
  normalizeCapacities given = Ok caps -> forall r, 0 <= caps r.
Proof.
  unfold normalizeCapacities. generalize RESOURCE_CLASSES. intros rs. revert caps.
  induction rs as [|c rs IH]; intros caps H r; cbn [foldr] in H.
  - by injection H as <-.
  - apply bind_Ok in H as (units & Hu & H). apply bind_Ok in H as (next & Hn & [= <-]).
    apply positiveInteger_Ok in Hu. destruct (decide (r = c)); [lia|]. by apply IH.
Qed.

Lemma initial_wf s : initial s -> wf tight s.
Proof.
  intros (run & given & limit & H). unfold construct in H.
  apply bind_Ok in H as (caps & Hc & H). apply bind_Ok in H as (bound & Hb & [= <-]).
  apply positiveInteger_Ok in Hb. cbn in Hb. pose proof (normalizeCapacities_nonneg _ _ Hc) as Hn.
  assert (forall X (x : X), x ∈ ([] : list X) -> False) as Hnil by (intros X x ?%elem_of_nil; done).
  assert (forall n, n ∈ (∅ : gset Z) -> False) as Hemp by set_solver.
  split; [|by intros _ p]. constructor; bcbn; try done; cycle 2.
  { intros _ n. bcbn. rewrite lookup_empty. split; [by intros ?%Hemp|by intros [? ?]]. }
  - constructor; bcbn; try done; try by (intros; exfalso; eauto).
    + constructor.
    + intros r. rewrite msum_empty. apply rel_refl.
    + cbn. lia.
  - intros n [? ?]. lia.
Qed.

Lemma step_wf s s' : wf tight s -> step s s' -> wf tight s'.
Proof.
  intros H Hs. destruct Hs as [w s r s' E|w s r s' E|o s r s' E|p s r s' Hp E|p s r s' Hp E|h g s r s' E|h s r s' E].
  - by eapply registerWorker_wf.
  - by eapply disconnectWorker_wf.
  - by eapply acquire_wf.
  - eapply cancel_wf; eauto.
  - unfold onAbort in E. destruct (abortable p); [eapply cancel_wf; eauto|]. by injection E as _ <-.
  - by eapply attach_wf.
  - by eapply release_wf.
Qed.

Lemma reached_wf s : reached s -> wf tight s.
Proof. apply reachable_invariant; [apply initial_wf|apply step_wf]. Qed.
End Scheduling.
