(* ===== verification/BrokerTheorems.v ===== *)
(** * The resource broker: what it promises

    The theorems about every reachable state and every operation of
    [ResourceBroker], with runs of the broker as witnesses. *)

From S2P Require Import Prelude JsText ResourceBroker BrokerAccounting BrokerScheduling.

Local Open Scope Z_scope.

(** ** Order of grants *)

(** [p] waits behind [pre], none of which belongs to its attempt, and its
    attempt holds nothing yet. *)
Definition behind (p : PendingAcquire) (pre : list PendingAcquire) (s : Broker) : Prop :=
  (exists post, queue s = pre ++ p :: post) /\
  (forall q, q ∈ pre -> attemptId (claimant q) <> attemptId (claimant p)) /\
  ~ holds_lease s (attemptId (claimant p)) /\ outbox s !! number_of p = None.

(** Between [s] and [s'] the request [p] stays behind what is left of the
    requests ahead of it, is refused, or everything ahead of it has left. *)
Definition in_turn (p : PendingAcquire) (s s' : Broker) : Prop := forall pre, behind p pre s ->
  (exists pre', behind p pre' s' /\ forall q, q ∈ pre -> q ∈ queue s' -> q ∈ pre') \/
  (exists e, outbox s' !! number_of p = Some (Refused e)) \/
  (forall q, q ∈ pre -> q ∉ queue s').

(** Nobody enters the queue and promises stay as they were settled. *)
Definition later (s s' : Broker) : Prop :=
  (forall q, q ∈ queue s' -> q ∈ queue s) /\
  (forall n v, outbox s !! n = Some v -> outbox s' !! n = Some v).

Lemma later_refl s : later s s.
Proof. by split. Qed.
Lemma later_trans s1 s2 s3 : later s1 s2 -> later s2 s3 -> later s1 s3.
Proof. intros [] []. split; eauto. Qed.

Lemma in_turn_trans p s1 s2 s3 :
  in_turn p s1 s2 -> in_turn p s2 s3 -> later s2 s3 -> in_turn p s1 s3.
Proof.
  intros H1 H2 [Hq Ho] pre Hb. destruct (H1 pre Hb) as [(pre2 & Hb2 & Hk2)|[[e He]|Hgone]].
  - destruct (H2 pre2 Hb2) as [(pre3 & Hb3 & Hk3)|[He|Hgone]]; [left|by right; left|right; right].
    + exists pre3. eauto.
    + intros q Hp Hq3. by apply (Hgone q); eauto.
  - right. left. eauto.
  - right. right. intros q Hp Hq3. by apply (Hgone q Hp), Hq.
Qed.

(** Updates that leave the queue and the promises alone and give nobody a
    lease, possibly with new requests at the end of the queue. *)
Lemma in_turn_quiet p s s' new :
  queue s' = queue s ++ new -> outbox s' = outbox s ->
  (forall k, holds_lease s' k -> holds_lease s k) -> in_turn p s s'.
Proof.
  intros Eq Eo Hh pre ((post & Hq) & Hne & Hno & Hout). left. exists pre. split; [|done].
  split_and!; [exists (post ++ new); by rewrite Eq, Hq, <- (assoc_L (++))|done|naive_solver|congruence].
Qed.

Lemma later_quiet s s' : queue s' = queue s -> outbox s' = outbox s -> later s s'.
Proof. intros E1 E2. split; rewrite ?E1, ?E2; eauto. Qed.

Lemma delete_app_l {A} (l k : list A) i :
  (i < length l)%nat -> delete i (l ++ k) = delete i l ++ k.
Proof. revert i. induction l as [|x l IH]; intros [|i] Hi; cbn in *; try lia; [done|]. f_equal. apply IH. lia. Qed.
Lemma delete_app_r {A} (l k : list A) i : delete (length l + i)%nat (l ++ k) = l ++ delete i k.
Proof. induction l as [|x l IH]; cbn; [done|]. by f_equal. Qed.

(** Taking another request out of the queue. *)
Lemma in_turn_remove p x i s s' :
  NoDup (number_of <$> queue s) -> queue s !! i = Some x -> number_of x <> number_of p ->
  queue s' = delete i (queue s) -> outbox s' !! number_of p = outbox s !! number_of p ->
  (holds_lease s' (attemptId (claimant p)) -> holds_lease s (attemptId (claimant p))) ->
  in_turn p s s'.
Proof.
  intros Hnd Hi Hne Hq Ho Hh pre ((post & Hqs) & Hpre & Hno & Hout). left.
  rewrite Hqs in Hi, Hq. rewrite Hqs in Hnd.
  assert (outbox s' !! number_of p = None) as Hout' by congruence.
  destruct (decide (i < length pre)%nat) as [Hlt|Hge].
  - exists (delete i pre). rewrite delete_app_l in Hq by done.
    rewrite lookup_app_l in Hi by done. split.
    + split_and!; [by exists post| |naive_solver|done].
      intros q Hq'. by eapply Hpre, elem_of_delete.
    + intros q Hq' Hin. rewrite Hq in Hin. apply elem_of_app in Hin as [|Hin]; [done|].
      exfalso. rewrite fmap_app in Hnd. apply NoDup_app in Hnd as (_ & Hdis & _).
      apply (Hdis (number_of q)); by apply list_elem_of_fmap_2.
  - exists pre. split; [|done]. split_and!; [|done|naive_solver|done].
    rewrite lookup_app_r in Hi by lia. replace i with (length pre + (i - length pre))%nat in Hq by lia.
    rewrite delete_app_r in Hq. destruct (i - length pre)%nat as [|j]; [by injection Hi as ->|].
    cbn in Hq. eauto.
Qed.

(** Promises stay settled. *)
Lemma outbox_promise n r s m v :
  outbox s !! m = Some v -> outbox (settle_promise n r s) !! m = Some v.
Proof.
  intros H. unfold settle_promise. destruct (outbox s !! n) eqn:E; [done|]. bcbn.
  rewrite lookup_insert_ne; [done|]. congruence.
Qed.
Lemma outbox_promise_ne n r s m :
  n <> m -> outbox (settle_promise n r s) !! m = outbox s !! m.
Proof.
  intros H. unfold settle_promise. destruct (outbox s !! n) eqn:E; [done|]. bcbn.
  by rewrite lookup_insert_ne.
Qed.
Lemma outbox_promise_eq n r s :
  outbox s !! n = None -> outbox (settle_promise n r s) !! n = Some r.
Proof. intros H. unfold settle_promise. rewrite H. bcbn. by rewrite lookup_insert_eq. Qed.

Lemma promise_holds n r s k : holds_lease (settle_promise n r s) k -> holds_lease s k.
Proof. unfold settle_promise. by destruct (outbox s !! n). Qed.

Section Order.
Context (clock : nat -> number) (uuid : nat -> jstring).
Context (t : bool) (unique : t = true -> forall i j, uuid i = uuid j -> i = j).

Lemma settle_holds p s k : holds_lease (settlePending p s) k -> holds_lease s k.
Proof.
  unfold settlePending. case_bool_decide; [done|]. intros (a & Ha & Hh). bcbn.
  apply lookup_alter_Some in Ha as [(<- & b & Hb & ->)|[_ Ha]]; by eexists.
Qed.

Lemma settle_attempt p s a :
  attempts s !! attemptId (claimant p) = Some a ->
  exists b, attempts (settlePending p s) !! attemptId (claimant p) = Some b.
Proof.
  intros Ha. unfold settlePending. case_bool_decide; [eauto|]. bcbn.
  rewrite lookup_alter_eq, Ha. eauto.
Qed.

Lemma cancelled_in_turn s x e p :
  accounting uuid t s -> x ∈ queue s ->
  in_turn p s (cancelled x e s) /\ later s (cancelled x e s).
Proof.
  intros H Hx. destruct (queue_index_Some uuid t s x H Hx) as (i & Hix & Hi).
  destruct (acc_queue _ _ _ H x Hx) as (a & Ha & _).
  destruct (settled_out uuid t s x i H Hi) as (_ & Hq & _ & Hout & _).
  unfold cancelled, unqueue. rewrite Hix. bcbn. rewrite Ha.
  set (s1 := settlePending x (set_queue (delete i (queue s)) s)) in *.
  destruct (delete_attempt_same (attemptId (claimant x)) s1) as (_ & Hq2 & _ & Hout2).
  set (s2 := deleteAttemptIfEmpty (attemptId (claimant x)) s1) in *.
  destruct (settle_promise_same (number_of x) (Refused e) s2) as (_ & Hq3 & _).
  assert (holds_lease (settle_promise (number_of x) (Refused e) s2) (attemptId (claimant p)) ->
          holds_lease s (attemptId (claimant p))) as Hh.
  { intros Hl. assert (holds_lease s2 (attemptId (claimant p))) as Hl2.
    { by eapply promise_holds. }
    by apply delete_attempt_holds, settle_holds in Hl2. }
  rewrite Hq2, Hq in Hq3. split.
  - destruct (decide (number_of x = number_of p)) as [Heq|Hne].
    + intros pre (_ & _ & _ & Hno). right. left. exists e. rewrite <- Heq. apply outbox_promise_eq.
      by rewrite Hout2, Hout, Heq.
    + eapply in_turn_remove; [apply H|exact Hi|done|done| |exact Hh].
      by rewrite outbox_promise_ne, Hout2, Hout by done.
  - split.
    + intros q. rewrite Hq3. by apply elem_of_delete with x.
    + intros n v Hn. apply outbox_promise. by rewrite Hout2, Hout.
Qed.

(** The request the drain serves is at the head or continues its attempt. *)
Lemma nextDrainable_head s p :
  queue s !! nextDrainableIndex s = Some p -> ~ holds_lease s (attemptId (claimant p)) ->
  head (queue s) = Some p.
Proof.
  unfold nextDrainableIndex. destruct (find_index _ _) as [i|] eqn:E; cbn [default from_option id]; intros Hp Hno.
  - apply find_index_Some in E as (q & Hq & Hc & _). rewrite Hp in Hq. injection Hq as <-.
    by apply continues_spec in Hc as [_ ?].
  - by destruct (queue s).
Qed.

Lemma granted_holds id a want lid tok d s k :
  holds_lease (granted id a want lid tok d s) k -> k = id \/ holds_lease s k.
Proof.
  intros (b & Hb & Hh). unfold granted in Hb. bcbn.
  apply lookup_insert_Some in Hb as [[<- _]|[_ Hb]]; [by left|]. right. by exists b.
Qed.

Lemma bumped_holds id want s k : holds_lease (bumped id want s) k -> holds_lease s k.
Proof.
  intros (a & Ha & Hh). unfold bumped in Ha. bcbn.
  apply lookup_alter_Some in Ha as [(<- & b & Hb & ->)|[_ Ha]]; by eexists.
Qed.

Lemma grant_holds id want s a r s' k :
  attempts s !! id = Some a -> grant uuid id want s = (r, s') ->
  holds_lease s' k -> k = id \/ holds_lease s k.
Proof.
  intros Ha Hg. destruct (grant_spec uuid _ _ _ _ _ _ Ha Hg) as (d & _ & Hr). destruct r as [addr|e].
  - destruct Hr as (lid & tok & _ & _ & _ & ->). apply granted_holds.
  - subst s'. intros Hk. right. by apply (bumped_holds id want).
Qed.

(** A turn of the drain that grants. *)
Lemma grant_in_turn s x r s2 p :
  accounting uuid t s -> queue s !! nextDrainableIndex s = Some x -> fits s (demand x) = true ->
  grant uuid (attemptId (claimant x)) (demand x)
    (settlePending x (set_queue (delete (nextDrainableIndex s) (queue s)) s)) = (r, s2) ->
  in_turn p s s2.
Proof.
  intros H Hx Hf Hg. assert (x ∈ queue s) as Hin by by eapply list_elem_of_lookup_2.
  destruct (drain_grant uuid t s _ x _ _ unique H Hx Hf Hg) as (_ & _ & Hq & _ & Hout & _).
  intros pre Hb. pose proof Hb as ((post & Hqs) & Hpre & Hno & Hnone).
  destruct (decide (attemptId (claimant x) = attemptId (claimant p))) as [Hk|Hk].
  - (* its own attempt: only the head can be served, so nothing is ahead *)
    right. right. rewrite <- Hk in Hno. pose proof (nextDrainable_head s x Hx Hno) as Hhd.
    rewrite Hqs in Hhd. destruct pre as [|y pre]; [by intros q ?%elem_of_nil|].
    injection Hhd as ->. exfalso. by apply (Hpre x); [left|].
  - assert (p ∈ queue s) as Hinp by (rewrite Hqs; set_solver).
    refine (in_turn_remove p x _ s s2 (acc_numbers _ _ _ H) Hx _ Hq _ _ pre Hb).
    + intros Heq. apply Hk. f_equal. f_equal.
      by eapply (NoDup_fmap_inj number_of (queue s)); [apply H|..].
    + by rewrite Hout.
    + intros Hl. destruct (acc_queue _ _ _ H x Hin) as (a & Ha & _).
      destruct (settle_attempt x (set_queue (delete (nextDrainableIndex s) (queue s)) s) a Ha) as [b Hb'].
      destruct (grant_holds _ _ _ _ _ _ _ Hb' Hg Hl) as [|Hl']; [congruence|].
      by apply settle_holds in Hl'.
Qed.

Lemma drain_in_turn fuel s r s' p :
  accounting uuid t s -> drain_loop clock uuid fuel s = (r, s') -> in_turn p s s' /\ later s s'.
Proof.
  revert s r s'. induction fuel as [|fuel IH]; intros s r s' H Hd.
  { injection Hd as _ <-. split; [by apply (in_turn_quiet _ _ _ []); rewrite ?app_nil_r|apply later_refl]. }
  cbn [drain_loop] in Hd. unfold now in Hd. run_in Hd.
  destruct (queue s !! nextDrainableIndex s) as [x|] eqn:Hx.
  2:{ injection Hd as _ <-. split; [by apply (in_turn_quiet _ _ _ []); rewrite ?app_nil_r|apply later_refl]. }
  assert (x ∈ queue s) as Hin by by eapply list_elem_of_lookup_2.
  set (s1 := set_ticks (S (ticks s)) s) in *.
  assert (accounting uuid t s1) as H1 by by apply accounting_tick.
  assert (in_turn p s s1 /\ later s s1) as [T1 L1].
  { split; [by apply (in_turn_quiet _ _ _ []); rewrite ?app_nil_r|by apply later_quiet]. }
  destruct (num_leb (deadline x) (clock (ticks s))) eqn:Hexp.
  - rewrite cancel_with_queued in Hd by apply (acc_number _ _ _ H x Hin).
    destruct (cancelled_in_turn s1 x deadline_exceeded p H1 Hin) as [T2 L2].
    destruct (cancelled_spec uuid t s1 x deadline_exceeded H1 Hin) as (H2 & _).
    destruct (drain_loop clock uuid fuel (cancelled x deadline_exceeded s1)) as [r1 s2] eqn:Hd1.
    destruct (drain_loop_spec clock uuid t _ _ _ _ unique H2 Hd1) as [P _].
    apply IH in Hd1 as [T3 L3]; [|done].
    assert (in_turn p s s2 /\ later s s2) as [T4 L4].
    { split; [|eauto using later_trans].
      eapply in_turn_trans; [exact T1| |by eapply later_trans].
      by eapply in_turn_trans. }
    destruct r1 as [[]|e]; [|by injection Hd as _ <-].
    apply IH in Hd as [T5 L5]; [|apply P].
    split; [by eapply in_turn_trans|by eapply later_trans].
  - destruct (acc_queue _ _ _ H x Hin) as (a & Ha & _). rewrite Ha in Hd.
    destruct (fits s (demand x)) eqn:Hf; cbn [negb] in Hd; [|by injection Hd as _ <-].
    destruct (grant uuid _ _ _) as [r2 s2] eqn:Hg.
    pose proof (grant_in_turn s1 x r2 s2 p H1 Hx Hf Hg) as T2.
    destruct (drain_grant uuid t s1 _ x _ _ unique H1 Hx Hf Hg) as (H2 & _ & Hq & _ & Hout & _).
    assert (later s1 s2) as L2.
    { split; [|by rewrite Hout]. intros q. rewrite Hq. by apply elem_of_delete with x. }
    destruct r2 as [addr|e].
    2:{ injection Hd as _ <-.
        exact (conj (in_turn_trans _ _ _ _ T1 T2 L2) (later_trans _ _ _ L1 L2)). }
    set (s3 := settle_promise (number_of x) (Granted addr) s2) in *.
    apply IH in Hd as [T4 L4]; [|by apply accounting_promise].
    destruct (settle_promise_same (number_of x) (Granted addr) s2) as (_ & Hq3 & _).
    assert (later s2 s3) as L3.
    { split; [by unfold s3; rewrite Hq3|]. intros n v. apply outbox_promise. }
    assert (in_turn p s2 s3) as T3.
    { destruct (decide (number_of x = number_of p)) as [Heq|Hne].
      - intros pre ((post & Hqs) & _). exfalso.
        destruct (numbers_delete _ _ _ Hx (acc_numbers _ _ _ H)) as [_ Hnot].
        apply (Hnot p); [|done]. change (queue s) with (queue s1). rewrite <- Hq, Hqs. set_solver.
      - intros pre (Hqs & Hpre & Hno & Hnone). left. exists pre. split; [|done].
        split_and!; [by unfold s3; rewrite Hq3|done| |by unfold s3; rewrite outbox_promise_ne].
        intros Hl. by eapply Hno, promise_holds. }
    pose proof (later_trans _ _ _ L3 L4) as L34. pose proof (later_trans _ _ _ L2 L34) as L24.
    pose proof (in_turn_trans _ _ _ _ T3 T4 L4) as T34.
    pose proof (in_turn_trans _ _ _ _ T2 T34 L34) as T24.
    split; [exact (in_turn_trans _ _ _ _ T1 T24 L24)|exact (later_trans _ _ _ L1 L24)].
Qed.

Lemma drain_turn p s r s' :
  accounting uuid t s -> drain clock uuid s = (r, s') -> in_turn p s s' /\ later s s'.
Proof. intros H Hd. exact (drain_in_turn _ _ _ _ p H Hd). Qed.

Lemma in_turn_refl p s : in_turn p s s.
Proof. apply (in_turn_quiet _ _ _ []); by rewrite ?app_nil_r. Qed.

Lemma quiet p s s' :
  queue s' = queue s -> outbox s' = outbox s -> (forall k, holds_lease s' k -> holds_lease s k) ->
  in_turn p s s' /\ later s s'.
Proof.
  intros Eq Eo Hh. split; [|by apply later_quiet].
  apply (in_turn_quiet _ _ _ []); [by rewrite app_nil_r|done|done].
Qed.

(** A first part that lets nobody in, then a second. *)
Lemma turns p s1 s2 s3 :
  in_turn p s1 s2 /\ later s1 s2 -> in_turn p s2 s3 /\ later s2 s3 ->
  in_turn p s1 s3 /\ later s1 s3.
Proof. intros [T1 L1] [T2 L2]. eauto using in_turn_trans, later_trans. Qed.

Lemma refused_in_turn p n e s :
  in_turn p s (settle_promise n (Refused e) s) /\ later s (settle_promise n (Refused e) s).
Proof.
  destruct (settle_promise_same n (Refused e) s) as (_ & Hq & _). split.
  - intros pre Hb. pose proof Hb as (Hpost & Hpre & Hno & Hnone).
    destruct (decide (n = number_of p)) as [->|Hne].
    + right. left. eauto using outbox_promise_eq.
    + left. exists pre. split; [|done]. split_and!; [by rewrite Hq|done| |by rewrite outbox_promise_ne].
      intros Hl. by eapply Hno, promise_holds.
  - split; [by rewrite Hq|]. intros m v. apply outbox_promise.
Qed.

Lemma cancel_in_turn p x e s r s' :
  core uuid t s -> x ∈ queue s \/ number_of x ∈ settled s ->
  cancel clock uuid x e s = (r, s') -> in_turn p s s' /\ later s s'.
Proof.
  intros H Hx Hc. pose proof (core_accounting _ _ _ H) as Hacc. unfold cancel in Hc.
  destruct (decide (number_of x ∈ settled s)) as [Hs|Hs].
  - rewrite cancel_with_settled in Hc by done. injection Hc as _ <-.
    split; [apply in_turn_refl|apply later_refl].
  - destruct Hx as [Hx|]; [|done]. rewrite cancel_with_queued in Hc by done.
    destruct (cancelled_spec uuid t s x e Hacc Hx) as (H2 & _).
    eapply turns; [by apply cancelled_in_turn|by eapply drain_in_turn].
Qed.

Lemma cancel_each_in_turn p xs s r s' :
  core uuid t s -> (forall x, x ∈ xs -> x ∈ queue s \/ number_of x ∈ settled s) ->
  cancel_each clock uuid xs s = (r, s') -> in_turn p s s' /\ later s s'.
Proof.
  revert s. induction xs as [|x xs IH]; intros s H Hxs Hr; cbn [cancel_each] in Hr; run_in Hr.
  { injection Hr as _ <-. split; [apply in_turn_refl|apply later_refl]. }
  destruct (cancel clock uuid x stale_worker s) as [r1 s1] eqn:E.
  pose proof (cancel_in_turn p x _ s r1 s1 H ltac:(apply Hxs; left) E) as T.
  destruct (cancel_spec clock uuid t s x _ r1 s1 unique (core_accounting _ _ _ H) ltac:(apply Hxs; left) E)
    as (P & _ & _). pose proof (dp_evolves _ _ _ _ _ P) as Hev.
  destruct r1 as [[]|e]; [|by injection Hr as _ <-].
  eapply turns; [exact T|]. eapply IH; [|..|exact Hr].
  - eapply core_evolves; [done|apply P..].
  - intros q Hq. destruct (Hxs q ltac:(by right)) as [Hq'|Hq'].
    + destruct (ev_gone _ _ Hev q Hq'); eauto.
    + right. by apply (ev_settled _ _ Hev).
Qed.

Lemma reclaim_in_turn p id epoch s r s' :
  core uuid t s -> workers s !! id = Some epoch ->
  reclaimWorker clock uuid id epoch s = (r, s') -> in_turn p s s' /\ later s s'.
Proof.
  intros H Hw Hr. destruct (reclaimWorker_spec clock uuid t unique id epoch s r s' H Hw Hr)
    as (_ & _ & _ & _ & r1 & s1 & Hc & Hq & Ho & Hh).
  eapply turns; [|by apply quiet]. eapply cancel_each_in_turn; [done| |exact Hc].
  intros x Hx. apply list_elem_of_filter in Hx as [_ Hx]. by left.
Qed.

Lemma given_back_quiet p addr l s :
  in_turn p s (given_back addr l s) /\ later s (given_back addr l s).
Proof.
  unfold given_back. set (id := attemptId (lessee l)). cbv zeta.
  set (s1 := update_attempt _ _ _).
  destruct (delete_attempt_same id (recomputeReservation id s1)) as (_ & Hq & _ & Ho).
  assert (queue (recomputeReservation id s1) = queue s /\
          outbox (recomputeReservation id s1) = outbox s) as [Hq1 Ho1].
  { unfold recomputeReservation. by destruct (attempts s1 !! id). }
  apply quiet; [congruence..|]. intros k Hk. apply delete_attempt_holds in Hk.
  assert (holds_lease s1 k) as (a & Ha & Hh).
  { revert Hk. unfold recomputeReservation. destruct (attempts s1 !! id); [|done].
    intros (c & Hc & Hh). bcbn.
    apply lookup_alter_Some in Hc as [(<- & b & Hb & ->)|[_ Hc]]; by eexists. }
  unfold s1 in Ha. bcbn. apply lookup_alter_Some in Ha as [(<- & b & Hb & ->)|[_ Ha]]; [|by eexists].
  exists b. split; [done|]. intros Hb'. apply Hh. bcbn. by rewrite Hb', delete_empty.
Qed.

Lemma release_lease_in_turn p who lid tok s r s' :
  core uuid t s -> release_lease clock uuid who lid tok s = (r, s') ->
  in_turn p s s' /\ later s s'.
Proof.
  intros H Hr. destruct (authenticatedLease who lid tok s) as [r1 s1] eqn:E.
  pose proof (authenticatedLease_spec _ _ _ _ _ _ E) as [-> Hok].
  destruct r1 as [[addr l]|e].
  - destruct (Hok addr l eq_refl) as [Hl Hh].
    destruct (given_back_spec uuid t s lid addr l H Hl Hh) as (Hrel & Hc & _).
    rewrite (release_lease_run clock uuid _ _ _ _ _ _ E Hrel) in Hr.
    eapply turns; [apply given_back_quiet|]. eapply drain_in_turn; [apply Hc|exact Hr].
  - unfold release_lease in Hr. unfold mbind, method_bind in Hr. rewrite E in Hr.
    injection Hr as _ <-. split; [apply in_turn_refl|apply later_refl].
Qed.

Lemma acquire_in_turn p o s r s' :
  wf uuid t s -> acquire clock uuid o s = (r, s') -> in_turn p s s'.
Proof.
  intros [H _] Hr. unfold acquire, now in Hr. run_in Hr.
  destruct (assertIdentity _ s) as [[[]|] s0] eqn:Ei;
    apply assertIdentity_spec in Ei as [-> Hid]; [|injection Hr as _ <-; apply in_turn_refl].
  destruct (Hid eq_refl) as [_ Hwk].
  destruct (normalizeVector _ _) as [want|] eqn:En; [|injection Hr as _ <-; apply in_turn_refl].
  apply normalizeVector_Ok in En.
  destruct (negb _); [injection Hr as _ <-; apply in_turn_refl|].
  destruct (bool_decide _); [injection Hr as _ <-; apply in_turn_refl|].
  set (s1 := set_ticks (S (ticks s)) s) in *.
  assert (in_turn p s s1 /\ later s s1) as T1 by by apply quiet.
  destruct (num_leb _ _); [by injection Hr as _ <-; apply T1|].
  destruct (attempt_of (owner o) s1) as [r2 s2] eqn:Ea.
  destruct (accounting_attempt_of uuid t s1 _ _ _ (accounting_tick _ _ _ _ (core_accounting _ _ _ H)) Hwk Ea)
    as [Hacc2 Hatt].
  destruct (attempt_of_same _ _ _ _ Ea) as (Hev & Hq & Hset & Hout & Hus & Hh).
  assert (in_turn p s s2 /\ later s s2) as T2.
  { eapply turns; [exact T1|]. by apply quiet. }
  destruct r2 as [[]|]; [|by injection Hr as _ <-; apply T2]. destruct (Hatt eq_refl) as (a & Ha & Hown).
  destruct (_ && fits s2 want) eqn:Enow.
  - (* nobody waits *)
    breflect. intros pre ((post & Hqs) & _). exfalso.
    match goal with H : length (queue s2) = 0%nat |- _ => rewrite Hq in H; cbn in H; rewrite Hqs, length_app in H; cbn in H; lia end.
  - destruct (maxQueued _ <=? _) eqn:Efull.
    + injection Hr as _ <-. destruct (delete_attempt_same (attemptId (owner o)) s2) as (_ & Hq3 & _ & Ho3).
      eapply turns; [exact T2|]. apply quiet; [done..|]. apply delete_attempt_holds.
    + breflect.
      match type of Hr with context [drain clock uuid ?x] => set (s3 := x) in * end.
      assert (accounting uuid t s3) as H3.
      { apply accounting_tick.
        refine (accounting_enqueue uuid t s2 {| number_of := sequence s2 + 1; claimant := owner o;
          demand := want; deadline := until o; abortable := _ |} a Hacc2 Ha Hown _ eq_refl _ _ Efull).
        - by rewrite (ev_config _ _ Hev).
        - rewrite (ev_sequence _ _ Hev). apply (core_sequence _ _ _ H).
        - intros n. rewrite (ev_sequence _ _ Hev), Hset. intros ?%(core_settled _ _ _ H). cbn. lia. }
      assert (in_turn p s s3) as T3.
      { eapply in_turn_quiet; [unfold s3; bcbn; by rewrite Hq|unfold s3; bcbn; by rewrite Hout|].
        intros k (b & Hb & Hb'). unfold s3 in Hb. bcbn. apply (Hh k).
        apply lookup_alter_Some in Hb as [(<- & c & Hc & ->)|[_ Hb]]; by eexists. }
      destruct (drain clock uuid s3) as [r4 s4] eqn:Ed.
      assert (in_turn p s3 s4 /\ later s3 s4) as [T4 L4] by by eapply drain_in_turn.
      assert (in_turn p s s4) as T by by eapply in_turn_trans.
      destruct r4 as [[]|e]; injection Hr as _ <-; [done|].
      destruct (refused_in_turn p (sequence s2 + 1) e s4) as [T5 L5]. by eapply in_turn_trans.
Qed.

(** The order every operation and callback keeps. *)
Lemma step_in_turn p s s' : wf uuid t s -> step clock uuid s s' -> in_turn p s s'.
Proof.
  intros Hwf Hs. pose proof (proj1 Hwf) as H.
  destruct Hs as [w s r s' E|w s r s' E|o s r s' E|x s r s' Hx E|x s r s' Hx E|h g s r s' E|h s r s' E].
  - unfold registerWorker, assertRun in E. run_in E.
    destruct (guard_or _ _) as [[]|]; [|injection E as _ <-; apply in_turn_refl].
    destruct (assertWorker _ _) as [u|] eqn:Ew; [|injection E as _ <-; apply in_turn_refl].
    apply assertWorker_epoch in Ew.
    destruct (match highestEpoch s !! _ with Some _ => _ | None => _ end);
      [injection E as _ <-; apply in_turn_refl|].
    destruct (workers s !! workerId w) as [e|] eqn:Hw; [|by injection E as _ <-; apply quiet].
    destruct (reclaimWorker _ _ _ _ s) as [r1 s1] eqn:Er.
    pose proof (reclaim_in_turn p _ _ _ _ _ H Hw Er) as T1.
    apply (reclaimWorker_spec clock uuid t unique) in Er as (H1 & _ & _ & Hno & _); [|done|done].
    destruct r1 as [[]|]; [|by injection E as _ <-; apply T1].
    pose proof (core_accounting _ _ _ (registered_core uuid t w s1 H1 Ew (Hno eq_refl))) as Hacc.
    eapply turns; [exact T1|]. eapply turns; [|exact (drain_turn p _ _ _ Hacc E)]. by apply quiet.
  - unfold disconnectWorker, assertRun in E. run_in E.
    destruct (guard_or _ _) as [[]|]; [|injection E as _ <-; apply in_turn_refl].
    destruct (workers s !! workerId w) as [e|] eqn:Hw; [|injection E as _ <-; apply in_turn_refl].
    destruct (same_number e _) eqn:He; [|injection E as _ <-; apply in_turn_refl].
    apply same_number_eq in He as ->.
    destruct (reclaimWorker _ _ _ _ s) as [r1 s1] eqn:Er.
    pose proof (reclaim_in_turn p _ _ _ _ _ H Hw Er) as T1.
    apply (reclaimWorker_spec clock uuid t unique) in Er as (H1 & _ & _ & Hno & _); [|done|done].
    destruct r1 as [[]|]; [|by injection E as _ <-; apply T1].
    pose proof (core_accounting _ _ _ (unregistered_core uuid t w s1 H1 (Hno eq_refl))) as Hacc.
    eapply turns; [exact T1|]. eapply turns; [|exact (drain_turn p _ _ _ Hacc E)]. by apply quiet.
  - by eapply acquire_in_turn.
  - eapply cancel_in_turn; eauto.
  - unfold onAbort in E. destruct (abortable x); [eapply cancel_in_turn; eauto|].
    injection E as _ <-. apply in_turn_refl.
  - unfold attach in E. run_in E. destruct (heap s !! h) as [l|]; [|injection E as _ <-; apply in_turn_refl].
    unfold attach_lease in E. run_in E.
    destruct (authenticatedLease _ _ _ s) as [[[addr l1]|e] s1] eqn:El;
      apply authenticatedLease_spec in El as [-> _]; [|injection E as _ <-; apply in_turn_refl].
    destruct (checkAttachments l1 g); injection E as _ <-; [by apply quiet|apply in_turn_refl].
  - unfold release in E. run_in E. destruct (heap s !! h) as [l|]; [|injection E as _ <-; apply in_turn_refl].
    destruct (releasePromise l); [injection E as _ <-; apply in_turn_refl|].
    destruct (release_lease _ _ _ _ _ s) as [r1 s1] eqn:El. injection E as <- <-.
    eapply turns; [by eapply release_lease_in_turn|by apply quiet].
Qed.
End Order.

(** ** The live leases *)

(** The amount of a resource all live leases hold. *)
Definition leased (s : Broker) (r : ResourceClass) : Z := msum (lease_amount (heap s) r) (leases s).

Lemma leases_partition (f : nat -> Z) (m : gmap jstring AttemptState) (L : gmap jstring nat) :
  (forall lid addr, L !! lid = Some addr <->
     exists k a, m !! k = Some a /\ held a !! lid = Some addr) ->
  (forall k a k' a' lid addr addr', m !! k = Some a -> m !! k' = Some a' ->
     held a !! lid = Some addr -> held a' !! lid = Some addr' -> k = k') ->
  msum f L = msum (fun a => msum f (held a)) m.
Proof.
  revert L. induction m as [|k a m Hk IH] using map_ind; intros L HL Hdis.
  - assert (L = ∅) as ->; [|by rewrite !msum_empty].
    apply map_empty. intros lid. destruct (L !! lid) as [addr|] eqn:E; [|done].
    apply HL in E as (k & a & E & _). by rewrite lookup_empty in E.
  - rewrite msum_insert_new by done.
    assert (held a ⊆ L) as Hsub.
    { apply map_subseteq_spec. intros lid addr Hl. apply HL. exists k, a. by rewrite lookup_insert_eq. }
    rewrite <- (map_difference_union _ _ Hsub), msum_union by (by apply map_disjoint_difference_r1).
    f_equal. apply IH.
    + intros lid addr. rewrite lookup_difference_Some, HL. split.
      * intros [(j & b & Hb & Hl) Hn].
        apply lookup_insert_Some in Hb as [[<- <-]|[_ Hb]]; [congruence|eauto].
      * intros (j & b & Hb & Hl). split; [exists j, b; rewrite lookup_insert_ne by congruence; done|].
        destruct (held a !! lid) as [x|] eqn:E; [|done]. exfalso.
        assert (k = j); [|congruence]. eapply Hdis; [| |exact E|exact Hl].
        -- apply lookup_insert_eq.
        -- rewrite lookup_insert_ne by congruence. done.
    + intros j b j' b' lid addr addr' Hb Hb'. apply Hdis; rewrite lookup_insert_ne by congruence; done.
Qed.

Lemma leased_attempts uuid t s r :
  accounting uuid t s -> leased s r = msum (fun a => held_amount (heap s) a r) (attempts s).
Proof.
  intros H. apply leases_partition.
  - intros lid addr. split; [apply (acc_lease _ _ _ H)|].
    intros (k & a & Ha & Hl). by destruct (acc_held _ _ _ H _ _ _ _ Ha Hl) as [? _].
  - intros k a k' a' lid addr addr' Ha Ha' Hl Hl'.
    by destruct (held_once uuid t s k a k' a' lid addr addr' H Ha Ha' Hl Hl').
Qed.

Lemma msum_rel (t : bool) (f g : AttemptState -> Z) (m : gmap jstring AttemptState) :
  (forall k a, m !! k = Some a -> rel t (f a) (g a)) -> rel t (msum f m) (msum g m).
Proof.
  induction m as [|k a m Hk IH] using map_ind; intros Hr; [rewrite !msum_empty; apply rel_refl|].
  rewrite !msum_insert_new by done. pose proof (Hr k a (lookup_insert_eq m k a)).
  assert (rel t (msum f m) (msum g m)) as Hm.
  { apply IH. intros j b Hb. apply (Hr j). by rewrite lookup_insert_ne by congruence. }
  destruct t; cbn in *; lia.
Qed.

Lemma leased_used uuid t s r : accounting uuid t s -> rel t (leased s r) (used s r).
Proof.
  intros H. rewrite (leased_attempts uuid t s r H). pose proof (acc_used _ _ _ H r) as Hu.
  assert (rel t (msum (fun a => held_amount (heap s) a r) (attempts s))
                (msum (fun a => reservation a r) (attempts s))) as Hm.
  { apply msum_rel. intros k a Ha. by apply (acc_reservation _ _ _ H k). }
  destruct t; cbn in *; lia.
Qed.

(** ** The promises *)

Section Promises.
Context (clock : nat -> number) (uuid : nat -> jstring).

(** C3 Whatever the interleaving of operations, deadlines and aborts, and even
    when the UUID source repeats itself, the broker never commits more of a
    resource than the host has: the live leases together hold at most what
    [#used] records, and [#used] is at most the capacity. *)
Theorem broker_never_overcommits s r :
  reached clock uuid s -> 0 <= leased s r <= used s r /\ used s r <= capacities (config s) r.
Proof.
  intros Hr. destruct (reached_wf clock uuid false ltac:(done) s Hr) as [[Hacc _ _ _ _] _].
  pose proof (leased_used uuid false s r Hacc) as Hl. pose proof (acc_bound _ _ _ Hacc r).
  split; [|done]. split; [|done]. apply msum_nonneg. intros. by eapply lease_amount_nonneg.
Qed.

Context (unique : forall i j, uuid i = uuid j -> i = j).

(** C23 With a UUID source that never repeats, the books are exact: [#used] is
    the sum of the live leases, no more, and the reservation of every attempt
    is the exact sum of the leases it holds. *)
Theorem broker_books_exact s r :
  reached clock uuid s ->
  used s r = leased s r /\
  (forall k a, attempts s !! k = Some a -> reservation a r = held_amount (heap s) a r).
Proof.
  intros Hr. destruct (reached_wf clock uuid true ltac:(done) s Hr) as [[Hacc _ _ _ _] _].
  split; [symmetry; apply (leased_used uuid true s r Hacc)|].
  intros k a Ha. symmetry. apply (acc_reservation _ _ _ Hacc k a r Ha).
Qed.

(** C29 With a UUID source that never repeats, the broker is work conserving: in
    every reachable state the oldest waiting request does not fit in what is free,
    and no waiting request of an attempt that already holds a lease does.  (A source
    that repeats can make a grant fail after its amounts were booked.) *)
Theorem broker_work_conserving s :
  (forall i j, uuid i = uuid j -> i = j) -> reached clock uuid s ->
  (forall p, head (queue s) = Some p -> fits s (demand p) = false) /\
  (forall p, p ∈ queue s -> holds_lease s (attemptId (claimant p)) -> fits s (demand p) = false).
Proof.
  intros Hu Hr. destruct (reached_wf clock uuid true (fun _ => Hu) s Hr) as [_ Hd].
  by apply drained_iff, Hd.
Qed.

(** Every acquisition that had to wait is answered exactly once: each
    sequence number ever issued is either still in the queue, at one position
    and with its promise pending, or it has left the queue and its promise is
    settled.  The queue never exceeds its configured bound. *)
Theorem broker_answers_each_request s n :
  reached clock uuid s -> 0 < n <= sequence s ->
  NoDup (number_of <$> queue s) /\ Z.of_nat (length (queue s)) <= maxQueued (config s) /\
  (outbox s !! n = None <-> n ∈ number_of <$> queue s).
Proof.
  intros Hr Hn. destruct (reached_wf clock uuid true ltac:(done) s Hr) as [H _].
  pose proof (core_accounting _ _ _ H) as Hacc.
  split_and!; [apply Hacc|apply Hacc|]. split.
  - intros Hnone. destruct (core_numbers _ _ _ H n Hn) as [Hs|(p & Hp & <-)].
    + apply (core_answered _ _ _ H eq_refl) in Hs as [v Hv]. congruence.
    + by apply list_elem_of_fmap_2.
  - intros (p & -> & Hp)%list_elem_of_fmap. apply eq_None_not_Some. intros Hs.
    apply (core_answered _ _ _ H eq_refl) in Hs. by apply (acc_number _ _ _ Hacc p Hp).
Qed.

(** Disconnecting the current epoch of a worker reclaims everything: after
    the call the worker is gone, none of its requests waits and none of its
    attempts and leases is left. *)
Theorem disconnect_reclaims_everything w e s r s' :
  reached clock uuid s -> runId w = brokerRun (config s) ->
  workers s !! workerId w = Some e -> same_number e (workerEpoch w) = true ->
  disconnectWorker clock uuid w s = (r, s') ->
  r = Ok tt /\ workers s' !! workerId w = None /\
  (forall p, p ∈ queue s' -> workerId (worker (claimant p)) <> workerId w) /\
  (forall k a, attempts s' !! k = Some a -> workerId (worker (identity a)) <> workerId w) /\
  (forall lid addr l, leases s' !! lid = Some addr -> heap s' !! addr = Some l ->
     workerId (worker (lessee l)) <> workerId w).
Proof.
  intros Hr Hrun Hw He Hd.
  destruct (reached_wf clock uuid true ltac:(done) s Hr) as [H _].
  assert (wf uuid true s') as [H' _].
  { eapply (disconnectWorker_wf clock uuid true); [done|by eapply (reached_wf clock uuid)|exact Hd]. }
  pose proof (core_accounting _ _ _ H') as Hacc'.
  assert (r = Ok tt /\ workers s' !! workerId w = None) as [-> Hnone].
  { unfold disconnectWorker, assertRun in Hd. run_in Hd.
    unfold guard_or in Hd. rewrite bool_decide_eq_true_2, Hw, He in Hd by done. cbv beta iota in Hd.
    apply same_number_eq in He as ->.
    destruct (reclaimWorker _ _ _ _ s) as [r1 s1] eqn:E.
    apply (reclaimWorker_spec clock uuid true ltac:(done)) in E as (H1 & _ & Htot & Hno & _); [|done|done].
    specialize (Htot eq_refl) as ->. specialize (Hno eq_refl).
    destruct (drain_spec clock uuid true _ _ _ ltac:(done)
      (core_accounting _ _ _ (unregistered_core uuid true w s1 H1 Hno)) Hd) as [P _].
    split; [by apply P|]. rewrite (ev_workers _ _ (dp_evolves _ _ _ _ _ P)). bcbn. apply lookup_delete_eq. }
  assert (forall k a, attempts s' !! k = Some a -> workerId (worker (identity a)) <> workerId w) as Hatt.
  { intros k a Ha Heq. pose proof (acc_owner _ _ _ Hacc' k a Ha). congruence. }
  split_and!; try done.
  - intros p Hp. destruct (acc_queue _ _ _ Hacc' p Hp) as (a & Ha & <-). by eapply Hatt.
  - intros lid addr l Hl Hh. destruct (acc_lease _ _ _ Hacc' lid addr Hl) as (k & a & Ha & Hheld).
    destruct (acc_held _ _ _ Hacc' _ _ _ _ Ha Hheld) as (_ & l' & Hl' & _ & Hle & _).
    rewrite Hh in Hl'. injection Hl' as <-. rewrite Hle. by eapply Hatt.
Qed.

(** C36 With a UUID source that never repeats, first come, first served for attempts
    that hold nothing: when the first waiting request of such an attempt is granted, during any operation or
    callback, every request that was ahead of it in the queue has left the
    queue by then, so a stream of small requests cannot overtake a large one. *)
Theorem broker_first_come_first_served s s' i p addr :
  reached clock uuid s -> step clock uuid s s' ->
  queue s !! i = Some p -> ~ holds_lease s (attemptId (claimant p)) ->
  (forall j q, (j < i)%nat -> queue s !! j = Some q ->
     attemptId (claimant q) <> attemptId (claimant p)) ->
  outbox s' !! number_of p = Some (Granted addr) ->
  forall j q, (j < i)%nat -> queue s !! j = Some q -> q ∉ queue s'.
Proof.
  intros Hr Hs Hp Hno Hfirst Hout j q Hj Hq.
  pose proof (reached_wf clock uuid true ltac:(done) s Hr) as Hwf. pose proof (proj1 Hwf) as H.
  assert (behind p (take i (queue s)) s) as Hb.
  { split_and!; [|intros x Hx|done|].
    - exists (drop (S i) (queue s)). by rewrite take_drop_middle.
    - apply list_elem_of_lookup in Hx as [k Hk]. apply lookup_take_Some in Hk as [Hk Hlt]. eauto.
    - apply eq_None_not_Some. intros Ho. apply (core_answered _ _ _ H eq_refl) in Ho.
      apply list_elem_of_lookup_2 in Hp. by apply (acc_number _ _ _ (core_accounting _ _ _ H) p Hp). }
  destruct (step_in_turn clock uuid true ltac:(done) p s s' Hwf Hs _ Hb)
    as [(pre & (_ & _ & _ & Hnone) & _)|[(e & He)|Hgone]]; [congruence..|].
  apply Hgone. apply list_elem_of_lookup. exists j. by apply lookup_take_Some.
Qed.

(** Lease records are never dropped. *)
Definition heap_grows (s s' : Broker) : Prop :=
  forall addr, is_Some (heap s !! addr) -> is_Some (heap s' !! addr).

Lemma heap_grows_refl s : heap_grows s s.
Proof. by intros a. Qed.

Lemma heap_cancelled p e s : heap (cancelled p e s) = heap s.
Proof.
  unfold cancelled, unqueue, settle_promise, deleteAttemptIfEmpty, settlePending.
  repeat (case_match; bcbn; try done).
Qed.

Lemma heap_grant id want s r s' : grant uuid id want s = (r, s') -> heap_grows s s'.
Proof.
  intros Hg addr Ha. unfold grant in Hg. run_in Hg. fold (bumped id want s) in Hg.
  unfold freshLeaseId in Hg.
  destruct (fresh_loop uuid 8 (bumped id want s)) as [[lid|e] s1] eqn:Hf;
    apply fresh_loop_spec in Hf as (d & _ & -> & _); [|by injection Hg as _ <-].
  unfold randomUUID in Hg. cbv beta iota in Hg.
  destruct (attempts _ !! id); [|by injection Hg as _ <-]. injection Hg as _ <-.
  unfold bumped. bcbn. destruct (decide (allocated s = addr)) as [->|Hne].
  - rewrite lookup_insert_eq. eauto.
  - by rewrite lookup_insert_ne.
Qed.

Lemma heap_drain fuel s r s' : drain_loop clock uuid fuel s = (r, s') -> heap_grows s s'.
Proof.
  revert s r s'. induction fuel as [|fuel IH]; intros s r s' Hd.
  { injection Hd as _ <-; apply heap_grows_refl. }
  cbn [drain_loop] in Hd. unfold now in Hd. run_in Hd.
  destruct (queue s !! _) as [x|]; [|injection Hd as _ <-; apply heap_grows_refl].
  assert (forall e s1 r1 s2, cancel_with (drain_loop clock uuid fuel) x e s1 = (r1, s2) ->
          heap_grows s1 s2) as Hc.
  { intros e s1 r1 s2 Hc. destruct (decide (number_of x ∈ settled s1)) as [Hs|Hs].
    - rewrite cancel_with_settled in Hc by done. injection Hc as _ <-; apply heap_grows_refl.
    - rewrite cancel_with_queued in Hc by done. apply IH in Hc. unfold heap_grows in *.
      by rewrite heap_cancelled in Hc. }
  destruct (num_leb _ _).
  - destruct (cancel_with _ _ _ _) as [[[]|e] s2] eqn:E; apply Hc in E;
      [|injection Hd as _ <-; exact E]. apply IH in Hd. unfold heap_grows in *. eauto.
  - destruct (attempts s !! _).
    + destruct (negb _); [by injection Hd as _ <-; intros x0 Ha|].
      destruct (grant _ _ _ _) as [[addr|e] s2] eqn:Eg; apply heap_grant in Eg.
      * apply IH in Hd. intros x0 Ha. apply Hd. unfold settle_promise.
        destruct (outbox s2 !! _); apply Eg; unfold settlePending; by case_bool_decide.
      * injection Hd as _ <-. intros x0 Ha. apply Eg. unfold settlePending. by case_bool_decide.
    + destruct (cancel_with _ _ _ _) as [[[]|e] s2] eqn:E; apply Hc in E;
        [|injection Hd as _ <-; exact E]. apply IH in Hd. unfold heap_grows in *. eauto.
Qed.

Lemma heap_release who lid tok s r s' :
  release_lease clock uuid who lid tok s = (r, s') -> heap_grows s s'.
Proof.
  intros Hr. unfold release_lease in Hr. run_in Hr.
  destruct (authenticatedLease who lid tok s) as [[[addr l]|e] s1] eqn:E;
    apply authenticatedLease_spec in E as [-> _]; [|injection Hr as _ <-; apply heap_grows_refl].
  destruct (released l); [injection Hr as _ <-; apply heap_grows_refl|]. apply heap_drain in Hr.
  intros x0 Ha. apply Hr. clear Hr. unfold deleteAttemptIfEmpty, recomputeReservation.
  repeat (case_match; bcbn); by apply lookup_alter_is_Some.
Qed.

(** Releasing is idempotent: a second call on the same lease handle returns
    what the first one returned and changes nothing. *)
Theorem release_idempotent handle s r s' :
  is_Some (heap s !! handle) -> release clock uuid handle s = (r, s') ->
  release clock uuid handle s' = (r, s').
Proof.
  intros [l Hl] Hr. unfold release in Hr. run_in Hr. rewrite Hl in Hr.
  destruct (releasePromise l) as [r0|] eqn:Hp.
  - injection Hr as <- <-. unfold release. unfold mbind, method_bind, get, lift.
    by rewrite Hl, Hp.
  - destruct (release_lease _ _ _ _ _ s) as [r1 s1] eqn:E. injection Hr as <- <-.
    destruct (heap_release _ _ _ _ _ _ E handle ltac:(eauto)) as [l1 Hl1].
    unfold release. unfold mbind, method_bind, get, lift. bcbn.
    rewrite lookup_alter_eq, Hl1. reflexivity.
Qed.
End Promises.

(** ** Runs of the broker *)

Section Runs.
Context (clock : nat -> number) (uuid : nat -> jstring).

(** The calls a client makes; each is a [step]. *)
Inductive call : Type :=
| Register (w : WorkerIdentity)
| Disconnect (w : WorkerIdentity)
| Acquire (o : AcquireResourcesOptions)
| Release (handle : nat).

Definition perform (s : Broker) (c : call) : Broker :=
  match c with
  | Register w => snd (registerWorker clock uuid w s)
  | Disconnect w => snd (disconnectWorker clock uuid w s)
  | Acquire o => snd (acquire clock uuid o s)
  | Release h => snd (release clock uuid h s)
  end.

Lemma perform_step s c : step clock uuid s (perform s c).
Proof.
  destruct c as [w|w|o|h]; cbn.
  - by apply (step_register _ _ w _ (registerWorker clock uuid w s).1), surjective_pairing.
  - by apply (step_disconnect _ _ w _ (disconnectWorker clock uuid w s).1), surjective_pairing.
  - by apply (step_acquire _ _ o _ (acquire clock uuid o s).1), surjective_pairing.
  - by apply (step_release _ _ h _ (release clock uuid h s).1), surjective_pairing.
Qed.

Lemma performed s cs : reached clock uuid s -> reached clock uuid (foldl perform s cs).
Proof.
  revert s. induction cs as [|c cs IH]; intros s H; [done|].
  apply IH. eapply reachable_step; [exact H|apply perform_step].
Qed.
End Runs.

(** A host with two PTY sessions, a clock that counts and UUIDs that count. *)
Definition ticking (n : nat) : number := int (Z.of_nat n).
Definition counting (n : nat) : jstring := [Z.of_nat n].
Definition run1 : jstring := js "run".
Definition host : Broker :=
  match construct run1 {[class_name ptySession := int 2]} None with
  | Ok s => s
  | Err _ => mkBroker {| brokerRun := []; capacities := ZERO; maxQueued := 0 |}
               ∅ ∅ ∅ ∅ ∅ [] ZERO 0 ∅ ∅ 0 0 0
  end.
Definition worker1 : WorkerIdentity :=
  {| runId := run1; workerId := js "w"; workerEpoch := int 0 |}.
Definition ask (attempt : string) (sessions : Z) : call :=
  Acquire {| owner := {| worker := worker1; attemptId := js attempt |};
             requested := {[class_name ptySession := int sessions]};
             until := int 1000; signal := None |}.

(** [a] holds one session; [b] waits for both, [c] for one. *)
Definition contended : Broker :=
  foldl (perform ticking counting) host [Register worker1; ask "a" 1; ask "b" 2; ask "c" 1].

Lemma counting_unique i j : counting i = counting j -> i = j.
Proof. intros [= H]. lia. Qed.

Lemma host_reached : reached ticking counting host.
Proof.
  apply reachable_init. unfold initial. exists run1, {[class_name ptySession := int 2]}, None.
  vm_compute. reflexivity.
Qed.

Lemma contended_reached : reached ticking counting contended.
Proof. apply performed, host_reached. Qed.

Lemma broker_never_overcommits_witness :
  0 <= leased contended ptySession <= used contended ptySession /\
  used contended ptySession <= capacities (config contended) ptySession.
Proof. exact (broker_never_overcommits ticking counting contended ptySession contended_reached). Defined.

Lemma broker_books_exact_witness : used contended ptySession = leased contended ptySession.
Proof.
  exact (proj1 (broker_books_exact ticking counting counting_unique contended ptySession
                  contended_reached)).
Defined.

Lemma broker_work_conserving_witness :
  length (queue contended) = 2%nat /\
  forall p, head (queue contended) = Some p -> fits contended (demand p) = false.
Proof.
  split; [vm_compute; reflexivity|].
  exact (proj1 (broker_work_conserving ticking counting contended counting_unique contended_reached)).
Defined.

Lemma broker_answers_each_request_witness :
  outbox contended !! 2 = None <-> 2 ∈ number_of <$> queue contended.
Proof.
  refine (proj2 (proj2 (broker_answers_each_request ticking counting counting_unique contended 2
                          contended_reached _))).
  split; [lia|]. vm_compute. discriminate.
Defined.

Lemma disconnect_reclaims_everything_witness :
  (disconnectWorker ticking counting worker1 contended).1 = Ok tt.
Proof.
  refine (proj1 (disconnect_reclaims_everything ticking counting counting_unique worker1 (int 0)
    contended (disconnectWorker ticking counting worker1 contended).1
    (disconnectWorker ticking counting worker1 contended).2 contended_reached _ _ _ _)).
  - vm_compute. reflexivity.
  - vm_compute. reflexivity.
  - vm_compute. reflexivity.
  - apply surjective_pairing.
Defined.

Lemma release_idempotent_witness :
  release ticking counting 0 (release ticking counting 0 contended).2 =
  release ticking counting 0 contended.
Proof.
  rewrite (surjective_pairing (release ticking counting 0 contended)) at 2.
  refine (release_idempotent ticking counting 0 contended
            (release ticking counting 0 contended).1 _ _ _).
  - vm_compute. eexists. reflexivity.
  - apply surjective_pairing.
Defined.

(** [a] holds both sessions, [b] and then [c] wait for one each. *)
Definition busy : Broker :=
  foldl (perform ticking counting) host [Register worker1; ask "a" 2; ask "b" 1; ask "c" 1].
Definition waiting_c : PendingAcquire :=
  {| number_of := 2; claimant := {| worker := worker1; attemptId := js "c" |};
     demand := match queue busy !! 1%nat with Some p => demand p | None => ZERO end;
     deadline := int 1000; abortable := false |}.

Lemma holds_nothing s k :
  (forall a, attempts s !! k = Some a -> held a = ∅) -> ~ holds_lease s k.
Proof. intros H (a & Ha & Hh). eauto. Qed.

(** When [a] releases, [c] is granted, and by then [b] has left the queue. *)
Lemma broker_first_come_first_served_witness :
  length (queue busy) = 2%nat /\
  forall q, queue busy !! 0%nat = Some q -> q ∉ queue (perform ticking counting busy (Release 0)).
Proof.
  split; [vm_compute; reflexivity|]. intros q Hq.
  refine (broker_first_come_first_served ticking counting counting_unique busy
            (perform ticking counting busy (Release 0)) 1 waiting_c 2 _ _ _ _ _ _ 0%nat q _ Hq).
  - apply performed, host_reached.
  - apply perform_step.
  - vm_compute. reflexivity.
  - apply holds_nothing. intros a Ha. vm_compute in Ha. injection Ha as <-. reflexivity.
  - intros [|j] x Hj Hx; [|lia]. vm_compute in Hx. injection Hx as <-. vm_compute. discriminate.
  - vm_compute. reflexivity.
  - lia.
Defined.

(** ** Limits of the guarantees *)

(** With a UUID source stuck on one value, the second grant finds no lease id:
    the call throws, and the session it had already counted stays in use
    although no lease and no later release accounts for it. *)
Definition stuck (n : nat) : jstring := js "same".
Definition collided : Broker :=
  foldl (perform ticking stuck) host [Register worker1; ask "a" 1; ask "b" 1].

Example collision_leaks_capacity :
  used collided ptySession = 2 /\ leased collided ptySession = 1 /\
  used (perform ticking stuck collided (Release 0)) ptySession = 1 /\
  leased (perform ticking stuck collided (Release 0)) ptySession = 0.
Proof. split_and!; vm_compute; reflexivity. Qed.

(** Continuation priority does not exclude hold-and-wait: two attempts that
    hold one session each and both ask for a second one wait for each other. *)
Definition embraced : Broker :=
  foldl (perform ticking counting) host
    [Register worker1; ask "a" 1; ask "b" 1; ask "a" 1; ask "b" 1].

Example hold_and_wait_possible :
  length (queue embraced) = 2%nat /\ used embraced ptySession = 2 /\
  Forall (fun p => continues embraced p = false) (queue embraced) /\
  Forall (fun p => attempts embraced !! attemptId (claimant p) <> None) (queue embraced).
Proof.
  split_and!; [vm_compute; reflexivity..| |]; vm_compute; repeat constructor; discriminate.
Qed.
