(* ===== verification/ConPty.v ===== *)
(** * ConPTY control plane (packages/pty/src/windows-output-normalizer.ts and
    packages/protocol/src/conpty-host-rpc.ts)

    On Windows the pseudo-console host injects control sequences of its own
    into the child's output.  [ConPtyControlPlaneNormalizer] is a streaming
    transducer that removes exactly those, however the pipe cuts the stream.
    The cursor RPC and the response router decide which terminal replies belong
    to the host and which to the application. *)

From S2P Require Import Prelude JsText.

Local Open Scope Z_scope.

(** ** The normalizer *)

Definition ESC : Z := 27.
Definition DA1 : bytes := [ESC; 91; 99].
Definition WINDOW_DEICONIFY : bytes := [ESC; 91; 49; 116].
Definition WINDOW_ICONIFY : bytes := [ESC; 91; 50; 116].
Definition FOCUS_ON : bytes := [ESC; 91; 63; 49; 48; 48; 52; 104].
Definition FOCUS_OFF : bytes := [ESC; 91; 63; 49; 48; 48; 52; 108].
Definition WIN32_ON : bytes := [ESC; 91; 63; 57; 48; 48; 49; 104].
Definition WIN32_OFF : bytes := [ESC; 91; 63; 57; 48; 48; 49; 108].
Definition RIS : bytes := [ESC; 99].
Definition HOST_CURSOR_REQUEST_PREFIX : bytes := ESC :: js "]8488;twh-cpr-v1:q:".
Definition HOST_CURSOR_REQUEST_TOKEN_BYTES : nat := 32.
Definition HOST_CURSOR_REPLY_NAMESPACE : bytes := ESC :: js "]8488;twh-cpr-v1:r:".
Definition APPLICATION_REPLY_PREFIX : bytes := ESC :: js "]8488;twh-app-reply-v1:".
Definition OSC_TERMINATOR : bytes := [7].
Definition MAX_APPLICATION_REPLY_BYTES : Z := 4096.

Inductive ConPtyHostQuery : Type := primary_device_attributes.

Record Rewrite : Type := {
  input : bytes;
  output : bytes;
  hostQueries : list ConPtyHostQuery;
}.

Definition STARTUP_REWRITES : list Rewrite :=
  [{| input := DA1 ++ FOCUS_ON ++ WIN32_ON; output := DA1;
      hostQueries := [primary_device_attributes] |}].

Definition HOST_REWRITES : list Rewrite :=
  [{| input := FOCUS_OFF ++ FOCUS_ON; output := FOCUS_OFF; hostQueries := [] |};
   {| input := WIN32_OFF ++ WIN32_ON; output := WIN32_OFF; hostQueries := [] |};
   {| input := RIS ++ FOCUS_ON ++ WIN32_ON; output := RIS; hostQueries := [] |}].

(** The byte at an index of a buffer, [undefined] out of range. *)
Definition byte_is (b : bytes) (i : nat) (v : option Z) : bool := bool_decide (b !! i = v).

Definition hasPrefixAt (buf : bytes) (offset : nat) (pattern : bytes) : bool :=
  let available := Nat.min (length buf - offset) (length pattern) in
  forallb (fun i => byte_is buf (offset + i) (pattern !! i)) (seq 0 available).

Inductive StartupPassThrough : Type :=
| Complete (length : nat)
| Partial
| NoPass.

Definition is_hex (byte : Z) : bool :=
  (48 <=? byte) && (byte <=? 57) || (97 <=? byte) && (byte <=? 102).

Definition startupPassThrough (buf : bytes) (offset : nat) : StartupPassThrough :=
  match find (hasPrefixAt buf offset) [WINDOW_DEICONIFY; WINDOW_ICONIFY] with
  | Some fixed =>
      if (length buf - offset <? length fixed)%nat then Partial else Complete (length fixed)
  | None =>
      if negb (hasPrefixAt buf offset HOST_CURSOR_REQUEST_PREFIX) then NoPass
      else
        let remaining := (length buf - offset)%nat in
        if (remaining <? length HOST_CURSOR_REQUEST_PREFIX)%nat then Partial
        else
          let tokenStart := (offset + length HOST_CURSOR_REQUEST_PREFIX)%nat in
          let availableToken := Nat.min HOST_CURSOR_REQUEST_TOKEN_BYTES (length buf - tokenStart) in
          if negb (forallb (fun i => match buf !! (tokenStart + i)%nat with
                                     | Some b => is_hex b
                                     | None => false
                                     end) (seq 0 availableToken)) then NoPass
          else
            let total := (length HOST_CURSOR_REQUEST_PREFIX + HOST_CURSOR_REQUEST_TOKEN_BYTES + 1)%nat in
            if (remaining <? total)%nat then Partial
            else if byte_is buf (offset + total - 1) (Some 7) then Complete total
            else NoPass
  end.

(** The inner loop over the rewrites at one offset. *)
Inductive RewriteOutcome : Type :=
| Rewritten (r : Rewrite)
| AwaitingSuffix
| NoRewrite.

Fixpoint tryRewrites (buf : bytes) (offset : nat) (rewrites : list Rewrite) : RewriteOutcome :=
  match rewrites with
  | [] => NoRewrite
  | r :: rest =>
      if negb (hasPrefixAt buf offset (input r)) then tryRewrites buf offset rest
      else if (length buf - offset <? length (input r))%nat then AwaitingSuffix
      else Rewritten r
  end.

Record Normalizer : Type := {
  held_bytes : bytes;
  atStreamStart : bool;
  finished : bool;
}.

Definition newNormalizer : Normalizer :=
  {| held_bytes := []; atStreamStart := true; finished := false |}.

(** [input.subarray(from, to)] *)
Definition subarray (buf : bytes) (from to : nat) : bytes := take (to - from) (drop from buf).

(** [if (literalStart < offset) output.push(input.subarray(literalStart, offset))] *)
Definition pushLiteral (buf : bytes) (literalStart offset : nat) (out : list bytes) : list bytes :=
  if (literalStart <? offset)%nat then out ++ [subarray buf literalStart offset] else out.

(** The [while] loop of [push]: the pieces of output, the host queries reported,
    what is held back and [#atStreamStart].  Every turn that goes on advances
    [offset], so a turn per byte and one more are enough. *)
Fixpoint scanLoop (fuel : nat) (buf : bytes) (offset literalStart : nat) (atStart : bool)
    (out : list bytes) (queries : list ConPtyHostQuery) :
    list bytes * list ConPtyHostQuery * bytes * bool :=
  match fuel with
  | O => (out, queries, [], atStart)
  | S fuel =>
      if (length buf <=? offset)%nat then
        ((if (literalStart <? length buf)%nat then out ++ [drop literalStart buf] else out),
         queries, [], atStart)
      else
        match (if atStart then startupPassThrough buf offset else NoPass) with
        | Partial => (pushLiteral buf literalStart offset out, queries, drop offset buf, atStart)
        | Complete n =>
            scanLoop fuel buf (offset + n) (offset + n) atStart
              (pushLiteral buf literalStart offset out ++ [subarray buf offset (offset + n)]) queries
        | NoPass =>
            let rewrites := if atStart then STARTUP_REWRITES ++ HOST_REWRITES else HOST_REWRITES in
            match tryRewrites buf offset rewrites with
            | Rewritten r =>
                scanLoop fuel buf (offset + length (input r)) (offset + length (input r)) false
                  (pushLiteral buf literalStart offset out ++ [output r])
                  (queries ++ hostQueries r)
            | AwaitingSuffix =>
                (pushLiteral buf literalStart offset out, queries, drop offset buf, atStart)
            | NoRewrite => scanLoop fuel buf (offset + 1) literalStart false out queries
            end
        end
  end.

(** [push]; [None] is the throw after [finish]. *)
Definition push (n : Normalizer) (chunk : bytes) :
    option (bytes * list ConPtyHostQuery * Normalizer) :=
  if finished n then None
  else if (length chunk =? 0)%nat then Some ([], [], n)
  else
    let buf := if (length (held_bytes n) =? 0)%nat then chunk else held_bytes n ++ chunk in
    let '(out, queries, pending, atStart) :=
      scanLoop (S (length buf)) buf 0 0 (atStreamStart n) [] [] in
    Some (mjoin out, queries,
          {| held_bytes := pending; atStreamStart := atStart; finished := false |}).

Definition finish (n : Normalizer) : bytes * Normalizer :=
  if finished n then ([], n)
  else (held_bytes n,
        {| held_bytes := []; atStreamStart := atStreamStart n; finished := true |}).

(** A sequence of pushes. *)
Fixpoint pushes (n : Normalizer) (chunks : list bytes) :
    option (bytes * list ConPtyHostQuery * Normalizer) :=
  match chunks with
  | [] => Some ([], [], n)
  | c :: chunks =>
      '(o1, q1, n) ← push n c;
      '(o2, q2, n) ← pushes n chunks;
      Some (o1 ++ o2, q1 ++ q2, n)
  end.

(** ** The transducer the normalizer implements *)

(** What the next bytes of the stream are. *)
Inductive Token : Type :=
| Hold                                (** they could still become a host sequence *)
| Keep (n : nat)                      (** [n] bytes that pass unchanged *)
| Swap (r : Rewrite)                  (** a host sequence *)
| Byte.                               (** one byte of the child *)

Definition classify (atStart : bool) (rest : bytes) : Token :=
  match (if atStart then startupPassThrough rest 0 else NoPass) with
  | Partial => Hold
  | Complete n => Keep n
  | NoPass =>
      match tryRewrites rest 0 (if atStart then STARTUP_REWRITES ++ HOST_REWRITES else HOST_REWRITES) with
      | Rewritten r => Swap r
      | AwaitingSuffix => Hold
      | NoRewrite => Byte
      end
  end.

(** [reads atStart s out queries held atStart']: reading the stream [s] token by
    token emits [out], reports [queries] and ends holding [held]. *)
Inductive reads : bool -> bytes -> bytes -> list ConPtyHostQuery -> bytes -> bool -> Prop :=
| reads_end st : reads st [] [] [] [] st
| reads_hold st s : s <> [] -> classify st s = Hold -> reads st s [] [] s st
| reads_keep st s n out qs h st' : s <> [] -> classify st s = Keep n ->
    reads st (drop n s) out qs h st' -> reads st s (take n s ++ out) qs h st'
| reads_swap st s r out qs h st' : s <> [] -> classify st s = Swap r ->
    reads false (drop (length (input r)) s) out qs h st' ->
    reads st s (output r ++ out) (hostQueries r ++ qs) h st'
| reads_byte st b s out qs h st' : classify st (b :: s) = Byte ->
    reads false s out qs h st' -> reads st (b :: s) (b :: out) qs h st'.

(** ** Decisions are local and final *)

Lemma hasPrefixAt_spec buf off pat :
  hasPrefixAt buf off pat = true <->
  forall i, (i < length buf - off)%nat -> (i < length pat)%nat -> buf !! (off + i)%nat = pat !! i.
Proof.
  unfold hasPrefixAt, byte_is. rewrite forallb_forall. split.
  - intros H i Hi Hp. specialize (H i ltac:(apply in_seq; lia)). by apply bool_decide_eq_true in H.
  - intros H i Hi%in_seq. apply bool_decide_eq_true. apply H; lia.
Qed.

Lemma hasPrefixAt_drop buf off pat :
  hasPrefixAt buf off pat = hasPrefixAt (drop off buf) 0 pat.
Proof.
  apply eq_true_iff_eq. rewrite !hasPrefixAt_spec, length_drop.
  setoid_rewrite lookup_drop. by rewrite Nat.sub_0_r.
Qed.

(** A pattern that disagrees stays out, one that is complete stays in. *)
Lemma hasPrefixAt_grow s t pat :
  hasPrefixAt s 0 pat = false \/ (length pat <= length s)%nat ->
  hasPrefixAt (s ++ t) 0 pat = hasPrefixAt s 0 pat.
Proof.
  intros H. destruct (hasPrefixAt s 0 pat) eqn:E.
  - destruct H as [|Hlen]; [done|]. rewrite hasPrefixAt_spec in *. cbn in *.
    intros i _ Hi. rewrite lookup_app_l by lia. apply E; lia.
  - apply not_true_iff_false. intros H2. apply not_true_iff_false in E. apply E.
    rewrite hasPrefixAt_spec in *. cbn in *. intros i Hi Hp. rewrite <- (H2 i); [|rewrite length_app; lia|done].
    by rewrite lookup_app_l by lia.
Qed.

Lemma tryRewrites_drop buf off rs : tryRewrites buf off rs = tryRewrites (drop off buf) 0 rs.
Proof.
  induction rs as [|r rs IH]; cbn [tryRewrites]; [done|].
  rewrite hasPrefixAt_drop, IH, length_drop, Nat.sub_0_r. done.
Qed.

Lemma tryRewrites_grow s t rs :
  tryRewrites s 0 rs <> AwaitingSuffix -> tryRewrites (s ++ t) 0 rs = tryRewrites s 0 rs.
Proof.
  induction rs as [|r rs IH]; cbn [tryRewrites]; [done|]. rewrite !Nat.sub_0_r, length_app.
  destruct (hasPrefixAt s 0 (input r)) eqn:E; cbn [negb].
  - destruct (Nat.ltb_spec (length s) (length (input r))); [done|]. intros _.
    rewrite hasPrefixAt_grow, E by (by right). cbn [negb].
    destruct (Nat.ltb_spec (length s + length t) (length (input r))); [lia|done].
  - intros H. rewrite hasPrefixAt_grow, E by (by left). cbn [negb]. auto.
Qed.

Lemma startup_drop buf off :
  (off <= length buf)%nat -> startupPassThrough buf off = startupPassThrough (drop off buf) 0.
Proof.
  intros Hoff. unfold startupPassThrough. cbn [find].
  rewrite !(hasPrefixAt_drop buf off), !length_drop, !Nat.sub_0_r, !Nat.add_0_l.
  destruct (hasPrefixAt (drop off buf) 0 WINDOW_DEICONIFY); [done|].
  destruct (hasPrefixAt (drop off buf) 0 WINDOW_ICONIFY); [done|].
  destruct (hasPrefixAt _ _ _); [|done]. cbn [negb].
  destruct (_ <? _)%nat; [done|]. rewrite Nat.sub_add_distr.
  assert (forall k, forallb (fun i => match buf !! (off + length HOST_CURSOR_REQUEST_PREFIX + i)%nat with
            Some b => is_hex b | None => false end) (seq 0 k) =
          forallb (fun i => match drop off buf !! (length HOST_CURSOR_REQUEST_PREFIX + i)%nat with
            Some b => is_hex b | None => false end) (seq 0 k)) as Hhex.
  { intros k. apply forallb_pointwise. intros i _. by rewrite lookup_drop, Nat.add_assoc. }
  rewrite Hhex. destruct (forallb _ _); [|done]. cbn [negb].
  destruct (_ <? _)%nat; [done|]. unfold byte_is. rewrite lookup_drop.
  replace (off + (length HOST_CURSOR_REQUEST_PREFIX + HOST_CURSOR_REQUEST_TOKEN_BYTES + 1 - 1))%nat
    with (off + (length HOST_CURSOR_REQUEST_PREFIX + HOST_CURSOR_REQUEST_TOKEN_BYTES + 1) - 1)%nat by lia.
  done.
Qed.

Lemma startup_grow s t :
  startupPassThrough s 0 <> Partial -> startupPassThrough (s ++ t) 0 = startupPassThrough s 0.
Proof.
  unfold startupPassThrough. cbn [find]. rewrite !Nat.sub_0_r, !Nat.add_0_l, length_app.
  assert (forall pat, (length s <? length pat)%nat = false ->
            hasPrefixAt (s ++ t) 0 pat = hasPrefixAt s 0 pat) as Hlong.
  { intros pat Hl%Nat.ltb_ge. apply hasPrefixAt_grow. by right. }
  destruct (hasPrefixAt s 0 WINDOW_DEICONIFY) eqn:E1.
  { destruct (length s <? length WINDOW_DEICONIFY)%nat eqn:El; [done|]. intros _.
    rewrite Hlong, E1 by done. apply Nat.ltb_ge in El.
    destruct (Nat.ltb_spec (length s + length t) (length WINDOW_DEICONIFY)); [lia|done]. }
  rewrite hasPrefixAt_grow, E1 by (by left).
  destruct (hasPrefixAt s 0 WINDOW_ICONIFY) eqn:E2.
  { destruct (length s <? length WINDOW_ICONIFY)%nat eqn:El; [done|]. intros _.
    rewrite Hlong, E2 by done. apply Nat.ltb_ge in El.
    destruct (Nat.ltb_spec (length s + length t) (length WINDOW_ICONIFY)); [lia|done]. }
  rewrite hasPrefixAt_grow, E2 by (by left).
  destruct (hasPrefixAt s 0 HOST_CURSOR_REQUEST_PREFIX) eqn:E3; cbn [negb].
  2:{ intros _. rewrite hasPrefixAt_grow, E3 by (by left). done. }
  destruct (length s <? length HOST_CURSOR_REQUEST_PREFIX)%nat eqn:El; [done|].
  rewrite Hlong, E3 by done. cbn [negb]. apply Nat.ltb_ge in El.
  destruct (Nat.ltb_spec (length s + length t) (length HOST_CURSOR_REQUEST_PREFIX)); [lia|].
  set (P := length HOST_CURSOR_REQUEST_PREFIX) in *. set (T := HOST_CURSOR_REQUEST_TOKEN_BYTES).
  assert (forall k, (P + k <= length s)%nat ->
    forallb (fun i => match (s ++ t) !! (P + i)%nat with Some b => is_hex b | None => false end) (seq 0 k) =
    forallb (fun i => match s !! (P + i)%nat with Some b => is_hex b | None => false end) (seq 0 k)) as Hsame.
  { intros k Hk. apply forallb_pointwise. intros i Hi%in_seq. by rewrite lookup_app_l by lia. }
  assert (Nat.min T (length s - P) <= Nat.min T (length s + length t - P))%nat as Hmin by lia.
  destruct (forallb _ (seq 0 (Nat.min T (length s - P)))) eqn:Eh; cbn [negb].
  - destruct (Nat.ltb_spec (length s) (P + T + 1)); [done|].
    rewrite !Nat.min_l by lia. rewrite Nat.min_l in Eh by lia. rewrite Hsame, Eh by lia. cbn [negb].
    destruct (Nat.ltb_spec (length s + length t) (P + T + 1)); [lia|]. intros _.
    unfold byte_is. by rewrite lookup_app_l by lia.
  - intros _. assert (forallb (fun i => match (s ++ t) !! (P + i)%nat with
      Some b => is_hex b | None => false end) (seq 0 (Nat.min T (length s + length t - P))) = false) as ->; [|done].
    replace (Nat.min T (length s + length t - P))%nat
      with (Nat.min T (length s - P) + (Nat.min T (length s + length t - P) - Nat.min T (length s - P)))%nat by lia.
    rewrite seq_app, forallb_app, Hsame, Eh by lia. done.
Qed.

(** Once a token is decided, more input does not change the decision. *)
Lemma classify_grow st s t : classify st s <> Hold -> classify st (s ++ t) = classify st s.
Proof.
  unfold classify. destruct st.
  - destruct (startupPassThrough s 0) eqn:E; [| |].
    + intros _. by rewrite startup_grow, E by (by rewrite E).
    + done.
    + rewrite startup_grow, E by (by rewrite E). intros H. rewrite tryRewrites_grow; [done|].
      intros Hn. by rewrite Hn in H.
  - intros H. rewrite tryRewrites_grow; [done|]. intros Hn. by rewrite Hn in H.
Qed.

(** What a decided token says about the bytes. *)
Lemma tryRewrites_Rewritten s rs r :
  tryRewrites s 0 rs = Rewritten r -> r ∈ rs /\ exists s', s = input r ++ s'.
Proof.
  induction rs as [|x rs IH]; cbn [tryRewrites]; [done|]. rewrite Nat.sub_0_r.
  destruct (hasPrefixAt s 0 (input x)) eqn:E; cbn [negb].
  - destruct (Nat.ltb_spec (length s) (length (input x))) as [|Hle]; [done|]. intros [= <-].
    split; [left|]. exists (drop (length (input x)) s).
    rewrite <- (take_drop (length (input x)) s) at 1. f_equal.
    apply list_eq. intros i. rewrite hasPrefixAt_spec in E. cbn in E.
    destruct (decide (i < length (input x))%nat) as [Hi|Hi].
    + rewrite lookup_take_lt by done. apply E; lia.
    + rewrite (lookup_ge_None_2 (input x)) by lia. apply lookup_ge_None_2. rewrite length_take. lia.
  - intros H. destruct (IH H) as [? ?]. split; [by right|done].
Qed.

Lemma tryRewrites_Await s rs m :
  tryRewrites s 0 rs = AwaitingSuffix -> (forall r, r ∈ rs -> (length (input r) <= m)%nat) ->
  (length s < m)%nat.
Proof.
  intros H Hm. induction rs as [|x rs IH]; cbn [tryRewrites] in H; [done|]. rewrite Nat.sub_0_r in H.
  pose proof (Hm x ltac:(left)).
  destruct (hasPrefixAt s 0 (input x)); cbn [negb] in H.
  - destruct (Nat.ltb_spec (length s) (length (input x))); [lia|done].
  - apply IH; [done|]. intros r Hr. apply Hm. by right.
Qed.

Lemma startup_Complete s n :
  startupPassThrough s 0 = Complete n -> (0 < n <= length s)%nat.
Proof.
  unfold startupPassThrough. cbn [find]. rewrite !Nat.sub_0_r, !Nat.add_0_l.
  destruct (hasPrefixAt s 0 WINDOW_DEICONIFY).
  { destruct (Nat.ltb_spec (length s) (length WINDOW_DEICONIFY)); intros [= <-]. cbn in *. lia. }
  destruct (hasPrefixAt s 0 WINDOW_ICONIFY).
  { destruct (Nat.ltb_spec (length s) (length WINDOW_ICONIFY)); intros [= <-]. cbn in *. lia. }
  destruct (hasPrefixAt _ _ _); cbn [negb]; [|done].
  destruct (_ <? _)%nat; [done|]. destruct (negb _); [done|].
  destruct (Nat.ltb_spec (length s) (length HOST_CURSOR_REQUEST_PREFIX + HOST_CURSOR_REQUEST_TOKEN_BYTES + 1)) as [|Hle];
    [done|]. destruct (byte_is _ _ _); [|done]. intros [= <-]. cbn in *. lia.
Qed.

Lemma startup_Partial s : startupPassThrough s 0 = Partial -> (length s < 53)%nat.
Proof.
  unfold startupPassThrough. cbn [find]. rewrite !Nat.sub_0_r, !Nat.add_0_l.
  destruct (hasPrefixAt s 0 WINDOW_DEICONIFY).
  { destruct (Nat.ltb_spec (length s) (length WINDOW_DEICONIFY)); [cbn in *; lia|done]. }
  destruct (hasPrefixAt s 0 WINDOW_ICONIFY).
  { destruct (Nat.ltb_spec (length s) (length WINDOW_ICONIFY)); [cbn in *; lia|done]. }
  destruct (hasPrefixAt _ _ _); cbn [negb]; [|done].
  destruct (Nat.ltb_spec (length s) (length HOST_CURSOR_REQUEST_PREFIX)); [cbn in *; lia|].
  destruct (negb _); [done|].
  destruct (Nat.ltb_spec (length s) (length HOST_CURSOR_REQUEST_PREFIX + HOST_CURSOR_REQUEST_TOKEN_BYTES + 1));
    [cbn in *; lia|]. by destruct (byte_is _ _ _).
Qed.

Definition ALL_REWRITES : list Rewrite := STARTUP_REWRITES ++ HOST_REWRITES.

Lemma rewrites_of (st : bool) r :
  r ∈ (if st then STARTUP_REWRITES ++ HOST_REWRITES else HOST_REWRITES) -> r ∈ ALL_REWRITES.
Proof. unfold ALL_REWRITES. destruct st; [done|]. intros H. apply elem_of_app. by right. Qed.

Lemma rewrite_lengths r : r ∈ ALL_REWRITES -> (0 < length (input r) <= 19)%nat.
Proof.
  intros H. assert (Forall (fun r => 0 < length (input r) <= 19)%nat ALL_REWRITES) as Hf.
  { repeat constructor; cbn; lia. }
  rewrite Forall_forall in Hf. auto.
Qed.

Lemma classify_Swap st s r :
  classify st s = Swap r -> r ∈ ALL_REWRITES /\ exists s', s = input r ++ s'.
Proof.
  unfold classify. destruct (if st then _ else _) eqn:E0; [done|done|].
  destruct (tryRewrites _ _ _) eqn:E; [|done|done]. intros [= <-].
  apply tryRewrites_Rewritten in E as [Hin Hs]. eauto using rewrites_of.
Qed.

Lemma classify_Keep st s n : classify st s = Keep n -> (0 < n <= length s)%nat.
Proof.
  unfold classify. destruct (if st then _ else _) eqn:E0; [|done|].
  - intros [= <-]. destruct st; [by apply startup_Complete|done].
  - by destruct (tryRewrites _ _ _).
Qed.

Lemma classify_Hold st s : classify st s = Hold -> (length s < 53)%nat.
Proof.
  unfold classify. destruct (if st then _ else _) eqn:E0; [done| |].
  - intros _. destruct st; [by apply startup_Partial|done].
  - destruct (tryRewrites _ _ _) eqn:E; [done| |done]. intros _.
    apply tryRewrites_Await with (m := 19%nat) in E; [lia|].
    intros r Hr%rewrites_of. by apply rewrite_lengths.
Qed.

(** ** The loop implements the transducer *)

Lemma reads_total st s : exists out qs h st', reads st s out qs h st'.
Proof.
  remember (length s) as n eqn:Hn. revert st s Hn.
  induction (lt_wf n) as [n _ IH]. intros st s ->.
  destruct s as [|b s]; [do 4 eexists; constructor|].
  destruct (classify st (b :: s)) as [|n|r|] eqn:E.
  - do 4 eexists. by apply reads_hold.
  - pose proof (classify_Keep _ _ _ E) as Hn.
    destruct (IH (length (drop n (b :: s))) ltac:(rewrite length_drop; cbn in *; lia) st _ eq_refl)
      as (out & qs & h & st' & H). do 4 eexists. by eapply reads_keep.
  - destruct (classify_Swap _ _ _ E) as [Hr (s' & Hs)]. pose proof (rewrite_lengths r Hr).
    destruct (IH (length (drop (length (input r)) (b :: s)))
                ltac:(rewrite length_drop; cbn [length] in *; lia) false _ eq_refl)
      as (out & qs & h & st' & H'). do 4 eexists. by eapply reads_swap.
  - destruct (IH (length s) ltac:(cbn; lia) false s eq_refl) as (out & qs & h & st' & H).
    do 4 eexists. by eapply reads_byte.
Qed.

Lemma reads_functional st s o q h st' o2 q2 h2 st2 :
  reads st s o q h st' -> reads st s o2 q2 h2 st2 -> o = o2 /\ q = q2 /\ h = h2 /\ st' = st2.
Proof.
  intros H. revert o2 q2 h2 st2.
  induction H as [st|st s Hne E|st s n o q h st' Hne E H IH|st s r o q h st' Hne E H IH|st b s o q h st' E H IH];
    intros o2 q2 h2 st2 H2; inversion H2; subst; try done; try congruence.
  - match goal with H : classify st s = Keep ?m |- _ => assert (m = n) as -> by congruence end.
    edestruct IH as (-> & -> & -> & ->); [eassumption|done].
  - match goal with H : classify st s = Swap ?m |- _ => assert (m = r) as -> by congruence end.
    edestruct IH as (-> & -> & -> & ->); [eassumption|done].
  - edestruct IH as (-> & -> & -> & ->); [eassumption|done].
Qed.

(** Reading on after a pause: what was held comes first. *)
Lemma reads_app st s o q h st' t o2 q2 h2 st2 :
  reads st s o q h st' -> reads st' (h ++ t) o2 q2 h2 st2 ->
  reads st (s ++ t) (o ++ o2) (q ++ q2) h2 st2.
Proof.
  intros H. revert o2 q2 h2 st2.
  induction H as [st|st s Hne E|st s n o q h st' Hne E H IH|st s r o q h st' Hne E H IH|st b s o q h st' E H IH];
    intros o2 q2 h2 st2 H2; cbn [app] in *; [done|done| | |].
  - pose proof (classify_Keep _ _ _ E). rewrite <- (assoc_L (++)).
    rewrite <- (take_app_le s t n) by lia. eapply reads_keep; [by destruct s| |].
    + by rewrite classify_grow, E by (by rewrite E).
    + rewrite drop_app_le by lia. auto.
  - destruct (classify_Swap _ _ _ E) as [_ (s' & Hs)]. rewrite <- !(assoc_L (++)).
    eapply reads_swap; [by destruct s| |].
    + by rewrite classify_grow, E by (by rewrite E).
    + rewrite drop_app_le by (rewrite Hs, length_app; lia). auto.
  - apply reads_byte; [|auto]. change (b :: s ++ t) with ((b :: s) ++ t).
    by rewrite classify_grow, E by (by rewrite E).
Qed.

Lemma reads_held st s o q h st' : reads st s o q h st' -> (length h <= 52)%nat.
Proof. induction 1; cbn; try lia. apply classify_Hold in H0. lia. Qed.

Lemma pushLiteral_join buf l o out :
  (l <= o <= length buf)%nat -> mjoin (pushLiteral buf l o out) = mjoin out ++ subarray buf l o.
Proof.
  intros H. unfold pushLiteral. destruct (Nat.ltb_spec l o).
  - rewrite join_app. cbn. by rewrite app_nil_r.
  - unfold subarray. replace (o - l)%nat with 0%nat by lia. by rewrite take_0, app_nil_r.
Qed.

Lemma subarray_snoc buf l o b :
  (l <= o)%nat -> buf !! o = Some b -> subarray buf l (o + 1) = subarray buf l o ++ [b].
Proof.
  intros Hl Hb. unfold subarray. replace (o + 1 - l)%nat with (S (o - l)) by lia.
  apply take_S_r. rewrite lookup_drop. by replace (l + (o - l))%nat with o by lia.
Qed.

Lemma scanLoop_reads fuel buf off lit st out qs :
  (length buf - off < fuel)%nat -> (lit <= off <= length buf)%nat ->
  exists o q h st' out' , scanLoop fuel buf off lit st out qs = (out', qs ++ q, h, st') /\
    mjoin out' = mjoin out ++ subarray buf lit off ++ o /\ reads st (drop off buf) o q h st'.
Proof.
  revert off lit st out qs. induction fuel as [|fuel IH]; intros off lit st out qs Hf Hoff; [lia|].
  cbn [scanLoop]. destruct (Nat.leb_spec (length buf) off) as [Hend|Hlt].
  { assert (off = length buf) as -> by lia. rewrite drop_all.
    exists [], [], [], st. eexists. split_and!; [by rewrite app_nil_r| |constructor].
    rewrite app_nil_r. pose proof (pushLiteral_join buf lit (length buf) out ltac:(lia)) as <-.
    unfold pushLiteral, subarray. destruct (_ <? _)%nat; [|done].
    by rewrite take_ge by (rewrite length_drop; lia). }
  assert (drop off buf <> []) as Hne.
  { intros E%(f_equal length). rewrite length_drop in E. cbn in E. lia. }
  assert (classify st (drop off buf) =
    match (if st then startupPassThrough buf off else NoPass) with
    | Partial => Hold | Complete n => Keep n
    | NoPass => match tryRewrites buf off (if st then STARTUP_REWRITES ++ HOST_REWRITES else HOST_REWRITES) with
                | Rewritten r => Swap r | AwaitingSuffix => Hold | NoRewrite => Byte end
    end) as Hc.
  { unfold classify. by rewrite (tryRewrites_drop buf off), (startup_drop buf off) by lia. }
  destruct (if st then startupPassThrough buf off else NoPass) as [n| |] eqn:E.
  - pose proof (classify_Keep _ _ _ Hc) as Hn. rewrite length_drop in Hn.
    destruct (IH (off + n)%nat (off + n)%nat st
      (pushLiteral buf lit off out ++ [subarray buf off (off + n)]) qs ltac:(lia) ltac:(lia))
      as (o & q & h & st' & out' & -> & Hj & Hr).
    exists (take n (drop off buf) ++ o), q, h, st', out'. split_and!; [done| |].
    + rewrite Hj, join_app, pushLiteral_join by lia. cbn. rewrite app_nil_r, <- !(assoc_L (++)).
      unfold subarray. replace (off + n - off)%nat with n by lia. rewrite Nat.sub_diag, take_0. done.
    + eapply reads_keep; [done|done|]. by rewrite drop_drop.
  - do 5 eexists. split_and!; [by rewrite app_nil_r|by rewrite pushLiteral_join, app_nil_r by lia|].
    by apply reads_hold.
  - destruct (tryRewrites buf off _) as [r| |] eqn:Et.
    + destruct (classify_Swap _ _ _ Hc) as [Hr (s' & Hs)].
      pose proof (rewrite_lengths r Hr). apply (f_equal length) in Hs. rewrite length_drop, length_app in Hs.
      destruct (IH (off + length (input r))%nat (off + length (input r))%nat false
        (pushLiteral buf lit off out ++ [output r]) (qs ++ hostQueries r) ltac:(lia) ltac:(lia))
        as (o & q & h & st' & out' & -> & Hj & Hrd).
      exists (output r ++ o), (hostQueries r ++ q), h, st', out'.
      split_and!; [by rewrite (assoc_L (++))| |].
      * rewrite Hj, join_app, pushLiteral_join by lia. cbn. rewrite app_nil_r, <- !(assoc_L (++)).
        unfold subarray. by rewrite Nat.sub_diag, take_0.
      * eapply reads_swap; [done|done|]. by rewrite drop_drop.
    + do 5 eexists. split_and!; [by rewrite app_nil_r|by rewrite pushLiteral_join, app_nil_r by lia|].
      by apply reads_hold.
    + destruct (lookup_lt_is_Some_2 buf off Hlt) as [b Hb].
      destruct (IH (off + 1)%nat lit false out qs ltac:(lia) ltac:(lia))
        as (o & q & h & st' & out' & -> & Hj & Hrd).
      exists (b :: o), q, h, st', out'. split_and!; [done| |].
      * rewrite Hj, (subarray_snoc _ _ _ b) by (lia || done). by rewrite <- (assoc_L (++)).
      * rewrite (drop_S _ b) by done. apply reads_byte.
        -- by rewrite <- (drop_S _ b).
        -- by rewrite Nat.add_1_r in Hrd.
Qed.

Lemma push_reads n chunk :
  finished n = false ->
  reads (atStreamStart n) (held_bytes n) [] [] (held_bytes n) (atStreamStart n) ->
  exists o q n', push n chunk = Some (o, q, n') /\ finished n' = false /\
    reads (atStreamStart n) (held_bytes n ++ chunk) o q (held_bytes n') (atStreamStart n').
Proof.
  intros Hfin Hheld. unfold push. rewrite Hfin.
  destruct (Nat.eqb_spec (length chunk) 0) as [H0|H0].
  { apply nil_length_inv in H0 as ->. do 3 eexists. split_and!; [done|done|]. by rewrite app_nil_r. }
  assert ((if (length (held_bytes n) =? 0)%nat then chunk else held_bytes n ++ chunk) =
          held_bytes n ++ chunk) as ->.
  { destruct (Nat.eqb_spec (length (held_bytes n)) 0) as [H1|]; [|done].
    by apply nil_length_inv in H1 as ->. }
  destruct (scanLoop_reads (S (length (held_bytes n ++ chunk))) (held_bytes n ++ chunk) 0 0
              (atStreamStart n) [] [] ltac:(lia) ltac:(lia)) as (o & q & h & st' & out' & -> & Hj & Hr).
  do 3 eexists. split_and!; [done|done|]. cbn in *. by rewrite Hj.
Qed.

(** The held bytes of a state in which a push ended are held again. *)
Lemma reads_rest st s o q h st' : reads st s o q h st' -> reads st' h [] [] h st'.
Proof. induction 1; eauto; [constructor|by apply reads_hold]. Qed.

Lemma pushes_reads n chunks :
  finished n = false ->
  reads (atStreamStart n) (held_bytes n) [] [] (held_bytes n) (atStreamStart n) ->
  exists o q n', pushes n chunks = Some (o, q, n') /\ finished n' = false /\
    reads (atStreamStart n) (held_bytes n ++ mjoin chunks) o q (held_bytes n') (atStreamStart n').
Proof.
  revert n. induction chunks as [|c chunks IH]; intros n Hf Hh.
  { do 3 eexists. split_and!; [done|done|]. cbn. by rewrite app_nil_r. }
  destruct (push_reads n c Hf Hh) as (o1 & q1 & n1 & Hp & Hf1 & Hr1).
  destruct (IH n1 Hf1 (reads_rest _ _ _ _ _ _ Hr1)) as (o2 & q2 & n2 & Hp2 & Hf2 & Hr2).
  exists (o1 ++ o2), (q1 ++ q2), n2. cbn [pushes]. rewrite Hp. cbn. rewrite Hp2. split_and!; [done|done|].
  rewrite (assoc_L (++)). by eapply reads_app.
Qed.

(** C31 However the pipe cuts the output stream, a fresh normalizer accepts it
    and emits the same bytes, reports the same host queries in the same order
    and ends in the same state. *)
Theorem normalizer_chunking_irrelevant chunks1 chunks2 :
  mjoin chunks1 = mjoin chunks2 ->
  pushes newNormalizer chunks1 = pushes newNormalizer chunks2 /\
  is_Some (pushes newNormalizer chunks1).
Proof.
  intros Hj.
  destruct (pushes_reads newNormalizer chunks1 eq_refl (reads_end true)) as (o1 & q1 & n1 & -> & F1 & R1).
  destruct (pushes_reads newNormalizer chunks2 eq_refl (reads_end true)) as (o2 & q2 & n2 & -> & F2 & R2).
  cbn in R1, R2. rewrite Hj in R1.
  destruct (reads_functional _ _ _ _ _ _ _ _ _ _ R1 R2) as (-> & -> & Hh & Hst).
  split; [|eauto]. destruct n1, n2; cbn in *. by subst.
Qed.

Lemma normalizer_chunking_irrelevant_witness :
  pushes newNormalizer [DA1 ++ FOCUS_ON; WIN32_ON ++ [104]] =
  pushes newNormalizer [[ESC]; [91]; 99 :: FOCUS_ON ++ WIN32_ON ++ [104]].
Proof.
  exact (proj1 (normalizer_chunking_irrelevant [DA1 ++ FOCUS_ON; WIN32_ON ++ [104]]
    [[ESC]; [91]; 99 :: FOCUS_ON ++ WIN32_ON ++ [104]] eq_refl)).
Defined.

(** [cleaned s o]: [o] is [s] with some non-overlapping occurrences of the
    host's sequences replaced by what the child sent; every other byte is kept. *)
Inductive cleaned : bytes -> bytes -> Prop :=
| cleaned_nil : cleaned [] []
| cleaned_byte b s o : cleaned s o -> cleaned (b :: s) (b :: o)
| cleaned_host r s o : r ∈ ALL_REWRITES -> cleaned s o -> cleaned (input r ++ s) (output r ++ o).

Lemma cleaned_verbatim s1 s o : cleaned s o -> cleaned (s1 ++ s) (s1 ++ o).
Proof. intros H. induction s1; [done|]. by constructor. Qed.

Lemma reads_cleaned st s o q h st' : reads st s o q h st' -> cleaned s (o ++ h).
Proof.
  induction 1 as [st|st s Hne E|st s n o q h st' Hne E H IH|st s r o q h st' Hne E H IH|st b s o q h st' E H IH].
  - constructor.
  - pose proof (cleaned_verbatim s [] [] cleaned_nil) as Hc. by rewrite !app_nil_r in Hc.
  - rewrite <- (take_drop n s) at 1. rewrite <- (assoc_L (++)). by apply cleaned_verbatim.
  - destruct (classify_Swap _ _ _ E) as [Hr (s' & ->)]. rewrite drop_app_length in IH.
    rewrite <- (assoc_L (++)). by constructor.
  - cbn. by constructor.
Qed.

(** Nothing of the child's output is lost, invented or reordered: at end of
    stream, what was emitted followed by what [finish] releases is the input
    with occurrences of the four host-injected sequences reduced to the child's
    own bytes, everything else verbatim; while the stream runs at most 52 bytes
    are withheld. *)
Theorem normalizer_transparent chunks :
  exists o q n, pushes newNormalizer chunks = Some (o, q, n) /\
    cleaned (mjoin chunks) (o ++ fst (finish n)) /\ (length (held_bytes n) <= 52)%nat /\
    push (snd (finish n)) [0] = None.
Proof.
  destruct (pushes_reads newNormalizer chunks eq_refl (reads_end true)) as (o & q & n & -> & F & R).
  exists o, q, n. cbn in R. unfold finish, push. rewrite F.
  split_and!; [done|by eapply reads_cleaned|by eapply reads_held|done].
Qed.

(** ** Host sequences are removed *)

Lemma hasPrefixAt_first b s c pat : b <> c -> hasPrefixAt (b :: s) 0 (c :: pat) = false.
Proof.
  intros Hne. apply not_true_iff_false. rewrite hasPrefixAt_spec. intros H.
  specialize (H 0%nat ltac:(cbn; lia) ltac:(cbn; lia)). cbn in H. congruence.
Qed.

Lemma classify_plain st b s : b <> ESC -> classify st (b :: s) = Byte.
Proof.
  intros Hb. unfold classify, startupPassThrough, STARTUP_REWRITES, HOST_REWRITES,
    WINDOW_DEICONIFY, WINDOW_ICONIFY, HOST_CURSOR_REQUEST_PREFIX, DA1, FOCUS_OFF, WIN32_OFF, RIS.
  cbn [find]. rewrite !hasPrefixAt_first by done. cbn [negb].
  destruct st; cbn [app tryRewrites input]; by rewrite !hasPrefixAt_first by done.
Qed.

Lemma reads_plain st p s o q h st' :
  p <> [] -> ESC ∉ p -> reads false s o q h st' -> reads st (p ++ s) (p ++ o) q h st'.
Proof.
  intros Hne Hp H. revert st Hne. induction p as [|b p IH]; intros st Hne; [done|].
  apply not_elem_of_cons in Hp as [Hb Hp]. cbn. apply reads_byte; [by apply classify_plain|].
  destruct p as [|b' p]; [done|]. by apply IH.
Qed.

(** A mode the host re-enables after the child reset it is hidden wherever it
    occurs, however the stream is cut: after any stretch of plain output, each
    reinjected sequence comes out as the child's reset alone, and the output
    goes on with what the rest of the stream yields. *)
Theorem normalizer_hides_reinjection chunks p r s :
  p <> [] -> ESC ∉ p -> r ∈ HOST_REWRITES -> mjoin chunks = p ++ input r ++ s ->
  exists o q n, pushes newNormalizer chunks = Some (p ++ output r ++ o, q, n) /\
    reads false s o q (held_bytes n) (atStreamStart n).
Proof.
  intros Hne Hp Hr Hj.
  destruct (pushes_reads newNormalizer chunks eq_refl (reads_end true)) as (o1 & q1 & n & E & F & R).
  cbn in R. rewrite Hj in R. destruct (reads_total false s) as (o & q & h & st' & Hs).
  assert (reads false (input r ++ s) (output r ++ o) q h st') as Hsw.
  { assert (hostQueries r = [] /\ classify false (input r) = Swap r /\ input r <> []) as (Hq & Hc & Hi).
    { repeat (apply elem_of_cons in Hr as [->|Hr]; [vm_compute; split_and!; done|]).
      by apply elem_of_nil in Hr. }
    rewrite <- (app_nil_l q), <- Hq at 1. apply reads_swap; [by destruct (input r)| |by rewrite drop_app_length].
    by rewrite classify_grow, Hc by (by rewrite Hc). }
  pose proof (reads_plain true p _ _ _ _ _ Hne Hp Hsw) as H2.
  destruct (reads_functional _ _ _ _ _ _ _ _ _ _ R H2) as (-> & -> & Hh & Hst).
  exists o, q, n. split; [done|]. by rewrite Hh, Hst.
Qed.

Lemma normalizer_hides_reinjection_witness :
  exists o q n, pushes newNormalizer [js "ok" ++ FOCUS_OFF; FOCUS_ON ++ js "!"] =
    Some (js "ok" ++ FOCUS_OFF ++ o, q, n) /\ reads false (js "!") o q (held_bytes n) (atStreamStart n).
Proof.
  apply (normalizer_hides_reinjection [js "ok" ++ FOCUS_OFF; FOCUS_ON ++ js "!"] (js "ok")
    {| input := FOCUS_OFF ++ FOCUS_ON; output := FOCUS_OFF; hostQueries := [] |} (js "!")).
  - discriminate.
  - vm_compute. intros H. repeat (apply elem_of_cons in H as [H|H]; [discriminate|]). by apply elem_of_nil in H.
  - left.
  - reflexivity.
Defined.

(** ** The cursor RPC *)

Definition MAX_COORDINATE : Z := 32768.

Record ConPtyHostCursorResponse : Type := {
  token : jstring;
  row : Z;
  column : Z;
}.

Definition is_token (t : jstring) : bool := (length t =? 32)%nat && forallb is_hex t.

(** A literal prefix of a pattern. *)
Definition literal (p s : jstring) : option jstring :=
  if decide (take (length p) s = p) then Some (drop (length p) s) else None.

(** [^twh-cpr-v1:q:([0-9a-f]{32})$] *)
Definition parseConPtyHostCursorRequest (payload : jstring) : option jstring :=
  rest ← literal (js "twh-cpr-v1:q:") payload;
  if is_token rest then Some rest else None.

Definition REPLY_PREFIX : jstring := ESC :: js "]8488;twh-cpr-v1:r:".

(** [encodeConPtyHostCursorResponse]; [None] is a throw. *)
Definition valid_coordinate (v : number) : option Z :=
  match to_safe_integer v with
  | Some z => if (z <? 1) || (MAX_COORDINATE <? z) then None else Some z
  | None => None
  end.

Definition encodeConPtyHostCursorResponse (request : jstring) (r c : number) : option jstring :=
  if negb (is_token request) then None
  else
    r ← valid_coordinate r;
    c ← valid_coordinate c;
    Some (REPLY_PREFIX ++ request ++ js ":" ++ decimal r ++ js ":" ++ decimal c ++ [7]).

(** [([1-9][0-9]{0,4})] followed by something that is not a digit: the number
    and the rest of the text. *)
Definition coordinate (s : jstring) : option (Z * jstring) :=
  let '(ds, rest) := digits_span s in
  match ds with
  | d :: _ => if (d =? 48) || (5 <? Z.of_nat (length ds)) then None
              else Some (parse_decimal ds, rest)
  | [] => None
  end.

(** Decoding replaces no byte by an ASCII character it was not, and only ASCII
    text can match, so the pattern is run on the bytes. *)
Definition parseConPtyHostCursorResponse (text : jstring) : option ConPtyHostCursorResponse :=
  rest ← literal REPLY_PREFIX text;
  let t := take 32 rest in
  if negb (is_token t) then None
  else
    rest ← literal (js ":") (drop 32 rest);
    '(r, rest) ← coordinate rest;
    rest ← literal (js ":") rest;
    '(c, rest) ← coordinate rest;
    if negb (bool_decide (rest = [7])) then None
    else if (MAX_COORDINATE <? r) || (MAX_COORDINATE <? c) then None
    else Some {| token := t; row := r; column := c |}.

(** ** Reply ownership *)

Inductive ConPtyTerminalResponseRoute : Type := host_control | application_envelope.

Definition hex_digit (n : Z) : Z := if n <? 10 then 48 + n else 87 + n.
Definition hex_byte (b : Z) : jstring := [hex_digit (b / 16); hex_digit (b mod 16)].

(** [None] is a throw. *)
Definition encodeConPtyApplicationTerminalResponse (data : bytes) : option bytes :=
  if (length data =? 0)%nat || (MAX_APPLICATION_REPLY_BYTES <? Z.of_nat (length data)) then None
  else if negb (forallb (fun b => b <=? 127) data) then None
  else Some (APPLICATION_REPLY_PREFIX ++
             (decimal (Z.of_nat (length data)) ++ js ":" ++ mjoin (hex_byte <$> data)) ++
             OSC_TERMINATOR).

Definition encode (route : ConPtyTerminalResponseRoute) (data : bytes) : option bytes :=
  match route with
  | application_envelope => encodeConPtyApplicationTerminalResponse data
  | host_control => Some data
  end.

Inductive InputKind : Type := key | mouse | paste | raw.
Definition encodeConPtyApplicationInput (data : bytes) (kind : InputKind) : bytes :=
  match kind, data with
  | key, [27] => ESC :: js "[27;1;27;1;0;1_"
  | _, _ => data
  end.

(** [response.toString('ascii')] clears the high bit of every byte. *)
Definition isHostResponse (response : bytes) : bool :=
  match (fun b => Z.land b 127) <$> response with
  | 27 :: 91 :: 63 :: rest =>
      match rev rest with
      | 99 :: middle => forallb (fun c => is_digit c || (c =? 59)) middle
      | _ => false
      end
  | _ => false
  end.

(** The router's state is the queue of host queries; [None] is a throw. *)
Definition noteHostQuery (qs : list ConPtyHostQuery) (q : ConPtyHostQuery) : list ConPtyHostQuery :=
  qs ++ [q].
Definition route (qs : list ConPtyHostQuery) (response : bytes) :
    option (ConPtyTerminalResponseRoute * list ConPtyHostQuery) :=
  if bool_decide (parseConPtyHostCursorResponse response <> None) then Some (host_control, qs)
  else if bool_decide (take (length HOST_CURSOR_REPLY_NAMESPACE) response = HOST_CURSOR_REPLY_NAMESPACE)
  then Some (host_control, qs)
  else
    match qs with
    | [] => Some (application_envelope, [])
    | _ :: qs' => if isHostResponse response then Some (host_control, qs') else None
    end.

(** ** Replies *)

Lemma literal_app p s : literal p (p ++ s) = Some s.
Proof.
  unfold literal. rewrite take_app_length, decide_True by done. by rewrite drop_app_length.
Qed.
Lemma literal_Some p s rest : literal p s = Some rest <-> s = p ++ rest.
Proof.
  split; [|intros ->; apply literal_app]. unfold literal. destruct (decide _) as [E|]; [|done].
  intros [= <-]. rewrite <- E at 1. by rewrite take_drop.
Qed.

Lemma coordinate_decimal z c rest :
  1 <= z <= MAX_COORDINATE -> is_digit c = false ->
  coordinate (decimal z ++ c :: rest) = Some (z, c :: rest).
Proof.
  intros Hz Hc. unfold MAX_COORDINATE in Hz.
  destruct (decimal_spec z ltac:(lia)) as (Hd & Hp & d & t & Ht & H0).
  pose proof (decimal_from_length (S (Z.to_nat z)) z 4 ltac:(lia) ltac:(cbn; lia)) as Hlen.
  change (decimal_from (S (Z.to_nat z)) z) with (decimal z) in Hlen.
  unfold coordinate. rewrite digits_span_app by done. rewrite Hp. rewrite Ht in *.
  specialize (H0 ltac:(lia)). destruct (Z.eqb_spec d 48); [done|].
  destruct (Z.ltb_spec 5 (Z.of_nat (length (d :: t)))); [lia|done].
Qed.

Lemma coordinate_Some s z rest :
  coordinate s = Some (z, rest) -> s = decimal z ++ rest /\ 1 <= z.
Proof.
  unfold coordinate. destruct (digits_span s) as [ds r] eqn:E.
  apply digits_span_spec in E as (-> & Hd & _). destruct ds as [|d ds]; [done|].
  destruct (Z.eqb_spec d 48); [done|]. destruct (5 <? _); [done|]. intros [= <- <-].
  rewrite decimal_parse by done. split; [done|].
  pose proof (parse_decimal_pos d ds Hd n). pose proof (Z.pow_pos_nonneg 10 (Z.of_nat (length ds))). lia.
Qed.

Lemma valid_coordinate_Some v z :
  valid_coordinate v = Some z <-> v = int z /\ 1 <= z <= MAX_COORDINATE.
Proof.
  unfold valid_coordinate. split.
  - destruct (to_safe_integer v) as [x|] eqn:E; [|done]. apply to_safe_integer_Some in E as [-> _].
    destruct (_ || _) eqn:Eb; [done|]. intros [= <-]. breflect. split; [done|lia].
  - intros [-> Hz]. assert (to_safe_integer (int z) = Some z) as ->.
    { apply to_safe_integer_Some. split; [done|]. unfold MAX_COORDINATE, max_safe in *. lia. }
    destruct (Z.ltb_spec z 1); [lia|]. destruct (Z.ltb_spec MAX_COORDINATE z); [lia|done].
Qed.

Lemma is_token_length t : is_token t = true -> length t = 32%nat.
Proof. unfold is_token. intros H. by breflect. Qed.

(** The cursor reply grammar is exact: parsing accepts a text precisely when
    it is the encoding of the token and one-based coordinates it returns, so
    encode then parse is the identity, no other spelling (a leading zero, a
    missing terminator, trailing bytes) is accepted, and the coordinates are in
    range. *)
Theorem cursor_response_exact text x :
  parseConPtyHostCursorResponse text = Some x <->
  encodeConPtyHostCursorResponse (token x) (int (row x)) (int (column x)) = Some text.
Proof.
  destruct x as [t r c]. cbn [token row column].
  unfold parseConPtyHostCursorResponse, encodeConPtyHostCursorResponse. split.
  - intros H. apply bind_Some in H as (s1 & H1 & H). apply literal_Some in H1 as ->.
    destruct (is_token (take 32 s1)) eqn:Et; cbn [negb] in H; [|done].
    apply bind_Some in H as (s2 & H2 & H). apply literal_Some in H2.
    apply bind_Some in H as ([r' s3] & H3 & H). apply coordinate_Some in H3 as [-> Hr].
    apply bind_Some in H as (s4 & H4 & H). apply literal_Some in H4 as ->.
    apply bind_Some in H as ([c' s5] & H5 & H). apply coordinate_Some in H5 as [-> Hc].
    destruct (bool_decide (s5 = [7])) eqn:Eb; cbn [negb] in H; [|done]. breflect. subst s5.
    destruct (_ || _) eqn:Em; [done|]. injection H as <- <- <-. breflect.
    rewrite Et. cbn [negb].
    assert (valid_coordinate (int r') = Some r') as -> by (apply valid_coordinate_Some; split; [done|lia]).
    cbn [mbind option_bind].
    assert (valid_coordinate (int c') = Some c') as -> by (apply valid_coordinate_Some; split; [done|lia]).
    cbn [mbind option_bind]. f_equal. f_equal. rewrite <- (take_drop 32 s1) at 2. f_equal. done.
  - destruct (is_token t) eqn:Et; cbn [negb]; [|done]. intros H.
    apply bind_Some in H as (r' & Hr & H). apply valid_coordinate_Some in Hr as [Er Hr].
    apply bind_Some in H as (c' & Hc & Htext). apply (inj Some) in Htext as <-. apply valid_coordinate_Some in Hc as [Ec Hc].
    apply (f_equal to_integer) in Er, Ec. rewrite !to_integer_int in Er, Ec.
    injection Er as <-. injection Ec as <-. pose proof (is_token_length t Et) as Hl.
    rewrite literal_app. cbn [mbind option_bind]. rewrite (take_app_length' t) by done.
    rewrite Et. cbn [negb]. rewrite (drop_app_length' t) by done. rewrite literal_app. cbn [mbind option_bind].
    change (js ":" ++ decimal c ++ [7]) with (58 :: decimal c ++ [7]) at 1.
    rewrite (coordinate_decimal r 58 (decimal c ++ [7])) by done. cbn [mbind option_bind].
    change (58 :: decimal c ++ [7]) with (js ":" ++ decimal c ++ [7]).
    rewrite literal_app. cbn [mbind option_bind].
    rewrite coordinate_decimal by done. cbn [mbind option_bind].
    rewrite bool_decide_eq_true_2 by done. cbn [negb].
    destruct (Z.ltb_spec MAX_COORDINATE r); [lia|]. destruct (Z.ltb_spec MAX_COORDINATE c); [lia|]. done.
Qed.

Lemma hex_digit_inj a b : 0 <= a < 16 -> 0 <= b < 16 -> hex_digit a = hex_digit b -> a = b.
Proof. unfold hex_digit. intros Ha Hb. destruct (Z.ltb_spec a 10), (Z.ltb_spec b 10); lia. Qed.

Lemma hex_digit_hex a : 0 <= a < 16 -> is_hex (hex_digit a) = true.
Proof.
  intros H. unfold hex_digit, is_hex. destruct (Z.ltb_spec a 10).
  - destruct (Z.leb_spec 48 (48 + a)); [|lia]. destruct (Z.leb_spec (48 + a) 57); [done|lia].
  - destruct (Z.leb_spec 97 (87 + a)); [|lia]. destruct (Z.leb_spec (87 + a) 102); [|lia].
    by rewrite orb_true_r.
Qed.

Lemma nibbles b : 0 <= b <= 127 -> 0 <= b / 16 < 16 /\ 0 <= b mod 16 < 16 /\ b = 16 * (b / 16) + b mod 16.
Proof.
  intros H. pose proof (Z.div_mod b 16 ltac:(lia)). pose proof (Z.mod_pos_bound b 16 ltac:(lia)). lia.
Qed.

Definition ascii_byte (b : Z) : Prop := 0 <= b <= 127.

Lemma hex_inj a b :
  Forall ascii_byte a -> Forall ascii_byte b ->
  mjoin (hex_byte <$> a) = mjoin (hex_byte <$> b) -> a = b.
Proof.
  intros Ha. revert b. induction Ha as [|x a Hx Ha IH]; intros b Hb; destruct Hb as [|y b Hy Hb]; try done.
  rewrite !mjoin_fmap_cons. unfold hex_byte at 1 3. cbn [app]. intros [= H1 H2 H3].
  destruct (nibbles x Hx) as (? & ? & Ex), (nibbles y Hy) as (? & ? & Ey).
  apply hex_digit_inj in H1; [|done..]. apply hex_digit_inj in H2; [|done..].
  f_equal; [congruence|auto].
Qed.

Lemma hex_clean a :
  Forall ascii_byte a -> Forall (fun c => is_hex c = true) (mjoin (hex_byte <$> a)).
Proof.
  induction 1 as [|x a Hx Ha IH]; [constructor|]. rewrite mjoin_fmap_cons.
  destruct (nibbles x Hx) as (? & ? & _).
  repeat (constructor; [by apply hex_digit_hex|]). done.
Qed.

Lemma envelope_Some data x :
  Forall (fun b => is_byte b = true) data -> encodeConPtyApplicationTerminalResponse data = Some x ->
  Forall ascii_byte data /\
  x = APPLICATION_REPLY_PREFIX ++ (decimal (Z.of_nat (length data)) ++
        58 :: mjoin (hex_byte <$> data)) ++ [7].
Proof.
  intros Hb H. unfold encodeConPtyApplicationTerminalResponse in H.
  destruct (_ || _); [done|]. destruct (forallb _ data) eqn:E; cbn [negb] in H; [|done].
  apply (inj Some) in H as <-. split; [|done].
  rewrite forallb_forall in E. rewrite Forall_forall in *. intros b Hin.
  specialize (Hb b Hin). specialize (E b (proj1 (list_elem_of_In _ _) Hin)). unfold is_byte in Hb.
  breflect. unfold ascii_byte. lia.
Qed.

(** An application reply wrapped for the host is unambiguous and cannot be
    cut short: between the reserved prefix and the one terminator there are only
    hexadecimal digits and the length separator, so neither a payload byte nor
    an escape can end the envelope early, and two payloads that give the same
    envelope are equal. *)
Theorem envelope_unambiguous data x :
  Forall (fun b => is_byte b = true) data -> encodeConPtyApplicationTerminalResponse data = Some x ->
  (exists body, x = APPLICATION_REPLY_PREFIX ++ body ++ OSC_TERMINATOR /\
     Forall (fun c => is_hex c = true \/ c = 58) body) /\
  (forall data', Forall (fun b => is_byte b = true) data' ->
     encodeConPtyApplicationTerminalResponse data' = Some x -> data' = data).
Proof.
  intros Hb H. destruct (envelope_Some _ _ Hb H) as [Ha ->].
  destruct (decimal_spec (Z.of_nat (length data)) ltac:(lia)) as (Hd & _).
  split.
  - eexists. split; [done|]. apply Forall_app. split.
    + eapply Forall_impl; [exact Hd|]. intros c Hc. left. unfold digit in Hc. unfold is_hex.
      destruct (Z.leb_spec 48 c); [|lia]. destruct (Z.leb_spec c 57); [done|lia].
    + constructor; [by right|]. eapply Forall_impl; [by apply hex_clean|]. by left.
  - intros data' Hb' H'. destruct (envelope_Some _ _ Hb' H') as [Ha' E].
    apply app_inv_head, app_inv_tail in E.
    destruct (decimal_spec (Z.of_nat (length data')) ltac:(lia)) as (Hd' & _).
    apply (f_equal digits_span) in E. rewrite !digits_span_app in E by done.
    injection E as _ E. symmetry in E. by apply hex_inj in E.
Qed.

Lemma envelope_unambiguous_witness :
  exists body, [27; 93; 56; 52; 56; 56; 59; 116; 119; 104; 45; 97; 112; 112; 45; 114; 101; 112; 108;
                121; 45; 118; 49; 58; 50; 58; 49; 98; 53; 98; 7] =
    APPLICATION_REPLY_PREFIX ++ body ++ OSC_TERMINATOR /\
    Forall (fun c => is_hex c = true \/ c = 58) body.
Proof.
  refine (proj1 (envelope_unambiguous [27; 91] _ _ _)).
  - repeat constructor.
  - vm_compute. reflexivity.
Defined.

(** The router never lets the two owners be confused: a reply in the host's
    reserved namespace goes to the host and answers no query; any other reply
    goes to the application exactly when no host query is outstanding, and
    otherwise answers the oldest one or is refused with the queue unchanged. *)
Theorem route_ownership qs response :
  let reserved := exists s, response = HOST_CURSOR_REPLY_NAMESPACE ++ s in
  (reserved -> route qs response = Some (host_control, qs)) /\
  (~ reserved -> qs = [] -> route qs response = Some (application_envelope, [])) /\
  (~ reserved -> forall q qs', qs = q :: qs' ->
     route qs response = if isHostResponse response then Some (host_control, qs') else None).
Proof.
  cbv zeta.
  assert (forall x, parseConPtyHostCursorResponse response = Some x ->
          exists s, response = HOST_CURSOR_REPLY_NAMESPACE ++ s) as Hparse.
  { intros x H. unfold parseConPtyHostCursorResponse in H.
    apply bind_Some in H as (s & H & _). apply literal_Some in H as ->. by exists s. }
  assert (~ (exists s, response = HOST_CURSOR_REPLY_NAMESPACE ++ s) ->
    bool_decide (parseConPtyHostCursorResponse response <> None) = false /\
    bool_decide (take (length HOST_CURSOR_REPLY_NAMESPACE) response = HOST_CURSOR_REPLY_NAMESPACE) = false) as Hno.
  { intros Hn. split; apply bool_decide_eq_false.
    - intros H. apply H. destruct (parseConPtyHostCursorResponse response) as [x|]; [|done].
      exfalso. apply Hn. by eapply Hparse.
    - intros H. apply Hn. exists (drop (length HOST_CURSOR_REPLY_NAMESPACE) response).
      rewrite <- H at 1. by rewrite take_drop. }
  unfold route. split_and!.
  - intros [s Hs]. destruct (bool_decide (_ <> None)); [done|].
    rewrite bool_decide_eq_true_2; [done|]. rewrite Hs. apply take_app_length.
  - intros Hn ->. destruct (Hno Hn) as [-> ->]. done.
  - intros Hn q qs' ->. destruct (Hno Hn) as [-> ->]. done.
Qed.

Lemma route_ownership_witness :
  route [] (ESC :: js "[1;1R") = Some (application_envelope, []).
Proof.
  refine (proj1 (proj2 (route_ownership [] (ESC :: js "[1;1R"))) _ eq_refl).
  intros [s Hs]. vm_compute in Hs. discriminate.
Defined.
