(* ===== verification/RunEvents.v ===== *)
(** * Run events (packages/protocol/src/run-events.ts)

    The identifiers, the envelope and the stream discipline of a test run's
    event log: kind-separated ids, a validator that copies an untrusted value
    into a frozen event, a producer that owns its coordinates, and a stateful
    stream validator with a Bloom filter and a bounded causal horizon.

    An untrusted value is a reference into a heap of objects ([Dto]).  The
    built-in [JSON.stringify] is the parameter [stringify]; reading an accessor
    element of an array is the parameter [invoke] ([None] when it throws).  An
    object whose inspection throws has [o_proxy] set. *)

From S2P Require Import Prelude JsText Dto.

Local Open Scope Z_scope.

(** ** Identifiers *)

Inductive RunIdKind : Type :=
| kind_invocation | kind_run | kind_project | kind_shard | kind_spec | kind_runner_task
| kind_execution | kind_attempt | kind_session | kind_step | kind_action | kind_producer
| kind_event.
Global Instance RunIdKind_eq_dec : EqDecision RunIdKind.
Proof. solve_decision. Defined.

Definition RUN_ID_KINDS : list RunIdKind :=
  [kind_invocation; kind_run; kind_project; kind_shard; kind_spec; kind_runner_task;
   kind_execution; kind_attempt; kind_session; kind_step; kind_action; kind_producer; kind_event].

Definition kind_name (k : RunIdKind) : jstring :=
  js match k with
     | kind_invocation => "invocation" | kind_run => "run" | kind_project => "project"
     | kind_shard => "shard" | kind_spec => "spec" | kind_runner_task => "runner-task"
     | kind_execution => "execution" | kind_attempt => "attempt" | kind_session => "session"
     | kind_step => "step" | kind_action => "action" | kind_producer => "producer"
     | kind_event => "event"
     end.

Definition hex_lower (c : Z) : bool :=
  (48 <=? c) && (c <=? 57) || (97 <=? c) && (c <=? 102).

(** One position of the [UUID] pattern. *)
Inductive uuid_char : Type := UHex | UDash | UFour | UVariant.
Definition uuid_char_ok (u : uuid_char) (c : Z) : bool :=
  match u with
  | UHex => hex_lower c
  | UDash => c =? 45
  | UFour => c =? 52
  | UVariant => (c =? 56) || (c =? 57) || (c =? 97) || (c =? 98)
  end.
Definition UUID : list uuid_char :=
  replicate 8 UHex ++ [UDash] ++ replicate 4 UHex ++ [UDash; UFour] ++ replicate 3 UHex ++
  [UDash; UVariant] ++ replicate 3 UHex ++ [UDash] ++ replicate 12 UHex.

Fixpoint matches_uuid (p : list uuid_char) (s : jstring) : bool :=
  match p, s with
  | [], [] => true
  | u :: p, c :: s => uuid_char_ok u c && matches_uuid p s
  | _, _ => false
  end.

(** [ID_PATTERNS[kind].test(value)] *)
Definition ID_PATTERNS_test (k : RunIdKind) (s : jstring) : bool :=
  let prefix := kind_name k ++ js ":" in
  bool_decide (take (length prefix) s = prefix) && matches_uuid UUID (drop (length prefix) s).

(** [None] is the [TypeError]. *)
Definition parseRunId (k : RunIdKind) (s : jstring) : option jstring :=
  if ID_PATTERNS_test k s then Some s else None.

(** [toLowerCase] on ASCII; no other character lowers to one an id may contain. *)
Definition lower_char (c : Z) : Z := if (65 <=? c) && (c <=? 90) then c + 32 else c.

Definition createRunId (k : RunIdKind) (uuid : jstring) : option jstring :=
  parseRunId k (kind_name k ++ js ":" ++ (lower_char <$> uuid)).

(** [RunIdFactory]: the loop of [create] with the draws it has left; the result
    is the id, the issued set and the number of draws. *)
Section Factory.
Context (randomUUID : nat -> jstring).
Fixpoint createLoop (left_ : nat) (k : RunIdKind) (issued : gset jstring) (draws : nat) :
    option jstring * gset jstring * nat :=
  match left_ with
  | O => (None, issued, draws)
  | S n =>
      match createRunId k (randomUUID draws) with
      | None => (None, issued, S draws)
      | Some value =>
          if bool_decide (value ∈ issued) then createLoop n k issued (S draws)
          else (Some value, {[value]} ∪ issued, S draws)
      end
  end.
Definition factory_create := createLoop 8.
End Factory.

(** The fallback of [browserRandomUuid]: sixteen random bytes. *)
Definition hex_nibble (n : Z) : Z := if n <? 10 then 48 + n else 87 + n.
Definition hex2 (b : Z) : jstring := [hex_nibble (b / 16); hex_nibble (b mod 16)].
Definition set_byte (i : nat) (f : Z -> Z) (l : bytes) : bytes := alter f i l.
Definition uuid_of_bytes (random : bytes) : jstring :=
  let b := set_byte 6 (fun x => Z.lor (Z.land x 15) 64) random in
  let b := set_byte 8 (fun x => Z.lor (Z.land x 63) 128) b in
  let hex : jstring := mjoin (hex2 <$> b) in
  let slice (from to : nat) := take (to - from) (drop from hex) in
  slice 0%nat 8%nat ++ js "-" ++ slice 8%nat 12%nat ++ js "-" ++ slice 12%nat 16%nat ++ js "-" ++
  slice 16%nat 20%nat ++ js "-" ++ drop 20 hex.

(** ** Events *)

Inductive RunEventClass : Type := authoritative | state | diagnostic.
Global Instance RunEventClass_eq_dec : EqDecision RunEventClass.
Proof. solve_decision. Defined.

Definition class_of (s : jstring) : option RunEventClass :=
  if decide (s = js "authoritative") then Some authoritative
  else if decide (s = js "state") then Some state
  else if decide (s = js "diagnostic") then Some diagnostic
  else None.

Definition RUN_EVENT_VERSION : Z := 3.

(** The fields the stream discipline reads, and the frozen document itself. *)
Record RunEvent : Type := {
  eventId : jstring;
  producerId : jstring;
  epoch : Z;
  seq_no : Z;
  eventClass : RunEventClass;
  monotonicTime : number;
  invocationId : jstring;
  runId : option jstring;
  causedBy : list jstring;
  document : json;
}.

Record RunEventLimits : Type := {
  maxEventBytes : number;
  maxPayloadDepth : number;
  maxPayloadEntries : number;
  maxStringBytes : number;
  maxCauses : number;
}.

Definition DEFAULT_RUN_EVENT_LIMITS : RunEventLimits :=
  {| maxEventBytes := int (256 * 1024); maxPayloadDepth := int 32; maxPayloadEntries := int 10000;
     maxStringBytes := int (16 * 1024); maxCauses := int 64 |}.

Inductive RunEventViolationCode : Type :=
| invalid_envelope | invalid_id | invalid_identity | invalid_payload | event_oversized
| event_collision | epoch_regression | sequence_regression | monotonic_time_regression
| causal_cycle | causal_reference_unavailable | stream_capacity.
Global Instance RunEventViolationCode_eq_dec : EqDecision RunEventViolationCode.
Proof. solve_decision. Defined.

Abbreviation checked := (result RunEventViolationCode).

Definition positive_safe (n : number) : option Z :=
  match to_safe_integer n with
  | Some z => if z <=? 0 then None else Some z
  | None => None
  end.

(** The limits as integers, once [validateLimits] has passed. *)
Record Bounds : Type := {
  b_bytes : Z;
  b_depth : Z;
  b_entries : Z;
  b_string : Z;
  b_causes : Z;
}.
Definition validateLimits (l : RunEventLimits) : checked Bounds :=
  match positive_safe (maxEventBytes l), positive_safe (maxPayloadDepth l),
        positive_safe (maxPayloadEntries l), positive_safe (maxStringBytes l),
        positive_safe (maxCauses l) with
  | Some a, Some b, Some c, Some d, Some e =>
      Ok {| b_bytes := a; b_depth := b; b_entries := c; b_string := d; b_causes := e |}
  | _, _, _, _, _ => Err invalid_envelope
  end.

(** ** Projection *)

Section Projection.
Context (b : Bounds).

Definition visitString (s : jstring) : checked json :=
  if b_string b <? utf8_length s then Err invalid_payload else Ok (JStr s).

(** One more entry. *)
Definition count_entry (entries : Z) : checked Z :=
  if b_entries b <? entries + 1 then Err invalid_payload else Ok (entries + 1).

Definition checkKey (key : jstring) : checked unit :=
  _ ← guard_or (negb (bool_decide (key ∈ RESERVED_KEYS))) invalid_payload;
  guard_or (utf8_length key <=? b_string b) invalid_payload.

Section Heap.
Context (h : heap) (invoke : positive -> nat -> option value).

(** The walk's state: the entries counted and the objects seen. *)
Abbreviation walk A := (Z * gset positive -> checked (A * (Z * gset positive))).

Definition enumerable_slot (d : option descriptor) : bool :=
  match d with
  | Some (DataProperty _ true) | Some (AccessorProperty true) => true
  | _ => false
  end.
Definition present (slots : list (option descriptor)) : nat :=
  length (List.filter enumerable_slot slots).

Fixpoint visitItems (visit : value -> walk json) (a : positive) (index : nat)
    (slots : list (option descriptor)) : walk (list json) := fun '(entries, seen) =>
  match slots with
  | [] => Ok ([], (entries, seen))
  | d :: slots =>
      match match d with
            | None => Some VUndefined
            | Some (DataProperty v _) => Some v
            | Some (AccessorProperty _) => invoke a index
            end with
      | None => Err invalid_payload
      | Some item =>
          entries ← count_entry entries;
          '(child, st) ← visit item (entries, seen);
          '(rest, st) ← visitItems visit a (S index) slots st;
          Ok (child :: rest, st)
      end
  end.

Fixpoint visitMembers (visit : value -> walk json) (props : list (jstring * descriptor)) :
    walk (list (jstring * json)) := fun '(entries, seen) =>
  match props with
  | [] => Ok ([], (entries, seen))
  | (_, (DataProperty _ false | AccessorProperty false)) :: props =>
      visitMembers visit props (entries, seen)
  | (key, d) :: props =>
      _ ← checkKey key;
      match d with
      | AccessorProperty _ => Err invalid_payload
      | DataProperty v _ =>
          entries ← count_entry entries;
          '(child, st) ← visit v (entries, seen);
          '(rest, st) ← visitMembers visit props st;
          Ok ((key, child) :: rest, st)
      end
  end.

(** [visit] at [depth], with [room = maxPayloadDepth + 1 - depth]. *)
Fixpoint visit (room : nat) (v : value) : walk json := fun '(entries, seen) =>
  match v with
  | VNull => Ok (JNull, (entries, seen))
  | VBool x => Ok (JBool x, (entries, seen))
  | VStr s => j ← visitString s; Ok (j, (entries, seen))
  | VNum n => if isFinite n then Ok (JNum n, (entries, seen)) else Err invalid_payload
  | VMinusZero => Ok (JMinusZero, (entries, seen))
  | VUndefined | VOther => Err invalid_payload
  | VRef a =>
      match room with
      | O => Err invalid_payload
      | S room =>
          if bool_decide (a ∈ seen) then Err invalid_payload
          else
            let seen := {[a]} ∪ seen in
            match h !! a with
            | None => Err invalid_payload
            | Some o =>
                if o_proxy o then Err invalid_payload
                else if negb (o_symbols o =? 0)%nat then Err invalid_payload
                else
                  match o_contents o with
                  | ArrayContents slots extras hidden =>
                      if negb (present slots + (extras - hidden) =? length slots)%nat
                      then Err invalid_payload
                      else
                        '(items, st) ← visitItems (visit room) a 0 slots (entries, seen);
                        Ok (JArr items, st)
                  | ObjectContents props =>
                      if bool_decide (o_prototype o = ObjectPrototype \/ o_prototype o = NullPrototype)
                      then
                        '(members, st) ← visitMembers (visit room) props (entries, seen);
                        Ok (JObj members, st)
                      else Err invalid_payload
                  end
            end
      end
  end.

Definition projectJson (v : value) : checked json :=
  '(j, _) ← visit (Z.to_nat (b_depth b + 1)) v (0, ∅);
  Ok j.
End Heap.

(** The same walk over a frozen tree an earlier walk built, whose objects are
    distinct, dense, plain and null-prototyped. *)
Fixpoint treeItems (visit : json -> Z -> checked Z) (items : list json) (entries : Z) : checked Z :=
  match items with
  | [] => Ok entries
  | j :: items =>
      entries ← count_entry entries;
      entries ← visit j entries;
      treeItems visit items entries
  end.
Fixpoint treeMembers (visit : json -> Z -> checked Z) (members : list (jstring * json))
    (entries : Z) : checked Z :=
  match members with
  | [] => Ok entries
  | (key, j) :: members =>
      _ ← checkKey key;
      entries ← count_entry entries;
      entries ← visit j entries;
      treeMembers visit members entries
  end.
Fixpoint visitTree (room : nat) (j : json) (entries : Z) : checked Z :=
  match j with
  | JNull | JBool _ | JMinusZero => Ok entries
  | JStr s => _ ← visitString s; Ok entries
  | JNum n => if isFinite n then Ok entries else Err invalid_payload
  | JArr items =>
      match room with
      | O => Err invalid_payload
      | S room => treeItems (visitTree room) items entries
      end
  | JObj members =>
      match room with
      | O => Err invalid_payload
      | S room => treeMembers (visitTree room) members entries
      end
  end.
Definition projectTree (j : json) : checked json :=
  _ ← visitTree (Z.to_nat (b_depth b + 1)) j 0;
  Ok j.
End Projection.

(** ** The envelope *)

(** [event[key]], [None] for [undefined]. *)
Definition field (members : list (jstring * json)) (key : string) : option json :=
  snd <$> find (fun kv => bool_decide (fst kv = js key)) members.

Definition id (k : RunIdKind) (v : option json) : option jstring :=
  match v with
  | Some (JStr s) => if ID_PATTERNS_test k s then Some s else None
  | _ => None
  end.

Definition nonNegativeInteger (v : option json) : option Z :=
  match v ≫= json_number with
  | Some n =>
      match to_safe_integer n with
      | Some z => if 0 <=? z then Some z else None
      | None => None
      end
  | None => None
  end.

Definition time (v : option json) : option number :=
  match v ≫= json_number with
  | Some n => if isFinite n && num_leb (int 0) n then Some n else None
  | None => None
  end.

Definition lower_alpha (c : Z) : bool := (97 <=? c) && (c <=? 122).
Definition lower_alnum (c : Z) : bool := lower_alpha c || (48 <=? c) && (c <=? 57).
Definition type_separator (c : Z) : bool := (c =? 46) || (c =? 47) || (c =? 58) || (c =? 45).

(** [^[a-z][a-z0-9]*(?:[./:-][a-z0-9]+)*$] *)
Fixpoint type_rest (after_separator : bool) (s : jstring) : bool :=
  match s with
  | [] => negb after_separator
  | c :: s =>
      if lower_alnum c then type_rest false s
      else type_separator c && negb after_separator && type_rest true s
  end.
Definition type_test (s : jstring) : bool :=
  match s with
  | c :: s => lower_alpha c && type_rest false s
  | [] => false
  end.

Definition ALLOWED_FIELDS : list jstring :=
  js <$> ["v"; "eventId"; "producerId"; "epoch"; "seq"; "eventClass"; "type"; "monotonicTime";
          "wallTime"; "identity"; "causedBy"; "payload"]%string.

Definition IDENTITY_FIELDS : list (string * RunIdKind) :=
  [("invocationId", kind_invocation); ("runId", kind_run); ("projectId", kind_project);
   ("shardId", kind_shard); ("specId", kind_spec); ("runnerTaskId", kind_runner_task);
   ("executionId", kind_execution); ("attemptId", kind_attempt); ("sessionId", kind_session);
   ("stepId", kind_step); ("actionId", kind_action)]%string.

Definition IDENTITY_PARENTS : list (string * string) :=
  [("runId", "invocationId"); ("projectId", "runId"); ("shardId", "runId"); ("specId", "projectId");
   ("runnerTaskId", "specId"); ("executionId", "runnerTaskId"); ("attemptId", "executionId");
   ("sessionId", "attemptId"); ("stepId", "attemptId"); ("actionId", "sessionId")]%string.

Definition defined (v : option json) : bool := match v with Some _ => true | None => false end.

(** The invocation and run ids of a valid identity. *)
Definition validateIdentity (v : option json) : checked (jstring * option jstring) :=
  match v with
  | Some (JObj m) =>
      _ ← guard_or (forallb (fun kv => existsb (fun fk => bool_decide (fst kv = js (fst fk)))
                                          IDENTITY_FIELDS) m) invalid_identity;
      _ ← guard_or (forallb (fun fk =>
            if bool_decide (fst fk = "invocationId"%string) || defined (field m (fst fk))
            then match id (snd fk) (field m (fst fk)) with Some _ => true | None => false end
            else true) IDENTITY_FIELDS) invalid_id;
      _ ← guard_or (forallb (fun cp => negb (defined (field m (fst cp)) && negb (defined (field m (snd cp)))))
                      IDENTITY_PARENTS) invalid_identity;
      match id kind_invocation (field m "invocationId"%string) with
      | Some i => Ok (i, id kind_run (field m "runId"%string))
      | None => Err invalid_id
      end
  | _ => Err invalid_identity
  end.

Definition strings_of (items : list json) : option (list jstring) :=
  mapM (fun j => id kind_event (Some j)) items.

Definition validateCauses (b : Bounds) (own : jstring) (v : option json) : checked (list jstring) :=
  match v with
  | None => Ok []
  | Some (JArr causes) =>
      _ ← guard_or (Z.of_nat (length causes) <=? b_causes b) invalid_envelope;
      match strings_of causes with
      | None => Err invalid_id
      | Some ids =>
          _ ← guard_or (bool_decide (NoDup ids)) invalid_envelope;
          _ ← guard_or (negb (bool_decide (own ∈ ids))) causal_cycle;
          Ok ids
      end
  | Some _ => Err invalid_envelope
  end.

Definition or_else {A} (v : option A) (e : RunEventViolationCode) : checked A :=
  match v with Some a => Ok a | None => Err e end.

Section Envelope.
Context (stringify : json -> jstring).

(** What [validateRunEvent] checks of the projected value. *)
Definition checkEnvelope (b : Bounds) (doc : json) : checked RunEvent :=
  match doc with
  | JObj m =>
      _ ← guard_or match field m "v" with
                   | Some (JNum n) => bool_decide (n = int RUN_EVENT_VERSION)
                   | _ => false
                   end invalid_envelope;
      _ ← guard_or (forallb (fun kv => bool_decide (fst kv ∈ ALLOWED_FIELDS)) m) invalid_envelope;
      eid ← or_else (id kind_event (field m "eventId")) invalid_id;
      pid ← or_else (id kind_producer (field m "producerId")) invalid_id;
      ep ← or_else (nonNegativeInteger (field m "epoch")) invalid_envelope;
      sq ← or_else (nonNegativeInteger (field m "seq")) invalid_envelope;
      cls ← or_else match field m "eventClass" with Some (JStr s) => class_of s | _ => None end
              invalid_envelope;
      _ ← guard_or match field m "type" with
                   | Some (JStr s) => type_test s && (utf8_length s <=? 128)
                   | _ => false
                   end invalid_envelope;
      mt ← or_else (time (field m "monotonicTime")) invalid_envelope;
      _ ← guard_or match field m "wallTime" with
                   | None => true
                   | v => match time v with Some _ => true | None => false end
                   end invalid_envelope;
      '(inv, run) ← validateIdentity (field m "identity");
      causes ← validateCauses b eid (field m "causedBy");
      _ ← guard_or (utf8_length (stringify doc) <=? b_bytes b) event_oversized;
      Ok {| eventId := eid; producerId := pid; epoch := ep; seq_no := sq; eventClass := cls;
            monotonicTime := mt; invocationId := inv; runId := run; causedBy := causes;
            document := doc |}
  | _ => Err invalid_envelope
  end.

Definition validateRunEvent (h : heap) (invoke : positive -> nat -> option value)
    (limits : RunEventLimits) (v : value) : checked RunEvent :=
  b ← validateLimits limits;
  doc ← projectJson b h invoke v;
  checkEnvelope b doc.

(** [validateRunEvent] of an event it returned. *)
Definition revalidateRunEvent (limits : RunEventLimits) (doc : json) : checked RunEvent :=
  b ← validateLimits limits;
  doc ← projectTree b doc;
  checkEnvelope b doc.
End Envelope.

(** ** The Bloom filter *)

Definition u32 (z : Z) : Z := z mod 2 ^ 32.

Definition hashText (value : jstring) (seed : Z) : Z :=
  foldl (fun hash c => u32 (Z.lxor hash c * 16777619)) (u32 seed) value.

(** [#words] starts zeroed; only words that were written are kept. *)
Record FixedEventIdFilter : Type := {
  words : gmap Z Z;
  filterBits : Z;
  filterHashes : nat;
}.

Definition indexes (f : FixedEventIdFilter) (value : jstring) : list Z :=
  let first := hashText value 2166136261 in
  let step := Z.lor (hashText value 2654435769) 1 in
  (fun index => u32 (first + u32 (Z.of_nat index * step)) mod filterBits f) <$>
    seq 0 (filterHashes f).

Definition word_at (f : FixedEventIdFilter) (i : Z) : Z := default 0 (words f !! i).
Definition bit_mask (index : Z) : Z := Z.shiftl 1 (Z.land index 31).

Definition maybeHas (f : FixedEventIdFilter) (value : jstring) : bool :=
  forallb (fun index => negb (Z.land (word_at f (Z.shiftr index 5)) (bit_mask index) =? 0))
    (indexes f value).

Definition set_bit (f : FixedEventIdFilter) (index : Z) : FixedEventIdFilter :=
  let i := Z.shiftr index 5 in
  {| words := <[i := Z.lor (word_at f i) (bit_mask index)]> (words f);
     filterBits := filterBits f; filterHashes := filterHashes f |}.
Definition filter_add (f : FixedEventIdFilter) (value : jstring) : FixedEventIdFilter :=
  foldl set_bit f (indexes f value).

(** ** The causal horizon *)

Record RecentEventIds : Type := {
  values : gset jstring;
  ring : gmap nat jstring;
  capacity : nat;
  start : nat;
  size : nat;
}.
Definition newRecent (capacity : nat) : RecentEventIds :=
  {| values := ∅; ring := ∅; capacity := capacity; start := 0; size := 0 |}.

Definition recent_has (r : RecentEventIds) (v : jstring) : bool := bool_decide (v ∈ values r).
Definition recent_add (r : RecentEventIds) (v : jstring) : RecentEventIds :=
  let index := ((start r + size r) mod capacity r)%nat in
  let full := (size r =? capacity r)%nat in
  let kept := if full then match ring r !! index with
                           | Some old => values r ∖ {[old]}
                           | None => values r
                           end else values r in
  {| values := {[v]} ∪ kept; ring := <[index := v]> (ring r); capacity := capacity r;
     start := if full then ((start r + 1) mod capacity r)%nat else start r;
     size := if full then size r else S (size r) |}.

(** ** The stream validator *)

Record RunEventStreamLimits : Type := {
  maxEvents : number;
  maxProducers : number;
  maxRecentEventIds : number;
  eventIdFilterBits : number;
  eventIdFilterHashes : number;
}.

Definition DEFAULT_RUN_EVENT_STREAM_LIMITS : RunEventStreamLimits :=
  {| maxEvents := int 1000000; maxProducers := int 4096; maxRecentEventIds := int 65536;
     eventIdFilterBits := int (128 * 1024 * 1024); eventIdFilterHashes := int 7 |}.

Record ProducerState : Type := {
  p_epoch : Z;
  p_seq : Z;
  p_time : number;
}.

Record Validator : Type := {
  v_limits : RunEventLimits;
  v_maxEvents : Z;
  v_maxProducers : Z;
  eventIds : FixedEventIdFilter;
  recentEventIds : RecentEventIds;
  producerState : gmap jstring ProducerState;
  acceptedEvents : Z;
}.

(** [validateStreamLimits]; [None] is the [TypeError]. *)
Definition validateStreamLimits (l : RunEventStreamLimits) : option (Z * Z * Z * Z * Z) :=
  match positive_safe (maxEvents l), positive_safe (maxProducers l), positive_safe (maxRecentEventIds l),
        positive_safe (eventIdFilterBits l), positive_safe (eventIdFilterHashes l) with
  | Some e, Some p, Some r, Some b, Some h =>
      if (b <? 32) || negb (b mod 32 =? 0) || (16 <? h) then None else Some (e, p, r, b, h)
  | _, _, _, _, _ => None
  end.

Definition newValidator (limits : RunEventLimits) (stream : RunEventStreamLimits) : option Validator :=
  match validateLimits limits, validateStreamLimits stream with
  | Ok _, Some (e, p, r, b, h) =>
      Some {| v_limits := limits; v_maxEvents := e; v_maxProducers := p;
              eventIds := {| words := ∅; filterBits := b; filterHashes := Z.to_nat h |};
              recentEventIds := newRecent (Z.to_nat r); producerState := ∅; acceptedEvents := 0 |}
  | _, _ => None
  end.

(** [accept] after [validateRunEvent]. *)
Definition acceptEvent (v : Validator) (e : RunEvent) : checked RunEvent * Validator :=
  let previous := producerState v !! producerId e in
  if v_maxEvents v <=? acceptedEvents v then (Err stream_capacity, v)
  else if maybeHas (eventIds v) (eventId e) then (Err event_collision, v)
  else if match previous with
          | None => v_maxProducers v <=? Z.of_nat (base.size (producerState v))
          | Some _ => false
          end then (Err stream_capacity, v)
  else if match previous with Some p => epoch e <? p_epoch p | None => false end
  then (Err epoch_regression, v)
  else if match previous with
          | Some p => (epoch e =? p_epoch p) && (seq_no e <=? p_seq p)
          | None => false
          end then (Err sequence_regression, v)
  else if match previous with
          | Some p => (epoch e =? p_epoch p) && num_ltb (monotonicTime e) (p_time p)
          | None => false
          end then (Err monotonic_time_regression, v)
  else if negb (forallb (recent_has (recentEventIds v)) (causedBy e))
  then (Err causal_reference_unavailable, v)
  else
    (Ok e,
     {| v_limits := v_limits v; v_maxEvents := v_maxEvents v; v_maxProducers := v_maxProducers v;
        eventIds := filter_add (eventIds v) (eventId e);
        recentEventIds := recent_add (recentEventIds v) (eventId e);
        producerState :=
          <[producerId e := {| p_epoch := epoch e; p_seq := seq_no e; p_time := monotonicTime e |}]>
            (producerState v);
        acceptedEvents := acceptedEvents v + 1 |}).

Section Accept.
Context (stringify : json -> jstring).

Definition accept (h : heap) (invoke : positive -> nat -> option value) (x : value)
    (v : Validator) : checked RunEvent * Validator :=
  match validateRunEvent stringify h invoke (v_limits v) x with
  | Err e => (Err e, v)
  | Ok e => acceptEvent v e
  end.

(** [accept] of an event [validateRunEvent] returned. *)
Definition acceptAgain (doc : json) (v : Validator) : checked RunEvent * Validator :=
  match revalidateRunEvent stringify (v_limits v) doc with
  | Err e => (Err e, v)
  | Ok e => acceptEvent v e
  end.
End Accept.

(** ** The producer *)

Record ProduceRunEventInput : Type := {
  in_class : RunEventClass;
  in_type : jstring;
  in_identity : json;
  in_causedBy : option (list jstring);
  in_payload : json;
}.

Definition class_text (c : RunEventClass) : jstring :=
  js match c with
     | authoritative => "authoritative" | state => "state" | diagnostic => "diagnostic"
     end.

(** The candidate of [createRunEvent]; identity and payload are trees. *)
Definition candidate (eid pid : jstring) (ep sq : Z) (i : ProduceRunEventInput) (mt : number)
    (wall : option number) : json :=
  JObj ([(js "v", JNum (int RUN_EVENT_VERSION)); (js "eventId", JStr eid); (js "producerId", JStr pid);
         (js "epoch", JNum (int ep)); (js "seq", JNum (int sq));
         (js "eventClass", JStr (class_text (in_class i))); (js "type", JStr (in_type i));
         (js "monotonicTime", JNum mt)] ++
        match wall with Some w => [(js "wallTime", JNum w)] | None => [] end ++
        [(js "identity", in_identity i)] ++
        match in_causedBy i with Some c => [(js "causedBy", JArr (JStr <$> c))] | None => [] end ++
        [(js "payload", in_payload i)]).

Inductive EmitError : Type :=
| sequence_exhausted | clock_moved_backwards | id_collisions | invalid_uuid
| rejected (code : RunEventViolationCode).

Record Producer : Type := {
  pr_id : jstring;
  pr_epoch : Z;
  pr_recent : RecentEventIds;
  pr_seq : Z;
  pr_last : number;
  pr_reads : nat;
  pr_draws : nat;
}.

Section Emit.
Context (stringify : json -> jstring).
Context (monotonicNow : nat -> number) (wallNow : option (nat -> number)) (randomUUID : nat -> jstring).

(** The constructor; [None] is a [TypeError]. *)
Definition newProducer (pid : jstring) (ep : number) : option Producer :=
  match to_safe_integer ep with
  | Some z =>
      if (z <? 0) || negb (ID_PATTERNS_test kind_producer pid) then None
      else Some {| pr_id := pid; pr_epoch := z; pr_recent := newRecent 4096; pr_seq := 0;
                   pr_last := int 0; pr_reads := 0; pr_draws := 0 |}
  | None => None
  end.

Definition with_ids (p : Producer) (r : RecentEventIds) (d : nat) : Producer :=
  {| pr_id := pr_id p; pr_epoch := pr_epoch p; pr_recent := r; pr_seq := pr_seq p;
     pr_last := pr_last p; pr_reads := pr_reads p; pr_draws := d |}.

(** The loop of [#createEventId]. *)
Fixpoint createEventId (left_ : nat) : method Producer EmitError jstring := fun p =>
  match left_ with
  | O => (Err id_collisions, p)
  | S n =>
      match createRunId kind_event (randomUUID (pr_draws p)) with
      | None => (Err invalid_uuid, with_ids p (pr_recent p) (S (pr_draws p)))
      | Some eid =>
          if recent_has (pr_recent p) eid
          then createEventId n (with_ids p (pr_recent p) (S (pr_draws p)))
          else (Ok eid, with_ids p (recent_add (pr_recent p) eid) (S (pr_draws p)))
      end
  end.

Definition emit (limits : RunEventLimits) (i : ProduceRunEventInput) :
    method Producer EmitError RunEvent := fun p =>
  if max_safe <? pr_seq p then (Err sequence_exhausted, p)
  else
    let now := monotonicNow (pr_reads p) in
    let p := {| pr_id := pr_id p; pr_epoch := pr_epoch p; pr_recent := pr_recent p;
                pr_seq := pr_seq p; pr_last := pr_last p; pr_reads := S (pr_reads p);
                pr_draws := pr_draws p |} in
    if negb (isFinite now && num_leb (int 0) now) || num_ltb now (pr_last p)
    then (Err clock_moved_backwards, p)
    else
      match createEventId 8 p with
      | (Err e, p) => (Err e, p)
      | (Ok eid, p) =>
          let wall := match wallNow with Some w => Some (w (pr_reads p)) | None => None end in
          match revalidateRunEvent stringify limits
                  (candidate eid (pr_id p) (pr_epoch p) (pr_seq p) i now wall) with
          | Err e => (Err (rejected e), p)
          | Ok event =>
              (Ok event,
               {| pr_id := pr_id p; pr_epoch := pr_epoch p; pr_recent := pr_recent p;
                  pr_seq := pr_seq p + 1; pr_last := now; pr_reads := pr_reads p;
                  pr_draws := pr_draws p |})
          end
      end.
End Emit.

(** ** Identifiers: theorems *)

Lemma kind_name_no_colon k : 58 ∉ kind_name k.
Proof. destruct k; vm_compute; intros H; repeat (apply elem_of_cons in H as [H|H]; [discriminate|]); by apply elem_of_nil in H. Qed.

Lemma kind_name_inj k k' : kind_name k = kind_name k' -> k = k'.
Proof. destruct k, k'; (reflexivity || (intros H; vm_compute in H; discriminate)). Qed.

Lemma split_first {A} (x : A) l1 r1 l2 r2 :
  x ∉ l1 -> x ∉ l2 -> l1 ++ x :: r1 = l2 ++ x :: r2 -> l1 = l2 /\ r1 = r2.
Proof.
  revert l2. induction l1 as [|a l1 IH]; intros [|b l2] H1 H2 E; cbn in E.
  - by injection E as <-.
  - injection E as -> _. exfalso. apply H2. left.
  - injection E as <- _. exfalso. apply H1. left.
  - injection E as -> E. apply not_elem_of_cons in H1 as [_ H1]. apply not_elem_of_cons in H2 as [_ H2].
    destruct (IH l2 H1 H2 E) as [-> ->]. done.
Qed.

Lemma ID_PATTERNS_test_spec k s :
  ID_PATTERNS_test k s = true <-> exists u, s = kind_name k ++ 58 :: u /\ matches_uuid UUID u = true.
Proof.
  unfold ID_PATTERNS_test. set (p := kind_name k ++ js ":").
  assert (forall u, kind_name k ++ 58 :: u = p ++ u) as Hp.
  { intros u. unfold p. by rewrite <- (assoc_L (++)). }
  split.
  - intros H. breflect. exists (drop (length p) s). split; [|done].
    rewrite Hp. rewrite <- H at 1. by rewrite take_drop.
  - intros (u & -> & Hu). rewrite Hp. rewrite take_app_length, drop_app_length, Hu.
    by rewrite bool_decide_eq_true_2.
Qed.

Lemma hex_nibble_ok n : 0 <= n < 16 -> hex_lower (hex_nibble n) = true.
Proof.
  intros H. unfold hex_nibble, hex_lower. destruct (Z.ltb_spec n 10).
  - destruct (Z.leb_spec 48 (48 + n)); [|lia]. destruct (Z.leb_spec (48 + n) 57); [done|lia].
  - destruct (Z.leb_spec 97 (87 + n)); [|lia]. destruct (Z.leb_spec (87 + n) 102); [|lia]. by rewrite orb_true_r.
Qed.

Lemma byte_nibbles b : is_byte b = true -> 0 <= b / 16 < 16 /\ 0 <= b mod 16 < 16.
Proof.
  unfold is_byte. intros H. breflect.
  pose proof (Z.div_mod b 16 ltac:(lia)). pose proof (Z.mod_pos_bound b 16 ltac:(lia)). lia.
Qed.

Lemma version_nibble b : is_byte b = true ->
  Z.lor (Z.land b 15) 64 / 16 = 4 /\ 0 <= Z.lor (Z.land b 15) 64 mod 16 < 16.
Proof.
  intros _. rewrite Z.lor_comm. change 64 with (Z.shiftl 4 4). change 15 with (Z.ones 4).
  rewrite Z.land_ones by lia. pose proof (Z.mod_pos_bound b (2 ^ 4) ltac:(lia)).
  rewrite lor_shiftl_add by lia. change (2 ^ 4) with 16 in *.
  split; [|by apply Z.mod_pos_bound]. symmetry. apply (Z.div_unique _ _ _ (b mod 16)); lia.
Qed.

Lemma variant_nibble b : is_byte b = true ->
  8 <= Z.lor (Z.land b 63) 128 / 16 <= 11 /\ 0 <= Z.lor (Z.land b 63) 128 mod 16 < 16.
Proof.
  intros _. rewrite Z.lor_comm. change 128 with (Z.shiftl 2 6). change 63 with (Z.ones 6).
  rewrite Z.land_ones by lia. pose proof (Z.mod_pos_bound b (2 ^ 6) ltac:(lia)).
  rewrite lor_shiftl_add by lia. change (2 ^ 6) with 64 in *.
  pose proof (Z.div_mod (2 * 64 + b mod 64) 16 ltac:(lia)).
  pose proof (Z.mod_pos_bound (2 * 64 + b mod 64) 16 ltac:(lia)). split; [lia|done].
Qed.

Lemma variant_ok n : 8 <= n <= 11 -> uuid_char_ok UVariant (hex_nibble n) = true.
Proof.
  intros H. assert (n = 8 \/ n = 9 \/ n = 10 \/ n = 11) as [-> | [-> | [-> | ->]]] by lia; reflexivity.
Qed.

Lemma uuid_of_bytes_ok random :
  length random = 16%nat -> Forall (fun b => is_byte b = true) random ->
  matches_uuid UUID (uuid_of_bytes random) = true.
Proof.
  intros Hlen Hb.
  do 16 (destruct random as [|? random]; [discriminate Hlen|]). destruct random; [|discriminate Hlen].
  repeat match goal with H : Forall _ (_ :: _) |- _ => apply Forall_cons in H as [? H] end.
  match goal with
  | |- context [uuid_of_bytes [_; _; _; _; _; _; ?x; _; ?y; _; _; _; _; _; _; _]] =>
      pose proof (version_nibble x ltac:(assumption)) as [Hv Hv'];
      pose proof (variant_nibble y ltac:(assumption)) as [Hw Hw']
  end.
  repeat match goal with H : is_byte ?b = true |- _ =>
    apply byte_nibbles in H as [? ?] end.
  unfold uuid_of_bytes, set_byte, hex2.
  cbn -[hex_nibble hex_lower Z.div Z.modulo Z.lor Z.land uuid_char_ok].
  rewrite Hv, variant_ok by assumption. cbn [uuid_char_ok].
  rewrite !hex_nibble_ok by assumption. reflexivity.
Qed.

(** Identifiers are separated by kind: no text is accepted as an id of two
    kinds, so an execution id can never pass for an attempt id; and the
    fallback generator always yields a text of the accepted form, whatever the
    sixteen random bytes. *)
Theorem ids_kind_separated k random :
  length random = 16%nat -> Forall (fun b => is_byte b = true) random ->
  exists s, createRunId k (uuid_of_bytes random) = Some s /\ parseRunId k s = Some s /\
    forall k', parseRunId k' s <> None -> k' = k.
Proof.
  intros Hlen Hb. pose proof (uuid_of_bytes_ok random Hlen Hb) as Hu.
  assert (forall p u, matches_uuid p u = true -> lower_char <$> u = u) as Hlow.
  { induction p as [|c p IH]; intros [|x u]; cbn; try done. intros H. breflect.
    f_equal; [|auto]. unfold lower_char. destruct (Z.leb_spec 65 x), (Z.leb_spec x 90); cbn; try done.
    exfalso. destruct c; cbn in *; unfold hex_lower in *;
      repeat match goal with H : (_ || _)%bool = true |- _ => apply orb_true_iff in H as [H|H] end;
      breflect; lia. }
  set (s := kind_name k ++ 58 :: uuid_of_bytes random).
  assert (ID_PATTERNS_test k s = true) as Ht by (apply ID_PATTERNS_test_spec; eauto).
  exists s. unfold createRunId, parseRunId. rewrite (Hlow _ _ Hu).
  change (kind_name k ++ js ":" ++ uuid_of_bytes random) with s. rewrite Ht.
  split_and!; [done|done|]. intros k' H'. destruct (ID_PATTERNS_test k' s) eqn:E; [|done].
  apply ID_PATTERNS_test_spec in E as (u & E & _). symmetry. apply kind_name_inj.
  by destruct (split_first 58 _ _ _ _ (kind_name_no_colon k) (kind_name_no_colon k') E).
Qed.

Lemma ids_kind_separated_witness :
  exists s, createRunId kind_attempt (uuid_of_bytes (replicate 16 255)) = Some s /\
    parseRunId kind_attempt s = Some s /\ forall k', parseRunId k' s <> None -> k' = kind_attempt.
Proof.
  apply (ids_kind_separated kind_attempt (replicate 16 255)); [reflexivity|repeat constructor].
Defined.
