(* ===== verification/EventStream.v ===== *)
(** * Run events: stream discipline

    What the stream validator of [RunEvents] guarantees of every merged stream
    it accepts, that the Bloom filter has no false negative and the causal
    horizon is the window it should be, and that a producer's own stream is
    never out of order. *)

From S2P Require Import Prelude JsText Dto RunEvents.

Local Open Scope Z_scope.

(** ** The Bloom filter *)

Definition has_bit (f : FixedEventIdFilter) (index : Z) : bool :=
  negb (Z.land (word_at f (Z.shiftr index 5)) (bit_mask index) =? 0).

Lemma maybeHas_bits f v : maybeHas f v = forallb (has_bit f) (indexes f v).
Proof. reflexivity. Qed.

Lemma land_bit w k : 0 <= k -> negb (Z.land w (Z.shiftl 1 k) =? 0) = Z.testbit w k.
Proof.
  intros Hk. destruct (Z.testbit w k) eqn:E.
  - apply negb_true_iff, Z.eqb_neq. intros H. apply (f_equal (fun z => Z.testbit z k)) in H.
    rewrite Z.land_spec, Z.shiftl_spec, Z.sub_diag, E, Z.bits_0 in H by lia. discriminate.
  - apply negb_false_iff, Z.eqb_eq. apply Z.bits_inj'. intros i Hi. rewrite Z.land_spec, Z.bits_0.
    destruct (Z.eq_dec i k) as [->|Hne]; [by rewrite E|].
    rewrite Z.shiftl_spec by lia. destruct (Z.lt_ge_cases i k).
    + rewrite (Z.testbit_neg_r 1) by lia. apply andb_false_r.
    + rewrite (Z.bits_above_log2 1 (i - k)); [apply andb_false_r|lia|change (Z.log2 1) with 0; lia].
Qed.

Lemma has_bit_testbit f i : has_bit f i = Z.testbit (word_at f (Z.shiftr i 5)) (Z.land i 31).
Proof.
  apply land_bit. change 31 with (Z.ones 5). rewrite Z.land_ones by lia.
  by apply Z.mod_pos_bound.
Qed.

Lemma set_bit_mono f j i : has_bit f i = true -> has_bit (set_bit f j) i = true.
Proof.
  rewrite !has_bit_testbit. unfold set_bit, word_at at 2. cbn [words].
  destruct (decide (Z.shiftr j 5 = Z.shiftr i 5)) as [->|Hne].
  - rewrite lookup_insert_eq. cbn. rewrite Z.lor_spec. intros ->. done.
  - by rewrite lookup_insert_ne.
Qed.

Lemma set_bit_has f i : has_bit (set_bit f i) i = true.
Proof.
  rewrite has_bit_testbit. unfold set_bit, word_at at 1. cbn [words].
  rewrite lookup_insert_eq. cbn. rewrite Z.lor_spec. unfold bit_mask.
  assert (0 <= Z.land i 31).
  { change 31 with (Z.ones 5). rewrite Z.land_ones by lia. by apply Z.mod_pos_bound. }
  rewrite Z.shiftl_spec, Z.sub_diag by lia. by rewrite orb_true_r.
Qed.

Lemma set_bits_mono js_ f i : has_bit f i = true -> has_bit (foldl set_bit f js_) i = true.
Proof. revert f. induction js_ as [|j js_ IH]; cbn; intros f H; [done|]. by apply IH, set_bit_mono. Qed.

Lemma set_bits_has js_ f i : i ∈ js_ -> has_bit (foldl set_bit f js_) i = true.
Proof.
  revert f. induction js_ as [|j js_ IH]; cbn; intros f H; [by apply elem_of_nil in H|].
  apply elem_of_cons in H as [->|H]; [apply set_bits_mono, set_bit_has|by apply IH].
Qed.

Lemma indexes_add f v w : indexes (filter_add f v) w = indexes f w.
Proof.
  unfold filter_add. generalize (indexes f v). intros is_. revert f.
  induction is_ as [|i is_ IH]; intros f; [done|]. cbn. by rewrite IH.
Qed.

(** No false negatives, and what is in stays in. *)
Lemma filter_add_has f v : maybeHas (filter_add f v) v = true.
Proof.
  rewrite maybeHas_bits, indexes_add. apply forallb_forall. intros i Hi.
  apply set_bits_has. by apply list_elem_of_In.
Qed.
Lemma filter_add_mono f v w : maybeHas f w = true -> maybeHas (filter_add f v) w = true.
Proof.
  rewrite !maybeHas_bits, indexes_add, !forallb_forall. intros H i Hi. by apply set_bits_mono, H.
Qed.

(** ** The causal horizon *)

Definition added (cap : nat) (vs : list jstring) : RecentEventIds :=
  foldl recent_add (newRecent cap) vs.

(** The ring holds the window [win], oldest first. *)
Record ring_holds (r : RecentEventIds) (win : list jstring) : Prop := {
  rh_size : size r = length win;
  rh_room : (size r <= capacity r)%nat;
  rh_start : (start r < capacity r)%nat;
  rh_ring i : (i < length win)%nat -> ring r !! ((start r + i) mod capacity r)%nat = win !! i;
  rh_values v : v ∈ values r <-> v ∈ win;
}.

Lemma mod_wrap a i c : (a < c)%nat -> (i < c)%nat ->
  ((a + i) mod c)%nat = if decide (a + i < c)%nat then (a + i)%nat else (a + i - c)%nat.
Proof.
  intros Ha Hi. destruct (decide (a + i < c)%nat); [by apply Nat.mod_small|].
  replace (a + i)%nat with (a + i - c + 1 * c)%nat at 1 by lia.
  rewrite Nat.Div0.mod_add. apply Nat.mod_small. lia.
Qed.

Lemma ring_add r win v :
  NoDup win -> ring_holds r win ->
  ring_holds (recent_add r v)
    (if decide (size r = capacity r) then drop 1 win ++ [v] else win ++ [v]).
Proof.
  intros Hnd [Hs Hroom Hstart Hring Hval]. unfold recent_add.
  destruct (Nat.eqb_spec (size r) (capacity r)) as [Hfull|Hfull].
  - rewrite decide_True by done. destruct win as [|old win]; [cbn in Hs; lia|]. cbn [length drop] in *.
    assert (((start r + size r) mod capacity r)%nat = start r) as Hix.
    { rewrite Hfull. replace (start r + capacity r)%nat with (start r + 1 * capacity r)%nat by lia.
      rewrite Nat.Div0.mod_add. by apply Nat.mod_small. }
    assert (ring r !! start r = Some old) as Hold.
    { specialize (Hring 0%nat ltac:(lia)). rewrite Nat.add_0_r, Nat.mod_small in Hring by done. done. }
    rewrite drop_0, Hix, Hold. apply NoDup_cons in Hnd as [Hni Hnd].
    constructor; cbn [size capacity start ring values].
    + rewrite length_app. cbn. lia.
    + lia.
    + apply Nat.mod_upper_bound. lia.
    + intros i Hi. rewrite length_app in Hi. cbn in Hi.
      assert (((start r + 1) mod capacity r + i) mod capacity r = (start r + S i) mod capacity r)%nat as ->.
      { rewrite Nat.Div0.add_mod_idemp_l. f_equal. lia. }
      destruct (decide (i < length win)%nat) as [Hlt|Hge].
      * rewrite lookup_app_l by done. rewrite lookup_insert_ne; [apply (Hring (S i)); lia|].
        rewrite mod_wrap by lia. destruct (decide _); lia.
      * assert (i = length win) as -> by lia. rewrite lookup_app_r, Nat.sub_diag by lia.
        assert (((start r + S (length win)) mod capacity r)%nat = start r) as ->; [|by rewrite lookup_insert_eq].
        replace (S (length win)) with (size r) by lia. done.
    + intros x. rewrite elem_of_union, elem_of_difference, !elem_of_singleton, elem_of_app, list_elem_of_singleton.
      rewrite Hval, elem_of_cons. split; [naive_solver|]. intros [Hx| ->]; [|by left].
      destruct (decide (x = v)); [by left|]. right. split; [by right|]. intros ->. done.
  - rewrite decide_False by done. constructor; cbn [size capacity start ring values].
    + rewrite length_app. cbn. lia.
    + lia.
    + done.
    + intros i Hi. rewrite length_app in Hi. cbn in Hi. rewrite Hs.
      destruct (decide (i < length win)%nat) as [Hlt|Hge].
      * rewrite lookup_app_l by done. rewrite lookup_insert_ne; [by apply Hring|].
        rewrite !mod_wrap by lia. do 2 destruct (decide _); lia.
      * assert (i = length win) as -> by lia. rewrite lookup_app_r, Nat.sub_diag by lia.
        by rewrite lookup_insert_eq.
    + intros x. rewrite elem_of_union, elem_of_singleton, elem_of_app, list_elem_of_singleton, Hval. naive_solver.
Qed.

(** The causal horizon is exactly a sliding window: after any distinct ids
    have been added, the ones still known are the last [capacity] of them. *)
Theorem recent_ids_window cap vs v :
  (0 < cap)%nat -> NoDup vs ->
  (recent_has (added cap vs) v = true <-> v ∈ drop (length vs - cap) vs).
Proof.
  intros Hcap Hnd. unfold recent_has. rewrite bool_decide_eq_true.
  assert (ring_holds (added cap vs) (drop (length vs - cap) vs) /\
          capacity (added cap vs) = cap) as [H _]; [|apply H].
  induction vs as [|x vs IH] using rev_ind.
  { split; [|done]. rewrite drop_nil. constructor; cbn; [done|lia|lia|intros; lia|set_solver]. }
  apply NoDup_app in Hnd as (Hnd & _ & _). destruct (IH Hnd) as [H Hc].
  unfold added in *. rewrite foldl_app. cbn [foldl]. split; [|done].
  assert (NoDup (drop (length vs - cap) vs)) as Hnd'.
  { eapply sublist_NoDup; [exact Hnd|apply sublist_drop]. }
  pose proof (ring_add _ _ x Hnd' H) as H'.
  rewrite Hc in H'. pose proof (rh_size _ _ H) as Hsz. rewrite length_drop in Hsz.
  rewrite length_app. cbn [length].
  destruct (decide (size _ = cap)) as [Hf|Hf].
  - rewrite drop_drop in H'. rewrite drop_app_le by lia.
    replace (length vs + 1 - cap)%nat with (length vs - cap + 1)%nat by lia. done.
  - pose proof (rh_room _ _ H) as Hr. rewrite Hc in Hr.
    replace (length vs - cap)%nat with 0%nat in H' by lia.
    replace (length vs + 1 - cap)%nat with 0%nat by lia. done.
Qed.

Lemma recent_ids_window_witness :
  recent_has (added 2 [[1]; [2]; [3]]) [2] = true <-> [2] ∈ drop (3 - 2) [[1]; [2]; [3]].
Proof.
  apply (recent_ids_window 2 [[1]; [2]; [3]] [2]); [lia|].
  apply (bool_decide_unpack _). vm_compute. exact I.
Defined.

(** ** Merged streams *)

(** Journal coordinates compared. *)
Definition before (a b : RunEvent) : Prop :=
  (epoch a < epoch b \/ epoch a = epoch b /\ seq_no a < seq_no b) /\
  (epoch a = epoch b -> num_leb (monotonicTime a) (monotonicTime b) = true).

(** An untrusted value offered to the validator: a heap, its accessors, a root. *)
Record offer : Type := {
  o_heap : heap;
  o_invoke : positive -> nat -> option value;
  o_root : value;
}.

(** What [accept] makes of a sequence of values: the events accepted, in order. *)
Fixpoint accept_all (stringify : json -> jstring) (v : Validator) (offers : list offer) :
    list RunEvent * Validator :=
  match offers with
  | [] => ([], v)
  | o :: offers =>
      let '(r, v) := accept stringify (o_heap o) (o_invoke o) (o_root o) v in
      let '(out, v) := accept_all stringify v offers in
      (match r with Ok e => e :: out | Err _ => out end, v)
  end.

(** What the validator's state says of the events accepted so far. *)
Record stream_inv (v : Validator) (es : list RunEvent) : Prop := {
  si_ids e : e ∈ es -> maybeHas (eventIds v) (eventId e) = true;
  si_distinct : NoDup (eventId <$> es);
  si_recent x : x ∈ values (recentEventIds v) -> x ∈ eventId <$> es;
  si_last e : e ∈ es -> exists p, producerState v !! producerId e = Some p /\
    (epoch e < p_epoch p \/ epoch e = p_epoch p /\ seq_no e <= p_seq p) /\
    (epoch e = p_epoch p -> num_leb (monotonicTime e) (p_time p) = true);
  si_finite k p : producerState v !! k = Some p -> isFinite (p_time p) = true;
  si_order i j a b : (i < j)%nat -> es !! i = Some a -> es !! j = Some b ->
    producerId a = producerId b -> before a b;
  si_causes j b c : es !! j = Some b -> c ∈ causedBy b ->
    exists i a, (i < j)%nat /\ es !! i = Some a /\ eventId a = c;
  si_count : acceptedEvents v = Z.of_nat (length es);
  si_bound : Z.of_nat (length es) <= v_maxEvents v;
  si_producers : Z.of_nat (base.size (producerState v)) <= v_maxProducers v;
}.

Lemma num_ltb_false a b :
  isFinite a = true -> isFinite b = true -> num_ltb a b = false -> num_leb b a = true.
Proof. destruct a as [u| |], b as [v| |]; cbn; try done. intros _ _ H. by apply negb_false_iff in H. Qed.

(** What an accepted event passed, and the state it leaves. *)
Lemma acceptEvent_Ok v e e' v' :
  acceptEvent v e = (Ok e', v') ->
  e' = e /\ acceptedEvents v < v_maxEvents v /\ maybeHas (eventIds v) (eventId e) = false /\
  (producerState v !! producerId e = None ->
     Z.of_nat (base.size (producerState v)) < v_maxProducers v) /\
  (forall p, producerState v !! producerId e = Some p ->
     p_epoch p < epoch e \/ p_epoch p = epoch e /\ p_seq p < seq_no e /\
       num_ltb (monotonicTime e) (p_time p) = false) /\
  (forall c, c ∈ causedBy e -> c ∈ values (recentEventIds v)) /\
  v' = {| v_limits := v_limits v; v_maxEvents := v_maxEvents v; v_maxProducers := v_maxProducers v;
          eventIds := filter_add (eventIds v) (eventId e);
          recentEventIds := recent_add (recentEventIds v) (eventId e);
          producerState :=
            <[producerId e := {| p_epoch := epoch e; p_seq := seq_no e; p_time := monotonicTime e |}]>
              (producerState v);
          acceptedEvents := acceptedEvents v + 1 |}.
Proof.
  unfold acceptEvent. intros H.
  destruct (v_maxEvents v <=? acceptedEvents v) eqn:E1; [done|].
  destruct (maybeHas _ _) eqn:E2; [done|].
  destruct (match producerState v !! producerId e with Some _ => false | None => _ end) eqn:E3; [done|].
  destruct (match producerState v !! producerId e with Some p => epoch e <? _ | None => _ end) eqn:E4; [done|].
  destruct (match producerState v !! producerId e with Some p => _ && (_ <=? _) | None => _ end) eqn:E5; [done|].
  destruct (match producerState v !! producerId e with Some p => _ && num_ltb _ _ | None => _ end) eqn:E6; [done|].
  destruct (forallb _ _) eqn:E7; [|done]. cbn [negb] in H. injection H as <- <-.
  split_and!; [done|by apply Z.leb_gt|done| | | |done].
  - intros Hn. rewrite Hn in E3. by apply Z.leb_gt.
  - intros p Hp. rewrite Hp in *. breflect. destruct (Z.eqb_spec (epoch e) (p_epoch p)) as [He|He]; cbn in *.
    + right. breflect. auto.
    + left. lia.
  - intros c Hc. rewrite forallb_forall in E7. apply list_elem_of_In, E7 in Hc.
    unfold recent_has in Hc. by breflect.
Qed.

Lemma recent_add_values r v x : x ∈ values (recent_add r v) -> x = v \/ x ∈ values r.
Proof.
  unfold recent_add. cbn [values]. rewrite elem_of_union, elem_of_singleton. intros [->|H]; [by left|].
  right. destruct (_ =? _)%nat; [|done]. destruct (ring r !! _); [|done]. set_solver.
Qed.

Lemma stream_inv_accept v es e v' :
  isFinite (monotonicTime e) = true -> stream_inv v es -> acceptEvent v e = (Ok e, v') ->
  stream_inv v' (es ++ [e]).
Proof.
  intros Hfin [] H. apply acceptEvent_Ok in H as (_ & Hcap & Hnew & Hprod & Hprev & Hcause & ->).
  assert (forall a, a ∈ es -> producerId a = producerId e -> before a e) as Hbefore.
  { intros a Ha Hp. destruct (si_last0 a Ha) as (p & Hst & Hle & Ht). rewrite Hp in Hst.
    pose proof (si_finite0 _ _ Hst) as Hpf.
    destruct (Hprev p Hst) as [Hlt|(He & Hs & Hm)]; unfold before.
    - split; [left; lia|]. intros Heq. lia.
    - split; [lia|]. intros Heq. eapply num_leb_trans; [apply Ht; lia|by apply num_ltb_false]. }
  constructor; cbn [eventIds recentEventIds producerState acceptedEvents v_maxEvents v_maxProducers].
  - intros a [Ha| ->%list_elem_of_singleton]%elem_of_app; [by apply filter_add_mono, si_ids0|apply filter_add_has].
  - rewrite fmap_app. apply NoDup_app. split_and!; [done| |apply NoDup_singleton].
    intros x (a & -> & Ha)%list_elem_of_fmap Heq%list_elem_of_singleton.
    pose proof (si_ids0 a Ha). congruence.
  - intros x Hx. rewrite fmap_app. apply elem_of_app. apply recent_add_values in Hx as [->|Hx]; [right|left; auto].
    by apply list_elem_of_singleton.
  - intros a [Ha| ->%list_elem_of_singleton]%elem_of_app.
    + destruct (decide (producerId e = producerId a)) as [Hp|Hp].
      * rewrite Hp, lookup_insert_eq. eexists. split; [done|]. cbn.
        destruct (Hbefore a Ha ltac:(done)) as [Hl Ht]. split; [lia|done].
      * rewrite lookup_insert_ne by done. auto.
    + rewrite lookup_insert_eq. eexists. split; [done|]. cbn. split; [lia|]. intros _. by apply num_leb_refl, isFinite_not_NaN.
  - intros k p [[_ <-]|[_ Hk]]%lookup_insert_Some; [done|eauto].
  - intros i j a b Hij Ha Hb Hp. apply lookup_app_Some in Hb as [Hb|[Hlen Hb]].
    + apply lookup_lt_Some in Hb as Hlt. rewrite lookup_app_l in Ha by lia. eauto.
    + assert (j = length es) as -> by (apply lookup_lt_Some in Hb; cbn in Hb; lia).
      rewrite Nat.sub_diag in Hb. injection Hb as <-. rewrite lookup_app_l in Ha by lia.
      apply Hbefore; [by eapply list_elem_of_lookup_2|done].
  - intros j b c Hb Hc. apply lookup_app_Some in Hb as [Hb|[Hlen Hb]].
    + destruct (si_causes0 j b c Hb Hc) as (i & a & Hi & Ha & <-). exists i, a.
      apply lookup_lt_Some in Ha as Hlt. by rewrite lookup_app_l by done.
    + assert (j = length es) as -> by (apply lookup_lt_Some in Hb; cbn in Hb; lia).
      rewrite Nat.sub_diag in Hb. injection Hb as <-.
      apply Hcause, si_recent0, list_elem_of_fmap in Hc as (a & -> & Ha).
      apply list_elem_of_lookup in Ha as [i Hi]. exists i, a. apply lookup_lt_Some in Hi as Hlt.
      rewrite lookup_app_l by done. done.
  - rewrite length_app. cbn. lia.
  - rewrite length_app. cbn. lia.
  - destruct (producerState v !! producerId e) as [p|] eqn:Hp.
    + rewrite map_size_insert_Some by eauto. done.
    + rewrite map_size_insert_None by done. specialize (Hprod eq_refl). lia.
Qed.

Lemma acceptEvent_Err v e c v' : acceptEvent v e = (Err c, v') -> v' = v.
Proof.
  unfold acceptEvent. intros H.
  repeat match type of H with (if ?b then _ else _) = _ => destruct b; [by injection H|] end.
  discriminate.
Qed.

Lemma acceptEvent_same v e e' v' : acceptEvent v e = (Ok e', v') -> e' = e.
Proof. intros H. by apply acceptEvent_Ok in H as (-> & _). Qed.

Lemma time_finite v n : time v = Some n -> isFinite n = true.
Proof.
  unfold time. destruct (v ≫= json_number) as [x|]; [|done]. destruct (isFinite x) eqn:E; [|done].
  destruct (num_leb _ x); [|done]. by intros [= <-].
Qed.

Lemma or_else_Ok {A} (x : option A) e a : or_else x e = Ok a -> x = Some a.
Proof. destruct x; cbn; [by intros [= ->]|done]. Qed.

Lemma checkEnvelope_finite stringify b doc e :
  checkEnvelope stringify b doc = Ok e -> isFinite (monotonicTime e) = true.
Proof.
  unfold checkEnvelope. destruct doc as [| | | | | |m]; try done. intros H.
  repeat (apply bind_Ok in H as (? & ? & H)). cbv beta in H.
  repeat match type of H with (let '(_, _) := ?x in _) = _ => destruct x end.
  repeat (apply bind_Ok in H as (? & ? & H)).
  injection H as <-. cbn [monotonicTime].
  match goal with H : or_else (time _) _ = Ok _ |- _ => apply or_else_Ok in H; by apply time_finite in H end.
Qed.

Lemma stream_inv_all stringify v es offers out v' :
  stream_inv v es -> accept_all stringify v offers = (out, v') -> stream_inv v' (es ++ out).
Proof.
  revert v es out. induction offers as [|o offers IH]; intros v es out H Ha; cbn in Ha.
  - injection Ha as <- <-. by rewrite app_nil_r.
  - destruct (accept _ _ _ _ v) as [r v1] eqn:E.
    destruct (accept_all stringify v1 offers) as [out1 v2] eqn:E2.
    unfold accept in E. destruct (validateRunEvent _ _ _ _ _) as [e|c] eqn:Ev.
    + assert (isFinite (monotonicTime e) = true) as Hfin.
      { unfold validateRunEvent in Ev. apply bind_Ok in Ev as (b & _ & Ev).
        apply bind_Ok in Ev as (doc & _ & Ev). by eapply checkEnvelope_finite. }
      destruct r as [e'|c]; injection Ha as <- <-.
      * assert (e' = e) as -> by by eapply acceptEvent_same.
        change (es ++ e :: out1) with (es ++ [e] ++ out1). rewrite (assoc_L (++)).
        eapply IH; [|exact E2]. by eapply stream_inv_accept.
      * apply acceptEvent_Err in E as ->. by eapply IH.
    + injection E as <- <-. injection Ha as <- <-. by eapply IH.
Qed.

Lemma newValidator_inv limits stream v : newValidator limits stream = Some v -> stream_inv v [].
Proof.
  unfold newValidator. destruct (validateLimits limits); [|done].
  destruct (validateStreamLimits stream) as [[[[[e p] r] b] h]|] eqn:E; [|done]. intros [= <-].
  unfold validateStreamLimits in E.
  assert (forall n z, positive_safe n = Some z -> 0 < z) as Hpos.
  { intros n z. unfold positive_safe. destruct (to_safe_integer n); [|done].
    destruct (Z.leb_spec z0 0); [done|]. by intros [= <-]. }
  destruct (positive_safe (maxEvents stream)) eqn:E1; [|done].
  destruct (positive_safe (maxProducers stream)) eqn:E2; [|done].
  destruct (positive_safe (maxRecentEventIds stream)); [|done].
  destruct (positive_safe (eventIdFilterBits stream)); [|done].
  destruct (positive_safe (eventIdFilterHashes stream)); [|done].
  destruct (_ || _); [done|]. injection E as -> -> -> -> ->.
  apply Hpos in E1, E2.
  constructor; cbn; try done; try lia; try set_solver; [constructor|].
  rewrite map_size_empty. cbn. lia.
Qed.

(** C32 Whatever values are offered, the stream a fresh validator accepts is well
    ordered and causally closed: event ids are pairwise distinct; per producer
    the (epoch, sequence) coordinates strictly increase and the monotonic clock
    does not go back within an epoch; every cause an event names was accepted
    before it, so causality is acyclic; and the configured numbers of events
    and producers are respected. *)
Theorem accepted_stream_ordered stringify limits stream v offers out v' :
  newValidator limits stream = Some v -> accept_all stringify v offers = (out, v') ->
  NoDup (eventId <$> out) /\
  (forall i j a b, (i < j)%nat -> out !! i = Some a -> out !! j = Some b ->
     producerId a = producerId b -> before a b) /\
  (forall j b c, out !! j = Some b -> c ∈ causedBy b ->
     exists i a, (i < j)%nat /\ out !! i = Some a /\ eventId a = c) /\
  Z.of_nat (length out) <= v_maxEvents v' /\
  Z.of_nat (base.size (producerState v')) <= v_maxProducers v'.
Proof.
  intros Hv Ha. pose proof (stream_inv_all _ v [] offers out v' (newValidator_inv _ _ _ Hv) Ha) as [].
  cbn [app] in *. split_and!; eauto.
Qed.

(** ** Revalidation

    The copy an earlier validation returned passes again, unchanged: the
    journal validates an event and then offers it to the stream validator. *)

Lemma visitString_tree b s j : visitString b s = Ok j -> j = JStr s /\ visitString b s = Ok (JStr s).
Proof. unfold visitString. destruct (_ <? _); [done|]. by intros [= <-]. Qed.

Section Revalidate.
Context (b : Bounds) (h : heap) (invoke : positive -> nat -> option value).

Definition tree_ok (room : nat) : Prop := forall v entries seen j entries' seen',
  visit b h invoke room v (entries, seen) = Ok (j, (entries', seen')) ->
  visitTree b room j entries = Ok entries'.

Lemma items_tree room a index slots entries seen items entries' seen' :
  tree_ok room ->
  visitItems b invoke (visit b h invoke room) a index slots (entries, seen) = Ok (items, (entries', seen')) ->
  treeItems b (visitTree b room) items entries = Ok entries'.
Proof.
  intros Hok. revert index entries seen items. induction slots as [|d slots IH];
    intros index entries seen items H; cbn [visitItems] in H.
  - by injection H as <- <- <-.
  - destruct (match d with Some _ => _ | None => _ end) as [item|]; [|done].
    apply bind_Ok in H as (e1 & He1 & H). apply bind_Ok in H as ([child [e2 s2]] & Hc & H).
    apply bind_Ok in H as ([rest [e3 s3]] & Hr & H). injection H as <- <- <-.
    cbn [treeItems]. rewrite He1. cbn [mbind result_bind]. rewrite (Hok _ _ _ _ _ _ Hc).
    cbn [mbind result_bind]. by eapply IH.
Qed.

Lemma members_tree room props entries seen members entries' seen' :
  tree_ok room ->
  visitMembers b (visit b h invoke room) props (entries, seen) = Ok (members, (entries', seen')) ->
  treeMembers b (visitTree b room) members entries = Ok entries'.
Proof.
  intros Hok. revert entries seen members. induction props as [|[key d] props IH];
    intros entries seen members H; cbn [visitMembers] in H.
  - by injection H as <- <- <-.
  - destruct d as [v [|]|[|]]; [|by eapply IH| |by eapply IH].
    + apply bind_Ok in H as ([] & Hk & H).
      apply bind_Ok in H as (e1 & He1 & H). apply bind_Ok in H as ([child [e2 s2]] & Hc & H).
      apply bind_Ok in H as ([rest [e3 s3]] & Hr & H). injection H as <- <- <-.
      cbn [treeMembers]. rewrite Hk. cbn [mbind result_bind]. rewrite He1. cbn [mbind result_bind].
      rewrite (Hok _ _ _ _ _ _ Hc). cbn [mbind result_bind]. by eapply IH.
    + apply bind_Ok in H as ([] & Hk & H). discriminate.
Qed.

Lemma visit_tree room : tree_ok room.
Proof.
  induction room as [|room IH]; intros v entries seen j entries' seen' H; destruct v as [| | | n | | s | |a];
    cbn [visit] in H; try done; try (by injection H as <- <- <-).
  - destruct (isFinite n) eqn:E; [|done]. injection H as <- <- <-. cbn [visitTree]. by rewrite E.
  - apply bind_Ok in H as (x & Hx & H). injection H as <- <- <-.
    apply visitString_tree in Hx as [-> Hx]. cbn [visitTree]. by rewrite Hx.
  - destruct (isFinite n) eqn:E; [|done]. injection H as <- <- <-. cbn [visitTree]. by rewrite E.
  - apply bind_Ok in H as (x & Hx & H). injection H as <- <- <-.
    apply visitString_tree in Hx as [-> Hx]. cbn [visitTree]. by rewrite Hx.
  - destruct (bool_decide _); [done|]. destruct (h !! a) as [o|]; [|done].
    destruct (o_proxy o); [done|]. destruct (negb _); [done|].
    destruct (o_contents o) as [slots extras hidden|props].
    + destruct (negb _); [done|]. apply bind_Ok in H as ([items [e1 s1]] & Hi & H).
      injection H as <- <- <-. cbn [visitTree]. by eapply items_tree.
    + destruct (bool_decide _); [|done]. apply bind_Ok in H as ([members [e1 s1]] & Hi & H).
      injection H as <- <- <-. cbn [visitTree]. by eapply members_tree.
Qed.
End Revalidate.

Lemma checkEnvelope_document stringify b doc e :
  checkEnvelope stringify b doc = Ok e -> document e = doc.
Proof.
  unfold checkEnvelope. destruct doc as [| | | | | |m]; try done. intros H.
  repeat (apply bind_Ok in H as (? & ? & H)). cbv beta in H.
  repeat match type of H with (let '(_, _) := ?x in _) = _ => destruct x end.
  repeat (apply bind_Ok in H as (? & ? & H)). by injection H as <-.
Qed.

(** Validation is idempotent: the frozen copy an accepted value was turned
    into is accepted again under the same limits and yields the same event, so
    the journal's second validation never refuses what its first let in. *)
Theorem validation_idempotent stringify h invoke limits v e :
  validateRunEvent stringify h invoke limits v = Ok e ->
  revalidateRunEvent stringify limits (document e) = Ok e.
Proof.
  unfold validateRunEvent, revalidateRunEvent. intros H.
  apply bind_Ok in H as (b & Hb & H). apply bind_Ok in H as (doc & Hd & H).
  rewrite Hb. cbn [mbind result_bind]. rewrite (checkEnvelope_document _ _ _ _ H).
  unfold projectJson in Hd. apply bind_Ok in Hd as ([j [entries seen]] & Hv & [= <-]).
  unfold projectTree. rewrite (visit_tree b h invoke _ _ _ _ _ _ _ Hv). done.
Qed.

(** ** A concrete stream *)

(** A heap holding one event document. *)
Definition sample_uuid (n : Z) : jstring :=
  js "00000000-0000-4000-8000-00000000000" ++ [48 + n].
Definition sample_heap (n sq : Z) (causes : list Z) : heap :=
  {[ 1%positive := Object false 0 ObjectPrototype (ObjectContents
       [(js "v", DataProperty (VNum (int 3)) true);
        (js "eventId", DataProperty (VStr (js "event:" ++ sample_uuid n)) true);
        (js "producerId", DataProperty (VStr (js "producer:" ++ sample_uuid 0)) true);
        (js "epoch", DataProperty (VNum (int 0)) true);
        (js "seq", DataProperty (VNum (int sq)) true);
        (js "eventClass", DataProperty (VStr (js "authoritative")) true);
        (js "type", DataProperty (VStr (js "run.started")) true);
        (js "monotonicTime", DataProperty (VNum (int sq)) true);
        (js "identity", DataProperty (VRef 2) true);
        (js "causedBy", DataProperty (VRef 3) true);
        (js "payload", DataProperty VNull true)]);
     2%positive := Object false 0 NullPrototype (ObjectContents
       [(js "invocationId", DataProperty (VStr (js "invocation:" ++ sample_uuid 0)) true)]);
     3%positive := Object false 0 ArrayPrototype (ArrayContents
       ((fun c => Some (DataProperty (VStr (js "event:" ++ sample_uuid c)) true)) <$> causes) 0 0) ]}.
Definition sample_offer (n sq : Z) (causes : list Z) : offer :=
  {| o_heap := sample_heap n sq causes; o_invoke := fun _ _ => None; o_root := VRef 1 |}.
Definition no_text (j : json) : jstring := [].

(** The second repeats a sequence number, the fourth names an unknown cause. *)
Definition sample_offers : list offer :=
  [sample_offer 1 0 []; sample_offer 2 0 []; sample_offer 3 1 [1]; sample_offer 4 2 [9]].

Definition sample_stream : RunEventStreamLimits :=
  {| maxEvents := int 10; maxProducers := int 2; maxRecentEventIds := int 4;
     eventIdFilterBits := int 1024; eventIdFilterHashes := int 3 |}.
Definition sample_validator : Validator :=
  {| v_limits := DEFAULT_RUN_EVENT_LIMITS; v_maxEvents := 10; v_maxProducers := 2;
     eventIds := {| words := ∅; filterBits := 1024; filterHashes := 3 |};
     recentEventIds := newRecent 4; producerState := ∅; acceptedEvents := 0 |}.

Lemma accepted_stream_ordered_witness :
  NoDup (eventId <$> (accept_all no_text sample_validator sample_offers).1) /\
  length (accept_all no_text sample_validator sample_offers).1 = 2%nat.
Proof.
  split; [|vm_compute; reflexivity].
  refine (proj1 (accepted_stream_ordered no_text DEFAULT_RUN_EVENT_LIMITS sample_stream
    sample_validator sample_offers (accept_all no_text sample_validator sample_offers).1
    (accept_all no_text sample_validator sample_offers).2 _ _)).
  - vm_compute. reflexivity.
  - apply surjective_pairing.
Defined.

Definition sample_event : RunEvent :=
  match validateRunEvent no_text (sample_heap 1 0 []) (fun _ _ => None) DEFAULT_RUN_EVENT_LIMITS (VRef 1) with
  | Ok e => e
  | Err _ => {| eventId := []; producerId := []; epoch := 0; seq_no := 0; eventClass := state;
                monotonicTime := NaN; invocationId := []; runId := None; causedBy := []; document := JNull |}
  end.

Lemma validation_idempotent_witness :
  revalidateRunEvent no_text DEFAULT_RUN_EVENT_LIMITS (document sample_event) = Ok sample_event.
Proof.
  apply (validation_idempotent no_text (sample_heap 1 0 []) (fun _ _ => None) DEFAULT_RUN_EVENT_LIMITS (VRef 1)).
  vm_compute. reflexivity.
Defined.

(** ** Producers *)

Lemma checkEnvelope_fields stringify b m e :
  checkEnvelope stringify b (JObj m) = Ok e ->
  id kind_producer (field m "producerId") = Some (producerId e) /\
  nonNegativeInteger (field m "epoch") = Some (epoch e) /\
  nonNegativeInteger (field m "seq") = Some (seq_no e) /\
  time (field m "monotonicTime") = Some (monotonicTime e).
Proof.
  unfold checkEnvelope. intros H.
  repeat (apply bind_Ok in H as (? & ? & H)). cbv beta in H.
  repeat match type of H with (let '(_, _) := ?x in _) = _ => destruct x end.
  repeat (apply bind_Ok in H as (? & ? & H)). injection H as <-.
  repeat match goal with H : or_else _ _ = Ok _ |- _ => apply or_else_Ok in H end. done.
Qed.

Lemma nonNegativeInteger_int z x : nonNegativeInteger (Some (JNum (int z))) = Some x -> x = z.
Proof.
  unfold nonNegativeInteger. cbn [mbind option_bind json_number]. destruct (to_safe_integer (int z)) as [y|] eqn:E; [|done].
  apply to_safe_integer_Some in E as [E _]. apply (f_equal to_integer) in E.
  rewrite !to_integer_int in E. injection E as <-. destruct (0 <=? z); [|done]. by intros [= <-].
Qed.

Section ProducerStream.
Context (stringify : json -> jstring).
Context (monotonicNow : nat -> number) (wallNow : option (nat -> number)) (randomUUID : nat -> jstring).
Context (limits : RunEventLimits).

Abbreviation emit_one := (emit stringify monotonicNow wallNow randomUUID limits).

(** The events a producer issues; an input that throws issues none. *)
Fixpoint emit_all (inputs : list ProduceRunEventInput) (p : Producer) : list RunEvent * Producer :=
  match inputs with
  | [] => ([], p)
  | i :: inputs =>
      let '(r, p) := emit_one i p in
      let '(out, p) := emit_all inputs p in
      (match r with Ok e => e :: out | Err _ => out end, p)
  end.

Definition same_coordinates (p p' : Producer) : Prop :=
  pr_id p' = pr_id p /\ pr_epoch p' = pr_epoch p /\ pr_seq p' = pr_seq p /\ pr_last p' = pr_last p.

Lemma createEventId_coordinates n p r p' :
  createEventId randomUUID n p = (r, p') -> same_coordinates p p'.
Proof.
  unfold same_coordinates. revert p. induction n as [|n IH]; intros p H; cbn [createEventId] in H.
  - by injection H as <- <-.
  - destruct (createRunId _ _); [|by injection H as <- <-].
    destruct (recent_has _ _); [by apply IH in H|by injection H as <- <-].
Qed.

Lemma emit_Err i p c p' : emit_one i p = (Err c, p') -> same_coordinates p p'.
Proof.
  unfold emit. destruct (_ <? _); [by intros [= <- <-]|]. cbn zeta.
  destruct (_ || _); [by intros [= <- <-]|].
  destruct (createEventId _ _ _) as [[eid|c'] p1] eqn:E; apply createEventId_coordinates in E.
  - destruct (revalidateRunEvent _ _ _); [done|]. by intros [= <- <-].
  - by intros [= <- <-].
Qed.

Lemma emit_Ok i p e p' :
  emit_one i p = (Ok e, p') ->
  producerId e = pr_id p /\ epoch e = pr_epoch p /\ seq_no e = pr_seq p /\
  num_ltb (monotonicTime e) (pr_last p) = false /\ isFinite (monotonicTime e) = true /\
  pr_id p' = pr_id p /\ pr_epoch p' = pr_epoch p /\ pr_seq p' = pr_seq p + 1 /\
  pr_last p' = monotonicTime e.
Proof.
  unfold emit. destruct (_ <? _); [done|]. cbn zeta.
  destruct (negb (isFinite (monotonicNow (pr_reads p)) && _) || _) eqn:Et; [done|].
  destruct (createEventId _ _ _) as [[eid|c'] p1] eqn:E; [|done].
  apply createEventId_coordinates in E as (E1 & E2 & E3 & E4). cbn in E1, E2, E3, E4.
  destruct (revalidateRunEvent _ _ _) as [ev|] eqn:Er; [|done]. intros [= <- <-].
  unfold revalidateRunEvent, projectTree in Er. apply bind_Ok in Er as (b & _ & Er).
  apply bind_Ok in Er as (doc & Hd & Er). apply bind_Ok in Hd as (? & _ & [= <-]).
  apply checkEnvelope_fields in Er as (Hp & He & Hs & Ht).
  assert (producerId ev = pr_id p1) as ->.
  { revert Hp. change (id kind_producer (Some (JStr (pr_id p1))) = Some (producerId ev) -> producerId ev = pr_id p1).
    unfold id. destruct (ID_PATTERNS_test _ _); [|done]. by intros [= <-]. }
  assert (epoch ev = pr_epoch p1) as -> by by apply nonNegativeInteger_int.
  assert (seq_no ev = pr_seq p1) as -> by by apply nonNegativeInteger_int.
  assert (monotonicTime ev = monotonicNow (pr_reads p)) as ->.
  { revert Ht. change (time (Some (JNum (monotonicNow (pr_reads p)))) = Some (monotonicTime ev) ->
      monotonicTime ev = monotonicNow (pr_reads p)).
    unfold time. cbn [mbind option_bind json_number]. destruct (_ && _); [|done]. by intros [= <-]. }
  breflect. cbn in *. split_and!; (done || congruence || lia).
Qed.

(** Everything issued from [p] on. *)
Lemma emit_all_spec inputs p out p' :
  isFinite (pr_last p) = true -> emit_all inputs p = (out, p') ->
  forall i e, out !! i = Some e ->
    producerId e = pr_id p /\ epoch e = pr_epoch p /\ seq_no e = pr_seq p + Z.of_nat i /\
    isFinite (monotonicTime e) = true /\ num_leb (pr_last p) (monotonicTime e) = true /\
    forall j e', (i < j)%nat -> out !! j = Some e' ->
      num_leb (monotonicTime e) (monotonicTime e') = true.
Proof.
  revert p out. induction inputs as [|x inputs IH]; intros p out Hf H i e He; cbn [emit_all] in H.
  { injection H as <- <-. by rewrite lookup_nil in He. }
  destruct (emit_one x p) as [r p1] eqn:E. destruct (emit_all inputs p1) as [out1 p2] eqn:E2.
  destruct r as [e0|c]; injection H as <- <-.
  - apply emit_Ok in E as (H1 & H2 & H3 & Hlt & Hfin & P1 & P2 & P3 & P4).
    assert (isFinite (pr_last p1) = true) as Hf1 by by rewrite P4.
    specialize (IH p1 out1 Hf1 E2). rewrite P1, P2, P3, P4 in IH.
    pose proof (num_ltb_false _ _ Hfin Hf Hlt) as Hle.
    destruct i as [|i]; cbn in He.
    + injection He as ->. split_and!; [done|done|lia|done|done|].
      intros [|j] e' Hj He'; [lia|]. cbn in He'. by destruct (IH j e' He') as (_ & _ & _ & _ & ? & _).
    + destruct (IH i e He) as (I1 & I2 & I3 & If & I4 & I5). split_and!; [done|done|lia|done| |].
      * by eapply num_leb_trans.
      * intros [|j] e' Hj He'; [lia|]. apply (I5 j e'); [lia|done].
  - apply emit_Err in E as (E3 & E4 & E5 & E6). rewrite <- E3, <- E4, <- E5, <- E6.
    eapply IH; [congruence|done|done].
Qed.

Lemma newProducer_spec pid ep p :
  newProducer pid ep = Some p -> pr_id p = pid /\ pr_seq p = 0 /\ isFinite (pr_last p) = true.
Proof.
  unfold newProducer. destruct (to_safe_integer ep); [|done]. destruct (_ || _); [done|]. by intros [= <-].
Qed.

Definition regression (c : RunEventViolationCode) : bool :=
  match c with
  | epoch_regression | sequence_regression | monotonic_time_regression => true
  | _ => false
  end.

(** The answers of the stream validator to a list of events. *)
Fixpoint answers (v : Validator) (es : list RunEvent) : list (checked RunEvent) :=
  match es with
  | [] => []
  | e :: es => let '(r, v) := acceptEvent v e in r :: answers v es
  end.

Lemma answers_in_order pid v es :
  (forall i a, es !! i = Some a -> producerId a = pid /\ isFinite (monotonicTime a) = true /\
     (forall p, producerState v !! pid = Some p ->
        p_epoch p = epoch a /\ p_seq p < seq_no a /\ isFinite (p_time p) = true /\
        num_leb (p_time p) (monotonicTime a) = true) /\
     (forall j b, (i < j)%nat -> es !! j = Some b ->
        epoch a = epoch b /\ seq_no a < seq_no b /\
        num_leb (monotonicTime a) (monotonicTime b) = true)) ->
  forall c, Err c ∈ answers v es -> regression c = false.
Proof.
  revert v. induction es as [|e es IH]; intros v H c Hc; cbn [answers] in Hc; [by apply elem_of_nil in Hc|].
  destruct (acceptEvent v e) as [r v1] eqn:E. destruct (H 0%nat e eq_refl) as (Hp & Hf & Hst & Hlater).
  apply elem_of_cons in Hc as [Hc|Hc].
  - subst r. unfold acceptEvent in E. rewrite Hp in E.
    destruct (producerState v !! pid) as [p|].
    + destruct (Hst p eq_refl) as (He & Hs & Hpf & Ht).
      repeat match type of E with (if ?b then _ else _) = _ => destruct b eqn:?; [injection E as <- _; try done|] end;
        try done; exfalso; breflect.
      * lia.
      * lia.
      * destruct (monotonicTime e) as [u| |], (p_time p) as [w| |]; try done. cbn in *. breflect. lia.
    + repeat match type of E with (if ?b then _ else _) = _ => destruct b eqn:?; [injection E as <- _; try done|] end;
        done.
  - eapply (IH v1); [|exact Hc]. intros i a Ha. destruct (H (S i) a Ha) as (Hpa & Hfa & Hsta & Hlatera).
    split_and!; [done|done| |].
    + intros p Hp1. destruct r as [e'|c'].
      * assert (e' = e) as -> by by eapply acceptEvent_same.
        apply acceptEvent_Ok in E as (_ & _ & _ & _ & _ & _ & ->). cbn in Hp1. rewrite Hp, lookup_insert_eq in Hp1.
        injection Hp1 as <-. cbn. destruct (Hlater (S i) a ltac:(lia) Ha) as (? & ? & ?). done.
      * apply acceptEvent_Err in E as ->. auto.
    + intros j b0 Hj Hb. apply (Hlatera (S j) b0); [lia|done].
Qed.

(** A producer cannot issue events out of order: whatever is emitted, and
    even when some emissions throw, its events carry its own id and epoch and
    consecutive sequence numbers from zero with a clock that never goes back;
    offered in that order to a stream validator that does not know the producer
    yet, none of them is refused as a regression. *)
Theorem producer_stream_in_order pid ep p inputs out p' v :
  newProducer pid ep = Some p -> emit_all inputs p = (out, p') ->
  producerState v !! pid = None ->
  (forall i e, out !! i = Some e ->
     producerId e = pid /\ epoch e = pr_epoch p /\ seq_no e = Z.of_nat i) /\
  (forall i j a b, (i < j)%nat -> out !! i = Some a -> out !! j = Some b -> before a b) /\
  (forall c, Err c ∈ answers v out -> regression c = false).
Proof.
  intros Hp Ho Hv. destruct (newProducer_spec _ _ _ Hp) as (Hid & H0 & Hf).
  pose proof (emit_all_spec inputs p out p' Hf Ho) as Hall.
  split_and!.
  - intros i e He. destruct (Hall i e He) as (? & ? & ? & _). split_and!; [congruence|done|lia].
  - intros i j a b Hij Ha Hb. destruct (Hall i a Ha) as (_ & Ea & Sa & _ & _ & Hl).
    destruct (Hall j b Hb) as (_ & Eb & Sb & _). split; [right; split; [congruence|lia]|].
    intros _. by eapply Hl.
  - apply (answers_in_order pid). intros i a Ha. destruct (Hall i a Ha) as (Pa & Ea & Sa & Fa & _ & Hl).
    split_and!; [congruence|done|congruence|]. intros j b Hij Hb.
    destruct (Hall j b Hb) as (_ & Eb & Sb & _). split_and!; [congruence|lia|by eapply Hl].
Qed.
End ProducerStream.

Definition sample_input (payload : json) : ProduceRunEventInput :=
  {| in_class := diagnostic; in_type := js "log.line";
     in_identity := JObj [(js "invocationId", JStr (js "invocation:" ++ sample_uuid 0))];
     in_causedBy := None; in_payload := payload |}.
Definition sample_producer : Producer :=
  {| pr_id := js "producer:" ++ sample_uuid 0; pr_epoch := 0; pr_recent := newRecent 4096;
     pr_seq := 0; pr_last := int 0; pr_reads := 0; pr_draws := 0 |}.
Definition sample_clock (n : nat) : number := int (Z.of_nat n).
Definition sample_uuids (n : nat) : jstring := sample_uuid (Z.of_nat n).

(** The middle input throws: its payload is not finite. *)
Lemma producer_stream_in_order_witness :
  length (emit_all no_text sample_clock None sample_uuids DEFAULT_RUN_EVENT_LIMITS
            [sample_input JNull; sample_input (JNum NaN); sample_input JNull] sample_producer).1 = 2%nat /\
  forall i e, (emit_all no_text sample_clock None sample_uuids DEFAULT_RUN_EVENT_LIMITS
                 [sample_input JNull; sample_input (JNum NaN); sample_input JNull] sample_producer).1 !! i = Some e ->
  producerId e = js "producer:" ++ sample_uuid 0 /\ epoch e = 0 /\ seq_no e = Z.of_nat i.
Proof.
  split; [vm_compute; reflexivity|].
  refine (proj1 (producer_stream_in_order no_text sample_clock None sample_uuids DEFAULT_RUN_EVENT_LIMITS
    (js "producer:" ++ sample_uuid 0) (int 0) sample_producer
    [sample_input JNull; sample_input (JNum NaN); sample_input JNull] _
    (emit_all no_text sample_clock None sample_uuids DEFAULT_RUN_EVENT_LIMITS
       [sample_input JNull; sample_input (JNum NaN); sample_input JNull] sample_producer).2
    sample_validator _ _ _)).
  - reflexivity.
  - apply surjective_pairing.
  - reflexivity.
Defined.
