(* ===== verification/RunJournal.v ===== *)
(** * The run-event journal (packages/protocol/src/run-journal.ts)

    The in-memory ordering core of the test host: authoritative events are
    never dropped, state events are coalesced per key between barriers, and
    diagnostics are bounded, every eviction being counted by a gap event.

    [flushThrough] awaits its sink, so other calls may run while a batch is out:
    it is modelled by two steps, [flushStart] and [flushEnd].  Entries and gaps
    are identified by their ordinals, which are never reused. *)

From S2P Require Import Prelude JsText Dto RunEvents EventStream.

Local Open Scope Z_scope.

(** ** Data *)

Record RunEventJournalLimits : Type := {
  maxAuthoritativeEvents : Z;
  maxStateKeys : Z;
  maxDiagnosticEvents : Z;
  maxPendingBytes : Z;
}.

Definition DEFAULT_RUN_EVENT_JOURNAL_LIMITS : RunEventJournalLimits :=
  {| maxAuthoritativeEvents := 10000; maxStateKeys := 10000; maxDiagnosticEvents := 1000;
     maxPendingBytes := 16 * 1024 * 1024 |}.

Inductive JournalViolationCode : Type :=
| event_violation (c : RunEventViolationCode)
| stale_run | journal_full | state_key_required | invalid_barrier.

Record JournalEntry : Type := {
  ordinal : Z;
  event : RunEvent;
  entry_bytes : Z;
  stateKey : option jstring;
}.

(** [gap_event] is set when the gap is sealed. *)
Record DiagnosticGap : Type := {
  gap_ordinal : Z;
  gap_count : Z;
  firstEventId : jstring;
  lastEventId : jstring;
  gap_event : option RunEvent;
  gap_bytes : Z;
}.

Definition DIAGNOSTIC_GAP_RESERVATION_BYTES : Z := 4 * 1024.

Record RunEventFlushBarrier : Type := {
  b_token : Z;
  highWaterMark : Z;
}.

(** A batch handed to the sink: the ordinals it covers and what it contains. *)
Record Flight : Type := {
  f_mark : Z;
  f_ordinary : list Z;
  f_gaps : list Z;
  f_batch : list RunEvent;
}.

Record Journal : Type := mkJournal {
  j_invocation : jstring;
  j_run : jstring;
  j_limits : RunEventJournalLimits;
  validator : Validator;
  gapProducer : Producer;
  entries : list JournalEntry;
  currentState : gmap jstring JournalEntry;
  gaps : list DiagnosticGap;
  barriers : gmap Z Z;
  counts : RunEventClass -> Z;
  openGap : option DiagnosticGap;
  nextOrdinal : Z;
  nextBarrierToken : Z;
  flushedThrough : Z;
  sealedThrough : Z;
  flight : option Flight;
  pendingBytes : Z;
  peakPending : Z;
  peakPendingBytes : Z;
  journalEvents : Z;
  journalBytes : Z;
}.

Definition set_validator (x : Validator) (j : Journal) : Journal :=
  mkJournal j.(j_invocation) j.(j_run) j.(j_limits) x j.(gapProducer) j.(entries) j.(currentState)
    j.(gaps) j.(barriers) j.(counts) j.(openGap) j.(nextOrdinal) j.(nextBarrierToken)
    j.(flushedThrough) j.(sealedThrough) j.(flight) j.(pendingBytes) j.(peakPending)
    j.(peakPendingBytes) j.(journalEvents) j.(journalBytes).
Definition set_gapProducer (x : Producer) (j : Journal) : Journal :=
  mkJournal j.(j_invocation) j.(j_run) j.(j_limits) j.(validator) x j.(entries) j.(currentState)
    j.(gaps) j.(barriers) j.(counts) j.(openGap) j.(nextOrdinal) j.(nextBarrierToken)
    j.(flushedThrough) j.(sealedThrough) j.(flight) j.(pendingBytes) j.(peakPending)
    j.(peakPendingBytes) j.(journalEvents) j.(journalBytes).
Definition set_entries (x : list JournalEntry) (j : Journal) : Journal :=
  mkJournal j.(j_invocation) j.(j_run) j.(j_limits) j.(validator) j.(gapProducer) x
    j.(currentState) j.(gaps) j.(barriers) j.(counts) j.(openGap) j.(nextOrdinal)
    j.(nextBarrierToken) j.(flushedThrough) j.(sealedThrough) j.(flight) j.(pendingBytes)
    j.(peakPending) j.(peakPendingBytes) j.(journalEvents) j.(journalBytes).
Definition set_currentState (x : gmap jstring JournalEntry) (j : Journal) : Journal :=
  mkJournal j.(j_invocation) j.(j_run) j.(j_limits) j.(validator) j.(gapProducer) j.(entries) x
    j.(gaps) j.(barriers) j.(counts) j.(openGap) j.(nextOrdinal) j.(nextBarrierToken)
    j.(flushedThrough) j.(sealedThrough) j.(flight) j.(pendingBytes) j.(peakPending)
    j.(peakPendingBytes) j.(journalEvents) j.(journalBytes).
Definition set_gaps (x : list DiagnosticGap) (j : Journal) : Journal :=
  mkJournal j.(j_invocation) j.(j_run) j.(j_limits) j.(validator) j.(gapProducer) j.(entries)
    j.(currentState) x j.(barriers) j.(counts) j.(openGap) j.(nextOrdinal) j.(nextBarrierToken)
    j.(flushedThrough) j.(sealedThrough) j.(flight) j.(pendingBytes) j.(peakPending)
    j.(peakPendingBytes) j.(journalEvents) j.(journalBytes).
Definition set_barriers (x : gmap Z Z) (j : Journal) : Journal :=
  mkJournal j.(j_invocation) j.(j_run) j.(j_limits) j.(validator) j.(gapProducer) j.(entries)
    j.(currentState) j.(gaps) x j.(counts) j.(openGap) j.(nextOrdinal) j.(nextBarrierToken)
    j.(flushedThrough) j.(sealedThrough) j.(flight) j.(pendingBytes) j.(peakPending)
    j.(peakPendingBytes) j.(journalEvents) j.(journalBytes).
Definition set_counts (x : RunEventClass -> Z) (j : Journal) : Journal :=
  mkJournal j.(j_invocation) j.(j_run) j.(j_limits) j.(validator) j.(gapProducer) j.(entries)
    j.(currentState) j.(gaps) j.(barriers) x j.(openGap) j.(nextOrdinal) j.(nextBarrierToken)
    j.(flushedThrough) j.(sealedThrough) j.(flight) j.(pendingBytes) j.(peakPending)
    j.(peakPendingBytes) j.(journalEvents) j.(journalBytes).
Definition set_openGap (x : option DiagnosticGap) (j : Journal) : Journal :=
  mkJournal j.(j_invocation) j.(j_run) j.(j_limits) j.(validator) j.(gapProducer) j.(entries)
    j.(currentState) j.(gaps) j.(barriers) j.(counts) x j.(nextOrdinal) j.(nextBarrierToken)
    j.(flushedThrough) j.(sealedThrough) j.(flight) j.(pendingBytes) j.(peakPending)
    j.(peakPendingBytes) j.(journalEvents) j.(journalBytes).
Definition set_nextOrdinal (x : Z) (j : Journal) : Journal :=
  mkJournal j.(j_invocation) j.(j_run) j.(j_limits) j.(validator) j.(gapProducer) j.(entries)
    j.(currentState) j.(gaps) j.(barriers) j.(counts) j.(openGap) x j.(nextBarrierToken)
    j.(flushedThrough) j.(sealedThrough) j.(flight) j.(pendingBytes) j.(peakPending)
    j.(peakPendingBytes) j.(journalEvents) j.(journalBytes).
Definition set_nextBarrierToken (x : Z) (j : Journal) : Journal :=
  mkJournal j.(j_invocation) j.(j_run) j.(j_limits) j.(validator) j.(gapProducer) j.(entries)
    j.(currentState) j.(gaps) j.(barriers) j.(counts) j.(openGap) j.(nextOrdinal) x
    j.(flushedThrough) j.(sealedThrough) j.(flight) j.(pendingBytes) j.(peakPending)
    j.(peakPendingBytes) j.(journalEvents) j.(journalBytes).
Definition set_flushedThrough (x : Z) (j : Journal) : Journal :=
  mkJournal j.(j_invocation) j.(j_run) j.(j_limits) j.(validator) j.(gapProducer) j.(entries)
    j.(currentState) j.(gaps) j.(barriers) j.(counts) j.(openGap) j.(nextOrdinal)
    j.(nextBarrierToken) x j.(sealedThrough) j.(flight) j.(pendingBytes) j.(peakPending)
    j.(peakPendingBytes) j.(journalEvents) j.(journalBytes).
Definition set_sealedThrough (x : Z) (j : Journal) : Journal :=
  mkJournal j.(j_invocation) j.(j_run) j.(j_limits) j.(validator) j.(gapProducer) j.(entries)
    j.(currentState) j.(gaps) j.(barriers) j.(counts) j.(openGap) j.(nextOrdinal)
    j.(nextBarrierToken) j.(flushedThrough) x j.(flight) j.(pendingBytes) j.(peakPending)
    j.(peakPendingBytes) j.(journalEvents) j.(journalBytes).
Definition set_flight (x : option Flight) (j : Journal) : Journal :=
  mkJournal j.(j_invocation) j.(j_run) j.(j_limits) j.(validator) j.(gapProducer) j.(entries)
    j.(currentState) j.(gaps) j.(barriers) j.(counts) j.(openGap) j.(nextOrdinal)
    j.(nextBarrierToken) j.(flushedThrough) j.(sealedThrough) x j.(pendingBytes) j.(peakPending)
    j.(peakPendingBytes) j.(journalEvents) j.(journalBytes).
Definition set_pendingBytes (x : Z) (j : Journal) : Journal :=
  mkJournal j.(j_invocation) j.(j_run) j.(j_limits) j.(validator) j.(gapProducer) j.(entries)
    j.(currentState) j.(gaps) j.(barriers) j.(counts) j.(openGap) j.(nextOrdinal)
    j.(nextBarrierToken) j.(flushedThrough) j.(sealedThrough) j.(flight) x j.(peakPending)
    j.(peakPendingBytes) j.(journalEvents) j.(journalBytes).
Definition set_peakPending (x : Z) (j : Journal) : Journal :=
  mkJournal j.(j_invocation) j.(j_run) j.(j_limits) j.(validator) j.(gapProducer) j.(entries)
    j.(currentState) j.(gaps) j.(barriers) j.(counts) j.(openGap) j.(nextOrdinal)
    j.(nextBarrierToken) j.(flushedThrough) j.(sealedThrough) j.(flight) j.(pendingBytes) x
    j.(peakPendingBytes) j.(journalEvents) j.(journalBytes).
Definition set_peakPendingBytes (x : Z) (j : Journal) : Journal :=
  mkJournal j.(j_invocation) j.(j_run) j.(j_limits) j.(validator) j.(gapProducer) j.(entries)
    j.(currentState) j.(gaps) j.(barriers) j.(counts) j.(openGap) j.(nextOrdinal)
    j.(nextBarrierToken) j.(flushedThrough) j.(sealedThrough) j.(flight) j.(pendingBytes)
    j.(peakPending) x j.(journalEvents) j.(journalBytes).
Definition set_journalEvents (x : Z) (j : Journal) : Journal :=
  mkJournal j.(j_invocation) j.(j_run) j.(j_limits) j.(validator) j.(gapProducer) j.(entries)
    j.(currentState) j.(gaps) j.(barriers) j.(counts) j.(openGap) j.(nextOrdinal)
    j.(nextBarrierToken) j.(flushedThrough) j.(sealedThrough) j.(flight) j.(pendingBytes)
    j.(peakPending) j.(peakPendingBytes) x j.(journalBytes).
Definition set_journalBytes (x : Z) (j : Journal) : Journal :=
  mkJournal j.(j_invocation) j.(j_run) j.(j_limits) j.(validator) j.(gapProducer) j.(entries)
    j.(currentState) j.(gaps) j.(barriers) j.(counts) j.(openGap) j.(nextOrdinal)
    j.(nextBarrierToken) j.(flushedThrough) j.(sealedThrough) j.(flight) j.(pendingBytes)
    j.(peakPending) j.(peakPendingBytes) j.(journalEvents) x.

(** ** Helpers *)

Definition set_count (c : RunEventClass) (n : Z) (j : Journal) : Journal :=
  set_counts (fun d => if decide (d = c) then n else counts j d) j.

Definition is_word (c : Z) : bool :=
  (97 <=? c) && (c <=? 122) || (65 <=? c) && (c <=? 90) || (48 <=? c) && (c <=? 57).
Definition key_char (c : Z) : bool :=
  is_word c || (c =? 46) || (c =? 47) || (c =? 58) || (c =? 95) || (c =? 45).

(** [^[a-zA-Z0-9][a-zA-Z0-9./:_-]{0,255}$] *)
Definition validStateKey (k : option jstring) : bool :=
  match k with
  | Some (c :: s) => is_word c && forallb key_char s && (length s <=? 255)%nat
  | _ => false
  end.

(** [get pending] *)
Definition pending (j : Journal) : Z :=
  Z.of_nat (length (entries j)) + Z.of_nat (length (gaps j)) +
  match openGap j with Some _ => 1 | None => 0 end.

Definition observePeak (j : Journal) : Journal :=
  set_peakPendingBytes (Z.max (peakPendingBytes j) (pendingBytes j))
    (set_peakPending (Z.max (peakPending j) (pending j)) j).

Definition removeEntry (e : JournalEntry) (j : Journal) : Journal :=
  match find_index (fun x => ordinal x =? ordinal e) (entries j) with
  | Some i =>
      let c := eventClass (event e) in
      set_count c (counts j c - 1)
        (set_pendingBytes (pendingBytes j - entry_bytes e) (set_entries (delete i (entries j)) j))
  | None => j
  end.

Definition recordDiagnosticGap (dropped : JournalEntry) (j : Journal) : Journal :=
  match openGap j with
  | None =>
      observePeak
        (set_pendingBytes (pendingBytes j + DIAGNOSTIC_GAP_RESERVATION_BYTES)
          (set_openGap (Some {| gap_ordinal := ordinal dropped; gap_count := 1;
                                firstEventId := eventId (event dropped);
                                lastEventId := eventId (event dropped);
                                gap_event := None;
                                gap_bytes := DIAGNOSTIC_GAP_RESERVATION_BYTES |}) j))
  | Some g =>
      set_openGap (Some {| gap_ordinal := gap_ordinal g; gap_count := gap_count g + 1;
                           firstEventId := firstEventId g;
                           lastEventId := eventId (event dropped);
                           gap_event := gap_event g; gap_bytes := gap_bytes g |}) j
  end.

(** ** Appending *)

(** The diagnostics to drop for a new one, oldest first, with the projected
    count and bytes; [needs] says that no gap is open yet and none was dropped. *)
Fixpoint chooseDrops (limits : RunEventJournalLimits) (candidates : list JournalEntry)
    (needs : bool) (count bytes : Z) : list JournalEntry * Z * Z :=
  match candidates with
  | [] => ([], count, bytes)
  | c :: rest =>
      if (count <? maxDiagnosticEvents limits) && (bytes <=? maxPendingBytes limits)
      then ([], count, bytes)
      else
        let bytes := bytes - entry_bytes c +
                     (if needs then DIAGNOSTIC_GAP_RESERVATION_BYTES else 0) in
        let '(drops, count, bytes) := chooseDrops limits rest false (count - 1) bytes in
        (c :: drops, count, bytes)
  end.

Definition droppable (j : Journal) : list JournalEntry :=
  List.filter (fun e => bool_decide (eventClass (event e) = diagnostic) &&
                        (sealedThrough j <? ordinal e)) (entries j).

Section Journal.
Context (stringify : json -> jstring).
Context (monotonicNow : nat -> number) (wallNow : option (nat -> number)) (randomUUID : nat -> jstring).

Definition bytes_of (e : RunEvent) : Z := utf8_length (stringify (document e)).

(** Adds an accepted entry. *)
Definition pushEntry (e : JournalEntry) (j : Journal) : Journal :=
  let c := eventClass (event e) in
  observePeak
    (set_journalBytes (journalBytes j + entry_bytes e)
      (set_journalEvents (journalEvents j + 1)
        (set_count c (counts j c + 1)
          (set_pendingBytes (pendingBytes j + entry_bytes e)
            (set_entries (entries j ++ [e]) j))))).

Definition dropDiagnostics (drops : list JournalEntry) (j : Journal) : Journal :=
  foldl (fun j d => recordDiagnosticGap d (removeEntry d j)) j drops.

(** What [append] does with an event of this run. *)
Definition appendEvent (e : RunEvent) (key : option jstring) (j : Journal) :
    result JournalViolationCode Z * Journal :=
  let limits := j_limits j in
  let bytes := bytes_of e in
  let previousState := match eventClass e, key with
                       | state, Some k => currentState j !! k
                       | _, _ => None
                       end in
  let after := pendingBytes j -
               match previousState with Some p => entry_bytes p | None => 0 end + bytes in
  if negb (bool_decide (eventClass e = diagnostic)) &&
     ((maxPendingBytes limits <? bytes) || (maxPendingBytes limits <? after))
  then (Err journal_full, j)
  else if bool_decide (eventClass e = state) && negb (validStateKey key)
  then (Err state_key_required, j)
  else if bool_decide (eventClass e = authoritative) &&
          (maxAuthoritativeEvents limits <=? counts j authoritative)
  then (Err journal_full, j)
  else if bool_decide (eventClass e = state) &&
          match key with Some k => bool_decide (currentState j !! k = None) | None => false end &&
          (maxStateKeys limits <=? Z.of_nat (base.size (currentState j)))
  then (Err journal_full, j)
  else
    let '(drops, count, projected) :=
      if bool_decide (eventClass e = diagnostic)
      then chooseDrops limits (droppable j) (bool_decide (openGap j = None))
             (counts j diagnostic) (pendingBytes j + bytes)
      else ([], 0, 0) in
    if bool_decide (eventClass e = diagnostic) &&
       ((maxDiagnosticEvents limits <=? count) || (maxPendingBytes limits <? projected))
    then (Err journal_full, j)
    else
      match acceptAgain stringify (document e) (validator j) with
      | (Err c, v) => (Err (event_violation c), set_validator v j)
      | (Ok _, v) =>
          let j := set_nextOrdinal (nextOrdinal j + 1) (set_validator v j) in
          let n := nextOrdinal j - 1 in
          let entry := {| ordinal := n; event := e; entry_bytes := bytes; stateKey := key |} in
          match eventClass e, key with
          | state, Some k =>
              let j := match previousState with Some p => removeEntry p j | None => j end in
              (Ok n, pushEntry entry (set_currentState (<[k := entry]> (currentState j)) j))
          | _, _ => (Ok n, pushEntry entry (dropDiagnostics drops j))
          end
      end.

Definition append (h : heap) (invoke : positive -> nat -> option value) (v : value)
    (key : option jstring) (j : Journal) : result JournalViolationCode Z * Journal :=
  match validateRunEvent stringify h invoke DEFAULT_RUN_EVENT_LIMITS v with
  | Err c => (Err (event_violation c), j)
  | Ok e =>
      if negb (bool_decide (invocationId e = j_invocation j) && bool_decide (runId e = Some (j_run j)))
      then (Err stale_run, j)
      else appendEvent e key j
  end.

(** ** Barriers *)

Definition gap_input (g : DiagnosticGap) (j : Journal) : ProduceRunEventInput :=
  {| in_class := diagnostic; in_type := js "journal.diagnostic-gap";
     in_identity := JObj [(js "invocationId", JStr (j_invocation j)); (js "runId", JStr (j_run j))];
     in_causedBy := None;
     in_payload := JObj [(js "dropped", JNum (int (gap_count g)));
                         (js "firstEventId", JStr (firstEventId g));
                         (js "lastEventId", JStr (lastEventId g))] |}.

Inductive BarrierError : Type := gap_refused (e : EmitError) | gap_oversized.

Definition sealGap (j : Journal) : result BarrierError unit * Journal :=
  match openGap j with
  | None => (Ok tt, j)
  | Some g =>
      match emit stringify monotonicNow wallNow randomUUID DEFAULT_RUN_EVENT_LIMITS
              (gap_input g j) (gapProducer j) with
      | (Err e, p) => (Err (gap_refused e), set_gapProducer p j)
      | (Ok ev, p) =>
          let j := set_gapProducer p j in
          let g := {| gap_ordinal := gap_ordinal g; gap_count := gap_count g;
                      firstEventId := firstEventId g; lastEventId := lastEventId g;
                      gap_event := Some ev; gap_bytes := gap_bytes g |} in
          let bytes := bytes_of ev in
          if DIAGNOSTIC_GAP_RESERVATION_BYTES <? bytes
          then (Err gap_oversized, set_openGap (Some g) j)
          else
            let sealed := {| gap_ordinal := gap_ordinal g; gap_count := gap_count g;
                             firstEventId := firstEventId g; lastEventId := lastEventId g;
                             gap_event := gap_event g; gap_bytes := bytes |} in
            (Ok tt, set_openGap None
                      (set_gaps (gaps j ++ [sealed])
                        (set_pendingBytes (pendingBytes j + (bytes - gap_bytes g)) j)))
      end
  end.

Definition barrier (j : Journal) : result BarrierError RunEventFlushBarrier * Journal :=
  match sealGap (set_currentState ∅ j) with
  | (Err e, j) => (Err e, j)
  | (Ok _, j) =>
      let token := nextBarrierToken j in
      let mark := nextOrdinal j - 1 in
      (Ok {| b_token := token; highWaterMark := mark |},
       set_barriers (<[token := mark]> (barriers j))
         (set_sealedThrough (Z.max (sealedThrough j) mark)
           (set_nextBarrierToken (token + 1) j)))
  end.
End Journal.

(** ** Flushing *)

(** Stable insertion by ordinal: [Array.prototype.sort]. *)
Fixpoint insert_by (x : Z * RunEvent) (l : list (Z * RunEvent)) : list (Z * RunEvent) :=
  match l with
  | [] => [x]
  | y :: l => if fst y <=? fst x then y :: insert_by x l else x :: y :: l
  end.
Definition sort_by_ordinal (l : list (Z * RunEvent)) : list (Z * RunEvent) :=
  foldl (fun acc x => insert_by x acc) [] l.

Definition upto (mark : Z) (j : Journal) : list JournalEntry :=
  List.filter (fun e => ordinal e <=? mark) (entries j).
Definition gaps_upto (mark : Z) (j : Journal) : list DiagnosticGap :=
  List.filter (fun g => gap_ordinal g <=? mark) (gaps j).

(** A sealed gap has its event. *)
Definition gap_item (g : DiagnosticGap) : list (Z * RunEvent) :=
  match gap_event g with Some e => [(gap_ordinal g, e)] | None => [] end.

Definition batch_items (mark : Z) (j : Journal) : list (Z * RunEvent) :=
  sort_by_ordinal (((fun e => (ordinal e, event e)) <$> upto mark j) ++
                   mjoin (gap_item <$> gaps_upto mark j)).

(** [flushThrough] up to the call of the sink; [None] is a [RangeError]. *)
Definition flushStart (b : RunEventFlushBarrier) (j : Journal) : option (list RunEvent * Journal) :=
  match flight j with
  | Some _ => None
  | None =>
      if negb (bool_decide (barriers j !! b_token b = Some (highWaterMark b))) ||
         (highWaterMark b <? flushedThrough j) || (nextOrdinal j <=? highWaterMark b)
      then None
      else
        let mark := highWaterMark b in
        let batch := snd <$> batch_items mark j in
        Some (batch, set_flight (Some {| f_mark := mark; f_ordinary := ordinal <$> upto mark j;
                                         f_gaps := gap_ordinal <$> gaps_upto mark j;
                                         f_batch := batch |}) j)
  end.

(** The loops that remove what was flushed, from the end. *)
Definition removeFlushed (ords : list Z) (j : Journal) : Journal :=
  foldr (fun e j =>
           if bool_decide (ordinal e ∈ ords) then
             let c := eventClass (event e) in
             set_count c (counts j c - 1) (set_pendingBytes (pendingBytes j - entry_bytes e) j)
           else j)
        (set_entries (List.filter (fun e => negb (bool_decide (ordinal e ∈ ords))) (entries j)) j)
        (entries j).
Definition removeFlushedGaps (ords : list Z) (j : Journal) : Journal :=
  foldr (fun g j => if bool_decide (gap_ordinal g ∈ ords)
                    then set_pendingBytes (pendingBytes j - gap_bytes g) j else j)
        (set_gaps (List.filter (fun g => negb (bool_decide (gap_ordinal g ∈ ords))) (gaps j)) j)
        (gaps j).

(** [flushThrough] after the sink: [delivered] when it fulfilled. *)
Definition flushEnd (delivered : bool) (j : Journal) : Journal :=
  match flight j with
  | None => j
  | Some f =>
      let j := set_flight None j in
      if delivered then
        let j := removeFlushedGaps (f_gaps f) (removeFlushed (f_ordinary f) j) in
        set_barriers (filter (fun tm => f_mark f < snd tm) (barriers j))
          (set_flushedThrough (f_mark f) j)
      else j
  end.

(** The constructor; [None] is a [TypeError]. *)
Definition newJournal (invocation run : jstring) (gp : Producer) (limits : RunEventJournalLimits) :
    option Journal :=
  if forallb (fun n => (1 <=? n) && (n <=? max_safe))
       [maxAuthoritativeEvents limits; maxStateKeys limits; maxDiagnosticEvents limits;
        maxPendingBytes limits]
  then
    v ← newValidator DEFAULT_RUN_EVENT_LIMITS DEFAULT_RUN_EVENT_STREAM_LIMITS;
    Some (mkJournal invocation run limits v gp [] ∅ [] ∅ (fun _ => 0) None 0 0 (-1) (-1) None
            0 0 0 0 0)
  else None.
