(* ===== verification/JournalInvariant.v ===== *)
(** * The run-event journal: its invariant

    The bookkeeping of [RunJournal] ([books]), its coalescing table ([keyed]) and
    its limits ([bounded]), and that appends and barriers keep them; [effect] and
    [quiet] say what each does to the backlog. *)

From S2P Require Import Prelude JsText Dto RunEvents EventStream RunJournal.
From Stdlib Require Import Sorted.

Local Open Scope Z_scope.

(** The entries of a class. *)
Definition of_class (c : RunEventClass) (l : list JournalEntry) : list JournalEntry :=
  List.filter (fun e => bool_decide (eventClass (event e) = c)) l.
Definition one_of (c : RunEventClass) (e : JournalEntry) : Z :=
  if bool_decide (eventClass (event e) = c) then 1 else 0.

Lemma of_class_count c l : Z.of_nat (length (of_class c l)) = sum_with (one_of c) l.
Proof.
  unfold of_class, one_of. induction l as [|e l IH]; cbn [List.filter sum_with]; [done|].
  destruct (bool_decide _); cbn [length]; lia.
Qed.

Definition open_bytes (j : Journal) : Z :=
  match openGap j with Some g => gap_bytes g | None => 0 end.

Definition increasing (l : list Z) : Prop := StronglySorted Z.lt l.

(** The bookkeeping. *)
Record books (j : Journal) : Prop := {
  bk_bytes : pendingBytes j =
    sum_with entry_bytes (entries j) + sum_with gap_bytes (gaps j) + open_bytes j;
  bk_counts c : counts j c = sum_with (one_of c) (entries j);
  bk_entry e : e ∈ entries j -> 0 <= entry_bytes e /\ 0 <= ordinal e < nextOrdinal j;
  bk_order : increasing (ordinal <$> entries j);
  bk_gap g : g ∈ gaps j -> 0 <= gap_bytes g /\ gap_ordinal g <= sealedThrough j;
  bk_gaps : increasing (gap_ordinal <$> gaps j);
  bk_open g : openGap j = Some g -> gap_bytes g = DIAGNOSTIC_GAP_RESERVATION_BYTES /\
    sealedThrough j < gap_ordinal g < nextOrdinal j;
  bk_sealed : -1 <= sealedThrough j < nextOrdinal j;
  bk_barrier t m : barriers j !! t = Some m -> m <= sealedThrough j;
  bk_flight f : flight j = Some f -> f_mark f <= sealedThrough j /\
    f_ordinary f = ordinal <$> upto (f_mark f) j /\ f_gaps f = gap_ordinal <$> gaps_upto (f_mark f) j /\
    f_batch f = snd <$> batch_items (f_mark f) j;
}.

(** The coalescing table holds pending state entries above the last barrier,
    each under the key it was appended with. *)
Record keyed (j : Journal) : Prop := {
  ky_entry k e : currentState j !! k = Some e ->
    e ∈ entries j /\ eventClass (event e) = state /\ sealedThrough j < ordinal e /\
    stateKey e = Some k;
}.

(** The limits hold. *)
Record bounded (j : Journal) : Prop := {
  bd_bytes : pendingBytes j <= maxPendingBytes (j_limits j);
  bd_authoritative : counts j authoritative <= maxAuthoritativeEvents (j_limits j);
  bd_diagnostic : counts j diagnostic <= maxDiagnosticEvents (j_limits j);
  bd_keys : Z.of_nat (base.size (currentState j)) <= maxStateKeys (j_limits j);
}.

(** ** Lists of ordinals *)

Lemma increasing_app l x : increasing l -> (forall y, y ∈ l -> y < x) -> increasing (l ++ [x]).
Proof.
  unfold increasing. induction 1 as [|a l H IH Hf]; intros Hx; cbn; [repeat constructor|].
  constructor.
  - apply IH. intros y Hy. apply Hx. by right.
  - apply List.Forall_app. split; [done|]. constructor; [|constructor]. apply Hx. left.
Qed.

Lemma increasing_sublist l k : sublist l k -> increasing k -> increasing l.
Proof.
  unfold increasing. induction 1 as [|x l k Hs IH|x l k Hs IH]; intros H; [constructor| |].
  - inversion H as [|? ? Hk Hf]; subst. constructor; [auto|].
    rewrite List.Forall_forall in *. intros y Hy. apply Hf. apply list_elem_of_In.
    eapply elem_of_submseteq; [by apply list_elem_of_In|by apply sublist_submseteq].
  - inversion H; subst. auto.
Qed.

Lemma increasing_NoDup l : increasing l -> NoDup l.
Proof.
  unfold increasing. induction 1 as [|a l H IH Hf]; constructor; [|done].
  intros Hin. rewrite List.Forall_forall in Hf. apply list_elem_of_In, Hf in Hin. lia.
Qed.

Lemma sublist_filter {A} (P : A -> bool) l : sublist (List.filter P l) l.
Proof. induction l as [|a l IH]; cbn; [done|]. destruct (P a); by constructor. Qed.

Lemma sublist_fmap_ {A B} (f : A -> B) l k : sublist l k -> sublist (f <$> l) (f <$> k).
Proof. induction 1; cbn; by constructor. Qed.

Lemma ordinal_inj j e e' : books j -> e ∈ entries j -> e' ∈ entries j -> ordinal e = ordinal e' -> e = e'.
Proof.
  intros H He He' Heq. eapply (NoDup_fmap_inj ordinal (entries j)); eauto.
  apply increasing_NoDup, H.
Qed.

Lemma filter_comm {A} (P Q : A -> bool) l : List.filter P (List.filter Q l) = List.filter Q (List.filter P l).
Proof.
  induction l as [|a l IH]; cbn; [done|].
  destruct (P a) eqn:EP, (Q a) eqn:EQ; cbn; rewrite ?EP, ?EQ, IH; done.
Qed.

Lemma filter_all {A} (P : A -> bool) l : (forall a, a ∈ l -> P a = true) -> List.filter P l = l.
Proof.
  induction l as [|a l IH]; cbn; intros H; [done|].
  rewrite (H a) by left. f_equal. apply IH. intros b Hb. apply H. by right.
Qed.

Lemma elem_of_filter_ {A} (P : A -> bool) l a : a ∈ List.filter P l <-> a ∈ l /\ P a = true.
Proof. rewrite !list_elem_of_In. apply filter_In. Qed.

(** Filtering by a property the removed elements do not have. *)
Lemma filter_absorb {A} (P Q : A -> bool) l :
  (forall a, a ∈ l -> P a = true -> Q a = true) -> List.filter P (List.filter Q l) = List.filter P l.
Proof.
  intros H. rewrite filter_comm. apply filter_all. intros a [Ha HP]%elem_of_filter_. auto.
Qed.

(** ** Removing an entry *)

Definition other (e x : JournalEntry) : bool := negb (ordinal x =? ordinal e).

Lemma delete_other l e :
  NoDup (ordinal <$> l) -> e ∈ l ->
  exists i, find_index (fun x => ordinal x =? ordinal e) l = Some i /\ l !! i = Some e /\
    delete i l = List.filter (other e) l.
Proof.
  induction l as [|a l IH]; intros Hnd He; [by apply elem_of_nil in He|].
  cbn in Hnd. apply NoDup_cons in Hnd as [Ha Hnd]. cbn [find_index List.filter]. unfold other at 1.
  destruct (Z.eqb_spec (ordinal a) (ordinal e)) as [Heq|Hne]; cbn [negb].
  - exists 0%nat. apply elem_of_cons in He as [->|He].
    + split_and!; [done|done|]. cbn. symmetry. apply filter_all. intros x Hx. unfold other.
      apply negb_true_iff, Z.eqb_neq. intros Hc. apply Ha. rewrite <- Hc. by apply list_elem_of_fmap_2.
    + exfalso. apply Ha. rewrite Heq. by apply list_elem_of_fmap_2.
  - apply elem_of_cons in He as [->|He]; [done|].
    destruct (IH Hnd He) as (i & Hi & Hl & Hd). exists (S i). rewrite Hi. split_and!; [done|done|].
    cbn. f_equal. exact Hd.
Qed.

Lemma removeEntry_spec e j :
  books j -> e ∈ entries j ->
  let j' := removeEntry e j in
  entries j' = List.filter (other e) (entries j) /\
  pendingBytes j' = pendingBytes j - entry_bytes e /\
  (forall c, counts j' c = counts j c - one_of c e) /\
  (forall f, sum_with f (entries j') = sum_with f (entries j) - f e) /\
  gaps j' = gaps j /\ openGap j' = openGap j /\ sealedThrough j' = sealedThrough j /\
  nextOrdinal j' = nextOrdinal j /\ barriers j' = barriers j /\ flight j' = flight j /\
  j_limits j' = j_limits j /\ currentState j' = currentState j.
Proof.
  intros H He. pose proof (increasing_NoDup _ (bk_order j H)) as Hnd.
  destruct (delete_other _ _ Hnd He) as (i & Hf & Hl & Hd).
  unfold removeEntry. rewrite Hf. cbn -[delete one_of]. split_and!; try done.
  - intros c. unfold one_of. destruct (decide (c = eventClass (event e))) as [->|Hc].
    + by rewrite bool_decide_eq_true_2.
    + rewrite bool_decide_eq_false_2 by congruence. lia.
  - intros f. by apply sum_with_delete.
Qed.

(** Removing what no barrier covers leaves every batch as it was. *)
Lemma upto_other m e l :
  m < ordinal e -> List.filter (fun x => ordinal x <=? m) (List.filter (other e) l) =
                   List.filter (fun x => ordinal x <=? m) l.
Proof.
  intros Hm. apply filter_absorb. intros a _ Ha. unfold other. breflect.
  apply negb_true_iff, Z.eqb_neq. lia.
Qed.

Lemma books_remove e j :
  books j -> e ∈ entries j -> sealedThrough j < ordinal e -> books (removeEntry e j).
Proof.
  intros H He Hs. pose proof (removeEntry_spec e j H He) as
    (E1 & E2 & E3 & E4 & E5 & E6 & E7 & E8 & E9 & E10 & _ & _).
  destruct H. constructor; rewrite ?E7, ?E8, ?E9, ?E10; try done.
  - unfold open_bytes. rewrite E2, E4, E5, E6, bk_bytes0. unfold open_bytes. lia.
  - intros c. rewrite E3, E4, bk_counts0. done.
  - intros x Hx. rewrite E1 in Hx. apply elem_of_filter_ in Hx as [Hx _]. auto.
  - rewrite E1. eapply increasing_sublist; [|exact bk_order0]. apply sublist_fmap_, sublist_filter.
  - by rewrite E5.
  - by rewrite E5.
  - by rewrite E6.
  - intros f Hf. destruct (bk_flight0 f Hf) as (Hm & H1 & H2 & H3).
    unfold batch_items, gaps_upto, upto in *. rewrite E1, E5, upto_other by lia. auto.
Qed.

(** ** Counting a dropped diagnostic *)

Definition open_count (j : Journal) : Z :=
  match openGap j with Some g => gap_count g | None => 0 end.

(** The bytes a first drop reserves. *)
Definition reservation (j : Journal) : Z :=
  match openGap j with Some _ => 0 | None => DIAGNOSTIC_GAP_RESERVATION_BYTES end.

Lemma books_gap d j :
  books j -> sealedThrough j < ordinal d < nextOrdinal j -> books (recordDiagnosticGap d j).
Proof.
  intros H Hd. destruct H. unfold recordDiagnosticGap.
  destruct (openGap j) as [g|] eqn:Hg; constructor; cbn -[sum_with DIAGNOSTIC_GAP_RESERVATION_BYTES];
    unfold open_bytes in *; try done; rewrite ?Hg in *; cbn -[sum_with DIAGNOSTIC_GAP_RESERVATION_BYTES] in *;
    try done; try lia; try (by intros g' [= <-]; apply (bk_open0 g)); by intros g' [= <-].
Qed.

Lemma recordDiagnosticGap_spec d j :
  let j' := recordDiagnosticGap d j in
  entries j' = entries j /\ counts j' = counts j /\ pendingBytes j' = pendingBytes j + reservation j /\
  reservation j' = 0 /\ open_count j' = open_count j + 1 /\
  gaps j' = gaps j /\ sealedThrough j' = sealedThrough j /\
  nextOrdinal j' = nextOrdinal j /\ barriers j' = barriers j /\ flight j' = flight j /\
  j_limits j' = j_limits j /\ currentState j' = currentState j.
Proof.
  unfold recordDiagnosticGap, reservation, open_count.
  destruct (openGap j); cbn -[DIAGNOSTIC_GAP_RESERVATION_BYTES]; split_and!; (done || lia).
Qed.

(** ** Dropping the chosen diagnostics *)

Definition kept (drops : list JournalEntry) (x : JournalEntry) : bool :=
  negb (bool_decide (ordinal x ∈ ordinal <$> drops)).

(** What may be dropped from [j]. *)
Definition sheddable (drops : list JournalEntry) (j : Journal) : Prop :=
  NoDup (ordinal <$> drops) /\
  forall d, d ∈ drops -> d ∈ entries j /\ eventClass (event d) = diagnostic /\ sealedThrough j < ordinal d.

Lemma sheddable_step d drops j :
  books j -> sheddable (d :: drops) j ->
  let j' := recordDiagnosticGap d (removeEntry d j) in
  books j' /\ sheddable drops j'.
Proof.
  intros H [Hnd Hd]. cbn in Hnd. apply NoDup_cons in Hnd as [Hni Hnd].
  destruct (Hd d ltac:(left)) as (Hin & Hc & Hs).
  pose proof (removeEntry_spec d j H Hin) as (E1 & _ & _ & _ & _ & _ & E7 & E8 & _).
  pose proof (books_remove d j H Hin Hs) as Hb. destruct (bk_entry j H d Hin) as [_ Ho]. cbn zeta.
  pose proof (recordDiagnosticGap_spec d (removeEntry d j)) as (F1 & _ & _ & _ & _ & _ & F7 & _).
  split; [apply books_gap; [done|rewrite E7, E8; lia]|].
  split; [done|]. intros x Hx. destruct (Hd x ltac:(by right)) as (Hxin & Hxc & Hxs).
  rewrite F1, F7, E1, E7. split_and!; [|done|done]. apply elem_of_filter_. split; [done|].
  unfold other. apply negb_true_iff, Z.eqb_neq. intros Heq. apply Hni. rewrite <- Heq.
  by apply list_elem_of_fmap_2.
Qed.

Lemma kept_cons d drops l :
  List.filter (kept drops) (List.filter (other d) l) = List.filter (kept (d :: drops)) l.
Proof.
  induction l as [|x l IH]; [done|]. cbn [List.filter]. unfold other at 1, kept at 2.
  destruct (Z.eqb_spec (ordinal x) (ordinal d)) as [Heq|Hne]; cbn [negb].
  - rewrite bool_decide_eq_true_2 by (cbn; rewrite Heq; left). done.
  - cbn [List.filter]. unfold kept at 1.
    rewrite (bool_decide_ext (ordinal x ∈ ordinal <$> d :: drops) (ordinal x ∈ ordinal <$> drops)).
    { destruct (negb _); [f_equal|]; exact IH. }
    cbn. rewrite elem_of_cons. naive_solver.
Qed.

Lemma dropDiagnostics_spec drops j :
  books j -> sheddable drops j ->
  let j' := dropDiagnostics drops j in
  books j' /\ entries j' = List.filter (kept drops) (entries j) /\
  pendingBytes j' = pendingBytes j - sum_with entry_bytes drops +
    (match drops with [] => 0 | _ => reservation j end) /\
  (forall c, counts j' c = counts j c - sum_with (one_of c) drops) /\
  open_count j' = open_count j + Z.of_nat (length drops) /\
  gaps j' = gaps j /\ sealedThrough j' = sealedThrough j /\
  nextOrdinal j' = nextOrdinal j /\ barriers j' = barriers j /\ flight j' = flight j /\
  j_limits j' = j_limits j /\ currentState j' = currentState j.
Proof.
  revert j. induction drops as [|d drops IH]; intros j H Hd; cbn zeta.
  { cbn. split_and!; try done; try lia; try (intros; lia). symmetry. by apply filter_all. }
  destruct (sheddable_step d drops j H Hd) as [H1 Hd1]. destruct Hd as [_ Hd].
  destruct (Hd d ltac:(left)) as (Hin & _).
  pose proof (removeEntry_spec d j H Hin) as
    (E1 & E2 & E3 & _ & E5 & E6 & E7 & E8 & E9 & E10 & E11 & E12).
  pose proof (recordDiagnosticGap_spec d (removeEntry d j)) as
    (F1 & F2 & F3 & F4 & F5 & F6 & F7 & F8 & F9 & F10 & F11 & F12).
  assert (reservation (removeEntry d j) = reservation j) as Er by (unfold reservation; by rewrite E6).
  assert (open_count (removeEntry d j) = open_count j) as Eo by (unfold open_count; by rewrite E6).
  destruct (IH _ H1 Hd1) as (G0 & G1 & G2 & G3 & G4 & G5 & G6 & G7 & G8 & G9 & G10 & G11).
  change (dropDiagnostics (d :: drops) j) with
    (dropDiagnostics drops (recordDiagnosticGap d (removeEntry d j))).
  split_and!; try congruence.
  - rewrite G1, F1, E1. apply kept_cons.
  - rewrite G2, F3, E2, F4, Er. cbn [sum_with]. destruct drops; cbn [sum_with]; lia.
  - intros c. rewrite G3, F2, E3. cbn [sum_with]. lia.
  - rewrite G4, F5, Eo. cbn [length]. lia.
Qed.

Lemma chooseDrops_spec limits l needs count bytes drops count' bytes' :
  chooseDrops limits l needs count bytes = (drops, count', bytes') ->
  drops `prefix_of` l /\ count' = count - Z.of_nat (length drops) /\
  bytes' = bytes - sum_with entry_bytes drops +
    (match drops with [] => 0 | _ => if needs then DIAGNOSTIC_GAP_RESERVATION_BYTES else 0 end).
Proof.
  revert needs count bytes drops. induction l as [|c l IH]; intros needs count bytes drops H;
    cbn [chooseDrops] in H.
  { injection H as <- <- <-. cbn. split_and!; [apply prefix_nil|lia|lia]. }
  destruct (_ && _); [injection H as <- <- <-; cbn; split_and!; [apply prefix_nil|lia|lia]|].
  destruct (chooseDrops _ _ _ _ _) as [[ds n] b] eqn:E. injection H as <- <- <-.
  apply IH in E as (Hp & -> & ->). cbn [length sum_with]. split_and!; [by apply prefix_cons|lia|].
  destruct ds; cbn [sum_with]; lia.
Qed.

Lemma droppable_sheddable j drops :
  books j -> drops `prefix_of` droppable j -> sheddable drops j.
Proof.
  intros H [rest Hp]. unfold sheddable. split.
  - eapply sublist_NoDup; [exact (increasing_NoDup _ (bk_order j H))|].
    apply sublist_fmap_. transitivity (droppable j); [|apply sublist_filter].
    rewrite Hp. by apply sublist_inserts_r.
  - intros d Hd. assert (d ∈ droppable j) as Hin by (rewrite Hp; apply elem_of_app; by left).
    apply elem_of_filter_ in Hin as [? Hb]. by breflect.
Qed.

(** ** Adding an entry *)

Lemma pushEntry_spec e j :
  let j' := pushEntry e j in
  entries j' = entries j ++ [e] /\ pendingBytes j' = pendingBytes j + entry_bytes e /\
  (forall c, counts j' c = counts j c + one_of c e) /\ gaps j' = gaps j /\ openGap j' = openGap j /\
  sealedThrough j' = sealedThrough j /\ nextOrdinal j' = nextOrdinal j /\ barriers j' = barriers j /\
  flight j' = flight j /\ j_limits j' = j_limits j /\ currentState j' = currentState j.
Proof.
  cbn -[one_of]. split_and!; try done. intros c. unfold one_of.
  destruct (decide (c = eventClass (event e))) as [->|Hc].
  - by rewrite bool_decide_eq_true_2.
  - rewrite bool_decide_eq_false_2 by congruence. lia.
Qed.

Lemma books_push e j :
  books j -> 0 <= entry_bytes e -> (forall x, x ∈ entries j -> ordinal x < ordinal e) ->
  sealedThrough j < ordinal e < nextOrdinal j -> books (pushEntry e j).
Proof.
  intros H Hb Hlt Ho. pose proof (pushEntry_spec e j) as (E1 & E2 & E3 & E4 & E5 & E6 & E7 & E8 & E9 & _).
  destruct H. constructor; rewrite ?E6, ?E7, ?E8, ?E9, ?E4, ?E5; try done.
  - unfold open_bytes in *. rewrite E1, E2, E5, sum_with_app, bk_bytes0. cbn. lia.
  - intros c. rewrite E1, E3, sum_with_app, bk_counts0. cbn [sum_with]. lia.
  - rewrite E1. intros x [Hx| ->%list_elem_of_singleton]%elem_of_app; [auto|lia].
  - rewrite E1, fmap_app. apply increasing_app; [done|].
    intros y (x & -> & Hx)%list_elem_of_fmap. auto.
  - intros f Hf. destruct (bk_flight0 f Hf) as (Hm & H1 & H2 & H3).
    unfold batch_items, gaps_upto, upto in *. rewrite E1, E4, List.filter_app. cbn [List.filter].
    destruct (Z.leb_spec (ordinal e) (f_mark f)); [lia|]. by rewrite app_nil_r.
Qed.

Lemma books_fresh j v :
  books j -> books (set_nextOrdinal (nextOrdinal j + 1) (set_validator v j)).
Proof.
  intros []. constructor; try done; cbn [nextOrdinal set_nextOrdinal].
  - intros e He. destruct (bk_entry0 e He). cbn. lia.
  - intros g Hg. destruct (bk_open0 g Hg). cbn. lia.
  - cbn. lia.
Qed.

(** ** Appending *)

(** Evaluates the class tests of a hypothesis on known classes. *)
Ltac class_tests :=
  repeat match goal with
  | H : context [bool_decide (@eq RunEventClass ?a ?b)] |- _ =>
      let r := eval vm_compute in (bool_decide (@eq RunEventClass a b)) in
      change (bool_decide (@eq RunEventClass a b)) with r in H
  end; cbn [andb negb orb] in *.

Section Append.
Context (stringify : json -> jstring).

(** The journal after an ordinal was issued. *)
Definition issued (v : Validator) (j : Journal) : Journal :=
  set_nextOrdinal (nextOrdinal j + 1) (set_validator v j).

Definition new_entry (e : RunEvent) (key : option jstring) (j : Journal) : JournalEntry :=
  {| ordinal := nextOrdinal j; event := e; entry_bytes := bytes_of stringify e; stateKey := key |}.

(** The two ways an event gets in. *)
Inductive appended (e : RunEvent) (key : option jstring) (j : Journal) : Journal -> Prop :=
| appended_state v k :
    eventClass e = state -> key = Some k ->
    (currentState j !! k = None -> Z.of_nat (base.size (currentState j)) < maxStateKeys (j_limits j)) ->
    pendingBytes j - match currentState j !! k with Some p => entry_bytes p | None => 0 end +
      bytes_of stringify e <= maxPendingBytes (j_limits j) ->
    appended e key j
      (pushEntry (new_entry e key j)
         (let j1 := match currentState j !! k with Some p => removeEntry p (issued v j) | None => issued v j end in
          set_currentState (<[k := new_entry e key j]> (currentState j1)) j1))
| appended_plain v drops :
    eventClass e <> state -> drops `prefix_of` droppable j ->
    (eventClass e = authoritative ->
       drops = [] /\ counts j authoritative < maxAuthoritativeEvents (j_limits j)) ->
    (eventClass e = diagnostic ->
       counts j diagnostic - Z.of_nat (length drops) < maxDiagnosticEvents (j_limits j)) ->
    pendingBytes j + bytes_of stringify e - sum_with entry_bytes drops +
      (match drops with [] => 0 | _ => reservation j end) <= maxPendingBytes (j_limits j) ->
    appended e key j (pushEntry (new_entry e key j) (dropDiagnostics drops (issued v j))).

Lemma appendEvent_cases e key j r j' :
  appendEvent stringify e key j = (r, j') ->
  (exists c v, r = Err c /\ j' = set_validator v j) \/ (r = Ok (nextOrdinal j) /\ appended e key j j').
Proof.
  assert (j = set_validator (validator j) j) as Hj by by destruct j.
  unfold appendEvent. intros H. cbn zeta in H.
  destruct (negb _ && _) eqn:C1; [injection H as <- <-; eauto|].
  destruct (bool_decide (eventClass e = state) && negb _) eqn:C2; [injection H as <- <-; eauto|].
  destruct (bool_decide (eventClass e = authoritative) && _) eqn:C3; [injection H as <- <-; eauto|].
  destruct (bool_decide (eventClass e = state) && _ && _) eqn:C4; [injection H as <- <-; eauto|].
  destruct (if bool_decide (eventClass e = diagnostic) then _ else _) as [[drops count] projected] eqn:D.
  destruct (bool_decide (eventClass e = diagnostic) && _) eqn:C5; [injection H as <- <-; eauto|].
  destruct (acceptAgain _ _ _) as [[e'|c] v] eqn:A; [|injection H as <- <-; eauto].
  right. destruct (eventClass e) eqn:Ec; class_tests.
  - injection D as <- <- <-. injection H as <- <-. breflect. cbn [nextOrdinal set_nextOrdinal].
    replace (nextOrdinal j + 1 - 1) with (nextOrdinal j) by lia. split; [done|].
    refine (appended_plain _ _ _ v [] _ (prefix_nil _) _ _ _);
      rewrite ?Ec; cbn; (done || intros; (done || lia)).
  - destruct key as [k|]; [|done]. injection H as <- <-. breflect. cbn [nextOrdinal set_nextOrdinal].
    replace (nextOrdinal j + 1 - 1) with (nextOrdinal j) by lia. split; [done|].
    refine (appended_state _ _ _ v k Ec eq_refl _ _); [|done].
    intros Hk. rewrite bool_decide_eq_true_2 in C4 by done. cbn in C4. by breflect.
  - injection H as <- <-. apply chooseDrops_spec in D as (Hp & -> & ->). breflect. cbn [nextOrdinal set_nextOrdinal].
    replace (nextOrdinal j + 1 - 1) with (nextOrdinal j) by lia. split; [done|].
    refine (appended_plain _ _ _ v drops _ Hp _ _ _); rewrite ?Ec; [done|done|done|].
    unfold reservation. destruct drops; [lia|]. destruct (openGap j) eqn:Eo.
    + rewrite bool_decide_eq_false_2 in H0 by done. lia.
    + rewrite bool_decide_eq_true_2 in H0 by done. lia.
Qed.
End Append.

(** ** The invariant and one append *)

Definition sound (j : Journal) : Prop := books j /\ keyed j /\ bounded j.

(** Diagnostics accounted for in the backlog. *)
Definition diagnostics_held (j : Journal) : Z :=
  sum_with (one_of diagnostic) (entries j) + sum_with gap_count (gaps j) + open_count j.

(** What one accepted event does to the backlog. *)
Record effect (n : JournalEntry) (j j' : Journal) : Prop := {
  ef_authoritative : of_class authoritative (entries j') =
    of_class authoritative (entries j) ++ of_class authoritative [n];
  ef_diagnostic : diagnostics_held j' = diagnostics_held j + one_of diagnostic n;
  ef_new : n ∈ entries j';
  ef_kept x : x ∈ entries j -> x ∈ entries j' \/ eventClass (event x) = diagnostic \/
    (eventClass (event x) = state /\ eventClass (event n) = state /\ stateKey x = stateKey n);
  ef_old x : x ∈ entries j' -> x = n \/ x ∈ entries j;
  ef_gaps : gaps j' = gaps j;
  ef_flight : flight j' = flight j;
}.

Lemma of_class_app c l k : of_class c (l ++ k) = of_class c l ++ of_class c k.
Proof. apply List.filter_app. Qed.

(** Dropping entries of other classes. *)
Lemma of_class_absorb c (Q : JournalEntry -> bool) l :
  (forall x, x ∈ l -> eventClass (event x) = c -> Q x = true) ->
  of_class c (List.filter Q l) = of_class c l.
Proof. intros H. apply filter_absorb. intros x Hx Hb. breflect. auto. Qed.

Lemma keyed_other_key j k k' e e' :
  keyed j -> currentState j !! k = Some e -> currentState j !! k' = Some e' -> k <> k' ->
  books j -> ordinal e <> ordinal e'.
Proof.
  intros Hk He He' Hne Hb Heq. destruct (ky_entry j Hk k e He) as (H1 & _ & _ & K).
  destruct (ky_entry j Hk k' e' He') as (H2 & _ & _ & K').
  assert (e = e') as <- by by eapply (ordinal_inj j). congruence.
Qed.

(** [keyed] looks at the table, the barrier and the entries of the table. *)
Lemma keyed_entries j j' :
  keyed j -> currentState j' = currentState j -> sealedThrough j' = sealedThrough j ->
  (forall x, x ∈ entries j -> eventClass (event x) = state -> x ∈ entries j') -> keyed j'.
Proof.
  intros [H] Hc Hs He. constructor. intros k x Hx. rewrite Hc in Hx. rewrite Hs.
  destruct (H k x Hx) as (Hin & Hst & Ho & Hkey). split_and!; auto.
Qed.

Lemma shed_sum c drops :
  (forall d, d ∈ drops -> eventClass (event d) = diagnostic) ->
  sum_with (one_of c) drops = if decide (c = diagnostic) then Z.of_nat (length drops) else 0.
Proof.
  intros Hall. induction drops as [|d l IH]; [by destruct (decide _)|]. cbn [sum_with length].
  rewrite IH by (intros; apply Hall; by right). unfold one_of. rewrite (Hall d) by left.
  destruct (decide (c = diagnostic)) as [->|Hc].
  - rewrite bool_decide_eq_true_2 by done. lia.
  - rewrite bool_decide_eq_false_2 by congruence. done.
Qed.

(** Dropping touches diagnostics only, and counts each of them. *)
Lemma drop_phase drops j :
  books j -> keyed j -> sheddable drops j ->
  let j' := dropDiagnostics drops j in
  keyed j' /\ of_class authoritative (entries j') = of_class authoritative (entries j) /\
  diagnostics_held j' = diagnostics_held j /\
  (forall x, x ∈ entries j -> x ∈ entries j' \/ eventClass (event x) = diagnostic) /\
  (forall x, x ∈ entries j' -> x ∈ entries j) /\
  counts j' authoritative = counts j authoritative /\
  counts j' diagnostic = counts j diagnostic - Z.of_nat (length drops).
Proof.
  intros Hb Hk Hs. cbn zeta.
  destruct (dropDiagnostics_spec drops _ Hb Hs) as (G0 & G1 & G2 & G3 & G4 & G5 & G6 & _ & _ & _ & _ & G11).
  destruct Hs as [_ Hs].
  assert (forall c, sum_with (one_of c) drops = if decide (c = diagnostic) then Z.of_nat (length drops) else 0)
    as Hsum by (intros c; apply shed_sum; intros; by apply Hs).
  assert (forall x, x ∈ entries j -> kept drops x = true \/ eventClass (event x) = diagnostic) as Hdiag.
  { intros x Hin. destruct (kept drops x) eqn:Hx; [by left|right]. unfold kept in Hx. breflect.
    apply list_elem_of_fmap in Hx as (d & Hxd & Hdd). destruct (Hs d Hdd) as (Hdin & Hdc & _).
    assert (x = d) as -> by by eapply (ordinal_inj j). done. }
  split_and!.
  - eapply keyed_entries; eauto. intros x Hx Hc. rewrite G1. apply elem_of_filter_. split; [done|].
    destruct (Hdiag x Hx); congruence.
  - rewrite G1. apply of_class_absorb. intros x Hx Hc. destruct (Hdiag x Hx); congruence.
  - unfold diagnostics_held. rewrite G5, G4. pose proof (bk_counts _ G0 diagnostic) as Hc'.
    rewrite G3, (bk_counts _ Hb), Hsum, decide_True in Hc' by done. lia.
  - intros x Hx. rewrite G1. destruct (Hdiag x Hx); [left; by apply elem_of_filter_|by right].
  - intros x Hx. rewrite G1 in Hx. by apply elem_of_filter_ in Hx as [? _].
  - rewrite G3, Hsum, decide_False by done. lia.
  - rewrite G3, Hsum, decide_True by done. lia.
Qed.

(** What pushing adds to the totals. *)
Lemma push_phase x j :
  let j' := pushEntry x j in
  of_class authoritative (entries j') = of_class authoritative (entries j) ++ of_class authoritative [x] /\
  diagnostics_held j' = diagnostics_held j + one_of diagnostic x.
Proof.
  destruct (pushEntry_spec x j) as (P1 & _ & _ & P4 & P5 & _). cbn zeta. split.
  - by rewrite P1, of_class_app.
  - unfold diagnostics_held, open_count. rewrite P1, P4, P5, sum_with_app. cbn [sum_with]. lia.
Qed.

Lemma one_of_other c x : eventClass (event x) <> c -> one_of c x = 0.
Proof. intros H. unfold one_of. by rewrite bool_decide_eq_false_2. Qed.
Lemma one_of_same c x : eventClass (event x) = c -> one_of c x = 1.
Proof. intros H. unfold one_of. by rewrite bool_decide_eq_true_2. Qed.

Lemma new_entry_fresh stringify e key j v :
  books j -> books (issued v j) /\ 0 <= entry_bytes (new_entry stringify e key j) /\
  (forall x, x ∈ entries j -> ordinal x < ordinal (new_entry stringify e key j)) /\
  sealedThrough j < ordinal (new_entry stringify e key j) < nextOrdinal (issued v j).
Proof.
  intros H. split_and!; [by apply books_fresh| | | |].
  - cbn. unfold bytes_of, utf8_length. lia.
  - intros x Hx. cbn. apply (bk_entry j H x Hx).
  - cbn. apply (bk_sealed j H).
  - cbn. lia.
Qed.

(** A plain event: some diagnostics leave, the event enters. *)
Lemma appended_plain_sound stringify e key j v drops :
  sound j -> eventClass e <> state -> drops `prefix_of` droppable j ->
  (eventClass e = authoritative ->
     drops = [] /\ counts j authoritative < maxAuthoritativeEvents (j_limits j)) ->
  (eventClass e = diagnostic ->
     counts j diagnostic - Z.of_nat (length drops) < maxDiagnosticEvents (j_limits j)) ->
  pendingBytes j + bytes_of stringify e - sum_with entry_bytes drops +
    (match drops with [] => 0 | _ => reservation j end) <= maxPendingBytes (j_limits j) ->
  let n := new_entry stringify e key j in
  let j' := pushEntry n (dropDiagnostics drops (issued v j)) in
  sound j' /\ effect n j j'.
Proof.
  intros (Hb & Hk & Hd) Hns Hp Ha Hg Hbytes n. cbn zeta.
  destruct (new_entry_fresh stringify e key j v Hb) as (Hb1 & N1 & N2 & N3). fold n in N1, N2, N3.
  assert (sheddable drops (issued v j)) as Hs by exact (droppable_sheddable j drops Hb Hp).
  assert (keyed (issued v j)) as Hk1 by (destruct Hk; by constructor).
  destruct (dropDiagnostics_spec drops _ Hb1 Hs) as (G0 & G1 & G2 & _ & _ & G5 & G6 & G7 & _ & G9 & G10 & G11).
  destruct (drop_phase drops _ Hb1 Hk1 Hs) as (D1 & D2 & D3 & D4 & D5 & D6 & D7).
  set (j1 := dropDiagnostics drops (issued v j)) in *.
  destruct (pushEntry_spec n j1) as (P1 & P2 & P3 & P4 & P5 & P6 & P7 & P8 & P9 & P10 & P11).
  destruct (push_phase n j1) as (Q1 & Q2).
  split; [split_and!|].
  - apply books_push; [done|done| |rewrite G6, G7; exact N3]. intros x Hx. by apply N2, D5.
  - apply (keyed_entries j1); [done|by rewrite P11|by rewrite P6|]. intros x Hx _. rewrite P1. apply elem_of_app. by left.
  - destruct Hd. constructor; rewrite P10, G10; cbn [j_limits issued set_nextOrdinal set_validator].
    + rewrite P2, G2. cbn. unfold reservation in *. cbn. lia.
    + rewrite P3, D6. cbn [counts issued set_nextOrdinal set_validator].
      destruct (decide (eventClass e = authoritative)) as [Hc|Hc].
      * rewrite one_of_same by done. specialize (Ha Hc). lia.
      * rewrite one_of_other by done. lia.
    + rewrite P3, D7. cbn [counts issued set_nextOrdinal set_validator].
      destruct (decide (eventClass e = diagnostic)) as [Hc|Hc].
      * rewrite one_of_same by done. specialize (Hg Hc). lia.
      * rewrite one_of_other by done. lia.
    + by rewrite P11, G11.
  - constructor.
    + by rewrite Q1, D2.
    + by rewrite Q2, D3.
    + rewrite P1. apply elem_of_app. right. left.
    + intros x Hx. rewrite P1. destruct (D4 x Hx); [left; apply elem_of_app; by left|auto].
    + rewrite P1. intros x [Hx| ->%list_elem_of_singleton]%elem_of_app; [right; by apply D5|by left].
    + by rewrite P4, G5.
    + by rewrite P9, G9.
Qed.

(** A state event: the entry it supersedes leaves first. *)
Definition superseded (v : Validator) (k : jstring) (j : Journal) : Journal :=
  match currentState j !! k with Some p => removeEntry p (issued v j) | None => issued v j end.

Lemma replace_phase v k j :
  books j -> keyed j ->
  let j1 := superseded v k j in
  books j1 /\
  pendingBytes j1 = pendingBytes j - match currentState j !! k with Some p => entry_bytes p | None => 0 end /\
  (forall c, c <> state -> counts j1 c = counts j c /\ of_class c (entries j1) = of_class c (entries j)) /\
  (forall x, x ∈ entries j -> x ∈ entries j1 \/ (eventClass (event x) = state /\ currentState j !! k = Some x)) /\
  (forall x, x ∈ entries j1 -> x ∈ entries j) /\
  gaps j1 = gaps j /\ openGap j1 = openGap j /\ sealedThrough j1 = sealedThrough j /\
  nextOrdinal j1 = nextOrdinal j + 1 /\ flight j1 = flight j /\
  j_limits j1 = j_limits j /\ currentState j1 = currentState j.
Proof.
  intros Hb Hk. pose proof (books_fresh j v Hb) as Hb1. fold (issued v j) in Hb1. unfold superseded.
  destruct (currentState j !! k) as [p|] eqn:Ep; cbn zeta.
  - destruct (ky_entry j Hk k p Ep) as (Hin & Hc & Hs & _).
    destruct (removeEntry_spec p _ Hb1 Hin) as (E1 & E2 & E3 & _ & E5 & E6 & E7 & E8 & _ & E10 & E11 & E12).
    assert (forall x, x ∈ entries j -> other p x = true \/ x = p) as Ho.
    { intros x Hx. unfold other. destruct (Z.eqb_spec (ordinal x) (ordinal p)); [right|by left].
      by eapply (ordinal_inj j). }
    split_and!; try done.
    + by apply books_remove.
    + intros c Hne. rewrite E3, E1, one_of_other by congruence. split; [cbn; lia|].
      apply of_class_absorb. intros x Hx Hxc. destruct (Ho x Hx) as [?| ->]; [done|congruence].
    + intros x Hx. rewrite E1. destruct (Ho x Hx) as [?| ->]; [left; by apply elem_of_filter_|by right].
    + intros x Hx. rewrite E1 in Hx. by apply elem_of_filter_ in Hx as [? _].
  - split_and!; try done; [cbn; lia|]. intros x Hx. by left.
Qed.

Lemma appended_state_sound stringify e key j v k :
  sound j -> eventClass e = state -> key = Some k ->
  (currentState j !! k = None -> Z.of_nat (base.size (currentState j)) < maxStateKeys (j_limits j)) ->
  pendingBytes j - match currentState j !! k with Some p => entry_bytes p | None => 0 end +
    bytes_of stringify e <= maxPendingBytes (j_limits j) ->
  let n := new_entry stringify e key j in
  let j1 := superseded v k j in
  let j' := pushEntry n (set_currentState (<[k := n]> (currentState j1)) j1) in
  sound j' /\ effect n j j'.
Proof.
  intros (Hb & Hk & Hd) Hc -> Hkeys Hbytes n j1. cbn zeta.
  destruct (new_entry_fresh stringify e (Some k) j v Hb) as (_ & N1 & N2 & N3). fold n in N1, N2, N3.
  destruct (replace_phase v k j Hb Hk) as (R0 & R1 & R2 & R3 & R4 & R5 & R6 & R7 & R8 & R9 & R10 & R11).
  fold j1 in R0, R1, R2, R3, R4, R5, R6, R7, R8, R9, R10, R11.
  set (j2 := set_currentState (<[k := n]> (currentState j1)) j1) in *.
  assert (books j2) as Hb2 by (destruct R0; by constructor).
  destruct (pushEntry_spec n j2) as (P1 & P2 & P3 & P4 & P5 & P6 & P7 & P8 & P9 & P10 & P11).
  destruct (push_phase n j2) as (Q1 & Q2).
  assert (eventClass (event n) = state) as Hn by done.
  split; [split_and!|].
  - apply books_push; [done|done| |cbn; rewrite R7, R8; exact N3]. intros x Hx. by apply N2, R4.
  - constructor. intros k' x Hx. rewrite P11 in Hx. rewrite P1, P6. cbn in Hx. cbn [sealedThrough j2 set_currentState].
    rewrite R7. apply lookup_insert_Some in Hx as [[<- <-]|[Hne Hx]].
    + split_and!; [apply elem_of_app; right; left|done|apply N3|done].
    + rewrite R11 in Hx. destruct (ky_entry j Hk k' x Hx) as (Hin & Hxc & Hxs & Hxk). split_and!; try done.
      apply elem_of_app. left. destruct (R3 x Hin) as [?|[_ Hkx]]; [done|].
      destruct (ky_entry j Hk k x Hkx) as (_ & _ & _ & ?). congruence.
  - destruct Hd. constructor; rewrite P10; cbn [j_limits j2 set_currentState]; rewrite R10.
    + rewrite P2. cbn. rewrite R1. lia.
    + rewrite P3, one_of_other by congruence. cbn. rewrite (proj1 (R2 authoritative ltac:(done))). lia.
    + rewrite P3, one_of_other by congruence. cbn. rewrite (proj1 (R2 diagnostic ltac:(done))). lia.
    + rewrite P11. cbn. rewrite R11. destruct (currentState j !! k) eqn:Ek.
      * rewrite map_size_insert_Some by eauto. done.
      * rewrite map_size_insert_None by done. specialize (Hkeys eq_refl). lia.
  - constructor.
    + rewrite Q1. f_equal. apply (R2 authoritative); done.
    + rewrite Q2. f_equal. unfold diagnostics_held, open_count. cbn. rewrite R5, R6.
      rewrite <- !of_class_count, (proj2 (R2 diagnostic ltac:(done))). done.
    + rewrite P1. apply elem_of_app. right. left.
    + intros x Hx. rewrite P1. destruct (R3 x Hx) as [?|[? Hkx]]; [left; apply elem_of_app; by left|].
      right. right. split_and!; [done|done|]. by apply (ky_entry j Hk k x Hkx).
    + rewrite P1. intros x [Hx| ->%list_elem_of_singleton]%elem_of_app; [right; by apply R4|by left].
    + by rewrite P4.
    + by rewrite P9.
Qed.

Lemma appended_sound stringify e key j j' :
  sound j -> appended stringify e key j j' -> sound j' /\ effect (new_entry stringify e key j) j j'.
Proof.
  intros H []; [by apply (appended_state_sound stringify e key j v k)|by apply appended_plain_sound].
Qed.

Lemma sound_validator j v : sound j -> sound (set_validator v j).
Proof. intros ([] & [] & []). split_and!; by constructor. Qed.

(** ** Barriers *)

(** The event of a sealed gap is a diagnostic that carries its count. *)
Definition marker (g : DiagnosticGap) : Prop :=
  exists ev m, gap_event g = Some ev /\ eventClass ev = diagnostic /\ document ev = JObj m /\
    field m "payload" = Some (JObj [(js "dropped", JNum (int (gap_count g)));
                                    (js "firstEventId", JStr (firstEventId g));
                                    (js "lastEventId", JStr (lastEventId g))]).

Definition marked (j : Journal) : Prop := forall g, g ∈ gaps j -> marker g.

(** What leaves the entries and the totals alone. *)
Record quiet (j j' : Journal) : Prop := {
  qt_entries : entries j' = entries j;
  qt_held : diagnostics_held j' = diagnostics_held j;
}.

Section Barrier.
Context (stringify : json -> jstring).
Context (monotonicNow : nat -> number) (wallNow : option (nat -> number)) (randomUUID : nat -> jstring).

Lemma emit_candidate limits i p e p' :
  emit stringify monotonicNow wallNow randomUUID limits i p = (Ok e, p') ->
  exists b eid pid ep sq mt wall,
    checkEnvelope stringify b (candidate eid pid ep sq i mt wall) = Ok e.
Proof.
  unfold emit. destruct (_ <? _); [done|]. cbn zeta. destruct (_ || _); [done|].
  destruct (createEventId _ _ _) as [[eid|c'] p1]; [|done].
  destruct (revalidateRunEvent _ _ _) as [ev|] eqn:Er; [|done]. intros [= <- _].
  unfold revalidateRunEvent, projectTree in Er. apply bind_Ok in Er as (b & _ & Er).
  apply bind_Ok in Er as (doc & Hd & Er). apply bind_Ok in Hd as (? & _ & [= <-]). eauto 10.
Qed.

Lemma checkEnvelope_class b m e :
  checkEnvelope stringify b (JObj m) = Ok e ->
  match field m "eventClass" with Some (JStr s) => class_of s | _ => None end = Some (eventClass e).
Proof.
  unfold checkEnvelope. intros H.
  repeat (apply bind_Ok in H as (? & ? & H)). cbv beta in H.
  repeat match type of H with (let '(_, _) := ?x in _) = _ => destruct x end.
  repeat (apply bind_Ok in H as (? & ? & H)). injection H as <-.
  repeat match goal with H : or_else _ _ = Ok _ |- _ => apply or_else_Ok in H end. done.
Qed.

Lemma gap_marker g j p ev p' :
  emit stringify monotonicNow wallNow randomUUID DEFAULT_RUN_EVENT_LIMITS (gap_input g j) p = (Ok ev, p') ->
  eventClass ev = diagnostic /\ exists m, document ev = JObj m /\
    field m "payload" = Some (JObj [(js "dropped", JNum (int (gap_count g)));
                                    (js "firstEventId", JStr (firstEventId g));
                                    (js "lastEventId", JStr (lastEventId g))]).
Proof.
  intros H. apply emit_candidate in H as (b & eid & pid & ep & sq & mt & wall & H).
  pose proof (checkEnvelope_document _ _ _ _ H) as Hd. unfold candidate in *. split.
  - apply checkEnvelope_class in H. destruct wall;
      match type of H with ?l = _ => change l with (Some diagnostic) in H end; congruence.
  - eexists. split; [exact Hd|]. destruct wall; reflexivity.
Qed.

Abbreviation barrier_ := (barrier stringify monotonicNow wallNow randomUUID).

(** What a barrier does to the gaps. *)
Lemma sealGap_cases j r j' :
  sealGap stringify monotonicNow wallNow randomUUID j = (r, j') ->
  match r with
  | Err _ => exists p g g', j' = set_openGap (Some g') (set_gapProducer p j) /\
      openGap j = Some g /\ gap_ordinal g' = gap_ordinal g /\ gap_bytes g' = gap_bytes g /\
      gap_count g' = gap_count g
  | Ok _ => (openGap j = None /\ j' = j) \/
      exists p g g',
        j' = set_openGap None (set_gaps (gaps j ++ [g'])
               (set_pendingBytes (pendingBytes j + (gap_bytes g' - gap_bytes g)) (set_gapProducer p j))) /\
        openGap j = Some g /\ gap_ordinal g' = gap_ordinal g /\ gap_count g' = gap_count g /\
        0 <= gap_bytes g' <= DIAGNOSTIC_GAP_RESERVATION_BYTES /\ marker g'
  end.
Proof.
  unfold sealGap. destruct (openGap j) as [g|] eqn:Eg; [|intros [= <- <-]; by left].
  destruct (emit _ _ _ _ _ _ _) as [[ev|e] p] eqn:Ee.
  - cbn zeta. destruct (Z.ltb_spec DIAGNOSTIC_GAP_RESERVATION_BYTES (bytes_of stringify ev));
      intros [= <- <-].
    + eexists p, g, _. split; [reflexivity|done].
    + right. exists p, g, {| gap_ordinal := gap_ordinal g; gap_count := gap_count g;
        firstEventId := firstEventId g; lastEventId := lastEventId g;
        gap_event := Some ev; gap_bytes := bytes_of stringify ev |}. split; [reflexivity|]. split_and!; try done; cbn [gap_bytes].
      * unfold bytes_of, utf8_length. lia.
      * apply gap_marker in Ee as (Hc & m & Hd & Hf). by exists ev, m.
  - intros [= <- <-]. exists p, g, g. split; [|done]. rewrite <- Eg. by destruct j.
Qed.

(** What every operation keeps besides [sound]. *)
Lemma books_clear j : books j -> books (set_currentState ∅ j).
Proof. intros []. by constructor. Qed.

Lemma barrier_Err_sound j c j' :
  sound j -> marked j -> barrier_ j = (Err c, j') ->
  sound j' /\ marked j' /\ quiet j j' /\ flight j' = flight j.
Proof.
  intros (Hb & Hk & Hd) Hm. unfold barrier.
  destruct (sealGap _ _ _ _ _) as [[u|c'] j1] eqn:E; [done|]. intros [= <- <-].
  apply sealGap_cases in E as (p & g & g' & -> & Hg & Ho & Hby & Hc). cbn in Hg.
  split; [|split; [exact Hm|split; [|done]]].
  - split_and!.
    + destruct Hb. constructor; try done; cbn [openGap set_openGap].
      * unfold open_bytes in *. cbn. rewrite Hg in bk_bytes0. rewrite Hby. done.
      * intros x [= <-]. rewrite Ho, Hby. by apply bk_open0.
    + constructor. intros k e He. cbn in He. by rewrite lookup_empty in He.
    + destruct Hd. constructor; try done. cbn [currentState set_openGap set_gapProducer set_currentState].
      rewrite map_size_empty. cbn. lia.
  - constructor; [done|]. unfold diagnostics_held, open_count. cbn. rewrite Hg. lia.
Qed.

Lemma sealed_max j : books j -> Z.max (sealedThrough j) (nextOrdinal j - 1) = nextOrdinal j - 1.
Proof. intros H. pose proof (bk_sealed j H). lia. Qed.

(** The journal a successful barrier leaves. *)
Definition sealed (p : Producer) (token : Z) (extra : list DiagnosticGap) (freed : Z) (j : Journal) : Journal :=
  set_barriers (<[token := nextOrdinal j - 1]> (barriers j))
    (set_sealedThrough (Z.max (sealedThrough j) (nextOrdinal j - 1))
      (set_nextBarrierToken (token + 1)
        (set_openGap None (set_gaps (gaps j ++ extra)
          (set_pendingBytes (pendingBytes j - freed) (set_gapProducer p (set_currentState ∅ j))))))).

Lemma barrier_Ok_cases j b j' :
  barrier_ j = (Ok b, j') ->
  b = {| b_token := nextBarrierToken j; highWaterMark := nextOrdinal j - 1 |} /\
  exists p extra, j' = sealed p (nextBarrierToken j) extra (open_bytes j - sum_with gap_bytes extra) j /\
    sum_with gap_count extra = open_count j /\
    match openGap j with
    | None => extra = []
    | Some g => exists g', extra = [g'] /\ gap_ordinal g' = gap_ordinal g /\ marker g' /\ 0 <= gap_bytes g' <= DIAGNOSTIC_GAP_RESERVATION_BYTES
    end.
Proof.
  unfold barrier. destruct (sealGap _ _ _ _ _) as [[u|c'] j1] eqn:E; [|done]. intros [= <- <-].
  apply sealGap_cases in E as [[Hg ->]|(p & g & g' & -> & Hg & Ho & Hc & Hby & Hm)]; cbn in Hg.
  - split; [done|]. exists (gapProducer j), []. unfold open_count, open_bytes. rewrite Hg. split_and!; try done.
    unfold sealed. rewrite app_nil_r. cbn [sum_with]. rewrite !Z.sub_0_r. destruct j; cbn in *. by subst.
  - split; [done|]. exists p, [g']. unfold open_count, open_bytes. rewrite Hg. cbn [sum_with]. split_and!.
    + unfold sealed. cbn [pendingBytes set_currentState].
      by replace (pendingBytes j - (gap_bytes g - (gap_bytes g' + 0)))
        with (pendingBytes j + (gap_bytes g' - gap_bytes g)) by lia.
    + lia.
    + by exists g'.
Qed.

(** The gaps a barrier adds lie above every earlier seal. *)
Definition fresh_gaps (extra : list DiagnosticGap) (j : Journal) : Prop :=
  (length extra <= 1)%nat /\
  forall g, g ∈ extra -> 0 <= gap_bytes g /\ sealedThrough j < gap_ordinal g < nextOrdinal j.

Lemma books_sealed p token extra j :
  books j -> fresh_gaps extra j ->
  books (sealed p token extra (open_bytes j - sum_with gap_bytes extra) j).
Proof.
  intros H [Hl Hx]. pose proof (sealed_max j H) as Hmax. destruct H.
  assert (forall m, m <= sealedThrough j -> List.filter (fun g => gap_ordinal g <=? m) extra = []) as Hnone.
  { intros m Hm. destruct extra as [|g [|]]; cbn in Hl; [done| |lia]. cbn.
    destruct (Z.leb_spec (gap_ordinal g) m); [|done]. destruct (Hx g ltac:(left)). lia. }
  constructor; unfold sealed; cbn -[sum_with Z.max]; rewrite ?Hmax; try done.
  - rewrite sum_with_app, bk_bytes0. unfold open_bytes. cbn -[sum_with]. lia.
  - intros g [Hg|Hg]%elem_of_app; [destruct (bk_gap0 g Hg)|destruct (Hx g Hg)]; split; lia.
  - rewrite fmap_app. destruct extra as [|g [|]]; cbn in Hl; [by rewrite app_nil_r| |lia].
    apply increasing_app; [done|]. intros y (g' & -> & Hg')%list_elem_of_fmap.
    destruct (bk_gap0 g' Hg'), (Hx g ltac:(left)). lia.
  - lia.
  - intros t m [[_ <-]|[_ Hm]]%lookup_insert_Some; [lia|]. specialize (bk_barrier0 t m Hm). lia.
  - intros f Hf. destruct (bk_flight0 f Hf) as (Hm & H1 & H2 & H3). split; [lia|].
    unfold batch_items, gaps_upto, upto in *. cbn. rewrite List.filter_app, Hnone, app_nil_r by done. done.
Qed.

Lemma barrier_Ok_sound j b j' :
  sound j -> marked j -> barrier_ j = (Ok b, j') ->
  sound j' /\ marked j' /\ quiet j j' /\ flight j' = flight j.
Proof.
  intros (Hb & Hk & Hd) Hm H. apply barrier_Ok_cases in H as (_ & p & extra & -> & Hcount & Hcase).
  assert (fresh_gaps extra j /\ sum_with gap_bytes extra <= open_bytes j /\ forall g, g ∈ extra -> marker g)
    as (Hf & Hby & Hmk).
  { unfold fresh_gaps, open_bytes. destruct (openGap j) as [g|] eqn:Eg.
    - destruct Hcase as (g' & -> & Ho & Hmk & Hg'). destruct (bk_open j Hb g Eg) as [Hgb Hgo].
      cbn [length sum_with]. split_and!; [lia| |lia|]; intros x ->%list_elem_of_singleton; [lia|done].
    - subst. cbn. split_and!; [lia| |lia|]; intros x Hx; by apply elem_of_nil in Hx. }
  split; [split; [|split]|split; [|split]].
  - by apply books_sealed.
  - constructor. intros k e He. cbn in He. by rewrite lookup_empty in He.
  - destruct Hd. constructor; try done; cbn -[sum_with].
    + lia.
    + rewrite map_size_empty. cbn. lia.
  - intros g Hg. cbn in Hg. apply elem_of_app in Hg as [Hg|Hg]; auto.
  - constructor; [done|]. unfold diagnostics_held. cbn -[sum_with].
    rewrite sum_with_app, Hcount. unfold open_count. cbn -[sum_with]. lia.
  - done.
Qed.
End Barrier.
