(* ===== verification/JournalTheorems.v ===== *)
(** * The run-event journal: what it keeps

    Flushing, and what the invariant of [JournalInvariant] implies for every
    interleaving of appends, barriers and flushes: the backlog stays bounded,
    authoritative events are delivered in order or still pending, every evicted
    diagnostic is counted, and a refused flush can be retried unchanged. *)

From S2P Require Import Prelude JsText Dto RunEvents EventStream RunJournal JournalInvariant.
From Stdlib Require Import Sorted.

Local Open Scope Z_scope.

(** ** Flushing *)

Lemma removeFlushed_spec ords j :
  let gone := List.filter (fun e => bool_decide (ordinal e ∈ ords)) (entries j) in
  let j' := removeFlushed ords j in
  entries j' = List.filter (fun e => negb (bool_decide (ordinal e ∈ ords))) (entries j) /\
  pendingBytes j' = pendingBytes j - sum_with entry_bytes gone /\
  (forall c, counts j' c = counts j c - sum_with (one_of c) gone) /\
  gaps j' = gaps j /\ openGap j' = openGap j /\ sealedThrough j' = sealedThrough j /\
  nextOrdinal j' = nextOrdinal j /\ barriers j' = barriers j /\ flight j' = flight j /\
  j_limits j' = j_limits j /\ currentState j' = currentState j.
Proof.
  cbn zeta. unfold removeFlushed.
  set (j0 := set_entries _ j).
  change (pendingBytes j) with (pendingBytes j0). change (counts j) with (counts j0).
  change (gaps j) with (gaps j0). change (openGap j) with (openGap j0).
  change (sealedThrough j) with (sealedThrough j0). change (nextOrdinal j) with (nextOrdinal j0).
  change (barriers j) with (barriers j0). change (flight j) with (flight j0).
  change (j_limits j) with (j_limits j0). change (currentState j) with (currentState j0).
  change (List.filter (fun e => negb _) (entries j)) with (entries j0).
  generalize (entries j) as l. clearbody j0. intros l.
  induction l as [|e l IH]; cbn -[sum_with]; [split_and!; try done; intros; cbn; lia|].
  destruct IH as (I1 & I2 & I3 & I4 & I5 & I6 & I7 & I8 & I9 & I10 & I11).
  destruct (bool_decide _); cbn -[sum_with]; cbn [sum_with]; [|split_and!; done].
  split_and!; try done.
  - rewrite I2. lia.
  - intros c. unfold one_of at 1. destruct (decide (c = eventClass (event e))) as [->|Hc].
    + rewrite I3, bool_decide_eq_true_2 by done. lia.
    + rewrite I3, bool_decide_eq_false_2 by congruence. lia.
Qed.

Lemma removeFlushedGaps_spec ords j :
  let gone := List.filter (fun g => bool_decide (gap_ordinal g ∈ ords)) (gaps j) in
  let j' := removeFlushedGaps ords j in
  gaps j' = List.filter (fun g => negb (bool_decide (gap_ordinal g ∈ ords))) (gaps j) /\
  pendingBytes j' = pendingBytes j - sum_with gap_bytes gone /\
  entries j' = entries j /\ counts j' = counts j /\ openGap j' = openGap j /\ sealedThrough j' = sealedThrough j /\
  nextOrdinal j' = nextOrdinal j /\ barriers j' = barriers j /\ flight j' = flight j /\
  j_limits j' = j_limits j /\ currentState j' = currentState j.
Proof.
  cbn zeta. unfold removeFlushedGaps.
  set (j0 := set_gaps _ j).
  change (pendingBytes j) with (pendingBytes j0). change (counts j) with (counts j0).
  change (entries j) with (entries j0). change (openGap j) with (openGap j0).
  change (sealedThrough j) with (sealedThrough j0). change (nextOrdinal j) with (nextOrdinal j0).
  change (barriers j) with (barriers j0). change (flight j) with (flight j0).
  change (j_limits j) with (j_limits j0). change (currentState j) with (currentState j0).
  change (List.filter (fun g => negb _) (gaps j)) with (gaps j0).
  generalize (gaps j) as l. clearbody j0. intros l.
  induction l as [|e l IH]; cbn -[sum_with]; [split_and!; try done; intros; cbn; lia|].
  destruct IH as (I1 & I2 & I3 & I4 & I5 & I6 & I7 & I8 & I9 & I10 & I11).
  destruct (bool_decide _); cbn -[sum_with]; cbn [sum_with]; split_and!; try done. lia.
Qed.

(** A list of increasing keys splits at a mark. *)
Lemma increasing_split {A} (key : A -> Z) m l :
  increasing (key <$> l) ->
  l = List.filter (fun a => key a <=? m) l ++ List.filter (fun a => negb (key a <=? m)) l.
Proof.
  induction l as [|a l IH]; intros H; [done|]. unfold increasing in *. cbn in H. inversion H as [|? ? Hs Hf]; subst.
  cbn [List.filter]. destruct (Z.leb_spec (key a) m) as [Hle|Hgt]; cbn [negb].
  - cbn. f_equal. by apply IH.
  - assert (List.filter (fun a => key a <=? m) l = []) as E.
    { rewrite List.Forall_forall in Hf. clear -Hf Hgt. induction l as [|b l IH]; [done|]. cbn.
      pose proof (Hf (key b) ltac:(by left)). destruct (Z.leb_spec (key b) m); [lia|]. apply IH. intros x Hx.
      apply Hf. by right. }
    rewrite E. cbn. f_equal. specialize (IH Hs). rewrite E in IH. exact IH.
Qed.

(** Being listed among the keys up to a mark is being up to the mark. *)
Lemma listed_upto {A} (key : A -> Z) m l a :
  a ∈ l -> bool_decide (key a ∈ key <$> List.filter (fun a => key a <=? m) l) = (key a <=? m).
Proof.
  intros Ha. destruct (Z.leb_spec (key a) m) as [Hle|Hgt].
  - apply bool_decide_eq_true_2. apply list_elem_of_fmap_2, elem_of_filter_. split; [done|]. by apply Z.leb_le.
  - apply bool_decide_eq_false_2. intros (b & Hb & Hin)%list_elem_of_fmap.
    apply elem_of_filter_ in Hin as [_ Hin]. breflect. lia.
Qed.

Lemma filter_same {A} (P Q : A -> bool) l : (forall a, a ∈ l -> P a = Q a) -> List.filter P l = List.filter Q l.
Proof.
  induction l as [|a l IH]; cbn; intros H; [done|]. rewrite (H a) by left.
  rewrite IH by (intros; apply H; by right). done.
Qed.

Lemma delivered_spec j f :
  books j -> flight j = Some f ->
  let j' := flushEnd true j in
  entries j = upto (f_mark f) j ++ entries j' /\ gaps j = gaps_upto (f_mark f) j ++ gaps j' /\
  pendingBytes j' = pendingBytes j - sum_with entry_bytes (upto (f_mark f) j)
                                   - sum_with gap_bytes (gaps_upto (f_mark f) j) /\
  (forall c, counts j' c = counts j c - sum_with (one_of c) (upto (f_mark f) j)) /\
  openGap j' = openGap j /\ sealedThrough j' = sealedThrough j /\ nextOrdinal j' = nextOrdinal j /\
  (forall t m, barriers j' !! t = Some m -> barriers j !! t = Some m) /\ flight j' = None /\
  j_limits j' = j_limits j /\ currentState j' = currentState j /\
  (forall x, x ∈ entries j -> f_mark f < ordinal x -> x ∈ entries j').
Proof.
  intros H Hf. destruct (bk_flight j H f Hf) as (_ & Ho & Hg & _). unfold flushEnd. rewrite Hf. cbn zeta.
  set (j1 := set_flight None j).
  destruct (removeFlushed_spec (f_ordinary f) j1) as (E1 & E2 & E3 & E4 & E5 & E6 & E7 & E8 & E9 & E10 & E11).
  set (j2 := removeFlushed (f_ordinary f) j1) in *.
  destruct (removeFlushedGaps_spec (f_gaps f) j2) as (G1 & G2 & G3 & G4 & G5 & G6 & G7 & G8 & G9 & G10 & G11).
  set (j3 := removeFlushedGaps (f_gaps f) j2) in *.
  assert (forall x, x ∈ entries j -> bool_decide (ordinal x ∈ f_ordinary f) = (ordinal x <=? f_mark f)) as Ho'.
  { intros x Hx. rewrite Ho. by apply listed_upto. }
  assert (forall g, g ∈ gaps j -> bool_decide (gap_ordinal g ∈ f_gaps f) = (gap_ordinal g <=? f_mark f)) as Hg'.
  { intros g Hg'. rewrite Hg. by apply (listed_upto gap_ordinal). }
  rewrite E4 in G1, G2. change (entries j1) with (entries j) in *. change (gaps j1) with (gaps j) in *.
  rewrite (filter_same _ _ _ Ho') in E2. setoid_rewrite (filter_same _ _ _ Ho') in E3.
  rewrite (filter_same _ _ _ Hg') in G2.
  rewrite (filter_same _ (fun e => negb (ordinal e <=? f_mark f))) in E1 by (intros; by rewrite Ho').
  rewrite (filter_same _ (fun g => negb (gap_ordinal g <=? f_mark f))) in G1 by (intros; by rewrite Hg').
  cbn -[sum_with upto gaps_upto]. fold (upto (f_mark f) j) (gaps_upto (f_mark f) j) in *.
  rewrite G3, G4, E1, G1, G5, G6, G7, G9, G10, G11, E5, E6, E7, E9, E10, E11.
  split_and!; try done.
  - apply increasing_split, H.
  - apply increasing_split, H.
  - rewrite G2, E2. done.
  - rewrite G8, E8. intros t m Hm. by apply map_lookup_filter_Some in Hm as [? _].
  - intros x Hx Hlt. apply elem_of_filter_. split; [done|]. apply negb_true_iff, Z.leb_gt. done.
Qed.

Lemma increasing_app_r l k : increasing (l ++ k) -> increasing k.
Proof. intros H. eapply increasing_sublist; [|exact H]. by apply sublist_inserts_l. Qed.

Lemma delivered_sound j f :
  sound j -> marked j -> flight j = Some f -> sound (flushEnd true j) /\ marked (flushEnd true j).
Proof.
  intros (Hb & Hk & Hd) Hm Hf.
  destruct (delivered_spec j f Hb Hf) as (E1 & E2 & E3 & E4 & E5 & E6 & E7 & E8 & E9 & E10 & E11 & E12).
  destruct (bk_flight j Hb f Hf) as (Hmark & _).
  set (j' := flushEnd true j) in *. destruct Hb. split; [split; [|split]|].
  - constructor; rewrite ?E5, ?E6, ?E7; try done.
    + unfold open_bytes in *. rewrite E3, E5, bk_bytes, E1, E2, !sum_with_app. lia.
    + intros c. rewrite E4, bk_counts, E1, sum_with_app. lia.
    + intros x Hx. apply bk_entry. rewrite E1. apply elem_of_app. by right.
    + rewrite E1, fmap_app in bk_order. by eapply increasing_app_r.
    + intros g Hg. apply bk_gap. rewrite E2. apply elem_of_app. by right.
    + rewrite E2, fmap_app in bk_gaps. by eapply increasing_app_r.
    + intros t m Ht. by eapply bk_barrier, E8.
    + intros f' Hf'. congruence.
  - constructor. intros k x Hx. rewrite E11 in Hx. destruct (ky_entry j Hk k x Hx) as (H1 & H2 & H3 & H4).
    rewrite E6. split_and!; try done. apply E12; [done|lia].
  - assert (forall l : list JournalEntry, (forall x, x ∈ l -> x ∈ entries j) -> 0 <= sum_with entry_bytes l) as Hn.
    { intros l Hl. apply sum_with_nonneg. intros x Hx. by apply bk_entry, Hl. }
    assert (forall c l, 0 <= sum_with (one_of c) l) as Hn'.
    { intros c l. apply sum_with_nonneg. intros x _. unfold one_of. destruct (bool_decide _); lia. }
    pose proof (Hn (upto (f_mark f) j) ltac:(intros x Hx; by apply elem_of_filter_ in Hx as [? _])).
    assert (0 <= sum_with gap_bytes (gaps_upto (f_mark f) j)).
    { apply sum_with_nonneg. intros g Hg. apply elem_of_filter_ in Hg as [Hg _]. by apply bk_gap. }
    destruct Hd. constructor; rewrite ?E10, ?E11, ?E3, ?E4; try done; try lia;
      match goal with |- _ - sum_with (one_of ?c) ?l <= _ => pose proof (Hn' c l); lia end.
  - intros g Hg. apply Hm. rewrite E2. apply elem_of_app. by right.
Qed.

Lemma flushStart_sound b j batch j' :
  sound j -> marked j -> flushStart b j = Some (batch, j') ->
  sound j' /\ marked j' /\ quiet j j' /\ flight j = None /\
  batch = snd <$> batch_items (highWaterMark b) j /\
  flight j' = Some {| f_mark := highWaterMark b; f_ordinary := ordinal <$> upto (highWaterMark b) j;
                      f_gaps := gap_ordinal <$> gaps_upto (highWaterMark b) j; f_batch := batch |}.
Proof.
  unfold flushStart. destruct (flight j); [done|]. destruct (_ || _) eqn:E; [done|]. cbn zeta. intros (Hb & Hk & Hd) Hm [= <- <-].
  breflect. split; [split; [|split]|]; [destruct Hb; constructor; try done| | |].
  - intros f [= <-]. cbn. split; [|done]. by eapply bk_barrier.
  - destruct Hk. by constructor.
  - destruct Hd. by constructor.
  - done.
Qed.

Lemma refused_sound j :
  sound j -> marked j ->
  sound (flushEnd false j) /\ marked (flushEnd false j) /\ quiet j (flushEnd false j) /\ flight (flushEnd false j) = None.
Proof.
  intros (Hb & Hk & Hd) Hm. unfold flushEnd. destruct (flight j) eqn:E; [|done]. cbn zeta.
  split; [split; [|split]|done]; [destruct Hb; constructor; try done|destruct Hk; by constructor|destruct Hd; by constructor].
Qed.

(** ** Batches *)

Definition item_le (x y : Z * RunEvent) : Prop := fst x <= fst y.
Abbreviation sorted_items := (StronglySorted item_le).

Lemma insert_by_Permutation x l : insert_by x l ≡ₚ x :: l.
Proof.
  induction l as [|y l IH]; cbn; [done|]. destruct (_ <=? _); [|done]. rewrite IH. constructor.
Qed.

Lemma sort_Permutation_acc l acc : foldl (fun acc x => insert_by x acc) acc l ≡ₚ acc ++ l.
Proof.
  revert acc. induction l as [|x l IH]; intros acc; cbn; [by rewrite app_nil_r|].
  rewrite IH, insert_by_Permutation. by rewrite <- Permutation_middle.
Qed.

Lemma sort_Permutation l : sort_by_ordinal l ≡ₚ l.
Proof. apply (sort_Permutation_acc l []). Qed.

Lemma insert_by_sorted x l : sorted_items l -> sorted_items (insert_by x l).
Proof.
  induction 1 as [|y l Hs IH Hf]; cbn; [repeat constructor|].
  destruct (Z.leb_spec (fst y) (fst x)) as [Hle|Hgt].
  - constructor; [done|]. apply List.Forall_forall. intros z Hz.
    apply list_elem_of_In in Hz. rewrite insert_by_Permutation in Hz.
    apply elem_of_cons in Hz as [->|Hz]; [exact Hle|]. rewrite List.Forall_forall in Hf. by apply Hf, list_elem_of_In.
  - constructor; [by constructor|]. constructor; [unfold item_le; lia|].
    eapply List.Forall_impl; [|exact Hf]. unfold item_le. intros z ?. lia.
Qed.

Lemma sort_sorted_acc l acc :
  sorted_items acc -> sorted_items (foldl (fun acc x => insert_by x acc) acc l).
Proof. revert acc. induction l as [|x l IH]; intros acc H; cbn; [done|]. by apply IH, insert_by_sorted. Qed.

(** Sorting is stable: it commutes with selecting. *)
Lemma insert_by_filter (P : Z * RunEvent -> bool) x l :
  sorted_items l ->
  List.filter P (insert_by x l) = if P x then insert_by x (List.filter P l) else List.filter P l.
Proof.
  induction 1 as [|y l Hs IH Hf]; cbn; [by destruct (P x)|].
  destruct (Z.leb_spec (fst y) (fst x)) as [Hle|Hgt]; cbn.
  - rewrite IH. destruct (P x), (P y); cbn; try done. by rewrite (proj2 (Z.leb_le _ _) Hle).
  - destruct (P x) eqn:Ex; [|done]. destruct (P y) eqn:Ey; cbn.
    + by rewrite (proj2 (Z.leb_gt _ _) Hgt).
    + clear IH Hs. induction l as [|z l IH]; cbn; [done|]. inversion Hf as [|? ? Hz Hf']; subst.
      destruct (P z); cbn; [|by apply IH]. unfold item_le in Hz. by rewrite (proj2 (Z.leb_gt _ _)) by lia.
Qed.

Lemma sort_filter P l : List.filter P (sort_by_ordinal l) = sort_by_ordinal (List.filter P l).
Proof.
  unfold sort_by_ordinal. change ([] : list (Z * RunEvent)) with (List.filter P []) at 2.
  assert (sorted_items []) as Hs by constructor. revert Hs. generalize ([] : list (Z * RunEvent)).
  induction l as [|x l IH]; intros acc Hs; cbn; [done|].
  rewrite IH by by apply insert_by_sorted. rewrite insert_by_filter by done. by destruct (P x).
Qed.

Lemma sort_id l : increasing (fst <$> l) -> sort_by_ordinal l = l.
Proof.
  unfold sort_by_ordinal. change l with ([] ++ l) at 1 3. generalize ([] : list (Z * RunEvent)) as acc.
  induction l as [|x l IH]; intros acc H; cbn; [by rewrite app_nil_r|].
  assert (insert_by x acc = acc ++ [x]) as ->.
  { clear IH. induction acc as [|y acc IHa]; cbn; [done|]. cbn in H. inversion H as [|? ? Hs Hf]; subst.
    rewrite List.Forall_forall in Hf. assert (fst y < fst x).
    { apply Hf. apply list_elem_of_In. rewrite fmap_app. apply elem_of_app. right. left. }
    rewrite (proj2 (Z.leb_le _ _)) by lia. by rewrite IHa. }
  rewrite IH by by rewrite <- (assoc_L (++)). by rewrite <- (assoc_L (++)).
Qed.

Lemma batch_sorted m j : sorted_items (batch_items m j).
Proof. apply sort_sorted_acc. constructor. Qed.

(** The events of a class. *)
Definition events_of (c : RunEventClass) (l : list RunEvent) : list RunEvent :=
  List.filter (fun e => bool_decide (eventClass e = c)) l.

Lemma events_of_snd c (l : list (Z * RunEvent)) :
  events_of c (snd <$> l) = snd <$> List.filter (fun x => bool_decide (eventClass (snd x) = c)) l.
Proof. unfold events_of. induction l as [|x l IH]; cbn; [done|]. destruct (bool_decide _); cbn; by rewrite IH. Qed.

Lemma items_of_class c l :
  List.filter (fun x : Z * RunEvent => bool_decide (eventClass (snd x) = c)) ((fun e => (ordinal e, event e)) <$> l) =
  (fun e => (ordinal e, event e)) <$> of_class c l.
Proof. unfold of_class. induction l as [|e l IH]; cbn; [done|]. destruct (bool_decide _); cbn; by rewrite IH. Qed.

Lemma gap_items_diagnostic c l :
  (forall g, g ∈ l -> marker g) -> c <> diagnostic ->
  List.filter (fun x : Z * RunEvent => bool_decide (eventClass (snd x) = c)) (mjoin (gap_item <$> l)) = [].
Proof.
  intros H Hc. induction l as [|g l IH]; [done|]. rewrite mjoin_fmap_cons, List.filter_app.
  rewrite IH by (intros; apply H; by right). destruct (H g ltac:(left)) as (ev & m & He & Hcl & _).
  unfold gap_item. rewrite He. cbn. by rewrite bool_decide_eq_false_2 by congruence.
Qed.

(** The authoritative part of a batch is the authoritative backlog, in order. *)
Lemma batch_authoritative m j :
  books j -> marked j ->
  events_of authoritative (snd <$> batch_items m j) = event <$> of_class authoritative (upto m j).
Proof.
  intros H Hm. unfold batch_items. rewrite events_of_snd, sort_filter, List.filter_app, items_of_class.
  rewrite gap_items_diagnostic, app_nil_r; [| |done].
  - rewrite sort_id; [by rewrite <- list_fmap_compose|]. rewrite <- list_fmap_compose.
    eapply increasing_sublist; [|apply (bk_order j H)]. apply sublist_fmap_.
    transitivity (upto m j); apply sublist_filter.
  - intros g Hg. apply Hm. by apply elem_of_filter_ in Hg as [? _].
Qed.

Lemma batch_contents m j :
  marked j ->
  (snd <$> batch_items m j) ≡ₚ (event <$> upto m j) ++ omap gap_event (gaps_upto m j).
Proof.
  intros Hm. unfold batch_items. rewrite sort_Permutation, fmap_app, <- list_fmap_compose.
  apply Permutation_app; [done|]. generalize (gaps_upto m j) as l. induction l as [|g l IH]; [done|].
  rewrite mjoin_fmap_cons, fmap_app, IH. unfold gap_item. cbn. by destruct (gap_event g).
Qed.

(** ** Which diagnostics a gap stands for *)

(** [g] stands for the diagnostics [ds]: it has their number, and the first and the
    last of them. *)
Record stands_for (g : DiagnosticGap) (ds : list JournalEntry) : Prop := {
  sf_count : gap_count g = Z.of_nat (length ds);
  sf_first : head ((fun d => eventId (event d)) <$> ds) = Some (firstEventId g);
  sf_last : last ((fun d => eventId (event d)) <$> ds) = Some (lastEventId g);
}.

(** The gaps of a journal, the open one last. *)
Definition all_gaps (j : Journal) : list DiagnosticGap := gaps j ++ match openGap j with Some g => [g] | None => [] end.

(** A gap that was sealed stands for what it stood for. *)
Definition same_loss (g g' : DiagnosticGap) : Prop :=
  gap_count g' = gap_count g /\ firstEventId g' = firstEventId g /\ lastEventId g' = lastEventId g.

Lemma same_losses gs gs' lost : Forall2 same_loss gs gs' -> Forall2 stands_for gs lost -> Forall2 stands_for gs' lost.
Proof.
  intros H. revert lost. induction H as [|g g' gs gs' (Hc & Hf & Hl) _ IH]; intros lost Hs; inversion Hs as [|? ds ? dss [] Hss]; subst; constructor; [|by apply IH].
  constructor; congruence.
Qed.

Lemma same_loss_refl gs : Forall2 same_loss gs gs.
Proof. induction gs; by constructor. Qed.

(** Every diagnostic that left the backlog undelivered is one that one gap stands
    for. *)
Definition accounts (arrived : list JournalEntry) (reported : list DiagnosticGap) (j : Journal) (lost : list (list JournalEntry)) : Prop :=
  Forall2 stands_for (reported ++ all_gaps j) lost /\
  arrived ≡ₚ of_class diagnostic (entries j) ++ mjoin lost.

Lemma accounts_same arrived reported j j' lost :
  entries j' = entries j -> Forall2 same_loss (all_gaps j) (all_gaps j') -> accounts arrived reported j lost -> accounts arrived reported j' lost.
Proof.
  intros He Hg [H1 H2]. split; [|by rewrite He]. eapply same_losses; [|exact H1]. apply Forall2_app; [apply same_loss_refl|done].
Qed.

Lemma accounts_quiet arrived reported j j' lost :
  entries j' = entries j -> gaps j' = gaps j -> openGap j' = openGap j -> accounts arrived reported j lost -> accounts arrived reported j' lost.
Proof. intros He Hg Ho. apply accounts_same; [done|]. unfold all_gaps. rewrite Hg, Ho. apply same_loss_refl. Qed.

Lemma accounts_perm arrived arrived' reported j lost : arrived ≡ₚ arrived' -> accounts arrived reported j lost -> accounts arrived' reported j lost.
Proof. intros Hp [H1 H2]. split; [done|]. by rewrite <- Hp. Qed.

(** The open gap takes one more, or opens with it. *)
Lemma accounts_gap arrived reported d j lost :
  accounts arrived reported j lost -> exists lost', accounts (arrived ++ [d]) reported (recordDiagnosticGap d j) lost'.
Proof.
  unfold accounts, all_gaps, recordDiagnosticGap. rewrite !(assoc_L (++)). intros [H1 H2]. destruct (openGap j) as [g|].
  - apply Forall2_app_inv_l in H1 as (l1 & l2 & H1 & Hg & ->). inversion Hg as [|? ds ? ? [Hc Hf Hl] Hn]; subst. inversion Hn; subst.
    exists (l1 ++ [ds ++ [d]]). cbn [gaps openGap entries set_openGap]. split.
    + apply Forall2_app; [done|]. constructor; [|done]. constructor; cbn; rewrite ?fmap_app; cbn.
      * rewrite length_app. cbn. lia.
      * by destruct ds.
      * by rewrite last_snoc.
    + rewrite H2, !join_app. cbn. rewrite !app_nil_r. solve_Permutation.
  - rewrite app_nil_r in H1. exists (lost ++ [[d]]). cbn [gaps openGap entries set_openGap observePeak set_peakPending set_peakPendingBytes set_pendingBytes]. split.
    + apply Forall2_app; [done|]. by repeat constructor.
    + rewrite H2, join_app. cbn. solve_Permutation.
Qed.

Lemma entries_removeEntry d j : books j -> d ∈ entries j -> entries j ≡ₚ d :: entries (removeEntry d j).
Proof.
  intros H Hd. destruct (delete_other _ _ (increasing_NoDup _ (bk_order j H)) Hd) as (i & Hf & Hl & _).
  unfold removeEntry. rewrite Hf. cbn. exact (delete_Permutation _ _ _ Hl).
Qed.

Lemma of_class_Permutation c l k : l ≡ₚ k -> of_class c l ≡ₚ of_class c k.
Proof.
  unfold of_class. induction 1 as [|x l k _ IH|x y l|l1 l2 l3 _ IH1 _ IH2]; cbn.
  - done.
  - destruct (bool_decide _); [by constructor|done].
  - destruct (bool_decide _), (bool_decide _); first [apply perm_swap|done].
  - by rewrite IH1.
Qed.

(** A dropped diagnostic moves from the backlog to the open gap. *)
Lemma accounts_drop arrived reported d j lost :
  books j -> d ∈ entries j -> eventClass (event d) = diagnostic -> accounts arrived reported j lost ->
  exists lost', accounts arrived reported (recordDiagnosticGap d (removeEntry d j)) lost'.
Proof.
  intros Hb Hd Hc [H1 H2]. pose proof (removeEntry_spec d j Hb Hd) as (_ & _ & _ & _ & Eg & Eo & _).
  pose proof (of_class_Permutation diagnostic _ _ (entries_removeEntry d j Hb Hd)) as Hp.
  unfold of_class in Hp at 2. cbn in Hp. rewrite bool_decide_eq_true_2 in Hp by done. fold (of_class diagnostic (entries (removeEntry d j))) in Hp.
  set (j1 := removeEntry d j) in *.
  destruct (accounts_gap (of_class diagnostic (entries j1) ++ mjoin lost) reported d j1 lost) as (lost' & Ha).
  { split; [|done]. unfold all_gaps in *. by rewrite Eg, Eo. }
  exists lost'. eapply accounts_perm; [|exact Ha]. rewrite H2, Hp. solve_Permutation.
Qed.

Lemma accounts_drops arrived reported drops j lost :
  books j -> sheddable drops j -> accounts arrived reported j lost -> exists lost', accounts arrived reported (dropDiagnostics drops j) lost'.
Proof.
  revert j lost. induction drops as [|d drops IH]; intros j lost Hb Hs Ha; [by exists lost|].
  destruct (proj2 Hs d ltac:(left)) as (Hin & Hc & _). destruct (sheddable_step d drops j Hb Hs) as [Hb1 Hs1].
  destruct (accounts_drop _ _ _ _ _ Hb Hin Hc Ha) as (lost1 & Ha1). exact (IH _ _ Hb1 Hs1 Ha1).
Qed.

Lemma accounts_push arrived reported e j lost :
  accounts arrived reported j lost -> accounts (arrived ++ of_class diagnostic [e]) reported (pushEntry e j) lost.
Proof.
  intros [H1 H2]. destruct (pushEntry_spec e j) as (E1 & _ & _ & E4 & E5 & _). split; [unfold all_gaps in *; by rewrite E4, E5|].
  rewrite E1, of_class_app, H2. solve_Permutation.
Qed.

Lemma accounts_appended stringify arrived reported e key j j' lost :
  sound j -> appended stringify e key j j' -> accounts arrived reported j lost ->
  exists lost', accounts (arrived ++ of_class diagnostic [new_entry stringify e key j]) reported j' lost'.
Proof.
  intros (Hb & Hk & _) Happ Ha. destruct Happ as [v k Hc -> _ _|v drops _ Hp _ _ _].
  - destruct (replace_phase v k j Hb Hk) as (_ & _ & R2 & _ & _ & R5 & R6 & _). fold (superseded v k j).
    exists lost. apply accounts_push. destruct Ha as [H1 H2]. split; [unfold all_gaps in *; cbn; by rewrite R5, R6|].
    rewrite <- (proj2 (R2 diagnostic ltac:(done))) in H2. exact H2.
  - pose proof (books_fresh j v Hb) as Hb1. destruct (accounts_drops arrived reported drops (issued v j) lost Hb1) as (lost' & Ha').
    + exact (droppable_sheddable j drops Hb Hp).
    + by apply (accounts_quiet _ _ j).
    + exists lost'. by apply accounts_push.
Qed.

(** ** Histories

    The journal with what an observer has seen of it: the entries accepted, the
    entries and gaps delivered, and the events the sink got. *)
Record History : Type := mkHistory {
  h_journal : Journal;
  h_accepted : list JournalEntry;
  h_sent : list JournalEntry;
  h_reported : list DiagnosticGap;
  h_delivered : list RunEvent;
}.

Definition with_journal (j : Journal) (h : History) : History :=
  mkHistory j h.(h_accepted) h.(h_sent) h.(h_reported) h.(h_delivered).

Section Histories.
Context (stringify : json -> jstring).
Context (monotonicNow : nat -> number) (wallNow : option (nat -> number)) (randomUUID : nat -> jstring).

Abbreviation append_ := (append stringify).
Abbreviation barrier_ := (barrier stringify monotonicNow wallNow randomUUID).
Abbreviation validate_ hp inv v := (validateRunEvent stringify hp inv DEFAULT_RUN_EVENT_LIMITS v).

Inductive journal_step (h : History) : History -> Prop :=
| step_append hp inv v key e n j' :
    validate_ hp inv v = Ok e -> append_ hp inv v key (h_journal h) = (Ok n, j') ->
    journal_step h (mkHistory j' (h_accepted h ++ [new_entry stringify e key (h_journal h)])
                      (h_sent h) (h_reported h) (h_delivered h))
| step_refuse hp inv v key c j' :
    append_ hp inv v key (h_journal h) = (Err c, j') -> journal_step h (with_journal j' h)
| step_barrier r j' :
    barrier_ (h_journal h) = (r, j') -> journal_step h (with_journal j' h)
| step_flush b batch j' :
    flushStart b (h_journal h) = Some (batch, j') -> journal_step h (with_journal j' h)
| step_delivered f :
    flight (h_journal h) = Some f ->
    journal_step h (mkHistory (flushEnd true (h_journal h)) (h_accepted h)
                      (h_sent h ++ upto (f_mark f) (h_journal h))
                      (h_reported h ++ gaps_upto (f_mark f) (h_journal h))
                      (h_delivered h ++ f_batch f))
| step_failed :
    journal_step h (with_journal (flushEnd false (h_journal h)) h).

Definition fresh_history (h : History) : Prop :=
  exists invocation run gp limits,
    newJournal invocation run gp limits = Some (h_journal h) /\
    h_accepted h = [] /\ h_sent h = [] /\ h_reported h = [] /\ h_delivered h = [].

(** An accepted state event was superseded by a later one with its key. *)
Definition outdated (h : History) (a : JournalEntry) : Prop :=
  eventClass (event a) = state /\
  exists b, b ∈ h_accepted h /\ eventClass (event b) = state /\ stateKey b = stateKey a /\ ordinal a < ordinal b.

Record conserved (h : History) : Prop := {
  cv_sound : sound (h_journal h);
  cv_marked : marked (h_journal h);
  cv_authoritative : event <$> of_class authoritative (h_accepted h) =
    events_of authoritative (h_delivered h) ++ (event <$> of_class authoritative (entries (h_journal h)));
  cv_diagnostic : sum_with (one_of diagnostic) (h_accepted h) =
    sum_with (one_of diagnostic) (h_sent h) + sum_with gap_count (h_reported h) +
    diagnostics_held (h_journal h);
  cv_reported g : g ∈ h_reported h -> marker g;
  cv_delivered : h_delivered h ≡ₚ (event <$> h_sent h) ++ omap gap_event (h_reported h);
  cv_accounted a : a ∈ h_accepted h ->
    a ∈ h_sent h \/ a ∈ entries (h_journal h) \/ eventClass (event a) = diagnostic \/ outdated h a;
  cv_entries e : e ∈ entries (h_journal h) -> e ∈ h_accepted h;
}.

Lemma append_cases hp inv v key j r j' :
  append_ hp inv v key j = (r, j') ->
  (exists c w, r = Err c /\ j' = set_validator w j) \/
  (exists e, validate_ hp inv v = Ok e /\ r = Ok (nextOrdinal j) /\ appended stringify e key j j').
Proof.
  unfold append. intros H.
  assert (j = set_validator (validator j) j) as Hj by by destruct j.
  destruct (validateRunEvent _ _ _ _ _) as [e|c]; [|injection H as <- <-; eauto].
  destruct (negb _); [injection H as <- <-; eauto|].
  apply appendEvent_cases in H as [H|[-> H]]; eauto.
Qed.

(** Steps that leave the backlog alone. *)
Lemma conserved_quiet h j' :
  conserved h -> sound j' -> marked j' -> quiet (h_journal h) j' -> conserved (with_journal j' h).
Proof. intros [] Hs Hm [He Hd]. constructor; cbn; rewrite ?He, ?Hd; done. Qed.

Lemma conserved_append h n j' :
  conserved h -> sound j' -> marked j' -> effect n (h_journal h) j' ->
  (forall x, x ∈ entries (h_journal h) -> ordinal x < ordinal n) ->
  conserved (mkHistory j' (h_accepted h ++ [n]) (h_sent h) (h_reported h) (h_delivered h)).
Proof.
  intros [] Hs Hm [] Hn. constructor; cbn [h_journal h_accepted h_sent h_reported h_delivered]; try done.
  - by rewrite of_class_app, fmap_app, cv_authoritative0, ef_authoritative, fmap_app, (assoc_L (++)).
  - rewrite sum_with_app, cv_diagnostic0, ef_diagnostic. cbn [sum_with]. lia.
  - intros a [Ha| ->%list_elem_of_singleton]%elem_of_app; [|by right; left].
    assert (forall b, b ∈ h_accepted h -> b ∈ h_accepted h ++ [n]) as Hin by (intros; apply elem_of_app; by left).
    destruct (cv_accounted0 a Ha) as [?|[Hp|[?|(Hst & b & Hb & ?)]]]; [by left| |by right; right; left|].
    + destruct (ef_kept a Hp) as [?|[?|(H1 & H2 & H3)]]; [by right; left|by right; right; left|].
      do 3 right. split; [done|]. exists n. split_and!; [apply elem_of_app; right; left|done|done|by apply Hn].
    + do 3 right. split; [done|]. exists b. split; [by apply Hin|done].
  - intros e He. apply elem_of_app. destruct (ef_old e He) as [->|Ho]; [right; left|left; auto].
Qed.

Lemma conserved_delivered h f :
  conserved h -> flight (h_journal h) = Some f ->
  conserved (mkHistory (flushEnd true (h_journal h)) (h_accepted h)
               (h_sent h ++ upto (f_mark f) (h_journal h))
               (h_reported h ++ gaps_upto (f_mark f) (h_journal h))
               (h_delivered h ++ f_batch f)).
Proof.
  intros [] Hf. destruct (delivered_sound _ _ cv_sound0 cv_marked0 Hf) as [Hs Hm].
  pose proof (proj1 cv_sound0) as Hb.
  destruct (delivered_spec _ _ Hb Hf) as (E1 & E2 & _ & _ & E5 & _).
  destruct (bk_flight _ Hb f Hf) as (_ & _ & _ & Hbatch).
  set (j := h_journal h) in *. set (j' := flushEnd true j) in *.
  constructor; cbn [h_journal h_accepted h_sent h_reported h_delivered]; try done.
  - unfold events_of. rewrite cv_authoritative0, List.filter_app. fold (events_of authoritative (h_delivered h)).
    fold (events_of authoritative (f_batch f)). rewrite <- (assoc_L (++)). f_equal.
    rewrite Hbatch, batch_authoritative by done. rewrite <- fmap_app. f_equal.
    rewrite <- of_class_app. by f_equal.
  - rewrite !sum_with_app, cv_diagnostic0. unfold diagnostics_held, open_count.
    rewrite E5, E1, E2, !sum_with_app. fold (open_count j). lia.
  - intros g [Hg|Hg]%elem_of_app; [auto|]. apply cv_marked0. by apply elem_of_filter_ in Hg as [? _].
  - rewrite cv_delivered0, Hbatch, batch_contents, fmap_app, omap_app by done. solve_Permutation.
  - intros a Ha. destruct (cv_accounted0 a Ha) as [?|[Hp|?]]; [left; apply elem_of_app; by left| |auto].
    rewrite E1 in Hp. apply elem_of_app in Hp as [?|?]; [left; apply elem_of_app; by right|auto].
  - intros e He. apply cv_entries0. rewrite E1. apply elem_of_app. by right.
Qed.

Lemma conserved_step h h' : conserved h -> journal_step h h' -> conserved h'.
Proof.
  intros H Hstep. pose proof (cv_sound h H) as Hs. pose proof (cv_marked h H) as Hm.
  destruct Hstep as [hp inv v key e n j' Hv Ha|hp inv v key c j' Ha|r j' Hb|b batch j' Hf|f Hf|].
  - apply append_cases in Ha as [(c & w & ? & _)|(e' & Hv' & _ & Happ)]; [done|].
    assert (e' = e) as -> by congruence.
    destruct (appended_sound _ _ _ _ _ Hs Happ) as [Hs' He].
    apply conserved_append; [done|done| |done|].
    + intros g Hg. apply Hm. by rewrite <- (ef_gaps _ _ _ He).
    + intros x Hx. apply (bk_entry _ (proj1 Hs) x Hx).
  - apply append_cases in Ha as [(c' & w & _ & ->)|(e' & _ & ? & _)]; [|done].
    apply conserved_quiet; [done|by apply sound_validator|done|done].
  - destruct r as [b|c].
    + apply barrier_Ok_sound in Hb as (? & ? & ? & _); [|done..]. by apply conserved_quiet.
    + apply barrier_Err_sound in Hb as (? & ? & ? & _); [|done..]. by apply conserved_quiet.
  - apply flushStart_sound in Hf as (? & ? & ? & _); [|done..]. by apply conserved_quiet.
  - by apply conserved_delivered.
  - destruct (refused_sound _ Hs Hm) as (? & ? & ? & _). by apply conserved_quiet.
Qed.

Lemma fresh_conserved h : fresh_history h -> conserved h.
Proof.
  intros (inv & run & gp & limits & Hj & Ha & Hs & Hr & Hd). unfold newJournal in Hj.
  destruct (forallb _ _) eqn:Hl; [|done]. cbn [forallb] in Hl. breflect.
  destruct (newValidator _ _) as [v|]; [|done]. cbn in Hj. injection Hj as Hj.
  destruct h as [j a s r d]. cbn in *. subst.
  constructor; cbn; try done; try (intros x Hx; by apply elem_of_nil in Hx).
  split; [|split].
  - constructor; cbn; try done; try lia; try (intros x Hx; by apply elem_of_nil in Hx); constructor.
  - constructor. intros k e He. cbn in He. by rewrite lookup_empty in He.
  - constructor; cbn; try lia. rewrite map_size_empty. cbn. lia.
Qed.

Lemma reachable_conserved h : reachable fresh_history journal_step h -> conserved h.
Proof. apply reachable_invariant; [apply fresh_conserved|apply conserved_step]. Qed.

(** ** What the journal guarantees *)

(** C34 In every state the journal can reach, whatever is appended and whenever
    barriers and flushes happen, its counters are exact (pending bytes are the
    bytes of the entries, of the sealed gaps and of the open gap's reservation;
    each class count is the number of entries of the class) and within the
    configured limits. *)
Theorem journal_backlog_bounded h :
  reachable fresh_history journal_step h ->
  let j := h_journal h in
  pendingBytes j = sum_with entry_bytes (entries j) + sum_with gap_bytes (gaps j) + open_bytes j /\
  pendingBytes j <= maxPendingBytes (j_limits j) /\
  (forall c, counts j c = Z.of_nat (length (of_class c (entries j)))) /\
  counts j authoritative <= maxAuthoritativeEvents (j_limits j) /\
  counts j diagnostic <= maxDiagnosticEvents (j_limits j) /\
  Z.of_nat (base.size (currentState j)) <= maxStateKeys (j_limits j).
Proof.
  intros H%reachable_conserved. destruct (cv_sound h H) as (Hb & _ & Hd). destruct Hd. cbn zeta.
  split_and!; try done; [apply Hb|]. intros c. rewrite of_class_count. apply Hb.
Qed.

(** C28 Authoritative events are never lost, duplicated or reordered: at any
    moment the authoritative events accepted so far are, in order, those the
    sink was given followed by those still pending. *)
Theorem authoritative_lossless h :
  reachable fresh_history journal_step h ->
  event <$> of_class authoritative (h_accepted h) =
  events_of authoritative (h_delivered h) ++
  (event <$> of_class authoritative (entries (h_journal h))).
Proof. intros H%reachable_conserved. apply H. Qed.

(** Coalescing only ever replaces a state by a newer one: an accepted event
    that is neither delivered nor pending is a diagnostic, or a state event for
    whose key a later state event was accepted. *)
Theorem only_stale_state_is_dropped h a :
  reachable fresh_history journal_step h -> a ∈ h_accepted h ->
  event a ∈ h_delivered h \/ a ∈ entries (h_journal h) \/ eventClass (event a) = diagnostic \/ outdated h a.
Proof.
  intros H%reachable_conserved Ha. destruct (cv_accounted h H a Ha) as [Hs|?]; [left|by right].
  rewrite (cv_delivered h H). apply elem_of_app. left. by apply list_elem_of_fmap_2.
Qed.

(** *** Retrying *)

(** What a flush checks before it starts. *)
Definition cursor (j : Journal) := (barriers j, nextBarrierToken j, flushedThrough j).

Lemma cursor_removeEntry e j : cursor (removeEntry e j) = cursor j.
Proof. unfold removeEntry. by destruct (find_index _ _). Qed.
Lemma cursor_gap d j : cursor (recordDiagnosticGap d j) = cursor j.
Proof. unfold recordDiagnosticGap. by destruct (openGap j). Qed.
Lemma cursor_drops drops j : cursor (dropDiagnostics drops j) = cursor j.
Proof.
  revert j. induction drops as [|d l IH]; intros j; [done|]. cbn.
  unfold dropDiagnostics in IH. by rewrite IH, cursor_gap, cursor_removeEntry.
Qed.
Lemma nextOrdinal_removeEntry e j : nextOrdinal (removeEntry e j) = nextOrdinal j.
Proof. unfold removeEntry. by destruct (find_index _ _). Qed.
Lemma nextOrdinal_drops drops j : nextOrdinal (dropDiagnostics drops j) = nextOrdinal j.
Proof.
  revert j. induction drops as [|d l IH]; intros j; [done|]. cbn. unfold dropDiagnostics in IH. rewrite IH.
  unfold recordDiagnosticGap. destruct (openGap _); cbn; apply nextOrdinal_removeEntry.
Qed.

Lemma cursor_appended e key j j' :
  appended stringify e key j j' -> cursor j' = cursor j /\ nextOrdinal j' = nextOrdinal j + 1.
Proof.
  intros [v k _ _ _ _|v drops _ _ _ _ _].
  - destruct (currentState j !! k) as [p|]; [|done]. split.
    + exact (cursor_removeEntry p (issued v j)).
    + exact (nextOrdinal_removeEntry p (issued v j)).
  - split; [exact (cursor_drops drops (issued v j))|exact (nextOrdinal_drops drops (issued v j))].
Qed.

(** The calls that may run while a sink has a batch. *)
Inductive busy (j : Journal) : Journal -> Prop :=
| busy_append hp inv v key r j' : append_ hp inv v key j = (r, j') -> busy j j'
| busy_barrier r j' : barrier_ j = (r, j') -> busy j j'.

(** What stays available to a retry. *)
Record retained (b : RunEventFlushBarrier) (batch : list RunEvent) (j : Journal) : Prop := {
  rt_sound : sound j;
  rt_marked : marked j;
  rt_flight : exists f, flight j = Some f /\ f_mark f = highWaterMark b /\ f_batch f = batch;
  rt_barrier : barriers j !! b_token b = Some (highWaterMark b);
  rt_token : b_token b < nextBarrierToken j;
  rt_flushed : flushedThrough j <= highWaterMark b < nextOrdinal j;
}.

Lemma retained_busy b batch j j' : retained b batch j -> busy j j' -> retained b batch j'.
Proof.
  intros [Hs Hm Hf Hb Ht Ho] [hp inv v key r j1 H|r j1 H].
  - apply append_cases in H as [(c & w & _ & ->)|(e & _ & _ & H)].
    + constructor; try done. by apply sound_validator.
    + destruct (cursor_appended _ _ _ _ H) as [Hc Hn]. unfold cursor in Hc. injection Hc as Hc1 Hc2 Hc3.
      destruct (appended_sound _ _ _ _ _ Hs H) as [Hs' []].
      constructor; rewrite ?Hc1, ?Hc2, ?Hc3, ?Hn, ?ef_flight; try done; [|lia].
      intros g Hg. apply Hm. by rewrite <- ef_gaps.
  - destruct r as [b'|c].
    + destruct (barrier_Ok_sound _ _ _ _ _ _ _ Hs Hm H) as (Hs' & Hm' & _ & Hf').
      apply barrier_Ok_cases in H as (_ & p & extra & -> & _).
      constructor; rewrite ?Hf'; cbn -[Z.max]; try done; [|lia].
      rewrite lookup_insert_ne by lia. done.
    + destruct (barrier_Err_sound _ _ _ _ _ _ _ Hs Hm H) as (Hs' & Hm' & _ & Hf').
      unfold barrier in H. destruct (sealGap _ _ _ _ _) as [[u|c'] j2] eqn:E; [done|]. injection H as <- <-.
      apply sealGap_cases in E as (p & g & g' & -> & _). constructor; rewrite ?Hf'; done.
Qed.

(** Tokens are issued in order. *)
Definition tokens_issued (j : Journal) : Prop :=
  forall t m, barriers j !! t = Some m -> t < nextBarrierToken j.

Lemma tokens_cursor j j' : cursor j' = cursor j -> tokens_issued j -> tokens_issued j'.
Proof. unfold cursor, tokens_issued. intros [= H1 H2 _]. by rewrite H1, H2. Qed.

Lemma nextToken_flushEnd d j : nextBarrierToken (flushEnd d j) = nextBarrierToken j.
Proof.
  unfold flushEnd. destruct (flight j) as [f|]; [|done]. destruct d; [|done].
  change (nextBarrierToken (removeFlushedGaps (f_gaps f) (removeFlushed (f_ordinary f) (set_flight None j))) =
          nextBarrierToken j).
  assert (forall (ords : list Z) l j0, nextBarrierToken (foldr (fun g j => if bool_decide (gap_ordinal g ∈ ords)
            then set_pendingBytes (pendingBytes j - gap_bytes g) j else j) j0 l) = nextBarrierToken j0) as Hg.
  { intros ords l j0. induction l as [|g l IH]; cbn; [done|]. by destruct (bool_decide _). }
  unfold removeFlushedGaps. rewrite Hg. cbn. unfold removeFlushed.
  assert (forall (ords : list Z) l j0, nextBarrierToken (foldr (fun e j => if bool_decide (ordinal e ∈ ords)
            then let c := eventClass (event e) in
                 set_count c (counts j c - 1) (set_pendingBytes (pendingBytes j - entry_bytes e) j)
            else j) j0 l) = nextBarrierToken j0) as He.
  { intros ords l j0. induction l as [|e l IH]; cbn; [done|]. by destruct (bool_decide _). }
  by rewrite He.
Qed.

Lemma tokens_step h h' :
  conserved h -> tokens_issued (h_journal h) -> journal_step h h' -> tokens_issued (h_journal h').
Proof.
  intros Hc Ht Hstep. destruct Hstep as [hp inv v key e n j' Hv Ha|hp inv v key c j' Ha|r j' Hb|b batch j' Hf|f Hf|]; cbn.
  - apply append_cases in Ha as [(c & w & ? & _)|(e' & _ & _ & Happ)]; [done|].
    eapply tokens_cursor; [by apply cursor_appended in Happ as [? _]|done].
  - apply append_cases in Ha as [(c' & w & _ & ->)|(e' & _ & ? & _)]; done.
  - destruct r as [b|c].
    + apply barrier_Ok_cases in Hb as (_ & p & extra & -> & _). intros t m. cbn.
      intros [[<- _]|[_ Hm]]%lookup_insert_Some; [lia|]. specialize (Ht t m Hm). lia.
    + unfold barrier in Hb. destruct (sealGap _ _ _ _ _) as [[u|c'] j2] eqn:E; [done|]. injection Hb as <- <-.
      by apply sealGap_cases in E as (p & g & g' & -> & _).
  - unfold flushStart in Hf. destruct (flight _); [done|]. destruct (_ || _); [done|]. by injection Hf as <- <-.
  - destruct (delivered_spec _ _ (proj1 (cv_sound h Hc)) Hf) as (_ & _ & _ & _ & _ & _ & _ & Hbar & _).
    intros t m Hm. rewrite (nextToken_flushEnd true). by eapply Ht, Hbar.
  - unfold flushEnd. by destruct (flight _).
Qed.

Lemma reachable_tokens h : reachable fresh_history journal_step h -> tokens_issued (h_journal h).
Proof.
  intros H. enough (conserved h /\ tokens_issued (h_journal h)) by tauto.
  revert h H. apply (reachable_invariant _ _ (fun h => conserved h /\ tokens_issued (h_journal h))).
  - intros h H. split; [by apply fresh_conserved|]. destruct H as (inv & run & gp & limits & Hj & _).
    unfold newJournal in Hj. destruct (forallb _ _); [|done]. destruct (newValidator _ _); [|done].
    cbn in Hj. injection Hj as <-. intros t m Hm. cbn in Hm. by rewrite lookup_empty in Hm.
  - intros h h' [Hc Ht] Hs. split; [by eapply conserved_step|by eapply tokens_step].
Qed.

(** ** Every diagnostic accounted for *)

Lemma barrier_gaps j r j' :
  barrier_ j = (r, j') -> entries j' = entries j /\ nextOrdinal j' = nextOrdinal j /\ Forall2 same_loss (all_gaps j) (all_gaps j').
Proof.
  unfold barrier, sealGap. destruct (openGap (set_currentState ∅ j)) as [g|] eqn:Eg; cbn in Eg.
  - destruct (emit _ _ _ _ _ _ _) as [[ev|e] p]; [cbn zeta; destruct (_ <? _)|]; intros [= <- <-]; (split; [done|]; split; [done|]); unfold all_gaps; cbn; rewrite ?Eg.
    + apply Forall2_app; [apply same_loss_refl|by repeat constructor].
    + rewrite app_nil_r. apply Forall2_app; [apply same_loss_refl|by repeat constructor].
    + apply same_loss_refl.
  - intros [= <- <-]. split; [done|]. split; [done|]. unfold all_gaps. cbn. rewrite Eg. apply same_loss_refl.
Qed.

(** The ordinals of the accepted events tell them apart, and what was neither
    delivered nor is pending is accounted for. *)
Record kept_account (h : History) : Prop := {
  ka_ordinals : increasing (ordinal <$> h_accepted h);
  ka_below a : a ∈ h_accepted h -> ordinal a < nextOrdinal (h_journal h);
  ka_lost : exists arrived lost,
    of_class diagnostic (h_accepted h) ≡ₚ of_class diagnostic (h_sent h) ++ arrived /\ accounts arrived (h_reported h) (h_journal h) lost;
}.

Lemma kept_quiet h j' :
  kept_account h -> entries j' = entries (h_journal h) -> nextOrdinal j' = nextOrdinal (h_journal h) ->
  Forall2 same_loss (all_gaps (h_journal h)) (all_gaps j') -> kept_account (with_journal j' h).
Proof.
  intros [Ho Hb (arrived & lost & Hp & Ha)] He Hn Hg. constructor; cbn; [done|by rewrite Hn|].
  exists arrived, lost. split; [done|]. by eapply accounts_same.
Qed.

Lemma kept_step h h' : conserved h -> kept_account h -> journal_step h h' -> kept_account h'.
Proof.
  intros Hc Hk Hstep. pose proof (cv_sound h Hc) as Hs.
  destruct Hstep as [hp inv v key e n j' Hv Ha|hp inv v key c j' Ha|r j' Hb|b batch j' Hf|f Hf|].
  - apply append_cases in Ha as [(c & w & ? & _)|(e' & Hv' & _ & Happ)]; [done|]. assert (e' = e) as -> by congruence.
    destruct Hk as [Ho Hb (arrived & lost & Hp & Hacc)]. pose proof (proj2 (cursor_appended _ _ _ _ Happ)) as Hn.
    constructor; cbn [h_accepted h_journal h_sent h_reported].
    + rewrite fmap_app. apply increasing_app; [done|]. intros y (a & -> & Ha)%list_elem_of_fmap. by apply Hb.
    + rewrite Hn. intros a [Ha| ->%list_elem_of_singleton]%elem_of_app; [specialize (Hb a Ha)|cbn]; lia.
    + destruct (accounts_appended _ _ _ _ _ _ _ _ Hs Happ Hacc) as (lost' & Hacc'). eexists _, lost'. split; [|exact Hacc'].
      rewrite of_class_app, Hp. by rewrite (assoc_L (++)).
  - apply append_cases in Ha as [(c' & w & _ & ->)|(e' & _ & ? & _)]; [|done]. apply kept_quiet; try done. apply same_loss_refl.
  - apply barrier_gaps in Hb as (? & ? & ?). by apply kept_quiet.
  - unfold flushStart in Hf. destruct (flight _); [done|]. destruct (_ || _); [done|]. injection Hf as _ <-.
    apply kept_quiet; try done. apply same_loss_refl.
  - destruct Hk as [Ho Hb (arrived & lost & Hp & H1 & H2)]. destruct (delivered_spec _ _ (proj1 Hs) Hf) as (E1 & E2 & _ & _ & E5 & _ & E7 & _).
    set (j := h_journal h) in *. set (j' := flushEnd true j) in *. constructor; cbn [h_accepted h_journal h_sent h_reported]; [done|by rewrite E7|].
    exists (of_class diagnostic (entries j') ++ mjoin lost), lost. split; [|split; [|done]].
    + rewrite Hp, H2, E1, !of_class_app. solve_Permutation.
    + unfold all_gaps in *. rewrite E5. rewrite E2, <- !(assoc_L (++)) in H1. by rewrite <- !(assoc_L (++)).
  - apply kept_quiet; try done; unfold flushEnd; destruct (flight _); try done; apply same_loss_refl.
Qed.

Lemma fresh_kept h : fresh_history h -> kept_account h.
Proof.
  intros (inv & run & gp & limits & Hj & Ha & Hs & Hr & _). unfold newJournal in Hj. destruct (forallb _ _); [|done].
  destruct (newValidator _ _) as [v|]; [|done]. cbn in Hj. injection Hj as Hj. destruct h as [j a s r d]. cbn in *. subst.
  constructor; cbn; [constructor|by intros x ?%elem_of_nil|]. exists [], []. split; [done|]. split; [constructor|done].
Qed.

Lemma reachable_kept h : reachable fresh_history journal_step h -> kept_account h.
Proof.
  intros H. enough (conserved h /\ kept_account h) by tauto. revert h H.
  apply (reachable_invariant _ _ (fun h => conserved h /\ kept_account h)).
  - intros h H. split; [by apply fresh_conserved|by apply fresh_kept].
  - intros h h' [Hc Hk] Hs. split; [by eapply conserved_step|by eapply kept_step].
Qed.

(** C33 Diagnostic loss is never silent.  The accepted diagnostics are, each once
    (their ordinals tell them apart), those given to the sink, those pending, and
    the lost ones; the lost ones are dealt out to the gaps (delivered, sealed and
    open), one group to each gap, and a gap has the number, the first and the last
    of its group.  What the sink was given is exactly the events of the delivered
    entries and of the delivered gaps, and the event of a delivered gap is a
    diagnostic whose payload carries that number and those two. *)
Theorem diagnostics_accounted h :
  reachable fresh_history journal_step h ->
  let j := h_journal h in
  NoDup (ordinal <$> h_accepted h) /\
  (exists lost,
     of_class diagnostic (h_accepted h) ≡ₚ of_class diagnostic (h_sent h) ++ of_class diagnostic (entries j) ++ mjoin lost /\
     Forall2 stands_for (h_reported h ++ all_gaps j) lost) /\
  h_delivered h ≡ₚ (event <$> h_sent h) ++ omap gap_event (h_reported h) /\
  (forall g, g ∈ h_reported h -> marker g).
Proof.
  intros H. destruct (reachable_kept h H) as [Ho _ (arrived & lost & Hp & H1 & H2)]. apply reachable_conserved in H. destruct H. cbn zeta. split_and!; [|exists lost|done..].
  - by apply increasing_NoDup.
  - split; [|done]. by rewrite Hp, H2.
Qed.

(** A flush hands its sink exactly the pending entries and sealed gaps up to
    the barrier, in journal order; and when the sink fails, the same barrier
    yields the very same batch again, however many events were appended (or
    refused) and barriers created while the sink had it. *)
Theorem refused_flush_retries h b batch j1 j2 :
  reachable fresh_history journal_step h ->
  flushStart b (h_journal h) = Some (batch, j1) -> rtc busy j1 j2 ->
  let m := highWaterMark b in
  batch = snd <$> batch_items m (h_journal h) /\ sorted_items (batch_items m (h_journal h)) /\
  batch ≡ₚ (event <$> upto m (h_journal h)) ++ omap gap_event (gaps_upto m (h_journal h)) /\
  exists j3, flushStart b (flushEnd false j2) = Some (batch, j3).
Proof.
  intros Hr Hs Hb. pose proof (reachable_tokens h Hr) as Ht. apply reachable_conserved in Hr as Hc.
  destruct (flushStart_sound _ _ _ _ (cv_sound h Hc) (cv_marked h Hc) Hs) as (S1 & S2 & _ & _ & -> & Hf).
  cbn zeta. split_and!; [done|apply batch_sorted|apply batch_contents, Hc|].
  assert (retained b (snd <$> batch_items (highWaterMark b) (h_journal h)) j1) as Hret.
  { unfold flushStart in Hs. destruct (flight (h_journal h)); [done|]. destruct (_ || _) eqn:E; [done|].
    injection Hs as <-. breflect. constructor; try done; [by eexists|by eapply Ht]. }
  clear Hs Hf S1 S2. induction Hb as [j|j j' j'' Hstep Hrest IH]; [|by eapply IH, retained_busy].
  destruct Hret as [[Hbk _] _ (f & Hf & Hm & Hbatch) Hbar _ Ho].
  destruct (bk_flight _ Hbk f Hf) as (_ & _ & _ & Hfb).
  unfold flushEnd, flushStart. rewrite Hf. cbn [flight set_flight].
  change (barriers (set_flight None j)) with (barriers j).
  rewrite bool_decide_eq_true_2 by done. cbn [negb orb].
  destruct (Z.ltb_spec (highWaterMark b) (flushedThrough (set_flight None j))) as [Hl|_]; [cbn in Hl; lia|].
  destruct (Z.leb_spec (nextOrdinal (set_flight None j)) (highWaterMark b)) as [Hl|_]; [cbn in Hl; lia|].
  cbn [orb]. eexists. f_equal. f_equal. rewrite <- Hbatch, Hfb, Hm. done.
Qed.
End Histories.

(** ** A concrete history *)

Inductive journal_call : Type :=
| CallAppend (hp : heap) (v : value) (key : option jstring)
| CallBarrier
| CallFlush (b : RunEventFlushBarrier)
| CallEnd (delivered : bool).

Section Run.
Context (stringify : json -> jstring).
Context (monotonicNow : nat -> number) (wallNow : option (nat -> number)) (randomUUID : nat -> jstring).

Definition run_call (c : journal_call) (h : History) : History :=
  let j := h_journal h in
  match c with
  | CallAppend hp v key =>
      let '(r, j') := append stringify hp (fun _ _ => None) v key j in
      match r with
      | Ok _ =>
          match validateRunEvent stringify hp (fun _ _ => None) DEFAULT_RUN_EVENT_LIMITS v with
          | Ok e => mkHistory j' (h_accepted h ++ [new_entry stringify e key j]) (h_sent h) (h_reported h)
                      (h_delivered h)
          | Err _ => h
          end
      | Err _ => with_journal j' h
      end
  | CallBarrier => with_journal (snd (barrier stringify monotonicNow wallNow randomUUID j)) h
  | CallFlush b => match flushStart b j with Some (_, j') => with_journal j' h | None => h end
  | CallEnd true =>
      match flight j with
      | Some f => mkHistory (flushEnd true j) (h_accepted h) (h_sent h ++ upto (f_mark f) j)
                    (h_reported h ++ gaps_upto (f_mark f) j) (h_delivered h ++ f_batch f)
      | None => h
      end
  | CallEnd false => with_journal (flushEnd false j) h
  end.

Lemma run_call_step c h :
  reachable fresh_history (journal_step stringify monotonicNow wallNow randomUUID) h ->
  reachable fresh_history (journal_step stringify monotonicNow wallNow randomUUID) (run_call c h).
Proof.
  intros H. destruct c as [hp v key| |b|[|]]; cbn -[append barrier flushStart flushEnd validateRunEvent].
  - destruct (append _ _ _ _ _ _) as [[n|c] j'] eqn:Ea;
      [destruct (validateRunEvent _ _ _ _ _) as [e|] eqn:Ev; [|exact H]|];
      (eapply reachable_step; [exact H|]);
      [exact (step_append _ _ _ _ h _ _ _ _ _ _ _ Ev Ea)|exact (step_refuse _ _ _ _ h _ _ _ _ _ _ Ea)].
  - eapply reachable_step; [exact H|]. eapply step_barrier. apply surjective_pairing.
  - destruct (flushStart b _) as [[batch j']|] eqn:E; [|exact H].
    eapply reachable_step; [exact H|exact (step_flush _ _ _ _ h b batch j' E)].
  - destruct (flight _) as [f|] eqn:E; [|exact H].
    eapply reachable_step; [exact H|exact (step_delivered _ _ _ _ h f E)].
  - eapply reachable_step; [exact H|apply step_failed].
Qed.

Definition run_calls (cs : list journal_call) (h : History) : History := foldl (fun h c => run_call c h) h cs.

Lemma run_calls_reachable cs h :
  fresh_history h ->
  reachable fresh_history (journal_step stringify monotonicNow wallNow randomUUID) (run_calls cs h).
Proof.
  intros H. apply (reachable_init _ (journal_step stringify monotonicNow wallNow randomUUID)) in H.
  unfold run_calls. revert h H. induction cs as [|c cs IH]; intros h H; cbn; [done|].
  by apply IH, run_call_step.
Qed.
End Run.

(** Event [n] of a class, with sequence number [n]. *)
Definition journal_heap (n : Z) (cls : string) : heap :=
  {[ 1%positive := Object false 0 ObjectPrototype (ObjectContents
       [(js "v", DataProperty (VNum (int 3)) true);
        (js "eventId", DataProperty (VStr (js "event:" ++ sample_uuid n)) true);
        (js "producerId", DataProperty (VStr (js "producer:" ++ sample_uuid 0)) true);
        (js "epoch", DataProperty (VNum (int 0)) true);
        (js "seq", DataProperty (VNum (int n)) true);
        (js "eventClass", DataProperty (VStr (js cls)) true);
        (js "type", DataProperty (VStr (js "run.started")) true);
        (js "monotonicTime", DataProperty (VNum (int n)) true);
        (js "identity", DataProperty (VRef 2) true);
        (js "payload", DataProperty VNull true)]);
     2%positive := Object false 0 NullPrototype (ObjectContents
       [(js "invocationId", DataProperty (VStr (js "invocation:" ++ sample_uuid 0)) true);
        (js "runId", DataProperty (VStr (js "run:" ++ sample_uuid 0)) true)]) ]}.
Definition put (n : Z) (cls : string) (key : option jstring) : journal_call :=
  CallAppend (journal_heap n cls) (VRef 1) key.

(** Every document is ten bytes long. *)
Definition ten_bytes (j : json) : jstring := js "0123456789".

Definition sample_limits : RunEventJournalLimits :=
  {| maxAuthoritativeEvents := 2; maxStateKeys := 1; maxDiagnosticEvents := 1; maxPendingBytes := 8192 |}.
Definition sample_journal : Journal :=
  default
    (mkJournal [] [] sample_limits sample_validator sample_producer [] ∅ [] ∅ (fun _ => 0) None 0 0 0 0 None 0 0 0 0 0)
    (newJournal (js "invocation:" ++ sample_uuid 0) (js "run:" ++ sample_uuid 0) sample_producer sample_limits).
Definition sample_history : History := mkHistory sample_journal [] [] [] [].

Lemma sample_history_fresh : fresh_history sample_history.
Proof.
  exists (js "invocation:" ++ sample_uuid 0), (js "run:" ++ sample_uuid 0), sample_producer, sample_limits.
  split; [|done]. unfold sample_history, sample_journal. cbn [h_journal].
  destruct (newJournal _ _ _ _) eqn:E; [reflexivity|]. exfalso. revert E. unfold newJournal.
  change (forallb _ _) with true. cbv iota.
  destruct (newValidator _ _) eqn:E; [done|]. exfalso. revert E. unfold newValidator.
  destruct (validateLimits _) eqn:E; [|vm_compute in E; discriminate].
  destruct (validateStreamLimits _) as [[[[[e p] r] f] k]|] eqn:E2; [done|vm_compute in E2; discriminate].
Qed.

(** Two authoritative events, a coalesced state and two diagnostics of which one
    is dropped; the first delivery fails, the second succeeds. *)
Definition sample_calls : list journal_call :=
  [put 1 "authoritative" None; put 2 "diagnostic" None; put 3 "state" (Some (js "k"));
   put 4 "diagnostic" None; put 5 "state" (Some (js "k")); CallBarrier;
   CallFlush {| b_token := 0; highWaterMark := 4 |}; put 6 "authoritative" None; CallEnd false;
   CallFlush {| b_token := 0; highWaterMark := 4 |}; CallEnd true].
Abbreviation run_sample := (run_calls ten_bytes sample_clock None sample_uuids).

Lemma sample_reachable cs :
  reachable fresh_history (journal_step ten_bytes sample_clock None sample_uuids) (run_sample cs sample_history).
Proof. apply run_calls_reachable, sample_history_fresh. Qed.

Abbreviation sample_end := (run_sample sample_calls sample_history).

Lemma journal_backlog_bounded_witness :
  length (h_accepted sample_end) = 6%nat /\ length (entries (h_journal sample_end)) = 1%nat /\
  pendingBytes (h_journal sample_end) <= maxPendingBytes (j_limits (h_journal sample_end)).
Proof.
  split; [vm_compute; reflexivity|]. split; [vm_compute; reflexivity|].
  exact (proj1 (proj2 (journal_backlog_bounded ten_bytes sample_clock None sample_uuids sample_end
    (sample_reachable sample_calls)))).
Defined.

Lemma authoritative_lossless_witness :
  length (of_class authoritative (h_accepted sample_end)) = 2%nat /\
  event <$> of_class authoritative (h_accepted sample_end) =
  events_of authoritative (h_delivered sample_end) ++
  (event <$> of_class authoritative (entries (h_journal sample_end))).
Proof.
  split; [vm_compute; reflexivity|].
  exact (authoritative_lossless ten_bytes sample_clock None sample_uuids sample_end (sample_reachable sample_calls)).
Defined.

Lemma diagnostics_accounted_witness :
  gap_count <$> h_reported sample_end = [1] /\
  exists lost,
    of_class diagnostic (h_accepted sample_end) ≡ₚ of_class diagnostic (h_sent sample_end) ++ of_class diagnostic (entries (h_journal sample_end)) ++ mjoin lost /\
    Forall2 stands_for (h_reported sample_end ++ all_gaps (h_journal sample_end)) lost.
Proof.
  split; [vm_compute; reflexivity|].
  exact (proj1 (proj2 (diagnostics_accounted ten_bytes sample_clock None sample_uuids sample_end
    (sample_reachable sample_calls)))).
Defined.

Lemma head_of_class c l d :
  length (of_class c l) <> 0%nat -> default d (head (of_class c l)) ∈ l.
Proof.
  unfold of_class. destruct (List.filter _ l) as [|a k] eqn:E; [done|]. intros _. cbn.
  assert (a ∈ List.filter (fun e => bool_decide (eventClass (event e) = c)) l) as H by (rewrite E; left).
  by apply elem_of_filter_ in H as [? _].
Qed.

(** The first state event was replaced by the second. *)
Definition no_entry : JournalEntry := {| ordinal := -1; event := sample_event; entry_bytes := 0; stateKey := None |}.
Definition first_state : JournalEntry := default no_entry (head (of_class state (h_accepted sample_end))).

Lemma only_stale_state_is_dropped_witness :
  event first_state ∈ h_delivered sample_end \/ first_state ∈ entries (h_journal sample_end) \/
  eventClass (event first_state) = diagnostic \/ outdated sample_end first_state.
Proof.
  assert (length (of_class state (h_accepted sample_end)) = 2%nat) as Hl by (vm_compute; reflexivity).
  refine (only_stale_state_is_dropped ten_bytes sample_clock None sample_uuids sample_end first_state
    (sample_reachable sample_calls) (head_of_class state (h_accepted sample_end) no_entry _)).
  rewrite Hl. discriminate.
Defined.

(** A flush that fails while an event is appended. *)
Definition before_flush : History := run_sample (take 6 sample_calls) sample_history.
Definition sample_barrier : RunEventFlushBarrier := {| b_token := 0; highWaterMark := 4 |}.

Definition sample_batch : list RunEvent :=
  default [] (fst <$> flushStart sample_barrier (h_journal before_flush)).
Definition in_flight : Journal :=
  default sample_journal (snd <$> flushStart sample_barrier (h_journal before_flush)).
Definition appended_meanwhile : Journal :=
  (append ten_bytes (journal_heap 6 "authoritative") (fun _ _ => None) (VRef 1) None in_flight).2.

Lemma refused_flush_retries_witness :
  length sample_batch = 4%nat /\
  exists j3, flushStart sample_barrier (flushEnd false appended_meanwhile) = Some (sample_batch, j3).
Proof.
  assert (length sample_batch = 4%nat) as Hl by (vm_compute; reflexivity). split; [exact Hl|].
  refine (proj2 (proj2 (proj2 (refused_flush_retries ten_bytes sample_clock None sample_uuids before_flush
    sample_barrier sample_batch in_flight appended_meanwhile (sample_reachable _) _ _)))).
  - revert Hl. unfold sample_batch, in_flight.
    destruct (flushStart sample_barrier (h_journal before_flush)) as [[b j]|]; [reflexivity|discriminate].
  - exact (rtc_once _ _ (busy_append ten_bytes sample_clock None sample_uuids in_flight
      (journal_heap 6 "authoritative") (fun _ _ => None) (VRef 1) None _ _ (surjective_pairing _))).
Defined.

(** [peakPendingBytes] may exceed the limit the backlog respects: the
    reservation of a gap is observed before the remaining diagnostics go. *)
Definition peak_limits : RunEventJournalLimits :=
  {| maxAuthoritativeEvents := 2; maxStateKeys := 1; maxDiagnosticEvents := 3; maxPendingBytes := 4096 + 14 |}.
Definition peak_journal : Journal :=
  default sample_journal
    (newJournal (js "invocation:" ++ sample_uuid 0) (js "run:" ++ sample_uuid 0) sample_producer peak_limits).
Definition peak_end : Journal :=
  h_journal (run_sample [put 1 "diagnostic" None; put 2 "diagnostic" None; put 3 "diagnostic" None;
                         put 4 "diagnostic" None] (mkHistory peak_journal [] [] [] [])).

Example peak_over_limit :
  pendingBytes peak_end = 4106 /\ maxPendingBytes (j_limits peak_end) = 4110 /\ peakPendingBytes peak_end = 4116.
Proof. vm_compute. done. Qed.
