(* ===== verification/JsObject.v ===== *)
(** * Plain objects and ordered maps of the language

    Members of a plain object and entries of a [Map] are kept in insertion
    order: setting an existing key keeps its place, a new key goes to the end. *)

From S2P Require Import Prelude.

Section Assoc.
Context {K V : Type} `{EqDecision K}.
Implicit Types (m : list (K * V)) (k : K) (v : V).

Definition keys m : list K := m.*1.

(** [m.get(k)], [o[k]] *)
Fixpoint jget m k : option V :=
  match m with
  | [] => None
  | (k', v) :: m => if decide (k' = k) then Some v else jget m k
  end.

(** [m.set(k, v)], [o[k] = v] *)
Fixpoint jset m k v : list (K * V) :=
  match m with
  | [] => [(k, v)]
  | (k', v') :: m => if decide (k' = k) then (k', v) :: m else (k', v') :: jset m k v
  end.

(** [m.delete(k)], [delete o[k]] *)
Definition jdelete m k : list (K * V) := List.filter (fun kv => negb (bool_decide (kv.1 = k))) m.

(** [{ ...m, ...n }] *)
Definition spread m (n : list (K * V)) : list (K * V) :=
  foldl (fun m kv => jset m kv.1 kv.2) m n.

Definition jhas m k : bool := match jget m k with Some _ => true | None => false end.

Lemma jget_Some_keys m k v : jget m k = Some v -> k ∈ keys m.
Proof.
  induction m as [|[k' v'] m IH]; cbn; [done|]. destruct (decide _) as [->|]; [left|]. right. auto.
Qed.

Lemma jget_None m k : jget m k = None <-> k ∉ keys m.
Proof.
  induction m as [|[k' v'] m IH]; cbn.
  - split; [intros _; apply not_elem_of_nil|done].
  - rewrite not_elem_of_cons. destruct (decide (k' = k)) as [->|Hne].
    + split; [done|]. by intros [? _].
    + rewrite IH. split; [intros; split; [congruence|done]|by intros [_ ?]].
Qed.

Lemma jget_jset m k v k' : jget (jset m k v) k' = if decide (k = k') then Some v else jget m k'.
Proof.
  induction m as [|[k0 v0] m IH]; cbn; [done|].
  destruct (decide (k0 = k)) as [->|Hne]; cbn; [by destruct (decide (k = k'))|].
  destruct (decide (k0 = k')) as [->|Hne']; [by rewrite decide_False|]. apply IH.
Qed.

Lemma jget_jdelete m k k' : jget (jdelete m k) k' = if decide (k = k') then None else jget m k'.
Proof.
  unfold jdelete. induction m as [|[k0 v0] m IH]; cbn [List.filter jget]; [by destruct (decide _)|]. cbn [fst].
  destruct (bool_decide (k0 = k)) eqn:E; breflect; cbn [negb jget].
  - subst k0. rewrite IH. by destruct (decide (k = k')).
  - rewrite IH. destruct (decide (k0 = k')) as [->|Hne]; [by rewrite decide_False by congruence|done].
Qed.

Lemma keys_jset m k v : keys (jset m k v) = if decide (k ∈ keys m) then keys m else keys m ++ [k].
Proof.
  unfold keys. induction m as [|[k0 v0] m IH]; cbn; [done|].
  destruct (decide (k0 = k)) as [->|Hne]; cbn; [by rewrite decide_True by left|].
  rewrite IH. destruct (decide (k ∈ m.*1)) as [Hin|Hni].
  - by rewrite decide_True by by right.
  - rewrite decide_False; [done|]. intros [?|?]%elem_of_cons; congruence.
Qed.

Lemma keys_jset_old m k v : k ∈ keys m -> keys (jset m k v) = keys m.
Proof. intros H. by rewrite keys_jset, decide_True. Qed.

Lemma keys_jset_new m k v : k ∉ keys m -> keys (jset m k v) = keys m ++ [k].
Proof. intros H. by rewrite keys_jset, decide_False. Qed.

Lemma keys_jdelete m k : keys (jdelete m k) = List.filter (fun k' => negb (bool_decide (k' = k))) (keys m).
Proof.
  unfold keys, jdelete. induction m as [|[k0 v0] m IH]; cbn; [done|].
  destruct (bool_decide (k0 = k)); cbn; by rewrite IH.
Qed.

(** The last binding of a key in what is spread wins. *)
Lemma jget_spread m n k :
  NoDup (keys n) -> jget (spread m n) k = match jget n k with Some v => Some v | None => jget m k end.
Proof.
  unfold spread. revert m. induction n as [|[k0 v0] n IH]; intros m Hnd; cbn; [done|].
  cbn in Hnd. apply NoDup_cons in Hnd as [Hni Hnd]. rewrite IH, jget_jset by done.
  destruct (decide (k0 = k)) as [->|Hne]; [|done].
  by rewrite (proj2 (jget_None n k) Hni).
Qed.

Lemma jget_deletes m ks k :
  jget (foldl jdelete m ks) k = if decide (k ∈ ks) then None else jget m k.
Proof.
  revert m. induction ks as [|k0 ks IH]; intros m; cbn.
  - by rewrite decide_False by apply not_elem_of_nil.
  - rewrite IH, jget_jdelete. destruct (decide (k ∈ ks)) as [Hin|Hni].
    + by rewrite decide_True by by right.
    + destruct (decide (k0 = k)) as [->|Hne]; [by rewrite decide_True by left|].
      rewrite decide_False; [done|]. intros [?|?]%elem_of_cons; congruence.
Qed.

Lemma jget_app_l m n k : k ∈ keys m -> jget (m ++ n) k = jget m k.
Proof.
  induction m as [|[k0 v0] m IH]; cbn; [by intros ?%elem_of_nil|].
  destruct (decide (k0 = k)) as [->|Hne]; [done|]. intros [?|?]%elem_of_cons; [congruence|auto].
Qed.

Lemma jget_app_r m n k : k ∉ keys m -> jget (m ++ n) k = jget n k.
Proof.
  induction m as [|[k0 v0] m IH]; cbn; [done|]. rewrite not_elem_of_cons. intros [Hne Hni].
  rewrite decide_False by congruence. auto.
Qed.

Lemma jget_In m k v : NoDup (keys m) -> (jget m k = Some v <-> (k, v) ∈ m).
Proof.
  induction m as [|[k0 v0] m IH]; cbn; intros Hnd.
  - split; [done|by intros ?%elem_of_nil].
  - apply NoDup_cons in Hnd as [Hni Hnd]. rewrite elem_of_cons. destruct (decide (k0 = k)) as [->|Hne].
    + split; [intros [= ->]; by left|]. intros [[= ->]|Hin]; [done|].
      exfalso. apply Hni. by eapply (list_elem_of_fmap_2 fst) in Hin.
    + rewrite IH by done. split; [by right|]. intros [[= ? ?]|?]; [congruence|done].
Qed.

Lemma jget_spread_other m n k : k ∉ keys n -> jget (spread m n) k = jget m k.
Proof.
  unfold spread. revert m. induction n as [|[k0 v0] n IH]; intros m; cbn; [done|].
  rewrite not_elem_of_cons. intros [Hne Hni]. rewrite IH, jget_jset by done. by rewrite decide_False by congruence.
Qed.

Lemma keys_spread m n k : k ∈ keys m -> k ∈ keys (spread m n).
Proof.
  unfold spread. revert m. induction n as [|[k0 v0] n IH]; intros m Hk; cbn; [done|].
  apply IH. rewrite keys_jset. destruct (decide _); [done|]. apply elem_of_app. by left.
Qed.

Lemma keys_deletes m ks k : k ∈ keys (foldl jdelete m ks) <-> k ∈ keys m /\ k ∉ ks.
Proof.
  assert (forall m', k ∈ keys m' <-> jget m' k <> None) as Hk.
  { intros m'. rewrite jget_None. split; [naive_solver|]. intros H. destruct (decide (k ∈ keys m')); naive_solver. }
  rewrite !Hk, jget_deletes. destruct (decide (k ∈ ks)); naive_solver.
Qed.

Lemma NoDup_deletes m ks : NoDup (keys m) -> NoDup (keys (foldl jdelete m ks)).
Proof.
  revert m. induction ks as [|k ks IH]; intros m H; cbn; [done|]. apply IH. rewrite keys_jdelete.
  apply NoDup_ListNoDup, List.NoDup_filter. by apply NoDup_ListNoDup.
Qed.

(** Filtering by key. *)
Lemma jget_filter (p : K -> bool) m k :
  jget (List.filter (fun n => p n.1) m) k = if p k then jget m k else None.
Proof.
  induction m as [|[k0 v0] m IH]; cbn; [by destruct (p k)|].
  destruct (p k0) eqn:E; cbn; destruct (decide (k0 = k)) as [->|]; rewrite ?IH, ?E; done.
Qed.

Lemma keys_filter (p : K -> bool) m : keys (List.filter (fun n => p n.1) m) = List.filter p (keys m).
Proof. unfold keys. induction m as [|[k0 v0] m IH]; cbn; [done|]. destruct (p k0); cbn; by rewrite IH. Qed.

Lemma jhas_true m k : jhas m k = true <-> exists v, jget m k = Some v.
Proof. unfold jhas. destruct (jget m k); split; eauto; [done|by intros [? ?]]. Qed.
Lemma jhas_keys m k : jhas m k = true <-> k ∈ keys m.
Proof.
  unfold jhas. destruct (jget m k) eqn:E.
  - split; [|done]. intros _. by eapply jget_Some_keys.
  - apply jget_None in E. done.
Qed.
Lemma jhas_false m k : jhas m k = false <-> k ∉ keys m.
Proof. rewrite <- jhas_keys. destruct (jhas m k); naive_solver. Qed.
End Assoc.
