(* ===== verification/Tree.v ===== *)
(** * The semantic tree (packages/protocol/src/tree.ts, observation.ts)

    The data a probe publishes for a committed frame, and the rectangle
    arithmetic of [observation.ts].  Coordinates are the safe integers the schema
    lets through; enumerated texts that no code here inspects are kept as text. *)

From S2P Require Import Prelude JsText Dto.

Local Open Scope Z_scope.

(** ** Observations *)

Inductive EvidenceSource : Set := framework | application | terminal | recognizer | driver.
Inductive EvidenceMethod : Set :=
| native | instrumented | declared | correlated | measured | derived | heuristic.
Inductive EvidenceStrength : Set := es_authoritative | es_diagnostic.

Record EvidenceProvenance : Type := {
  ev_source : EvidenceSource;
  ev_method : EvidenceMethod;
  ev_strength : EvidenceStrength;
  ev_providerId : jstring;
}.

Inductive ObservationUnknownReason : Set := awaiting_revision_pair | provider_refresh | stale_revision.
Inductive ObservationAbsentReason : Set := detached | not_displayed | not_laid_out.
Inductive ObservationUnsupportedReason : Set := capability | framework_unobservable | not_negotiated.

(** A fact with its epistemic state preserved. *)
Inductive Observation (T : Type) : Type :=
| known (value : T) (evidence : EvidenceProvenance)
| absent (reason : ObservationAbsentReason) (evidence : EvidenceProvenance)
| unknown (reason : ObservationUnknownReason)
| unsupported (what : jstring) (reason : ObservationUnsupportedReason).
Global Arguments known {T}.
Global Arguments absent {T}.
Global Arguments unknown {T}.
Global Arguments unsupported {T}.

Inductive SemanticValueAbsentReason : Set := observed_absent (r : ObservationAbsentReason) | no_value.
Inductive SemanticValueWithheldReason : Set := sensitive_value | artifact_policy | provider_policy.
Inductive Sensitivity : Set := public | sensitive.

Inductive SemanticValueObservation : Type :=
| value_known (text : jstring) (s : Sensitivity) (evidence : EvidenceProvenance)
| value_absent (reason : SemanticValueAbsentReason) (evidence : EvidenceProvenance)
| value_unknown (reason : ObservationUnknownReason)
| value_unsupported (reason : ObservationUnsupportedReason)
| value_withheld (reason : SemanticValueWithheldReason) (s : Sensitivity).

(** ** Geometry *)

Record Rect : Set := { row : Z; column : Z; width : Z; height : Z }.

Inductive CoordinateSpace : Set := viewport_cells | framework_local_cells.
Global Instance CoordinateSpace_eq_dec : EqDecision CoordinateSpace.
Proof. solve_decision. Defined.

Record Span : Set := { sp_row : Z; from : Z; to : Z }.

(** ** Nodes *)

Inductive Checked : Set := is_checked (b : bool) | mixed.
Inductive Orientation : Set := horizontal | vertical.

Record SemanticState : Set := {
  st_disabled : option bool;
  st_focused : option bool;
  st_selected : option bool;
  st_checked : option Checked;
  st_expanded : option bool;
  st_modal : option bool;
  st_busy : option bool;
  st_hidden : option bool;
  st_offscreen : option bool;
  st_readonly : option bool;
  st_multiline : option bool;
  st_required : option bool;
  st_multiselectable : option bool;
  st_orientation : option Orientation;
  st_level : option Z;
  st_positionInSet : option Z;
  st_setSize : option Z;
}.

Record SemanticScrollState : Set := {
  sc_axis : Orientation;
  sc_offset : Z;
  sc_viewport : Z;
  sc_extent : Z;
}.

Record SemanticPaintedRegion : Set := { regionBounds : Rect; spans : list Span }.

Record SemanticTextRange : Set := { startOffset : Z; endOffset : Z; tr_rect : Rect }.

Inductive PhysicalInputRecipeStep : Type := press (key : jstring) | insert_action_value.
Record PhysicalInputRecipe : Type := {
  rc_action : jstring;
  rc_requiresFocus : bool;
  rc_steps : list PhysicalInputRecipeStep;
}.

Record NodeGeometryObservations : Type := {
  displayed : Observation bool;
  intendedRect : Observation Rect;
  visibleRect : Observation Rect;
}.

(** [id] and the other fields of [SemanticNode]; [extended] is application data. *)
Record SemanticNode : Type := {
  n_id : jstring;
  n_parentId : option jstring;
  n_role : jstring;
  n_name : jstring;
  n_description : option jstring;
  n_value : option SemanticValueObservation;
  n_state : option SemanticState;
  n_extended : option json;
  n_actions : option (list jstring);
  n_inputRecipes : option (list PhysicalInputRecipe);
  n_labelledBy : option (list jstring);
  n_describedBy : option (list jstring);
  n_textRanges : option (list SemanticTextRange);
  n_testId : option jstring;
  n_frameworkType : option jstring;
  n_opaqueChildren : option bool;
  n_p : option jstring;
  n_px : option (list (jstring * jstring));
  n_geometry : NodeGeometryObservations;
  n_scroll : option (Observation SemanticScrollState);
  n_paintedRegion : option (Observation SemanticPaintedRegion);
}.

(** ** Snapshots *)

Record PointerHitRegion : Type := { hr_rect : Rect; hr_recipientId : jstring }.
Record PointerHitGrid : Type := { regions : list PointerHitRegion }.

Record ProviderPointerRegion : Type := { pr_recipientId : jstring; pr_region : SemanticPaintedRegion }.
Record ProviderActionRecipes : Type := { pa_recipientId : jstring; pa_recipes : list PhysicalInputRecipe }.
Record ProviderScrollState : Type := { ps_recipientId : jstring; ps_scroll : SemanticScrollState }.

Inductive ProviderFocusState : Type := focused_on (recipientId : jstring) | focus_none.

Record ProviderTerminalInputModes : Type := {
  im_mouseTracking : jstring;
  im_mouseEncoding : jstring;
  im_focusReporting : bool;
}.

(** What an available provider contributes. *)
Record ProviderFacts : Type := {
  pf_evidence : EvidenceProvenance;
  pf_pointerRegions : list ProviderPointerRegion;
  pf_focusState : option ProviderFocusState;
  pf_actionRecipes : option (list ProviderActionRecipes);
  pf_scrollStates : option (list ProviderScrollState);
  pf_paintedRegions : option (list ProviderPointerRegion);
  pf_inputModes : option ProviderTerminalInputModes;
  pf_hitGrid : option PointerHitGrid;
}.
Inductive ProviderStatus : Type :=
| available (facts : ProviderFacts)
| lost (reason : jstring)
| violation (reason : jstring).

Record ProviderRevisionEvidence : Type := {
  pe_providerId : jstring;
  pe_sessionId : jstring;
  pe_revision : Z;
  pe_status : ProviderStatus;
}.

Record CursorInfo : Type := {
  cu_row : Z;
  cu_column : Z;
  cu_visible : bool;
  cu_shape : option jstring;
}.

Record SemanticSnapshot : Type := {
  s_sessionId : jstring;
  s_revision : Z;
  s_columns : Z;
  s_rows : Z;
  s_cursor : option CursorInfo;
  s_rootIds : list jstring;
  s_nodes : list SemanticNode;
  s_coordinateSpace : Observation CoordinateSpace;
  s_hitGrid : Observation PointerHitGrid;
  s_providerEvidence : option (list ProviderRevisionEvidence);
}.

(** ** Rectangles (observation.ts) *)

Definition intersectRects (a b : Rect) : Rect :=
  let r := Z.max (row a) (row b) in
  let c := Z.max (column a) (column b) in
  {| row := r; column := c;
     width := Z.max 0 (Z.min (column a + width a) (column b + width b) - c);
     height := Z.max 0 (Z.min (row a + height a) (row b + height b) - r) |}.

Definition rectArea (r : Rect) : Z := Z.max 0 (width r) * Z.max 0 (height r).

Record ViewportIntersection : Set := {
  vi_rect : Rect;
  vi_ratio : Z * Z;
  fullyInside : bool;
}.

(** The ratio is the pair of its numerator and denominator. *)
Definition viewportIntersection (r : Rect) (columns rows : Z) : ViewportIntersection :=
  let intersection := intersectRects r {| row := 0; column := 0; width := columns; height := rows |} in
  let area := rectArea r in
  let visible := rectArea intersection in
  {| vi_rect := intersection;
     vi_ratio := if area =? 0 then (0, 1) else (visible, area);
     fullyInside := (0 <? area) && (visible =? area) |}.

Inductive SpatialRelation : Set :=
| contains | inside | overlaps | left_of | right_of | above | below
| aligned_left | aligned_right | aligned_top | aligned_bottom
| adjacent_horizontal | adjacent_vertical.

Definition rect_contains (a b : Rect) : bool :=
  (row a <=? row b) && (column a <=? column b) &&
  (row b + height b <=? row a + height a) && (column b + width b <=? column a + width a).

Definition spatialRelation (a : Rect) (relation : SpatialRelation) (b : Rect) : bool :=
  let aBottom := row a + height a in
  let bBottom := row b + height b in
  let aRight := column a + width a in
  let bRight := column b + width b in
  match relation with
  | contains => rect_contains a b
  | inside => rect_contains b a
  | overlaps => 0 <? rectArea (intersectRects a b)
  | left_of => aRight <=? column b
  | right_of => bRight <=? column a
  | above => aBottom <=? row b
  | below => bBottom <=? row a
  | aligned_left => column a =? column b
  | aligned_right => aRight =? bRight
  | aligned_top => row a =? row b
  | aligned_bottom => aBottom =? bBottom
  | adjacent_horizontal =>
      ((aRight =? column b) || (bRight =? column a)) &&
      (Z.max (row a) (row b) <? Z.min aBottom bBottom)
  | adjacent_vertical =>
      ((aBottom =? row b) || (bBottom =? row a)) &&
      (Z.max (column a) (column b) <? Z.min aRight bRight)
  end.

(** ** What the rectangle arithmetic means *)

(** A cell of a half-open rectangle. *)
Definition covers (r : Rect) (x y : Z) : Prop :=
  row r <= y < row r + height r /\ column r <= x < column r + width r.

Definition well_sized (r : Rect) : Prop := 0 <= width r /\ 0 <= height r.

Lemma area_pos r : 0 < rectArea r <-> 0 < width r /\ 0 < height r.
Proof. unfold rectArea. split; [intros H; split; nia|intros [H1 H2]; nia]. Qed.

Lemma covers_intersect a b x y : covers (intersectRects a b) x y <-> covers a x y /\ covers b x y.
Proof. unfold covers, intersectRects. cbn. lia. Qed.

Lemma covers_some r : (exists x y, covers r x y) <-> 0 < rectArea r.
Proof.
  rewrite area_pos. unfold covers. split.
  - intros (x & y & ?). lia.
  - intros [? ?]. exists (column r), (row r). lia.
Qed.

Lemma area_intersect_le a b : rectArea (intersectRects a b) <= rectArea a.
Proof. unfold rectArea, intersectRects. cbn. apply Z.mul_le_mono_nonneg; lia. Qed.

(** The rectangle arithmetic is the geometry of cell sets: an intersection
    covers exactly the cells both rectangles cover, two rectangles overlap
    exactly when they share a cell, a non-empty rectangle contains another
    non-empty one exactly when it covers all its cells, and a rectangle is fully
    inside a viewport exactly when it has cells and the viewport covers them all. *)
Theorem rectangles_are_cell_sets a b columns rows :
  (forall x y, covers (intersectRects a b) x y <-> covers a x y /\ covers b x y) /\
  (spatialRelation a overlaps b = true <-> exists x y, covers a x y /\ covers b x y) /\
  (0 < rectArea b ->
     (spatialRelation a contains b = true <-> forall x y, covers b x y -> covers a x y)) /\
  (fullyInside (viewportIntersection a columns rows) = true <->
     0 < rectArea a /\ forall x y, covers a x y -> 0 <= x < columns /\ 0 <= y < rows).
Proof.
  split_and!.
  - apply covers_intersect.
  - cbn [spatialRelation]. rewrite Z.ltb_lt, <- covers_some. setoid_rewrite covers_intersect. done.
  - intros Hb. apply area_pos in Hb as [Hw Hh]. cbn [spatialRelation]. unfold rect_contains, covers.
    rewrite !andb_true_iff, !Z.leb_le. split; [intros; lia|]. intros H.
    pose proof (H (column b) (row b) ltac:(lia)).
    pose proof (H (column b + width b - 1) (row b + height b - 1) ltac:(lia)). lia.
  - unfold viewportIntersection. cbn [fullyInside]. rewrite andb_true_iff, Z.ltb_lt, Z.eqb_eq.
    split; intros [Ha H]; (split; [done|]); apply area_pos in Ha as [Hw Hh].
    + unfold rectArea, intersectRects in H. cbn in H.
      assert (width a <= Z.min (column a + width a) columns - Z.max (column a) 0 /\
              height a <= Z.min (row a + height a) rows - Z.max (row a) 0) as Hfit by nia.
      unfold covers. intros x y Hc. lia.
    + pose proof (H (column a) (row a) ltac:(unfold covers; lia)).
      pose proof (H (column a + width a - 1) (row a + height a - 1) ltac:(unfold covers; lia)).
      unfold rectArea, intersectRects. cbn. f_equal; lia.
Qed.
