(* ===== verification/Validate.v ===== *)
(** * Snapshot validation (packages/protocol/src/validate.ts)

    [validateSnapshot]: what is checked of a published tree after it was
    projected and matched against the schema.  The schema is a zod object, so
    parsing against it is a parameter: it yields the typed view of the projected
    tree or the first issue. *)

From S2P Require Import Prelude JsText Dto Limits Tree.

Local Open Scope Z_scope.

Inductive ValidationErrorCode : Set :=
| schema | unknown_role | duplicate_id | missing_parent | cycle | depth | count
| string_bytes | bad_rect | provider | revision | bytes_code.

Global Instance ValidationErrorCode_eq_dec : EqDecision ValidationErrorCode.
Proof. solve_decision. Defined.

Abbreviation validated := (result ValidationErrorCode).

(** ** Schema issues *)

(** The parts of a [$ZodIssue] the code reads; path elements as text. *)
Record ZodIssue : Type := {
  zi_path : list jstring;
  zi_code : jstring;
  zi_message : option jstring;
}.

(** [text.includes(part)] *)
Fixpoint starts_with (part text : jstring) : bool :=
  match part, text with
  | [], _ => true
  | p :: part, t :: text => (p =? t) && starts_with part text
  | _, [] => false
  end.
Fixpoint includes (text part : jstring) : bool :=
  starts_with part text || match text with [] => false | _ :: text => includes text part end.

Definition codeForIssue (issue : ZodIssue) : ValidationErrorCode :=
  let path := zi_path issue in
  let custom := bool_decide (zi_code issue = js "custom") in
  let says (part : string) := match zi_message issue with Some m => includes m (js part) | None => false end in
  if bool_decide (js "role" ∈ path) then unknown_role
  else if bool_decide (js "revision" ∈ path) then revision
  else if bool_decide (js "bounds" ∈ path) ||
          bool_decide (default [] (last path) ∈ [js "row"; js "column"; js "width"; js "height"])
  then bad_rect
  else if custom && says "hit regions" then bad_rect
  else if bool_decide (zi_code issue = js "too_big") &&
          (bool_decide (js "nodes" ∈ path) || bool_decide (js "rootIds" ∈ path)) then count
  else if custom && says "UTF-8 bytes" then string_bytes
  else schema.

(** ** Geometry *)

Definition rectIntersectsViewport (r : Rect) (columns rows : Z) : bool :=
  if (width r =? 0) || (height r =? 0) then false
  else (column r <? columns) && (row r <? rows) && (0 <? column r + width r) && (0 <? row r + height r).

Definition rectContains (outer inner : Rect) : bool :=
  (row outer <=? row inner) && (column outer <=? column inner) &&
  (row inner + height inner <=? row outer + height outer) &&
  (column inner + width inner <=? column outer + width outer).

Definition is_safe (z : Z) : bool := Z.abs z <=? max_safe.

(** Runs a check on every element, in order. *)
Fixpoint each {A} (check : A -> validated unit) (l : list A) : validated unit :=
  match l with
  | [] => Ok tt
  | a :: l => _ ← check a; each check l
  end.

Definition span_problem (region : SemanticPaintedRegion) (columns rows : Z) (s : Span) : validated unit :=
  let b := regionBounds region in
  _ ← guard_or (negb ((rows <=? sp_row s) || (columns <=? from s) || (columns <? to s))) bad_rect;
  guard_or (negb ((sp_row s <? row b) || (row b + height b <=? sp_row s) ||
                  (from s <? column b) || (column b + width b <? to s))) bad_rect.
Definition regionProblem (region : SemanticPaintedRegion) (columns rows : Z) : validated unit :=
  each (span_problem region columns rows) (spans region).

(** ** Nodes *)

Definition known_value {T} (o : Observation T) : option T :=
  match o with known v _ => Some v | _ => None end.

Definition safe_rect (o : Observation Rect) : validated unit :=
  match known_value o with
  | Some r => guard_or (is_safe (row r + height r) && is_safe (column r + width r)) bad_rect
  | None => Ok tt
  end.

Definition check_visible (node : SemanticNode) (snapshot : SemanticSnapshot) : validated unit :=
  match known_value (visibleRect (n_geometry node)) with
  | Some v =>
      if (0 <? width v) && (0 <? height v) then
        _ ← guard_or (negb (bool_decide (known_value (s_coordinateSpace snapshot) = Some viewport_cells) &&
                            negb (rectIntersectsViewport v (s_columns snapshot) (s_rows snapshot)))) bad_rect;
        match known_value (intendedRect (n_geometry node)) with
        | Some i => guard_or (rectContains i v) bad_rect
        | None => Ok tt
        end
      else Ok tt
  | None => Ok tt
  end.

Definition check_range (range : SemanticTextRange) : validated unit :=
  _ ← guard_or (negb (endOffset range <? startOffset range)) bad_rect;
  guard_or (is_safe (row (tr_rect range) + height (tr_rect range))) bad_rect.

Definition check_targets (ids : gset jstring) (limits : ProtocolLimits) (targets : option (list jstring)) :
    validated unit :=
  match targets with
  | None => Ok tt
  | Some targets =>
      _ ← guard_or (negb (maxRelationTargets limits <? Z.of_nat (length targets))) count;
      each (fun target => guard_or (bool_decide (target ∈ ids)) missing_parent) targets
  end.

Definition checkNodeShape (node : SemanticNode) (snapshot : SemanticSnapshot) (ids : gset jstring)
    (limits : ProtocolLimits) : validated unit :=
  _ ← guard_or (negb (bool_decide (n_role node = js "generic") &&
                      bool_decide (default [] (n_frameworkType node) = []))) schema;
  _ ← guard_or match n_state node with
               | Some s => negb (bool_decide (st_offscreen s = Some true) &&
                                 negb (bool_decide (st_hidden s = Some true)))
               | None => true
               end schema;
  _ ← safe_rect (intendedRect (n_geometry node));
  _ ← safe_rect (visibleRect (n_geometry node));
  _ ← match n_paintedRegion node with
      | Some (known region _) => regionProblem region (s_columns snapshot) (s_rows snapshot)
      | _ => Ok tt
      end;
  _ ← check_visible node snapshot;
  _ ← each check_range (default [] (n_textRanges node));
  _ ← check_targets ids limits (n_labelledBy node);
  check_targets ids limits (n_describedBy node).

(** ** The tree *)

(** The map by id; a repeated id is refused. *)
Fixpoint index_nodes (nodes : list SemanticNode) (byId : gmap jstring SemanticNode) :
    validated (gmap jstring SemanticNode) :=
  match nodes with
  | [] => Ok byId
  | node :: nodes =>
      _ ← guard_or (bool_decide (byId !! n_id node = None)) duplicate_id;
      index_nodes nodes (<[n_id node := node]> byId)
  end.

Fixpoint check_roots (byId : gmap jstring SemanticNode) (ids : list jstring) (rootIds : gset jstring) :
    validated (gset jstring) :=
  match ids with
  | [] => Ok rootIds
  | root :: ids =>
      _ ← guard_or (negb (bool_decide (root ∈ rootIds))) duplicate_id;
      match byId !! root with
      | None => Err missing_parent
      | Some node =>
          _ ← guard_or (bool_decide (n_parentId node = None)) schema;
          check_roots byId ids ({[root]} ∪ rootIds)
      end
  end.

(** The walk up from [current]: the new ids of the chain, the last one first,
    and where it stopped, or the id it came back to.  [None]: out of fuel. *)
Fixpoint climb (byId : gmap jstring SemanticNode) (depths : gmap jstring Z) (fuel : nat)
    (current : option SemanticNode) (chain : list jstring) :
    option (jstring + list jstring * option SemanticNode) :=
  match fuel with
  | O => None
  | S fuel =>
      match current with
      | None => Some (inr (chain, None))
      | Some node =>
          if bool_decide (is_Some (depths !! n_id node)) then Some (inr (chain, Some node))
          else if bool_decide (n_id node ∈ chain) then Some (inl (n_id node))
          else climb byId depths fuel (n_parentId node ≫= (byId !!.)) (n_id node :: chain)
      end
  end.

(** The depths of a chain, from where the walk stopped. *)
Fixpoint assign_depths (d : Z) (chain : list jstring) (depths : gmap jstring Z) : gmap jstring Z :=
  match chain with
  | [] => depths
  | x :: chain => assign_depths (d + 1) chain (<[x := d + 1]> depths)
  end.

Fixpoint depths_of (fuel : nat) (byId : gmap jstring SemanticNode) (nodes : list SemanticNode)
    (depths : gmap jstring Z) : option (jstring + gmap jstring Z) :=
  match nodes with
  | [] => Some (inr depths)
  | start :: nodes =>
      if bool_decide (is_Some (depths !! n_id start)) then depths_of fuel byId nodes depths
      else
        match climb byId depths fuel (Some start) [] with
        | None => None
        | Some (inl at_) => Some (inl at_)
        | Some (inr (chain, current)) =>
            let d := match current with Some node => default 0 (depths !! n_id node) | None => 0 end in
            depths_of fuel byId nodes (assign_depths d chain depths)
        end
  end.

(** Every turn of the loop adds an id to the chain, so two more turns than
    there are nodes are enough. *)
Definition computeDepths (nodes : list SemanticNode) (byId : gmap jstring SemanticNode) :
    option (jstring + gmap jstring Z) :=
  depths_of (S (S (length nodes))) byId nodes ∅.

(** ** Providers *)

Definition known_recipient (ids : gset jstring) (r : jstring) : validated unit :=
  guard_or (bool_decide (r ∈ ids)) missing_parent.

Definition check_hit (ids : gset jstring) (s : SemanticSnapshot) (r : PointerHitRegion) : validated unit :=
  _ ← known_recipient ids (hr_recipientId r);
  guard_or (rectIntersectsViewport (hr_rect r) (s_columns s) (s_rows s)) bad_rect.

Definition check_region (ids : gset jstring) (s : SemanticSnapshot) (r : ProviderPointerRegion) :
    validated unit :=
  _ ← known_recipient ids (pr_recipientId r);
  regionProblem (pr_region r) (s_columns s) (s_rows s).

Definition check_recipes (ids : gset jstring) (s : SemanticSnapshot) (entry : ProviderActionRecipes) :
    validated unit :=
  _ ← known_recipient ids (pa_recipientId entry);
  match List.find (fun n => bool_decide (n_id n = pa_recipientId entry)) (s_nodes s) with
  | Some node =>
      guard_or (forallb (fun r => bool_decide (rc_action r ∈ default [] (n_actions node))) (pa_recipes entry))
        provider
  | None => Err missing_parent
  end.

Definition check_facts (ids : gset jstring) (s : SemanticSnapshot) (providerId : jstring)
    (f : ProviderFacts) : validated unit :=
  _ ← guard_or (bool_decide (ev_providerId (pf_evidence f) = providerId)) schema;
  _ ← match pf_focusState f with Some (focused_on r) => known_recipient ids r | _ => Ok tt end;
  _ ← each (check_region ids s) (pf_pointerRegions f);
  _ ← each (check_region ids s) (default [] (pf_paintedRegions f));
  _ ← each (check_hit ids s) (match pf_hitGrid f with Some g => regions g | None => [] end);
  _ ← each (check_recipes ids s) (default [] (pf_actionRecipes f));
  each (fun st => known_recipient ids (ps_recipientId st)) (default [] (pf_scrollStates f)).

Fixpoint check_providers (ids : gset jstring) (s : SemanticSnapshot) (l : list ProviderRevisionEvidence)
    (providerIds : gset jstring) : validated unit :=
  match l with
  | [] => Ok tt
  | p :: l =>
      _ ← guard_or (negb (bool_decide (pe_providerId p ∈ providerIds))) provider;
      _ ← guard_or (bool_decide (pe_sessionId p = s_sessionId s)) provider;
      _ ← guard_or (pe_revision p =? s_revision s) provider;
      _ ← match pe_status p with
          | available f => check_facts ids s (pe_providerId p) f
          | _ => Ok tt
          end;
      check_providers ids s l ({[pe_providerId p]} ∪ providerIds)
  end.

(** ** Snapshots *)

Definition check_parent (byId : gmap jstring SemanticNode) (rootIds : gset jstring) (node : SemanticNode) :
    validated unit :=
  match n_parentId node with
  | None => guard_or (bool_decide (n_id node ∈ rootIds)) schema
  | Some parent =>
      _ ← guard_or (bool_decide (is_Some (byId !! parent))) missing_parent;
      guard_or (negb (bool_decide (parent = n_id node))) cycle
  end.

(** What is checked of a tree that matches the schema. *)
Definition checkSnapshot (s : SemanticSnapshot) (limits : ProtocolLimits) : validated unit :=
  _ ← guard_or (negb (maxNodes limits <? Z.of_nat (length (s_nodes s)))) count;
  byId ← index_nodes (s_nodes s) ∅;
  rootIds ← check_roots byId (s_rootIds s) ∅;
  let ids := dom byId in
  _ ← match s_hitGrid s with known g _ => each (check_hit ids s) (regions g) | _ => Ok tt end;
  _ ← check_providers ids s (default [] (s_providerEvidence s)) ∅;
  _ ← each (fun node => _ ← check_parent byId rootIds node; checkNodeShape node s ids limits) (s_nodes s);
  _ ← match computeDepths (s_nodes s) byId with
      | Some (inr depths) =>
          guard_or (forallb (fun kd : jstring * Z => negb (maxDepth limits <? snd kd)) (map_to_list depths)) depth
      | _ => Err cycle
      end;
  match s_cursor s with
  | Some c => guard_or (negb ((s_rows s <=? cu_row c) || (s_columns s <=? cu_column c))) bad_rect
  | None => Ok tt
  end.

Section Validate.
Context (stringify : json -> jstring).
(** [treeSchemas(limits).snapshot.safeParse]: the typed view of a tree that
    matches, or the first issue. *)
Context (safeParse : ProtocolLimits -> json -> result ZodIssue SemanticSnapshot).

(** [validateSnapshot] after the projection. *)
Definition validateTree (projected : json) (limits : ProtocolLimits) (wireBytes : option Z) :
    validated SemanticSnapshot :=
  let bytes := match wireBytes with Some b => b | None => utf8_length (stringify projected) end in
  _ ← guard_or (negb (maxSnapshotBytes limits <? bytes)) bytes_code;
  match safeParse limits projected with
  | Err issue => Err (codeForIssue issue)
  | Ok snapshot => _ ← checkSnapshot snapshot limits; Ok snapshot
  end.

Definition validateSnapshot (h : heap) (owned : gmap positive json) (v : value)
    (limits : ProtocolLimits) (wireBytes : option Z) : validated SemanticSnapshot :=
  match projectDto h owned v (int (maxDepth limits)) with
  | Err dto_depth => Err depth
  | Err _ => Err schema
  | Ok projected => validateTree projected limits wireBytes
  end.
End Validate.
