(* ===== verification/ValidateTheorems.v ===== *)
(** * Snapshot validation: what an accepted tree is

    [computeDepths] is total and exact, the validator accepts exactly the
    forests within its limits, and every reference of an accepted tree resolves. *)

From S2P Require Import Prelude JsText Dto Limits Tree Validate.

Local Open Scope Z_scope.

(** ** Forests *)

Section Forest.
Context (nodes : list SemanticNode).

(** [b] is the parent of [a]. *)
Definition up (a b : SemanticNode) : Prop := b ∈ nodes /\ n_parentId a = Some (n_id b).

(** [level a d]: the parent chain of [a] ends at a parentless node and has [d]
    nodes, [a] included. *)
Inductive level : SemanticNode -> Z -> Prop :=
| level_root a : n_parentId a = None -> level a 1
| level_child a b d : up a b -> level b d -> level a (d + 1).

Lemma level_pos a d : level a d -> 1 <= d.
Proof. induction 1; lia. Qed.

Definition distinct_ids : Prop := NoDup (n_id <$> nodes).
Definition parents_exist : Prop :=
  forall a p, a ∈ nodes -> n_parentId a = Some p -> exists b, b ∈ nodes /\ n_id b = p.

Lemma up_unique a b c : distinct_ids -> up a b -> up a c -> b = c.
Proof.
  intros Hd [Hb E1] [Hc E2]. apply (NoDup_fmap_inj n_id nodes); [done|congruence|done|done].
Qed.

Lemma level_up a b d : distinct_ids -> up a b -> level a d -> level b (d - 1).
Proof.
  intros Hd Hu Hl. destruct Hl as [a Hn|a c d Hu' Hl].
  - destruct Hu. congruence.
  - rewrite (up_unique a b c Hd Hu Hu'). by replace (d + 1 - 1) with d by lia.
Qed.

Lemma level_unique a d e : distinct_ids -> level a d -> level a e -> d = e.
Proof.
  intros Hd Hl. revert e. induction Hl as [a Hn|a b d Hu Hl IH]; intros e He.
  - inversion He as [|? ? ? [_ ?]]; congruence.
  - pose proof (level_up a b e Hd Hu He) as Hb. apply IH in Hb. lia.
Qed.

(** A node with a level is on no cycle. *)
Lemma level_acyclic a d : distinct_ids -> level a d -> ~ tc up a a.
Proof.
  intros Hd Hl Hc.
  assert (forall b, tc up a b -> exists e, level b e /\ e < d) as H.
  { intros b Hb. clear Hc. revert Hl. generalize d. induction Hb as [x y Hxy|x y z Hxy Hyz IH]; intros k Hk.
    - exists (k - 1). split; [by eapply level_up|lia].
    - destruct (IH (k - 1) (level_up x y k Hd Hxy Hk)) as (e & He & Hlt). exists e. split; [done|lia]. }
  destruct (H a Hc) as (e & He & Hlt). pose proof (level_unique a d e Hd Hl He). lia.
Qed.

(** ** Indexing *)

Definition indexes_nodes (byId : gmap jstring SemanticNode) : Prop :=
  forall x a, byId !! x = Some a <-> a ∈ nodes /\ n_id a = x.
End Forest.

Lemma index_nodes_spec nodes m byId :
  index_nodes nodes m = Ok byId <->
  NoDup (n_id <$> nodes) /\ (forall a, a ∈ nodes -> m !! n_id a = None) /\
  byId = foldl (fun m a => <[n_id a := a]> m) m nodes.
Proof.
  revert m. induction nodes as [|a nodes IH]; intros m; cbn [index_nodes].
  - split; [intros [= ->]; split_and!; [constructor|by intros a ?%elem_of_nil|done]|].
    intros (_ & _ & ->). done.
  - rewrite bind_Ok. setoid_rewrite guard_or_Ok. setoid_rewrite bool_decide_eq_true.
    cbn [fmap list_fmap foldl]. rewrite NoDup_cons. split.
    + intros ([] & Hm & H). apply IH in H as (Hnd & Hnew & ->). split_and!; [|done| |done].
      * intros (b & Heq & Hb)%list_elem_of_fmap. specialize (Hnew b Hb). rewrite <- Heq, lookup_insert_eq in Hnew. done.
      * intros b [->|Hb]%elem_of_cons; [done|]. specialize (Hnew b Hb). by apply lookup_insert_None in Hnew as [? _].
    + intros ((Hni & Hnd) & Hnew & ->). exists tt. split; [apply Hnew; left|]. apply IH.
      split_and!; [done| |done]. intros b Hb. apply lookup_insert_None. split; [apply Hnew; by right|].
      intros Heq. apply Hni. rewrite Heq. by apply list_elem_of_fmap_2.
Qed.

Lemma index_nodes_lookup nodes m byId :
  index_nodes nodes m = Ok byId -> forall x a, byId !! x = Some a <->
    (a ∈ nodes /\ n_id a = x) \/ (m !! x = Some a /\ x ∉ n_id <$> nodes).
Proof.
  revert m. induction nodes as [|b nodes IH]; intros m H x a; cbn [index_nodes] in H.
  - injection H as <-. split; [intros Hm; right; split; [done|apply not_elem_of_nil]|].
    intros [[?%elem_of_nil _]|[? _]]; done.
  - apply bind_Ok in H as ([] & Hg & H). apply guard_or_Ok, bool_decide_eq_true in Hg.
    pose proof H as Hs. apply index_nodes_spec in Hs as (Hnd & Hnew & _).
    rewrite (IH _ H). cbn [fmap list_fmap]. rewrite !elem_of_cons.
    assert (n_id b ∉ n_id <$> nodes) as Hb.
    { intros (c & Heq & Hc)%list_elem_of_fmap. specialize (Hnew c Hc). rewrite <- Heq, lookup_insert_eq in Hnew. done. }
    destruct (decide (n_id b = x)) as [<-|Hne].
    + rewrite lookup_insert_eq. split.
      * intros [[Ha Hx]|[[= <-] _]]; left; [|by split; [left|]]. split; [by right|done].
      * intros [[[->|Ha] Hx]|[Hm Hx]]; [by right|by left|]. exfalso. apply Hx. by left.
    + rewrite lookup_insert_ne by done. split.
      * intros [[Ha Hx]|[Hm Hx]]; [left; split; [by right|done]|right; split; [done|]]. intros [?|?]; congruence.
      * intros [[[->|Ha] Hx]|[Hm Hx]]; [congruence|by left|right]. split; [done|]. intros ?. apply Hx. by right.
Qed.

Lemma index_nodes_indexes nodes byId :
  index_nodes nodes ∅ = Ok byId -> distinct_ids nodes /\ indexes_nodes nodes byId.
Proof.
  intros H. split; [by apply index_nodes_spec in H as (? & _)|].
  intros x a. rewrite (index_nodes_lookup _ _ _ H), lookup_empty. naive_solver.
Qed.

(** ** The walk up *)

Section Climb.
Context (nodes : list SemanticNode) (byId : gmap jstring SemanticNode).
Context (Hdistinct : distinct_ids nodes) (Hindex : indexes_nodes nodes byId).

Definition parent (a : SemanticNode) : option SemanticNode := n_parentId a ≫= (byId !!.).

Lemma parent_Some a b : parent a = Some b <-> up nodes a b.
Proof.
  unfold parent, up. rewrite bind_Some. split.
  - intros (p & Hp & Hb). apply Hindex in Hb as [Hb <-]. done.
  - intros [Hb Hp]. exists (n_id b). split; [done|]. by apply Hindex.
Qed.

Lemma parent_None a : parents_exist nodes -> a ∈ nodes -> parent a = None -> n_parentId a = None.
Proof.
  intros Hp Ha H. destruct (n_parentId a) as [p|] eqn:E; [|done].
  destruct (Hp a p Ha E) as (b & Hb & <-).
  assert (parent a = Some b) by (by apply parent_Some). congruence.
Qed.

(** [climbed start chain current]: the walk from [start] has passed [chain]. *)
Inductive climbed (start : SemanticNode) : list jstring -> option SemanticNode -> Prop :=
| climbed_here : climbed start [] (Some start)
| climbed_on chain a : a ∈ nodes -> climbed start chain (Some a) -> climbed start (n_id a :: chain) (parent a).

Lemma climbed_ids start chain current : climbed start chain current -> chain ⊆ n_id <$> nodes.
Proof.
  induction 1 as [|chain a Ha H IH]; intros x Hx; [by apply elem_of_nil in Hx|].
  apply elem_of_cons in Hx as [->|Hx]; [by apply list_elem_of_fmap_2|auto].
Qed.

Lemma climbed_current start chain a : start ∈ nodes -> climbed start chain (Some a) -> a ∈ nodes.
Proof. intros Hs H. inversion H as [|? b Hb Hc Heq Hp]; subst; [done|]. by apply parent_Some in Hp as [? _]. Qed.

(** Coming back to the chain is a cycle. *)
Lemma climbed_tc start chain current a b :
  climbed start chain current -> current = Some b -> a ∈ nodes -> n_id a ∈ chain -> tc (up nodes) a b.
Proof.
  intros H. revert b. induction H as [|chain c Hc H IH]; intros b Hb Ha Hin; [by apply elem_of_nil in Hin|].
  apply parent_Some in Hb. apply elem_of_cons in Hin as [Heq|Hin].
  - assert (a = c) as -> by (apply (NoDup_fmap_inj n_id nodes); done). by apply tc_once.
  - eapply tc_r; [by eapply IH|done].
Qed.

(** What a walk returns. *)
Definition walk_result (depths : gmap jstring Z) (start : SemanticNode)
    (r : jstring + list jstring * option SemanticNode) : Prop :=
  match r with
  | inl x => exists a, a ∈ nodes /\ n_id a = x /\ tc (up nodes) a a
  | inr (chain, current) =>
      climbed start chain current /\ NoDup chain /\ (forall x, x ∈ chain -> depths !! x = None) /\
      match current with Some a => is_Some (depths !! n_id a) | None => True end
  end.

Lemma climb_total depths fuel start current chain :
  start ∈ nodes -> climbed start chain current -> NoDup chain ->
  (forall x, x ∈ chain -> depths !! x = None) ->
  (length nodes < fuel + length chain)%nat ->
  exists r, climb byId depths fuel current chain = Some r /\ walk_result depths start r.
Proof.
  intros Hs. revert current chain. induction fuel as [|fuel IH]; intros current chain Hc Hnd Hnew Hf.
  { exfalso. assert (length chain <= length (n_id <$> nodes))%nat as Hle.
    { apply submseteq_length, NoDup_submseteq; [done|by eapply climbed_ids]. }
    rewrite length_fmap in Hle. lia. }
  cbn [climb]. destruct current as [a|]; [|by eexists].
  pose proof (climbed_current _ _ _ Hs Hc) as Ha.
  destruct (bool_decide (is_Some (depths !! n_id a))) eqn:Ed; breflect; [by eexists|].
  destruct (bool_decide (n_id a ∈ chain)) eqn:Ei; breflect.
  - eexists. split; [done|]. cbn. exists a. split_and!; [done|done|by eapply climbed_tc].
  - apply (IH (parent a) (n_id a :: chain)).
    + by constructor.
    + by constructor.
    + intros x [->|Hx]%elem_of_cons; [|auto]. destruct (depths !! n_id a); [|done]. exfalso. eauto.
    + cbn. lia.
Qed.

(** *** Assigning depths *)

Context (Hparents : parents_exist nodes).

(** Recorded depths are the levels. *)
Definition levels_ok (depths : gmap jstring Z) : Prop :=
  forall x d, depths !! x = Some d -> exists a, a ∈ nodes /\ n_id a = x /\ level nodes a d.

Definition depth_here (depths : gmap jstring Z) (current : option SemanticNode) : Z :=
  match current with Some a => default 0 (depths !! n_id a) | None => 0 end.

Lemma assign_chain start chain current d depths :
  climbed start chain current ->
  match current with Some a => level nodes a d | None => d = 0 end ->
  levels_ok depths ->
  let depths' := assign_depths d chain depths in
  levels_ok depths' /\ (forall x, is_Some (depths !! x) -> is_Some (depths' !! x)) /\
  (forall x, x ∈ chain -> is_Some (depths' !! x)).
Proof.
  intros H. revert d depths. induction H as [|chain a Ha H IH]; intros d depths Hd Hok; cbn [assign_depths].
  { split_and!; [done|done|]. intros x Hx. by apply elem_of_nil in Hx. }
  assert (level nodes a (d + 1)) as Hl.
  { destruct (parent a) as [b|] eqn:Ep.
    - apply parent_Some in Ep. by eapply level_child.
    - subst d. apply level_root. by apply parent_None. }
  destruct (IH (d + 1) (<[n_id a := d + 1]> depths) Hl) as (I1 & I2 & I3).
  { intros x e [[<- <-]|[_ Hx]]%lookup_insert_Some; [by exists a|auto]. }
  split_and!; [done| |].
  - intros x Hx. apply I2. destruct (decide (n_id a = x)) as [->|Hne]; [by rewrite lookup_insert_eq|].
    by rewrite lookup_insert_ne.
  - intros x [->|Hx]%elem_of_cons; [|auto]. apply I2. by rewrite lookup_insert_eq.
Qed.

(** The first chain element is reached first or was the start. *)
Lemma climbed_start start chain current :
  climbed start chain current -> n_id start ∈ chain \/ current = Some start.
Proof.
  induction 1 as [|chain a Ha H IH]; [by right|]. left. apply elem_of_cons.
  destruct IH as [?|[= ->]]; auto.
Qed.

Lemma depths_total todo fuel depths :
  (length nodes < fuel)%nat -> todo ⊆ nodes -> levels_ok depths ->
  match depths_of fuel byId todo depths with
  | None => False
  | Some (inl x) => exists a, a ∈ nodes /\ n_id a = x /\ tc (up nodes) a a
  | Some (inr depths') =>
      levels_ok depths' /\ (forall x, is_Some (depths !! x) -> is_Some (depths' !! x)) /\
      (forall a, a ∈ todo -> is_Some (depths' !! n_id a))
  end.
Proof.
  intros Hf. revert depths. induction todo as [|start todo IH]; intros depths Hsub Hok; cbn [depths_of].
  { split_and!; [done|done|]. intros a Ha. by apply elem_of_nil in Ha. }
  assert (start ∈ nodes) as Hs by (apply Hsub; left).
  assert (todo ⊆ nodes) as Hsub' by (intros x Hx; apply Hsub; by right).
  destruct (bool_decide (is_Some (depths !! n_id start))) eqn:Ed; breflect.
  - specialize (IH depths Hsub' Hok). destruct (depths_of _ _ todo depths) as [[x|depths']|]; [done| |done].
    destruct IH as (I1 & I2 & I3). split_and!; [done|done|]. intros a [->|Ha]%elem_of_cons; auto.
  - destruct (climb_total depths fuel start (Some start) []) as ([x|[chain current]] & -> & Hr);
      [done|constructor|constructor|intros x Hx; by apply elem_of_nil in Hx|cbn; lia|done|].
    destruct Hr as (Hc & Hnd & Hnew & Hcur).
    destruct (assign_chain start chain current (depth_here depths current) depths Hc) as (A1 & A2 & A3); [|done|].
    { destruct current as [a|]; [|done]. cbn. destruct Hcur as [d Hd]. rewrite Hd. cbn.
      destruct (Hok _ _ Hd) as (b & Hb & Heq & Hl).
      assert (b = a) as -> by (apply (NoDup_fmap_inj n_id nodes); eauto using climbed_current). done. }
    specialize (IH _ Hsub' A1). fold (depth_here depths current).
    destruct (depths_of _ _ todo _) as [[x|depths']|]; [done| |done].
    destruct IH as (I1 & I2 & I3). split_and!; [done|by auto|].
    intros a [->|Ha]%elem_of_cons; [|auto]. apply I2.
    destruct (climbed_start _ _ _ Hc) as [Hin| ->]; [by apply A3|]. by apply A2.
Qed.
End Climb.

Lemma computeDepths_lemma nodes byId :
  index_nodes nodes ∅ = Ok byId -> parents_exist nodes ->
  (exists x a, computeDepths nodes byId = Some (inl x) /\ a ∈ nodes /\ n_id a = x /\ tc (up nodes) a a) \/
  (exists depths, computeDepths nodes byId = Some (inr depths) /\
     (forall a, a ∈ nodes -> exists d, depths !! n_id a = Some d /\ level nodes a d) /\
     (forall x d, depths !! x = Some d -> exists a, a ∈ nodes /\ n_id a = x /\ level nodes a d)).
Proof.
  intros Hi Hp. destruct (index_nodes_indexes _ _ Hi) as [Hd Hx]. unfold computeDepths.
  pose proof (depths_total nodes byId Hd Hx Hp nodes (S (S (length nodes))) ∅ ltac:(lia) ltac:(done)) as H.
  specialize (H ltac:(intros x d; by rewrite lookup_empty)).
  destruct (depths_of _ _ _ _) as [[x|depths]|]; [|right|done].
  - left. destruct H as (a & ? & ? & ?). eauto 10.
  - destruct H as (H1 & _ & H3). exists depths. split_and!; [done| |done].
    intros a Ha. destruct (H3 a Ha) as [d Hda]. exists d. split; [done|].
    destruct (H1 _ _ Hda) as (b & Hb & Heq & Hl).
    assert (b = a) as -> by (by apply (NoDup_fmap_inj n_id nodes)). done.
Qed.

(** The depth computation is total and exact.  For nodes with distinct ids
    whose parents exist it always finishes, within the iterations the loop can
    make, and either names a node that lies on a cycle of parents or gives every
    node its depth: the number of nodes on its path to a parentless root. *)
Theorem computeDepths_exact nodes byId :
  index_nodes nodes ∅ = Ok byId -> parents_exist nodes ->
  (exists x a, computeDepths nodes byId = Some (inl x) /\ a ∈ nodes /\ n_id a = x /\ tc (up nodes) a a) \/
  (exists depths, computeDepths nodes byId = Some (inr depths) /\
     (forall a, a ∈ nodes -> exists d, depths !! n_id a = Some d /\ level nodes a d) /\
     (forall x d, depths !! x = Some d -> exists a, a ∈ nodes /\ n_id a = x /\ level nodes a d)).
Proof. exact (computeDepths_lemma nodes byId). Qed.

(** ** What the validator accepts *)

Lemma bind_unit_Ok {E A} (r : result E unit) (k : unit -> result E A) (a : A) :
  (r ≫= k) = Ok a <-> r = Ok tt /\ k tt = Ok a.
Proof. rewrite bind_Ok. split; [intros ([] & ? & ?); auto|intros [? ?]; eauto]. Qed.

Lemma each_Ok {A} (check : A -> validated unit) l :
  each check l = Ok tt <-> forall a, a ∈ l -> check a = Ok tt.
Proof.
  induction l as [|a l IH]; cbn [each].
  - split; [intros _ a Ha; by apply elem_of_nil in Ha|done].
  - rewrite bind_unit_Ok, IH. split.
    + intros [Ha Hl] b [->|Hb]%elem_of_cons; auto.
    + intros H. split; [apply H; left|intros b Hb; apply H; by right].
Qed.

Lemma check_roots_Ok byId ids acc r :
  check_roots byId ids acc = Ok r <->
  NoDup ids /\ (forall x, x ∈ ids -> x ∉ acc /\ exists a, byId !! x = Some a /\ n_parentId a = None) /\
  r = list_to_set ids ∪ acc.
Proof.
  revert acc. induction ids as [|x ids IH]; intros acc; cbn [check_roots].
  { split.
    - intros [= ->]. split_and!; [constructor|intros x Hx; by apply elem_of_nil in Hx|set_solver].
    - intros (_ & _ & ->). f_equal. set_solver. }
  rewrite bind_unit_Ok, guard_or_Ok, negb_true_iff, bool_decide_eq_false, NoDup_cons. split.
  - intros [Hx H]. destruct (byId !! x) as [a|] eqn:Ea; [|done].
    apply bind_unit_Ok in H as [Hn H]. apply guard_or_Ok, bool_decide_eq_true in Hn.
    apply IH in H as (Hnd & Hall & ->). split_and!.
    + intros Hin. destruct (Hall x Hin) as [? _]. set_solver.
    + done.
    + intros y [->|Hy]%elem_of_cons; [by eauto|]. destruct (Hall y Hy) as [? ?]. split; [set_solver|done].
    + set_solver.
  - intros ((Hni & Hnd) & Hall & ->). destruct (Hall x ltac:(left)) as (Hx & a & Ha & Hn). split; [done|].
    rewrite Ha. apply bind_unit_Ok. split; [by apply guard_or_Ok, bool_decide_eq_true|].
    apply IH. split_and!; [done| |set_solver].
    intros y Hy. destruct (Hall y ltac:(by right)) as [? ?]. split; [set_solver|done].
Qed.

Definition node_ids (s : SemanticSnapshot) : gset jstring := list_to_set (n_id <$> s_nodes s).

(** The nodes form a forest: distinct ids, the listed roots are exactly the
    parentless nodes, and every node reaches one of them in bounded depth. *)
Record forest (s : SemanticSnapshot) (limits : ProtocolLimits) : Prop := {
  fo_count : Z.of_nat (length (s_nodes s)) <= maxNodes limits;
  fo_ids : NoDup (n_id <$> s_nodes s);
  fo_roots : NoDup (s_rootIds s);
  fo_root r : r ∈ s_rootIds s <-> exists a, a ∈ s_nodes s /\ n_id a = r /\ n_parentId a = None;
  fo_level a : a ∈ s_nodes s -> exists d, d <= maxDepth limits /\ level (s_nodes s) a d;
}.

(** The remaining checks, of regions, providers, single nodes and the cursor. *)
Record details (s : SemanticSnapshot) (limits : ProtocolLimits) : Prop := {
  de_hits : match s_hitGrid s with
            | known g _ => each (check_hit (node_ids s) s) (regions g)
            | _ => Ok tt
            end = Ok tt;
  de_providers : check_providers (node_ids s) s (default [] (s_providerEvidence s)) ∅ = Ok tt;
  de_nodes a : a ∈ s_nodes s -> checkNodeShape a s (node_ids s) limits = Ok tt;
  de_cursor c : s_cursor s = Some c -> cu_row c < s_rows s /\ cu_column c < s_columns s;
}.

Lemma cursor_check s :
  match s_cursor s with
  | Some c => guard_or (negb ((s_rows s <=? cu_row c) || (s_columns s <=? cu_column c))) bad_rect
  | None => Ok tt
  end = Ok tt <-> forall c, s_cursor s = Some c -> cu_row c < s_rows s /\ cu_column c < s_columns s.
Proof.
  destruct (s_cursor s) as [c|].
  - rewrite guard_or_Ok, negb_true_iff, orb_false_iff, !Z.leb_gt.
    split; [intros H c' [= <-]; done|intros H; by apply H].
  - split; done.
Qed.

Lemma dom_byId s byId : index_nodes (s_nodes s) ∅ = Ok byId -> dom byId = node_ids s.
Proof.
  intros H. apply set_eq. intros x. unfold node_ids. rewrite elem_of_dom, elem_of_list_to_set, list_elem_of_fmap.
  destruct (index_nodes_indexes _ _ H) as [_ Hx]. split.
  - intros [a Ha]. apply Hx in Ha as [? ?]. eauto.
  - intros (a & -> & Ha). exists a. by apply Hx.
Qed.

(** The per-node parent checks, given the index and the roots. *)
Lemma check_parent_Ok s byId rootIds a :
  indexes_nodes (s_nodes s) byId ->
  check_parent byId rootIds a = Ok tt <->
  (n_parentId a = None -> n_id a ∈ rootIds) /\
  (forall p, n_parentId a = Some p -> p <> n_id a /\ exists b, b ∈ s_nodes s /\ n_id b = p).
Proof.
  intros Hx. unfold check_parent. destruct (n_parentId a) as [p|].
  - rewrite bind_unit_Ok, !guard_or_Ok, negb_true_iff, bool_decide_eq_true, bool_decide_eq_false. split.
    + intros [[b Hb] Hne]. split; [done|]. intros q [= <-]. split; [done|]. apply Hx in Hb as [? ?]. eauto.
    + intros [_ H]. destruct (H p eq_refl) as (Hne & b & Hb & <-). split; [|done]. exists b. by apply Hx.
  - rewrite guard_or_Ok, bool_decide_eq_true. split; [intros; split; [done|by intros]|intros [H _]; by apply H].
Qed.

Lemma depth_check nodes byId limits :
  index_nodes nodes ∅ = Ok byId -> parents_exist nodes ->
  match computeDepths nodes byId with
  | Some (inr depths) =>
      guard_or (forallb (fun kd : jstring * Z => negb (maxDepth limits <? snd kd)) (map_to_list depths)) depth
  | _ => Err cycle
  end = Ok tt <-> forall a, a ∈ nodes -> exists d, d <= maxDepth limits /\ level nodes a d.
Proof.
  intros Hi Hp. destruct (index_nodes_indexes _ _ Hi) as [Hd _].
  destruct (computeDepths_lemma nodes byId Hi Hp) as [(x & a & -> & Ha & _ & Hc)|(depths & -> & H1 & H2)].
  - split; [done|]. intros H. destruct (H a Ha) as (d & _ & Hl). by destruct (level_acyclic nodes a d).
  - rewrite guard_or_Ok, forallb_forall. split.
    + intros H a Ha. destruct (H1 a Ha) as (d & Hda & Hl). exists d. split; [|done].
      specialize (H (n_id a, d) ltac:(by apply list_elem_of_In, elem_of_map_to_list)). cbn in H. breflect. lia.
    + intros H [x d] Hx. apply list_elem_of_In, elem_of_map_to_list in Hx. cbn.
      destruct (H2 x d Hx) as (a & Ha & _ & Hl). destruct (H a Ha) as (e & He & Hle).
      rewrite (level_unique nodes a d e Hd Hl Hle). apply negb_true_iff, Z.ltb_ge. done.
Qed.

Lemma level_parent nodes a d p :
  level nodes a d -> n_parentId a = Some p -> exists b e, b ∈ nodes /\ n_id b = p /\ level nodes b e.
Proof.
  intros Hl Hp. destruct Hl as [a Hn|a b d [Hb Hu] Hl]; [congruence|].
  exists b, d. split_and!; [done|congruence|done].
Qed.

Lemma forest_parents s limits : forest s limits -> parents_exist (s_nodes s).
Proof.
  intros H a p Ha Hp. destruct (fo_level _ _ H a Ha) as (d & _ & Hl).
  destruct (level_parent _ _ _ _ Hl Hp) as (b & e & ? & ? & _). eauto.
Qed.

Lemma forest_no_self s limits a p : forest s limits -> a ∈ s_nodes s -> n_parentId a = Some p -> p <> n_id a.
Proof.
  intros H Ha Hp ->. destruct (fo_level _ _ H a Ha) as (d & _ & Hl).
  apply (level_acyclic (s_nodes s) a d (fo_ids _ _ H) Hl). by apply tc_once.
Qed.

(** The checks in the order they run. *)
Lemma checkSnapshot_steps s limits :
  checkSnapshot s limits = Ok tt <->
  Z.of_nat (length (s_nodes s)) <= maxNodes limits /\
  exists byId rootIds, index_nodes (s_nodes s) ∅ = Ok byId /\ check_roots byId (s_rootIds s) ∅ = Ok rootIds /\
    (forall a, a ∈ s_nodes s -> check_parent byId rootIds a = Ok tt) /\
    match computeDepths (s_nodes s) byId with
    | Some (inr depths) =>
        guard_or (forallb (fun kd : jstring * Z => negb (maxDepth limits <? snd kd)) (map_to_list depths)) depth
    | _ => Err cycle
    end = Ok tt /\ details s limits.
Proof.
  unfold checkSnapshot. rewrite bind_unit_Ok, guard_or_Ok, negb_true_iff, Z.ltb_ge.
  apply and_iff_compat_l. split.
  - intros H. apply bind_Ok in H as (byId & Hi & H). apply bind_Ok in H as (rootIds & Hr & H).
    cbv zeta in H. rewrite (dom_byId s byId Hi) in H. rewrite !bind_unit_Ok, each_Ok, cursor_check in H.
    destruct H as (Hh & Hp & Hn & Hd & Hc). exists byId, rootIds.
    assert (forall a, a ∈ s_nodes s -> check_parent byId rootIds a = Ok tt /\
              checkNodeShape a s (node_ids s) limits = Ok tt) as Hn'.
    { intros a Ha. specialize (Hn a Ha). by apply bind_unit_Ok in Hn. }
    split_and!; [done|done|intros a Ha; by apply Hn'|done|]. constructor; try done. intros a Ha. by apply Hn'.
  - intros (byId & rootIds & Hi & Hr & Hpar & Hd & []). rewrite Hi. cbn [mbind result_bind]. rewrite Hr.
    cbn [mbind result_bind]. cbv zeta. rewrite (dom_byId s byId Hi), !bind_unit_Ok, each_Ok, cursor_check.
    split_and!; try done. intros a Ha. apply bind_unit_Ok. auto.
Qed.

Lemma checkSnapshot_forest s limits :
  checkSnapshot s limits = Ok tt <-> forest s limits /\ details s limits.
Proof.
  rewrite checkSnapshot_steps. split.
  - intros (Hcount & byId & rootIds & Hi & Hr & Hp & Hd & Hdet). split; [|done].
    destruct (index_nodes_indexes _ _ Hi) as [Hids Hx].
    apply check_roots_Ok in Hr as (Hnd & Hroots & ->). setoid_rewrite (check_parent_Ok s byId _ _ Hx) in Hp.
    assert (parents_exist (s_nodes s)) as Hpe by (intros a p Ha Hpa; by apply (Hp a Ha)).
    rewrite (depth_check _ _ limits Hi Hpe) in Hd. constructor; try done. intros r. split.
    + intros Hin. destruct (Hroots r Hin) as (_ & a & Ha & Hn). apply Hx in Ha as [? ?]. eauto.
    + intros (a & Ha & <- & Hn). destruct (Hp a Ha) as [Hroot _]. specialize (Hroot Hn).
      apply elem_of_union in Hroot as [Hin|Hin]; [by apply elem_of_list_to_set in Hin|set_solver].
  - intros [Hf Hdet]. split; [apply Hf|]. pose proof Hf as [_ Hids Hnd Hroot Hlev].
    destruct (index_nodes (s_nodes s) ∅) as [byId|] eqn:Hi.
    2: { exfalso. assert (index_nodes (s_nodes s) ∅ = Ok (foldl (fun m a => <[n_id a := a]> m) ∅ (s_nodes s)))
           by (apply index_nodes_spec; split_and!; [done|by intros; rewrite lookup_empty|done]). congruence. }
    destruct (index_nodes_indexes _ _ Hi) as [_ Hx].
    exists byId, (list_to_set (s_rootIds s) ∪ ∅). split_and!; [done| | |by apply depth_check; eauto using forest_parents|done].
    + apply check_roots_Ok. split_and!; [done| |done]. intros x Hin. split; [set_solver|].
      apply Hroot in Hin as (a & Ha & <- & Hn). exists a. split; [by apply Hx|done].
    + intros a Ha. apply (check_parent_Ok s); [done|]. split.
      * intros Hn. apply elem_of_union. left. apply elem_of_list_to_set. apply Hroot. eauto.
      * intros p Hp. split; [by eapply forest_no_self|by eapply forest_parents].
Qed.

(** C30 The validator accepts a schema-conforming snapshot exactly when its
    nodes are a forest within the limits (distinct ids, roots listed exactly
    once and exactly the parentless nodes, every node a bounded number of
    parents away from a root) and its regions, providers, node shapes and
    cursor pass their own checks; in particular a cyclic or dangling parent
    relation is never let through and a proper forest is never refused as one. *)
Theorem checkSnapshot_iff_forest s limits :
  checkSnapshot s limits = Ok tt <-> forest s limits /\ details s limits.
Proof. apply checkSnapshot_forest. Qed.

(** ** References *)

(** The node ids a provider's facts name. *)
Definition fact_recipients (f : ProviderFacts) : list jstring :=
  match pf_focusState f with Some (focused_on r) => [r] | _ => [] end ++
  (pr_recipientId <$> pf_pointerRegions f) ++ (pr_recipientId <$> default [] (pf_paintedRegions f)) ++
  (hr_recipientId <$> match pf_hitGrid f with Some g => regions g | None => [] end) ++
  (pa_recipientId <$> default [] (pf_actionRecipes f)) ++ (ps_recipientId <$> default [] (pf_scrollStates f)).

Definition status_recipients (st : ProviderStatus) : list jstring :=
  match st with available f => fact_recipients f | _ => [] end.

(** Every node id a snapshot names. *)
Definition references (s : SemanticSnapshot) : list jstring :=
  (hr_recipientId <$> match s_hitGrid s with known g _ => regions g | _ => [] end) ++
  mjoin ((fun p => status_recipients (pe_status p)) <$> default [] (s_providerEvidence s)) ++
  mjoin ((fun a => default [] (n_labelledBy a) ++ default [] (n_describedBy a)) <$> s_nodes s).

Lemma recipients_each {A} (f : A -> jstring) (check : A -> validated unit) (ids : gset jstring) l r :
  (forall a, check a = Ok tt -> f a ∈ ids) -> each check l = Ok tt -> r ∈ f <$> l -> r ∈ ids.
Proof. intros Hf Hl (a & -> & Ha)%list_elem_of_fmap. rewrite each_Ok in Hl. auto. Qed.

Lemma known_recipient_Ok ids r : known_recipient ids r = Ok tt <-> r ∈ ids.
Proof. unfold known_recipient. by rewrite guard_or_Ok, bool_decide_eq_true. Qed.

Lemma facts_resolve ids s pid f r :
  check_facts ids s pid f = Ok tt -> r ∈ fact_recipients f -> r ∈ ids.
Proof.
  unfold check_facts. rewrite !bind_unit_Ok. intros (_ & Hfo & Hpt & Hpa & Hh & Hrc & Hsc).
  unfold fact_recipients. rewrite !elem_of_app.
  assert (forall x, check_region ids s x = Ok tt -> pr_recipientId x ∈ ids) as Hreg.
  { intros x Hx. unfold check_region in Hx. apply bind_unit_Ok in Hx as [Hx _]. by apply known_recipient_Ok. }
  intros [H|[H|[H|[H|[H|H]]]]].
  - destruct (pf_focusState f) as [[x|]|]; try by apply elem_of_nil in H.
    apply list_elem_of_singleton in H as ->. by apply known_recipient_Ok.
  - exact (recipients_each _ _ ids _ r Hreg Hpt H).
  - exact (recipients_each _ _ ids _ r Hreg Hpa H).
  - eapply recipients_each; [|exact Hh|done]. intros x Hx. unfold check_hit in Hx.
    apply bind_unit_Ok in Hx as [Hx _]. by apply known_recipient_Ok.
  - eapply recipients_each; [|exact Hrc|done]. intros x Hx. unfold check_recipes in Hx.
    apply bind_unit_Ok in Hx as [Hx _]. by apply known_recipient_Ok.
  - eapply recipients_each; [|exact Hsc|done]. intros x Hx. by apply known_recipient_Ok.
Qed.

Lemma providers_Ok ids s l acc :
  check_providers ids s l acc = Ok tt ->
  NoDup (pe_providerId <$> l) /\
  forall p, p ∈ l -> pe_providerId p ∉ acc /\ pe_sessionId p = s_sessionId s /\ pe_revision p = s_revision s /\
    forall r, r ∈ status_recipients (pe_status p) -> r ∈ ids.
Proof.
  revert acc. induction l as [|p l IH]; intros acc H; cbn [check_providers] in H.
  { split; [constructor|]. intros p Hp. by apply elem_of_nil in Hp. }
  rewrite !bind_unit_Ok, !guard_or_Ok, negb_true_iff, bool_decide_eq_false, bool_decide_eq_true, Z.eqb_eq in H.
  destruct H as (Hnew & Hses & Hrev & Hst & H). apply IH in H as [Hnd Hall]. cbn. split.
  - apply NoDup_cons. split; [|done]. intros (q & Heq & Hq)%list_elem_of_fmap.
    destruct (Hall q Hq) as [Hni _]. rewrite <- Heq in Hni. set_solver.
  - intros q [->|Hq]%elem_of_cons.
    + split_and!; [done|done|done|]. intros r Hr. destruct (pe_status p); try by apply elem_of_nil in Hr.
      by eapply facts_resolve.
    + destruct (Hall q Hq) as (Hni & ? & ? & ?). split_and!; [set_solver|done|done|done].
Qed.

Lemma targets_Ok ids limits l r : check_targets ids limits l = Ok tt -> r ∈ default [] l -> r ∈ ids.
Proof.
  destruct l as [l|]; cbn [check_targets default]; [|intros _ Hr; by apply elem_of_nil in Hr].
  rewrite bind_unit_Ok, each_Ok. intros [_ H] Hr. specialize (H r Hr).
  by apply guard_or_Ok, bool_decide_eq_true in H.
Qed.

(** What a node's own checks say. *)
Record node_claims (a : SemanticNode) (s : SemanticSnapshot) : Prop := {
  nc_generic : n_role a = js "generic" -> exists t, n_frameworkType a = Some t /\ t <> [];
  nc_offscreen st : n_state a = Some st -> st_offscreen st = Some true -> st_hidden st = Some true;
  nc_visible v : known_value (visibleRect (n_geometry a)) = Some v -> 0 < width v -> 0 < height v ->
    (forall i, known_value (intendedRect (n_geometry a)) = Some i -> forall x y, covers v x y -> covers i x y) /\
    (known_value (s_coordinateSpace s) = Some viewport_cells ->
       exists x y, covers v x y /\ 0 <= x /\ 0 <= y);
}.

Lemma checkNodeShape_Ok a s ids limits :
  0 <= s_columns s -> 0 <= s_rows s ->
  checkNodeShape a s ids limits = Ok tt ->
  node_claims a s /\ forall r, r ∈ default [] (n_labelledBy a) ++ default [] (n_describedBy a) -> r ∈ ids.
Proof.
  intros Hcol Hrow. unfold checkNodeShape. rewrite !bind_unit_Ok.
  intros (Hg & Ho & _ & _ & _ & Hv & _ & Hl & Hd). split.
  - constructor.
    + intros Hr. rewrite guard_or_Ok, (bool_decide_eq_true_2 _ Hr) in Hg. cbn in Hg. breflect.
      destruct (n_frameworkType a) as [t|]; [eauto|done].
    + intros st Hst Hoff. rewrite Hst in Ho. rewrite guard_or_Ok, (bool_decide_eq_true_2 _ Hoff) in Ho.
      cbn in Ho. by breflect.
    + intros v Hk Hw Hh. unfold check_visible in Hv. rewrite Hk in Hv.
      rewrite (proj2 (Z.ltb_lt _ _) Hw), (proj2 (Z.ltb_lt _ _) Hh) in Hv. cbn [andb] in Hv.
      apply bind_unit_Ok in Hv as [Hvp Hin]. split.
      * intros i Hi x y. rewrite Hi in Hin. apply guard_or_Ok in Hin. unfold rectContains in Hin. breflect.
        unfold covers. lia.
      * intros Hcs. rewrite guard_or_Ok, (bool_decide_eq_true_2 _ Hcs) in Hvp. cbn in Hvp.
        rewrite negb_involutive in Hvp. unfold rectIntersectsViewport in Hvp.
        destruct (_ || _); [done|]. breflect.
        exists (Z.max 0 (column v)), (Z.max 0 (row v)). unfold covers. lia.
  - intros r [Hr|Hr]%elem_of_app; [exact (targets_Ok _ _ _ _ Hl Hr)|exact (targets_Ok _ _ _ _ Hd Hr)].
Qed.

Section Validated.
Context (stringify : json -> jstring).
Context (safeParse : ProtocolLimits -> json -> result ZodIssue SemanticSnapshot).

Lemma validateSnapshot_Ok h owned v limits wireBytes s :
  validateSnapshot stringify safeParse h owned v limits wireBytes = Ok s ->
  exists projected, projectDto h owned v (int (maxDepth limits)) = Ok projected /\
    safeParse limits projected = Ok s /\ checkSnapshot s limits = Ok tt.
Proof.
  unfold validateSnapshot, validateTree. destruct (projectDto _ _ _ _) as [j|[]]; try done.
  cbv zeta. intros H. apply bind_unit_Ok in H as [_ H]. destruct (safeParse limits j) as [s'|] eqn:E; [|done].
  apply bind_unit_Ok in H as [Hc [= <-]]. eauto.
Qed.

(** Every accepted snapshot is referentially closed and says what it means:
    whatever node a hit region, a provider fact or a relation names is a node of
    the snapshot; provider entries are distinct and bound to the snapshot's own
    session and revision; a generic node names its widget; an off-screen node is
    hidden; and a visible rectangle lies inside the intended one and, in viewport
    coordinates, shows at least one cell at non-negative coordinates.  The
    hypothesis is what the schema requires of the viewport. *)
Theorem validated_references_resolve h owned v limits wireBytes s :
  (forall j s', safeParse limits j = Ok s' -> 0 < s_columns s' /\ 0 < s_rows s') ->
  validateSnapshot stringify safeParse h owned v limits wireBytes = Ok s ->
  (forall r, r ∈ references s -> exists a, a ∈ s_nodes s /\ n_id a = r) /\
  NoDup (pe_providerId <$> default [] (s_providerEvidence s)) /\
  (forall p, p ∈ default [] (s_providerEvidence s) ->
     pe_sessionId p = s_sessionId s /\ pe_revision p = s_revision s) /\
  (forall a, a ∈ s_nodes s -> node_claims a s).
Proof.
  intros Hdim H. apply validateSnapshot_Ok in H as (j & _ & Hp & Hc). destruct (Hdim j s Hp) as [Hcol Hrow].
  apply checkSnapshot_forest in Hc as [_ [Hh Hpr Hn _]].
  pose proof (fun a Ha => checkNodeShape_Ok a s (node_ids s) limits ltac:(lia) ltac:(lia) (Hn a Ha)) as Hshape.
  apply providers_Ok in Hpr as [Hnd Hall].
  split_and!; [|done|intros p Hin; by destruct (Hall p Hin) as (_ & ? & ? & _)|intros a Ha; by apply Hshape].
  intros r Hr. enough (r ∈ node_ids s) as Hid.
  { apply elem_of_list_to_set, list_elem_of_fmap in Hid as (a & -> & Ha). eauto. }
  unfold references in Hr. rewrite !elem_of_app, !list_elem_of_join in Hr. destruct Hr as [Hr|[Hr|Hr]].
  - destruct (s_hitGrid s); try by apply elem_of_nil in Hr. eapply recipients_each; [|exact Hh|done].
    intros x Hx. unfold check_hit in Hx. apply bind_unit_Ok in Hx as [Hx _]. by apply known_recipient_Ok.
  - destruct Hr as (l & Hr & (p & -> & Hin)%list_elem_of_fmap). destruct (Hall p Hin) as (_ & _ & _ & Hres). auto.
  - destruct Hr as (l & Hr & (a & -> & Ha)%list_elem_of_fmap). by apply (Hshape a Ha).
Qed.
End Validated.

(** ** A concrete tree *)

Definition sample_geometry : NodeGeometryObservations :=
  {| displayed := unknown stale_revision; intendedRect := unknown stale_revision;
     visibleRect := unknown stale_revision |}.
Definition sample_node (i : string) (p : option string) : SemanticNode :=
  {| n_id := js i; n_parentId := js <$> p; n_role := js "button"; n_name := []; n_description := None;
     n_value := None; n_state := None; n_extended := None; n_actions := None; n_inputRecipes := None;
     n_labelledBy := None; n_describedBy := Some [js "a"]; n_textRanges := None; n_testId := None;
     n_frameworkType := None; n_opaqueChildren := None; n_p := None; n_px := None;
     n_geometry := sample_geometry; n_scroll := None; n_paintedRegion := None |}.
(** The child comes before its parent. *)
Definition sample_nodes : list SemanticNode :=
  [sample_node "c" (Some "b"); sample_node "a" None; sample_node "b" (Some "a")].
Definition sample_byId : gmap jstring SemanticNode :=
  foldl (fun m a => <[n_id a := a]> m) ∅ sample_nodes.
Definition sample_snapshot : SemanticSnapshot :=
  {| s_sessionId := js "s"; s_revision := 1; s_columns := 80; s_rows := 24; s_cursor := None;
     s_rootIds := [js "a"]; s_nodes := sample_nodes; s_coordinateSpace := unknown stale_revision;
     s_hitGrid := unknown stale_revision; s_providerEvidence := None |}.

Lemma computeDepths_exact_witness :
  (exists x a, computeDepths sample_nodes sample_byId = Some (inl x) /\ a ∈ sample_nodes /\ n_id a = x /\
     tc (up sample_nodes) a a) \/
  (exists depths, computeDepths sample_nodes sample_byId = Some (inr depths) /\
     (forall a, a ∈ sample_nodes -> exists d, depths !! n_id a = Some d /\ level sample_nodes a d) /\
     (forall x d, depths !! x = Some d -> exists a, a ∈ sample_nodes /\ n_id a = x /\ level sample_nodes a d)).
Proof.
  apply (computeDepths_exact sample_nodes sample_byId); [vm_compute; reflexivity|].
  intros a p Ha Hp. unfold sample_nodes in Ha. rewrite !elem_of_cons in Ha.
  destruct Ha as [->|[->|[->|Ha]]]; [| | |by apply elem_of_nil in Ha]; cbn in Hp.
  - injection Hp as <-. exists (sample_node "b" (Some "a")). split; [do 2 right; left|reflexivity].
  - discriminate.
  - injection Hp as <-. exists (sample_node "a" None). split; [right; left|reflexivity].
Defined.

Example sample_depths :
  computeDepths sample_nodes sample_byId =
  Some (inr (list_to_map [(js "a", 1); (js "b", 2); (js "c", 3)])).
Proof. vm_compute. reflexivity. Qed.

Example sample_cycle :
  checkSnapshot {| s_sessionId := js "s"; s_revision := 1; s_columns := 80; s_rows := 24; s_cursor := None;
     s_rootIds := [js "a"]; s_nodes := [sample_node "a" None; sample_node "b" (Some "c"); sample_node "c" (Some "b")];
     s_coordinateSpace := unknown stale_revision; s_hitGrid := unknown stale_revision;
     s_providerEvidence := None |} DEFAULT_LIMITS = Err cycle.
Proof. vm_compute. reflexivity. Qed.

Definition sample_parse (limits : ProtocolLimits) (j : json) : result ZodIssue SemanticSnapshot :=
  match j with
  | JBool true => Ok sample_snapshot
  | _ => Err {| zi_path := [js "v"]; zi_code := js "invalid_value"; zi_message := None |}
  end.

Lemma validated_references_resolve_witness :
  references sample_snapshot = [js "a"; js "a"; js "a"] /\
  forall r, r ∈ references sample_snapshot -> exists a, a ∈ s_nodes sample_snapshot /\ n_id a = r.
Proof.
  split; [reflexivity|].
  refine (proj1 (validated_references_resolve (fun _ => []) sample_parse ∅ ∅ (VBool true) DEFAULT_LIMITS None
    sample_snapshot _ _)).
  - intros j s'. destruct j as [|[|]| | | | |]; cbn; try discriminate. intros [= <-]. cbn. lia.
  - vm_compute. reflexivity.
Defined.
