(* ===== verification/SemanticDelta.v ===== *)
(** * Semantic deltas (packages/protocol/src/semantic-state.ts)

    [diffSemanticSnapshots] derives a field-level patch between two committed
    snapshots, [applySemanticDelta] stages an untrusted patch on a committed
    snapshot and lets the full validator judge the result.  Snapshots and nodes
    are plain objects here: their members in order. *)

From S2P Require Import Prelude JsText Dto Limits JsObject Tree Validate.

Local Open Scope Z_scope.

Abbreviation members := (list (jstring * json)).

(** ** Errors *)

Inductive SemanticDeltaErrorCode : Set := invalid (c : ValidationErrorCode) | base_revision.
Record DeltaFailure : Set := { df_code : SemanticDeltaErrorCode; resyncRequired : bool }.
Abbreviation staged_result := (result DeltaFailure).

Definition fail (c : ValidationErrorCode) : DeltaFailure :=
  {| df_code := invalid c; resyncRequired := false |}.

(** ** Field names *)

(** [SEMANTIC_NODE_KEYS]: the keys of the node schema's shape. *)
Definition SEMANTIC_NODE_KEYS : list jstring :=
  js <$> ["id"; "parentId"; "role"; "name"; "description"; "value"; "state"; "extended"; "actions";
          "inputRecipes"; "labelledBy"; "describedBy"; "textRanges"; "testId"; "frameworkType";
          "opaqueChildren"; "p"; "px"; "geometry"; "scroll"; "paintedRegion"]%string.
Definition NODE_FIELDS : list jstring := SEMANTIC_NODE_KEYS.
Definition REQUIRED_NODE_FIELDS : list jstring := [js "role"; js "name"; js "geometry"].
Definition SNAPSHOT_CLEAR_FIELDS : list jstring := [js "cursor"; js "providerEvidence"].
Definition NODE_PATCH_FIELDS : list jstring :=
  List.filter (fun f => negb (bool_decide (f = js "id")))
    (remove_dups (SEMANTIC_NODE_KEYS ++ [js "geometry"])).
Definition SNAPSHOT_FIELDS : list jstring :=
  js <$> ["columns"; "rows"; "cursor"; "rootIds"; "coordinateSpace"; "hitGrid"; "providerEvidence"]%string.

(** ** Values *)

Definition positiveRevision (v : option json) : option Z :=
  match v with
  | Some (JNum n) => match to_safe_integer n with
                     | Some z => if 0 <? z then Some z else None
                     | None => None
                     end
  | _ => None
  end.

(** The first value seen before. *)
Fixpoint duplicate_from (seen : list jstring) (l : list jstring) : option jstring :=
  match l with
  | [] => None
  | x :: l => if bool_decide (x ∈ seen) then Some x else duplicate_from (x :: seen) l
  end.
Definition duplicate (l : list jstring) : option jstring := duplicate_from [] l.

Fixpoint valueEqual (l r : json) : bool :=
  match l, r with
  | JNull, JNull => true
  | JBool a, JBool b => bool_decide (a = b)
  | JNum a, JNum b => bool_decide (a = b)
  | JMinusZero, JMinusZero => true
  | JStr a, JStr b => bool_decide (a = b)
  | JArr a, JArr b =>
      (fix go (a b : list json) : bool :=
         match a, b with
         | [], [] => true
         | x :: a, y :: b => valueEqual x y && go a b
         | _, _ => false
         end) a b
  | JObj a, JObj b =>
      (length a =? length b)%nat &&
      (fix go (a : members) : bool :=
         match a with
         | [] => true
         | (k, x) :: a => match jget b k with Some y => valueEqual x y | None => false end && go a
         end) a
  | _, _ => false
  end.

(** [valueEqual] of two possibly absent members. *)
Definition field_equal (l r : option json) : bool :=
  match l, r with
  | None, None => true
  | Some l, Some r => valueEqual l r
  | _, _ => false
  end.

(** ** Committed snapshots *)

(** What a committed snapshot object holds: [c_fields] are its members other
    than [v], [sessionId], [revision] and [nodes]; a node is its members. *)
Record Committed : Type := {
  c_sessionId : jstring;
  c_revision : Z;
  c_fields : members;
  c_nodes : list (jstring * members);
}.

Definition nodes_json (nodes : list (jstring * members)) : json := JArr ((fun n => JObj (snd n)) <$> nodes).

Definition committed_members (c : Committed) : members :=
  [(js "v", JNum (int 3)); (js "sessionId", JStr (c_sessionId c)); (js "revision", JNum (int (c_revision c)))] ++
  c_fields c ++ [(js "nodes", nodes_json (c_nodes c))].

(** ** Deriving a delta *)

(** The loops over the fields of a node and of the snapshot: what is set to the
    new value, and what is cleared. *)
Definition changed_fields (fields : list jstring) (old new : members) : members :=
  omap (fun f => if field_equal (jget old f) (jget new f) then None
                 else (fun v => (f, v)) <$> jget new f) fields.
Definition cleared_fields (fields : list jstring) (old new : members) : list jstring :=
  List.filter (fun f => negb (field_equal (jget old f) (jget new f)) && negb (jhas new f)) fields.

Definition update_json (i : jstring) (set : members) (clear : list jstring) : json :=
  JObj ([(js "id", JStr i)] ++ (if decide (set = []) then [] else [(js "set", JObj set)]) ++
        (if decide (clear = []) then [] else [(js "clear", JArr (JStr <$> clear))])).

(** The updates, with the ids they are for. *)
Definition node_updates (before after : list (jstring * members)) : list (jstring * json) :=
  omap (fun n => match jget before n.1 with
                 | None => None
                 | Some old =>
                     let set := changed_fields NODE_PATCH_FIELDS old n.2 in
                     let clear := cleared_fields NODE_PATCH_FIELDS old n.2 in
                     if decide (set = [] /\ clear = []) then None else Some (n.1, update_json n.1 set clear)
                 end) after.

Definition added_nodes (before after : list (jstring * members)) : list (jstring * members) :=
  List.filter (fun n => negb (jhas before n.1)) after.
Definition removed_ids (before after : list (jstring * members)) : list jstring :=
  keys (List.filter (fun n => negb (jhas after n.1)) before).

Definition unless_empty {A} (l : list A) (key : string) (v : json) : members :=
  match l with [] => [] | _ => [(js key, v)] end.

(** [None] is a [TypeError]. *)
Definition diffSemanticSnapshots (previous next : Committed) : option members :=
  if negb (bool_decide (c_sessionId previous = c_sessionId next)) then None
  else if c_revision next <=? c_revision previous then None
  else
    let before := c_nodes previous in
    let after := c_nodes next in
    let addNodes := added_nodes before after in
    let updateNodes := node_updates before after in
    let removeNodeIds := removed_ids before after in
    let set := changed_fields SNAPSHOT_FIELDS (c_fields previous) (c_fields next) in
    let clear := cleared_fields SNAPSHOT_FIELDS (c_fields previous) (c_fields next) in
    let snapshot := set ++ unless_empty clear "clear" (JArr (JStr <$> clear)) in
    Some ([(js "v", JNum (int 3)); (js "sessionId", JStr (c_sessionId next));
           (js "revision", JNum (int (c_revision next)));
           (js "baseRevision", JNum (int (c_revision previous)))] ++
          unless_empty addNodes "addNodes" (nodes_json addNodes) ++
          unless_empty updateNodes "updateNodes" (JArr updateNodes.*2) ++
          unless_empty removeNodeIds "removeNodeIds" (JArr (JStr <$> removeNodeIds)) ++
          unless_empty snapshot "snapshot" (JObj snapshot)).

(** ** Applying a delta *)

(** [value ?? fallback] *)
Definition nullish (v : option json) (fallback : json) : json :=
  match v with Some JNull | None => fallback | Some v => v end.

Definition as_array (v : json) : staged_result (list json) :=
  match v with JArr l => Ok l | _ => Err (fail schema) end.

(** [value?.id]; only an object has one. *)
Definition id_member (v : json) : option json :=
  match v with JObj m => jget m (js "id") | _ => None end.

(** A non-empty string. *)
Definition as_id (v : option json) : staged_result jstring :=
  match v with Some (JStr (c :: s)) => Ok (c :: s) | _ => Err (fail schema) end.

Fixpoint ids_of (l : list (option json)) : staged_result (list jstring) :=
  match l with
  | [] => Ok []
  | v :: l => i ← as_id v; rest ← ids_of l; Ok (i :: rest)
  end.

Fixpoint strings (l : list json) : staged_result (list jstring) :=
  match l with
  | [] => Ok []
  | JStr s :: l => rest ← strings l; Ok (s :: rest)
  | _ => Err (fail schema)
  end.

Abbreviation staging := (list (jstring * members)).

Fixpoint remove_nodes (ids : list jstring) (staged : staging) : staged_result staging :=
  match ids with
  | [] => Ok staged
  | i :: ids => if jhas staged i then remove_nodes ids (jdelete staged i) else Err (fail schema)
  end.

Fixpoint add_nodes (nodes : list (jstring * members)) (staged : staging) : staged_result staging :=
  match nodes with
  | [] => Ok staged
  | (i, m) :: nodes =>
      if jhas staged i then Err (fail duplicate_id) else add_nodes nodes (jset staged i m)
  end.

(** The checks of one update and the node it makes. *)
Definition patched (update : members) (previous : members) : staged_result members :=
  _ ← guard_or (forallb (fun k => bool_decide (k ∈ [js "id"; js "set"; js "clear"])) (keys update)) (fail schema);
  let set := nullish (jget update (js "set")) (JObj []) in
  let clear := nullish (jget update (js "clear")) (JArr []) in
  match set, clear with
  | JObj set, JArr clear =>
      _ ← guard_or (negb (bool_decide (set = []) && bool_decide (length clear = 0%nat))) (fail schema);
      clearFields ← strings clear;
      _ ← guard_or (bool_decide (duplicate clearFields = None)) (fail duplicate_id);
      _ ← guard_or (forallb (fun f => bool_decide (f ∈ NODE_FIELDS) && negb (bool_decide (f = js "id")) &&
                                      negb (bool_decide (f ∈ clearFields))) (keys set)) (fail schema);
      _ ← guard_or (forallb (fun f => bool_decide (f ∈ NODE_FIELDS) &&
                                      negb (bool_decide (f ∈ REQUIRED_NODE_FIELDS))) clearFields) (fail schema);
      Ok (foldl jdelete (spread previous set) clearFields)
  | _, _ => Err (fail schema)
  end.

Fixpoint update_nodes (updates : list (jstring * json)) (staged : staging) : staged_result staging :=
  match updates with
  | [] => Ok staged
  | (i, u) :: updates =>
      match jget staged i, u with
      | Some previous, JObj m =>
          next ← patched m previous;
          update_nodes updates (jset staged i next)
      | _, _ => Err (fail schema)
      end
  end.

Definition ALLOWED_TOP : list jstring :=
  js <$> ["v"; "sessionId"; "revision"; "baseRevision"; "addNodes"; "updateNodes"; "removeNodeIds"; "snapshot"]%string.
Definition ALLOWED_SNAPSHOT : list jstring := SNAPSHOT_FIELDS ++ [js "clear"].

(** The snapshot update: the members to set and those to delete. *)
Definition snapshot_update (v : json) : staged_result (members * list jstring) :=
  match v with
  | JObj update =>
      _ ← guard_or (forallb (fun k => bool_decide (k ∈ ALLOWED_SNAPSHOT)) (keys update)) (fail schema);
      clear ← as_array (nullish (jget update (js "clear")) (JArr []));
      clearFields ← strings clear;
      _ ← guard_or (bool_decide (duplicate clearFields = None)) (fail duplicate_id);
      _ ← guard_or (forallb (fun f => bool_decide (f ∈ SNAPSHOT_CLEAR_FIELDS) && negb (jhas update f)) clearFields)
            (fail schema);
      Ok (update, clearFields)
  | _ => Err (fail schema)
  end.

(** What a delta makes of a committed snapshot before validation. *)
Record Staged : Type := {
  g_members : members;
  g_nodes : staging;
  g_changed : list jstring;
}.

Definition objects (l : list json) : list members :=
  omap (fun v => match v with JObj m => Some m | _ => None end) l.

(** The node operations and the snapshot update of a delta with revision
    [revision_] on the snapshot it is based on. *)
Definition stageOperations (c : Committed) (delta : members) (limits : ProtocolLimits) (revision_ : Z) :
    staged_result Staged :=
  addNodes ← as_array (nullish (jget delta (js "addNodes")) (JArr []));
  updateNodes ← as_array (nullish (jget delta (js "updateNodes")) (JArr []));
  removeNodeIds ← as_array (nullish (jget delta (js "removeNodeIds")) (JArr []));
  _ ← guard_or (Z.of_nat (length addNodes + length updateNodes + length removeNodeIds) <=? maxNodes limits)
        (fail count);
  addIds ← ids_of (id_member <$> addNodes);
  updateIds ← ids_of (id_member <$> updateNodes);
  removeIds ← ids_of (Some <$> removeNodeIds);
  _ ← guard_or (bool_decide (duplicate (addIds ++ updateIds ++ removeIds) = None)) (fail duplicate_id);
  staged ← remove_nodes removeIds (c_nodes c);
  staged ← add_nodes (zip addIds (objects addNodes)) staged;
  staged ← update_nodes (zip updateIds updateNodes) staged;
  '(update, clearFields) ← snapshot_update (nullish (jget delta (js "snapshot")) (JObj []));
  let next := spread (committed_members c) update in
  let next := jset (jset (jset next (js "v") (JNum (int 3))) (js "revision") (JNum (int revision_)))
                (js "nodes") (nodes_json staged) in
  Ok {| g_members := foldl jdelete (jdelete next (js "clear")) clearFields;
        g_nodes := staged; g_changed := removeIds ++ addIds ++ updateIds |}.

Definition stageDelta (c : Committed) (delta : members) (limits : ProtocolLimits) : staged_result Staged :=
  _ ← guard_or (forallb (fun k => bool_decide (k ∈ ALLOWED_TOP)) (keys delta)) (fail schema);
  _ ← guard_or match jget delta (js "v") with Some (JNum n) => bool_decide (n = int 3) | _ => false end (fail schema);
  _ ← guard_or match jget delta (js "sessionId") with
               | Some (JStr s) => bool_decide (s = c_sessionId c)
               | _ => false
               end (fail schema);
  match positiveRevision (jget delta (js "revision")), positiveRevision (jget delta (js "baseRevision")) with
  | Some revision_, Some base =>
      if negb (base =? c_revision c) then Err {| df_code := base_revision; resyncRequired := true |}
      else if revision_ <=? c_revision c then Err (fail revision)
      else stageOperations c delta limits revision_
  | _, _ => Err (fail revision)
  end.

Record Applied : Type := {
  a_snapshot : SemanticSnapshot;
  changedNodeIds : list jstring;
  changedNodes : list (jstring * option SemanticNode);
}.

Section Apply.
Context (stringify : json -> jstring).
Context (safeParse : ProtocolLimits -> json -> result ZodIssue SemanticSnapshot).

(** [validateSnapshot(next, limits)] of the staged object.  Only the object, its
    [nodes] array and the nodes that were updated are new; what they hold was
    projected before and is returned as it is, so the depth of the new objects
    is all the projection can refuse. *)
Definition validateStaged (g : Staged) (updated : bool) (limits : ProtocolLimits) : validated SemanticSnapshot :=
  if maxDepth limits <? (if updated then 2 else 1) then Err depth
  else validateTree stringify safeParse (JObj (g_members g)) limits None.

Definition has_updates (delta : members) : bool :=
  match nullish (jget delta (js "updateNodes")) (JArr []) with JArr (_ :: _) => true | _ => false end.

Definition applySemanticDelta (c : Committed) (h : heap) (owned : gmap positive json) (v : value)
    (limits : ProtocolLimits) (wireBytes : option Z) : staged_result (Staged * Applied) :=
  match projectDto h owned v (int (maxDepth limits)) with
  | Err dto_depth => Err (fail depth)
  | Err _ => Err (fail schema)
  | Ok (JObj delta) =>
      let bytes := match wireBytes with Some b => b | None => utf8_length (stringify (JObj delta)) end in
      _ ← guard_or (bytes <=? maxSnapshotBytes limits) (fail bytes_code);
      g ← stageDelta c delta limits;
      match validateStaged g (has_updates delta) limits with
      | Err e => Err (fail e)
      | Ok s =>
          Ok (g, {| a_snapshot := s; changedNodeIds := g_changed g;
                    changedNodes := (fun i => (i, List.find (fun n => bool_decide (n_id n = i)) (s_nodes s)))
                                      <$> g_changed g |})
      end
  | Ok _ => Err (fail schema)
  end.
End Apply.
