(* ===== verification/SameValue.v ===== *)
(** * Equality of plain values (packages/protocol/src/semantic-state.ts)

    [valueEqual] is a recursive comparison with a shortcut by length.  Here it is
    characterised by a relation that says what it means: the same scalars, item by
    item in arrays, and in objects the same keys with the same values, in whatever
    order they were added. *)

From S2P Require Import Prelude JsText Dto JsObject SemanticDelta.

(** ** Induction over values *)

Section JsonInd.
Context (P : json -> Prop).
Hypothesis P_null : P JNull.
Hypothesis P_bool : forall b, P (JBool b).
Hypothesis P_num : forall n, P (JNum n).
Hypothesis P_minus_zero : P JMinusZero.
Hypothesis P_str : forall s, P (JStr s).
Hypothesis P_arr : forall l, Forall P l -> P (JArr l).
Hypothesis P_obj : forall m : members, Forall (fun kv => P kv.2) m -> P (JObj m).

Fixpoint json_induction (j : json) : P j :=
  match j with
  | JNull => P_null
  | JBool b => P_bool b
  | JNum n => P_num n
  | JMinusZero => P_minus_zero
  | JStr s => P_str s
  | JArr l => P_arr l ((fix go (l : list json) : Forall P l := match l with [] => Forall_nil_2 _ | j :: l => Forall_cons_2 _ _ _ (json_induction j) (go l) end) l)
  | JObj m =>
      P_obj m ((fix go (m : members) : Forall (fun kv => P kv.2) m :=
        match m with [] => Forall_nil_2 _ | kv :: m => Forall_cons_2 _ kv m (json_induction kv.2) (go m) end) m)
  end.
End JsonInd.

Lemma jget_Forall (P : json -> Prop) (m : members) k v : Forall (fun kv => P kv.2) m -> jget m k = Some v -> P v.
Proof.
  induction 1 as [|[k' v'] m Hv _ IH]; cbn; [done|]. destruct (decide _); [by intros [= <-]|exact IH].
Qed.

(** ** The relation *)

(** The same value, up to the order in which the members of objects were added. *)
Inductive same_value : json -> json -> Prop :=
| same_null : same_value JNull JNull
| same_bool b : same_value (JBool b) (JBool b)
| same_num n : same_value (JNum n) (JNum n)
| same_minus_zero : same_value JMinusZero JMinusZero
| same_str s : same_value (JStr s) (JStr s)
| same_arr l l' : Forall2 same_value l l' -> same_value (JArr l) (JArr l')
| same_obj m m' :
    (forall k, k ∈ keys m <-> k ∈ keys m') ->
    (forall k v v', jget m k = Some v -> jget m' k = Some v' -> same_value v v') ->
    same_value (JObj m) (JObj m').

Lemma same_value_refl j : same_value j j.
Proof.
  induction j as [| | | | |l IH|m IH] using json_induction; constructor; try done.
  - by apply Forall_Forall2_diag.
  - intros k v v' H H'. assert (v = v') as -> by congruence. by eapply (jget_Forall (fun v => same_value v v)).
Qed.

(** A value of the language: no object has two members of one name. *)
Fixpoint proper_value (j : json) : bool :=
  match j with
  | JArr l => forallb proper_value l
  | JObj m => bool_decide (NoDup (keys m)) && forallb (fun kv => proper_value kv.2) m
  | _ => true
  end.

Lemma proper_member m k v : proper_value (JObj m) = true -> jget m k = Some v -> proper_value v = true.
Proof.
  cbn. rewrite andb_true_iff, forallb_forall. intros [Hn H] Hg. apply bool_decide_eq_true in Hn.
  apply (jget_In _ _ _ Hn), list_elem_of_In in Hg. by apply H in Hg.
Qed.

(** ** [valueEqual] decides it *)

Lemma valueEqual_items l l' :
  Forall (fun x => forall y, proper_value x = true -> proper_value y = true -> valueEqual x y = true <-> same_value x y) l ->
  forallb proper_value l = true -> forallb proper_value l' = true ->
  valueEqual (JArr l) (JArr l') = true <-> Forall2 same_value l l'.
Proof.
  intros IH. revert l'. induction IH as [|x l Hx _ IHl]; intros [|y l'] Hp Hp'.
  - split; [constructor|done].
  - by split; [intros [=]|inversion 1].
  - by split; [intros [=]|inversion 1].
  - cbn in Hp, Hp'. apply andb_true_iff in Hp as [? ?], Hp' as [? ?]. change (valueEqual x y && valueEqual (JArr l) (JArr l') = true <-> Forall2 same_value (x :: l) (y :: l')).
    rewrite andb_true_iff, Forall2_cons, Hx, IHl; done.
Qed.

Lemma valueEqual_members (m m' : members) :
  valueEqual (JObj m) (JObj m') = true <->
  length m = length m' /\ forall k v, (k, v) ∈ m -> exists v', jget m' k = Some v' /\ valueEqual v v' = true.
Proof.
  cbn. rewrite andb_true_iff, Nat.eqb_eq. f_equiv. induction m as [|[k v] m IH].
  { split; [intros _ k v H; by apply elem_of_nil in H|done]. }
  rewrite andb_true_iff, IH. split.
  - intros [Hv H] k' v' [[= -> ->]|Hin]%elem_of_cons; [|by apply H]. destruct (jget m' k); [eauto|done].
  - intros H. split; [|intros k' v' Hin; apply H; by right]. destruct (H k v) as (v' & -> & Hv); [by left|done].
Qed.

Lemma valueEqual_object m m' :
  Forall (fun kv => forall y, proper_value kv.2 = true -> proper_value y = true -> valueEqual kv.2 y = true <-> same_value kv.2 y) m ->
  proper_value (JObj m) = true -> proper_value (JObj m') = true ->
  valueEqual (JObj m) (JObj m') = true <-> same_value (JObj m) (JObj m').
Proof.
  intros IH Hp Hp'. rewrite valueEqual_members.
  assert (NoDup (keys m)) as Hn by (cbn in Hp; by breflect). assert (NoDup (keys m')) as Hn' by (cbn in Hp'; by breflect).
  assert (forall k v v', jget m k = Some v -> jget m' k = Some v' -> valueEqual v v' = true <-> same_value v v') as Heq.
  { intros k v v' H H'. apply (jget_Forall (fun v => forall y, proper_value v = true -> proper_value y = true -> valueEqual v y = true <-> same_value v y) m k v IH H); [by apply (proper_member m k)|by apply (proper_member m' k)]. }
  split.
  - intros [Hl H]. assert (forall k v, jget m k = Some v -> exists v', jget m' k = Some v' /\ valueEqual v v' = true) as Hm.
    { intros k v Hg. apply H, (jget_In _ _ _ Hn), Hg. }
    assert (keys m ⊆ keys m') as Hsub.
    { intros k Hk. destruct (jget m k) eqn:E; [|by apply jget_None in E]. destruct (Hm k _ E) as (v' & Hv & _). by eapply jget_Some_keys. }
    assert (keys m ≡ₚ keys m') as Hperm.
    { apply submseteq_length_Permutation; [by apply NoDup_submseteq|]. unfold keys. rewrite !length_fmap. lia. }
    constructor.
    + intros k. by rewrite Hperm.
    + intros k v v' Hg Hg'. destruct (Hm k v Hg) as (w & Hw & Hv). apply (Heq k); congruence.
  - inversion 1 as [| | | | | |? ? Hk Hs]; subst. split.
    + assert (length (keys m) = length (keys m')) as Hl; [|unfold keys in Hl; by rewrite !length_fmap in Hl].
      apply Permutation_length, NoDup_Permutation; done.
    + intros k v Hin. apply (jget_In _ _ _ Hn) in Hin. destruct (jget m' k) as [v'|] eqn:E.
      * exists v'. split; [done|]. apply (Heq k); eauto.
      * apply jget_None in E. destruct E. apply Hk. by eapply jget_Some_keys.
Qed.

(** [valueEqual] decides whether two values are the same. *)
Theorem valueEqual_iff l r : proper_value l = true -> proper_value r = true -> valueEqual l r = true <-> same_value l r.
Proof.
  revert r. induction l as [|b|n| |s|l IH|m IH] using json_induction; intros r Hl Hr.
  1-5: destruct r; cbn; try (split; [done|by inversion 1]); rewrite ?bool_decide_eq_true; split; [try (intros ->; constructor); try (intros _; constructor)|by inversion 1].
  - destruct r as [| | | | |l'|]; try (split; [done|by inversion 1]). rewrite (valueEqual_items l l' IH Hl Hr). split; [by constructor|by inversion 1].
  - destruct r as [| | | | | |m']; try (split; [done|by inversion 1]). by apply valueEqual_object.
Qed.

(** ** Members that may be absent *)

Definition agree (a b : option json) : Prop :=
  match a, b with Some x, Some y => same_value x y | None, None => True | _, _ => False end.

Lemma agree_eq a b : a = b -> agree a b.
Proof. intros ->. destruct b; [apply same_value_refl|done]. Qed.

(** Members all of which are values of the language. *)
Definition proper_members (m : members) : Prop := forall f v, jget m f = Some v -> proper_value v = true.

Lemma field_equal_agree (m m' : members) f f' :
  proper_members m -> proper_members m' -> field_equal (jget m f) (jget m' f') = true <-> agree (jget m f) (jget m' f').
Proof.
  intros Hm Hm'. destruct (jget m f) as [x|] eqn:E, (jget m' f') as [y|] eqn:E'; try done.
  apply valueEqual_iff; [by apply (Hm f)|by apply (Hm' f')].
Qed.
