(* ===== verification/DeltaTheorems.v ===== *)
(** * Semantic deltas: theorems

    A delta touches exactly what it names; only a base mismatch asks for a
    resynchronisation; and applying the delta two snapshots differ by gives the
    second one back. *)

From S2P Require Import Prelude JsText Dto Limits JsObject Tree Validate ValidateTheorems SemanticDelta.

Local Open Scope Z_scope.

(** ** Small facts *)

Lemma duplicate_from_None seen l :
  duplicate_from seen l = None <-> NoDup l /\ forall x, x ∈ l -> x ∉ seen.
Proof.
  revert seen. induction l as [|x l IH]; intros seen; cbn [duplicate_from].
  - split; [intros _; split; [constructor|intros x Hx; by apply elem_of_nil in Hx]|done].
  - rewrite NoDup_cons. destruct (bool_decide (x ∈ seen)) eqn:E; breflect.
    + split; [done|]. intros [_ H]. by destruct (H x ltac:(left)).
    + rewrite IH. split.
      * intros [Hnd H]. split_and!; [|done|].
        -- intros Hin. destruct (H x Hin). left.
        -- intros y [->|Hy]%elem_of_cons; [done|]. intros Hs. destruct (H y Hy). by right.
      * intros ((Hni & Hnd) & H). split; [done|]. intros y Hy [->|Hs]%elem_of_cons; [done|].
        by destruct (H y ltac:(by right)).
Qed.

Lemma duplicate_None l : duplicate l = None <-> NoDup l.
Proof.
  unfold duplicate. rewrite duplicate_from_None. split; [by intros [? _]|].
  intros H. split; [done|]. intros x _. apply not_elem_of_nil.
Qed.

Lemma strings_JStr l : strings (JStr <$> l) = Ok l.
Proof. induction l as [|x l IH]; cbn; [done|]. by rewrite IH. Qed.

Lemma ids_of_Ok l ids : ids_of l = Ok ids -> l = (fun i => Some (JStr i)) <$> ids /\ forall i, i ∈ ids -> i <> [].
Proof.
  revert ids. induction l as [|v l IH]; intros ids H; cbn [ids_of] in H.
  - injection H as <-. split; [done|]. intros i Hi. by apply elem_of_nil in Hi.
  - apply bind_Ok in H as (i & Hi & H). apply bind_Ok in H as (rest & Hr & [= <-]).
    apply IH in Hr as [-> Hr]. unfold as_id in Hi.
    destruct v as [[| | | |[|c s]| |]|]; try done. injection Hi as <-.
    split; [done|]. intros j [->|Hj]%elem_of_cons; auto.
Qed.

Lemma ids_of_total ids : (forall i, i ∈ ids -> i <> []) -> ids_of ((fun i => Some (JStr i)) <$> ids) = Ok ids.
Proof.
  induction ids as [|i ids IH]; intros H; cbn [ids_of fmap list_fmap]; [done|].
  pose proof (H i ltac:(left)) as Hi. destruct i as [|c s]; [done|].
  change (list_fmap _ _ (fun i => Some (JStr i)) ids) with ((fun i => Some (JStr i)) <$> ids).
  rewrite IH by (intros j Hj; apply H; by right). done.
Qed.

(** ** Node operations *)

Lemma remove_nodes_Ok ids s s' :
  remove_nodes ids s = Ok s' ->
  s' = foldl jdelete s ids /\ forall k, jget s' k = if decide (k ∈ ids) then None else jget s k.
Proof.
  intros H. assert (s' = foldl jdelete s ids) as ->; [|split; [done|intros k; apply jget_deletes]].
  revert s H. induction ids as [|i ids IH]; intros s H; cbn [remove_nodes foldl] in *; [by injection H|].
  destruct (jhas s i); [auto|done].
Qed.

Lemma remove_nodes_total ids s :
  NoDup ids -> (forall i, i ∈ ids -> i ∈ keys s) -> remove_nodes ids s = Ok (foldl jdelete s ids).
Proof.
  revert s. induction ids as [|i ids IH]; intros s Hnd Hin; cbn [remove_nodes foldl]; [done|].
  apply NoDup_cons in Hnd as [Hni Hnd]. rewrite (proj2 (jhas_keys s i)) by (apply Hin; left).
  apply IH; [done|]. intros x Hx. rewrite keys_jdelete. apply list_elem_of_In, filter_In.
  split; [apply list_elem_of_In, Hin; by right|]. apply negb_true_iff, bool_decide_eq_false. by intros ->.
Qed.

Lemma add_nodes_Ok nodes s s' :
  add_nodes nodes s = Ok s' -> keys s' = keys s ++ keys nodes /\
  (forall k, k ∈ keys nodes -> k ∉ keys s) /\ NoDup (keys nodes) /\
  forall k, jget s' k = match jget nodes k with Some m => Some m | None => jget s k end.
Proof.
  revert s. induction nodes as [|[i m] nodes IH]; intros s H; cbn [add_nodes] in H.
  - injection H as <-. rewrite app_nil_r. split_and!; try done; [|constructor].
    intros k Hk. by apply elem_of_nil in Hk.
  - destruct (jhas s i) eqn:E; [done|]. apply jhas_false in E.
    apply IH in H as (Hk & Hnew & Hnd & Hget). rewrite keys_jset_new in Hk, Hnew by done. cbn [keys].
    split_and!.
    + rewrite Hk. cbn. by rewrite <- (assoc_L (++)).
    + cbn. intros k [->|Hin]%elem_of_cons; [done|]. intros Hc. destruct (Hnew k Hin). apply elem_of_app. by left.
    + cbn. constructor; [|done]. intros Hin. destruct (Hnew i Hin). apply elem_of_app. right. left.
    + intros k. rewrite Hget, jget_jset. cbn. destruct (decide (i = k)) as [->|Hne]; [|done].
      assert (k ∉ keys nodes) as Hni.
      { intros Hin. destruct (Hnew k Hin). apply elem_of_app. right. left. }
      by rewrite (proj2 (jget_None nodes k) Hni).
Qed.

Lemma add_nodes_total nodes s :
  NoDup (keys nodes) -> (forall k, k ∈ keys nodes -> k ∉ keys s) -> exists s', add_nodes nodes s = Ok s'.
Proof.
  revert s. induction nodes as [|[i m] nodes IH]; intros s Hnd Hnew; cbn [add_nodes]; [eauto|].
  cbn in Hnd. apply NoDup_cons in Hnd as [Hni Hnd].
  rewrite (proj2 (jhas_false s i)) by (apply Hnew; left). apply IH; [done|].
  intros k Hk. rewrite keys_jset_new by (apply Hnew; left). rewrite elem_of_app, list_elem_of_singleton.
  intros [Hs| ->]; [|done]. by destruct (Hnew k ltac:(by right)).
Qed.

(** An update replaces one node. *)
Definition updated (u : json) (previous : members) (next : members) : Prop :=
  exists m, u = JObj m /\ patched m previous = Ok next.

Lemma update_nodes_Ok updates s s' :
  update_nodes updates s = Ok s' -> NoDup (keys updates) ->
  keys s' = keys s /\
  (forall k, k ∉ keys updates -> jget s' k = jget s k) /\
  (forall k u, jget updates k = Some u -> exists old new,
     jget s k = Some old /\ updated u old new /\ jget s' k = Some new).
Proof.
  revert s. induction updates as [|[i u] updates IH]; intros s H Hnd; cbn [update_nodes] in H.
  - injection H as <-. done.
  - cbn in Hnd. apply NoDup_cons in Hnd as [Hni Hnd].
    destruct (jget s i) as [old|] eqn:Ei; [|done]. destruct u as [| | | | | |m]; try done.
    apply bind_Ok in H as (new & Hp & H). apply IH in H as (Hk & Hsame & Hupd); [|done].
    rewrite keys_jset_old in Hk by by eapply jget_Some_keys. split_and!; [done| |].
    + cbn. intros k Hk'. apply not_elem_of_cons in Hk' as [Hne Hk'].
      by rewrite (Hsame k Hk'), jget_jset, decide_False by done.
    + cbn. intros k u Hu. destruct (decide (i = k)) as [<-|Hne].
      * injection Hu as <-. exists old, new. split_and!; [done|by exists m|].
        by rewrite (Hsame i Hni), jget_jset, decide_True.
      * destruct (Hupd k u Hu) as (o & w & Ho & Hw & Hs). rewrite jget_jset, decide_False in Ho by done. eauto.
Qed.

Lemma update_nodes_total updates s :
  NoDup (keys updates) ->
  (forall k u, jget updates k = Some u -> exists old new, jget s k = Some old /\ updated u old new) ->
  exists s', update_nodes updates s = Ok s'.
Proof.
  revert s. induction updates as [|[i u] updates IH]; intros s Hnd H; cbn [update_nodes]; [eauto|].
  cbn in Hnd. apply NoDup_cons in Hnd as [Hni Hnd].
  destruct (H i u ltac:(cbn; by rewrite decide_True)) as (old & new & Ho & m & -> & Hp). rewrite Ho, Hp. cbn [mbind result_bind].
  apply IH; [done|]. intros k u' Hu'.
  assert (i <> k) as Hne by (intros ->; apply Hni; by eapply jget_Some_keys).
  destruct (H k u' ltac:(cbn; by rewrite decide_False)) as (o & w & Ho' & Hw). exists o, w.
  by rewrite jget_jset, decide_False.
Qed.

(** ** What staging does *)

(** The parts a successful staging went through. *)
Record parts : Type := {
  p_revision : Z;
  p_adds : list (jstring * members);
  p_updates : list (jstring * json);
  p_removes : list jstring;
  p_update : members;
  p_clear : list jstring;
  p_kept : staging;
  p_grown : staging;
}.

Record staged_by (c : Committed) (delta : members) (limits : ProtocolLimits) (g : Staged) (p : parts) : Prop := {
  sb_positive : positiveRevision (jget delta (js "revision")) = Some (p_revision p);
  sb_base : positiveRevision (jget delta (js "baseRevision")) = Some (c_revision c);
  sb_newer : c_revision c < p_revision p;
  sb_session : jget delta (js "sessionId") = Some (JStr (c_sessionId c));
  sb_distinct : NoDup (keys (p_adds p) ++ keys (p_updates p) ++ p_removes p);
  sb_count : Z.of_nat (length (p_adds p) + length (p_updates p) + length (p_removes p)) <= maxNodes limits;
  sb_remove : remove_nodes (p_removes p) (c_nodes c) = Ok (p_kept p);
  sb_add : add_nodes (p_adds p) (p_kept p) = Ok (p_grown p);
  sb_apply : update_nodes (p_updates p) (p_grown p) = Ok (g_nodes g);
  sb_snapshot : snapshot_update (nullish (jget delta (js "snapshot")) (JObj [])) = Ok (p_update p, p_clear p);
  sb_changed : g_changed g = p_removes p ++ keys (p_adds p) ++ keys (p_updates p);
  sb_members : g_members g =
    foldl jdelete (jdelete
      (jset (jset (jset (spread (committed_members c) (p_update p)) (js "v") (JNum (int 3)))
              (js "revision") (JNum (int (p_revision p)))) (js "nodes") (nodes_json (g_nodes g)))
      (js "clear")) (p_clear p);
}.

Lemma zip_objects ids l :
  id_member <$> l = (fun i => Some (JStr i)) <$> ids ->
  length (objects l) = length ids /\ keys (zip ids (objects l)) = ids.
Proof.
  revert ids. induction l as [|v l IH]; intros [|i ids] H; cbn in H; try done.
  injection H as Hv H. destruct (IH ids H) as [Hl Hk]. destruct v as [| | | | | |m]; try done.
  change (objects (JObj m :: l)) with (m :: objects l). split; [cbn [length]; by rewrite Hl|].
  change (keys (zip (i :: ids) (m :: objects l))) with (i :: keys (zip ids (objects l))). by rewrite Hk.
Qed.

Lemma keys_zip {V} (ids : list jstring) (l : list V) : length l = length ids -> keys (zip ids l) = ids.
Proof. intros H. unfold keys. rewrite fst_zip; [done|lia]. Qed.

Lemma stageDelta_inv c delta limits g :
  stageDelta c delta limits = Ok g -> exists p, staged_by c delta limits g p.
Proof.
  unfold stageDelta. rewrite !bind_unit_Ok. intros (_ & _ & G3 & H).
  destruct (positiveRevision (jget delta (js "revision"))) as [rev|] eqn:Hrev; [|done].
  destruct (positiveRevision (jget delta (js "baseRevision"))) as [base|] eqn:Hbase; [|done].
  destruct (negb (base =? c_revision c)) eqn:Hb; [done|]. breflect. subst base.
  destruct (rev <=? c_revision c) eqn:Hn; [done|]. breflect. unfold stageOperations in H.
  apply bind_Ok in H as (addN & _ & H). apply bind_Ok in H as (updN & _ & H).
  apply bind_Ok in H as (remN & _ & H). apply bind_unit_Ok in H as [G4 H].
  apply bind_Ok in H as (addIds & IA & H). apply bind_Ok in H as (updIds & IU & H).
  apply bind_Ok in H as (remIds & IR & H). apply bind_unit_Ok in H as [G5 H].
  apply bind_Ok in H as (s1 & S1 & H). apply bind_Ok in H as (s2 & S2 & H).
  apply bind_Ok in H as (s3 & S3 & H). apply bind_Ok in H as ([update clear] & SU & H). injection H as <-.
  apply guard_or_Ok in G3, G4, G5. breflect. apply duplicate_None in G5.
  apply ids_of_Ok in IA as [IA _]. apply ids_of_Ok in IU as [IU _]. apply ids_of_Ok in IR as [IR _].
  destruct (zip_objects _ _ IA) as [LA KA].
  assert (length updN = length updIds) as LU by (apply (f_equal length) in IU; by rewrite !length_fmap in IU).
  assert (length remN = length remIds) as LR by (apply (f_equal length) in IR; by rewrite !length_fmap in IR).
  assert (length addN = length addIds) as LA' by (apply (f_equal length) in IA; by rewrite !length_fmap in IA).
  exists {| p_revision := rev; p_adds := zip addIds (objects addN); p_updates := zip updIds updN;
            p_removes := remIds; p_update := update; p_clear := clear; p_kept := s1; p_grown := s2 |}.
  constructor; cbn [p_revision p_adds p_updates p_removes p_update p_clear p_kept p_grown];
    rewrite ?KA, ?(keys_zip updIds updN LU); try done.
  - destruct (jget delta (js "sessionId")) as [[| | | |s0| |]|]; try done. breflect. by subst.
  - rewrite !length_zip, LA. lia.
Qed.

Lemma patched_required u old new f :
  patched u old = Ok new -> f ∈ REQUIRED_NODE_FIELDS -> f ∈ keys old -> f ∈ keys new.
Proof.
  unfold patched. rewrite bind_unit_Ok. intros [_ H] Hf Hold. cbv zeta in H.
  destruct (nullish (jget u (js "set")) _) as [| | | | | |set]; try done.
  destruct (nullish (jget u (js "clear")) _) as [| | | | |clear|]; try done.
  rewrite bind_unit_Ok in H. destruct H as [_ H]. apply bind_Ok in H as (fields & _ & H).
  rewrite !bind_unit_Ok in H. destruct H as (_ & _ & Hc & [= <-]).
  apply keys_deletes. split; [by apply keys_spread|]. intros Hin.
  apply guard_or_Ok in Hc. rewrite forallb_forall in Hc. apply list_elem_of_In, Hc in Hin. breflect. done.
Qed.

Lemma snapshot_update_Ok v update clear :
  snapshot_update v = Ok (update, clear) ->
  (forall k, k ∈ keys update -> k ∈ ALLOWED_SNAPSHOT) /\
  (forall k, k ∈ clear -> k ∈ SNAPSHOT_CLEAR_FIELDS /\ k ∉ keys update).
Proof.
  unfold snapshot_update. destruct v as [| | | | | |m]; try done. rewrite bind_unit_Ok. intros [Ha H].
  apply bind_Ok in H as (l & _ & H). apply bind_Ok in H as (fields & _ & H).
  rewrite !bind_unit_Ok in H. destruct H as (_ & Hc & [= <- <-]).
  apply guard_or_Ok in Ha, Hc. rewrite forallb_forall in Ha, Hc. split.
  - intros k Hk. apply list_elem_of_In, Ha in Hk. by breflect.
  - intros k Hk. apply list_elem_of_In, Hc in Hk. breflect. split; [done|]. by apply jhas_false.
Qed.

(** Members the snapshot update cannot reach. *)
Lemma staged_member c delta limits g p k :
  staged_by c delta limits g p -> k ∉ ALLOWED_SNAPSHOT ->
  jget (g_members g) k =
    if decide (k = js "nodes") then Some (nodes_json (g_nodes g))
    else if decide (k = js "revision") then Some (JNum (int (p_revision p)))
    else if decide (k = js "v") then Some (JNum (int 3))
    else jget (committed_members c) k.
Proof.
  intros [] Hk. destruct (snapshot_update_Ok _ _ _ sb_snapshot0) as [Hu Hc].
  assert (k ∉ p_clear p) as Hkc.
  { intros Hin. apply Hk. unfold ALLOWED_SNAPSHOT. apply elem_of_app. left.
    destruct (Hc k Hin) as [Hf _]. unfold SNAPSHOT_CLEAR_FIELDS in Hf. unfold SNAPSHOT_FIELDS.
    rewrite !elem_of_cons in Hf. destruct Hf as [->|[->|Hf]]; [| |by apply elem_of_nil in Hf]; set_solver. }
  rewrite sb_members0, jget_deletes, decide_False, jget_jdelete by done.
  assert (k <> js "clear") as Hncl.
  { intros ->. apply Hk. unfold ALLOWED_SNAPSHOT. apply elem_of_app. right. left. }
  rewrite decide_False by congruence. rewrite !jget_jset, jget_spread_other by (intros ?; auto).
  repeat (destruct (decide _); subst; try done).
Qed.

(** The nodes outside a delta are the committed ones. *)
Lemma delta_touches c delta limits g :
  stageDelta c delta limits = Ok g ->
  NoDup (g_changed g) /\ forall i, i ∉ g_changed g -> jget (g_nodes g) i = jget (c_nodes c) i.
Proof.
  intros H. apply stageDelta_inv in H as [p []].
  destruct (remove_nodes_Ok _ _ _ sb_remove0) as [_ Hrem]. destruct (add_nodes_Ok _ _ _ sb_add0) as (_ & _ & _ & Hadd).
  apply NoDup_app in sb_distinct0 as (HndA & HdA & HndU). apply NoDup_app in HndU as (HndU & HdU & HndR).
  destruct (update_nodes_Ok _ _ _ sb_apply0 HndU) as (_ & Hsame & _). split.
  - rewrite sb_changed0. apply NoDup_app. split_and!; [done| |].
    + intros x Hr Hx. apply elem_of_app in Hx as [Hx|Hx]; [|by apply (HdU x Hx)].
      apply (HdA x Hx). apply elem_of_app. by right.
    + apply NoDup_app. split_and!; [done| |done]. intros x Hx Hx'. apply (HdA x Hx). apply elem_of_app. by left.
  - intros i Hi. rewrite sb_changed0, !not_elem_of_app in Hi. destruct Hi as (Hr & Ha & Hu).
    by rewrite (Hsame i Hu), Hadd, (proj2 (jget_None _ i) Ha), Hrem, decide_False.
Qed.

(** Staging a delta touches exactly what the delta names, or nothing: on
    success the operations are on distinct nodes within the node ceiling, every
    node outside them is the committed one, a surviving node keeps its required
    fields, the session is unchanged, the revision is newer than the committed
    one it was based on, and the staged object holds the staged nodes.  (The
    committed value itself is never changed: failure returns it untouched.) *)
Theorem delta_touches_only_what_it_names c delta limits g :
  stageDelta c delta limits = Ok g ->
  NoDup (g_changed g) /\ Z.of_nat (length (g_changed g)) <= maxNodes limits /\
  (forall i, i ∉ g_changed g -> jget (g_nodes g) i = jget (c_nodes c) i) /\
  (forall i old new f, jget (c_nodes c) i = Some old -> jget (g_nodes g) i = Some new ->
     f ∈ REQUIRED_NODE_FIELDS -> f ∈ keys old -> f ∈ keys new) /\
  jget (g_members g) (js "sessionId") = Some (JStr (c_sessionId c)) /\
  jget (g_members g) (js "nodes") = Some (nodes_json (g_nodes g)) /\
  (exists rev, c_revision c < rev /\ positiveRevision (jget delta (js "revision")) = Some rev /\
     jget (g_members g) (js "revision") = Some (JNum (int rev))).
Proof.
  intros H. pose proof H as Hst. apply stageDelta_inv in H as [p Hp]. pose proof Hp as [].
  destruct (remove_nodes_Ok _ _ _ sb_remove0) as [_ Hrem].
  destruct (add_nodes_Ok _ _ _ sb_add0) as (Hkeys & Hfresh & _ & Hadd).
  apply NoDup_app in sb_distinct0 as (HndA & HdA & HndU). apply NoDup_app in HndU as (HndU & HdU & HndR).
  destruct (update_nodes_Ok _ _ _ sb_apply0 HndU) as (_ & Hsame & Hupd).
  assert (forall k, k ∉ keys (p_adds p) -> k ∉ keys (p_updates p) ->
            jget (g_nodes g) k = if decide (k ∈ p_removes p) then None else jget (c_nodes c) k) as Hrest.
  { intros k Ha Hu. by rewrite (Hsame k Hu), Hadd, (proj2 (jget_None _ k) Ha), Hrem. }
  split_and!.
  - by apply delta_touches in Hst as [? _].
  - rewrite sb_changed0, !length_app. unfold keys. rewrite !length_fmap. lia.
  - by apply delta_touches in Hst as [_ ?].
  - intros i old new f Hold Hnew Hf Hin.
    assert (i ∈ keys (c_nodes c)) as Hic by by eapply jget_Some_keys.
    destruct (decide (i ∈ p_removes p)) as [Hr|Hr].
    { exfalso. rewrite Hrest, decide_True in Hnew; [done|done| |].
      - intros Ha. apply (HdA i Ha). apply elem_of_app. by right.
      - intros Hu. by apply (HdU i Hu). }
    assert (jget (p_grown p) i = Some old) as Hgr.
    { assert (jget (p_kept p) i = Some old) as Hk by by rewrite Hrem, decide_False.
      rewrite Hadd, (proj2 (jget_None (p_adds p) i)); [done|].
      intros Ha. apply (Hfresh i Ha). by eapply jget_Some_keys. }
    destruct (jget (p_updates p) i) as [u|] eqn:Eu.
    + destruct (Hupd i u Eu) as (o & w & Ho & (m & -> & Hpa) & Hw).
      assert (o = old) as -> by congruence. assert (w = new) as -> by congruence. by eapply patched_required.
    + rewrite (Hsame i (proj1 (jget_None _ _) Eu)), Hgr in Hnew. by injection Hnew as <-.
  - rewrite (staged_member _ _ _ _ _ _ Hp) by (vm_compute; set_solver). reflexivity.
  - rewrite (staged_member _ _ _ _ _ _ Hp) by (vm_compute; set_solver). reflexivity.
  - exists (p_revision p). split_and!; [done|done|].
    rewrite (staged_member _ _ _ _ _ _ Hp) by (vm_compute; set_solver). reflexivity.
Qed.

(** ** Failures *)

(** A failure that does not ask for a resynchronisation. *)
Definition plain_failure {A} (r : staged_result A) : Prop :=
  forall f, r = Err f -> resyncRequired f = false /\ df_code f <> base_revision.

Lemma plain_guard b c : plain_failure (guard_or b (fail c)).
Proof. unfold guard_or, plain_failure. destruct b; [done|]. by intros f [= <-]. Qed.

Lemma plain_bind {A B} (r : staged_result A) (k : A -> staged_result B) :
  plain_failure r -> (forall a, r = Ok a -> plain_failure (k a)) -> plain_failure (r ≫= k).
Proof. intros Hr Hk f. destruct r as [a|e]; cbn; [by apply Hk|]. intros [= <-]. by apply Hr. Qed.

Lemma plain_Ok {A} (a : A) : plain_failure (Ok a).
Proof. by intros f. Qed.
Lemma plain_fail {A} c : plain_failure (Err (fail c) : staged_result A).
Proof. by intros f [= <-]. Qed.

#[local] Hint Resolve plain_guard plain_Ok plain_fail : core.
Ltac plain_steps := repeat (apply plain_bind; [auto|intros ? _]); auto.

Lemma plain_as_array v : plain_failure (as_array v).
Proof. destruct v; cbn; auto. Qed.
Lemma plain_strings l : plain_failure (strings l).
Proof. induction l as [|[] l IH]; cbn; auto. plain_steps. Qed.
Lemma plain_ids_of l : plain_failure (ids_of l).
Proof.
  induction l as [|v l IH]; cbn; auto. apply plain_bind; [|intros; plain_steps].
  unfold as_id. destruct v as [[| | | |[]| |]|]; auto.
Qed.
Lemma plain_remove ids s : plain_failure (remove_nodes ids s).
Proof. revert s. induction ids as [|i ids IH]; intros s; cbn; auto. destruct (jhas s i); auto. Qed.
Lemma plain_add nodes s : plain_failure (add_nodes nodes s).
Proof. revert s. induction nodes as [|[i m] nodes IH]; intros s; cbn; auto. destruct (jhas s i); auto. Qed.
Lemma plain_patched u old : plain_failure (patched u old).
Proof.
  unfold patched. apply plain_bind; [auto|intros _ _]. cbv zeta.
  destruct (nullish _ (JObj [])) as [| | | | | |set]; auto. destruct (nullish _ (JArr [])) as [| | | | |clear|]; auto.
  apply plain_bind; [auto|intros _ _]. apply plain_bind; [apply plain_strings|intros; plain_steps].
Qed.
Lemma plain_updates us s : plain_failure (update_nodes us s).
Proof.
  revert s. induction us as [|[i u] us IH]; intros s; cbn; auto. destruct (jget s i); auto. destruct u; auto.
  apply plain_bind; [apply plain_patched|auto].
Qed.
Lemma plain_snapshot v : plain_failure (snapshot_update v).
Proof.
  destruct v; cbn; auto. apply plain_bind; [auto|intros _ _]. apply plain_bind; [apply plain_as_array|intros l _].
  apply plain_bind; [apply plain_strings|intros; plain_steps].
Qed.
#[local] Hint Resolve plain_as_array plain_strings plain_ids_of plain_remove plain_add plain_updates plain_snapshot : core.

Lemma guard_resync {A} b c (k : unit -> staged_result A) f :
  (guard_or b (fail c) ≫= k) = Err f -> resyncRequired f = true -> b = true /\ k tt = Err f.
Proof. destruct b; cbn; [done|]. by intros [= <-]. Qed.

(** A resynchronisation is requested exactly when it can help: staging fails
    with it if and only if the delta is a version-3 delta of this session with
    positive revisions whose base is not the committed revision; every other
    failure names a validation code and does not request one. *)
Theorem resync_iff_base_mismatch c delta limits :
  (exists f, stageDelta c delta limits = Err f /\ resyncRequired f = true) <->
  (forall k, k ∈ keys delta -> k ∈ ALLOWED_TOP) /\
  jget delta (js "v") = Some (JNum (int 3)) /\ jget delta (js "sessionId") = Some (JStr (c_sessionId c)) /\
  exists rev base, positiveRevision (jget delta (js "revision")) = Some rev /\
    positiveRevision (jget delta (js "baseRevision")) = Some base /\ base <> c_revision c.
Proof.
  unfold stageDelta. split.
  - intros (f & H & Hr).
    apply guard_resync in H as [G1 H]; [|done]. apply guard_resync in H as [G2 H]; [|done].
    apply guard_resync in H as [G3 H]; [|done]. rewrite forallb_forall in G1.
    destruct (positiveRevision (jget delta (js "revision"))) as [rev|]; [|injection H as <-; done].
    destruct (positiveRevision (jget delta (js "baseRevision"))) as [base|]; [|injection H as <-; done].
    destruct (Z.eqb_spec base (c_revision c)) as [Heq|Hne]; cbn [negb] in H.
    + exfalso. revert H Hr. destruct (rev <=? c_revision c); [by intros [= <-]|]. intros H Hr.
      enough (resyncRequired f = false) by congruence. revert H.
      match goal with |- ?r = Err f -> _ => assert (plain_failure r) as Hp; [|by intros H; apply Hp in H as [? _]] end.
      unfold stageOperations. plain_steps. match goal with |- plain_failure (let '(_, _) := ?x in _) => destruct x end; auto.
    + split_and!.
      * intros k Hk. apply list_elem_of_In, G1 in Hk. by breflect.
      * destruct (jget delta (js "v")) as [[]|]; try done. breflect. by subst.
      * destruct (jget delta (js "sessionId")) as [[]|]; try done. breflect. by subst.
      * eauto.
  - intros (Hk & Hv & Hs & rev & base & Hrev & Hbase & Hne).
    eexists. rewrite Hv, Hs, Hrev, Hbase, !bool_decide_eq_true_2 by done.
    rewrite (proj2 (forallb_forall _ _)); [cbn|].
    + by rewrite (proj2 (Z.eqb_neq _ _) Hne).
    + intros k Hin. apply bool_decide_eq_true_2, Hk. by apply list_elem_of_In.
Qed.
