(* ===== verification/DeltaRoundTrip.v ===== *)
(** * Semantic deltas: round trip

    Applying the delta derived from two committed snapshots to the first gives a
    snapshot that agrees with the second. *)

From S2P Require Import Prelude JsText Dto Limits JsObject Tree Validate ValidateTheorems SemanticDelta SameValue DeltaTheorems.

Local Open Scope Z_scope.

(** ** Agreement *)

(** Two nodes agree when each field has the same value in both. *)
Definition nodes_agree (a b : members) : Prop := forall f, agree (jget a f) (jget b f).

(** ** Well-shaped snapshots *)

(** What validation guarantees of the objects of a committed snapshot. *)
Record shaped_node (i : jstring) (m : members) : Prop := {
  sn_nonempty : i <> [];
  sn_id : jget m (js "id") = Some (JStr i);
  sn_fields f : f ∈ keys m -> f ∈ NODE_FIELDS;
  sn_required f : f ∈ REQUIRED_NODE_FIELDS -> f ∈ keys m;
  sn_proper : proper_members m;
}.

Record shaped (c : Committed) : Prop := {
  sh_revision : 0 < c_revision c <= max_safe;
  sh_ids : NoDup (keys (c_nodes c));
  sh_node i m : jget (c_nodes c) i = Some m -> shaped_node i m;
  sh_fields f : f ∈ keys (c_fields c) -> f ∈ SNAPSHOT_FIELDS;
  sh_required f : f ∈ SNAPSHOT_FIELDS -> f ∉ SNAPSHOT_CLEAR_FIELDS -> f ∈ keys (c_fields c);
  sh_proper : proper_members (c_fields c);
}.

(** ** Changed and cleared fields *)

Lemma changed_get fields old new k :
  NoDup fields ->
  jget (changed_fields fields old new) k =
    if decide (k ∈ fields) then
      if field_equal (jget old k) (jget new k) then None else jget new k
    else None.
Proof.
  unfold changed_fields. induction fields as [|f fields IH]; intros Hnd.
  { by rewrite decide_False by apply not_elem_of_nil. }
  apply NoDup_cons in Hnd as [Hni Hnd]. specialize (IH Hnd). cbn [omap list_omap].
  destruct (decide (k = f)) as [->|Hne].
  - rewrite decide_True by left. rewrite decide_False in IH by done.
    destruct (field_equal (jget old f) (jget new f)); [exact IH|].
    destruct (jget new f); cbn [fmap option_fmap option_map jget]; [|exact IH]. by rewrite decide_True.
  - rewrite (decide_ext (k ∈ f :: fields) (k ∈ fields)) by (rewrite elem_of_cons; naive_solver).
    rewrite <- IH. destruct (field_equal (jget old f) (jget new f)); [done|].
    destruct (jget new f); cbn [fmap option_fmap option_map jget]; [|done]. by rewrite decide_False by congruence.
Qed.

Lemma changed_keys fields old new k : k ∈ keys (changed_fields fields old new) -> k ∈ fields /\ jget new k <> None.
Proof.
  unfold keys, changed_fields. intros ([k' v] & -> & H)%list_elem_of_fmap. apply list_elem_of_omap in H as (f & Hf & H).
  destruct (field_equal _ _); [done|]. destruct (jget new f) eqn:E; [|done]. injection H as <- <-. cbn. by rewrite E.
Qed.

Lemma changed_NoDup fields old new : NoDup fields -> NoDup (keys (changed_fields fields old new)).
Proof.
  induction fields as [|f fields IH]; intros Hnd; [constructor|]. apply NoDup_cons in Hnd as [Hni Hnd].
  specialize (IH Hnd). unfold changed_fields in *. cbn [omap list_omap].
  destruct (field_equal (jget old f) (jget new f)); [done|]. destruct (jget new f); [|done]. cbn [fmap option_fmap option_map].
  apply NoDup_cons. split; [|done]. intros Hin. by apply changed_keys in Hin as [? _].
Qed.

Lemma cleared_elem fields old new k :
  k ∈ cleared_fields fields old new <-> k ∈ fields /\ field_equal (jget old k) (jget new k) = false /\ jget new k = None.
Proof.
  unfold cleared_fields. rewrite list_elem_of_In, filter_In, <- list_elem_of_In, andb_true_iff, !negb_true_iff, jhas_false.
  by rewrite jget_None.
Qed.

Lemma cleared_NoDup fields old new : NoDup fields -> NoDup (cleared_fields fields old new).
Proof. intros H. apply NoDup_ListNoDup, List.NoDup_filter. by apply NoDup_ListNoDup. Qed.

(** Setting what changed and deleting what was cleared leaves members that
    agree with the new ones. *)
Lemma change_agrees fields old new f :
  NoDup fields -> proper_members old -> proper_members new -> (f ∉ fields -> agree (jget old f) (jget new f)) ->
  agree (jget (foldl jdelete (spread old (changed_fields fields old new)) (cleared_fields fields old new)) f)
        (jget new f).
Proof.
  intros Hnd Po Pn Hout. rewrite jget_deletes, jget_spread, changed_get by auto using changed_NoDup.
  destruct (decide (f ∈ fields)) as [Hf|Hf].
  - destruct (field_equal (jget old f) (jget new f)) eqn:E.
    + rewrite decide_False by (intros (? & ? & ?)%cleared_elem; congruence). by apply field_equal_agree.
    + destruct (jget new f) eqn:En.
      * rewrite decide_False by (intros (? & ? & ?)%cleared_elem; congruence). by apply agree_eq.
      * rewrite decide_True; [done|]. apply cleared_elem. by rewrite En.
  - rewrite decide_False by (intros (? & ? & ?)%cleared_elem; congruence). auto.
Qed.

(** ** One node *)

Lemma node_patch_fields f : f ∈ NODE_PATCH_FIELDS <-> f ∈ NODE_FIELDS /\ f <> js "id".
Proof.
  split.
  - intros Hf. assert (forallb (fun f => bool_decide (f ∈ NODE_FIELDS /\ f <> js "id")) NODE_PATCH_FIELDS = true) as H
      by by vm_compute.
    rewrite forallb_forall in H. by apply list_elem_of_In, H, bool_decide_eq_true in Hf.
  - intros [Hf Hid]. assert (forallb (fun f => bool_decide (f ∈ js "id" :: NODE_PATCH_FIELDS)) NODE_FIELDS = true) as H
      by by vm_compute.
    rewrite forallb_forall in H. apply list_elem_of_In, H, bool_decide_eq_true in Hf. by apply elem_of_cons in Hf as [?|?].
Qed.

Lemma NODE_PATCH_NoDup : NoDup NODE_PATCH_FIELDS.
Proof. apply (bool_decide_eq_true_1 _). by vm_compute. Qed.
Lemma SNAPSHOT_NoDup : NoDup SNAPSHOT_FIELDS.
Proof. apply (bool_decide_eq_true_1 _). by vm_compute. Qed.
#[local] Hint Resolve NODE_PATCH_NoDup SNAPSHOT_NoDup : core.
#[local] Opaque NODE_PATCH_FIELDS NODE_FIELDS.

Lemma node_outside i old new f :
  shaped_node i old -> shaped_node i new -> f ∉ NODE_PATCH_FIELDS -> agree (jget old f) (jget new f).
Proof.
  intros Ho Hn Hf. apply agree_eq. destruct (decide (f = js "id")) as [->|Hid]; [by rewrite (sn_id _ _ Ho), (sn_id _ _ Hn)|].
  rewrite node_patch_fields in Hf.
  rewrite (proj2 (jget_None old f)), (proj2 (jget_None new f)); [done| |]; intros Hk; apply Hf; split; eauto using sn_fields.
Qed.

Definition update_members (i : jstring) (set : members) (clear : list jstring) : members :=
  [(js "id", JStr i)] ++ (if decide (set = []) then [] else [(js "set", JObj set)]) ++
  (if decide (clear = []) then [] else [(js "clear", JArr (JStr <$> clear))]).

Lemma update_members_parts i set clear :
  forallb (fun k => bool_decide (k ∈ [js "id"; js "set"; js "clear"])) (keys (update_members i set clear)) = true /\
  nullish (jget (update_members i set clear) (js "set")) (JObj []) = JObj set /\
  nullish (jget (update_members i set clear) (js "clear")) (JArr []) = JArr (JStr <$> clear).
Proof.
  unfold update_members. destruct (decide (set = [])) as [->|], (decide (clear = [])) as [->|]; split_and!; reflexivity.
Qed.

Lemma guard_pass {E A} b (e : E) (k : unit -> result E A) : b = true -> (guard_or b e ≫= k) = k tt.
Proof. by intros ->. Qed.
Lemma bind_pass {E A B} (r : result E A) a (k : A -> result E B) : r = Ok a -> (r ≫= k) = k a.
Proof. by intros ->. Qed.

Lemma patched_total i set clear old :
  ~ (set = [] /\ clear = []) -> NoDup clear ->
  (forall f, f ∈ keys set -> f ∈ NODE_FIELDS /\ f <> js "id" /\ f ∉ clear) ->
  (forall f, f ∈ clear -> f ∈ NODE_FIELDS /\ f ∉ REQUIRED_NODE_FIELDS) ->
  patched (update_members i set clear) old = Ok (foldl jdelete (spread old set) clear).
Proof.
  intros Hne Hnd Hset Hclear. destruct (update_members_parts i set clear) as (Hk & Hs & Hc).
  unfold patched. rewrite (guard_pass _ _ _ Hk). cbv zeta. rewrite Hs, Hc.
  rewrite guard_pass.
  2:{ rewrite length_fmap. apply negb_true_iff, andb_false_iff.
      destruct (decide (set = [])) as [E|]; [right|left; by apply bool_decide_eq_false].
      apply bool_decide_eq_false. intros L%length_zero_iff_nil. by apply Hne. }
  rewrite (bind_pass _ _ _ (strings_JStr clear)). rewrite guard_pass by by apply bool_decide_eq_true, duplicate_None.
  rewrite guard_pass, guard_pass; [reflexivity| |].
  - apply forallb_forall. intros f Hf%list_elem_of_In. destruct (Hclear f Hf) as [H1 H2].
    by rewrite (bool_decide_eq_true_2 _ H1), (bool_decide_eq_false_2 _ H2).
  - apply forallb_forall. intros f Hf%list_elem_of_In. destruct (Hset f Hf) as (H1 & H2 & H3).
    by rewrite (bool_decide_eq_true_2 _ H1), (bool_decide_eq_false_2 _ H2), (bool_decide_eq_false_2 _ H3).
Qed.

(** The update of one node is accepted and makes the new node. *)
Lemma node_round_trip i old new :
  shaped_node i old -> shaped_node i new ->
  ~ (changed_fields NODE_PATCH_FIELDS old new = [] /\ cleared_fields NODE_PATCH_FIELDS old new = []) ->
  exists next, nodes_agree next new /\
    patched (update_members i (changed_fields NODE_PATCH_FIELDS old new)
               (cleared_fields NODE_PATCH_FIELDS old new)) old = Ok next.
Proof.
  intros Ho Hn Hne. eexists. split; [|apply patched_total; [done| | |]].
  - intros f. apply change_agrees; [auto|by eapply sn_proper..|]. intros Hf. by apply (node_outside i).
  - apply cleared_NoDup; auto.
  - intros f Hf. apply changed_keys in Hf as (Hf & Hsome). apply node_patch_fields in Hf as [Hf Hid].
    split; [done|]. split; [done|]. intros Hc. by apply cleared_elem in Hc as (_ & _ & ?).
  - intros f Hf. apply cleared_elem in Hf as (Hf & _ & Hnone). apply node_patch_fields in Hf as [Hf Hid].
    split; [done|]. intros Hr. apply (sn_required _ _ Hn) in Hr. by apply jget_None in Hnone.
Qed.

(** ** All nodes *)

Lemma added_get B A k : jget (added_nodes B A) k = if decide (k ∈ keys B) then None else jget A k.
Proof.
  unfold added_nodes. rewrite (jget_filter (fun k => negb (jhas B k))).
  destruct (decide (k ∈ keys B)) as [H|H]; [by rewrite (proj2 (jhas_keys B k) H)|by rewrite (proj2 (jhas_false B k) H)].
Qed.

Lemma added_keys B A k : k ∈ keys (added_nodes B A) <-> k ∈ keys A /\ k ∉ keys B.
Proof.
  unfold added_nodes. rewrite (keys_filter (fun k => negb (jhas B k))), list_elem_of_In, filter_In, <- list_elem_of_In.
  by rewrite negb_true_iff, jhas_false.
Qed.

Lemma removed_elem B A k : k ∈ removed_ids B A <-> k ∈ keys B /\ k ∉ keys A.
Proof. unfold removed_ids. apply (added_keys A B k). Qed.

Lemma added_NoDup B A : NoDup (keys A) -> NoDup (keys (added_nodes B A)).
Proof.
  intros H. unfold added_nodes. rewrite (keys_filter (fun k => negb (jhas B k))).
  apply NoDup_ListNoDup, List.NoDup_filter. by apply NoDup_ListNoDup.
Qed.

Lemma updates_keys B A k : k ∈ keys (node_updates B A) -> k ∈ keys A /\ k ∈ keys B.
Proof.
  unfold keys at 1, node_updates. intros ([k' u] & -> & H)%list_elem_of_fmap.
  apply list_elem_of_omap in H as ([i new] & Hin & H). cbn [fst snd] in *.
  destruct (jget B i) as [old|] eqn:E; [|done]. destruct (decide _); [discriminate H|]. apply (inj Some) in H. apply (f_equal fst) in H. cbn in H. subst k'. cbn.
  split; [by apply (list_elem_of_fmap_2 fst) in Hin|by eapply jget_Some_keys].
Qed.

Lemma updates_NoDup B A : NoDup (keys A) -> NoDup (keys (node_updates B A)).
Proof.
  induction A as [|[i new] A IH]; intros Hnd; [constructor|]. cbn in Hnd. apply NoDup_cons in Hnd as [Hni Hnd].
  specialize (IH Hnd). unfold node_updates in *. cbn [omap list_omap fst snd]. destruct (jget B i); [|done].
  destruct (decide _); [done|]. apply NoDup_cons. split; [|done]. intros Hin.
  by apply updates_keys in Hin as [? _].
Qed.

Lemma updates_get B A k new :
  NoDup (keys A) -> jget A k = Some new ->
  jget (node_updates B A) k =
    match jget B k with
    | None => None
    | Some old =>
        let set := changed_fields NODE_PATCH_FIELDS old new in
        let clear := cleared_fields NODE_PATCH_FIELDS old new in
        if decide (set = [] /\ clear = []) then None else Some (update_json k set clear)
    end.
Proof.
  induction A as [|[i w] A IH]; intros Hnd Hk; [done|]. cbn in Hnd. apply NoDup_cons in Hnd as [Hni Hnd].
  unfold node_updates in *. cbn [omap list_omap fst snd]. cbn [jget] in Hk.
  destruct (decide (i = k)) as [->|Hne].
  - injection Hk as ->. assert (jget (node_updates B A) k = None) as Hnone.
    { apply jget_None. intros Hin. by apply updates_keys in Hin as [? _]. }
    destruct (jget B k); [|done]. cbv zeta. destruct (decide _); [done|]. cbn [jget]. by rewrite decide_True.
  - specialize (IH Hnd Hk). destruct (jget B i); [|done]. cbv zeta.
    match goal with |- context [decide (?a = [] /\ ?b = [])] => destruct (decide (a = [] /\ b = [])) end; [done|].
    cbn [jget]. by rewrite decide_False.
Qed.

(** Nodes with nothing to set or clear agree already. *)
Lemma unchanged_agrees i old new :
  shaped_node i old -> shaped_node i new ->
  changed_fields NODE_PATCH_FIELDS old new = [] -> cleared_fields NODE_PATCH_FIELDS old new = [] ->
  nodes_agree old new.
Proof.
  intros Ho Hn Hs Hc f. pose proof (change_agrees NODE_PATCH_FIELDS old new f) as H. rewrite Hs, Hc in H.
  apply H; [auto|by eapply sn_proper..|]. intros Hf. by apply (node_outside i).
Qed.

Section Nodes.
Context (B A : list (jstring * members)).
Hypothesis NB : NoDup (keys B).
Hypothesis NA : NoDup (keys A).
Hypothesis SB : forall i m, jget B i = Some m -> shaped_node i m.
Hypothesis SA : forall i m, jget A i = Some m -> shaped_node i m.

Lemma removed_NoDup : NoDup (removed_ids B A).
Proof. unfold removed_ids. by apply (added_NoDup A B). Qed.

(** Removing and adding leaves the old nodes that stay and the new ones. *)
Lemma grown_total :
  exists kept grown, remove_nodes (removed_ids B A) B = Ok kept /\ add_nodes (added_nodes B A) kept = Ok grown /\
    keys grown ≡ₚ keys A /\
    forall i new, jget A i = Some new ->
      jget grown i = match jget B i with Some old => Some old | None => Some new end.
Proof.
  pose proof (remove_nodes_total (removed_ids B A) B removed_NoDup) as Hr.
  assert (forall i, i ∈ removed_ids B A -> i ∈ keys B) as Hin by (intros i Hi; by apply removed_elem in Hi as [? _]).
  specialize (Hr Hin). set (kept := foldl jdelete B (removed_ids B A)) in *.
  assert (forall k, k ∈ keys kept <-> k ∈ keys B /\ k ∈ keys A) as Hkept.
  { intros k. unfold kept. rewrite keys_deletes, removed_elem. destruct (decide (k ∈ keys A)); naive_solver. }
  destruct (add_nodes_total (added_nodes B A) kept) as [grown Hg].
  { by apply added_NoDup. }
  { intros k Hk Hk'. apply added_keys in Hk as [_ Hk]. by apply Hkept in Hk' as [? _]. }
  exists kept, grown. split; [done|]. split; [done|].
  destruct (add_nodes_Ok _ _ _ Hg) as (Hkeys & Hfresh & Hnd & Hget). split.
  - apply NoDup_Permutation; [|done|].
    + rewrite Hkeys. apply NoDup_app. split; [by apply NoDup_deletes|]. split; [|done].
      intros k Hk Hk'. by apply (Hfresh k).
    + intros k. rewrite Hkeys, elem_of_app, Hkept, added_keys. destruct (decide (k ∈ keys B)); naive_solver.
  - intros i new Hi. pose proof (jget_Some_keys _ _ _ Hi) as HiA. rewrite Hget, added_get.
    destruct (jget B i) as [old|] eqn:E.
    + pose proof (jget_Some_keys _ _ _ E) as HiB. rewrite decide_True by done. unfold kept.
      rewrite jget_deletes, decide_False; [done|]. intros Hrem. by apply removed_elem in Hrem as [_ ?].
    + apply jget_None in E. by rewrite decide_False, Hi.
Qed.

Lemma nodes_round_trip :
  exists kept grown after, remove_nodes (removed_ids B A) B = Ok kept /\
    add_nodes (added_nodes B A) kept = Ok grown /\ update_nodes (node_updates B A) grown = Ok after /\
    keys after ≡ₚ keys A /\
    forall i new, jget A i = Some new -> exists m, jget after i = Some m /\ nodes_agree m new.
Proof.
  destruct grown_total as (kept & grown & Hr & Ha & Hk & Hget).
  assert (forall k u, jget (node_updates B A) k = Some u -> exists old new next,
            jget A k = Some new /\ jget grown k = Some old /\ updated u old next /\ nodes_agree next new) as Hup.
  { intros k u Hu. pose proof (updates_keys B A k (jget_Some_keys _ _ _ Hu)) as [HkA HkB].
    apply jhas_keys, jhas_true in HkA as [new Hn]. apply jhas_keys, jhas_true in HkB as [old Ho].
    rewrite (updates_get B A k new NA Hn), Ho in Hu. cbv zeta in Hu. destruct (decide _) as [|Hne]; [done|].
    injection Hu as <-. destruct (node_round_trip k old new (SB _ _ Ho) (SA _ _ Hn) Hne) as (next & Hagree & Hp).
    exists old, new, next. split; [done|]. rewrite (Hget k new Hn), Ho. split; [done|]. split; [|done].
    by eexists. }
  destruct (update_nodes_total (node_updates B A) grown (updates_NoDup B A NA)) as [after Hafter].
  { intros k u Hu. destruct (Hup k u Hu) as (old & new & next & _ & Ho & Hu' & _). eauto. }
  exists kept, grown, after. split; [done|]. split; [done|]. split; [done|].
  destruct (update_nodes_Ok _ _ _ Hafter (updates_NoDup B A NA)) as (Hkeys & Hsame & Hupd).
  split; [by rewrite Hkeys|]. intros i new Hi. destruct (jget (node_updates B A) i) as [u|] eqn:Eu.
  - destruct (Hup i u Eu) as (old & new' & next & Hn & Ho & (m & Hu1 & Hp1) & Hagree).
    assert (new' = new) as -> by congruence.
    destruct (Hupd i u Eu) as (o & w & Ho' & (m' & Hu2 & Hp2) & Hw). exists w. split; [done|].
    assert (w = next) as -> by congruence. done.
  - rewrite (Hsame i (proj1 (jget_None _ _) Eu)), (Hget i new Hi).
    rewrite (updates_get B A i new NA Hi) in Eu. destruct (jget B i) as [old|] eqn:Eo.
    + exists old. split; [done|]. cbv zeta in Eu. destruct (decide _) as [[H1 H2]|]; [|done].
      by apply (unchanged_agrees i); auto.
    + exists new. split; [done|]. intros f. by apply agree_eq.
Qed.
End Nodes.

(** ** The delta object *)

Lemma unless_empty_get {A} (l : list A) key v rest k :
  jget (unless_empty l key v ++ rest) k =
    if decide (js key = k) then match l with [] => jget rest k | _ => Some v end else jget rest k.
Proof. destruct l; cbn; [by destruct (decide _)|done]. Qed.

Lemma unless_empty_keys {A} (l : list A) key v k : k ∈ keys (unless_empty l key v) -> k = js key.
Proof. destruct l; cbn; [by intros ?%elem_of_nil|by intros ?%list_elem_of_singleton]. Qed.

(** What the five optional parts of a delta are. *)
Section Delta.
Context (head : members) (adds : list (jstring * members)) (updates : list (jstring * json))
  (removes : list jstring) (snapshot : members).

Definition delta_of : members :=
  head ++ unless_empty adds "addNodes" (nodes_json adds) ++
  unless_empty updates "updateNodes" (JArr updates.*2) ++
  unless_empty removes "removeNodeIds" (JArr (JStr <$> removes)) ++
  unless_empty snapshot "snapshot" (JObj snapshot).

Lemma delta_parts :
  (forall k, k ∈ js <$> ["addNodes"; "updateNodes"; "removeNodeIds"; "snapshot"]%string -> k ∉ keys head) ->
  nullish (jget delta_of (js "addNodes")) (JArr []) = nodes_json adds /\
  nullish (jget delta_of (js "updateNodes")) (JArr []) = JArr updates.*2 /\
  nullish (jget delta_of (js "removeNodeIds")) (JArr []) = JArr (JStr <$> removes) /\
  nullish (jget delta_of (js "snapshot")) (JObj []) = JObj snapshot.
Proof.
  intros H. unfold delta_of. assert (forall s : members, s = s ++ []) as Hnil by (intros; by rewrite app_nil_r).
  rewrite (Hnil (unless_empty snapshot _ _)).
  split; [|split; [|split]]; (rewrite jget_app_r by (apply H; vm_compute; set_solver)); clear H Hnil;
    rewrite !unless_empty_get; [destruct adds|destruct updates|destruct removes|destruct snapshot]; reflexivity.
Qed.

Lemma delta_keys k : k ∈ keys delta_of -> k ∈ keys head \/ k ∈ js <$> ["addNodes"; "updateNodes"; "removeNodeIds"; "snapshot"]%string.
Proof.
  unfold delta_of, keys. rewrite !fmap_app, !elem_of_app. fold (keys head).
  intros [H|[H|[H|[H|H]]]]; [by left|right..]; apply unless_empty_keys in H as ->; vm_compute; set_solver.
Qed.
End Delta.

Lemma positiveRevision_int z : 0 < z <= max_safe -> positiveRevision (Some (JNum (int z))) = Some z.
Proof.
  intros H. cbn [positiveRevision]. rewrite (proj2 (to_safe_integer_Some (int z) z)) by (split; [done|lia]).
  destruct (Z.ltb_spec 0 z); [done|lia].
Qed.

(** ** The snapshot members *)

Lemma snapshot_update_total set clear :
  (forall f, f ∈ keys set -> f ∈ SNAPSHOT_FIELDS) -> NoDup clear ->
  (forall f, f ∈ clear -> f ∈ SNAPSHOT_CLEAR_FIELDS /\ f ∉ keys set) ->
  snapshot_update (JObj (set ++ unless_empty clear "clear" (JArr (JStr <$> clear)))) =
    Ok (set ++ unless_empty clear "clear" (JArr (JStr <$> clear)), clear).
Proof.
  intros Hset Hnd Hclear. set (update := set ++ _). unfold snapshot_update.
  assert (js "clear" ∉ keys set) as Hns.
  { intros Hc. apply Hset in Hc. revert Hc. apply (bool_decide_eq_false_1 _). by vm_compute. }
  assert (nullish (jget update (js "clear")) (JArr []) = JArr (JStr <$> clear)) as Hc.
  { unfold update. rewrite jget_app_r by done. destruct clear; reflexivity. }
  rewrite guard_pass, Hc. 2:{
    apply forallb_forall. intros k Hk%list_elem_of_In. apply bool_decide_eq_true. unfold update, keys in Hk.
    rewrite fmap_app, elem_of_app in Hk. unfold ALLOWED_SNAPSHOT. rewrite elem_of_app.
    destruct Hk as [Hk|Hk]; [left; by apply Hset|right; apply unless_empty_keys in Hk as ->; left]. }
  cbn [as_array]. rewrite (bind_pass (Ok (JStr <$> clear)) _ _ eq_refl), (bind_pass _ _ _ (strings_JStr clear)).
  rewrite guard_pass by by apply bool_decide_eq_true, duplicate_None. rewrite guard_pass; [reflexivity|].
  apply forallb_forall. intros f Hf%list_elem_of_In. destruct (Hclear f Hf) as [H1 H2].
  rewrite (bool_decide_eq_true_2 _ H1). apply negb_true_iff, jhas_false. unfold update, keys. rewrite fmap_app, elem_of_app.
  intros [H|H]; [done|]. apply unless_empty_keys in H as ->. revert H1. apply (bool_decide_eq_false_1 _). by vm_compute.
Qed.

Definition snapshot_set (previous next : Committed) : members :=
  changed_fields SNAPSHOT_FIELDS (c_fields previous) (c_fields next).
Definition snapshot_clear (previous next : Committed) : list jstring :=
  cleared_fields SNAPSHOT_FIELDS (c_fields previous) (c_fields next).
Definition snapshot_patch (previous next : Committed) : members :=
  snapshot_set previous next ++
  unless_empty (snapshot_clear previous next) "clear" (JArr (JStr <$> snapshot_clear previous next)).

Lemma snapshot_patch_Ok previous next :
  shaped next ->
  snapshot_update (JObj (snapshot_patch previous next)) = Ok (snapshot_patch previous next, snapshot_clear previous next).
Proof.
  intros Hn. apply snapshot_update_total.
  - intros f Hf. by apply changed_keys in Hf as [? _].
  - apply cleared_NoDup; auto.
  - intros f Hf. apply cleared_elem in Hf as (Hf & _ & Hnone). split.
    + destruct (decide (f ∈ SNAPSHOT_CLEAR_FIELDS)) as [|Hc]; [done|].
      apply (sh_required _ Hn f Hf) in Hc. by apply jget_None in Hnone.
    + intros Hs. by apply changed_keys in Hs as [_ ?].
Qed.

Lemma clear_not_field : js "clear" ∉ SNAPSHOT_FIELDS.
Proof. apply (bool_decide_eq_false_1 _). by vm_compute. Qed.

Lemma committed_field c f : f ∈ SNAPSHOT_FIELDS -> jget (committed_members c) f = jget (c_fields c) f.
Proof.
  intros Hf. unfold committed_members. rewrite jget_app_r.
  - destruct (decide (f ∈ keys (c_fields c))) as [Hin|Hni]; [by apply jget_app_l|].
    rewrite jget_app_r, (proj2 (jget_None _ _) Hni) by done. cbn [jget]. rewrite decide_False; [done|].
    intros <-. revert Hf. apply (bool_decide_eq_false_1 _). by vm_compute.
  - intros H. cbn in H. rewrite !elem_of_cons in H.
    destruct H as [->|[->|[->|H]]]; [..|by apply elem_of_nil in H]; revert Hf; apply (bool_decide_eq_false_1 _); by vm_compute.
Qed.

Lemma committed_other c f :
  shaped c -> f ∉ SNAPSHOT_FIELDS ->
  jget (committed_members c) f =
    if decide (js "v" = f) then Some (JNum (int 3))
    else if decide (js "sessionId" = f) then Some (JStr (c_sessionId c))
    else if decide (js "revision" = f) then Some (JNum (int (c_revision c)))
    else if decide (js "nodes" = f) then Some (nodes_json (c_nodes c)) else None.
Proof.
  intros Hc Hf. assert (f ∉ keys (c_fields c)) as Hni by (intros H; by apply (sh_fields _ Hc) in H).
  unfold committed_members. cbn [app jget].
  repeat (destruct (decide (_ = f)); [done|]). by rewrite jget_app_r.
Qed.

(** Members other than the nodes agree with those of the next snapshot. *)
Lemma members_agree previous next g p delta limits f :
  shaped previous -> shaped next -> c_sessionId previous = c_sessionId next ->
  staged_by previous delta limits g p -> p_revision p = c_revision next ->
  p_update p = snapshot_patch previous next -> p_clear p = snapshot_clear previous next ->
  f <> js "nodes" -> agree (jget (g_members g) f) (jget (committed_members next) f).
Proof.
  intros Hp Hn Hs Hst Hrev Hu Hcl Hnodes. destruct (decide (f ∈ SNAPSHOT_FIELDS)) as [Hf|Hf].
  - rewrite committed_field by done. rewrite (sb_members _ _ _ _ _ Hst), Hu, Hcl.
    assert (f <> js "clear" /\ f <> js "v" /\ f <> js "revision") as (N1 & N2 & N3).
    { split_and!; intros ->; revert Hf; apply (bool_decide_eq_false_1 _); by vm_compute. }
    rewrite jget_deletes, jget_jdelete, !jget_jset, !(decide_False (P := _ = f)) by congruence.
    rewrite jget_spread.
    + pose proof (change_agrees SNAPSHOT_FIELDS (c_fields previous) (c_fields next) f SNAPSHOT_NoDup (sh_proper _ Hp) (sh_proper _ Hn)) as H.
      rewrite jget_deletes, jget_spread in H by auto using changed_NoDup.
      rewrite committed_field by done. unfold snapshot_patch.
      assert (jget (snapshot_set previous next ++ unless_empty (snapshot_clear previous next) "clear"
                      (JArr (JStr <$> snapshot_clear previous next))) f = jget (snapshot_set previous next) f) as ->.
      { destruct (decide (f ∈ keys (snapshot_set previous next))) as [Hin|Hni]; [by apply jget_app_l|].
        rewrite jget_app_r, (proj2 (jget_None _ _) Hni) by done. apply jget_None. intros H'. by apply unless_empty_keys in H'. }
      by apply H.
    + unfold snapshot_patch, keys. rewrite fmap_app. apply NoDup_app. split; [by apply changed_NoDup|]. split.
      * intros k Hk Hk'. apply unless_empty_keys in Hk' as ->. apply changed_keys in Hk as [Hk _]. by apply clear_not_field.
      * destruct (snapshot_clear previous next); cbn; [constructor|apply NoDup_singleton].
  - apply agree_eq. rewrite (committed_other next) by done. destruct (decide (f = js "clear")) as [->|Hc].
    + rewrite (sb_members _ _ _ _ _ Hst), jget_deletes, jget_jdelete. by destruct (decide (_ ∈ p_clear p)).
    + rewrite (staged_member _ _ _ _ _ _ Hst), (committed_other previous), Hrev, Hs; [|done|done|].
      * repeat (destruct (decide _); subst; try done).
      * unfold ALLOWED_SNAPSHOT. rewrite elem_of_app, list_elem_of_singleton. tauto.
Qed.

(** ** Staging a derived delta *)

Definition derived_head (previous next : Committed) : members :=
  [(js "v", JNum (int 3)); (js "sessionId", JStr (c_sessionId next));
   (js "revision", JNum (int (c_revision next))); (js "baseRevision", JNum (int (c_revision previous)))].
Definition derived (previous next : Committed) : members :=
  delta_of (derived_head previous next) (added_nodes (c_nodes previous) (c_nodes next))
    (node_updates (c_nodes previous) (c_nodes next)) (removed_ids (c_nodes previous) (c_nodes next))
    (snapshot_patch previous next).

Lemma diff_Some previous next delta :
  diffSemanticSnapshots previous next = Some delta ->
  c_sessionId previous = c_sessionId next /\ c_revision previous < c_revision next /\ delta = derived previous next.
Proof.
  unfold diffSemanticSnapshots. destruct (bool_decide (c_sessionId previous = c_sessionId next)) eqn:E; [|done].
  breflect. cbn [negb]. destruct (Z.leb_spec (c_revision next) (c_revision previous)); [done|].
  intros Hd. apply (inj Some) in Hd. split; [done|]. split; [done|]. by symmetry.
Qed.

(** The number of node operations of a derived delta. *)
Definition operations (previous next : Committed) : Z :=
  Z.of_nat (length (added_nodes (c_nodes previous) (c_nodes next)) +
            length (node_updates (c_nodes previous) (c_nodes next)) +
            length (removed_ids (c_nodes previous) (c_nodes next))).

Section Derived.
Context (previous next : Committed).
Hypothesis SP : shaped previous.
Hypothesis SN : shaped next.
Hypothesis session : c_sessionId previous = c_sessionId next.
Hypothesis newer : c_revision previous < c_revision next.
Let B := c_nodes previous.
Let A := c_nodes next.
Let delta := derived previous next.

Lemma derived_disjoint x :
  x ∈ js <$> ["addNodes"; "updateNodes"; "removeNodeIds"; "snapshot"]%string -> x ∉ keys (derived_head previous next).
Proof.
  revert x. apply list.Forall_forall. change (keys (derived_head previous next)) with
    [js "v"; js "sessionId"; js "revision"; js "baseRevision"].
  apply (bool_decide_eq_true_1 _). by vm_compute.
Qed.

Lemma derived_allowed : forallb (fun k => bool_decide (k ∈ ALLOWED_TOP)) (keys delta) = true.
Proof.
  apply forallb_forall. intros x Hx%list_elem_of_In. apply bool_decide_eq_true. apply delta_keys in Hx.
  destruct Hx as [Hx|Hx]; revert x Hx; apply list.Forall_forall.
  - change (keys (derived_head previous next)) with [js "v"; js "sessionId"; js "revision"; js "baseRevision"].
    apply (bool_decide_eq_true_1 _). by vm_compute.
  - apply (bool_decide_eq_true_1 _). by vm_compute.
Qed.

Lemma derived_get (i : nat) k v : derived_head previous next !! i = Some (k, v) -> jget delta k = Some v.
Proof.
  intros H. unfold delta, derived, delta_of. rewrite jget_app_l.
  - destruct i as [|[|[|[|i]]]]; [..|done]; by injection H as <- <-.
  - apply list_elem_of_lookup_2 in H. by apply (list_elem_of_fmap_2 fst) in H.
Qed.

(** A derived delta passes the guards on its header. *)
Lemma derived_enters limits :
  stageDelta previous delta limits = stageOperations previous delta limits (c_revision next).
Proof.
  unfold stageDelta. rewrite (guard_pass _ _ _ derived_allowed).
  rewrite (derived_get 0 _ _ eq_refl), (derived_get 1 _ _ eq_refl), (derived_get 2 _ _ eq_refl), (derived_get 3 _ _ eq_refl).
  rewrite guard_pass by by apply bool_decide_eq_true. rewrite guard_pass by by apply bool_decide_eq_true.
  rewrite !positiveRevision_int by (by apply sh_revision).
  rewrite Z.eqb_refl. cbn [negb]. destruct (Z.leb_spec (c_revision next) (c_revision previous)); [lia|done].
Qed.

Let addNodes : list json := (fun n => JObj n.2) <$> added_nodes B A.
Let updateNodes : list json := (node_updates B A).*2.
Let removeNodeIds : list json := JStr <$> removed_ids B A.

Lemma derived_arrays :
  as_array (nullish (jget delta (js "addNodes")) (JArr [])) = Ok addNodes /\
  as_array (nullish (jget delta (js "updateNodes")) (JArr [])) = Ok updateNodes /\
  as_array (nullish (jget delta (js "removeNodeIds")) (JArr [])) = Ok removeNodeIds /\
  nullish (jget delta (js "snapshot")) (JObj []) = JObj (snapshot_patch previous next).
Proof.
  destruct (delta_parts _ (added_nodes B A) (node_updates B A) (removed_ids B A) (snapshot_patch previous next)
    derived_disjoint) as (Ha & Hu & Hr & Hs).
  unfold delta, derived. fold B A. by rewrite Ha, Hu, Hr, Hs.
Qed.

Lemma derived_ids :
  ids_of (id_member <$> addNodes) = Ok (keys (added_nodes B A)) /\
  ids_of (id_member <$> updateNodes) = Ok (keys (node_updates B A)) /\
  ids_of (Some <$> removeNodeIds) = Ok (removed_ids B A).
Proof.
  assert (forall k, k ∈ keys A \/ k ∈ keys B -> k <> []) as Hne.
  { intros k [[m Hm]%jhas_keys%jhas_true|[m Hm]%jhas_keys%jhas_true].
    - by apply (sn_nonempty _ _ (sh_node _ SN _ _ Hm)).
    - by apply (sn_nonempty _ _ (sh_node _ SP _ _ Hm)). }
  split; [|split].
  - rewrite <- (ids_of_total (keys (added_nodes B A))).
    + f_equal. unfold addNodes, keys. rewrite <- !list_fmap_compose. apply list_fmap_ext.
      intros n [k m] Hin%list_elem_of_lookup_2. cbn. apply (jget_In _ _ _ (added_NoDup _ _ (sh_ids _ SN))) in Hin.
      rewrite added_get in Hin. destruct (decide _); [done|]. apply (sn_id _ _ (sh_node _ SN _ _ Hin)).
    + intros k Hk. apply added_keys in Hk as [Hk _]. auto.
  - rewrite <- (ids_of_total (keys (node_updates B A))).
    + f_equal. unfold updateNodes, keys. rewrite <- !list_fmap_compose. apply list_fmap_ext.
      intros n [k u] Hin%list_elem_of_lookup_2. cbn. apply list_elem_of_omap in Hin as ([i m] & _ & Hu).
      cbn [fst snd] in Hu. destruct (jget B i); [|done]. destruct (decide _); [discriminate Hu|].
      apply (inj Some) in Hu. pose proof (f_equal fst Hu) as Hk. cbn in Hk. subst i.
      apply (f_equal snd) in Hu. cbn [snd] in Hu. by subst u.
    + intros k Hk. apply updates_keys in Hk as [Hk _]. auto.
  - rewrite <- (ids_of_total (removed_ids B A)).
    + f_equal. unfold removeNodeIds. by rewrite <- !list_fmap_compose.
    + intros k Hk. apply removed_elem in Hk as [Hk _]. auto.
Qed.

Lemma derived_distinct : NoDup (keys (added_nodes B A) ++ keys (node_updates B A) ++ removed_ids B A).
Proof.
  apply NoDup_app. split; [apply added_NoDup, SN|]. split.
  - intros x Hx Hx'. apply added_keys in Hx as [HA HB].
    apply elem_of_app in Hx' as [Hx'|Hx']; [by apply updates_keys in Hx' as [_ ?]|by apply removed_elem in Hx' as [? _]].
  - apply NoDup_app. split; [apply updates_NoDup, SN|]. split; [|apply removed_NoDup, SP].
    intros x Hx Hx'. apply updates_keys in Hx as [HA _]. by apply removed_elem in Hx' as [_ ?].
Qed.

Lemma derived_zips :
  zip (keys (added_nodes B A)) (objects addNodes) = added_nodes B A /\
  zip (keys (node_updates B A)) updateNodes = node_updates B A.
Proof.
  split; [|unfold keys, updateNodes; apply zip_fst_snd]. unfold addNodes, objects.
  induction (added_nodes B A) as [|[k m] l IH]; [done|].
  exact (f_equal (cons (k, m)) IH).
Qed.

Lemma derived_count : Z.of_nat (length addNodes + length updateNodes + length removeNodeIds) = operations previous next.
Proof. unfold addNodes, updateNodes, removeNodeIds, operations. by rewrite !length_fmap. Qed.

Lemma derived_refused limits : maxNodes limits < operations previous next -> stageDelta previous delta limits = Err (fail count).
Proof.
  intros H. rewrite derived_enters. destruct derived_arrays as (Ha & Hu & Hr & _). unfold stageOperations.
  rewrite (bind_pass _ _ _ Ha), (bind_pass _ _ _ Hu), (bind_pass _ _ _ Hr), derived_count.
  destruct (Z.leb_spec (operations previous next) (maxNodes limits)); [lia|done].
Qed.

Lemma derived_staged limits :
  operations previous next <= maxNodes limits ->
  exists g, stageDelta previous delta limits = Ok g /\ keys (g_nodes g) ≡ₚ keys A /\
    (forall i new, jget A i = Some new -> exists m, jget (g_nodes g) i = Some m /\ nodes_agree m new).
Proof.
  intros Hcount.
  destruct (nodes_round_trip B A (sh_ids _ SP) (sh_ids _ SN) (sh_node _ SP) (sh_node _ SN))
    as (kept & grown & after & Hr & Ha & Hu & Hkeys & Hnodes).
  destruct derived_arrays as (Aa & Au & Ar & As), derived_ids as (Ia & Iu & Ir), derived_zips as (Za & Zu).
  enough (exists g, stageDelta previous delta limits = Ok g /\ g_nodes g = after) as (g & Hg & Hafter).
  { exists g. by rewrite Hafter. }
  eexists. split.
  - rewrite derived_enters. unfold stageOperations.
    rewrite (bind_pass _ _ _ Aa), (bind_pass _ _ _ Au), (bind_pass _ _ _ Ar), derived_count.
    rewrite guard_pass by by apply Z.leb_le.
    rewrite (bind_pass _ _ _ Ia), (bind_pass _ _ _ Iu), (bind_pass _ _ _ Ir).
    rewrite guard_pass by (apply bool_decide_eq_true, duplicate_None, derived_distinct).
    rewrite (bind_pass _ _ _ Hr), Za, (bind_pass _ _ _ Ha), Zu, (bind_pass _ _ _ Hu), As.
    rewrite (bind_pass _ _ _ (snapshot_patch_Ok previous next SN)). reflexivity.
  - reflexivity.
Qed.

Lemma derived_staged_by limits g p :
  staged_by previous delta limits g p -> p_revision p = c_revision next /\
    p_update p = snapshot_patch previous next /\ p_clear p = snapshot_clear previous next.
Proof.
  intros [Hrev _ _ _ _ _ _ _ _ Hs _ _]. destruct derived_arrays as (_ & _ & _ & As).
  rewrite As, (snapshot_patch_Ok previous next SN) in Hs.
  rewrite (derived_get 2 _ _ eq_refl), positiveRevision_int in Hrev by (by apply sh_revision).
  split; [congruence|]. apply (f_equal (fun r => match r with Ok x => Some x | Err _ => None end)) in Hs.
  apply (inj Some) in Hs. split; [by apply (f_equal fst) in Hs|by apply (f_equal snd) in Hs].
Qed.
End Derived.

(** C25 Round trip: the delta derived from two committed snapshots of a session,
    when its node operations fit the node ceiling, is staged on the first
    without an error, and what it stages has exactly the nodes of the second
    (in whatever order), each of whose fields has the value it has there, and every
    other member has the value it has in the second, revision and session included.
    Values are the same down to every element and member ([same_value]): only the
    order in which an object lists its members may differ. *)
Theorem delta_round_trip previous next delta limits :
  shaped previous -> shaped next -> diffSemanticSnapshots previous next = Some delta ->
  operations previous next <= maxNodes limits ->
  exists g, stageDelta previous delta limits = Ok g /\
    jget (g_members g) (js "nodes") = Some (nodes_json (g_nodes g)) /\
    keys (g_nodes g) ≡ₚ keys (c_nodes next) /\
    (forall i new, jget (c_nodes next) i = Some new ->
       exists m, jget (g_nodes g) i = Some m /\ nodes_agree m new) /\
    (forall f, f <> js "nodes" -> agree (jget (g_members g) f) (jget (committed_members next) f)).
Proof.
  intros SP SN Hd Hcount. apply diff_Some in Hd as (Hs & Hnewer & ->).
  destruct (derived_staged previous next SP SN Hs Hnewer limits Hcount) as (g & Hg & Hkeys & Hnodes).
  exists g. split; [done|]. apply stageDelta_inv in Hg as [p Hp].
  destruct (derived_staged_by _ _ SN limits g p Hp) as (Hrev & Hu & Hc). split; [|split; [done|split; [done|]]].
  - rewrite (staged_member _ _ _ _ _ _ Hp) by (apply (bool_decide_eq_true_1 _); by vm_compute). done.
  - intros f Hf. by apply (members_agree previous next g p (derived previous next) limits).
Qed.

(** A derived delta is refused, without a request to resynchronise, exactly
    when its node operations exceed the node ceiling, even though both
    snapshots it was derived from are within it. *)
Theorem derived_delta_refused_iff previous next delta limits :
  shaped previous -> shaped next -> diffSemanticSnapshots previous next = Some delta ->
  (stageDelta previous delta limits = Err (fail count) <-> maxNodes limits < operations previous next) /\
  (forall f, stageDelta previous delta limits = Err f -> f = fail count).
Proof.
  intros SP SN Hd. apply diff_Some in Hd as (Hs & Hnewer & ->).
  destruct (Z.lt_ge_cases (maxNodes limits) (operations previous next)) as [Hlt|Hge].
  - pose proof (derived_refused previous next SP SN Hs Hnewer limits Hlt) as H. rewrite H.
    split; [by split|]. by intros f [= ->].
  - destruct (derived_staged previous next SP SN Hs Hnewer limits Hge) as (g & Hg & _). rewrite Hg.
    split; [split; [done|lia]|done].
Qed.

(** ** Concrete snapshots *)

Definition shaped_node_ok (n : jstring * members) : bool :=
  negb (bool_decide (n.1 = [])) && match jget n.2 (js "id") with Some (JStr s) => bool_decide (s = n.1) | _ => false end &&
  forallb (fun f => bool_decide (f ∈ NODE_FIELDS)) (keys n.2) &&
  forallb (fun f => bool_decide (f ∈ keys n.2)) REQUIRED_NODE_FIELDS && proper_value (JObj n.2).

Definition shaped_ok (c : Committed) : bool :=
  (0 <? c_revision c) && (c_revision c <=? max_safe) && bool_decide (NoDup (keys (c_nodes c))) &&
  forallb shaped_node_ok (c_nodes c) &&
  forallb (fun f => bool_decide (f ∈ SNAPSHOT_FIELDS)) (keys (c_fields c)) &&
  forallb (fun f => bool_decide (f ∈ SNAPSHOT_CLEAR_FIELDS) || bool_decide (f ∈ keys (c_fields c))) SNAPSHOT_FIELDS &&
  proper_value (JObj (c_fields c)).

Lemma shaped_ok_sound c : shaped_ok c = true -> shaped c.
Proof.
  unfold shaped_ok. rewrite !andb_true_iff, !forallb_forall. intros [[[[[[H1 H2] H3] H4] H5] H6] H7].
  apply Z.ltb_lt in H1. apply Z.leb_le in H2. apply bool_decide_eq_true in H3. constructor; [lia|done| | | |].
  - intros i m Hm. apply (jget_In _ _ _ H3) in Hm. apply list_elem_of_In, H4 in Hm. unfold shaped_node_ok in Hm. cbn [fst snd] in Hm.
    rewrite !andb_true_iff, !forallb_forall in Hm. destruct Hm as [[[[N1 N2] N3] N4] N6].
    apply negb_true_iff, bool_decide_eq_false in N1. assert (jget m (js "id") = Some (JStr i)) as N5.
    { destruct (jget m (js "id")) as [[| | | |s| |]|]; try done. apply bool_decide_eq_true in N2. by subst. }
    constructor; [done|done| | |].
    + intros f Hf. by apply list_elem_of_In, N3, bool_decide_eq_true in Hf.
    + intros f Hf. by apply list_elem_of_In, N4, bool_decide_eq_true in Hf.
    + intros f v. by apply proper_member.
  - intros f Hf. by apply list_elem_of_In, H5, bool_decide_eq_true in Hf.
  - intros f Hf Hni. apply list_elem_of_In, H6, orb_true_iff in Hf as [Hf|Hf]; by apply bool_decide_eq_true in Hf.
  - intros f v. by apply proper_member.
Qed.

Definition text_node (i name : string) : jstring * members :=
  (js i, [(js "id", JStr (js i)); (js "role", JStr (js "text")); (js "name", JStr (js name)); (js "geometry", JArr [])]).
Definition sample (rev : Z) (cursor : members) (nodes : list (jstring * members)) : Committed := {|
  c_sessionId := js "s"; c_revision := rev;
  c_fields := [(js "columns", JNum (int 80)); (js "rows", JNum (int 24)); (js "rootIds", JArr []);
               (js "coordinateSpace", JStr (js "viewport-cells")); (js "hitGrid", JNull)] ++ cursor;
  c_nodes := nodes;
|}.
Definition sample_1 : Committed := sample 1 [(js "cursor", JNull)] [text_node "a" "one"; text_node "b" "two"].
Definition sample_2 : Committed := sample 2 [] [text_node "b" "three"; text_node "c" "two"].
Definition sample_3 : Committed := sample 2 [] [text_node "c" "one"; text_node "d" "two"].

Definition limits_of (nodes : Z) : ProtocolLimits :=
  {| maxFrameBytes := 1024; maxSnapshotBytes := 4096; maxNodes := nodes; maxDepth := 64; maxStringBytes := 1024;
     maxRelationTargets := 64; maxQueuedFrames := 32; maxPendingWaiters := 256; maxSessions := 16;
     maxLogRecordBytes := 1024; maxLogQueue := 1000 |}.

Lemma delta_round_trip_witness :
  operations sample_1 sample_2 = 3 /\
  exists g, stageDelta sample_1 (derived sample_1 sample_2) (limits_of 3) = Ok g /\
    jget (g_members g) (js "nodes") = Some (nodes_json (g_nodes g)) /\
    keys (g_nodes g) ≡ₚ [js "b"; js "c"] /\
    (forall i new, jget (c_nodes sample_2) i = Some new ->
       exists m, jget (g_nodes g) i = Some m /\ nodes_agree m new) /\
    (forall f, f <> js "nodes" -> agree (jget (g_members g) f) (jget (committed_members sample_2) f)).
Proof.
  split; [by vm_compute|]. apply (delta_round_trip sample_1 sample_2 (derived sample_1 sample_2) (limits_of 3)).
  - apply shaped_ok_sound. by vm_compute.
  - apply shaped_ok_sound. by vm_compute.
  - by vm_compute.
  - by vm_compute.
Defined.

(** Replacing both nodes of a two-node tree takes four operations: with a
    ceiling of two nodes both snapshots fit and their delta does not. *)
Lemma derived_delta_refused_iff_witness :
  length (c_nodes sample_1) = 2%nat /\ length (c_nodes sample_3) = 2%nat /\
  (stageDelta sample_1 (derived sample_1 sample_3) (limits_of 2) = Err (fail count) <-> 2 < operations sample_1 sample_3) /\
  (forall f, stageDelta sample_1 (derived sample_1 sample_3) (limits_of 2) = Err f -> f = fail count).
Proof.
  split; [done|]. split; [done|].
  apply (derived_delta_refused_iff sample_1 sample_3 (derived sample_1 sample_3) (limits_of 2)).
  - apply shaped_ok_sound. by vm_compute.
  - apply shaped_ok_sound. by vm_compute.
  - by vm_compute.
Defined.

Lemma delta_touches_only_what_it_names_witness :
  exists g, stageDelta sample_1 (derived sample_1 sample_2) (limits_of 3) = Ok g /\
    g_changed g = [js "a"; js "c"; js "b"] /\
    (NoDup (g_changed g) /\ Z.of_nat (length (g_changed g)) <= maxNodes (limits_of 3) /\
  (forall i, i ∉ g_changed g -> jget (g_nodes g) i = jget (c_nodes sample_1) i) /\
  (forall i old new f, jget (c_nodes sample_1) i = Some old -> jget (g_nodes g) i = Some new ->
     f ∈ REQUIRED_NODE_FIELDS -> f ∈ keys old -> f ∈ keys new) /\
  jget (g_members g) (js "sessionId") = Some (JStr (c_sessionId sample_1)) /\
  jget (g_members g) (js "nodes") = Some (nodes_json (g_nodes g)) /\
  (exists rev, c_revision sample_1 < rev /\
     positiveRevision (jget (derived sample_1 sample_2) (js "revision")) = Some rev /\
     jget (g_members g) (js "revision") = Some (JNum (int rev)))).
Proof.
  eexists. split; [|split].
  3: apply (delta_touches_only_what_it_names sample_1 (derived sample_1 sample_2) (limits_of 3)).
  1,3: vm_compute; reflexivity.
  vm_compute; reflexivity.
Defined.
