(* ===== verification/Marker.v ===== *)
(** * Render-commit markers (packages/protocol/src/marker.ts)

    The private OSC sequence a probe writes after the last byte of a render, and
    its verification.  HMAC-SHA256 is a parameter: a function of the key and the
    text with a 32-byte digest. *)

From S2P Require Import Prelude JsText Dto.

Local Open Scope Z_scope.

(** ** Text helpers *)

Definition starts_with (p s : jstring) : bool := bool_decide (take (length p) s = p).
Definition ends_with (p s : jstring) : bool :=
  (length p <=? length s)%nat && bool_decide (drop (length s - length p) s = p).

(** [Buffer.toString('base64url')] *)
Definition base64url_char (n : Z) : Z :=
  if n <? 26 then 65 + n else if n <? 52 then 71 + n else if n <? 62 then n - 4 else if n =? 62 then 45 else 95.

Fixpoint base64url (bs : bytes) : jstring :=
  match bs with
  | [] => []
  | [a] => [base64url_char (Z.shiftr a 2); base64url_char (Z.shiftl (Z.land a 3) 4)]
  | [a; b] => [base64url_char (Z.shiftr a 2);
               base64url_char (Z.lor (Z.shiftl (Z.land a 3) 4) (Z.shiftr b 4));
               base64url_char (Z.shiftl (Z.land b 15) 2)]
  | a :: b :: c :: bs =>
      base64url_char (Z.shiftr a 2) :: base64url_char (Z.lor (Z.shiftl (Z.land a 3) 4) (Z.shiftr b 4)) ::
      base64url_char (Z.lor (Z.shiftl (Z.land b 15) 2) (Z.shiftr c 6)) :: base64url_char (Z.land c 63) ::
      base64url bs
  end.

(** ** Constants *)

Definition MARKER_OSC_CODE : Z := 8487.
Definition MARKER_OSC_PREFIX : jstring := js "twm;".
Definition MARKER_MAC_BYTES : nat := 16.
Definition MARKER_MAC_CHARS : nat := 22.
Definition BEL : jstring := [7].
Definition ST : jstring := [27; 92].

(** [REVISION_TEXT.test]: [/^[1-9][0-9]{0,15}$/] *)
Definition REVISION_TEXT_test (s : jstring) : bool :=
  match s with
  | [] => false
  | c :: t => between 49 c 57 && forallb (fun c => between 48 c 57) t && (length t <=? 15)%nat
  end.

(** [MAC_TEXT.test]: 22 characters of the base64url alphabet. *)
Definition mac_char (c : Z) : bool :=
  between 65 c 90 || between 97 c 122 || between 48 c 57 || (c =? 95) || (c =? 45).
Definition MAC_TEXT_test (s : jstring) : bool := (length s =? MARKER_MAC_CHARS)%nat && forallb mac_char s.

Record RenderMarker : Type := { rm_revision : Z; rm_mac : jstring }.

(** ** Encoding and verification *)

Section Mac.
Context (hmac : bytes -> bytes -> bytes).

Definition computeMac (token sessionId : jstring) (revision : Z) : jstring :=
  base64url (take MARKER_MAC_BYTES (hmac (utf8_encode token) (utf8_encode (sessionId ++ js ":" ++ decimal revision)))).

Definition encodeMarker (token sessionId : jstring) (revision : number) : result ViolationCode jstring :=
  match token, sessionId, to_safe_integer revision with
  | [], _, _ => Err marker_argument
  | _, [], _ => Err marker_argument
  | _, _, None => Err marker_argument
  | _, _, Some r =>
      if r <=? 0 then Err marker_argument
      else Ok (27 :: js "]" ++ decimal MARKER_OSC_CODE ++ js ";" ++ MARKER_OSC_PREFIX ++ decimal r ++ js ";" ++
               computeMac token sessionId r ++ BEL)
  end.

(** The payload without the terminator a caller may have kept. *)
Definition strip_terminator (payload : jstring) : jstring :=
  if ends_with BEL payload then take (length payload - length BEL) payload
  else if ends_with ST payload then take (length payload - length ST) payload
  else payload.

Definition verifyMarkerPayload (payload token sessionId : jstring) : option RenderMarker :=
  if bool_decide (token = []) || bool_decide (sessionId = []) then None
  else
    let text := strip_terminator payload in
    if negb (starts_with MARKER_OSC_PREFIX text) then None
    else
      let body := drop (length MARKER_OSC_PREFIX) text in
      match find_index (fun c => c =? 59) body with
      | None => None
      | Some separator =>
          let revisionText := take separator body in
          let mac := drop (separator + 1) body in
          if negb (REVISION_TEXT_test revisionText) then None
          else if negb (MAC_TEXT_test mac) then None
          else
            match to_safe_integer (int (parse_decimal revisionText)) with
            | None => None
            | Some revision =>
                if revision <=? 0 then None
                else
                  let expected := utf8_encode (computeMac token sessionId revision) in
                  let actual := utf8_encode mac in
                  if negb (length expected =? length actual)%nat then None
                  else if bool_decide (expected = actual)
                       then Some {| rm_revision := revision; rm_mac := mac |} else None
            end
      end.

(** ** Lemmas *)

Lemma mac_char_ascii c : mac_char c = true -> 0 <= c < 128.
Proof. unfold mac_char, between. rewrite !orb_true_iff, !andb_true_iff, !Z.leb_le, !Z.eqb_eq. lia. Qed.

Lemma base64url_char_ok n : 0 <= n < 64 -> mac_char (base64url_char n) = true.
Proof.
  intros H. unfold base64url_char, mac_char, between. rewrite !orb_true_iff, !andb_true_iff, !Z.leb_le, !Z.eqb_eq.
  destruct (Z.ltb_spec n 26), (Z.ltb_spec n 52), (Z.ltb_spec n 62), (Z.eqb_spec n 62); lia.
Qed.

(** Six-bit groups of bytes. *)
Lemma shiftr_bound b k n : 0 <= b < 2 ^ (k + n) -> 0 <= k -> 0 <= n -> 0 <= Z.shiftr b k < 2 ^ n.
Proof.
  intros H Hk Hn. rewrite Z.shiftr_div_pow2 by done. rewrite Z.pow_add_r in H by done.
  pose proof (Z.pow_pos_nonneg 2 k ltac:(lia) Hk). split; [apply Z.div_pos; lia|apply Z.div_lt_upper_bound; lia].
Qed.
Lemma land_bound b k : 0 <= k -> 0 <= Z.land b (Z.ones k) < 2 ^ k.
Proof. intros Hk. rewrite Z.land_ones by done. apply Z.mod_pos_bound, Z.pow_pos_nonneg; lia. Qed.
Lemma sextet_join a k n b :
  0 <= k -> 0 <= n -> 0 <= b < 2 ^ n -> k + n = 6 -> 0 <= Z.lor (Z.shiftl (Z.land a (Z.ones k)) n) b < 64.
Proof.
  intros Hk Hn Hb Hs. pose proof (land_bound a k Hk) as Ha. rewrite lor_shiftl_add by lia.
  change 64 with (2 ^ 6). rewrite <- Hs, Z.pow_add_r by done. nia.
Qed.
Lemma sextet_shift a k n : 0 <= k -> 0 <= n -> k + n = 6 -> 0 <= Z.shiftl (Z.land a (Z.ones k)) n < 64.
Proof.
  intros Hk Hn Hs. pose proof (sextet_join a k n 0 Hk Hn) as H. rewrite Z.lor_0_r in H. apply H; [|done].
  split; [done|]. by apply Z.pow_pos_nonneg.
Qed.

Lemma base64url_chars bs : Forall (fun b => 0 <= b < 256) bs -> forallb mac_char (base64url bs) = true.
Proof.
  assert (forall n, 0 <= n < 64 -> mac_char (base64url_char n) = true) as Hc by apply base64url_char_ok.
  revert bs. fix IH 1. intros [|a [|b [|c bs]]] H; cbn [base64url forallb]; [done|..];
    repeat match goal with H : Forall _ (_ :: _) |- _ => apply Forall_cons in H as [? H] end;
    rewrite ?andb_true_iff; repeat split; try (apply Hc).
  all: try by apply (shiftr_bound _ 2 6).
  - by apply (sextet_shift a 2 4).
  - apply (sextet_join a 2 4); [done..|by apply (shiftr_bound _ 4 4)|done].
  - by apply (sextet_shift b 4 2).
  - apply (sextet_join a 2 4); [done..|by apply (shiftr_bound _ 4 4)|done].
  - apply (sextet_join b 4 2); [done..|by apply (shiftr_bound _ 6 2)|done].
  - by apply (land_bound c 6).
  - by apply IH.
Qed.

Lemma ends_with_spec p s : ends_with p s = true <-> exists t, s = t ++ p.
Proof.
  unfold ends_with. rewrite andb_true_iff, Nat.leb_le, bool_decide_eq_true. split.
  - intros [Hl Hd]. exists (take (length s - length p) s). rewrite <- Hd at 2. by rewrite take_drop.
  - intros [t ->]. rewrite length_app. split; [lia|].
    by replace (length t + length p - length p)%nat with (length t) by lia; rewrite drop_app_length.
Qed.

Lemma take_suffix (t p : jstring) : take (length (t ++ p) - length p) (t ++ p) = t.
Proof. rewrite length_app. replace (length t + length p - length p)%nat with (length t) by lia. apply take_app_length. Qed.

(** The terminators a payload may come with. *)
Definition terminators : list jstring := [[]; BEL; ST].

Lemma strip_terminator_inv payload : exists t, t ∈ terminators /\ payload = strip_terminator payload ++ t.
Proof.
  unfold strip_terminator, terminators.
  destruct (ends_with BEL payload) eqn:E1; [|destruct (ends_with ST payload) eqn:E2].
  - exists BEL. split; [set_solver|]. apply ends_with_spec in E1 as [t ->]. by rewrite take_suffix.
  - exists ST. split; [set_solver|]. apply ends_with_spec in E2 as [t ->]. by rewrite take_suffix.
  - exists []. split; [set_solver|]. by rewrite app_nil_r.
Qed.

Lemma strip_terminator_app text c t :
  t ∈ terminators -> c <> 7 -> c <> 92 -> strip_terminator ((text ++ [c]) ++ t) = text ++ [c].
Proof.
  intros Ht H7 H92. assert (forall p x y, ends_with (p ++ [x]) ((text ++ [c]) ++ y) = true ->
    exists u, (text ++ [c]) ++ y = (u ++ p) ++ [x]) as Hend.
  { intros p x y H. apply ends_with_spec in H as [u ->]. exists u. by rewrite (assoc_L (++)). }
  unfold terminators in Ht. rewrite !elem_of_cons in Ht. unfold strip_terminator.
  destruct Ht as [->|[->|[->|Ht]]]; [..|by apply elem_of_nil in Ht].
  - destruct (ends_with BEL _) eqn:E1.
    { apply (Hend [] 7 []) in E1 as [u E]. rewrite !app_nil_r in E. by apply app_inj_tail in E as [_ ->]. }
    destruct (ends_with ST _) eqn:E2.
    { apply (Hend [27] 92 []) in E2 as [u E]. rewrite app_nil_r in E. by apply app_inj_tail in E as [_ ->]. }
    by rewrite app_nil_r.
  - rewrite (proj2 (ends_with_spec BEL _)) by eauto. apply take_suffix.
  - destruct (ends_with BEL _) eqn:E1.
    { apply (Hend [] 7 ST) in E1 as [u E]. change ST with ([27] ++ [92]) in E. rewrite (assoc_L (++)) in E.
      by apply app_inj_tail in E as [_ ?]. }
    rewrite (proj2 (ends_with_spec ST _)) by eauto. apply take_suffix.
Qed.

Lemma REVISION_TEXT_spec s :
  REVISION_TEXT_test s = true <->
  exists c t, s = c :: t /\ Forall digit s /\ c <> 48 /\ (length t <= 15)%nat.
Proof.
  assert (forall t, forallb (fun c => between 48 c 57) t = true <-> Forall digit t) as Hd.
  { intros t. rewrite forallb_forall, List.Forall_forall. unfold between, digit.
    split; intros H x Hx; specialize (H x Hx); rewrite andb_true_iff, !Z.leb_le in *; done. }
  destruct s as [|c t]; cbn [REVISION_TEXT_test]; [split; [done|by intros (? & ? & ? & _)]|].
  rewrite !andb_true_iff, Hd, Nat.leb_le. unfold between. rewrite andb_true_iff, !Z.leb_le. split.
  - intros [[Hc Ht] Hl]. exists c, t. split; [done|]. split; [constructor; [unfold digit; lia|done]|]. split; [lia|done].
  - intros (c' & t' & [= <- <-] & Hf & Hc & Hl). apply Forall_cons in Hf as [Hf Ht]. unfold digit in Hf.
    split; [split; [lia|done]|done].
Qed.

Lemma revision_text_decimal r : 0 < r <= max_safe -> REVISION_TEXT_test (decimal r) = true.
Proof.
  intros Hr. destruct (decimal_spec r ltac:(lia)) as (Hd & _ & c & t & Ht & Hc).
  apply REVISION_TEXT_spec. exists c, t. split; [done|]. split; [done|]. split; [apply Hc; lia|].
  pose proof (decimal_from_length (S (Z.to_nat r)) r 15 ltac:(lia)) as Hl.
  assert (r < 10 ^ Z.of_nat 16) as Hlt by (unfold max_safe in Hr; change (10 ^ Z.of_nat 16) with 10000000000000000; lia).
  specialize (Hl Hlt). change (decimal_from (S (Z.to_nat r)) r) with (decimal r) in Hl. rewrite Ht in Hl. cbn in Hl. lia.
Qed.

(** Digits contain no separator. *)
Lemma separator_after_digits ds rest :
  Forall digit ds -> find_index (fun c => c =? 59) (ds ++ 59 :: rest) = Some (length ds).
Proof.
  induction 1 as [|d ds Hd _ IH]; cbn; [done|]. unfold digit in Hd.
  destruct (Z.eqb_spec d 59); [lia|]. by rewrite IH.
Qed.

(** A digest has 32 bytes. *)
Hypothesis hmac_digest : forall k m, length (hmac k m) = 32%nat /\ Forall (fun b => 0 <= b < 256) (hmac k m).

Lemma computeMac_text token sessionId r : MAC_TEXT_test (computeMac token sessionId r) = true.
Proof.
  unfold MAC_TEXT_test, computeMac.
  destruct (hmac_digest (utf8_encode token) (utf8_encode (sessionId ++ js ":" ++ decimal r))) as [Hl Hb].
  set (d := hmac _ _) in *. clearbody d. rewrite base64url_chars by by apply Forall_take.
  do 32 (destruct d as [|? d]; [done|]). destruct d; [|done]. by vm_compute.
Qed.

(** The text of a marker between the OSC number and the terminator. *)
Definition marker_text (m : RenderMarker) : jstring :=
  MARKER_OSC_PREFIX ++ decimal (rm_revision m) ++ js ";" ++ rm_mac m.

Lemma emitted_text d mac :
  27 :: js "]" ++ decimal MARKER_OSC_CODE ++ js ";" ++ MARKER_OSC_PREFIX ++ d ++ js ";" ++ mac ++ BEL =
  27 :: js "]8487;" ++ (MARKER_OSC_PREFIX ++ d ++ js ";" ++ mac) ++ BEL.
Proof.
  replace (decimal MARKER_OSC_CODE) with (js "8487") by by vm_compute.
  change (js "]8487;") with (js "]" ++ js "8487" ++ js ";"). by rewrite <- !(assoc_L (++)).
Qed.

(** C35 Verification accepts exactly what the encoder emits: a payload verifies to
    a marker if and only if the encoder, given the same token and session and
    the marker's revision, emits that very text (canonical decimal revision and
    the MAC computed for it), and the payload is the text with no terminator, a
    BEL or an ST.  Nothing else verifies, and no accepted text has a second
    reading. *)
Theorem marker_verified_iff payload token sessionId m :
  verifyMarkerPayload payload token sessionId = Some m <->
  encodeMarker token sessionId (int (rm_revision m)) = Ok (27 :: js "]8487;" ++ marker_text m ++ BEL) /\
  exists t, t ∈ terminators /\ payload = marker_text m ++ t.
Proof.
  unfold verifyMarkerPayload, encodeMarker. split.
  - destruct (bool_decide (token = []) || bool_decide (sessionId = [])) eqn:E; [done|]. breflect. cbv zeta.
    destruct (strip_terminator_inv payload) as (t & Ht & Hp). set (text := strip_terminator payload) in *.
    destruct (starts_with MARKER_OSC_PREFIX text) eqn:Es; [|done]. cbn [negb]. unfold starts_with in Es. breflect.
    destruct (find_index _ _) as [sep|] eqn:Ef; [|done]. apply find_index_Some in Ef as (x & Hx & Hsemi & _).
    apply Z.eqb_eq in Hsemi. subst x.
    set (body := drop (length MARKER_OSC_PREFIX) text) in *.
    destruct (REVISION_TEXT_test (take sep body)) eqn:Er; [|done].
    destruct (MAC_TEXT_test (drop (sep + 1) body)) eqn:Em; [|done]. cbn [negb].
    apply REVISION_TEXT_spec in Er as (c & ds & Hds & Hdig & Hc & _).
    assert (decimal (parse_decimal (take sep body)) = take sep body) as Hdec.
    { rewrite Hds in *. by apply decimal_parse. }
    destruct (to_safe_integer (int (parse_decimal (take sep body)))) as [r|] eqn:Ei; [|done].
    pose proof Ei as Ei'. apply to_safe_integer_Some in Ei' as [Eint Hsafe].
    assert (r = parse_decimal (take sep body)) as ->.
    { apply (f_equal to_integer) in Eint. rewrite !to_integer_int in Eint. congruence. }
    destruct (Z.leb_spec (parse_decimal (take sep body)) 0); [done|].
    destruct (negb _); [done|]. case_bool_decide as Heq; [|done]. intros [= <-]. cbn [rm_revision].
    destruct token as [|k token]; [done|]. destruct sessionId as [|i sessionId]; [done|]. rewrite Ei.
    destruct (Z.leb_spec (parse_decimal (take sep body)) 0); [lia|].
    unfold MAC_TEXT_test in Em. breflect.
    assert (forall s, forallb mac_char s = true -> utf8_encode s = s) as Hascii.
    { intros s Hs. apply utf8_encode_ascii, List.Forall_forall. intros y Hy. rewrite forallb_forall in Hs.
      by apply mac_char_ascii, Hs. }
    rewrite !Hascii in Heq; [|done|].
    2:{ pose proof (computeMac_text (k :: token) (i :: sessionId) (parse_decimal (take sep body))) as Hm.
        unfold MAC_TEXT_test in Hm. by apply andb_true_iff in Hm as [_ ?]. }
    unfold marker_text. cbn [rm_revision rm_mac]. split.
    + by rewrite Heq, emitted_text.
    + exists t. split; [done|]. rewrite Hp at 1. f_equal.
      rewrite <- (take_drop (length MARKER_OSC_PREFIX) text), Es. f_equal. fold body. rewrite Hdec.
      rewrite <- (take_drop_middle body sep 59 Hx) at 1. by rewrite Nat.add_1_r.
  - intros [Henc (t & Ht & ->)]. destruct token as [|k token]; [done|]. destruct sessionId as [|i sessionId]; [done|].
    destruct (to_safe_integer (int (rm_revision m))) as [r|] eqn:Ei; [|done].
    pose proof Ei as Ei'. apply to_safe_integer_Some in Ei' as [Eint Hsafe].
    assert (rm_revision m = r) as Hr.
    { apply (f_equal to_integer) in Eint. rewrite !to_integer_int in Eint. congruence. }
    destruct (Z.leb_spec r 0); [done|]. apply (f_equal (fun x => match x with Ok l => l | Err _ => [] end)) in Henc.
    rewrite emitted_text in Henc. unfold marker_text in *. rewrite Hr in *.
    assert (rm_mac m = computeMac (k :: token) (i :: sessionId) r) as Hmac.
    { injection Henc as Henc. rewrite <- !(assoc_L (++)) in Henc. apply app_inv_head in Henc.
      change (js ";" ++ ?x) with (59 :: x) in Henc. injection Henc as Henc. by apply app_inv_tail in Henc. }
    pose proof (computeMac_text (k :: token) (i :: sessionId) r) as Hct. rewrite <- Hmac in Hct.
    rewrite (bool_decide_eq_false_2 (k :: token = [])), (bool_decide_eq_false_2 (i :: sessionId = [])) by done. cbn [orb].
    destruct (decimal_spec r ltac:(lia)) as (Hd & Hp & _).
    assert (strip_terminator ((MARKER_OSC_PREFIX ++ decimal r ++ js ";" ++ rm_mac m) ++ t) =
            MARKER_OSC_PREFIX ++ decimal r ++ js ";" ++ rm_mac m) as Hstrip.
    { unfold MAC_TEXT_test in Hct. apply andb_true_iff in Hct as [Hlen Hchars].
      destruct (rm_mac m) as [|c mac _] using rev_ind; [done|].
      rewrite forallb_app in Hchars. apply andb_true_iff in Hchars as [_ Hchar]. cbn in Hchar. rewrite andb_true_r in Hchar.
      rewrite !(assoc_L (++)). apply strip_terminator_app; [done|intros ->; done|intros ->; done]. }
    cbv zeta. rewrite Hstrip. unfold starts_with. rewrite take_app_length, bool_decide_eq_true_2 by done. cbn [negb].
    rewrite drop_app_length. change (js ";" ++ rm_mac m) with (59 :: rm_mac m). rewrite separator_after_digits by done.
    rewrite take_app_length, revision_text_decimal by lia. cbn [negb].
    rewrite (drop_app_ge (decimal r)) by lia.
    replace (length (decimal r) + 1 - length (decimal r))%nat with 1%nat by lia.
    change (drop 1 (59 :: rm_mac m)) with (rm_mac m). rewrite Hct. cbn [negb].
    rewrite Hp, Ei. destruct (Z.leb_spec r 0); [lia|]. rewrite <- Hmac, Nat.eqb_refl. cbn [negb].
    rewrite bool_decide_eq_true_2 by done. by destruct m; cbn in *; subst.
Qed.
End Mac.

Lemma marker_verified_iff_witness :
  verifyMarkerPayload (fun _ _ => replicate 32 255) (js "twm;42;_____________________w" ++ ST) (js "key") (js "s") =
    Some {| rm_revision := 42; rm_mac := js "_____________________w" |} /\
  encodeMarker (fun _ _ => replicate 32 255) (js "key") (js "s") (int 42) =
    Ok (27 :: js "]8487;" ++ marker_text {| rm_revision := 42; rm_mac := js "_____________________w" |} ++ BEL).
Proof.
  assert (verifyMarkerPayload (fun _ _ => replicate 32 255) (js "twm;42;_____________________w" ++ ST) (js "key") (js "s") =
    Some {| rm_revision := 42; rm_mac := js "_____________________w" |}) as H by by vm_compute.
  split; [exact H|].
  apply (marker_verified_iff (fun _ _ => replicate 32 255)) in H; [by destruct H|].
  intros _ _. split; [done|]. apply Forall_replicate. lia.
Defined.
