(* ===== verification/Pairing.v ===== *)
(** * Frame and tree pairing (packages/driver/src/pairing.ts)

    [RevisionPairing] holds the two halves of each revision, the tree that came
    over the semantic socket and the render marker that came through the
    terminal, until they meet.  The promises and the timer of a watchdog are
    events of their own, so that every interleaving of them with the offers is
    a sequence of steps.  The callbacks ([onPublish], [onDiagnostic]) append to
    a log and do not call back. *)

From stdpp Require Import sorting.
From S2P Require Import Prelude JsText Dto JsObject Tree.

Local Open Scope Z_scope.

(** ** Data *)

Abbreviation changes := (option (list (jstring * option SemanticNode))).

Record PairedRevision : Type := {
  pr_snapshot : SemanticSnapshot;
  pr_changedNodes : changes;
  pr_screenRevision : option Z;
}.

Inductive DiagnosticCode : Set :=
| revision_dropped | adapter_capability | revision_superseded | revision_pairing_watchdog.

Inductive Half : Set := tree | marker.

(** Where the promise chain of a watchdog stands: the emulator's barrier, the
    check of [#framesIdle], its list of waiters, the barrier resolved, the timer
    set, and nothing left to happen. *)
Inductive Stage : Set := CatchingUp | Checking | AwaitingFrames | BarrierDone | Armed | Over.
Global Instance Stage_eq_dec : EqDecision Stage.
Proof. solve_decision. Defined.

Record DeferredWatchdog : Set := {
  w_revision : Z;
  w_half : Half;
  w_stage : Stage;
  cancelled : bool;
  elapsed : bool;
}.

Record PendingSnapshot : Type := { ps_snapshot : SemanticSnapshot; ps_changedNodes : changes; ps_watchdog : nat }.
Record PendingMarker : Set := { pm_screenRevision : Z; pm_watchdog : nat }.

Inductive Output : Type :=
| Publish (p : PairedRevision)
| Diagnostic (code : DiagnosticCode) (revision : Z).

(** [watchdogs] is the heap of the watchdog objects, [log] what the callbacks
    were told. *)
Record RevisionPairing : Type := {
  maxPending : Z;
  snapshots : list (Z * PendingSnapshot);
  markers : list (Z * PendingMarker);
  markerEnabled : bool;
  published : option PairedRevision;
  disposed : bool;
  openFrames : list Z;
  watchdogs : list DeferredWatchdog;
  log : list Output;
}.

Definition newPairing (max : Z) : RevisionPairing := {|
  maxPending := max; snapshots := []; markers := []; markerEnabled := false; published := None;
  disposed := false; openFrames := []; watchdogs := []; log := [];
|}.

Section Setters.
Context (s : RevisionPairing).
Definition set_snapshots v := {| maxPending := maxPending s; snapshots := v; markers := markers s;
  markerEnabled := markerEnabled s; published := published s; disposed := disposed s; openFrames := openFrames s;
  watchdogs := watchdogs s; log := log s |}.
Definition set_markers v := {| maxPending := maxPending s; snapshots := snapshots s; markers := v;
  markerEnabled := markerEnabled s; published := published s; disposed := disposed s; openFrames := openFrames s;
  watchdogs := watchdogs s; log := log s |}.
Definition set_markerEnabled v := {| maxPending := maxPending s; snapshots := snapshots s; markers := markers s;
  markerEnabled := v; published := published s; disposed := disposed s; openFrames := openFrames s;
  watchdogs := watchdogs s; log := log s |}.
Definition set_published v := {| maxPending := maxPending s; snapshots := snapshots s; markers := markers s;
  markerEnabled := markerEnabled s; published := v; disposed := disposed s; openFrames := openFrames s;
  watchdogs := watchdogs s; log := log s |}.
Definition set_disposed v := {| maxPending := maxPending s; snapshots := snapshots s; markers := markers s;
  markerEnabled := markerEnabled s; published := published s; disposed := v; openFrames := openFrames s;
  watchdogs := watchdogs s; log := log s |}.
Definition set_openFrames v := {| maxPending := maxPending s; snapshots := snapshots s; markers := markers s;
  markerEnabled := markerEnabled s; published := published s; disposed := disposed s; openFrames := v;
  watchdogs := watchdogs s; log := log s |}.
Definition set_watchdogs v := {| maxPending := maxPending s; snapshots := snapshots s; markers := markers s;
  markerEnabled := markerEnabled s; published := published s; disposed := disposed s; openFrames := openFrames s;
  watchdogs := v; log := log s |}.
Definition emit (o : Output) := {| maxPending := maxPending s; snapshots := snapshots s; markers := markers s;
  markerEnabled := markerEnabled s; published := published s; disposed := disposed s; openFrames := openFrames s;
  watchdogs := watchdogs s; log := log s ++ [o] |}.
End Setters.

(** ** Getters *)

Definition pr_revision (p : PairedRevision) : Z := s_revision (pr_snapshot p).
(** [get revision()] *)
Definition revision_of (s : RevisionPairing) : Z := default 0 (pr_revision <$> published s).
Definition hasPendingRender (s : RevisionPairing) : bool :=
  (0 <? length (snapshots s))%nat || (0 <? length (markers s))%nat.
Definition watchdog_elapsed (s : RevisionPairing) (w : nat) : bool :=
  match watchdogs s !! w with Some w => elapsed w | None => false end.
Definition hasBlockingRender (s : RevisionPairing) : bool :=
  existsb (fun e => negb (watchdog_elapsed s (ps_watchdog e.2))) (snapshots s) ||
  existsb (fun e => negb (watchdog_elapsed s (pm_watchdog e.2))) (markers s).
Definition hasOpenFrame (s : RevisionPairing) : bool := (0 <? length (openFrames s))%nat.

Record PairingPendingState : Type := {
  pp_markerEnabled : bool;
  openFrameRevisions : list Z;
  pendingTreeRevisions : list Z;
  pendingMarkerRevisions : list Z;
  publishedRevision : option Z;
}.
Definition pendingState (s : RevisionPairing) : PairingPendingState := {|
  pp_markerEnabled := markerEnabled s;
  openFrameRevisions := merge_sort Z.le (openFrames s);
  pendingTreeRevisions := merge_sort Z.le (keys (snapshots s));
  pendingMarkerRevisions := merge_sort Z.le (keys (markers s));
  publishedRevision := pr_revision <$> published s;
|}.

(** ** Watchdogs *)

Definition with_stage (g : Stage) (w : DeferredWatchdog) : DeferredWatchdog :=
  {| w_revision := w_revision w; w_half := w_half w; w_stage := g; cancelled := cancelled w; elapsed := elapsed w |}.

(** [cancel()]: the flag, and the timer is cleared. *)
Definition cancel (w : nat) (s : RevisionPairing) : RevisionPairing :=
  set_watchdogs s (alter (fun w =>
    {| w_revision := w_revision w; w_half := w_half w;
       w_stage := if decide (w_stage w = Armed) then Over else w_stage w; cancelled := true; elapsed := elapsed w |})
    w (watchdogs s)).

(** [#watch]: the new watchdog is at the end of the heap. *)
Definition watch (revision : Z) (half : Half) (s : RevisionPairing) : RevisionPairing :=
  set_watchdogs s (watchdogs s ++
    [{| w_revision := revision; w_half := half; w_stage := CatchingUp; cancelled := false; elapsed := false |}]).

Definition releaseFrameWaiters (s : RevisionPairing) : RevisionPairing :=
  set_watchdogs s ((fun w => if decide (w_stage w = AwaitingFrames) then with_stage Checking w else w) <$> watchdogs s).

(** ** Operations *)

Definition setMarkerEnabled (enabled : bool) (s : RevisionPairing) : RevisionPairing := set_markerEnabled s enabled.

Definition frameOpened (revision : Z) (s : RevisionPairing) : RevisionPairing :=
  if disposed s then s
  else
    let kept := List.filter (fun open => negb (open <? revision)) (openFrames s) in
    set_openFrames s (if decide (revision ∈ kept) then kept else kept ++ [revision]).

Definition frameClosed (revision : Z) (s : RevisionPairing) : RevisionPairing :=
  if decide (revision ∈ openFrames s) then
    let s := set_openFrames s (List.filter (fun open => negb (open =? revision)) (openFrames s)) in
    if (length (openFrames s) =? 0)%nat then releaseFrameWaiters s else s
  else s.

(** What [#retain] and the loops of [#dropBelow] need of a map of halves: where
    it is in the state and which watchdog an entry carries. *)
Class PendingStore (T : Type) := {
  half_of : Half;
  watchdog : T -> nat;
  store : RevisionPairing -> list (Z * T);
  set_store : RevisionPairing -> list (Z * T) -> RevisionPairing;
}.
Global Instance snapshot_store : PendingStore PendingSnapshot :=
  {| half_of := tree; watchdog := ps_watchdog; store := snapshots; set_store := set_snapshots |}.
Global Instance marker_store : PendingStore PendingMarker :=
  {| half_of := marker; watchdog := pm_watchdog; store := markers; set_store := set_markers |}.

Section Stores.
Context {T} `{PendingStore T}.

(** The body of a loop of [#dropBelow] *)
Definition drop_pending (revision : Z) (s : RevisionPairing) (e : Z * T) : RevisionPairing :=
  if revision <=? e.1 then s
  else
    let s := cancel (watchdog e.2) s in
    emit (set_store s (jdelete (store s) e.1)) (Diagnostic revision_superseded e.1).

(** The loop of [#retain]: [store] is what the map holds. *)
Fixpoint evict (entries : list (Z * T)) (s : RevisionPairing) : RevisionPairing :=
  match entries with
  | [] => s
  | e :: rest =>
      if maxPending s <? Z.of_nat (length entries) then
        evict rest (emit (set_store (cancel (watchdog e.2) s) rest) (Diagnostic revision_dropped e.1))
      else s
  end.

Definition retain (revision : Z) (entry : T) (s : RevisionPairing) : RevisionPairing :=
  let s := match jget (store s) revision with Some old => cancel (watchdog old) s | None => s end in
  let s := set_store s (jset (store s) revision entry) in
  evict (store s) s.
End Stores.

Definition dropBelow (revision : Z) (s : RevisionPairing) : RevisionPairing :=
  let s := foldl (drop_pending revision) s (snapshots s) in
  foldl (drop_pending revision) s (markers s).

Definition publish (p : PairedRevision) (s : RevisionPairing) : RevisionPairing :=
  emit (dropBelow (pr_revision p) (set_published s (Some p))) (Publish p).

Definition offerSnapshot (snapshot : SemanticSnapshot) (changedNodes : changes) (s : RevisionPairing) : RevisionPairing :=
  let r := s_revision snapshot in
  if disposed s then s
  else if r <=? revision_of s then emit s (Diagnostic revision_dropped r)
  else if negb (markerEnabled s) then
    publish {| pr_snapshot := snapshot; pr_changedNodes := changedNodes; pr_screenRevision := None |} s
  else match jget (markers s) r with
       | Some m =>
           let s := cancel (pm_watchdog m) s in
           publish {| pr_snapshot := snapshot; pr_changedNodes := changedNodes;
                      pr_screenRevision := Some (pm_screenRevision m) |} (set_markers s (jdelete (markers s) r))
       | None =>
           let w := length (watchdogs s) in
           retain r {| ps_snapshot := snapshot; ps_changedNodes := changedNodes; ps_watchdog := w |}
             (watch r tree s)
       end.

Definition offerMarker (revision screenRevision : Z) (s : RevisionPairing) : RevisionPairing :=
  if disposed s then s
  else if negb (markerEnabled s) then emit s (Diagnostic adapter_capability revision)
  else if revision <=? revision_of s then emit s (Diagnostic revision_dropped revision)
  else match jget (snapshots s) revision with
       | Some p =>
           let s := cancel (ps_watchdog p) s in
           publish {| pr_snapshot := ps_snapshot p; pr_changedNodes := ps_changedNodes p;
                      pr_screenRevision := Some screenRevision |} (set_snapshots s (jdelete (snapshots s) revision))
       | None =>
           let w := length (watchdogs s) in
           retain revision {| pm_screenRevision := screenRevision; pm_watchdog := w |} (watch revision marker s)
       end.

Definition dispose (s : RevisionPairing) : RevisionPairing :=
  if disposed s then s
  else
    let s := set_disposed s true in
    let s := foldl (fun s e => cancel (ps_watchdog e.2) s) s (snapshots s) in
    let s := foldl (fun s e => cancel (pm_watchdog e.2) s) s (markers s) in
    releaseFrameWaiters (set_openFrames (set_markers (set_snapshots s []) []) []).

(** ** The asynchronous part *)

Definition move (g : Stage) (w : nat) (s : RevisionPairing) : RevisionPairing :=
  set_watchdogs s (alter (with_stage g) w (watchdogs s)).

(** The emulator's barrier of a watchdog settles; a rejection skips the frames. *)
Definition onCaughtUp (w : nat) (fulfilled : bool) (s : RevisionPairing) : RevisionPairing :=
  move (if fulfilled then Checking else BarrierDone) w s.

(** One turn of the loop of [#framesIdle]. *)
Definition framesIdle (w : nat) (s : RevisionPairing) : RevisionPairing :=
  move (if hasOpenFrame s && negb (disposed s) then AwaitingFrames else BarrierDone) w s.

(** [#arm] *)
Definition arm (w : nat) (d : DeferredWatchdog) (s : RevisionPairing) : RevisionPairing :=
  move (if cancelled d then Over else Armed) w s.

(** The timer's callback and [onElapsed]. *)
Definition onElapsed (w : nat) (d : DeferredWatchdog) (s : RevisionPairing) : RevisionPairing :=
  if cancelled d then move Over w s
  else
    let s := set_watchdogs s (alter (fun d =>
      {| w_revision := w_revision d; w_half := w_half d; w_stage := Over; cancelled := cancelled d; elapsed := true |})
      w (watchdogs s)) in
    let has := match w_half d with tree => jhas (snapshots s) (w_revision d) | marker => jhas (markers s) (w_revision d) end in
    if has then emit s (Diagnostic revision_pairing_watchdog (w_revision d)) else s.

(** ** Steps *)

Inductive Event : Type :=
| SetMarkerEnabled (enabled : bool)
| FrameOpened (revision : Z)
| FrameClosed (revision : Z)
| OfferSnapshot (snapshot : SemanticSnapshot) (changedNodes : changes)
| OfferMarker (revision screenRevision : Z)
| Dispose
| BarrierSettles (w : nat) (fulfilled : bool)
| Turn (w : nat).

(** What happens next to a watchdog depends on its stage; a turn of one with
    nothing to do changes nothing. *)
Definition turn (w : nat) (s : RevisionPairing) : RevisionPairing :=
  match watchdogs s !! w with
  | Some d =>
      match w_stage d with
      | Checking => framesIdle w s
      | BarrierDone => arm w d s
      | Armed => onElapsed w d s
      | _ => s
      end
  | None => s
  end.

Definition step (s : RevisionPairing) (e : Event) : RevisionPairing :=
  match e with
  | SetMarkerEnabled b => setMarkerEnabled b s
  | FrameOpened r => frameOpened r s
  | FrameClosed r => frameClosed r s
  | OfferSnapshot sn ch => offerSnapshot sn ch s
  | OfferMarker r sr => offerMarker r sr s
  | Dispose => dispose s
  | BarrierSettles w ok =>
      match watchdogs s !! w with
      | Some d => if decide (w_stage d = CatchingUp) then onCaughtUp w ok s else s
      | None => s
      end
  | Turn w => turn w s
  end.

Definition run (max : Z) (events : list Event) : RevisionPairing := foldl step (newPairing max) events.
