(* ===== verification/PairingTheorems.v ===== *)
(** * Frame and tree pairing: theorems

    Every operation is first brought to a normal form: new maps, a list of
    cancelled watchdogs and a list of outputs.  The invariant, the refinement of
    the pairing specification and the accounting of halves are read off it. *)

From S2P Require Import Prelude JsText Dto JsObject Tree Pairing.

Local Open Scope Z_scope.

(** ** Normal forms *)

Definition cancel_watchdog (w : DeferredWatchdog) : DeferredWatchdog :=
  {| w_revision := w_revision w; w_half := w_half w;
     w_stage := if decide (w_stage w = Armed) then Over else w_stage w; cancelled := true; elapsed := elapsed w |}.
Definition cancel_all (ws : list nat) (l : list DeferredWatchdog) : list DeferredWatchdog :=
  foldl (fun l w => alter cancel_watchdog w l) l ws.

(** Cancelling the watchdogs [ws] and emitting [os]. *)
Definition bulk (ws : list nat) (os : list Output) (s : RevisionPairing) : RevisionPairing :=
  {| maxPending := maxPending s; snapshots := snapshots s; markers := markers s;
     markerEnabled := markerEnabled s; published := published s; disposed := disposed s; openFrames := openFrames s;
     watchdogs := cancel_all ws (watchdogs s); log := log s ++ os |}.

Lemma bulk_nil s : bulk [] [] s = s.
Proof. unfold bulk. rewrite app_nil_r. by destruct s. Qed.
Lemma bulk_bulk ws os ws' os' s : bulk ws os (bulk ws' os' s) = bulk (ws' ++ ws) (os' ++ os) s.
Proof. unfold bulk, cancel_all. cbn. by rewrite foldl_app, <- (assoc_L (++)). Qed.
Lemma cancel_bulk w s : cancel w s = bulk [w] [] s.
Proof. unfold bulk. rewrite app_nil_r. done. Qed.
Lemma emit_bulk s o : emit s o = bulk [] [o] s.
Proof. done. Qed.

(** The laws of the maps. *)
Class StoreLaws T `{PendingStore T} := {
  store_set s v : store (set_store s v) = v;
  set_store_id s : set_store s (store s) = s;
  set_set s v w : set_store (set_store s v) w = set_store s w;
  store_bulk ws os s : store (bulk ws os s) = store s;
  set_bulk ws os s v : set_store (bulk ws os s) v = bulk ws os (set_store s v);
  max_set s v : maxPending (set_store s v) = maxPending s;
}.
Global Instance snapshot_laws : StoreLaws PendingSnapshot.
Proof. by constructor; intros []; intros. Qed.
Global Instance marker_laws : StoreLaws PendingMarker.
Proof. by constructor; intros []; intros. Qed.

(** The entries below a revision, those evicted, and what giving them up says. *)
Section Normal.
Context {T} `{StoreLaws T}.
Implicit Types (l : list (Z * T)) (s : RevisionPairing).

Definition below (r : Z) l : list (Z * T) := List.filter (fun e => negb (r <=? e.1)) l.
Definition wds l : list nat := (fun e => watchdog e.2) <$> l.
Definition gone (c : DiagnosticCode) l : list Output := Diagnostic c <$> keys l.

Ltac normal := repeat (rewrite ?store_bulk, ?set_bulk, ?store_set, ?set_set, ?bulk_bulk).

Lemma drop_loop r l s :
  foldl (drop_pending r) s l =
    bulk (wds (below r l)) (gone revision_superseded (below r l))
      (set_store s (foldl jdelete (store s) (keys (below r l)))).
Proof.
  revert s. induction l as [|[k e] l IH]; intros s; cbn [foldl below List.filter].
  - cbn. by rewrite bulk_nil, set_store_id.
  - unfold drop_pending at 2. cbn [fst snd]. destruct (r <=? k) eqn:E; cbn [negb]; [by rewrite IH|].
    fold (below r l). rewrite IH, emit_bulk, cancel_bulk. normal. done.
Qed.

(** How many entries the bound gives up. *)
Definition surplus (max : Z) (n : nat) : nat := Z.to_nat (Z.of_nat n - Z.max 0 max).

Lemma evict_normal l s :
  store s = l ->
  evict l s = bulk (wds (take (surplus (maxPending s) (length l)) l))
                (gone revision_dropped (take (surplus (maxPending s) (length l)) l))
                (set_store s (drop (surplus (maxPending s) (length l)) l)).
Proof.
  revert s. induction l as [|e l IH]; intros s Hs; cbn [evict].
  - rewrite take_nil, drop_nil. cbn. rewrite bulk_nil, <- Hs. symmetry. apply set_store_id.
  - destruct (Z.ltb_spec (maxPending s) (Z.of_nat (length (e :: l)))) as [Hlt|Hge].
    + rewrite IH by (rewrite emit_bulk, store_bulk; apply store_set).
      rewrite emit_bulk, cancel_bulk. cbn [maxPending bulk]. rewrite max_set. cbn [maxPending bulk].
      assert (surplus (maxPending s) (length (e :: l)) = S (surplus (maxPending s) (length l))) as ->.
      { unfold surplus. cbn [length] in *. lia. }
      cbn [take drop]. rewrite !set_bulk, set_set, !bulk_bulk. done.
    + assert (surplus (maxPending s) (length (e :: l)) = 0%nat) as -> by (unfold surplus; lia).
      cbn [take drop]. rewrite <- Hs, set_store_id. cbn. by rewrite bulk_nil.
Qed.

(** The watchdogs of the entry a key holds. *)
Definition held_by (m : list (Z * T)) (k : Z) : list nat :=
  match jget m k with Some e => [watchdog e] | None => [] end.

Lemma retain_normal r e s :
  let st := jset (store s) r e in
  let n := surplus (maxPending s) (length st) in
  retain r e s = bulk (held_by (store s) r ++ wds (take n st)) (gone revision_dropped (take n st))
                   (set_store s (drop n st)).
Proof.
  cbv zeta. unfold retain, held_by. destruct (jget (store s) r) as [old|]; cbn [app].
  - rewrite cancel_bulk, store_bulk, set_bulk, evict_normal by done. rewrite store_bulk, store_set.
    cbn [maxPending bulk]. rewrite max_set, set_bulk, set_set, bulk_bulk. done.
  - rewrite evict_normal by done. by rewrite store_set, max_set, set_set.
Qed.
End Normal.

(** ** Watchdogs belong to the halves that are held *)

(** The map of half [h] holds revision [r] with watchdog [w]. *)
Definition holding {T} `{PendingStore T} (m : list (Z * T)) (w : nat) (r : Z) : Prop :=
  exists e, jget m r = Some e /\ watchdog e = w.
Definition holds (s : RevisionPairing) (w : nat) (r : Z) (h : Half) : Prop :=
  match h with tree => holding (snapshots s) w r | marker => holding (markers s) w r end.

(** A watchdog that was not cancelled. *)
Definition alive (l : list DeferredWatchdog) (w : nat) (r : Z) (h : Half) : Prop :=
  exists d, l !! w = Some d /\ cancelled d = false /\ w_revision d = r /\ w_half d = h.

(** The watchdogs that were not cancelled are those of the halves held. *)
Definition exact (s : RevisionPairing) : Prop :=
  forall w r h, holds s w r h <-> alive (watchdogs s) w r h.

Lemma alive_cancel_all ws l w r h : alive (cancel_all ws l) w r h <-> alive l w r h /\ w ∉ ws.
Proof.
  revert l. induction ws as [|w0 ws IH]; intros l; cbn [cancel_all foldl].
  - split; [intros H; split; [done|apply not_elem_of_nil]|by intros [? _]].
  - fold (cancel_all ws (alter cancel_watchdog w0 l)). rewrite IH, not_elem_of_cons. unfold alive.
    destruct (decide (w = w0)) as [->|Hne].
    + rewrite list_lookup_alter_eq. split; [|naive_solver]. intros [(d & Hd & Hc & _) _].
      destruct (l !! w0); [|done]. injection Hd as <-. done.
    + rewrite list_lookup_alter_ne by done. naive_solver.
Qed.

Lemma alive_inj l w r h r' h' : alive l w r h -> alive l w r' h' -> r = r' /\ h = h'.
Proof. intros (d & Hd & _ & <- & <-) (d' & Hd' & _ & <- & <-). assert (d = d') as -> by congruence. done. Qed.

Lemma alive_new l w r h r0 h0 :
  alive (l ++ [{| w_revision := r0; w_half := h0; w_stage := CatchingUp; cancelled := false; elapsed := false |}]) w r h <->
  alive l w r h \/ (w = length l /\ r = r0 /\ h = h0).
Proof.
  unfold alive. setoid_rewrite lookup_app. split.
  - intros (d & Hd & Hc & Hr & Hh). destruct (l !! w) eqn:E; [left; injection Hd as ->; by exists d|].
    right. apply lookup_ge_None in E. destruct (w - length l)%nat eqn:En; [|done]. injection Hd as <-.
    cbn in Hr, Hh. subst. split; [lia|done].
  - intros [(d & Hd & Hr)|(-> & -> & ->)]; [exists d; by rewrite Hd|].
    rewrite lookup_ge_None_2, Nat.sub_diag by lia. by eexists.
Qed.

Lemma alive_lt l w r h : alive l w r h -> (w < length l)%nat.
Proof. intros (d & Hd & _). by apply lookup_lt_Some in Hd. Qed.

(** [m'] is [m] without the keys [ks], whose watchdogs are [ws]. *)
Record trimmed {T} `{PendingStore T} (ks : list Z) (ws : list nat) (m m' : list (Z * T)) : Prop := {
  tr_get r e : jget m' r = Some e <-> jget m r = Some e /\ r ∉ ks;
  tr_ws w : w ∈ ws <-> exists r, r ∈ ks /\ holding m w r;
}.

Section Trim.
Context {T} `{PendingStore T}.
Implicit Types m : list (Z * T).

Lemma trimmed_nil m : trimmed [] [] m m.
Proof.
  constructor.
  - intros r e. split; [intros; split; [done|apply not_elem_of_nil]|by intros [? _]].
  - intros w. split; [by intros ?%elem_of_nil|by intros (r & ?%elem_of_nil & _)].
Qed.

Lemma elem_of_wds m w : NoDup (keys m) -> w ∈ wds m <-> exists r, r ∈ keys m /\ holding m w r.
Proof.
  intros Hnd. unfold wds, holding. rewrite list_elem_of_fmap. split.
  - intros ([r e] & -> & Hin). exists r. split; [by apply (list_elem_of_fmap_2 fst) in Hin|].
    exists e. split; [|done]. by apply jget_In.
  - intros (r & _ & e & He & <-). exists (r, e). split; [done|]. by apply jget_In.
Qed.

(** Trimming to a part of the entries. *)
Lemma trimmed_part m gone_ m' :
  NoDup (keys m) -> gone_ ++ m' ≡ₚ m -> trimmed (keys gone_) (wds gone_) m m'.
Proof.
  intros Hnd Hp. assert (NoDup (keys gone_) /\ NoDup (keys m') /\ forall r, r ∈ keys m' -> r ∉ keys gone_) as (Ng & Nk & Hd).
  { unfold keys in *. rewrite <- Hp, fmap_app in Hnd. apply NoDup_app in Hnd as (? & ? & ?). naive_solver. }
  constructor.
  - intros r e. rewrite !jget_In by done. rewrite <- Hp, elem_of_app. split.
    + intros Hin. split; [by right|]. intros Hg. apply (Hd r); [|done]. by apply (list_elem_of_fmap_2 fst) in Hin.
    + intros [[Hin|Hin] Hni]; [|done]. destruct Hni. by apply (list_elem_of_fmap_2 fst) in Hin.
  - intros w. rewrite elem_of_wds by done. unfold holding.
    assert (forall r e, r ∈ keys gone_ -> (jget gone_ r = Some e <-> jget m r = Some e)) as Heq.
    { intros r e Hr. rewrite !jget_In by done. rewrite <- Hp, elem_of_app. split; [by left|].
      intros [?|Hin]; [done|]. exfalso. apply (Hd r); [|done]. by apply (list_elem_of_fmap_2 fst) in Hin. }
    split; intros (r & Hr & e & He & Hw); exists r; (split; [done|]); exists e; split; try done; by apply Heq.
Qed.

Lemma below_deletes r m :
  NoDup (keys m) -> foldl jdelete m (keys (below r m)) = List.filter (fun e => r <=? e.1) m.
Proof.
  intros Hnd. enough (forall ks, (forall k, k ∈ keys m -> (k ∈ ks <-> k < r)) ->
    foldl jdelete m ks = List.filter (fun e => r <=? e.1) m) as Hg.
  { apply Hg. intros k Hk. unfold below. rewrite (keys_filter (fun k => negb (r <=? k))), list_elem_of_In, filter_In, <- list_elem_of_In.
    rewrite negb_true_iff, Z.leb_gt. naive_solver. }
  clear Hnd. intros ks Hks.
  assert (foldl jdelete m ks = List.filter (fun e => negb (bool_decide (e.1 ∈ ks))) m) as ->.
  { clear Hks. revert m. induction ks as [|k ks IH]; intros m; cbn [foldl].
    - induction m as [|e m IHm]; cbn; [done|]. by rewrite <- IHm.
    - rewrite IH. unfold jdelete. induction m as [|e m IHm]; cbn; [done|].
      destruct (decide (e.1 = k)) as [->|Hne].
      + rewrite bool_decide_eq_true_2 by done. cbn. rewrite bool_decide_eq_true_2 by left. done.
      + rewrite bool_decide_eq_false_2 by done. cbn.
        rewrite (bool_decide_ext (e.1 ∈ k :: ks) (e.1 ∈ ks)) by (rewrite elem_of_cons; naive_solver).
        destruct (bool_decide (e.1 ∈ ks)); cbn; by rewrite IHm. }
  induction m as [|[k e] m IHm]; cbn; [done|]. rewrite IHm by (intros k' Hk'; apply Hks; by right).
  destruct (decide (k ∈ ks)) as [Hin|Hni].
  - rewrite bool_decide_eq_true_2 by done. apply Hks in Hin; [|left]. cbn. by rewrite (proj2 (Z.leb_gt r k)).
  - rewrite bool_decide_eq_false_2 by done. cbn. rewrite (proj2 (Z.leb_le r k)); [done|].
    destruct (Z.le_gt_cases r k); [done|]. destruct Hni. apply Hks; [left|lia].
Qed.

Lemma below_split r m : below r m ++ List.filter (fun e => r <=? e.1) m ≡ₚ m.
Proof.
  induction m as [|[k e] m IH]; cbn; [done|]. destruct (r <=? k); cbn.
  - rewrite <- Permutation_middle. by f_equiv.
  - by f_equiv.
Qed.

Lemma trimmed_below r m :
  NoDup (keys m) -> trimmed (keys (below r m)) (wds (below r m)) m (foldl jdelete m (keys (below r m))).
Proof. intros Hnd. rewrite below_deletes by done. apply trimmed_part; [done|apply below_split]. Qed.

Lemma trimmed_evicted n m : NoDup (keys m) -> trimmed (keys (take n m)) (wds (take n m)) m (drop n m).
Proof. intros Hnd. apply trimmed_part; [done|]. by rewrite take_drop. Qed.

Lemma trimmed_one m r e : jget m r = Some e -> trimmed [r] [watchdog e] m (jdelete m r).
Proof.
  intros He. constructor.
  - intros k v. rewrite jget_jdelete, list_elem_of_singleton. destruct (decide (r = k)); naive_solver.
  - intros w. rewrite list_elem_of_singleton. unfold holding. split.
    + intros ->. exists r. split; [by left|eauto].
    + intros (k & ->%list_elem_of_singleton & e' & He' & <-). congruence.
Qed.
End Trim.

(** Giving up halves together with their watchdogs keeps the correspondence. *)
Lemma exact_trim s s' ks ws ks' ws' :
  exact s -> trimmed ks ws (snapshots s) (snapshots s') -> trimmed ks' ws' (markers s) (markers s') ->
  watchdogs s' = cancel_all (ws ++ ws') (watchdogs s) -> exact s'.
Proof.
  intros He [G1 W1] [G2 W2] Hw w r h. rewrite Hw, alive_cancel_all, <- (He w r h), not_elem_of_app, W1, W2.
  assert (forall r' h', holds s w r h -> holds s w r' h' -> r = r' /\ h = h') as Hinj.
  { intros r' h' Ha Hb. apply He in Ha, Hb. by eapply alive_inj. }
  destruct h; cbn [holds] in *; unfold holding in *.
  - split.
    + intros (e & Hg & Hwd). apply G1 in Hg as [Hg Hni]. split; [by eauto|]. split.
      * intros (r' & Hr' & Hh). by destruct (Hinj r' tree ltac:(eauto) Hh) as [-> _].
      * intros (r' & Hr' & Hh). by destruct (Hinj r' marker ltac:(eauto) Hh) as [_ ?].
    + intros ((e & Hg & Hwd) & H1 & _). exists e. split; [|done]. apply G1. split; [done|]. intros Hr. apply H1. eauto.
  - split.
    + intros (e & Hg & Hwd). apply G2 in Hg as [Hg Hni]. split; [by eauto|]. split.
      * intros (r' & Hr' & Hh). by destruct (Hinj r' tree ltac:(eauto) Hh) as [_ ?].
      * intros (r' & Hr' & Hh). by destruct (Hinj r' marker ltac:(eauto) Hh) as [-> _].
    + intros ((e & Hg & Hwd) & _ & H2). exists e. split; [|done]. apply G2. split; [done|]. intros Hr. apply H2. eauto.
Qed.

(** Storing a half under a new watchdog, in place of one it held. *)
Lemma exact_insert s s' r0 h0 ws :
  exact s -> (forall w, w ∈ ws <-> holds s w r0 h0) ->
  (forall w r h, holds s' w r h <->
     (w = length (watchdogs s) /\ r = r0 /\ h = h0) \/ (holds s w r h /\ ~ (r = r0 /\ h = h0))) ->
  watchdogs s' = cancel_all ws (watchdogs (watch r0 h0 s)) -> exact s'.
Proof.
  intros He Hws Hh Hw w r h. rewrite Hh, Hw, alive_cancel_all. cbn [watch set_watchdogs watchdogs].
  rewrite alive_new, <- (He w r h), Hws. split.
  - intros [(-> & -> & ->)|[Ha Hne]].
    + split; [by right|]. intros Hl. apply He, alive_lt in Hl. lia.
    + split; [by left|]. intros Hb. apply Hne. apply He in Ha, Hb. by eapply alive_inj.
  - intros [[Ha|Hn] Hni]; [right|by left]. split; [done|]. by intros [-> ->].
Qed.

Section Insert.
Context {T} `{PendingStore T}.
Implicit Types m : list (Z * T).

Lemma holding_jset m r e w k : holding (jset m r e) w k <-> (w = watchdog e /\ k = r) \/ (holding m w k /\ k <> r).
Proof. unfold holding. setoid_rewrite jget_jset. destruct (decide (r = k)); naive_solver. Qed.

Lemma elem_of_held_by m r w : w ∈ held_by m r <-> holding m w r.
Proof.
  unfold held_by, holding. destruct (jget m r) as [e|].
  - rewrite list_elem_of_singleton. naive_solver.
  - split; [by intros ?%elem_of_nil|naive_solver].
Qed.

Lemma jset_NoDup m r e : NoDup (keys m) -> NoDup (keys (jset m r e)).
Proof.
  intros Hnd. rewrite keys_jset. destruct (decide _) as [|Hni]; [done|]. apply NoDup_app. split; [done|].
  split; [|apply NoDup_singleton]. intros x Hx ->%list_elem_of_singleton. done.
Qed.

Lemma keys_jset_elem m r e k : k ∈ keys (jset m r e) <-> k = r \/ k ∈ keys m.
Proof. rewrite keys_jset. destruct (decide _); [naive_solver|]. rewrite elem_of_app, list_elem_of_singleton. naive_solver. Qed.

Lemma drop_NoDup n m : NoDup (keys m) -> NoDup (keys (drop n m)).
Proof. unfold keys. rewrite fmap_drop. intros Hnd. rewrite <- (take_drop n m.*1) in Hnd. by apply NoDup_app in Hnd as (_ & _ & ?). Qed.

Lemma keys_drop n m k : k ∈ keys (drop n m) -> k ∈ keys m.
Proof. unfold keys. rewrite fmap_drop. intros Hk. rewrite <- (take_drop n m.*1). apply elem_of_app. by right. Qed.

Lemma surplus_bound max m : Z.of_nat (length (drop (surplus max (length m)) m)) <= Z.max 0 max.
Proof. rewrite length_drop. unfold surplus. lia. Qed.
End Insert.

(** ** The invariant *)

Definition bounded (s : RevisionPairing) : Prop :=
  Z.of_nat (length (snapshots s)) <= Z.max 0 (maxPending s) /\ Z.of_nat (length (markers s)) <= Z.max 0 (maxPending s).

Record sound (s : RevisionPairing) : Prop := {
  so_snapshots : NoDup (keys (snapshots s));
  so_markers : NoDup (keys (markers s));
  so_tree r e : jget (snapshots s) r = Some e -> s_revision (ps_snapshot e) = r;
  so_apart r : r ∈ keys (snapshots s) -> r ∉ keys (markers s);
  so_exact : exact s;
}.

(** Removing entries from sound maps, their watchdogs cancelled. *)
Lemma sound_trim s s' ks ws ks' ws' :
  sound s -> trimmed ks ws (snapshots s) (snapshots s') -> trimmed ks' ws' (markers s) (markers s') ->
  NoDup (keys (snapshots s')) -> NoDup (keys (markers s')) ->
  watchdogs s' = cancel_all (ws ++ ws') (watchdogs s) -> sound s'.
Proof.
  intros [] T1 T2 N1 N2 Hw. constructor; [done|done| | |by eapply exact_trim].
  - intros r e He. apply T1 in He as [He _]. auto.
  - intros r H1 H2. apply jhas_keys, jhas_true in H1 as [e H1], H2 as [e' H2].
    apply T1 in H1 as [H1 _]. apply T2 in H2 as [H2 _]. apply (so_apart0 r); by eapply jget_Some_keys.
Qed.

Lemma trim_length {T} `{PendingStore T} (m : list (Z * T)) (p : Z * T -> bool) :
  (length (List.filter p m) <= length m)%nat.
Proof. apply List.filter_length_le. Qed.

(** [#publish] *)
Lemma publish_normal p s :
  publish p s =
    bulk (wds (below (pr_revision p) (snapshots s)) ++ wds (below (pr_revision p) (markers s)))
      (gone revision_superseded (below (pr_revision p) (snapshots s)) ++
       gone revision_superseded (below (pr_revision p) (markers s)) ++ [Publish p])
      (set_markers (set_snapshots (set_published s (Some p))
         (foldl jdelete (snapshots s) (keys (below (pr_revision p) (snapshots s)))))
         (foldl jdelete (markers s) (keys (below (pr_revision p) (markers s))))).
Proof.
  unfold publish, dropBelow. rewrite emit_bulk, !drop_loop. cbn [store set_store snapshot_store marker_store].
  cbn [markers snapshots bulk set_snapshots set_published].
  change (set_markers (bulk ?w ?o ?x) ?v) with (bulk w o (set_markers x v)).
  by rewrite !bulk_bulk, app_nil_r.
Qed.

Lemma sound_publish p s : sound s -> sound (publish p s).
Proof.
  intros Hs. rewrite publish_normal. set (r := pr_revision p). pose proof Hs as [].
  eapply sound_trim; [exact Hs|by apply trimmed_below|by apply trimmed_below|..];
    cbn [snapshots markers bulk set_markers set_snapshots set_published watchdogs maxPending].
  - by apply NoDup_deletes.
  - by apply NoDup_deletes.
  - done.
Qed.

Lemma bounded_publish p s : sound s -> bounded s -> bounded (publish p s).
Proof.
  intros [] Hb. rewrite publish_normal. unfold bounded in *. set (r := pr_revision p).
  cbn [snapshots markers bulk set_markers set_snapshots set_published maxPending].
  rewrite !below_deletes by done. pose proof (trim_length (snapshots s) (fun e => r <=? e.1)).
  pose proof (trim_length (markers s) (fun e => r <=? e.1)). lia.
Qed.

(** What is left is not below what was published. *)
Lemma publish_above p s r :
  sound s -> r ∈ keys (snapshots (publish p s)) \/ r ∈ keys (markers (publish p s)) -> pr_revision p <= r.
Proof.
  intros []. rewrite publish_normal. cbn [snapshots markers bulk set_markers set_snapshots set_published].
  rewrite !below_deletes, !(keys_filter (fun k => pr_revision p <=? k)) by done.
  rewrite !list_elem_of_In, !filter_In, !Z.leb_le. tauto.
Qed.

(** [#retain] of a tree *)
Lemma retain_tree r sn ch s :
  let e := {| ps_snapshot := sn; ps_changedNodes := ch; ps_watchdog := length (watchdogs s) |} in
  let st := jset (snapshots s) r e in
  let n := surplus (maxPending s) (length st) in
  retain r e (watch r tree s) =
    bulk (held_by (snapshots s) r ++ wds (take n st)) (gone revision_dropped (take n st))
      (set_snapshots (watch r tree s) (drop n st)).
Proof. intros e. exact (retain_normal r e (watch r tree s)). Qed.

Lemma retain_mark r sr s :
  let e := {| pm_screenRevision := sr; pm_watchdog := length (watchdogs s) |} in
  let st := jset (markers s) r e in
  let n := surplus (maxPending s) (length st) in
  retain r e (watch r marker s) =
    bulk (held_by (markers s) r ++ wds (take n st)) (gone revision_dropped (take n st))
      (set_markers (watch r marker s) (drop n st)).
Proof. intros e. exact (retain_normal r e (watch r marker s)). Qed.

Lemma sound_retain_tree sn ch s :
  sound s -> s_revision sn ∉ keys (markers s) ->
  sound (retain (s_revision sn) {| ps_snapshot := sn; ps_changedNodes := ch; ps_watchdog := length (watchdogs s) |}
           (watch (s_revision sn) tree s)).
Proof.
  intros [] Hni. rewrite retain_tree. set (r := s_revision sn) in *. set (e := {| ps_snapshot := sn |}).
  set (st := jset (snapshots s) r e). set (n := surplus _ _).
  set (mid := bulk (held_by (snapshots s) r) [] (set_snapshots (watch r tree s) st)).
  assert (sound mid) as Hmid.
  { constructor; cbn [mid bulk snapshots markers set_snapshots watch set_watchdogs].
    - by apply jset_NoDup.
    - done.
    - intros k v. unfold st. rewrite jget_jset. destruct (decide (r = k)) as [<-|]; [by intros [= <-]|auto].
    - intros k. unfold st. rewrite keys_jset_elem. intros [->|Hk]; auto.
    - apply (exact_insert s _ r tree (held_by (snapshots s) r)); [done| | |done].
      + intros w. apply elem_of_held_by.
      + intros w k h. destruct h; cbn [holds mid bulk snapshots markers set_snapshots watch set_watchdogs].
        * unfold st. rewrite holding_jset. cbn. naive_solver.
        * naive_solver. }
  apply (sound_trim mid _ (keys (take n st)) (wds (take n st)) [] []); [done| | | |done|].
  - apply trimmed_evicted. apply Hmid.
  - apply trimmed_nil.
  - apply drop_NoDup. apply Hmid.
  - cbn [mid bulk watchdogs set_snapshots watch set_watchdogs]. unfold cancel_all. by rewrite app_nil_r, foldl_app.
Qed.

Lemma sound_retain_mark r sr s :
  sound s -> r ∉ keys (snapshots s) ->
  sound (retain r {| pm_screenRevision := sr; pm_watchdog := length (watchdogs s) |} (watch r marker s)).
Proof.
  intros [] Hni. rewrite retain_mark. set (e := {| pm_screenRevision := sr |}).
  set (st := jset (markers s) r e). set (n := surplus _ _).
  set (mid := bulk (held_by (markers s) r) [] (set_markers (watch r marker s) st)).
  assert (sound mid) as Hmid.
  { constructor; cbn [mid bulk snapshots markers set_markers watch set_watchdogs].
    - done.
    - by apply jset_NoDup.
    - done.
    - intros k Hk. unfold st. rewrite keys_jset_elem. intros [->|Hk']; [done|]. by apply (so_apart0 k).
    - apply (exact_insert s _ r marker (held_by (markers s) r)); [done| | |done].
      + intros w. apply elem_of_held_by.
      + intros w k h. destruct h; cbn [holds mid bulk snapshots markers set_markers watch set_watchdogs].
        * naive_solver.
        * unfold st. rewrite holding_jset. cbn. naive_solver. }
  apply (sound_trim mid _ [] [] (keys (take n st)) (wds (take n st))); [done| | |done| |].
  - apply trimmed_nil.
  - apply trimmed_evicted. apply Hmid.
  - apply drop_NoDup. apply Hmid.
  - cbn [mid bulk watchdogs set_markers watch set_watchdogs]. unfold cancel_all. by rewrite foldl_app.
Qed.

(** ** Steps that leave the maps alone *)

Lemma sound_same s s' :
  sound s -> snapshots s' = snapshots s -> markers s' = markers s ->
  (forall w r h, alive (watchdogs s') w r h <-> alive (watchdogs s) w r h) -> sound s'.
Proof.
  intros [] Hs Hm Hw. constructor; rewrite ?Hs, ?Hm; try done.
  intros w r h. unfold holds. rewrite Hs, Hm, Hw. apply so_exact0.
Qed.

(** A change of watchdogs that keeps whether they were cancelled, and for what. *)
Lemma alive_alter f i l w r h :
  (forall d, cancelled (f d) = cancelled d /\ w_revision (f d) = w_revision d /\ w_half (f d) = w_half d) ->
  alive (alter f i l) w r h <-> alive l w r h.
Proof.
  intros Hf. unfold alive. rewrite list_lookup_alter. destruct (decide (i = w)) as [->|]; [|done].
  destruct (l !! w) as [d|]; cbn; [|naive_solver]. destruct (Hf d) as (H1 & H2 & H3). split.
  - intros (d' & [= <-] & ?). exists d. by rewrite <- H1, <- H2, <- H3.
  - intros (d' & [= <-] & ?). exists (f d). by rewrite H1, H2, H3.
Qed.

Lemma alive_fmap f l w r h :
  (forall d, cancelled (f d) = cancelled d /\ w_revision (f d) = w_revision d /\ w_half (f d) = w_half d) ->
  alive (f <$> l) w r h <-> alive l w r h.
Proof.
  intros Hf. unfold alive. rewrite list_lookup_fmap. destruct (l !! w) as [d|]; cbn; [|naive_solver].
  destruct (Hf d) as (H1 & H2 & H3). split.
  - intros (d' & [= <-] & ?). exists d. by rewrite <- H1, <- H2, <- H3.
  - intros (d' & [= <-] & ?). exists (f d). by rewrite H1, H2, H3.
Qed.

Lemma alive_released l w r h :
  alive ((fun w => if decide (w_stage w = AwaitingFrames) then with_stage Checking w else w) <$> l) w r h <->
  alive l w r h.
Proof. apply alive_fmap. intros d. by destruct (decide _). Qed.

Lemma cancel_loop {T} `{PendingStore T} (l : list (Z * T)) s :
  foldl (fun s e => cancel (watchdog e.2) s) s l = bulk (wds l) [] s.
Proof.
  revert s. induction l as [|e l IH]; intros s; cbn [foldl wds fmap list_fmap]; [by rewrite bulk_nil|].
  rewrite IH, cancel_bulk, bulk_bulk. done.
Qed.

Lemma sound_dispose s : sound s -> sound (dispose s).
Proof.
  intros Hs. unfold dispose. destruct (disposed s); [done|].
  change (fun s e => cancel (ps_watchdog e.2) s) with
    (fun s (e : Z * PendingSnapshot) => cancel (watchdog e.2) s).
  change (fun s e => cancel (pm_watchdog e.2) s) with
    (fun s (e : Z * PendingMarker) => cancel (watchdog e.2) s).
  rewrite !cancel_loop, !bulk_bulk. pose proof Hs as [].
  set (s1 := set_openFrames _ _). apply (sound_same s1); [|done|done|intros; apply alive_released].
  apply (sound_trim s s1 (keys (snapshots s)) (wds (snapshots s)) (keys (markers s)) (wds (markers s)));
    [done| | |constructor|constructor|done].
  - apply (trimmed_part (snapshots s) (snapshots s) []); [done|]. by rewrite app_nil_r.
  - apply (trimmed_part (markers s) (markers s) []); [done|]. by rewrite app_nil_r.
Qed.

(** ** Invariant of the component *)

Record pairing_ok (s : RevisionPairing) : Prop := {
  ok_sound : sound s;
  ok_bounded : bounded s;
  ok_above r : r ∈ keys (snapshots s) \/ r ∈ keys (markers s) -> revision_of s <= r;
  ok_disposed : disposed s = true -> snapshots s = [] /\ markers s = [];
}.

Lemma pairing_ok_same s s' :
  pairing_ok s -> snapshots s' = snapshots s -> markers s' = markers s ->
  (forall w r h, alive (watchdogs s') w r h <-> alive (watchdogs s) w r h) ->
  maxPending s' = maxPending s -> published s' = published s -> disposed s' = disposed s -> pairing_ok s'.
Proof.
  intros [] Hs Hm Hw Hx Hp Hd. constructor; unfold bounded, revision_of; rewrite ?Hs, ?Hm, ?Hx, ?Hp, ?Hd; try done.
  by eapply sound_same.
Qed.

Lemma pairing_ok_publish p s : sound s -> bounded s -> disposed s = false -> pairing_ok (publish p s).
Proof.
  intros Hs Hb Hd. constructor; [by apply sound_publish|by apply bounded_publish| |].
  - intros r Hr. apply publish_above in Hr; [|done]. rewrite publish_normal. done.
  - rewrite publish_normal. cbn. congruence.
Qed.

(** The state in which a half was taken out to be published. *)
Definition take_mark (r : Z) (m : PendingMarker) (s : RevisionPairing) : RevisionPairing :=
  let s := cancel (pm_watchdog m) s in set_markers s (jdelete (markers s) r).
Definition take_tree (r : Z) (e : PendingSnapshot) (s : RevisionPairing) : RevisionPairing :=
  let s := cancel (ps_watchdog e) s in set_snapshots s (jdelete (snapshots s) r).

Lemma sound_take_mark r m s : sound s -> jget (markers s) r = Some m -> sound (take_mark r m s).
Proof.
  intros Hs Hm. apply (sound_trim s _ [] [] [r] [pm_watchdog m]); try done; [apply trimmed_nil|exact (trimmed_one _ _ _ Hm)|apply Hs|].
  apply (NoDup_deletes _ [r]), Hs.
Qed.
Lemma sound_take_tree r e s : sound s -> jget (snapshots s) r = Some e -> sound (take_tree r e s).
Proof.
  intros Hs He. apply (sound_trim s _ [r] [ps_watchdog e] [] []); try done; [exact (trimmed_one _ _ _ He)|apply trimmed_nil| |apply Hs].
  apply (NoDup_deletes _ [r]), Hs.
Qed.
Lemma bounded_take_mark r m s : bounded s -> bounded (take_mark r m s).
Proof.
  unfold bounded. cbn. unfold jdelete. pose proof (trim_length (markers s) (fun kv => negb (bool_decide (kv.1 = r)))). lia.
Qed.
Lemma bounded_take_tree r e s : bounded s -> bounded (take_tree r e s).
Proof.
  unfold bounded. cbn. unfold jdelete. pose proof (trim_length (snapshots s) (fun kv => negb (bool_decide (kv.1 = r)))). lia.
Qed.

Lemma offerSnapshot_ok sn ch s : pairing_ok s -> pairing_ok (offerSnapshot sn ch s).
Proof.
  intros Hok. pose proof Hok as []. unfold offerSnapshot. cbv zeta. destruct (disposed s) eqn:Ed; [done|].
  destruct (Z.leb_spec (s_revision sn) (revision_of s)); [by apply (pairing_ok_same s)|].
  destruct (markerEnabled s); cbn [negb]; [|by apply pairing_ok_publish].
  destruct (jget (markers s) (s_revision sn)) as [m|] eqn:Em.
  - apply (pairing_ok_publish _ (take_mark (s_revision sn) m s)); [by apply sound_take_mark|by apply bounded_take_mark|done].
  - apply jget_None in Em. pose proof (sound_retain_tree sn ch s ok_sound0 Em) as Hso. rewrite retain_tree in *.
    set (st := jset _ _ _) in *. constructor; [done| | |].
    + unfold bounded in *. cbn [snapshots markers bulk set_snapshots watch set_watchdogs maxPending].
      split; [apply surplus_bound|lia].
    + cbn [snapshots markers bulk set_snapshots watch set_watchdogs]. unfold revision_of in *. cbn [published bulk set_snapshots watch set_watchdogs].
      intros r [Hr|Hr]; [|auto]. apply keys_drop in Hr. unfold st in Hr. apply keys_jset_elem in Hr as [->|Hr]; [lia|auto].
    + cbn. congruence.
Qed.

Lemma offerMarker_ok r sr s : pairing_ok s -> pairing_ok (offerMarker r sr s).
Proof.
  intros Hok. pose proof Hok as []. unfold offerMarker. cbv zeta. destruct (disposed s) eqn:Ed; [done|].
  destruct (markerEnabled s); cbn [negb]; [|by apply (pairing_ok_same s)].
  destruct (Z.leb_spec r (revision_of s)); [by apply (pairing_ok_same s)|].
  destruct (jget (snapshots s) r) as [p|] eqn:Ep.
  - apply (pairing_ok_publish _ (take_tree r p s)); [by apply sound_take_tree|by apply bounded_take_tree|done].
  - apply jget_None in Ep. pose proof (sound_retain_mark r sr s ok_sound0 Ep) as Hso. rewrite retain_mark in *.
    set (st := jset _ _ _) in *. constructor; [done| | |].
    + unfold bounded in *. cbn [snapshots markers bulk set_markers watch set_watchdogs maxPending].
      split; [lia|apply surplus_bound].
    + cbn [snapshots markers bulk set_markers watch set_watchdogs]. unfold revision_of in *. cbn [published bulk set_markers watch set_watchdogs].
      intros k [Hk|Hk]; [auto|]. apply keys_drop in Hk. unfold st in Hk. apply keys_jset_elem in Hk as [->|Hk]; [lia|auto].
    + cbn. congruence.
Qed.

Lemma move_ok g w s : pairing_ok s -> pairing_ok (move g w s).
Proof. intros H. apply (pairing_ok_same s); try done. intros. by apply alive_alter. Qed.

Lemma step_ok s e : pairing_ok s -> pairing_ok (step s e).
Proof.
  intros Hok. destruct e; cbn [step].
  - by apply (pairing_ok_same s).
  - unfold frameOpened. destruct (disposed s) eqn:E; [done|]. by apply (pairing_ok_same s).
  - unfold frameClosed. destruct (decide _); [|done]. cbv zeta. destruct (_ =? _)%nat.
    + apply (pairing_ok_same s); try done. intros. apply alive_released.
    + by apply (pairing_ok_same s).
  - by apply offerSnapshot_ok.
  - by apply offerMarker_ok.
  - pose proof Hok as []. pose proof (sound_dispose s ok_sound0) as Hs. unfold dispose in *.
    destruct (disposed s) eqn:E; [done|]. constructor; [done| | |done].
    + split; cbn; lia.
    + intros r [Hr|Hr]; by apply elem_of_nil in Hr.
  - destruct (watchdogs s !! w); [|done]. destruct (decide _); [|done]. by apply move_ok.
  - unfold turn. destruct (watchdogs s !! w) as [d|]; [|done].
    destruct (w_stage d); try done; [by apply move_ok..|].
    unfold onElapsed. destruct (cancelled d); [by apply move_ok|]. cbv zeta.
    match goal with |- pairing_ok (if ?b then emit ?x _ else _) =>
      assert (pairing_ok x) as Hx; [|destruct b; [by apply (pairing_ok_same x)|done]] end.
    apply (pairing_ok_same s); try done. intros. by apply alive_alter.
Qed.

Lemma run_ok max events : pairing_ok (run max events).
Proof.
  unfold run. assert (pairing_ok (newPairing max)) as H0.
  { constructor; [constructor|..]; try done; try constructor; try (by intros ? ?%elem_of_nil).
    - destruct h; by intros (? & ? & _).
    - by intros (? & ? & _).
    - cbn. lia.
    - cbn. lia.
    - intros r [H|H]; by apply elem_of_nil in H. }
  revert H0. generalize (newPairing max). induction events as [|e events IH]; intros s H; cbn [foldl]; [done|].
  by apply IH, step_ok.
Qed.

(** ** What a step says *)

(** Publications and the offers they come from. *)
Inductive comes_from (s : RevisionPairing) (p : PairedRevision) : Event -> Prop :=
| unpaired :
    markerEnabled s = false -> pr_screenRevision p = None ->
    comes_from s p (OfferSnapshot (pr_snapshot p) (pr_changedNodes p))
| tree_second m :
    markerEnabled s = true -> jget (markers s) (pr_revision p) = Some m ->
    pr_screenRevision p = Some (pm_screenRevision m) ->
    comes_from s p (OfferSnapshot (pr_snapshot p) (pr_changedNodes p))
| marker_second e sr :
    markerEnabled s = true -> jget (snapshots s) (pr_revision p) = Some e ->
    ps_snapshot e = pr_snapshot p -> ps_changedNodes e = pr_changedNodes p ->
    pr_screenRevision p = Some sr -> comes_from s p (OfferMarker (pr_revision p) sr).

Definition is_diagnostic (o : Output) : Prop := exists c r, o = Diagnostic c r.

Inductive says (s : RevisionPairing) (e : Event) (s' : RevisionPairing) : list Output -> Prop :=
| says_nothing os :
    log s' = log s ++ os -> Forall is_diagnostic os -> published s' = published s -> says s e s' os
| says_published p os :
    log s' = log s ++ os ++ [Publish p] -> Forall is_diagnostic os -> published s' = Some p ->
    disposed s = false -> revision_of s < pr_revision p -> comes_from s p e -> says s e s' (os ++ [Publish p]).

Lemma gone_diagnostics {T} c (l : list (Z * T)) : Forall is_diagnostic (gone c l).
Proof. unfold gone. apply Forall_fmap, Forall_true. intros r. by exists c, r. Qed.

Lemma publish_says s0 s1 p e :
  log s1 = log s0 -> disposed s0 = false -> revision_of s0 < pr_revision p -> comes_from s0 p e ->
  exists os, says s0 e (publish p s1) os.
Proof.
  intros Hl Hd Hr Hc. rewrite publish_normal. eexists.
  apply (says_published s0 e _ p (gone revision_superseded (below (pr_revision p) (snapshots s1)) ++
                                  gone revision_superseded (below (pr_revision p) (markers s1)))); try done.
  - cbn [log bulk set_markers set_snapshots set_published]. by rewrite Hl, <- !(assoc_L (++)).
  - apply Forall_app. split; apply gone_diagnostics.
Qed.

Lemma step_says s e : pairing_ok s -> exists os, says s e (step s e) os.
Proof.
  intros Hok. assert (forall s', log s' = log s -> published s' = published s -> exists os, says s e s' os) as Hquiet.
  { intros s' Hl Hp. exists []. apply says_nothing; [by rewrite app_nil_r|constructor|done]. }
  assert (forall s' c r, log s' = log s ++ [Diagnostic c r] -> published s' = published s -> exists os, says s e s' os) as Hone.
  { intros s' c r Hl Hp. eexists. apply says_nothing; [done| |done]. constructor; [by exists c, r|constructor]. }
  destruct e; cbn [step].
  - by apply Hquiet.
  - apply Hquiet; unfold frameOpened; by destruct (disposed s).
  - apply Hquiet; unfold frameClosed; destruct (decide _); try done; cbv zeta; by destruct (_ =? _)%nat.
  - unfold offerSnapshot. cbv zeta. destruct (disposed s) eqn:Ed; [by apply Hquiet|].
    destruct (Z.leb_spec (s_revision snapshot) (revision_of s)); [by eapply Hone|].
    destruct (markerEnabled s) eqn:Em; cbn [negb].
    + destruct (jget (markers s) (s_revision snapshot)) as [m|] eqn:Eg.
      * rewrite cancel_bulk. apply publish_says; [cbn; by rewrite app_nil_r|done|done|].
        exact (tree_second s (Build_PairedRevision snapshot changedNodes (Some (pm_screenRevision m))) m Em Eg eq_refl).
      * rewrite retain_tree. eexists. apply says_nothing; [done|apply gone_diagnostics|done].
    + apply publish_says; try done. exact (unpaired s (Build_PairedRevision snapshot changedNodes None) Em eq_refl).
  - unfold offerMarker. cbv zeta. destruct (disposed s) eqn:Ed; [by apply Hquiet|].
    destruct (markerEnabled s) eqn:Em; cbn [negb]; [|by eapply Hone].
    destruct (Z.leb_spec revision (revision_of s)); [by eapply Hone|].
    destruct (jget (snapshots s) revision) as [q|] eqn:Eg.
    + pose proof (so_tree _ (ok_sound _ Hok) _ _ Eg) as Hrev. rewrite cancel_bulk.
      apply publish_says; [cbn; by rewrite app_nil_r|done|unfold pr_revision; cbn; lia|].
      rewrite <- Hrev in *.
      by apply (marker_second s (Build_PairedRevision (ps_snapshot q) (ps_changedNodes q) (Some screenRevision)) q screenRevision).
    + rewrite retain_mark. eexists. apply says_nothing; [done|apply gone_diagnostics|done].
  - unfold dispose. destruct (disposed s); [by apply Hquiet|].
    change (fun s e => cancel (ps_watchdog e.2) s) with (fun s (e : Z * PendingSnapshot) => cancel (watchdog e.2) s).
    change (fun s e => cancel (pm_watchdog e.2) s) with (fun s (e : Z * PendingMarker) => cancel (watchdog e.2) s).
    rewrite !cancel_loop, !bulk_bulk. apply Hquiet; [cbn; by rewrite app_nil_r|done].
  - apply Hquiet; destruct (watchdogs s !! w); try done; by destruct (decide _).
  - unfold turn. destruct (watchdogs s !! w) as [d|]; [|by apply Hquiet].
    destruct (w_stage d); try by apply Hquiet. unfold onElapsed. destruct (cancelled d); [by apply Hquiet|].
    cbv zeta. destruct (match w_half d with tree => _ | marker => _ end); [by eapply Hone|by apply Hquiet].
Qed.

(** ** The specification

    What the pairing barrier promises, as a monitor of the events and outputs in
    the order they happen: it remembers every offer, and allows a publication
    only of an offered tree that is newer than the last one published, with a
    marker offered for that very revision while markers were negotiated, or
    with none when they were not. *)
Record Spec : Type := {
  a_enabled : bool;
  a_closed : bool;
  a_trees : list (SemanticSnapshot * changes);
  a_marks : list (Z * Z);
  a_published : Z;
}.
Definition spec_init : Spec :=
  {| a_enabled := false; a_closed := false; a_trees := []; a_marks := []; a_published := 0 |}.

(** What an event adds to what the monitor knows. *)
Definition note (a : Spec) (e : Event) : Spec :=
  match e with
  | SetMarkerEnabled b =>
      {| a_enabled := b; a_closed := a_closed a; a_trees := a_trees a; a_marks := a_marks a; a_published := a_published a |}
  | OfferSnapshot sn ch =>
      {| a_enabled := a_enabled a; a_closed := a_closed a; a_trees := (sn, ch) :: a_trees a; a_marks := a_marks a;
         a_published := a_published a |}
  | OfferMarker r sr =>
      {| a_enabled := a_enabled a; a_closed := a_closed a; a_trees := a_trees a;
         a_marks := if a_enabled a then (r, sr) :: a_marks a else a_marks a; a_published := a_published a |}
  | Dispose =>
      {| a_enabled := a_enabled a; a_closed := true; a_trees := a_trees a; a_marks := a_marks a;
         a_published := a_published a |}
  | _ => a
  end.

Inductive allowed : Spec -> Event + Output -> Spec -> Prop :=
| allowed_event a e : allowed a (inl e) (note a e)
| allowed_diagnostic a c r : allowed a (inr (Diagnostic c r)) a
| allowed_publish a p :
    a_closed a = false -> (pr_snapshot p, pr_changedNodes p) ∈ a_trees a -> a_published a < pr_revision p ->
    match pr_screenRevision p with
    | None => a_enabled a = false
    | Some sr => a_enabled a = true /\ (pr_revision p, sr) ∈ a_marks a
    end ->
    allowed a (inr (Publish p))
      {| a_enabled := a_enabled a; a_closed := a_closed a; a_trees := a_trees a; a_marks := a_marks a;
         a_published := pr_revision p |}.

Inductive accepts : Spec -> list (Event + Output) -> Spec -> Prop :=
| accepts_nil a : accepts a [] a
| accepts_cons a o a' tr a'' : allowed a o a' -> accepts a' tr a'' -> accepts a (o :: tr) a''.

(** What a step adds to the log. *)
Definition outputs (s s' : RevisionPairing) : list Output := drop (length (log s)) (log s').

(** Events and outputs, in the order they happen. *)
Fixpoint trace (s : RevisionPairing) (events : list Event) : list (Event + Output) :=
  match events with
  | [] => []
  | e :: events => inl e :: (inr <$> outputs s (step s e)) ++ trace (step s e) events
  end.

Record simulates (s : RevisionPairing) (a : Spec) : Prop := {
  si_enabled : a_enabled a = markerEnabled s;
  si_closed : a_closed a = disposed s;
  si_trees r e : jget (snapshots s) r = Some e -> (ps_snapshot e, ps_changedNodes e) ∈ a_trees a;
  si_marks r m : jget (markers s) r = Some m -> (r, pm_screenRevision m) ∈ a_marks a;
  si_published : a_published a = revision_of s;
}.

Lemma accepts_app a tr a' tr' a'' : accepts a tr a' -> accepts a' tr' a'' -> accepts a (tr ++ tr') a''.
Proof. induction 1; intros H'; cbn; [done|]. econstructor; [done|auto]. Qed.

Lemma accepts_diagnostics a os : Forall is_diagnostic os -> accepts a (inr <$> os) a.
Proof. induction 1 as [|o os (c & r & ->) _ IH]; cbn; econstructor; [constructor|done]. Qed.

Lemma outputs_log s s' os : log s' = log s ++ os -> outputs s s' = os.
Proof. intros H. unfold outputs. by rewrite H, drop_app_length. Qed.

(** Entries only come from offers. *)
Definition only_from (e : Event) (s s' : RevisionPairing) : Prop :=
  (forall r q, jget (snapshots s') r = Some q -> jget (snapshots s) r = Some q \/
     e = OfferSnapshot (ps_snapshot q) (ps_changedNodes q)) /\
  (forall r m, jget (markers s') r = Some m -> jget (markers s) r = Some m \/
     (e = OfferMarker r (pm_screenRevision m) /\ markerEnabled s = true)) /\
  markerEnabled s' = match e with SetMarkerEnabled b => b | _ => markerEnabled s end /\
  disposed s' = match e with Dispose => true | _ => disposed s end.

Lemma only_from_same e s s' :
  match e with SetMarkerEnabled _ | Dispose => False | _ => True end ->
  snapshots s' = snapshots s -> markers s' = markers s -> markerEnabled s' = markerEnabled s -> disposed s' = disposed s ->
  only_from e s s'.
Proof. intros He H1 H2 H3 H4. unfold only_from. rewrite H1, H2, H3, H4. destruct e; try done; split_and!; auto. Qed.

Lemma only_from_publish e s s1 p :
  match e with SetMarkerEnabled _ | Dispose => False | _ => True end ->
  (forall r q, jget (snapshots s1) r = Some q -> jget (snapshots s) r = Some q) ->
  (forall r q, jget (markers s1) r = Some q -> jget (markers s) r = Some q) ->
  markerEnabled s1 = markerEnabled s -> disposed s1 = disposed s -> only_from e s (publish p s1).
Proof.
  intros He H1 H2 H3 H4. unfold only_from. rewrite publish_normal.
  cbn [snapshots markers bulk set_markers set_snapshots set_published markerEnabled disposed]. rewrite H3, H4.
  split; [|split; [|by destruct e]]; intros r q; rewrite jget_deletes; (destruct (decide _); [done|]); auto.
Qed.

Lemma offerSnapshot_entries sn ch s : sound s -> only_from (OfferSnapshot sn ch) s (offerSnapshot sn ch s).
Proof.
  intros Hso. unfold offerSnapshot. cbv zeta. destruct (disposed s) eqn:Ed; [by apply only_from_same|].
  destruct (_ <=? _); [by apply only_from_same|]. destruct (markerEnabled s) eqn:Em; cbn [negb]; [|by apply only_from_publish].
  destruct (jget (markers s) _) as [m|] eqn:Eg.
  - apply (only_from_publish _ _ (take_mark (s_revision sn) m s)); try done.
    intros r q. cbn [take_mark cancel set_watchdogs set_markers markers]. rewrite jget_jdelete. by destruct (decide _).
  - rewrite retain_tree. split; [|split; [by auto|done]].
    cbn [snapshots markers bulk set_snapshots watch set_watchdogs markerEnabled disposed]. intros r q Hq.
    apply (trimmed_evicted _ _ (jset_NoDup _ _ _ (so_snapshots _ Hso))) in Hq as [Hq _].
    rewrite jget_jset in Hq. destruct (decide _); [right; by injection Hq as <-|by left].
Qed.

Lemma offerMarker_entries r sr s : sound s -> only_from (OfferMarker r sr) s (offerMarker r sr s).
Proof.
  intros Hso. unfold offerMarker. cbv zeta. destruct (disposed s) eqn:Ed; [by apply only_from_same|].
  destruct (markerEnabled s) eqn:Em; cbn [negb]; [|by apply only_from_same]. destruct (_ <=? _); [by apply only_from_same|].
  destruct (jget (snapshots s) _) as [q0|] eqn:Eg.
  - apply (only_from_publish _ _ (take_tree r q0 s)); try done.
    intros k q. cbn [take_tree cancel set_watchdogs set_snapshots snapshots]. rewrite jget_jdelete. by destruct (decide _).
  - rewrite retain_mark. split; [by auto|]. split; [|done].
    cbn [snapshots markers bulk set_markers watch set_watchdogs markerEnabled disposed]. intros k q Hq.
    apply (trimmed_evicted _ _ (jset_NoDup _ _ _ (so_markers _ Hso))) in Hq as [Hq _].
    rewrite jget_jset in Hq. destruct (decide _) as [<-|]; [right; by injection Hq as <-|by left].
Qed.

Lemma step_entries s e : pairing_ok s -> only_from e s (step s e).
Proof.
  intros Hok. pose proof (ok_sound _ Hok) as Hso. destruct e; cbn [step].
  - unfold only_from. split_and!; auto.
  - apply only_from_same; try done; unfold frameOpened; by destruct (disposed s) eqn:?.
  - apply only_from_same; try done; unfold frameClosed; destruct (decide _); try done; cbv zeta; by destruct (_ =? _)%nat.
  - by apply offerSnapshot_entries.
  - by apply offerMarker_entries.
  - unfold dispose. destruct (disposed s) eqn:Ed; [unfold only_from; split_and!; auto|].
    change (fun s e => cancel (ps_watchdog e.2) s) with (fun s (e : Z * PendingSnapshot) => cancel (watchdog e.2) s).
    change (fun s e => cancel (pm_watchdog e.2) s) with (fun s (e : Z * PendingMarker) => cancel (watchdog e.2) s).
    rewrite !cancel_loop, !bulk_bulk. by unfold only_from; split_and!.
  - apply only_from_same; try done; destruct (watchdogs s !! w); try done; by destruct (decide _).
  - apply only_from_same; try done; unfold turn; destruct (watchdogs s !! w) as [d|]; try done; destruct (w_stage d); try done;
      unfold onElapsed; destruct (cancelled d); try done; cbv zeta; by destruct (match w_half d with tree => _ | marker => _ end).
Qed.

(** Every step is allowed. *)
Lemma step_simulates s a e :
  pairing_ok s -> simulates s a ->
  exists a', accepts a (inl e :: (inr <$> outputs s (step s e))) a' /\ simulates (step s e) a'.
Proof.
  intros Hok [E1 E2 E3 E4 E5]. destruct (step_entries s e Hok) as (T1 & T2 & T3 & T4).
  assert (a_published (note a e) = a_published a) as Hnp by by destruct e.
  assert (forall x, x ∈ a_trees a -> x ∈ a_trees (note a e)) as Htrees by (destruct e; cbn; auto; by right).
  assert (forall x, x ∈ a_marks a -> x ∈ a_marks (note a e)) as Hmarks.
  { destruct e; cbn; auto. intros x. destruct (a_enabled a); [by right|done]. }
  assert (forall z, simulates (step s e) {| a_enabled := a_enabled (note a e); a_closed := a_closed (note a e);
            a_trees := a_trees (note a e); a_marks := a_marks (note a e); a_published := z |} <-> z = revision_of (step s e)) as Hsim.
  { intros z. split; [by intros []|]. intros ->. constructor; cbn.
    - rewrite T3. destruct e; cbn; done.
    - rewrite T4. destruct e; cbn; done.
    - intros r q Hq. apply T1 in Hq as [Hq| ->]; [eauto|]. cbn. left.
    - intros r m Hm. apply T2 in Hm as [Hm|[-> Hen]]; [eauto|]. cbn. rewrite E1, Hen. left.
    - done. }
  destruct (step_says s e Hok) as [os' [os Hlog Hdiag Hpub|p os Hlog Hdiag Hpub Hd Hrev Hfrom]].
  - rewrite (outputs_log _ _ _ Hlog). exists (note a e). split.
    + econstructor; [constructor|by apply accepts_diagnostics].
    + specialize (Hsim (a_published (note a e))). destruct (note a e). apply Hsim. cbn in *.
      rewrite Hnp, E5. unfold revision_of. by rewrite Hpub.
  - rewrite (outputs_log _ _ _ Hlog). eexists. split.
    + econstructor; [constructor|]. rewrite fmap_app. eapply accepts_app; [by apply accepts_diagnostics|].
      cbn [fmap list_fmap]. eapply accepts_cons; [|constructor].
      apply allowed_publish; rewrite ?Hnp, ?E5; [| |done|].
      * destruct Hfrom; cbn; congruence.
      * destruct Hfrom as [| |q sr Hen Hg Hs Hc]; cbn; [left|left|]. rewrite <- Hs, <- Hc. eauto.
      * destruct Hfrom as [Hen Hsr|m Hen Hg Hsr|q sr Hen Hg Hs Hc Hsr]; rewrite Hsr; cbn; rewrite E1, Hen; [done|..].
        -- split; [done|eauto].
        -- split; [done|left].
    + apply Hsim. unfold revision_of. by rewrite Hpub.
Qed.

(** C4 Refinement: whatever is offered, opened, closed, disposed and whatever the
    timers and promises do, in any order, the sequence of events and outputs is
    one the pairing specification allows: a revision is published only after
    its tree was offered and, when markers are negotiated, a render marker for
    the same revision was, with that marker's screen revision; published
    revisions only grow; nothing is published after disposal. *)
Theorem pairing_refines_spec max events :
  exists a, accepts spec_init (trace (newPairing max) events) a /\ simulates (run max events) a.
Proof.
  unfold run. assert (pairing_ok (newPairing max)) as Hok by apply (run_ok max []).
  assert (simulates (newPairing max) spec_init) as Hsim by by constructor.
  revert Hok Hsim. generalize (newPairing max), spec_init. induction events as [|e events IH]; intros s a Hok Hsim; cbn [trace foldl].
  - exists a. split; [constructor|done].
  - destruct (step_simulates s a e Hok Hsim) as (a' & Hacc & Hsim'). destruct (IH (step s e) a' (step_ok s e Hok) Hsim') as (a'' & Hacc' & ?).
    exists a''. split; [|done]. rewrite app_comm_cons. by eapply accepts_app.
Qed.

Lemma step_max s e : maxPending (step s e) = maxPending s.
Proof.
  assert (forall p s1, maxPending (publish p s1) = maxPending s1) as Hp by (intros; by rewrite publish_normal).
  destruct e; cbn [step]; try done.
  - unfold frameOpened. by destruct (disposed s).
  - unfold frameClosed. destruct (decide _); [|done]. cbv zeta. by destruct (_ =? _)%nat.
  - unfold offerSnapshot. cbv zeta. destruct (disposed s); [done|]. destruct (_ <=? _); [done|].
    destruct (markerEnabled s); cbn [negb]; [|by rewrite Hp]. destruct (jget _ _); [by rewrite Hp|by rewrite retain_tree].
  - unfold offerMarker. cbv zeta. destruct (disposed s); [done|]. destruct (markerEnabled s); cbn [negb]; [|done].
    destruct (_ <=? _); [done|]. destruct (jget _ _); [by rewrite Hp|by rewrite retain_mark].
  - unfold dispose. destruct (disposed s); [done|].
    change (fun s e => cancel (ps_watchdog e.2) s) with (fun s (e : Z * PendingSnapshot) => cancel (watchdog e.2) s).
    change (fun s e => cancel (pm_watchdog e.2) s) with (fun s (e : Z * PendingMarker) => cancel (watchdog e.2) s).
    by rewrite !cancel_loop, !bulk_bulk.
  - destruct (watchdogs s !! w); [|done]. by destruct (decide _).
  - unfold turn. destruct (watchdogs s !! w) as [d|]; [|done]. destruct (w_stage d); try done.
    unfold onElapsed. destruct (cancelled d); [done|]. cbv zeta. by destruct (match w_half d with tree => _ | marker => _ end).
Qed.

(** C37 Type invariant, for every sequence of events: each map holds at most
    [maxPending] halves under distinct revisions; no revision waits in both maps
    (two halves never miss each other); nothing below the published revision is
    kept; and a watchdog is uncancelled exactly while the half it was made for
    is held, so it can neither report a half that was paired, superseded,
    replaced or dropped, nor forget one that waits. *)
Theorem pairing_invariant max events :
  let s := run max events in
  Z.of_nat (length (snapshots s)) <= Z.max 0 max /\ Z.of_nat (length (markers s)) <= Z.max 0 max /\
  NoDup (keys (snapshots s)) /\ NoDup (keys (markers s)) /\
  (forall r, ~ (r ∈ keys (snapshots s) /\ r ∈ keys (markers s))) /\
  (forall r, r ∈ keys (snapshots s) \/ r ∈ keys (markers s) -> revision_of s <= r) /\
  (forall w d, watchdogs s !! w = Some d -> (cancelled d = false <-> holds s w (w_revision d) (w_half d))).
Proof.
  cbv zeta. pose proof (run_ok max events) as [[] [B1 B2] Habove _].
  assert (maxPending (run max events) = max) as Hmax.
  { clear. induction events as [|e events IH] using rev_ind; [done|]. unfold run. rewrite foldl_app. cbn [foldl].
    fold (run max events). rewrite <- IH at 2. apply step_max. }
  rewrite Hmax in B1, B2. split_and!; try done.
  - intros r [H1 H2]. by apply (so_apart0 r).
  - intros w d Hd. rewrite (so_exact0 w). split.
    + intros Hc. by exists d.
    + intros (d' & Hd' & Hc & _). congruence.
Qed.

(** ** No half disappears silently *)

(** The outputs name what became of revision [r]: published, or given up. *)
Definition accounted (r : Z) (os : list Output) : Prop :=
  (exists p, Publish p ∈ os /\ pr_revision p = r) \/
  (exists c, Diagnostic c r ∈ os /\ c <> revision_pairing_watchdog).

Lemma gone_elem {T} c (l : list (Z * T)) r : r ∈ keys l -> Diagnostic c r ∈ gone c l.
Proof. intros Hr. unfold gone. apply list_elem_of_fmap. eauto. Qed.

Lemma publish_accounts s p s1 :
  log s1 = log s -> sound s1 ->
  accounted (pr_revision p) (outputs s (publish p s1)) /\
  (forall r, r ∈ keys (snapshots s1) -> r ∈ keys (snapshots (publish p s1)) \/ accounted r (outputs s (publish p s1))) /\
  (forall r, r ∈ keys (markers s1) -> r ∈ keys (markers (publish p s1)) \/ accounted r (outputs s (publish p s1))).
Proof.
  intros Hl [].
  assert (outputs s (publish p s1) = gone revision_superseded (below (pr_revision p) (snapshots s1)) ++
          gone revision_superseded (below (pr_revision p) (markers s1)) ++ [Publish p]) as ->.
  { apply outputs_log. rewrite publish_normal. cbn. by rewrite Hl. }
  rewrite publish_normal. cbn [snapshots markers bulk set_markers set_snapshots set_published]. split; [|split].
  - left. exists p. split; [|done]. rewrite !elem_of_app. right. right. left.
  - intros r Hr. rewrite keys_deletes. destruct (decide (r ∈ keys (below (pr_revision p) (snapshots s1)))) as [Hb|]; [right|by left].
    right. exists revision_superseded. split; [|done]. rewrite elem_of_app. left. by apply gone_elem.
  - intros r Hr. rewrite keys_deletes. destruct (decide (r ∈ keys (below (pr_revision p) (markers s1)))) as [Hb|]; [right|by left].
    right. exists revision_superseded. split; [|done]. rewrite !elem_of_app. right. left. by apply gone_elem.
Qed.

(** Storing an entry: what the map held and the entry are in it, or given up. *)
Lemma retain_accounts {T} `{PendingStore T} (m : list (Z * T)) k e n r :
  r = k \/ r ∈ keys m -> r ∈ keys (drop n (jset m k e)) \/ accounted r (gone revision_dropped (take n (jset m k e))).
Proof.
  intros Hr. assert (r ∈ keys (take n (jset m k e)) \/ r ∈ keys (drop n (jset m k e))) as [Ht|Ht]; [|right|by left].
  { unfold keys. rewrite <- elem_of_app, <- fmap_app, take_drop. by apply keys_jset_elem. }
  right. exists revision_dropped. split; [by apply gone_elem|done].
Qed.

Definition kept_or_accounted (e : Event) (s s' : RevisionPairing) : Prop :=
  (forall r, r ∈ keys (snapshots s) -> r ∈ keys (snapshots s') \/ e = Dispose \/ accounted r (outputs s s')) /\
  (forall r, r ∈ keys (markers s) -> r ∈ keys (markers s') \/ e = Dispose \/ accounted r (outputs s s')).

Lemma outputs_one s s' c r : log s' = log s ++ [Diagnostic c r] -> c <> revision_pairing_watchdog -> accounted r (outputs s s').
Proof. intros Hl Hc. rewrite (outputs_log _ _ _ Hl). right. exists c. split; [left|done]. Qed.

Lemma keys_jdelete_elem {V} (m : list (Z * V)) k r : r ∈ keys m -> r = k \/ r ∈ keys (jdelete m k).
Proof.
  intros Hr. destruct (decide (r = k)) as [->|Hne]; [by left|right].
  apply (keys_deletes m [k]). split; [done|]. by rewrite list_elem_of_singleton.
Qed.

Lemma offerSnapshot_accounts sn ch s :
  sound s -> disposed s = false ->
  kept_or_accounted (OfferSnapshot sn ch) s (offerSnapshot sn ch s) /\
  (s_revision sn ∈ keys (snapshots (offerSnapshot sn ch s)) \/ accounted (s_revision sn) (outputs s (offerSnapshot sn ch s))).
Proof.
  intros Hso Hd. unfold offerSnapshot. cbv zeta. rewrite Hd. destruct (_ <=? _).
  { split; [split; by left|right; by eapply outputs_one]. }
  destruct (markerEnabled s); cbn [negb].
  2:{ destruct (publish_accounts s (Build_PairedRevision sn ch None) s eq_refl Hso) as (H0 & H1 & H2).
      split; [|by right]. split; intros r Hr; [destruct (H1 r Hr)|destruct (H2 r Hr)]; auto. }
  destruct (jget (markers s) (s_revision sn)) as [m|] eqn:Eg.
  - destruct (publish_accounts s (Build_PairedRevision sn ch (Some (pm_screenRevision m))) (take_mark (s_revision sn) m s)
      eq_refl (sound_take_mark _ _ _ Hso Eg)) as (H0 & H1 & H2).
    split; [|by right]. split; intros r Hr; [destruct (H1 r Hr); auto|].
    apply (keys_jdelete_elem _ (s_revision sn)) in Hr as [->|Hr]; [auto|]. destruct (H2 r Hr); auto.
  - rewrite retain_tree. unfold kept_or_accounted.
    erewrite outputs_log by reflexivity. cbn [snapshots markers bulk set_snapshots watch set_watchdogs].
    pose proof (fun r => retain_accounts (snapshots s) (s_revision sn)
      {| ps_snapshot := sn; ps_changedNodes := ch; ps_watchdog := length (watchdogs s) |}
      (surplus (maxPending s) (length (jset (snapshots s) (s_revision sn)
        {| ps_snapshot := sn; ps_changedNodes := ch; ps_watchdog := length (watchdogs s) |}))) r) as Hr.
    split; [|apply Hr; by left]. split; [|by left]. intros r Hin. destruct (Hr r (or_intror Hin)); auto.
Qed.

Lemma offerMarker_accounts r sr s :
  sound s -> disposed s = false ->
  kept_or_accounted (OfferMarker r sr) s (offerMarker r sr s) /\
  (r ∈ keys (markers (offerMarker r sr s)) \/ accounted r (outputs s (offerMarker r sr s))).
Proof.
  intros Hso Hd. unfold offerMarker. cbv zeta. rewrite Hd. destruct (markerEnabled s); cbn [negb].
  2:{ split; [split; by left|right; by eapply outputs_one]. }
  destruct (_ <=? _).
  { split; [split; by left|right; by eapply outputs_one]. }
  destruct (jget (snapshots s) r) as [q|] eqn:Eg.
  - pose proof (so_tree _ Hso _ _ Eg) as Hrev.
    destruct (publish_accounts s (Build_PairedRevision (ps_snapshot q) (ps_changedNodes q) (Some sr)) (take_tree r q s)
      eq_refl (sound_take_tree _ _ _ Hso Eg)) as (H0 & H1 & H2).
    change (pr_revision _) with (s_revision (ps_snapshot q)) in H0. rewrite Hrev in H0.
    split; [|by right]. split; intros k Hk; [|destruct (H2 k Hk); auto].
    apply (keys_jdelete_elem _ r) in Hk as [->|Hk]; [auto|]. destruct (H1 k Hk); auto.
  - rewrite retain_mark. unfold kept_or_accounted.
    erewrite outputs_log by reflexivity. cbn [snapshots markers bulk set_markers watch set_watchdogs].
    pose proof (fun k => retain_accounts (markers s) r {| pm_screenRevision := sr; pm_watchdog := length (watchdogs s) |}
      (surplus (maxPending s) (length (jset (markers s) r
        {| pm_screenRevision := sr; pm_watchdog := length (watchdogs s) |}))) k) as Hr.
    split; [|apply Hr; by left]. split; [by left|]. intros k Hin. destruct (Hr k (or_intror Hin)); auto.
Qed.

(** No half disappears silently: after any history and any further event, a
    half that was held is still held, or the component was disposed, or the
    outputs of that event say what became of its revision, published or given
    up; a half offered to a live component is held or accounted for at once;
    and neither a timer nor a promise changes what is held or published. *)
Theorem no_half_lost max events e :
  let s := run max events in
  let s' := step s e in
  kept_or_accounted e s s' /\
  (forall sn ch, e = OfferSnapshot sn ch -> disposed s = false ->
     s_revision sn ∈ keys (snapshots s') \/ accounted (s_revision sn) (outputs s s')) /\
  (forall r sr, e = OfferMarker r sr -> disposed s = false ->
     r ∈ keys (markers s') \/ accounted r (outputs s s')) /\
  (forall w ok, e = Turn w \/ e = BarrierSettles w ok ->
     snapshots s' = snapshots s /\ markers s' = markers s /\ published s' = published s).
Proof.
  cbv zeta. pose proof (ok_sound _ (run_ok max events)) as Hso. set (s := run max events) in *.
  assert (forall s', snapshots s' = snapshots s -> markers s' = markers s -> kept_or_accounted e s s') as Hsame.
  { intros s' H1 H2. unfold kept_or_accounted. rewrite H1, H2. split; by left. }
  assert (forall w, snapshots (turn w s) = snapshots s /\ markers (turn w s) = markers s /\ published (turn w s) = published s) as Hturn.
  { intros w. unfold turn. destruct (watchdogs s !! w) as [d|]; [|done]. destruct (w_stage d); try done.
    unfold onElapsed. destruct (cancelled d); [done|]. cbv zeta. by destruct (match w_half d with tree => _ | marker => _ end). }
  destruct e; cbn [step].
  - split; [by apply Hsame|]. split_and!; intros; naive_solver.
  - split; [apply Hsame; unfold frameOpened; by destruct (disposed s)|]. split_and!; intros; naive_solver.
  - split; [apply Hsame; unfold frameClosed; destruct (decide _); try done; cbv zeta; by destruct (_ =? _)%nat|].
    split_and!; intros; naive_solver.
  - destruct (disposed s) eqn:Ed.
    + unfold offerSnapshot. rewrite Ed. split; [by apply Hsame|]. split_and!; intros; naive_solver.
    + destruct (offerSnapshot_accounts snapshot changedNodes s Hso Ed) as [H1 H2]. split; [done|].
      split; [by intros ? ? [= <- <-] _|]. split; intros; naive_solver.
  - destruct (disposed s) eqn:Ed.
    + unfold offerMarker. rewrite Ed. split; [by apply Hsame|]. split_and!; intros; naive_solver.
    + destruct (offerMarker_accounts revision screenRevision s Hso Ed) as [H1 H2]. split; [done|].
      split; [done|]. split; [by intros ? ? [= <- <-] _|]. intros; naive_solver.
  - split; [split; auto|]. split_and!; intros; naive_solver.
  - split; [apply Hsame; destruct (watchdogs s !! w); try done; by destruct (decide _)|].
    split; [done|]. split; [done|]. intros _ _ _. destruct (watchdogs s !! w); [|done]. by destruct (decide _).
  - destruct (Hturn w) as (H1 & H2 & H3). split; [by apply Hsame|]. done.
Qed.

(** Two trees and a marker: the second revision supersedes the first. *)
Definition bare (r : Z) : SemanticSnapshot :=
  {| s_sessionId := js "s"; s_revision := r; s_columns := 80; s_rows := 24; s_cursor := None; s_rootIds := [];
     s_nodes := []; s_coordinateSpace := unknown stale_revision; s_hitGrid := unknown stale_revision;
     s_providerEvidence := None |}.
Example superseded_then_published :
  log (run 3 [SetMarkerEnabled true; OfferSnapshot (bare 1) None; OfferMarker 2 9; OfferSnapshot (bare 2) None]) =
    [Diagnostic revision_superseded 1;
     Publish {| pr_snapshot := bare 2; pr_changedNodes := None; pr_screenRevision := Some 9 |}].
Proof. by vm_compute. Qed.
