(* ===== verification/JsSearch.v ===== *)
(** * Searching, splitting and sorting

    The string and array methods of the language that the input encoders and the
    locator engine use, with what they guarantee: [trim], [split] on a character
    class, [indexOf], conversion of digits to a number, and the stable [sort]. *)

From stdpp Require Import sorting.
From S2P Require Import Prelude JsText.

Local Open Scope Z_scope.

(** ** Text *)

(** [\s], which is also what [trim] removes *)
Definition is_space (c : Z) : bool :=
  between 9 c 13 || (c =? 32) || (c =? 160) || (c =? 5760) || between 8192 c 8202 || (c =? 8232) || (c =? 8233) ||
  (c =? 8239) || (c =? 8287) || (c =? 12288) || (c =? 65279).

(** The longest prefix of characters of a class, and the rest. *)
Fixpoint span (P : Z -> bool) (s : jstring) : jstring * jstring :=
  match s with
  | c :: t => if P c then let '(r, rest) := span P t in (c :: r, rest) else ([], s)
  | [] => ([], [])
  end.

Definition trim_start (s : jstring) : jstring := (span is_space s).2.
Definition trim (s : jstring) : jstring := rev (trim_start (rev (trim_start s))).

(** [split(/[sep]+/u)] without the empty pieces. *)
Fixpoint pieces_from (sep : Z -> bool) (word : jstring) (s : jstring) : list jstring :=
  match s with
  | [] => match word with [] => [] | _ => [word] end
  | c :: s =>
      if sep c then match word with [] => pieces_from sep [] s | _ => word :: pieces_from sep [] s end
      else pieces_from sep (word ++ [c]) s
  end.
Definition pieces (sep : Z -> bool) (s : jstring) : list jstring := pieces_from sep [] s.

(** [s.startsWith(needle)] and [s.indexOf(needle)]. *)
Definition starts_with (needle s : jstring) : bool := bool_decide (take (length needle) s = needle).
Fixpoint index_of (needle s : jstring) : option nat :=
  if starts_with needle s then Some 0%nat
  else match s with [] => None | _ :: t => S <$> index_of needle t end.
Definition includes (needle s : jstring) : bool := bool_decide (is_Some (index_of needle s)).

(** The double nearest to an integer, ties to even; [None] when it is not
    finite. *)
Definition round_double (z : Z) : option Z :=
  if Z.abs z <? 2 ^ 53 then Some z
  else
    let e := Z.log2 (Z.abs z) - 52 in
    let q := Z.abs z / 2 ^ e in
    let r := Z.abs z mod 2 ^ e in
    let half := 2 ^ (e - 1) in
    let q := if (half <? r) || ((half =? r) && Z.odd q) then q + 1 else q in
    let v := q * 2 ^ e in
    if v <? 2 ^ 1024 then Some (Z.sgn z * v) else None.

Lemma round_double_safe z : 0 <= z < 2 ^ 53 -> round_double z = Some z.
Proof. intros H. unfold round_double. by rewrite Z.abs_eq, (proj2 (Z.ltb_lt z (2 ^ 53))) by lia. Qed.

Lemma span_app P s t : (span P s).1 ++ (span P s).2 = s /\ forallb P (span P s).1 = true /\
  (forallb P s = true -> match t with c :: _ => P c = false | [] => True end -> span P (s ++ t) = (s, t)).
Proof.
  induction s as [|c s IH]; cbn [span forallb app].
  - split; [done|]. split; [done|]. intros _ Ht. destruct t as [|c t]; [done|]. cbn. by rewrite Ht.
  - destruct (span P s) as [r rest] eqn:E. cbn [fst snd] in IH. destruct IH as (Hs & Hr & Hst).
    destruct (P c) eqn:Hc; cbn [fst snd app forallb andb]; [|done].
    split; [by rewrite Hs|]. split; [by rewrite Hc|]. intros HP Ht. by rewrite Hst.
Qed.

Lemma span_all P s t :
  forallb P s = true -> match t with c :: _ => P c = false | [] => True end -> span P (s ++ t) = (s, t).
Proof. intros. by apply (span_app P s t). Qed.

(** Pieces joined by one separator come apart again. *)
Lemma pieces_join sep sepc ws :
  sep sepc = true -> Forall (fun w => w <> [] /\ forallb (fun c => negb (sep c)) w = true) ws ->
  pieces sep (mjoin ((fun w => w ++ [sepc]) <$> ws)) = ws.
Proof.
  intros Hsep Hws. unfold pieces.
  assert (forall w acc rest, forallb (fun c => negb (sep c)) w = true ->
    pieces_from sep acc (w ++ rest) = pieces_from sep (acc ++ w) rest) as Hrun.
  { induction w as [|c w IH]; intros acc rest Hw; cbn in *; [by rewrite app_nil_r|].
    apply andb_true_iff in Hw as [Hc Hw]. apply negb_true_iff in Hc. rewrite Hc, IH by done. by rewrite <- app_assoc. }
  induction Hws as [|w ws [Hne Hw] Hws IH]; [done|]. cbn [fmap list_fmap mjoin list_join].
  rewrite <- app_assoc, Hrun by done. cbn [app pieces_from]. rewrite Hsep. destruct w as [|c w]; [done|]. by f_equal.
Qed.

Lemma pieces_last sep s : forallb (fun c => negb (sep c)) s = true -> s <> [] -> pieces sep s = [s].
Proof.
  unfold pieces. intros Hs Hne.
  assert (forall acc, acc ++ s <> [] -> pieces_from sep acc s = [acc ++ s]) as H; [|by apply (H [])].
  clear Hne. induction s as [|c s IH]; intros acc Hne; cbn in *.
  - rewrite app_nil_r in *. by destruct acc.
  - apply andb_true_iff in Hs as [Hc Hs]. apply negb_true_iff in Hc. rewrite Hc, IH; [by rewrite <- app_assoc|done|].
    by rewrite <- app_assoc.
Qed.

(** ** Search *)

Lemma starts_with_spec needle s : starts_with needle s = true <-> exists t, s = needle ++ t.
Proof.
  unfold starts_with. rewrite bool_decide_eq_true. split.
  - intros H. exists (drop (length needle) s). by rewrite <- H at 1; rewrite take_drop.
  - intros [t ->]. apply take_app_length.
Qed.

(** The first occurrence: it is one, and there is none before it. *)
Lemma index_of_Some needle s i :
  index_of needle s = Some i ->
  (exists t, s = take i s ++ needle ++ t) /\ (i + length needle <= length s)%nat /\
  forall j, (j < i)%nat -> starts_with needle (drop j s) = false.
Proof.
  revert i. induction s as [|c s IH]; intros i; cbn [index_of]; destruct (starts_with needle _) eqn:E.
  - intros [= <-]. apply starts_with_spec in E as [t Ht]. split; [by exists t|]. split; [|lia].
    apply (f_equal length) in Ht. rewrite length_app in Ht. cbn in *. lia.
  - done.
  - intros [= <-]. apply starts_with_spec in E as [t Ht]. split; [by exists t|]. split; [|lia].
    apply (f_equal length) in Ht. rewrite length_app in Ht. lia.
  - destruct (index_of needle s) as [k|]; [|done]. intros [= <-]. destruct (IH k eq_refl) as ([t Ht] & Hl & Hb).
    split; [exists t; cbn; by f_equal|]. split; [cbn; lia|]. intros [|j] Hj; [done|]. apply Hb. lia.
Qed.

Lemma index_of_None needle s : index_of needle s = None -> forall j, starts_with needle (drop j s) = false.
Proof.
  induction s as [|c s IH]; cbn [index_of]; destruct (starts_with needle _) eqn:E; intros H j; try done.
  - by rewrite drop_nil.
  - destruct (index_of needle s); [done|]. destruct j; [done|]. by apply IH.
Qed.

(** ** Sorting *)

Section Sort.
Context {A : Type} (key : A -> Z).

(** The stable [sort((left, right) => key(left) - key(right))]. *)
Fixpoint insert_on (x : A) (l : list A) : list A :=
  match l with
  | [] => [x]
  | y :: l => if key y <=? key x then y :: insert_on x l else x :: y :: l
  end.
Definition sort_on (l : list A) : list A := foldl (fun acc x => insert_on x acc) [] l.

Lemma insert_on_Permutation x l : insert_on x l ≡ₚ x :: l.
Proof.
  induction l as [|y l IH]; cbn; [done|]. destruct (key y <=? key x); [|done]. rewrite IH. constructor.
Qed.

Lemma sort_on_Permutation l : sort_on l ≡ₚ l.
Proof.
  unfold sort_on. assert (forall acc, foldl (fun acc x => insert_on x acc) acc l ≡ₚ acc ++ l) as H; [|apply (H [])].
  induction l as [|x l IH]; intros acc; cbn; [by rewrite app_nil_r|].
  rewrite IH, insert_on_Permutation. by rewrite <- Permutation_middle.
Qed.

Definition key_le (x y : A) : Prop := key x <= key y.

Lemma insert_on_sorted x l : StronglySorted key_le l -> StronglySorted key_le (insert_on x l).
Proof.
  induction 1 as [|y l Hs IH Hy]; cbn; [repeat constructor|]. destruct (Z.leb_spec (key y) (key x)).
  - constructor; [done|]. rewrite insert_on_Permutation. by constructor.
  - repeat (constructor; try done); unfold key_le in *; [lia|]. eapply Forall_impl; [exact Hy|]. cbn. lia.
Qed.

Lemma sort_on_sorted l : StronglySorted key_le (sort_on l).
Proof.
  unfold sort_on. assert (forall acc, StronglySorted key_le acc ->
    StronglySorted key_le (foldl (fun acc x => insert_on x acc) acc l)) as H; [|apply H; constructor].
  induction l as [|x l IH]; intros acc Hacc; cbn; [done|]. by apply IH, insert_on_sorted.
Qed.

(** Distinct keys: the sorted list is the only sorted arrangement. *)
Lemma sort_on_unique l l' :
  l ≡ₚ l' -> StronglySorted (fun x y => key x < key y) l' -> sort_on l = l'.
Proof.
  intros Hp Hs. apply (StronglySorted_unique_strong key_le).
  - intros x y Hx Hy Hxy Hyx. unfold key_le in *.
    rewrite sort_on_Permutation, Hp in Hx.
    clear Hp. induction Hs as [|z l' Hs IH Hz]; [by apply not_elem_of_nil in Hx|].
    rewrite Forall_forall in Hz. apply elem_of_cons in Hx as [->|Hx], Hy as [->|Hy]; auto.
    + specialize (Hz _ Hy). cbn in Hz. lia.
    + specialize (Hz _ Hx). cbn in Hz. lia.
  - apply sort_on_sorted.
  - clear Hp. induction Hs as [|z l' Hs IH Hz]; constructor; [done|]. eapply Forall_impl; [exact Hz|].
    unfold key_le. cbn. lia.
  - by rewrite sort_on_Permutation.
Qed.
End Sort.
