(* ===== verification/Keys.v ===== *)
(** * Keyboard input (packages/driver/src/keys.ts)

    Key descriptions such as [Control+A] or [Shift+Tab] to the bytes a terminal
    delivers.  Case mapping is exact on ASCII text; on other text it is a
    parameter, the Unicode tables of the language not being modelled.  A plain
    object looked up by a computed name also answers for the names it inherits,
    which the tables here do like the source's. *)

From S2P Require Import Prelude JsText Dto JsObject JsSearch.

Local Open Scope Z_scope.

(** ** Text *)

Definition is_ascii (s : jstring) : bool := forallb (fun c => between 0 c 127) s.
Definition lower_unit (c : Z) : Z := if between 65 c 90 then c + 32 else c.
Definition upper_unit (c : Z) : Z := if between 97 c 122 then c - 32 else c.

(** The code points a string iterates over; an unpaired surrogate is one. *)
Fixpoint code_points (s : jstring) : list Z :=
  match s with
  | [] => []
  | c :: t =>
      match t with
      | d :: t' =>
          if is_high c && is_low d then (65536 + (c - 55296) * 1024 + (d - 56320)) :: code_points t'
          else c :: code_points t
      | [] => [c]
      end
  end.

(** [split(/\s+/u)] without the empty pieces. *)
Definition words (s : jstring) : list jstring := pieces is_space s.

(** [replace(/\r\n|\n/gu, '\r')] *)
Fixpoint returns (s : jstring) : jstring :=
  match s with
  | [] => []
  | 13 :: ((10 :: s) as t) => 13 :: returns s
  | 10 :: s => 13 :: returns s
  | c :: s => c :: returns s
  end.

(** What a table answers: a value of its own, or one inherited from
    [Object.prototype], by the text it turns into in a template. *)
Inductive found (A : Type) : Type := Own (a : A) | Inherited (text : jstring).
Global Arguments Own {A}.
Global Arguments Inherited {A}.

Definition inherited (k : jstring) : option jstring :=
  if decide (k = js "__proto__") then Some (js "[object Object]")
  else if decide (k = js "constructor") then Some (js "function Object() { [native code] }")
  else if decide (k ∈ js <$> ["__defineGetter__"; "__defineSetter__"; "hasOwnProperty"; "__lookupGetter__";
                              "__lookupSetter__"; "isPrototypeOf"; "propertyIsEnumerable"; "toString"; "valueOf";
                              "toLocaleString"]%string)
       then Some (js "function " ++ k ++ js "() { [native code] }")
  else None.

Definition table_get {A} (t : list (jstring * A)) (k : jstring) : option (found A) :=
  match jget t k with
  | Some a => Some (Own a)
  | None => Inherited <$> inherited k
  end.

(** ** Tables *)

Definition ESC : jstring := [27].
Definition CSI : jstring := [27; 91].
Definition SS3 : jstring := [27; 79].

Definition table {A} (l : list (string * A)) : list (jstring * A) := (fun kv => (js kv.1, kv.2)) <$> l.

Definition CURSOR_KEYS : list (jstring * jstring) :=
  table [("arrowup"%string, js "A"); ("arrowdown"%string, js "B"); ("arrowright"%string, js "C");
         ("arrowleft"%string, js "D"); ("home"%string, js "H"); ("end"%string, js "F")].
Definition TILDE_KEYS : list (jstring * Z) :=
  table [("insert"%string, 2); ("delete"%string, 3); ("pageup"%string, 5); ("pagedown"%string, 6); ("f5"%string, 15);
         ("f6"%string, 17); ("f7"%string, 18); ("f8"%string, 19); ("f9"%string, 20); ("f10"%string, 21);
         ("f11"%string, 23); ("f12"%string, 24)].
Definition SS3_FUNCTION_KEYS : list (jstring * jstring) :=
  table [("f1"%string, js "P"); ("f2"%string, js "Q"); ("f3"%string, js "R"); ("f4"%string, js "S")].
Definition LITERAL_KEYS : list (jstring * jstring) :=
  table [("enter"%string, [13]); ("return"%string, [13]); ("tab"%string, [9]); ("escape"%string, ESC);
         ("esc"%string, ESC); ("backspace"%string, [127]); ("space"%string, [32])].
Definition KITTY_FUNCTIONAL_KEYS : list (jstring * Z) :=
  table [("insert"%string, 57348); ("delete"%string, 57349); ("arrowleft"%string, 57350); ("arrowright"%string, 57351);
         ("arrowup"%string, 57352); ("arrowdown"%string, 57353); ("pageup"%string, 57354); ("pagedown"%string, 57355);
         ("home"%string, 57356); ("end"%string, 57357); ("f1"%string, 57364); ("f2"%string, 57365);
         ("f3"%string, 57366); ("f4"%string, 57367); ("f5"%string, 57368); ("f6"%string, 57369); ("f7"%string, 57370);
         ("f8"%string, 57371); ("f9"%string, 57372); ("f10"%string, 57373); ("f11"%string, 57374); ("f12"%string, 57375)].

Inductive Modifier : Set := m_shift | m_alt | m_ctrl | m_meta.
Definition MODIFIER_ALIASES : list (jstring * Modifier) :=
  table [("control"%string, m_ctrl); ("ctrl"%string, m_ctrl); ("shift"%string, m_shift); ("alt"%string, m_alt);
         ("option"%string, m_alt); ("meta"%string, m_meta); ("cmd"%string, m_meta); ("command"%string, m_meta)].

(** ** Modifiers *)

Record Modifiers : Set := { shift : bool; alt : bool; ctrl : bool; meta : bool }.
Definition no_mods : Modifiers := {| shift := false; alt := false; ctrl := false; meta := false |}.
Definition with_modifier (m : Modifier) (mods : Modifiers) : Modifiers :=
  match m with
  | m_shift => {| shift := true; alt := alt mods; ctrl := ctrl mods; meta := meta mods |}
  | m_alt => {| shift := shift mods; alt := true; ctrl := ctrl mods; meta := meta mods |}
  | m_ctrl => {| shift := shift mods; alt := alt mods; ctrl := true; meta := meta mods |}
  | m_meta => {| shift := shift mods; alt := alt mods; ctrl := ctrl mods; meta := true |}
  end.

Definition bit (b : bool) (v : Z) : Z := if b then v else 0.
Definition modifierParameter (m : Modifiers) : Z := 1 + bit (shift m) 1 + bit (alt m || meta m) 2 + bit (ctrl m) 4.
Definition kittyModifierParameter (m : Modifiers) : Z :=
  1 + bit (shift m) 1 + bit (alt m) 2 + bit (ctrl m) 4 + bit (meta m) 8.

(** [applicationKeypad] is read by no encoder. *)
Record KeyEncodingModes : Set := {
  applicationCursorKeys : bool;
  applicationKeypad : bool;
  kittyKeyboardFlags : option Z;
}.

(** A key that cannot be encoded: a [TypeError]. *)
Inductive KeyError : Set := unsupported_key.

Definition number_text (f : found Z) : jstring := match f with Own z => decimal z | Inherited t => t end.
Definition found_text (f : found jstring) : jstring := match f with Own s => s | Inherited t => t end.

(** ** Encoding *)

Section Keys.
(** Case mapping of text that is not ASCII, and of the host's locale. *)
Context (unicode_lower unicode_upper locale_lower : jstring -> jstring).

Definition toLowerCase (s : jstring) : jstring := if is_ascii s then lower_unit <$> s else unicode_lower s.
Definition toUpperCase (s : jstring) : jstring := if is_ascii s then upper_unit <$> s else unicode_upper s.

Definition among (k : jstring) (names : list string) : bool := bool_decide (k ∈ js <$> names).

(** The code of a key in the progressive encoding. *)
Definition kitty_code (key lower : jstring) (reportAll : bool) : option (found Z) :=
  if among lower ["enter"; "return"]%string then Some (Own 13)
  else if among lower ["tab"]%string then Some (Own 9)
  else if among lower ["backspace"]%string then Some (Own 127)
  else if among lower ["escape"; "esc"]%string then Some (Own 27)
  else match (if reportAll then table_get KITTY_FUNCTIONAL_KEYS lower else None) with
       | Some code => Some code
       | None =>
           match jget LITERAL_KEYS lower with
           | Some literal => Own <$> head (code_points literal)
           | None => if (length (code_points key) =? 1)%nat then Own <$> head (code_points (toLowerCase key)) else None
           end
       end.

Definition kittyKey (key : jstring) (mods : Modifiers) (flags : Z) (textCodepoint : option Z) : option jstring :=
  let lower := toLowerCase key in
  let reportAll := negb (Z.land flags 8 =? 0) in
  let disambiguate := negb (Z.land flags 1 =? 0) || reportAll in
  let ambiguousModified := ctrl mods || alt mods || meta mods in
  let protectedLegacy := among lower ["enter"; "return"; "tab"; "backspace"]%string in
  if negb reportAll && protectedLegacy then None
  else if negb reportAll && bool_decide (is_Some (table_get KITTY_FUNCTIONAL_KEYS lower)) then None
  else if negb reportAll && negb (disambiguate && (ambiguousModified || among lower ["escape"; "esc"]%string)) &&
          negb (ctrl mods && shift mods && (length (code_points key) =? 1)%nat) then None
  else
    match kitty_code key lower reportAll with
    | None => None
    | Some code =>
        let shiftedCode :=
          if negb (Z.land flags 4 =? 0) && shift mods then
            match textCodepoint with
            | Some t => Some t
            | None => if (length (code_points key) =? 1)%nat then head (code_points key) else None
            end
          else None in
        let codeParameter :=
          match shiftedCode with
          | Some s => if match code with Own c => s =? c | Inherited _ => false end then number_text code
                      else number_text code ++ js ":" ++ decimal s
          | None => number_text code
          end in
        let modifier := kittyModifierParameter mods in
        let associated :=
          match textCodepoint with
          | Some t => if negb (Z.land flags 16 =? 0) then js ";" ++ decimal t else []
          | None => []
          end in
        Some (CSI ++ codeParameter ++
              (if (modifier =? 1) && bool_decide (associated = []) then [] else js ";" ++ decimal modifier) ++
              associated ++ js "u")
    end.

(** The loop of [parseChord]; each turn removes a modifier and its [+]. *)
Fixpoint parse_loop (fuel : nat) (rest : jstring) (mods : Modifiers) : jstring * Modifiers :=
  match fuel with
  | O => (rest, mods)
  | S fuel =>
      match find_index (fun c => c =? 43) rest with
      | None | Some O => (rest, mods)
      | Some plus =>
          if (plus =? length rest - 1)%nat then (rest, mods)
          else
            match table_get MODIFIER_ALIASES (toLowerCase (take plus rest)) with
            | None => (rest, mods)
            | Some (Own m) => parse_loop fuel (drop (plus + 1) rest) (with_modifier m mods)
            | Some (Inherited _) => parse_loop fuel (drop (plus + 1) rest) mods
            end
      end
  end.
Definition parseChord (chord : jstring) : result KeyError (jstring * Modifiers) :=
  let '(rest, mods) := parse_loop (length chord) chord no_mods in
  match rest with [] => Err unsupported_key | _ => Ok (rest, mods) end.

Definition encodeControlChar (key : jstring) (mods : Modifiers) : option jstring :=
  if negb (ctrl mods) then None
  else match key with
  | [c] =>
      match head (code_points (toUpperCase key)) with
      | None => None
      | Some code =>
          if between 65 code 90 then Some [Z.land code 31]
          else match c with
               | 32 | 64 => Some [0]
               | 91 => Some ESC
               | 92 => Some [28]
               | 93 => Some [29]
               | 94 => Some [30]
               | 95 => Some [31]
               | 63 => Some [127]
               | _ => None
               end
      end
  | _ => None
  end.

Definition escaped (mods : Modifiers) (base : jstring) : jstring := if alt mods || meta mods then ESC ++ base else base.

Definition encodeChord (chord : jstring) (modes : KeyEncodingModes) : result KeyError jstring :=
  '(key, mods) ← parseChord chord;
  let lower := toLowerCase key in
  let param := modifierParameter mods in
  let modified := negb (param =? 1) in
  match kittyKey key mods (default 0 (kittyKeyboardFlags modes)) None with
  | Some progressive => Ok progressive
  | None =>
  match table_get CURSOR_KEYS lower with
  | Some final =>
      Ok (if modified then CSI ++ js "1;" ++ decimal param ++ found_text final
          else if applicationCursorKeys modes then SS3 ++ found_text final else CSI ++ found_text final)
  | None =>
  match jget TILDE_KEYS lower with
  | Some tilde =>
      Ok (if modified then CSI ++ decimal tilde ++ js ";" ++ decimal param ++ js "~" else CSI ++ decimal tilde ++ js "~")
  | None =>
  match jget SS3_FUNCTION_KEYS lower with
  | Some final => Ok (if modified then CSI ++ js "1;" ++ decimal param ++ final else SS3 ++ final)
  | None =>
  if bool_decide (lower = js "tab") && shift mods then Ok (CSI ++ js "Z")
  else match jget LITERAL_KEYS lower with
  | Some literal =>
      if bool_decide (lower = js "backspace") && ctrl mods then Ok [8]
      else Ok (escaped mods (default literal (encodeControlChar literal mods)))
  | None =>
  if negb (length (code_points key) =? 1)%nat then Err unsupported_key
  else match encodeControlChar key mods with
  | Some control => Ok (escaped mods control)
  | None =>
      if ctrl mods then Err unsupported_key
      else Ok (escaped mods (if shift mods then toUpperCase key else key))
  end end end end end end.

Fixpoint encode_chords (chords : list jstring) (modes : KeyEncodingModes) : result KeyError jstring :=
  match chords with
  | [] => Ok []
  | c :: chords => t ← encodeChord c modes; rest ← encode_chords chords modes; Ok (t ++ rest)
  end.

Definition encodeKeys (keys : jstring) (modes : KeyEncodingModes) : result KeyError bytes :=
  match words keys with
  | [] => Err unsupported_key
  | chords => t ← encode_chords chords modes; Ok (utf8_encode t)
  end.

(** A character of typed text in the progressive encoding; [join] turns
    [undefined] into nothing. *)
Definition typed_character (flags : Z) (c : Z) : jstring :=
  if c =? 13 then default [] (kittyKey (js "Enter") no_mods flags None)
  else
    let character := utf16_scalar c in
    let lower := locale_lower character in
    let shifted := negb (bool_decide (lower = character)) && (length (code_points lower) =? 1)%nat in
    let key := if shifted then lower else character in
    default [] (kittyKey key {| shift := shifted; alt := false; ctrl := false; meta := false |} flags (Some c)).

Definition encodeText (text : jstring) (modes : option KeyEncodingModes) : bytes :=
  let flags := default 0 (modes ≫= kittyKeyboardFlags) in
  if Z.land flags 8 =? 0 then utf8_encode (returns text)
  else utf8_encode (mjoin (typed_character flags <$> code_points (returns text))).

Definition encodePaste (text : jstring) (bracketed : bool) : bytes :=
  let body := returns text in
  utf8_encode (if bracketed then CSI ++ js "200~" ++ body ++ CSI ++ js "201~" else body).

Definition encodeFocus (focused : bool) : bytes := utf8_encode (if focused then CSI ++ js "I" else CSI ++ js "O").
End Keys.
