(* ===== verification/Mouse.v ===== *)
(** * Mouse input (packages/driver/src/mouse.ts)

    Mouse events to the report of whichever encoding the child negotiated, and
    what each report means: the event can be read back from its bytes. *)

From S2P Require Import Prelude JsText Dto.

Local Open Scope Z_scope.

(** ** Events and modes *)

Inductive MouseButton : Set := left_button | middle_button | right_button.
Global Instance MouseButton_eq_dec : EqDecision MouseButton.
Proof. solve_decision. Defined.
Inductive MouseKind : Set := press | release_ | move_ | wheel.
Global Instance MouseKind_eq_dec : EqDecision MouseKind.
Proof. solve_decision. Defined.
Inductive MouseModifier : Set := mod_shift | mod_alt | mod_control.
Global Instance MouseModifier_eq_dec : EqDecision MouseModifier.
Proof. solve_decision. Defined.
Inductive WheelAxis : Set := vertical | horizontal.

(** Coordinates are zero-based cells; [wheelDelta] matters by its sign. *)
Record MouseEvent : Type := {
  kind : MouseKind;
  e_row : Z;
  e_column : Z;
  button : option MouseButton;
  modifiers : option (list jstring);
  wheelDelta : option Z;
  wheelAxis : option WheelAxis;
  dragging : option bool;
}.

Inductive MouseTracking : Set := t_none | t_x10 | t_vt200 | t_drag | t_any | t_unknown.
Global Instance MouseTracking_eq_dec : EqDecision MouseTracking.
Proof. solve_decision. Defined.
Inductive MouseEncoding : Set := e_default | e_sgr | e_urxvt | e_utf8 | e_unknown.
Global Instance MouseEncoding_eq_dec : EqDecision MouseEncoding.
Proof. solve_decision. Defined.
Record TerminalModes : Set := { mouseTracking : MouseTracking; mouseEncoding : MouseEncoding }.

Inductive MouseError : Set := type_error | input_mode_disabled | capability_unavailable | range_error.

Definition BUTTON_CODES (b : MouseButton) : Z :=
  match b with left_button => 0 | middle_button => 1 | right_button => 2 end.

(** ** Encoding *)

Definition modifier_name (m : MouseModifier) : jstring :=
  match m with mod_shift => js "shift" | mod_alt => js "alt" | mod_control => js "control" end.
Definition MODIFIER_ORDER : list MouseModifier := [mod_shift; mod_alt; mod_control].

Definition normalizeMouseModifiers (values : option (list jstring)) : result MouseError (list MouseModifier) :=
  let provided := default [] values in
  if forallb (fun v => bool_decide (v ∈ modifier_name <$> MODIFIER_ORDER)) provided
  then Ok (List.filter (fun m => bool_decide (modifier_name m ∈ provided)) MODIFIER_ORDER)
  else Err type_error.

Definition X10_MAX_COORDINATE : Z := 223.

Definition modifier_bits (ms : list MouseModifier) : Z :=
  (if decide (mod_shift ∈ ms) then 4 else 0) + (if decide (mod_alt ∈ ms) then 8 else 0) +
  (if decide (mod_control ∈ ms) then 16 else 0).

Definition buttonCode (event : MouseEvent) : result MouseError Z :=
  ms ← normalizeMouseModifiers (modifiers event);
  let modifierBits := modifier_bits ms in
  Ok match kind event with
     | wheel =>
         let up := default 0 (wheelDelta event) <? 0 in
         match wheelAxis event with
         | Some horizontal => (if up then 66 else 67) + modifierBits
         | _ => (if up then 64 else 65) + modifierBits
         end
     | move_ => match button event with None => 3 | Some b => BUTTON_CODES b end + 32 + modifierBits
     | _ => BUTTON_CODES (default left_button (button event)) + modifierBits
     end.

Definition mouseModeUnverifiable (modes : TerminalModes) : bool :=
  bool_decide (mouseTracking modes = t_unknown) || bool_decide (mouseEncoding modes = e_unknown).

Definition encode_text (text : jstring) : bytes := utf8_encode text.

(** [String(n)] for an integer. *)
Definition integer_text (z : Z) : jstring := if z <? 0 then js "-" ++ decimal (- z) else decimal z.

(** [String.fromCodePoint]: a [RangeError] outside the code points. *)
Definition fromCodePoint (cs : list Z) : result MouseError jstring :=
  if forallb (fun c => between 0 c 1114111) cs then Ok (mjoin (utf16_scalar <$> cs)) else Err range_error.

Definition encodeMouse (event : MouseEvent) (modes : TerminalModes) : result MouseError bytes :=
  if mouseModeUnverifiable modes then Err input_mode_disabled
  else if bool_decide (mouseTracking modes = t_none) then Err input_mode_disabled
  else if bool_decide (mouseTracking modes = t_x10) && negb (bool_decide (kind event = press)) then Err input_mode_disabled
  else if bool_decide (kind event = move_) && negb (bool_decide (mouseTracking modes = t_drag)) &&
          negb (bool_decide (mouseTracking modes = t_any)) then Err input_mode_disabled
  else
    code ← buttonCode event;
    let column := e_column event + 1 in
    let row := e_row event + 1 in
    let code2 := if decide (kind event = release_) then 3 else code in
    match mouseEncoding modes with
    | e_sgr =>
        let final := if decide (kind event = release_) then js "m" else js "M" in
        Ok (encode_text ([27; 91] ++ js "<" ++ decimal code ++ js ";" ++ integer_text column ++ js ";" ++
                         integer_text row ++ final))
    | e_urxvt =>
        Ok (encode_text ([27; 91] ++ decimal (code2 + 32) ++ js ";" ++ integer_text column ++ js ";" ++
                         integer_text row ++ js "M"))
    | e_utf8 =>
        text ← fromCodePoint [32 + code2; 32 + column; 32 + row];
        Ok (encode_text ([27; 91] ++ js "M" ++ text))
    | e_default =>
        if (X10_MAX_COORDINATE <? column) || (X10_MAX_COORDINATE <? row) then Err input_mode_disabled
        else Ok [27; 91; 77; (32 + code2) mod 256; (32 + column) mod 256; (32 + row) mod 256]
    | e_unknown => Err capability_unavailable
    end.

(** One buffer of the total length, each chunk at the offset after the last. *)
Definition concatBytes (chunks : list bytes) : bytes := mjoin chunks.

(** ** Reports determine events *)

(** The child asked for events of this kind, in a protocol that was observed. *)
Definition admits (modes : TerminalModes) (k : MouseKind) : Prop :=
  mouseEncoding modes <> e_unknown /\
  match mouseTracking modes with
  | t_none | t_unknown => False
  | t_x10 => k = press
  | t_vt200 => k <> move_
  | t_drag | t_any => True
  end.

(** Cells of a screen of any size a terminal has. *)
Definition in_view (e : MouseEvent) : Prop := 0 <= e_row e < 32768 /\ 0 <= e_column e < 32768.

(** What a report carries of the buttons: SGR keeps the button of a release. *)
Definition reported (modes : TerminalModes) (e : MouseEvent) : result MouseError (Z * bool) :=
  code ← buttonCode e;
  Ok match mouseEncoding modes with
     | e_sgr => (code, bool_decide (kind e = release_))
     | _ => (if decide (kind e = release_) then 3 else code, false)
     end.

Lemma modifier_bits_bound ms : 0 <= modifier_bits ms <= 28.
Proof. unfold modifier_bits. repeat destruct (decide _); lia. Qed.

Lemma buttonCode_bound e c : buttonCode e = Ok c -> 0 <= c <= 95.
Proof.
  unfold buttonCode. intros H. apply bind_Ok in H as (ms & _ & [= <-]). pose proof (modifier_bits_bound ms).
  destruct (kind e); [destruct (default _ _); cbn; lia..| |].
  - destruct (button e) as [[]|]; cbn; lia.
  - destruct (wheelAxis e) as [[]|]; destruct (_ <? 0); lia.
Qed.

Lemma decimal_inj a b c c' x y :
  0 <= a -> 0 <= b -> is_digit c = false -> is_digit c' = false ->
  decimal a ++ c :: x = decimal b ++ c' :: y -> a = b /\ c = c' /\ x = y.
Proof.
  intros Ha Hb Hc Hc' H. destruct (decimal_spec a Ha) as (Da & Pa & _), (decimal_spec b Hb) as (Db & Pb & _).
  apply (f_equal digits_span) in H. rewrite !digits_span_app in H by done. injection H as H1 -> ->.
  split; [congruence|done].
Qed.

Lemma digits_ascii s : Forall digit s -> Forall (fun c => 0 <= c < 128) s.
Proof. intros H. eapply Forall_impl; [exact H|]. unfold digit. cbn. lia. Qed.

(** [CSI pre <a> ; <b> ; <c> final] *)
Lemma numbers_report pre a b c final :
  0 <= a -> 0 <= b -> 0 <= c -> Forall (fun c => 0 <= c < 128) pre -> Forall (fun c => 0 <= c < 128) final ->
  encode_text (pre ++ decimal a ++ js ";" ++ integer_text b ++ js ";" ++ integer_text c ++ final) =
    pre ++ decimal a ++ 59 :: decimal b ++ 59 :: decimal c ++ final.
Proof.
  intros Ha Hb Hc Hp Hf. unfold encode_text, integer_text. rewrite !(proj2 (Z.ltb_ge _ 0)) by done.
  etransitivity; [apply utf8_encode_ascii|reflexivity]. pose proof (decimal_spec a Ha) as (Da & _). pose proof (decimal_spec b Hb) as (Db & _).
  pose proof (decimal_spec c Hc) as (Dc & _). rewrite !Forall_app.
  assert (Forall (fun c => 0 <= c < 128) (js ";")) as Hsemi by (constructor; [by vm_compute|constructor]).
  split_and!; auto using digits_ascii.
Qed.

Lemma numbers_inj pre a b c final a' b' c' final' :
  0 <= a -> 0 <= b -> 0 <= c -> 0 <= a' -> 0 <= b' -> 0 <= c' ->
  (exists f, final = [f] /\ is_digit f = false) -> (exists f, final' = [f] /\ is_digit f = false) ->
  pre ++ decimal a ++ 59 :: decimal b ++ 59 :: decimal c ++ final =
    pre ++ decimal a' ++ 59 :: decimal b' ++ 59 :: decimal c' ++ final' ->
  a = a' /\ b = b' /\ c = c' /\ final = final'.
Proof.
  intros Ha Hb Hc Ha' Hb' Hc' (f & -> & Hf) (f' & -> & Hf') H. apply app_inv_head in H.
  apply decimal_inj in H as (-> & _ & H); [|done..]. apply decimal_inj in H as (-> & _ & H); [|done..].
  apply decimal_inj in H as (-> & -> & _); done.
Qed.

(** Three code points below the surrogates. *)
Lemma points_inj a b c a' b' c' :
  Forall (fun c => 0 <= c < 55296) [a; b; c; a'; b'; c'] ->
  encode_text ([27; 91] ++ js "M" ++ mjoin (utf16_scalar <$> [a; b; c])) =
    encode_text ([27; 91] ++ js "M" ++ mjoin (utf16_scalar <$> [a'; b'; c'])) -> a = a' /\ b = b' /\ c = c'.
Proof.
  intros H. rewrite !Forall_cons in H. destruct H as (Ha & Hb & Hc & Ha' & Hb' & Hc' & _).
  assert (forall x, 0 <= x < 55296 -> utf16_scalar x = [x]) as H16.
  { intros x Hx. unfold utf16_scalar. by rewrite (proj2 (Z.ltb_lt x 65536)) by lia. }
  cbn [fmap list_fmap mjoin list_join]. rewrite !H16 by done. cbn [app]. intros H.
  assert (forall x y z, 0 <= x < 55296 -> 0 <= y < 55296 -> 0 <= z < 55296 ->
    utf8_decode (encode_text ([27; 91] ++ js "M" ++ [x; y; z])) = Some ([27; 91] ++ js "M" ++ [x; y; z])) as Hrt.
  { intros x y z Hx Hy Hz. apply utf8_decode_encode; [|done].
    assert (forall u, 0 <= u < 55296 -> is_unit u = true /\ is_high u = false /\ is_low u = false) as Hu.
    { intros u Hu. unfold is_unit, is_high, is_low.
      rewrite (proj2 (Z.leb_le 0 u)), (proj2 (Z.ltb_lt u 65536)), (proj2 (Z.leb_gt 55296 u)), (proj2 (Z.leb_gt 56320 u)) by lia. done. }
    split.
    - repeat constructor; by apply Hu.
    - unfold LONE_SURROGATE_test. cbn. destruct (Hu x Hx) as (_ & -> & ->), (Hu y Hy) as (_ & -> & ->), (Hu z Hz) as (_ & -> & ->). done. }
  apply (f_equal utf8_decode) in H.
  pose proof (Hrt a b c Ha Hb Hc) as E1. pose proof (Hrt a' b' c' Ha' Hb' Hc') as E2. cbn [app] in E1, E2.
  rewrite E1, E2 in H. by injection H as -> -> ->.
Qed.

(** An accepted event: its code and the mode guards. *)
Lemma encodeMouse_inv e modes b :
  encodeMouse e modes = Ok b -> admits modes (kind e) /\ exists code, buttonCode e = Ok code.
Proof.
  unfold encodeMouse, mouseModeUnverifiable, admits. destruct (mouseTracking modes), (mouseEncoding modes), (kind e); try done;
    cbn [bool_decide decide_rel]; intros H; (apply bind_Ok in H as (code & Hc & _) || discriminate H);
    (split; [done|eauto]).
Qed.

(** The report of an accepted event. *)
Definition report (modes : TerminalModes) (e : MouseEvent) (code : Z) : bytes :=
  let released := bool_decide (kind e = release_) in
  let code2 := if decide (kind e = release_) then 3 else code in
  let column := e_column e + 1 in
  let row := e_row e + 1 in
  match mouseEncoding modes with
  | e_sgr => js "<" ++ decimal code ++ 59 :: decimal column ++ 59 :: decimal row ++ (if released then js "m" else js "M")
  | e_urxvt => decimal (code2 + 32) ++ 59 :: decimal column ++ 59 :: decimal row ++ js "M"
  | e_utf8 => js "M" ++ encode_text (mjoin (utf16_scalar <$> [32 + code2; 32 + column; 32 + row]))
  | _ => [77; 32 + code2; 32 + column; 32 + row]
  end.

Lemma small_code e code : buttonCode e = Ok code -> 0 <= (if decide (kind e = release_) then 3 else code) <= 95.
Proof. intros H. apply buttonCode_bound in H. destruct (decide _); lia. Qed.

Lemma ascii_prefix p t : Forall (fun c => 0 <= c < 128) p -> utf8_encode (p ++ t) = p ++ utf8_encode t.
Proof.
  intros H. unfold utf8_encode. induction H as [|c p Hc Hp IH]; [done|]. cbn [app scalar_values].
  assert (is_high c = false /\ is_low c = false) as [-> ->].
  { unfold is_high, is_low. rewrite (proj2 (Z.leb_gt 55296 c)), (proj2 (Z.leb_gt 56320 c)) by lia. done. }
  rewrite mjoin_fmap_cons, IH. unfold utf8_scalar at 1. by rewrite (proj2 (Z.ltb_lt c 128)) by lia.
Qed.

Lemma Ok_inj {E A} (x y : A) : @Ok E A x = Ok y -> x = y.
Proof. by injection 1. Qed.

Lemma encodeMouse_report e modes b :
  encodeMouse e modes = Ok b -> in_view e ->
  exists code, buttonCode e = Ok code /\ b = [27; 91] ++ report modes e code /\
    (mouseEncoding modes = e_default -> e_row e <= 222 /\ e_column e <= 222).
Proof.
  intros H [Hr Hcol]. destruct (encodeMouse_inv _ _ _ H) as [Hadm (code & Hcode)]. exists code. split; [done|].
  pose proof (small_code _ _ Hcode) as Hsmall. pose proof (buttonCode_bound _ _ Hcode) as Hbound.
  unfold encodeMouse in H. rewrite Hcode in H. cbn [mbind result_bind] in H. unfold mouseModeUnverifiable in H.
  repeat match type of H with (if ?c then _ else _) = _ => destruct c; [discriminate H|] end. unfold report.
  destruct Hadm as [Hu _]. destruct (mouseEncoding modes); try done.
  - unfold X10_MAX_COORDINATE in H. destruct (Z.ltb_spec 223 (e_column e + 1)), (Z.ltb_spec 223 (e_row e + 1)); try done.
    injection H as <-. rewrite !Z.mod_small by lia. split; [done|lia].
  - apply Ok_inj in H as <-. split; [|done]. rewrite (app_assoc [27; 91]), numbers_report by
      first [lia|repeat constructor; by vm_compute|destruct (decide _); repeat constructor; by vm_compute].
    rewrite <- app_assoc. by destruct (kind e).
  - apply Ok_inj in H as <-. split; [|done]. rewrite numbers_report by first [lia|repeat constructor; by vm_compute]. done.
  - unfold fromCodePoint in H. destruct (forallb _ _); [|done]. cbn [mbind result_bind] in H. apply Ok_inj in H as <-. split; [|done].
    change ([27; 91] ++ js "M" ++ ?x) with (([27; 91] ++ js "M") ++ x). unfold encode_text. rewrite ascii_prefix; [done|].
    repeat constructor; by vm_compute.
Qed.

(** Mouse reports are sent only when the child asked for them and can be read
    back: an event is encoded only if the observed tracking mode reports events
    of its kind, and two events on screen with the same report in the same
    modes are on the same cell and carry the same button code (with SGR also
    the same button on release). *)
Theorem mouse_report_exact modes e b :
  encodeMouse e modes = Ok b ->
  admits modes (kind e) /\
  forall e', in_view e -> in_view e' -> encodeMouse e' modes = Ok b ->
    e_row e' = e_row e /\ e_column e' = e_column e /\ reported modes e' = reported modes e.
Proof.
  intros H. split; [by apply encodeMouse_inv in H as [? _]|]. intros e' V V' H'.
  destruct (encodeMouse_report _ _ _ H V) as (code & Hc & Eb & Hd), (encodeMouse_report _ _ _ H' V') as (code' & Hc' & Eb' & Hd').
  pose proof (small_code _ _ Hc) as S1. pose proof (small_code _ _ Hc') as S2.
  pose proof (buttonCode_bound _ _ Hc). pose proof (buttonCode_bound _ _ Hc').
  rewrite Eb in Eb'. apply app_inv_head in Eb'. destruct V as [V1 V2], V' as [V1' V2'].
  unfold reported. rewrite Hc, Hc'. cbn [mbind result_bind]. unfold report in Eb'. destruct (mouseEncoding modes) eqn:Ee.
  - injection Eb' as E1 E2 E3. split; [lia|]. split; [lia|]. f_equal. f_equal. lia.
  - apply numbers_inj in Eb' as (-> & E2 & E3 & E4); [|lia..| |].
    + split; [lia|]. split; [lia|]. f_equal. f_equal. by destruct (bool_decide (kind e = release_)), (bool_decide (kind e' = release_)).
    + destruct (bool_decide (kind e = release_)); by eexists.
    + destruct (bool_decide (kind e' = release_)); by eexists.
  - apply (numbers_inj []) in Eb' as (E1 & E2 & E3 & _); [|lia..|by eexists|by eexists].
    split; [lia|]. split; [lia|]. f_equal. f_equal. lia.
  - apply app_inv_head in Eb'. apply (f_equal (fun x => [27; 91] ++ js "M" ++ x)) in Eb'.
    assert (forall x, encode_text ([27; 91] ++ js "M" ++ x) = [27; 91] ++ js "M" ++ encode_text x) as Hpre.
    { intros x. apply (ascii_prefix ([27; 91] ++ js "M")). repeat constructor; by vm_compute. }
    rewrite <- !Hpre in Eb'. apply points_inj in Eb' as (E1 & E2 & E3); [|repeat constructor; lia].
    split; [lia|]. split; [lia|]. f_equal. f_equal. lia.
  - by apply encodeMouse_inv in H as [[? _] _].
Qed.

Definition click (row column : Z) : MouseEvent :=
  {| kind := press; e_row := row; e_column := column; button := Some right_button; modifiers := Some [js "alt"];
     wheelDelta := None; wheelAxis := None; dragging := None |}.
Definition sgr_any : TerminalModes := {| mouseTracking := t_any; mouseEncoding := e_sgr |}.

Lemma mouse_report_exact_witness :
  encodeMouse (click 4 300) sgr_any = Ok (27 :: js "[<10;301;5M") /\ admits sgr_any press /\
  forall e', in_view (click 4 300) -> in_view e' -> encodeMouse e' sgr_any = Ok (27 :: js "[<10;301;5M") ->
    e_row e' = 4 /\ e_column e' = 300 /\ reported sgr_any e' = Ok (10, false).
Proof.
  split; [by vm_compute|]. apply (mouse_report_exact sgr_any (click 4 300)). by vm_compute.
Defined.
