(* ===== verification/InputDecode.v ===== *)
(** * Decoding recorded input (packages/ui/src/input-decode.ts)

    [InputDecoder] turns the bytes a terminal sends back into key descriptions,
    typed text, pastes and raw chunks.  The buffer and the index into it are one
    suffix here: [rest] is [buffer.subarray(index)]. *)

From S2P Require Import Prelude JsText Dto JsObject JsSearch Keys.

Local Open Scope Z_scope.

(** ** The replacing UTF-8 decoder *)

(** The decoder of the Encoding Standard with [needed] bytes to come, the code
    point so far and the bounds of the next byte. *)
Fixpoint lossy_from (needed : nat) (cp lo hi : Z) (bs : bytes) : list Z :=
  match bs with
  | [] => if (needed =? 0)%nat then [] else [65533]
  | b :: t =>
      if (needed =? 0)%nat || negb (between lo b hi) then
        (if (needed =? 0)%nat then [] else [65533]) ++
        (if b <? 128 then b :: lossy_from 0 0 128 191 t
         else if between 194 b 223 then lossy_from 1 (b - 192) 128 191 t
         else if between 224 b 239 then
           lossy_from 2 (b - 224) (if b =? 224 then 160 else 128) (if b =? 237 then 159 else 191) t
         else if between 240 b 244 then
           lossy_from 3 (b - 240) (if b =? 240 then 144 else 128) (if b =? 244 then 143 else 191) t
         else 65533 :: lossy_from 0 0 128 191 t)
      else
        match needed with
        | S (S n) => lossy_from (S n) (cp * 64 + (b - 128)) 128 191 t
        | _ => (cp * 64 + (b - 128)) :: lossy_from 0 0 128 191 t
        end
  end.

(** [new TextDecoder('utf-8').decode]; a leading byte-order mark is dropped. *)
Definition decodeUtf8 (bs : bytes) : jstring :=
  let body := if bool_decide (take 3 bs = [239; 187; 191]) then drop 3 bs else bs in
  mjoin (utf16_scalar <$> lossy_from 0 0 128 191 body).

(** ** [parseInt] *)

Fixpoint skip_spaces (s : jstring) : jstring :=
  match s with c :: t => if is_space c then skip_spaces t else s | [] => [] end.

(** [Number.parseInt(s, 10)]; [None] when it is not finite. *)
Definition parseInt (s : jstring) : option Z :=
  let s := skip_spaces s in
  let '(sign, s) := match s with 45 :: t => (-1, t) | 43 :: t => (1, t) | _ => (1, s) end in
  match digits_span s with
  | ([], _) => None
  | (ds, _) => round_double (sign * parse_decimal ds)
  end.

(** [s.split(';')]: its first two pieces. *)
Definition first_piece (s : jstring) : jstring :=
  match find_index (fun c => c =? 59) s with Some i => take i s | None => s end.
Definition second_piece (s : jstring) : jstring :=
  match find_index (fun c => c =? 59) s with Some i => first_piece (drop (i + 1) s) | None => [] end.

(** ** Tables *)

Inductive DecodedInput : Type :=
| Press (keys : jstring)
| Type_ (text : jstring)
| Paste (text : jstring)
| Raw (bytes_ : bytes).
Global Instance DecodedInput_eq_dec : EqDecision DecodedInput.
Proof. solve_decision. Defined.

Definition MAX_PENDING_BYTES : Z := 64 * 1024.

Definition CURSOR_FINALS : list (Z * jstring) :=
  [(65, js "ArrowUp"); (66, js "ArrowDown"); (67, js "ArrowRight"); (68, js "ArrowLeft"); (72, js "Home"); (70, js "End")].
Definition TILDE_NAMES : list (Z * jstring) :=
  [(2, js "Insert"); (3, js "Delete"); (5, js "PageUp"); (6, js "PageDown"); (15, js "F5"); (17, js "F6"); (18, js "F7");
   (19, js "F8"); (20, js "F9"); (21, js "F10"); (23, js "F11"); (24, js "F12")].
Definition SS3_FUNCTION_FINALS : list (Z * jstring) := [(80, js "F1"); (81, js "F2"); (82, js "F3"); (83, js "F4")].
Definition CONTROL_NAMES : list (Z * jstring) :=
  [(13, js "Enter"); (10, js "Enter"); (9, js "Tab"); (127, js "Backspace"); (0, js "Control+@")].
Definition PASTE_START : bytes := 27 :: js "[200~".
Definition PASTE_END : bytes := 27 :: js "[201~".

(** ** Escape sequences *)

Definition modifierPrefix (params : jstring) : jstring :=
  match parseInt (second_piece params) with
  | None => []
  | Some value =>
      if value <=? 1 then []
      else
        let bits := default 0 (round_double (value - 1)) in
        (if Z.land bits 4 =? 0 then [] else js "Control+") ++ (if Z.land bits 2 =? 0 then [] else js "Alt+") ++
        (if Z.land bits 1 =? 0 then [] else js "Shift+")
  end.

(** An action and what follows it; [None] is ['incomplete']. *)
Definition decodeCsi (rest : bytes) : option (DecodedInput * bytes) :=
  match find_index (fun b => between 64 b 126) (drop 2 rest) with
  | None => None
  | Some i =>
      let final := nth i (drop 2 rest) 0 in
      let params := decodeUtf8 (take i (drop 2 rest)) in
      let next := drop (i + 3) rest in
      let raw := Raw (take (i + 3) rest) in
      let modifier := modifierPrefix params in
      if final =? 126 then
        match parseInt (first_piece params) ≫= jget TILDE_NAMES with
        | Some key => Some (Press (modifier ++ key), next)
        | None => Some (raw, next)
        end
      else if final =? 90 then Some (Press (js "Shift+Tab"), next)
      else match jget CURSOR_FINALS final with
           | Some cursor => Some (Press (modifier ++ cursor), next)
           | None => Some (raw, next)
           end
  end.

Definition decodeEscape (rest : bytes) : option (DecodedInput * bytes) :=
  let escape := Some (Press (js "Escape"), drop 1 rest) in
  match drop 1 rest with
  | [] => escape
  | second :: _ =>
      if second =? 91 then decodeCsi rest
      else if second =? 79 then
        match drop 2 rest with
        | [] => None
        | final :: _ =>
            match jget (SS3_FUNCTION_FINALS ++ CURSOR_FINALS) final with
            | None => Some (Raw (take 3 rest), drop 3 rest)
            | Some key => Some (Press key, drop 3 rest)
            end
        end
      else if second =? 27 then escape
      else if (32 <=? second) && negb (second =? 127) then Some (Press (js "Alt+" ++ [second]), drop 2 rest)
      else escape
  end.

(** ** Bytes *)

Definition startsWithAscii (buffer : bytes) (text : bytes) : bool := bool_decide (take (length text) buffer = text).

Fixpoint indexOfAscii (buffer : bytes) (text : bytes) : option nat :=
  match buffer with
  | [] => if startsWithAscii [] text then Some 0%nat else None
  | _ :: t => if startsWithAscii buffer text then Some 0%nat else S <$> indexOfAscii t text
  end.

(** The bytes of a character by its first. *)
Definition expected_bytes (byte : Z) : nat :=
  if 240 <=? byte then 4 else if 224 <=? byte then 3 else if 192 <=? byte then 2 else 1.

(** Looks back from the end, [back] bytes from it. *)
Fixpoint complete_from (fuel back : nat) (bs : bytes) : nat :=
  match fuel with
  | O => length bs
  | S fuel =>
      if (length bs <? back)%nat then length bs
      else
        let byte := nth (length bs - back) bs 0 in
        if Z.land byte 192 =? 128 then complete_from fuel (S back) bs
        else
          if (back <? expected_bytes byte)%nat then length bs - back else length bs
  end.
Definition completeUtf8Length (bs : bytes) : nat := complete_from 3 1 bs.

Definition printable (b : Z) : bool := (32 <=? b) && negb (b =? 127).
Fixpoint printable_run (bs : bytes) : bytes * bytes :=
  match bs with
  | b :: t => if printable b then let '(r, rest) := printable_run t in (b :: r, rest) else ([], bs)
  | [] => ([], [])
  end.

(** ** The decoder *)

Record InputDecoder : Type := { d_pending : bytes; inPaste : bool; paste : jstring }.
Definition newDecoder : InputDecoder := {| d_pending := []; inPaste := false; paste := [] |}.

(** The variables of [push]. *)
Record Scan : Type := {
  sc_inPaste : bool;
  sc_paste : jstring;
  sc_out : list DecodedInput;
  sc_text : jstring;
  sc_rest : bytes;
}.

Definition flushText (s : Scan) : list DecodedInput :=
  match sc_text s with [] => sc_out s | t => sc_out s ++ [Type_ t] end.

(** One turn of the loop: [inl] goes on, [inr] leaves it. *)
Definition scan_turn (s : Scan) : Scan + Scan :=
  let rest := sc_rest s in
  if sc_inPaste s then
    match indexOfAscii rest PASTE_END with
    | None =>
        let keep := (length rest + 1 - length PASTE_END)%nat in
        inr {| sc_inPaste := true; sc_paste := sc_paste s ++ decodeUtf8 (take keep rest); sc_out := sc_out s;
               sc_text := sc_text s; sc_rest := drop keep rest |}
    | Some end_ =>
        inl {| sc_inPaste := false; sc_paste := [];
               sc_out := sc_out s ++ [Paste (sc_paste s ++ decodeUtf8 (take end_ rest))]; sc_text := sc_text s;
               sc_rest := drop (end_ + length PASTE_END) rest |}
    end
  else
    match rest with
    | [] => inr s
    | byte :: t =>
        let act input next := inl {| sc_inPaste := false; sc_paste := sc_paste s; sc_out := flushText s ++ [input];
                                     sc_text := []; sc_rest := next |} in
        if byte =? 27 then
          if startsWithAscii rest PASTE_START then
            inl {| sc_inPaste := true; sc_paste := sc_paste s; sc_out := flushText s; sc_text := [];
                   sc_rest := drop (length PASTE_START) rest |}
          else match decodeEscape rest with
               | None => inr s
               | Some (input, next) => act input next
               end
        else match jget CONTROL_NAMES byte with
             | Some name => act (Press name) t
             | None =>
                 if byte <? 32 then act (Press (js "Control+" ++ [byte + 64])) t
                 else
                   let '(chunk, after) := printable_run rest in
                   let complete := completeUtf8Length chunk in
                   let s' := {| sc_inPaste := false; sc_paste := sc_paste s; sc_out := sc_out s;
                                sc_text := sc_text s ++ decodeUtf8 (take complete chunk);
                                sc_rest := drop complete rest |} in
                   if (complete <? length chunk)%nat then inr s' else inl s'
             end
    end.

(** The loop; every turn that goes on consumes a byte, so the fuel [push] gives
    it is enough. *)
Fixpoint scan_loop (fuel : nat) (s : Scan) : option Scan :=
  match fuel with
  | O => None
  | S fuel =>
      match sc_rest s with
      | [] => Some s
      | _ => match scan_turn s with inl s => scan_loop fuel s | inr s => Some s end
      end
  end.

Definition push (d : InputDecoder) (chunk : bytes) : option (list DecodedInput * InputDecoder) :=
  let buffer := d_pending d ++ chunk in
  s ← scan_loop (S (length buffer)) {| sc_inPaste := inPaste d; sc_paste := paste d; sc_out := []; sc_text := []; sc_rest := buffer |};
  let out := flushText s in
  if MAX_PENDING_BYTES <? Z.of_nat (length (sc_rest s))
  then Some (out ++ [Raw (sc_rest s)], newDecoder)
  else Some (out, {| d_pending := sc_rest s; inPaste := sc_inPaste s; paste := sc_paste s |}).

Definition flush (d : InputDecoder) : list DecodedInput * InputDecoder :=
  if inPaste d then
    match paste d ++ decodeUtf8 (d_pending d) with [] => ([], newDecoder) | text => ([Paste text], newDecoder) end
  else
    (match d_pending d with [] => [] | p => [Raw p] end, {| d_pending := []; inPaste := false; paste := paste d |}).

Definition decodeInput (bs : bytes) : option (list DecodedInput) :=
  '(out, d) ← push newDecoder bs;
  Some (out ++ (flush d).1).

(** [coalesceInput]: [out] with its last entry apart. *)
Fixpoint coalesce_from (last : option DecodedInput) (inputs : list DecodedInput) : list DecodedInput :=
  match inputs with
  | [] => option_list last
  | i :: inputs =>
      match i, last with
      | Type_ t, Some (Type_ l) => coalesce_from (Some (Type_ (l ++ t))) inputs
      | _, _ => option_list last ++ coalesce_from (Some i) inputs
      end
  end.
Definition coalesceInput (inputs : list DecodedInput) : list DecodedInput := coalesce_from None inputs.
