(* ===== verification/InputTheorems.v ===== *)
(** * Input: what is sent can be read back

    The recorder's decoder always finishes and holds back a bounded tail; typed
    text survives any cutting of the byte stream; the key descriptions of the
    recorder's vocabulary survive encoding and decoding. *)

From S2P Require Import Prelude JsText Dto JsObject Keys InputDecode.

Local Open Scope Z_scope.

(** ** The decoder finishes *)

Lemma decodeEscape_shrinks b t input next :
  decodeEscape (b :: t) = Some (input, next) -> (length next < length (b :: t))%nat.
Proof.
  assert (forall n, (0 < n)%nat -> (length (drop n (b :: t)) < length (b :: t))%nat) as Hd.
  { intros n Hn. rewrite length_drop. cbn. lia. }
  assert (forall i, decodeCsi (b :: t) = Some i -> (length i.2 < length (b :: t))%nat) as Hc.
  { intros [i n]. unfold decodeCsi. destruct (find_index _ _) as [k|]; [|done].
    destruct (_ =? 126); [destruct (_ ≫= _); intros [= <- <-]; apply Hd; lia|].
    destruct (_ =? 90); [intros [= <- <-]; apply Hd; lia|].
    destruct (jget _ _); intros [= <- <-]; apply Hd; lia. }
  unfold decodeEscape. destruct (drop 1 (b :: t)) as [|second u] eqn:Es.
  - intros [= <- <-]. cbn. lia.
  - destruct (second =? 91); [by intros H; apply Hc in H|].
    destruct (second =? 79).
    { destruct (drop 2 (b :: t)); [done|]. destruct (jget _ _); intros [= <- <-]; apply (Hd 3%nat); lia. }
    destruct (second =? 27); [intros [= <- <-]; rewrite <- Es; apply Hd; lia|].
    destruct (_ && _); intros [= <- <-]; [apply (Hd 2%nat)|rewrite <- Es; apply Hd]; lia.
Qed.

Lemma printable_run_app bs : (printable_run bs).1 ++ (printable_run bs).2 = bs.
Proof.
  induction bs as [|b t IH]; cbn; [done|]. destruct (printable b); [|done].
  destruct (printable_run t). cbn in *. by rewrite IH.
Qed.

Lemma scan_turn_shrinks s s' :
  sc_rest s <> [] -> scan_turn s = inl s' -> (length (sc_rest s') < length (sc_rest s))%nat.
Proof.
  intros Hne. unfold scan_turn. destruct (sc_rest s) as [|b t] eqn:Er; [done|]. destruct (sc_inPaste s).
  - destruct (indexOfAscii (b :: t) PASTE_END) as [e|]; [|done]. intros [= <-]. cbn [sc_rest].
    rewrite length_drop. cbn. lia.
  - destruct (b =? 27) eqn:Eb.
    { destruct (startsWithAscii _ _); [intros [= <-]; cbn [sc_rest]; rewrite length_drop; cbn; lia|].
      destruct (decodeEscape (b :: t)) as [[input next]|] eqn:Ed; [|done]. intros [= <-]. by apply decodeEscape_shrinks in Ed. }
    destruct (jget CONTROL_NAMES b) eqn:Ec; [intros [= <-]; cbn; lia|].
    destruct (b <? 32) eqn:E32; [intros [= <-]; cbn; lia|].
    destruct (printable_run (b :: t)) as [chunk after] eqn:Ep.
    destruct (Nat.ltb_spec (completeUtf8Length chunk) (length chunk)) as [|Hge]; [done|]. intros [= <-]. cbn [sc_rest].
    rewrite length_drop. assert (0 < length chunk)%nat; [|cbn [sc_rest length]; lia].
    cbn in Ep. assert (printable b = true) as Hp.
    { unfold printable. apply Z.ltb_ge in E32. rewrite (proj2 (Z.leb_le 32 b)) by done. apply negb_true_iff, Z.eqb_neq.
      intros ->. done. }
    rewrite Hp in Ep. destruct (printable_run t). injection Ep as <- _. cbn. lia.
Qed.

Lemma scan_loop_total fuel s : (length (sc_rest s) < fuel)%nat -> is_Some (scan_loop fuel s).
Proof.
  revert s. induction fuel as [|fuel IH]; intros s Hf; [lia|]. cbn [scan_loop].
  destruct (sc_rest s) as [|b t] eqn:Er; [by eexists|].
  destruct (scan_turn s) as [s'|s'] eqn:Et; [|by eexists]. apply IH.
  apply scan_turn_shrinks in Et; [|by rewrite Er]. rewrite Er in Et. lia.
Qed.

(** Decoding a chunk always finishes, and what it holds back is bounded. *)
Theorem push_total d chunk :
  exists out d', push d chunk = Some (out, d') /\ Z.of_nat (length (d_pending d')) <= MAX_PENDING_BYTES.
Proof.
  unfold push. destruct (scan_loop_total (S (length (d_pending d ++ chunk)))
    {| sc_inPaste := inPaste d; sc_paste := paste d; sc_out := []; sc_text := []; sc_rest := d_pending d ++ chunk |}
    ltac:(cbn; lia)) as [s ->]. cbn [mbind option_bind].
  destruct (Z.ltb_spec MAX_PENDING_BYTES (Z.of_nat (length (sc_rest s)))); do 2 eexists; split; try done.
Qed.

(** ** UTF-8 of scalar values *)

Definition enc (cs : list Z) : bytes := mjoin (utf8_scalar <$> cs).

Lemma enc_app cs cs' : enc (cs ++ cs') = enc cs ++ enc cs'.
Proof. unfold enc. by rewrite fmap_app, join_app. Qed.

Lemma enc_cons c cs : enc (c :: cs) = utf8_scalar c ++ enc cs.
Proof. apply mjoin_fmap_cons. Qed.

Lemma enc_one c : enc [c] = utf8_scalar c.
Proof. rewrite enc_cons. apply app_nil_r. Qed.

Lemma lossy_lead2 b t : 194 <= b <= 223 -> lossy_from 0 0 128 191 (b :: t) = lossy_from 1 (b - 192) 128 191 t.
Proof. intros H. cbn [lossy_from Nat.eqb orb app]. unfold between at 1. by decide_cmp. Qed.
Lemma lossy_lead3 b t :
  224 <= b <= 239 -> lossy_from 0 0 128 191 (b :: t) =
    lossy_from 2 (b - 224) (if b =? 224 then 160 else 128) (if b =? 237 then 159 else 191) t.
Proof.
  intros H. cbn [lossy_from Nat.eqb orb app]. rewrite (proj2 (Z.ltb_ge b 128)) by lia.
  unfold between. rewrite (proj2 (Z.leb_gt b 223)), (proj2 (Z.leb_le 224 b)), (proj2 (Z.leb_le b 239)), andb_false_r by lia. done.
Qed.
Lemma lossy_lead4 b t :
  240 <= b <= 244 -> lossy_from 0 0 128 191 (b :: t) =
    lossy_from 3 (b - 240) (if b =? 240 then 144 else 128) (if b =? 244 then 143 else 191) t.
Proof.
  intros H. cbn [lossy_from Nat.eqb orb app]. rewrite (proj2 (Z.ltb_ge b 128)) by lia.
  unfold between. rewrite (proj2 (Z.leb_gt b 223)), (proj2 (Z.leb_gt b 239)), (proj2 (Z.leb_le 240 b)), (proj2 (Z.leb_le b 244)), !andb_false_r by lia.
  done.
Qed.
Lemma lossy_last cp lo hi b t :
  lo <= b <= hi -> lossy_from 1 cp lo hi (b :: t) = (cp * 64 + (b - 128)) :: lossy_from 0 0 128 191 t.
Proof.
  intros H. cbn [lossy_from Nat.eqb orb]. unfold between at 1. by rewrite (proj2 (Z.leb_le lo b)), (proj2 (Z.leb_le b hi)) by lia.
Qed.
Lemma lossy_more n cp lo hi b t :
  lo <= b <= hi -> lossy_from (S (S n)) cp lo hi (b :: t) = lossy_from (S n) (cp * 64 + (b - 128)) 128 191 t.
Proof.
  intros H. cbn [lossy_from Nat.eqb orb]. unfold between at 1. by rewrite (proj2 (Z.leb_le lo b)), (proj2 (Z.leb_le b hi)) by lia.
Qed.

Lemma lossy_scalar c bs :
  is_scalar c -> lossy_from 0 0 128 191 (utf8_scalar c ++ bs) = c :: lossy_from 0 0 128 191 bs.
Proof.
  intros Hc. unfold is_scalar in Hc. unfold utf8_scalar.
  destruct (digits64 c ltac:(lia))
    as (r0 & r1 & r2 & q1 & q2 & q3 & -> & -> & -> & -> & -> & -> & Ec & E1 & E2 & Hq & Hr).
  destruct (Z.ltb_spec c 128).
  { cbn [app lossy_from Nat.eqb orb]. by rewrite (proj2 (Z.ltb_lt c 128)). }
  destruct (Z.ltb_spec c 2048).
  { cbn [app]. rewrite lossy_lead2, lossy_last by lia. f_equal. lia. }
  destruct (Z.ltb_spec c 65536); cbn [app].
  - rewrite lossy_lead3 by lia.
    rewrite lossy_more by (destruct (Z.eqb_spec (224 + q2) 224), (Z.eqb_spec (224 + q2) 237); lia).
    rewrite lossy_last by lia. f_equal. lia.
  - rewrite lossy_lead4 by lia.
    rewrite lossy_more by (destruct (Z.eqb_spec (240 + q3) 240), (Z.eqb_spec (240 + q3) 244); lia).
    rewrite lossy_more, lossy_last by lia. f_equal. lia.
Qed.

(** Characters that are typed as they are. *)
Definition typed (c : Z) : Prop := is_scalar c /\ 32 <= c /\ c <> 127 /\ c <> 65279.

Lemma decode_typed cs : Forall typed cs -> decodeUtf8 (enc cs) = mjoin (utf16_scalar <$> cs).
Proof.
  intros H. unfold decodeUtf8. rewrite bool_decide_eq_false_2.
  - f_equal. f_equal. induction H as [|c cs [Hc _] _ IH]; [done|]. by rewrite enc_cons, lossy_scalar, IH.
  - destruct H as [|c cs (Hc & _ & _ & Hb) _]; [done|]. rewrite enc_cons. intros Hr. by apply utf8_scalar_bom in Hr.
Qed.

(** ** Cut points *)

(** What the last bytes of a cut text look like: nothing, or the beginning of
    the next character. *)
Definition partial (tail : bytes) (next : list Z) : Prop :=
  tail = [] \/ exists c cs k, next = c :: cs /\ tail = take k (utf8_scalar c) /\ (0 < k < length (utf8_scalar c))%nat.

Lemma cut_text a b cs : a ++ b = enc cs -> exists k tail,
  a = enc (take k cs) ++ tail /\ partial tail (drop k cs) /\ tail ++ b = enc (drop k cs).
Proof.
  revert a. induction cs as [|c cs IH]; intros a H.
  - apply app_nil in H as [-> ->]. exists 0%nat, []. split; [done|]. split; [by left|done].
  - rewrite enc_cons in H. destruct (decide (length (utf8_scalar c) <= length a)%nat) as [Hle|Hlt].
    + assert (a = utf8_scalar c ++ drop (length (utf8_scalar c)) a) as Ha.
      { rewrite <- (take_drop (length (utf8_scalar c)) a) at 1. f_equal.
        apply (f_equal (take (length (utf8_scalar c)))) in H. rewrite take_app_length, take_app_le in H by done. done. }
      rewrite Ha, <- (assoc_L (++)) in H. apply app_inv_head in H. destruct (IH _ H) as (k & tail & E & P & Q).
      exists (S k), tail. cbn [take drop]. rewrite enc_cons, <- (assoc_L (++)), <- E. done.
    + exists 0%nat, a. cbn [take drop]. split; [done|]. split; [|by rewrite enc_cons].
      destruct a as [|x a]; [by left|right]. exists c, cs, (length (x :: a)). split; [done|].
      split; [|cbn in *; lia]. apply (f_equal (take (length (x :: a)))) in H.
      rewrite take_app_length, take_app_le in H by lia. done.
Qed.

(** Bytes by their two high bits. *)
Lemma high_bits b : 0 <= b < 256 -> (Z.land b 192 =? 128) = is_cont b.
Proof.
  intros H. assert (forallb (fun b => bool_decide ((Z.land b 192 =? 128) = is_cont b)) (seqZ 0 256) = true) as Hall by by vm_compute.
  rewrite forallb_forall in Hall. specialize (Hall b). rewrite <- list_elem_of_In, elem_of_seqZ in Hall.
  apply bool_decide_eq_true in Hall; [done|lia].
Qed.

Lemma nth_back l t back : (back <= length t)%nat -> (0 < back)%nat ->
  nth (length (l ++ t) - back) (l ++ t) 0 = nth (length t - back) t 0.
Proof. intros H H0. rewrite length_app, app_nth2 by lia. f_equal. lia. Qed.

(** A byte that is not a continuation decides. *)
Lemma complete_stop fuel back l t :
  (0 < back <= length t)%nat -> is_cont (nth (length t - back) t 0) = false -> 0 <= nth (length t - back) t 0 < 256 ->
  complete_from (S fuel) back (l ++ t) =
    if (back <? expected_bytes (nth (length t - back) t 0%Z))%nat
    then (length (l ++ t) - back)%nat else length (l ++ t).
Proof.
  intros Hb Hc Hr. cbn [complete_from]. rewrite (proj2 (Nat.ltb_ge (length (l ++ t)) back)) by (rewrite length_app; lia).
  cbv zeta. rewrite nth_back by lia. by rewrite high_bits, Hc.
Qed.
Lemma complete_skip fuel back l t :
  (0 < back <= length t)%nat -> is_cont (nth (length t - back) t 0) = true ->
  complete_from (S fuel) back (l ++ t) = complete_from fuel (S back) (l ++ t).
Proof.
  intros Hb Hc. cbn [complete_from]. rewrite (proj2 (Nat.ltb_ge (length (l ++ t)) back)) by (rewrite length_app; lia).
  cbv zeta. rewrite nth_back by lia. rewrite high_bits, Hc by (unfold is_cont in Hc; breflect; lia). done.
Qed.

(** The end of a text that ends in a (possibly cut) character. *)
Lemma complete_char c l k :
  is_scalar c -> (0 < k <= length (utf8_scalar c))%nat ->
  completeUtf8Length (l ++ take k (utf8_scalar c)) =
    if (k <? length (utf8_scalar c))%nat then length l else length (l ++ take k (utf8_scalar c)).
Proof.
  intros Hc. unfold is_scalar in Hc. unfold utf8_scalar, completeUtf8Length.
  destruct (digits64 c ltac:(lia))
    as (r0 & r1 & r2 & q1 & q2 & q3 & -> & -> & -> & -> & -> & -> & Ec & E1 & E2 & Hq & Hr).
  assert (forall r, 0 <= r < 64 -> is_cont (128 + r) = true) as Hcont by (intros; unfold is_cont; by decide_cmp).
  assert (forall b, b < 128 \/ 192 <= b -> is_cont b = false) as Hlead.
  { intros b [?|?]; unfold is_cont; destruct (Z.leb_spec 128 b), (Z.ltb_spec b 192); try done; lia. }
  destruct (Z.ltb_spec c 128); [|destruct (Z.ltb_spec c 2048); [|destruct (Z.ltb_spec c 65536)]]; intros Hk;
    cbn [length] in Hk |- *; (destruct k as [|[|[|[|[|k]]]]]; try lia); cbn [take];
    repeat (rewrite complete_skip by (cbn; first [lia|apply Hcont; lia]));
    first [rewrite complete_stop by (cbn; first [lia|apply Hlead; lia]) | cbn [complete_from]];
    cbn [length Nat.sub nth]; unfold expected_bytes; rewrite ?length_app; cbn [length]; decide_cmp; cbn; try lia.
Qed.

Lemma utf8_scalar_length c : (0 < length (utf8_scalar c) <= 4)%nat.
Proof. unfold utf8_scalar. repeat (destruct (_ <? _)); cbn; lia. Qed.

Lemma complete_text cs tail next :
  Forall is_scalar cs -> Forall is_scalar next -> partial tail next ->
  completeUtf8Length (enc cs ++ tail) = length (enc cs).
Proof.
  intros Hcs Hn [->|(c & cs' & k & -> & -> & Hk)].
  - rewrite app_nil_r. induction cs as [|c cs _] using rev_ind; [done|].
    apply Forall_app in Hcs as [_ Hc]. apply Forall_cons in Hc as [Hc _].
    rewrite enc_app, enc_one.
    pose proof (utf8_scalar_length c). pose proof (complete_char c (enc cs) (length (utf8_scalar c)) Hc ltac:(lia)) as H'.
    by rewrite take_ge, Nat.ltb_irrefl in H' by lia.
  - apply Forall_cons in Hn as [Hc _]. rewrite complete_char by (done || lia). by rewrite (proj2 (Nat.ltb_lt _ _)) by lia.
Qed.

Lemma typed_bytes c : typed c -> Forall (fun b => printable b = true) (utf8_scalar c).
Proof.
  intros (Hc & H32 & H127 & _). unfold is_scalar in Hc. unfold utf8_scalar, printable.
  destruct (digits64 c ltac:(lia))
    as (r0 & r1 & r2 & q1 & q2 & q3 & -> & -> & -> & -> & -> & -> & Ec & E1 & E2 & Hq & Hr).
  destruct (Z.ltb_spec c 128); [|destruct (Z.ltb_spec c 2048); [|destruct (Z.ltb_spec c 65536)]];
    repeat constructor; by decide_cmp.
Qed.

Lemma enc_printable cs : Forall typed cs -> Forall (fun b => printable b = true) (enc cs).
Proof. induction 1 as [|c cs Hc _ IH]; [constructor|]. rewrite enc_cons. apply Forall_app. auto using typed_bytes. Qed.

Lemma printable_run_all bs : Forall (fun b => printable b = true) bs -> printable_run bs = (bs, []).
Proof. induction 1 as [|b bs Hb _ IH]; cbn; [done|]. by rewrite Hb, IH. Qed.

Lemma printable_plain b : printable b = true -> (b =? 27) = false /\ jget CONTROL_NAMES b = None /\ (b <? 32) = false.
Proof.
  unfold printable. intros H. breflect. split; [apply Z.eqb_neq; lia|]. split; [|apply Z.ltb_ge; lia].
  apply jget_None. cbn. rewrite !not_elem_of_cons. split_and!; try lia. apply not_elem_of_nil.
Qed.

Definition type_of (t : jstring) : list DecodedInput := match t with [] => [] | _ => [Type_ t] end.

(** A chunk of typed text, after the beginning of a character. *)
Lemma push_text p chunk cs tail next :
  p ++ chunk = enc cs ++ tail -> Forall typed cs -> Forall typed next -> partial tail next ->
  push {| d_pending := p; inPaste := false; paste := [] |} chunk =
    Some (type_of (mjoin (utf16_scalar <$> cs)), {| d_pending := tail; inPaste := false; paste := [] |}).
Proof.
  intros Hb Hcs Hn Hp. assert (forall l, Forall typed l -> Forall is_scalar l) as Hsc.
  { intros l Hl. eapply Forall_impl; [exact Hl|]. by intros c [? _]. }
  assert (length tail <= 4)%nat as Hlen.
  { destruct Hp as [->|(c & cs' & k & _ & -> & Hk)]; [cbn; lia|]. rewrite length_take. pose proof (utf8_scalar_length c). lia. }
  assert (Forall (fun b => printable b = true) (enc cs ++ tail)) as Hpr.
  { apply Forall_app. split; [by apply enc_printable|]. destruct Hp as [->|(c & cs' & k & -> & -> & _)]; [constructor|].
    apply Forall_take. apply Forall_cons in Hn as [Hc _]. by apply typed_bytes. }
  unfold push. cbn [d_pending inPaste paste]. rewrite Hb.
  assert (forall s, sc_rest s = tail -> sc_inPaste s = false -> sc_paste s = [] -> sc_out s = [] ->
    sc_text s = mjoin (utf16_scalar <$> cs) ->
    (if MAX_PENDING_BYTES <? Z.of_nat (length (sc_rest s)) then Some (flushText s ++ [Raw (sc_rest s)], newDecoder)
     else Some (flushText s, {| d_pending := sc_rest s; inPaste := sc_inPaste s; paste := sc_paste s |})) =
    Some (type_of (mjoin (utf16_scalar <$> cs)), {| d_pending := tail; inPaste := false; paste := [] |})) as Hfin.
  { intros s -> -> -> Ho Ht. rewrite (proj2 (Z.ltb_ge _ _)) by (unfold MAX_PENDING_BYTES; lia).
    unfold flushText. rewrite Ho, Ht. by destruct (mjoin _). }
  destruct (enc cs ++ tail) as [|b t] eqn:E.
  - cbn [scan_loop sc_rest mbind option_bind]. apply app_nil in E as [Ecs ->].
    match goal with |- context [flushText ?s] => apply (Hfin s); try done end.
    cbn [sc_text]. destruct cs as [|c cs]; [done|]. rewrite enc_cons in Ecs. pose proof (utf8_scalar_length c).
    apply (f_equal length) in Ecs. rewrite length_app in Ecs. cbn in Ecs. lia.
  - cbn [scan_loop sc_rest]. unfold scan_turn. cbn [sc_inPaste sc_rest]. pose proof Hpr as Hpr'.
    apply Forall_cons in Hpr as [Hb1 _]. destruct (printable_plain b Hb1) as (-> & -> & ->).
    rewrite printable_run_all, <- E, (complete_text cs tail next) by auto. cbn [sc_out sc_text sc_paste app].
    rewrite take_app_length, drop_app_length, decode_typed by done.
    destruct (Nat.ltb_spec (length (enc cs)) (length (enc cs ++ tail))) as [Hlt|Hge]; cbn [mbind option_bind].
    + match goal with |- context [flushText ?s] => by apply (Hfin s) end.
    + assert (tail = []) as Ht by (destruct tail; [done|rewrite length_app in Hge; cbn in Hge; lia]).
      rewrite Ht in *. cbn [scan_loop length sc_rest].
      match goal with |- context [scan_loop ?n _] => destruct n eqn:En end; cbn [scan_loop sc_rest mbind option_bind].
      * apply (f_equal length) in E. rewrite En in E. done.
      * match goal with |- context [flushText ?s] => by apply (Hfin s) end.
Qed.

(** The pushes of a recording, in order. *)
Fixpoint feed (d : InputDecoder) (chunks : list bytes) : option (list DecodedInput * InputDecoder) :=
  match chunks with
  | [] => Some ([], d)
  | c :: chunks => '(out, d) ← push d c; '(outs, d) ← feed d chunks; Some (out ++ outs, d)
  end.

Lemma feed_text p cs chunks :
  p ++ mjoin chunks = enc cs -> partial p cs -> Forall typed cs ->
  exists ts, feed {| d_pending := p; inPaste := false; paste := [] |} chunks = Some (Type_ <$> ts, newDecoder) /\
    mjoin ts = mjoin (utf16_scalar <$> cs).
Proof.
  revert p cs. induction chunks as [|c chunks IH]; intros p cs H Hp Hcs.
  - cbn in H. rewrite app_nil_r in H. destruct Hp as [->|(x & xs & k & -> & -> & Hk)].
    + exists []. split; [done|]. destruct cs as [|x xs]; [done|]. rewrite enc_cons in H. pose proof (utf8_scalar_length x).
      apply (f_equal length) in H. rewrite length_app in H. cbn in H. lia.
    + rewrite enc_cons in H. apply (f_equal length) in H. rewrite length_app, length_take in H. lia.
  - cbn [mjoin list_join] in H. rewrite (assoc_L (++)) in H. destruct (cut_text _ _ _ H) as (k & tail & E & Ht & Q).
    assert (Forall typed (take k cs) /\ Forall typed (drop k cs)) as [H1 H2].
    { apply Forall_app. by rewrite take_drop. }
    cbn [feed]. rewrite (push_text p c (take k cs) tail (drop k cs) E H1 H2 Ht). cbn [mbind option_bind].
    destruct (IH tail (drop k cs) Q Ht H2) as (ts & -> & Hts). cbn [mbind option_bind].
    exists ((match mjoin (utf16_scalar <$> take k cs) with [] => [] | t => [t] end) ++ ts). split.
    + rewrite fmap_app. unfold type_of. by destruct (mjoin (utf16_scalar <$> take k cs)).
    + rewrite join_app, Hts. rewrite <- (take_drop k cs) at 3. rewrite fmap_app, join_app. f_equal.
      destruct (mjoin (utf16_scalar <$> take k cs)); [done|]. cbn. by rewrite app_nil_r.
Qed.

Lemma coalesce_types l ts : coalesce_from (Some (Type_ l)) (Type_ <$> ts) = [Type_ (l ++ mjoin ts)].
Proof.
  revert l. induction ts as [|t ts IH]; intros l; cbn [fmap list_fmap coalesce_from]; [by rewrite app_nil_r|].
  change (list_fmap _ _ Type_ ts) with (Type_ <$> ts). rewrite IH. cbn. by rewrite (assoc_L (++)).
Qed.

Lemma returns_printable s : Forall (fun c => 32 <= c) s -> returns s = s.
Proof.
  induction 1 as [|c s Hc Hs IH]; [done|]. destruct c as [|p|p]; try lia. cbn [returns].
  do 4 (destruct p as [p|p|]; try (by rewrite IH); try lia).
Qed.

Lemma typed_scalars s :
  well_formed s -> Forall (fun c => 32 <= c /\ c <> 127 /\ c <> 65279) s -> Forall typed (scalar_values s).
Proof.
  intros [Hu Hl] Hs. pose proof (scalar_values_scalar s Hu) as Hsc.
  enough (Forall (fun c => 32 <= c /\ c <> 127 /\ c <> 65279) (scalar_values s)) as H.
  { apply List.Forall_forall. intros c Hc. rewrite List.Forall_forall in H, Hsc. specialize (H c Hc). specialize (Hsc c Hc).
    unfold typed. tauto. }
  clear Hl Hsc. induction s as [|c t IH IH'] using jstring_ind2; [constructor|].
  apply Forall_cons in Hs as [Hc Ht], Hu as [Hcu Hu]. cbn. destruct (is_high c) eqn:Eh.
  - destruct t as [|d t']; [repeat constructor; lia|]. pose proof Ht as Ht2. pose proof Hu as Hu2.
    apply Forall_cons in Ht2 as [Hd Ht'], Hu2 as [Hdu Hu'].
    destruct (is_low d) eqn:El; [|constructor; [lia|by apply IH]]. constructor; [solve_units|by eapply IH'].
  - destruct (is_low c); (constructor; [lia|by apply IH]).
Qed.

(** Typed text survives recording however the byte stream is cut: for every
    well-formed text of printable characters, whatever the sizes of the chunks
    (in the middle of a character too), the decoder's actions are typed texts
    that coalesce to exactly that text, and nothing is held back at the end. *)
Theorem typed_text_survives_chunking unicode_lower locale_lower s chunks :
  well_formed s -> Forall (fun c => 32 <= c /\ c <> 127 /\ c <> 65279) s -> s <> [] ->
  mjoin chunks = encodeText unicode_lower locale_lower s None ->
  exists outs, feed newDecoder chunks = Some (outs, newDecoder) /\ coalesceInput outs = [Type_ s].
Proof.
  intros Hw Hs Hne Hc. unfold encodeText in Hc. cbn in Hc. rewrite returns_printable in Hc.
  2:{ eapply Forall_impl; [exact Hs|]. by intros c [? _]. }
  destruct (feed_text [] (scalar_values s) chunks) as (ts & Hf & Hts); [done|by left|by apply typed_scalars|].
  exists (Type_ <$> ts). split; [done|]. destruct Hw as [Hu Hl]. rewrite utf16_scalar_values in Hts by done.
  unfold coalesceInput. destruct ts as [|t ts]; [by cbn in Hts; subst|]. cbn [fmap list_fmap coalesce_from option_list app].
  change (list_fmap _ _ Type_ ts) with (Type_ <$> ts). rewrite coalesce_types. by rewrite <- Hts.
Qed.

(** The text [é€x], cut inside both multi-byte characters. *)
Lemma typed_text_survives_chunking_witness :
  mjoin [[195]; [169; 226]; [130]; [172; 120]] = encodeText id id [233; 8364; 120] None /\
  exists outs, feed newDecoder [[195]; [169; 226]; [130]; [172; 120]] = Some (outs, newDecoder) /\
    coalesceInput outs = [Type_ [233; 8364; 120]].
Proof.
  split; [by vm_compute|]. apply (typed_text_survives_chunking id id).
  - split; [repeat constructor|done].
  - repeat constructor; lia.
  - done.
  - by vm_compute.
Defined.

(** ** Key descriptions *)

(** Modifier prefixes in the order the recorder writes them. *)
Definition prefixes : list jstring :=
  js <$> [""; "Control+"; "Alt+"; "Shift+"; "Control+Alt+"; "Control+Shift+"; "Alt+Shift+"; "Control+Alt+Shift+"]%string.
Definition named_keys : list jstring :=
  js <$> ["ArrowUp"; "ArrowDown"; "ArrowRight"; "ArrowLeft"; "Home"; "End"; "Insert"; "Delete"; "PageUp"; "PageDown";
          "F5"; "F6"; "F7"; "F8"; "F9"; "F10"; "F11"; "F12"]%string.
Definition plain_keys : list jstring :=
  js <$> ["F1"; "F2"; "F3"; "F4"; "Enter"; "Tab"; "Backspace"; "Escape"; "Shift+Tab"; "Control+@"; "Control+\"; "Control+]";
          "Control+^"; "Control+_"]%string.
(** Letters, without those whose control byte is Tab or Enter. *)
Definition control_keys : list jstring :=
  (fun c => js "Control+" ++ [c]) <$> List.filter (fun c => negb (bool_decide (c ∈ [73; 74; 77]))) (seqZ 65 26).
(** Printable ASCII, without the bytes that open a control sequence. *)
Definition alt_keys : list jstring :=
  (fun c => js "Alt+" ++ [c]) <$> List.filter (fun c => negb (bool_decide (c ∈ [79; 91]))) (seqZ 33 94).

(** What the recorder writes for keys. *)
Definition vocabulary : list jstring :=
  (p ← prefixes; (p ++.) <$> named_keys) ++ plain_keys ++ control_keys ++ alt_keys.

(** Without progressive enhancements. *)
Definition legacy (cursor keypad : bool) : KeyEncodingModes :=
  {| applicationCursorKeys := cursor; applicationKeypad := keypad; kittyKeyboardFlags := None |}.

(** Encoding a description and decoding its bytes. *)
Definition recorded (unicode_lower unicode_upper : jstring -> jstring) (keys : jstring) (modes : KeyEncodingModes) :
    option (list DecodedInput) :=
  match encodeKeys unicode_lower unicode_upper keys modes with Ok b => decodeInput b | Err _ => None end.

(** Key round trip: every description in the recorder's vocabulary (cursor,
    editing and function keys under any combination of Control, Alt and Shift,
    named keys, control letters and Alt with a printable character) encodes, in
    either cursor mode, to bytes the recorder decodes to that one description. *)
Theorem keys_round_trip unicode_lower unicode_upper cursor keypad k :
  k ∈ vocabulary -> recorded unicode_lower unicode_upper k (legacy cursor keypad) = Some [Press k].
Proof.
  assert (forallb (fun k => bool_decide (recorded unicode_lower unicode_upper k (legacy cursor keypad) = Some [Press k]))
    vocabulary = true) as H by (destruct cursor; vm_compute; reflexivity).
  rewrite forallb_forall in H. intros Hk. by apply list_elem_of_In, H, bool_decide_eq_true in Hk.
Qed.

Lemma keys_round_trip_witness :
  js "Control+Alt+ArrowLeft" ∈ vocabulary /\
  recorded id id (js "Control+Alt+ArrowLeft") (legacy true false) = Some [Press (js "Control+Alt+ArrowLeft")].
Proof.
  assert (js "Control+Alt+ArrowLeft" ∈ vocabulary) as H by (apply (bool_decide_eq_true_1 _); by vm_compute).
  split; [exact H|]. by apply (keys_round_trip id id true false).
Defined.

(** ** Where recording is not faithful *)

(** A cursor key whose bytes arrive in two chunks, the first ending in ESC, is
    recorded as the Escape key and typed text. *)
Example split_escape :
  decodeInput (CSI ++ js "A") = Some [Press (js "ArrowUp")] /\
  fst <$> feed newDecoder [[27]; [91; 65]] = Some [Press (js "Escape"); Type_ (js "[A")].
Proof. by vm_compute. Qed.

(** A paste cut inside a multi-byte character loses it. *)
Definition pasted : bytes := encodePaste [233; 97; 98; 99; 100; 101] true.
Example split_paste :
  decodeInput pasted = Some [Paste [233; 97; 98; 99; 100; 101]] /\
  fst <$> feed newDecoder [take 12 pasted; drop 12 pasted] = Some [Paste [65533; 65533; 97; 98; 99; 100; 101]].
Proof. by vm_compute. Qed.

(** Alt with a character outside ASCII is recorded as another character. *)
Example alt_not_ascii :
  encodeKeys id id (js "Alt+" ++ [233]) (legacy false false) = Ok [27; 195; 169] /\
  decodeInput [27; 195; 169] = Some [Press (js "Alt+" ++ [195]); Type_ [65533]].
Proof. by vm_compute. Qed.

(** A key named like a property every object inherits is not refused. *)
Example inherited_key :
  encodeKeys id id (js "constructor") (legacy false false) =
    Ok (CSI ++ js "function Object() { [native code] }") /\
  encodeKeys id id (js "construct") (legacy false false) = Err unsupported_key.
Proof. by vm_compute. Qed.
