(* ===== verification/Selectors.v ===== *)
(** * Locator queries (packages/driver/src/selectors.ts)

    Text matchers, the steps of a semantic query, the selector language that is
    parsed into them, and the refs that name one target.  The descriptions that
    only appear in diagnostics are left out.  A regular expression is the object
    the caller passes: what its [exec] answers from a position. *)

From S2P Require Import Prelude JsText Dto JsObject JsSearch Keys Tree.

Local Open Scope Z_scope.

(** ** Matchers *)

(** [exec] from [lastIndex]: where the match starts and how long it is. *)
Record RegExp : Type := { exec : jstring -> nat -> option (nat * nat) }.

Inductive TextMatcher : Type :=
| exact (text : jstring)
| substring (text : jstring)
| regex (source : RegExp).

Definition textMatcher (value : jstring + RegExp) (is_exact : bool) : TextMatcher :=
  match value with
  | inr r => regex r
  | inl text => if is_exact then exact text else substring text
  end.

(** ** Queries *)

(** The values of a state: a flag, a number, or ['mixed'] and the orientations. *)
Inductive StateValue : Type := SBool (b : bool) | SNumber (z : Z) | SText (t : jstring).
Global Instance StateValue_eq_dec : EqDecision StateValue.
Proof. solve_decision. Defined.

(** One compound selector; an absent property is [None]. *)
Record SemanticStep : Type := {
  q_role : option jstring;
  q_testId : option jstring;
  q_classes : list jstring;
  q_name : option TextMatcher;
  q_text : option TextMatcher;
  q_label : option TextMatcher;
  q_frameworkType : option TextMatcher;
  q_state : list (jstring * option StateValue);
}.

Definition empty_step : SemanticStep :=
  {| q_role := None; q_testId := None; q_classes := []; q_name := None; q_text := None; q_label := None;
     q_frameworkType := None; q_state := [] |}.

Record CellAttributes : Set := {
  bold : bool; dim : bool; italic : bool; underline : bool; inverse : bool; strikethrough : bool;
}.

Record StylePredicates : Type := {
  style_fg : option jstring;
  style_bg : option jstring;
  style_attributes : option (list (jstring * option bool));
}.

Record GenericQuery : Type := {
  g_text : TextMatcher;
  g_occurrence : option Z;
  g_style : option StylePredicates;
}.

(** ** Refs *)

(** What a ref names; [None] is a number too large to be finite. *)
Inductive ParsedRef : Type :=
| node_ref (nodeId : jstring) (revision : option Z)
| rect_ref (row column width height : option Z) (revision : option Z).

(** A number that ends at [stop], or at the end of the text. *)
Definition number_field (stop : option Z) (s : jstring) : option (option Z * jstring) :=
  match digits_span s with
  | ([], _) => None
  | (ds, rest) =>
      match stop, rest with
      | None, [] => Some (round_double (parse_decimal ds), [])
      | Some c, c' :: rest => if decide (c' = c) then Some (round_double (parse_decimal ds), rest) else None
      | _, _ => None
      end
  end.

Definition strip_prefix (p s : jstring) : option jstring :=
  if starts_with p s then Some (drop (length p) s) else None.

Definition GRID_REF_exec (ref : jstring) : option ParsedRef :=
  s ← strip_prefix (js "screen:") ref;
  '(row, s) ← number_field (Some 44) s;
  '(column, s) ← number_field (Some 44) s;
  '(width, s) ← number_field (Some 44) s;
  '(height, s) ← number_field (Some 64) s;
  '(revision, _) ← number_field None s;
  Some (rect_ref row column width height revision).

Definition id_char (c : Z) : bool := negb (c =? 64) && negb (is_space c).

Definition NODE_REF_exec (ref : jstring) : option ParsedRef :=
  s ← strip_prefix (js "semantic:") ref;
  match span id_char s with
  | ([], _) => None
  | (nodeId, 64 :: s) => '(revision, _) ← number_field None s; Some (node_ref nodeId revision)
  | _ => None
  end.

Definition parseRef (ref : jstring) : option ParsedRef :=
  match GRID_REF_exec ref with Some r => Some r | None => NODE_REF_exec ref end.

Definition semanticNodeId (ref : jstring) : option jstring :=
  match parseRef ref with Some (node_ref nodeId _) => Some nodeId | _ => None end.

(** ** The selector language *)

Definition ROLES : list jstring :=
  js <$> ["application"; "region"; "dialog"; "alert"; "status"; "list"; "listitem"; "menu"; "menuitem"; "button";
          "checkbox"; "radio"; "tab"; "textbox"; "heading"; "text"; "progressbar"; "separator"; "scrollbar"; "table";
          "row"; "cell"; "generic"]%string.

Definition PSEUDO_STATES : list (jstring * jstring) :=
  (fun s => (js s, js s)) <$>
    ["focused"; "disabled"; "selected"; "checked"; "expanded"; "modal"; "busy"; "hidden"; "readonly"]%string.

(** The detail of the [TypeError]. *)
Inductive SelectorError : Set :=
| selector_empty | unexpected_characters | second_test_id | unknown_pseudo_class | second_role | unknown_role.

Definition is_letter (c : Z) : bool := between 65 c 90 || between 97 c 122.
Definition role_char (c : Z) : bool := is_letter c || is_digit c || (c =? 45).
Definition body_char (c : Z) : bool := role_char c || (c =? 95).
Definition is_sigil (c : Z) : bool := (c =? 35) || (c =? 46) || (c =? 58).

(** [compound.match(...)]: every match, from left to right; a character no match
    starts at is passed over. *)
Fixpoint compound_tokens (fuel : nat) (at_start : bool) (s : jstring) : list jstring :=
  match fuel, s with
  | S fuel, c :: t =>
      if at_start && is_letter c then
        let '(body, rest) := span role_char t in (c :: body) :: compound_tokens fuel false rest
      else if is_sigil c then
        match span body_char t with
        | ([], _) => compound_tokens fuel false t
        | (body, rest) => (c :: body) :: compound_tokens fuel false rest
        end
      else compound_tokens fuel false t
  | _, _ => []
  end.

Definition add_token (step : SemanticStep) (token : jstring) : result SelectorError SemanticStep :=
  match token with
  | [] => Err unknown_role
  | head :: body =>
      if head =? 35 then
        match q_testId step with
        | Some _ => Err second_test_id
        | None => Ok {| q_role := q_role step; q_testId := Some body; q_classes := q_classes step; q_name := None;
                        q_text := None; q_label := None; q_frameworkType := None; q_state := q_state step |}
        end
      else if head =? 46 then
        Ok {| q_role := q_role step; q_testId := q_testId step; q_classes := q_classes step ++ [body]; q_name := None;
              q_text := None; q_label := None; q_frameworkType := None; q_state := q_state step |}
      else if head =? 58 then
        match table_get PSEUDO_STATES (lower_unit <$> body) with
        | None => Err unknown_pseudo_class
        | Some flag =>
            Ok {| q_role := q_role step; q_testId := q_testId step; q_classes := q_classes step; q_name := None;
                  q_text := None; q_label := None; q_frameworkType := None;
                  q_state := jset (q_state step) (found_text flag) (Some (SBool true)) |}
        end
      else
        match q_role step with
        | Some _ => Err second_role
        | None =>
            if decide (token ∈ ROLES)
            then Ok {| q_role := Some token; q_testId := q_testId step; q_classes := q_classes step; q_name := None;
                       q_text := None; q_label := None; q_frameworkType := None; q_state := q_state step |}
            else Err unknown_role
        end
  end.

Fixpoint add_tokens (step : SemanticStep) (tokens : list jstring) : result SelectorError SemanticStep :=
  match tokens with
  | [] => Ok step
  | token :: tokens => step ← add_token step token; add_tokens step tokens
  end.

Definition parseCompound (compound : jstring) : result SelectorError SemanticStep :=
  let tokens := compound_tokens (length compound) true compound in
  if decide (mjoin tokens = compound) then add_tokens empty_step tokens else Err unexpected_characters.

Fixpoint parse_parts (parts : list jstring) : result SelectorError (list SemanticStep) :=
  match parts with
  | [] => Ok []
  | part :: parts => step ← parseCompound part; steps ← parse_parts parts; Ok (step :: steps)
  end.

Definition parseSelector (selector : jstring) : result SelectorError (list SemanticStep) :=
  match pieces is_space (trim selector) with
  | [] => Err selector_empty
  | parts => parse_parts parts
  end.

(** ** The queries behind the locator methods *)

Definition roleQuery (role : jstring) (name : option TextMatcher) (state : list (jstring * option StateValue))
    (frameworkType : option TextMatcher) : list SemanticStep :=
  [{| q_role := Some role; q_testId := None; q_classes := []; q_name := name; q_text := None; q_label := None;
      q_frameworkType := frameworkType; q_state := state |}].
Definition testIdQuery (testId : jstring) : list SemanticStep :=
  [{| q_role := None; q_testId := Some testId; q_classes := []; q_name := None; q_text := None; q_label := None;
      q_frameworkType := None; q_state := [] |}].
Definition labelQuery (label : TextMatcher) : list SemanticStep :=
  [{| q_role := None; q_testId := None; q_classes := []; q_name := None; q_text := None; q_label := Some label;
      q_frameworkType := None; q_state := [] |}].
Definition textQuery (text : TextMatcher) : list SemanticStep :=
  [{| q_role := None; q_testId := None; q_classes := []; q_name := None; q_text := Some text; q_label := None;
      q_frameworkType := None; q_state := [] |}].
Definition gridQuery (text : TextMatcher) (occurrence : option Z) (style : option StylePredicates) : GenericQuery :=
  {| g_text := text; g_occurrence := occurrence; g_style := style |}.

Section Matches.
(** Case mapping of text that is not ASCII. *)
Context (unicode_lower : jstring -> jstring).

(** A clone of the expression starts at the beginning. *)
Definition matchesText (value : option jstring) (matcher : TextMatcher) : bool :=
  match value with
  | None => false
  | Some value =>
      match matcher with
      | exact text => bool_decide (trim value = trim text)
      | substring text => includes (toLowerCase unicode_lower (trim text)) (toLowerCase unicode_lower (trim value))
      | regex source => bool_decide (is_Some (exec source value 0))
      end
  end.
End Matches.
