(* ===== verification/SelectorTheorems.v ===== *)
(** * Selectors and refs are read back as written

    The selector language parses what its canonical form prints, and a ref is
    parsed to the target it was minted for; where either fails is shown at the
    end. *)

From S2P Require Import Prelude JsText Dto JsObject JsSearch Keys Tree Selectors.

Local Open Scope Z_scope.

(** ** Splitting *)

Lemma pieces_spaces before s after :
  forallb is_space before = true -> forallb is_space after = true ->
  pieces is_space (before ++ s ++ after) = pieces is_space s.
Proof.
  intros Hb Ha.
  assert (forall t, pieces is_space (before ++ t) = pieces is_space t) as ->.
  { intros t. induction before as [|c pre IH]; [done|]. cbn in Hb. apply andb_true_iff in Hb as [Hc Hp].
    unfold pieces. cbn. rewrite Hc. by apply IH. }
  unfold pieces. generalize ([] : jstring). induction s as [|c s IH]; intros w; cbn [app pieces_from].
  - revert w. induction after as [|c post IHp]; intros w; [done|]. cbn in Ha |- *. apply andb_true_iff in Ha as [-> Hp].
    destruct w; by rewrite IHp.
  - destruct (is_space c); [destruct w|]; by rewrite IH.
Qed.

Lemma pieces_trim s : pieces is_space (trim s) = pieces is_space s.
Proof.
  assert (forall t, exists pre, t = pre ++ trim_start t /\ forallb is_space pre = true) as Hts.
  { intros t. exists (span is_space t).1. destruct (span_app is_space t []) as (Ht & Hp & _). done. }
  unfold trim. destruct (Hts s) as (pre & Hs & Hpre), (Hts (rev (trim_start s))) as (post & Hp & Hpost).
  apply (f_equal (@rev Z)) in Hp. rewrite rev_involutive, rev_app_distr in Hp. rewrite Hs at 2. rewrite Hp at 2.
  rewrite pieces_spaces; [done|done|]. rewrite forallb_forall in Hpost |- *. intros c Hc. by apply Hpost, in_rev.
Qed.

(** ** Tokens *)

Definition body (s : jstring) : Prop := s <> [] /\ forallb body_char s = true.
Definition sigil_token (t : jstring) : Prop := exists c b, t = c :: b /\ is_sigil c = true /\ body b.
Definition role_token (t : jstring) : Prop := exists c b, t = c :: b /\ is_letter c = true /\ forallb role_char b = true.

Lemma sigil_not_body c : is_sigil c = true -> body_char c = false /\ role_char c = false /\ is_letter c = false.
Proof.
  unfold is_sigil. rewrite !orb_true_iff, !Z.eqb_eq. intros [[->| ->]| ->]; done.
Qed.

Lemma sigil_tokens ts fuel :
  Forall sigil_token ts -> (length (mjoin ts) <= fuel)%nat ->
  compound_tokens fuel false (mjoin ts) = ts /\
  match mjoin ts with c :: _ => is_sigil c = true | [] => ts = [] end.
Proof.
  intros H. revert fuel. induction H as [|t ts (c & b & -> & Hc & Hne & Hb) Hts IH]; intros fuel Hf.
  - by destruct fuel.
  - change (mjoin ((c :: b) :: ts)) with (c :: b ++ mjoin ts) in *. split; [|done].
    destruct fuel as [|fuel]; [cbn in Hf; lia|]. cbn [compound_tokens andb]. rewrite Hc. cbn [length] in Hf. rewrite length_app in Hf.
    assert (compound_tokens fuel false (mjoin ts) = ts) as Ht by (apply IH; lia).
    assert (span body_char (b ++ mjoin ts) = (b, mjoin ts)) as Hspan.
    { apply span_all; [done|]. destruct (IH (length (mjoin ts)) (Nat.le_refl _)) as [_ Hs].
      destruct (mjoin ts); [done|]. by apply sigil_not_body in Hs as [? _]. }
    rewrite Hspan, Ht. by destruct b.
Qed.

Lemma compound_tokens_exact r ts :
  from_option role_token True r -> Forall sigil_token ts ->
  let all := option_list r ++ ts in compound_tokens (length (mjoin all)) true (mjoin all) = all.
Proof.
  intros Hr Hts all. subst all. destruct r as [t|].
  - destruct Hr as (c & b & -> & Hc & Hb). change (option_list (Some (c :: b)) ++ ts) with ((c :: b) :: ts).
    change (mjoin ((c :: b) :: ts)) with (c :: b ++ mjoin ts). cbn [length compound_tokens andb]. rewrite Hc, length_app.
    assert (span role_char (b ++ mjoin ts) = (b, mjoin ts)) as Hspan.
    { apply span_all; [done|]. destruct (sigil_tokens ts (length (mjoin ts)) Hts (Nat.le_refl _)) as [_ Hs].
      destruct (mjoin ts); [done|]. by apply sigil_not_body in Hs as (_ & ? & _). }
    rewrite Hspan. f_equal. apply sigil_tokens; [done|lia].
  - change (option_list None ++ ts) with ts.
    destruct (sigil_tokens ts (length (mjoin ts)) Hts (Nat.le_refl _)) as [Ht Hs].
    destruct (mjoin ts) as [|c s] eqn:E; [by rewrite Hs|]. cbn [length compound_tokens andb] in *.
    apply sigil_not_body in Hs as (_ & _ & ->). cbn in Ht |- *. exact Ht.
Qed.

(** ** Canonical selectors *)

Definition tokens_of (step : SemanticStep) : list jstring :=
  option_list (q_role step) ++
  ((35 ::.) <$> option_list (q_testId step)) ++ ((46 ::.) <$> q_classes step) ++ ((58 ::.) <$> keys (q_state step)).
Definition print_step (step : SemanticStep) : jstring := mjoin (tokens_of step).
Definition print_selector (steps : list SemanticStep) : jstring := mjoin ((fun s => print_step s ++ [32]) <$> steps).

(** The steps the selector language can express. *)
Record expressible (step : SemanticStep) : Prop := {
  ex_role : from_option (fun r => r ∈ ROLES) True (q_role step);
  ex_testId : from_option body True (q_testId step);
  ex_classes : Forall body (q_classes step);
  ex_state : Forall (fun kv => kv.1 ∈ keys PSEUDO_STATES /\ kv.2 = Some (SBool true)) (q_state step);
  ex_distinct : NoDup (keys (q_state step));
  ex_text : q_name step = None /\ q_text step = None /\ q_label step = None /\ q_frameworkType step = None;
  ex_nonempty : tokens_of step <> [];
}.

Lemma roles_are_tokens r : r ∈ ROLES -> role_token r.
Proof.
  intros H. assert (forallb (fun r => match r with c :: b => is_letter c && forallb role_char b | [] => false end) ROLES = true)
    as Hall by by vm_compute.
  rewrite forallb_forall in Hall. apply list_elem_of_In, Hall in H. destruct r as [|c b]; [done|].
  apply andb_true_iff in H as [Hc Hb]. by exists c, b.
Qed.

Lemma pseudo_states_bodies k :
  k ∈ keys PSEUDO_STATES -> body k /\ table_get PSEUDO_STATES (lower_unit <$> k) = Some (Own k).
Proof.
  intros H. assert (forallb (fun k => match k with [] => false | _ => true end && forallb body_char k &&
    bool_decide (jget PSEUDO_STATES (lower_unit <$> k) = Some k)) (keys PSEUDO_STATES) = true) as Hall by by vm_compute.
  rewrite forallb_forall in Hall. apply list_elem_of_In, Hall in H. rewrite !andb_true_iff, bool_decide_eq_true in H.
  destruct H as [[Hne Hb] Hg]. unfold table_get. rewrite Hg. split; [|done]. split; [by destruct k|done].
Qed.

Lemma expressible_tokens step :
  expressible step -> compound_tokens (length (print_step step)) true (print_step step) = tokens_of step.
Proof.
  intros [Hr Hi Hc Hs _ _ _]. unfold print_step, tokens_of. apply compound_tokens_exact.
  - destruct (q_role step); [by apply roles_are_tokens|done].
  - assert (forall c l, is_sigil c = true -> Forall body l -> Forall sigil_token ((c ::.) <$> l)) as Htok.
    { intros c l Hsig Hl. rewrite Forall_fmap. eapply Forall_impl; [exact Hl|]. intros b Hb. by exists c, b. }
    rewrite !Forall_app. split_and!; apply Htok; try done.
    + destruct (q_testId step); [by constructor|constructor].
    + unfold keys. rewrite Forall_fmap. eapply Forall_impl; [exact Hs|]. intros kv [Hk _]. by apply pseudo_states_bodies.
Qed.

Definition mk (r i : option jstring) (cs : list jstring) (st : list (jstring * option StateValue)) : SemanticStep :=
  {| q_role := r; q_testId := i; q_classes := cs; q_name := None; q_text := None; q_label := None;
     q_frameworkType := None; q_state := st |}.

Lemma add_tokens_app s ts us : add_tokens s (ts ++ us) = (s ← add_tokens s ts; add_tokens s us).
Proof. revert s. induction ts as [|t ts IH]; intros s; cbn; [done|]. destruct (add_token s t); cbn; [apply IH|done]. Qed.

Lemma add_classes r i cs st l : add_tokens (mk r i cs st) ((46 ::.) <$> l) = Ok (mk r i (cs ++ l) st).
Proof.
  revert cs. induction l as [|c l IH]; intros cs; cbn; [by rewrite app_nil_r|].
  change (add_tokens (mk r i (cs ++ [c]) st) ((46 ::.) <$> l) = Ok (mk r i (cs ++ c :: l) st)). rewrite IH. by rewrite <- app_assoc.
Qed.

Lemma jset_fresh {V} (m : list (jstring * V)) k v : k ∉ keys m -> jset m k v = m ++ [(k, v)].
Proof.
  induction m as [|[k' v'] m IH]; cbn; [done|]. rewrite not_elem_of_cons. intros [Hne Hni].
  rewrite decide_False by congruence. by rewrite IH.
Qed.

Lemma add_states r i cs st l :
  Forall (fun kv => kv.1 ∈ keys PSEUDO_STATES /\ kv.2 = Some (SBool true)) l -> NoDup (keys (st ++ l)) ->
  add_tokens (mk r i cs st) ((58 ::.) <$> keys l) = Ok (mk r i cs (st ++ l)).
Proof.
  intros Hl. revert st. induction Hl as [|[k v] l [Hk Hv] Hl IH]; intros st Hnd.
  - cbn. by rewrite app_nil_r.
  - cbn [fst snd] in Hk, Hv. subst v. change (keys ((k, ?v) :: l)) with (k :: keys l). rewrite fmap_cons. cbn [add_tokens add_token Z.eqb Pos.eqb]. apply pseudo_states_bodies in Hk as [_ ->].
    cbn [mbind result_bind found_text].
    assert (k ∉ keys st) as Hni.
    { unfold keys in *. rewrite fmap_app, NoDup_app in Hnd. destruct Hnd as (_ & Hd & _). intros H. apply (Hd k H). left. }
    change (add_tokens (mk r i cs (jset st k (Some (SBool true)))) ((58 ::.) <$> keys l) = Ok (mk r i cs (st ++ (k, Some (SBool true)) :: l))).
    rewrite jset_fresh, IH by (rewrite <- ?app_assoc; done). by rewrite <- app_assoc.
Qed.

Lemma add_tokens_of step : expressible step -> add_tokens empty_step (tokens_of step) = Ok step.
Proof.
  intros [Hr Hi Hc Hs Hd (E1 & E2 & E3 & E4) _]. unfold tokens_of.
  transitivity (@Ok SelectorError _ (mk (q_role step) (q_testId step) (q_classes step) (q_state step))).
  2:{ destruct step; cbn in *. by subst. }
  change empty_step with (mk None None [] []). rewrite add_tokens_app.
  assert (add_tokens (mk None None [] []) (option_list (q_role step)) = Ok (mk (q_role step) None [] [])) as ->.
  { destruct (q_role step) as [r|]; [|done]. cbn [from_option] in Hr. pose proof (roles_are_tokens r Hr) as (c & b & -> & Hl & _).
    change (option_list (Some (c :: b))) with [c :: b]. cbn [add_tokens add_token]. unfold is_letter, between in Hl.
    destruct (Z.eqb_spec c 35), (Z.eqb_spec c 46), (Z.eqb_spec c 58); subst; try done.
    cbn [q_role mk]. case_decide; [done|contradiction]. }
  cbn [mbind result_bind]. rewrite add_tokens_app.
  assert (add_tokens (mk (q_role step) None [] []) ((35 ::.) <$> option_list (q_testId step)) =
    Ok (mk (q_role step) (q_testId step) [] [])) as -> by by destruct (q_testId step).
  cbn [mbind result_bind]. rewrite add_tokens_app, add_classes. cbn [mbind result_bind app]. by rewrite add_states.
Qed.

Lemma parseCompound_print step : expressible step -> parseCompound (print_step step) = Ok step.
Proof.
  intros H. unfold parseCompound. rewrite expressible_tokens by done. unfold print_step. rewrite decide_True by done.
  by apply add_tokens_of.
Qed.

Lemma step_text step : expressible step ->
  print_step step <> [] /\ forallb (fun c => negb (is_space c)) (print_step step) = true.
Proof.
  intros [Hr Hi Hc Hs _ _ Hne].
  assert (forall c, body_char c = true \/ is_sigil c = true -> is_space c = false) as Hsp.
  { intros c. unfold body_char, role_char, is_letter, is_digit, is_sigil, is_space, between. intros H.
    rewrite !orb_true_iff, !andb_true_iff, !Z.leb_le, !Z.eqb_eq in H.
    rewrite !orb_false_iff, !andb_false_iff, !Z.leb_gt, !Z.eqb_neq. lia. }
  assert (Forall (fun t => t <> [] /\ Forall (fun c => is_space c = false) t) (tokens_of step)) as Ht.
  { assert (forall t, sigil_token t \/ role_token t -> t <> [] /\ Forall (fun c => is_space c = false) t) as Htok.
    { intros t [(c & b & -> & Hsig & _ & Hb)|(c & b & -> & Hl & Hb)]; (split; [done|]); rewrite forallb_forall in Hb; constructor.
      - apply Hsp. by right.
      - rewrite Forall_forall. intros d Hd. apply Hsp. left. by apply Hb, list_elem_of_In.
      - apply Hsp. left. unfold body_char, role_char. by rewrite Hl.
      - rewrite Forall_forall. intros d Hd. apply Hsp. left. unfold body_char. by rewrite Hb by by apply list_elem_of_In. }
    unfold tokens_of. rewrite !Forall_app. split_and!.
    - destruct (q_role step) as [r|]; [|constructor]. constructor; [|constructor]. apply Htok. right. by apply roles_are_tokens.
    - destruct (q_testId step) as [i|]; [|constructor]. constructor; [|constructor]. apply Htok. left. by exists 35, i.
    - rewrite Forall_fmap. eapply Forall_impl; [exact Hc|]. intros b Hb. apply Htok. left. by exists 46, b.
    - unfold keys. rewrite !Forall_fmap. eapply Forall_impl; [exact Hs|]. intros kv [Hk _]. apply Htok. left.
      exists 58, kv.1. apply pseudo_states_bodies in Hk as [? _]. done. }
  unfold print_step. destruct Ht as [|t ts [Hn Ht] Hts]; [done|]. split; [by destruct t|].
  rewrite forallb_forall. intros c Hin. apply list_elem_of_In in Hin. apply negb_true_iff.
  apply list_elem_of_join in Hin as (u & Hcu & Hu). apply elem_of_cons in Hu as [->|Hu].
  - by rewrite Forall_forall in Ht; apply Ht.
  - rewrite Forall_forall in Hts. destruct (Hts u Hu) as [_ Hx]. rewrite Forall_forall in Hx. by apply Hx.
Qed.

(** C38 The selector language is read back as written: the canonical text of any
    chain of steps it can express (a known role, a test id, classes and state
    flags, in any number and combination) parses to exactly those steps,
    whatever white space surrounds it. *)
Theorem selector_round_trip steps before after :
  steps <> [] -> Forall expressible steps -> forallb is_space before = true -> forallb is_space after = true ->
  parseSelector (before ++ print_selector steps ++ after) = Ok steps.
Proof.
  intros Hne Hs Hb Ha. unfold parseSelector. rewrite pieces_trim.
  assert (pieces is_space (before ++ print_selector steps ++ after) = print_step <$> steps) as ->.
  { rewrite pieces_spaces by done. unfold print_selector.
    change (fun s => print_step s ++ [32]) with ((fun w : jstring => w ++ [32]) ∘ print_step). rewrite list_fmap_compose. apply pieces_join; [done|]. rewrite Forall_fmap.
    eapply Forall_impl; [exact Hs|]. intros s Hx. by apply step_text. }
  assert (parse_parts (print_step <$> steps) = Ok steps) as Hp.
  { clear Hne. induction Hs as [|s steps Hx Hs IH]; [done|]. cbn [fmap list_fmap parse_parts].
    rewrite parseCompound_print by done. cbn [mbind result_bind]. change (list_fmap _ _ print_step steps) with (print_step <$> steps).
    by rewrite IH. }
  destruct steps; [done|exact Hp].
Qed.

(** [dialog #ok.primary.wide:focused:disabled], padded. *)
Lemma selector_round_trip_witness :
  let steps := [mk (Some (js "dialog")) None [] [];
                mk None (Some (js "ok")) [js "primary"; js "wide"]
                  [(js "focused", Some (SBool true)); (js "disabled", Some (SBool true))]] in
  js "  dialog #ok.primary.wide:focused:disabled  " = [32; 32] ++ print_selector steps ++ [32] /\
  parseSelector (js "  dialog #ok.primary.wide:focused:disabled  ") = Ok steps.
Proof.
  intros steps. split; [by vm_compute|].
  change (js "  dialog #ok.primary.wide:focused:disabled  ") with ([32; 32] ++ print_selector steps ++ [32]).
  apply (selector_round_trip steps); [done| |done|done].
  constructor; [|constructor; [|constructor]]; split; cbn.
  all: first [done|exact I|repeat constructor|idtac].
  all: try (by apply (bool_decide_eq_true_1 _); vm_compute).
Defined.

(** ** Refs *)

(** How targets are named (locator.ts). *)
Definition semantic_ref (nodeId : jstring) (revision : Z) : jstring := js "semantic:" ++ nodeId ++ 64 :: decimal revision.
Definition screen_ref (r : Rect) (revision : Z) : jstring :=
  js "screen:" ++ decimal (row r) ++ 44 :: decimal (column r) ++ 44 :: decimal (width r) ++ 44 :: decimal (height r) ++
  64 :: decimal revision.

Definition safe (z : Z) : Prop := 0 <= z < 2 ^ 53.

Lemma number_field_decimal stop z rest :
  safe z -> match stop with Some c => is_digit c = false | None => rest = [] end ->
  number_field stop (decimal z ++ match stop with Some c => c :: rest | None => [] end) = Some (Some z, rest).
Proof.
  intros Hz Hs. unfold number_field. destruct (decimal_spec z ltac:(unfold safe in Hz; lia)) as (Hd & Hp & c0 & s0 & E & _).
  destruct stop as [c|].
  - rewrite digits_span_app by done. rewrite E, decide_True, <- E by done. by rewrite Hp, round_double_safe.
  - subst rest. rewrite app_nil_r.
    assert (digits_span (decimal z) = (decimal z, [])) as ->.
    { clear Hp E. induction Hd as [|c s Hc Hd IH]; cbn; [done|]. apply is_digit_spec in Hc. by rewrite Hc, IH. }
    rewrite E, <- E. by rewrite Hp, round_double_safe.
Qed.

Lemma strip_prefix_app p s : strip_prefix p (p ++ s) = Some s.
Proof.
  unfold strip_prefix. rewrite (proj2 (starts_with_spec p (p ++ s))) by by exists s. by rewrite drop_app_length.
Qed.

Lemma number_field_not_digit s c t : is_digit c = false -> number_field None (s ++ c :: t) = None.
Proof.
  intros Hc. unfold number_field. destruct (digits_span (s ++ c :: t)) as [ds rest] eqn:E.
  apply digits_span_spec in E as (Es & Hd & _). destruct ds; [done|]. destruct rest; [|done]. exfalso.
  rewrite app_nil_r in Es. rewrite <- Es in Hd. apply Forall_app in Hd as [_ Hd]. apply Forall_cons_1 in Hd as [Hd _].
  apply is_digit_spec in Hd. congruence.
Qed.

Lemma parseRef_semantic t : parseRef (js "semantic:" ++ t) = NODE_REF_exec (js "semantic:" ++ t).
Proof. done. Qed.

(** The id of a ref ends at the first character no id may have. *)
Lemma span_id_bad id rest :
  forallb id_char id = false -> exists a c b, id = a ++ c :: b /\ id_char c = false /\ span id_char (id ++ rest) = (a, c :: b ++ rest).
Proof.
  induction id as [|c id IH]; cbn; [done|]. destruct (id_char c) eqn:Hc; cbn.
  - intros H. destruct (IH H) as (a & d & b & -> & Hd & ->). by exists (c :: a), d, b.
  - intros _. by exists [], c, id.
Qed.

(** A ref names the target it was minted for: a screen ref is parsed to the
    same rectangle and revision; a semantic ref is parsed to the same node and
    revision when the node id is not empty and has neither an [@] nor white
    space, and is otherwise not recognised at all, so that a ref is never taken
    for another target. *)
Theorem ref_round_trip nodeId r revision :
  safe (row r) -> safe (column r) -> safe (width r) -> safe (height r) -> safe revision ->
  parseRef (screen_ref r revision) =
    Some (rect_ref (Some (row r)) (Some (column r)) (Some (width r)) (Some (height r)) (Some revision)) /\
  parseRef (semantic_ref nodeId revision) =
    (if negb (bool_decide (nodeId = [])) && forallb id_char nodeId then Some (node_ref nodeId (Some revision)) else None) /\
  (forall other revision', safe revision' ->
    parseRef (semantic_ref nodeId revision) = parseRef (semantic_ref other revision') ->
    parseRef (semantic_ref nodeId revision) <> None -> other = nodeId /\ revision' = revision).
Proof.
  intros Hr Hc Hw Hh Hv.
  assert (forall id v, safe v -> parseRef (semantic_ref id v) =
    (if negb (bool_decide (id = [])) && forallb id_char id then Some (node_ref id (Some v)) else None)) as Hsem.
  { intros id v Hvs. unfold semantic_ref. rewrite parseRef_semantic. unfold NODE_REF_exec. rewrite strip_prefix_app. cbn [mbind option_bind].
    destruct (forallb id_char id) eqn:Hid.
    - rewrite (span_all id_char id (64 :: decimal v)) by done.
      pose proof (number_field_decimal None v [] Hvs eq_refl) as Hn. cbn beta iota in Hn. rewrite app_nil_r in Hn.
      destruct id as [|c id]; [done|]. rewrite Hn. rewrite bool_decide_eq_false_2 by done. done.
    - rewrite andb_false_r. destruct (span_id_bad id (64 :: decimal v) Hid) as (a & c & b & -> & Hbad & ->).
      destruct a as [|a0 a]; [done|]. destruct (decide (c = 64)) as [->|Hne].
      + by rewrite number_field_not_digit.
      + destruct c as [|c|c]; try done. repeat (destruct c as [c|c|]; try done). }
  split_and!.
  - unfold parseRef, GRID_REF_exec, screen_ref. rewrite strip_prefix_app. cbn [mbind option_bind].
    do 3 (rewrite (number_field_decimal (Some 44)) by done; cbn [mbind option_bind]).
    rewrite (number_field_decimal (Some 64)) by done; cbn [mbind option_bind].
    pose proof (number_field_decimal None revision [] Hv eq_refl) as Hn. cbn beta iota in Hn. rewrite app_nil_r in Hn. by rewrite Hn.
  - by apply Hsem.
  - intros other revision' Hv'. rewrite !Hsem by done. repeat case_match; intros [=]; done.
Qed.

Lemma ref_round_trip_witness :
  let r := {| row := 3; column := 0; width := 12; height := 1 |} in
  parseRef (js "screen:3,0,12,1@7") = Some (rect_ref (Some 3) (Some 0) (Some 12) (Some 1) (Some 7)) /\
  parseRef (js "semantic:save-button@7") = Some (node_ref (js "save-button") (Some 7)) /\
  (forall other revision', safe revision' ->
    parseRef (semantic_ref (js "save-button") 7) = parseRef (semantic_ref other revision') ->
    parseRef (semantic_ref (js "save-button") 7) <> None -> other = js "save-button" /\ revision' = 7).
Proof.
  intros r. assert (forall z, 0 <= z < 100 -> safe z) as Hs by (intros z Hz; unfold safe; lia).
  apply (ref_round_trip (js "save-button") r 7); apply Hs; cbn; lia.
Defined.

(** ** Where the language is not what it says *)

(** A pseudo-class named like a property every object inherits is not refused:
    it becomes a state no node has. *)
Example inherited_pseudo_class :
  parseSelector (js ":constructor") = Ok [mk None None [] [(js "function Object() { [native code] }", Some (SBool true))]] /\
  parseSelector (js ":construct") = Err unknown_pseudo_class.
Proof. by vm_compute. Qed.

(** A node id with an [@], which the snapshot schema accepts, has a ref that does
    not parse. *)
Example unparseable_ref : semanticNodeId (semantic_ref (js "user@host") 3) = None.
Proof. by vm_compute. Qed.
