(* ===== verification/Matching.v ===== *)
(** * The semantic locator engine (packages/driver/src/matching.ts)

    The index kept over the latest accepted tree, its incremental update, and the
    evaluation of a descendant chain against it.  A [Set] is the list of its
    members in insertion order. *)

From S2P Require Import Prelude JsText Dto JsObject JsSearch Keys Tree Selectors.

Local Open Scope Z_scope.

(** ** Sets and multimaps *)

Definition set_add (ids : list jstring) (id : jstring) : list jstring := if decide (id ∈ ids) then ids else ids ++ [id].
Definition set_delete (ids : list jstring) (id : jstring) : list jstring :=
  List.filter (fun i => negb (bool_decide (i = id))) ids.

Definition Index : Type := list (jstring * list jstring).

Definition addIndex (index : Index) (key id : jstring) : Index := jset index key (set_add (default [] (jget index key)) id).

Definition removeIndex (index : Index) (key id : jstring) : Index :=
  match jget index key with
  | None => index
  | Some ids =>
      let ids := set_delete ids id in
      match ids with [] => jdelete index key | _ => jset index key ids end
  end.

(** ** The index *)

Record SemanticIndex : Type := {
  snapshot : SemanticSnapshot;
  byId : list (jstring * SemanticNode);
  byRole : Index;
  byTestId : Index;
  byExactName : Index;
  ordinal : list (jstring * Z);
}.

Definition add_node (node : SemanticNode) (ix : SemanticIndex) : SemanticIndex :=
  {| snapshot := snapshot ix;
     byId := jset (byId ix) (n_id node) node;
     byRole := addIndex (byRole ix) (n_role node) (n_id node);
     byTestId := match n_testId node with Some t => addIndex (byTestId ix) t (n_id node) | None => byTestId ix end;
     byExactName := addIndex (byExactName ix) (n_name node) (n_id node);
     ordinal := ordinal ix |}.

Definition remove_node (node : SemanticNode) (ix : SemanticIndex) : SemanticIndex :=
  {| snapshot := snapshot ix;
     byId := jdelete (byId ix) (n_id node);
     byRole := removeIndex (byRole ix) (n_role node) (n_id node);
     byTestId := match n_testId node with Some t => removeIndex (byTestId ix) t (n_id node) | None => byTestId ix end;
     byExactName := removeIndex (byExactName ix) (n_name node) (n_id node);
     ordinal := ordinal ix |}.

Definition set_ordinal (o : list (jstring * Z)) (ix : SemanticIndex) : SemanticIndex :=
  {| snapshot := snapshot ix; byId := byId ix; byRole := byRole ix; byTestId := byTestId ix;
     byExactName := byExactName ix; ordinal := o |}.
Definition set_snapshot (s : SemanticSnapshot) (ix : SemanticIndex) : SemanticIndex :=
  {| snapshot := s; byId := byId ix; byRole := byRole ix; byTestId := byTestId ix; byExactName := byExactName ix;
     ordinal := ordinal ix |}.

(** [for (const [ordinal, node] of nodes.entries())] *)
Fixpoint set_ordinals (from : Z) (nodes : list SemanticNode) (o : list (jstring * Z)) : list (jstring * Z) :=
  match nodes with
  | [] => o
  | node :: nodes => set_ordinals (from + 1) nodes (jset o (n_id node) from)
  end.

Definition newIndex (s : SemanticSnapshot) : SemanticIndex :=
  let ix := {| snapshot := s; byId := []; byRole := []; byTestId := []; byExactName := []; ordinal := [] |} in
  set_ordinal (set_ordinals 0 (s_nodes s) []) (foldl (fun ix n => add_node n ix) ix (s_nodes s)).

Definition Changes : Type := list (jstring * option SemanticNode).

(** One entry of [changedNodes]. *)
Definition change_node (c : jstring * option SemanticNode) (ix : SemanticIndex) : SemanticIndex :=
  let ix := match jget (byId ix) c.1 with Some previous => remove_node previous ix | None => ix end in
  match c.2 with Some next => add_node next ix | None => ix end.

Definition presence_changed (c : jstring * option SemanticNode) (ix : SemanticIndex) : bool :=
  negb (Bool.eqb (jhas (byId ix) c.1) (match c.2 with Some _ => true | None => false end)).

Fixpoint apply_changes (changes : Changes) (ix : SemanticIndex) (orderChanged : bool) : SemanticIndex * bool :=
  match changes with
  | [] => (ix, orderChanged)
  | c :: changes => apply_changes changes (change_node c ix) (orderChanged || presence_changed c ix)
  end.

Definition update (s : SemanticSnapshot) (changes : Changes) (ix : SemanticIndex) : SemanticIndex :=
  let '(ix, orderChanged) := apply_changes changes ix false in
  let ix := set_snapshot s ix in
  if orderChanged then set_ordinal (set_ordinals 0 (s_nodes s) []) ix else ix.

(** The index of a session when a snapshot is published ([#publishSemantic]). *)
Definition publish_index (index : option SemanticIndex) (s : SemanticSnapshot) (changes : option Changes) : SemanticIndex :=
  match index, changes with
  | Some ix, Some changes => update s changes ix
  | _, _ => newIndex s
  end.

Definition node (ix : SemanticIndex) (id : jstring) : option SemanticNode := jget (byId ix) id.

Definition ordinal_of (ix : SemanticIndex) (n : SemanticNode) : Z := default 0 (jget (ordinal ix) (n_id n)).

Definition candidate_sets (ix : SemanticIndex) (step : SemanticStep) : list (list jstring) :=
  match q_role step with Some r => [default [] (jget (byRole ix) r)] | None => [] end ++
  match q_testId step with Some t => [default [] (jget (byTestId ix) t)] | None => [] end ++
  match q_name step with Some (exact t) => [default [] (jget (byExactName ix) t)] | _ => [] end.

Definition candidates (ix : SemanticIndex) (step : SemanticStep) : list SemanticNode :=
  match sort_on (fun set => Z.of_nat (length set)) (candidate_sets ix step) with
  | [] => s_nodes (snapshot ix)
  | first :: rest =>
      sort_on (ordinal_of ix)
        (omap (node ix) (List.filter (fun id => forallb (fun set => bool_decide (id ∈ set)) rest) first))
  end.

(** Every turn adds an id of the index to [seen]. *)
Fixpoint ancestors_from (fuel : nat) (ix : SemanticIndex) (seen : list jstring) (current : SemanticNode) : list SemanticNode :=
  match fuel with
  | O => []
  | S fuel =>
      match n_parentId current with
      | None => []
      | Some p =>
          match jget (byId ix) p with
          | None => []
          | Some parent =>
              if decide (n_id parent ∈ seen) then [] else parent :: ancestors_from fuel ix (n_id parent :: seen) parent
          end
      end
  end.
Definition ancestors (ix : SemanticIndex) (n : SemanticNode) : list SemanticNode :=
  ancestors_from (S (length (byId ix))) ix [n_id n] n.

Definition isDescendantOf (ix : SemanticIndex) (n : SemanticNode) (ancestorId : jstring) : bool :=
  existsb (fun a => bool_decide (n_id a = ancestorId)) (ancestors ix n).

(** [parts.join(' ')] *)
Fixpoint join_space (parts : list jstring) : jstring :=
  match parts with
  | [] => []
  | [p] => p
  | p :: parts => p ++ 32 :: join_space parts
  end.

Definition label (ix : SemanticIndex) (n : SemanticNode) : jstring :=
  match n_labelledBy n with
  | None | Some [] => n_name n
  | Some ids =>
      let parts := List.filter (fun name => negb (bool_decide (name = []))) (omap (fun id => n_name <$> node ix id) ids) in
      match parts with [] => n_name n | _ => join_space parts end
  end.

(** ** Steps *)

Definition flag (name : string) (v : option bool) : option (jstring * StateValue) := (fun b => (js name, SBool b)) <$> v.
Definition number (name : string) (v : option Z) : option (jstring * StateValue) := (fun z => (js name, SNumber z)) <$> v.

(** The members of a state object that are present. *)
Definition state_members (st : SemanticState) : list (jstring * StateValue) :=
  omap id
    [flag "disabled" (st_disabled st); flag "focused" (st_focused st); flag "selected" (st_selected st);
     (fun c => (js "checked", match c with is_checked b => SBool b | mixed => SText (js "mixed") end)) <$> st_checked st;
     flag "expanded" (st_expanded st); flag "modal" (st_modal st); flag "busy" (st_busy st); flag "hidden" (st_hidden st);
     flag "offscreen" (st_offscreen st); flag "readonly" (st_readonly st); flag "multiline" (st_multiline st);
     flag "required" (st_required st); flag "multiselectable" (st_multiselectable st);
     (fun o => (js "orientation", SText (match o with horizontal => js "horizontal" | vertical => js "vertical" end)))
       <$> st_orientation st;
     number "level" (st_level st); number "positionInSet" (st_positionInSet st); number "setSize" (st_setSize st)].

Definition stateMatches (n : SemanticNode) (expected : list (jstring * option StateValue)) : bool :=
  let actual := match n_state n with Some st => state_members st | None => [] end in
  forallb (fun kv => match kv.2 with None => true | Some want => bool_decide (jget actual kv.1 = Some want) end) expected.

Definition classMatches (n : SemanticNode) (className : jstring) : bool :=
  bool_decide (className ∈ pieces (fun c => is_space c || (c =? 46)) (default [] (n_testId n))) ||
  bool_decide (className ∈ pieces is_space (n_name n)).

Section Match.
Context (unicode_lower : jstring -> jstring).

Abbreviation text_matches := (matchesText unicode_lower).

Definition known_text (v : option SemanticValueObservation) : option jstring :=
  match v with Some (value_known t _ _) => Some t | _ => None end.

Definition unless {A} (o : option A) (test : A -> bool) : bool := match o with None => true | Some a => test a end.

Definition stepMatches (ix : SemanticIndex) (n : SemanticNode) (step : SemanticStep) : bool :=
  unless (q_role step) (fun r => bool_decide (n_role n = r)) &&
  unless (q_testId step) (fun t => bool_decide (n_testId n = Some t)) &&
  forallb (classMatches n) (q_classes step) &&
  unless (q_name step) (text_matches (Some (n_name n))) &&
  unless (q_label step) (text_matches (Some (label ix n))) &&
  unless (q_frameworkType step) (text_matches (n_frameworkType n)) &&
  unless (q_text step) (fun t => text_matches (Some (n_name n)) t || text_matches (known_text (n_value n)) t ||
                                 text_matches (Some (label ix n)) t) &&
  stateMatches n (q_state step).

(** The loop over the chain: [pending] is the step looked for and those outside
    it. *)
Fixpoint climb_steps (ix : SemanticIndex) (pending : list SemanticStep) (chain : list SemanticNode) : bool :=
  match chain with
  | [] => false
  | ancestor :: chain =>
      match pending with
      | [] => false
      | step :: outer =>
          if stepMatches ix ancestor step then match outer with [] => true | _ => climb_steps ix outer chain end
          else climb_steps ix pending chain
      end
  end.

Definition ancestorsMatch (ix : SemanticIndex) (n : SemanticNode) (steps : list SemanticStep) : bool :=
  match steps with [] => true | _ => climb_steps ix (rev steps) (ancestors ix n) end.

Definition matchSemantic (ix : SemanticIndex) (steps : list SemanticStep) (scopeId : option jstring) : list SemanticNode :=
  match last steps with
  | None => []
  | Some l =>
      List.filter (fun n => unless scopeId (isDescendantOf ix n) && stepMatches ix n l && ancestorsMatch ix n (removelast steps))
        (candidates ix l)
  end.
End Match.
