(* ===== verification/MatchingTheorems.v ===== *)
(** * The locator engine answers exactly its queries

    The index holds what the accepted tree says, also when it was only updated
    with the changes since an earlier one, and a query selects exactly the nodes
    that match it, in document order. *)

From Stdlib Require Import Morphisms.
From stdpp Require Import sorting.
From S2P Require Import Prelude JsText Dto JsObject JsSearch Keys Tree Selectors Matching.

Local Open Scope Z_scope.

(** ** Nodes by id *)

Definition find_node (nodes : list SemanticNode) (id : jstring) : option SemanticNode :=
  List.find (fun n => bool_decide (n_id n = id)) nodes.

(** What an index maps ids to. *)
Definition Lookup : Type := jstring -> option SemanticNode.
Definition upd (get : Lookup) (id : jstring) (v : option SemanticNode) : Lookup := fun i => if decide (i = id) then v else get i.

Lemma find_node_Some nodes id n : find_node nodes id = Some n -> n ∈ nodes /\ n_id n = id.
Proof. unfold find_node. intros [Hin Hb]%find_some. apply bool_decide_eq_true in Hb. split; [by apply list_elem_of_In|done]. Qed.

Lemma find_node_None nodes id : find_node nodes id = None <-> id ∉ n_id <$> nodes.
Proof.
  unfold find_node. split.
  - intros H (n & -> & Hn)%list_elem_of_fmap. apply list_elem_of_In in Hn. eapply find_none in H; [|exact Hn].
    by rewrite bool_decide_eq_true_2 in H.
  - intros H. destruct (List.find _ nodes) as [n|] eqn:E; [|done]. destruct (find_node_Some nodes id n E) as [Hn <-].
    destruct H. by apply list_elem_of_fmap_2.
Qed.

Lemma find_node_in nodes n : NoDup (n_id <$> nodes) -> n ∈ nodes -> find_node nodes (n_id n) = Some n.
Proof.
  unfold find_node. induction nodes as [|m nodes IH]; intros Hnd Hn; [by apply not_elem_of_nil in Hn|].
  rewrite fmap_cons in Hnd. apply NoDup_cons in Hnd as [Hni Hnd]. cbn [List.find].
  apply elem_of_cons in Hn as [<-|Hn]; [by rewrite bool_decide_eq_true_2|].
  rewrite bool_decide_eq_false_2; [by apply IH|]. intros E. apply Hni. rewrite E. by apply list_elem_of_fmap_2.
Qed.

Lemma find_node_snoc nodes n id :
  n_id n ∉ n_id <$> nodes -> find_node (nodes ++ [n]) id = upd (find_node nodes) (n_id n) (Some n) id.
Proof.
  unfold upd, find_node. intros Hni. induction nodes as [|m nodes IH]; cbn [app List.find].
  - destruct (decide (id = n_id n)) as [->|Hne]; [by rewrite bool_decide_eq_true_2|by rewrite bool_decide_eq_false_2 by congruence].
  - rewrite fmap_cons, not_elem_of_cons in Hni. destruct Hni as [Hne Hni]. specialize (IH Hni).
    destruct (bool_decide (n_id m = id)) eqn:E; [|exact IH]. apply bool_decide_eq_true in E as <-. by rewrite decide_False by congruence.
Qed.

(** ** Multimaps *)

(** [index] holds, under each key, exactly the ids of the nodes with that key. *)
Definition indexes (key : SemanticNode -> option jstring) (index : Index) (get : Lookup) : Prop :=
  forall k, NoDup (default [] (jget index k)) /\
    forall id, id ∈ default [] (jget index k) <-> exists n, get id = Some n /\ key n = Some k.

Global Instance indexes_proper key index : Proper (pointwise_relation _ eq ==> iff) (indexes key index).
Proof.
  intros get get' H. unfold indexes. split; intros Hi k; destruct (Hi k) as [Hnd Hk]; (split; [done|]); intros id; rewrite Hk;
    by setoid_rewrite H.
Qed.

Lemma set_add_spec ids id i : i ∈ set_add ids id <-> i = id \/ i ∈ ids.
Proof. unfold set_add. case_decide; [naive_solver|]. rewrite elem_of_app, list_elem_of_singleton. tauto. Qed.
Lemma set_add_NoDup ids id : NoDup ids -> NoDup (set_add ids id).
Proof.
  intros H. unfold set_add. case_decide; [done|]. apply NoDup_app. split_and!; [done| |apply NoDup_singleton].
  intros x Hx ->%list_elem_of_singleton. done.
Qed.
Lemma set_delete_spec ids id i : i ∈ set_delete ids id <-> i ∈ ids /\ i <> id.
Proof.
  unfold set_delete. rewrite !list_elem_of_In, filter_In, negb_true_iff, bool_decide_eq_false. done.
Qed.
Lemma set_delete_NoDup ids id : NoDup ids -> NoDup (set_delete ids id).
Proof. rewrite !NoDup_ListNoDup. apply List.NoDup_filter. Qed.

Lemma addIndex_ok key index get n k :
  indexes key index get -> get (n_id n) = None -> key n = Some k ->
  indexes key (addIndex index k (n_id n)) (upd get (n_id n) (Some n)).
Proof.
  intros Hi Hnew Hk k'. unfold addIndex. rewrite jget_jset. unfold upd. destruct (decide (k = k')) as [<-|Hne]; cbn [from_option id].
  - destruct (Hi k) as [Hnd Hin]. split; [by apply set_add_NoDup|]. intros id. rewrite set_add_spec, Hin.
    destruct (decide (id = n_id n)) as [->|Hne]; [|naive_solver]. split; [by exists n|by left].
  - destruct (Hi k') as [Hnd Hin]. split; [done|]. intros id. rewrite Hin. destruct (decide (id = n_id n)) as [->|Hne']; [|done].
    rewrite Hnew. naive_solver.
Qed.

Lemma addIndex_skip key index get n :
  indexes key index get -> get (n_id n) = None -> key n = None -> indexes key index (upd get (n_id n) (Some n)).
Proof.
  intros Hi Hnew Hk k'. destruct (Hi k') as [Hnd Hin]. split; [done|]. intros id. rewrite Hin. unfold upd.
  destruct (decide (id = n_id n)) as [->|Hne]; [|done]. rewrite Hnew. naive_solver.
Qed.

Lemma removeIndex_lookup index k id k' :
  default [] (jget (removeIndex index k id) k') =
    if decide (k = k') then set_delete (default [] (jget index k)) id else default [] (jget index k').
Proof.
  unfold removeIndex. destruct (jget index k) as [ids|] eqn:E.
  - destruct (set_delete ids id) as [|i l] eqn:Ed.
    + rewrite jget_jdelete. destruct (decide (k = k')) as [<-|Hne]; [by change (default [] (Some ids)) with ids; rewrite Ed|done].
    + rewrite jget_jset. destruct (decide (k = k')) as [<-|Hne]; [by change (default [] (Some ids)) with ids; rewrite Ed|done].
  - destruct (decide (k = k')) as [<-|Hne]; [by rewrite E|done].
Qed.

Lemma removeIndex_ok key index get n k :
  indexes key index get -> get (n_id n) = Some n -> key n = Some k ->
  indexes key (removeIndex index k (n_id n)) (upd get (n_id n) None).
Proof.
  intros Hi Hold Hk k'. rewrite removeIndex_lookup. unfold upd. destruct (decide (k = k')) as [<-|Hne].
  - destruct (Hi k) as [Hnd Hin]. split; [by apply set_delete_NoDup|]. intros id. rewrite set_delete_spec, Hin.
    destruct (decide (id = n_id n)) as [->|Hne]; naive_solver.
  - destruct (Hi k') as [Hnd Hin]. split; [done|]. intros id. rewrite Hin. destruct (decide (id = n_id n)) as [->|Hne']; [|done].
    rewrite Hold. naive_solver.
Qed.

Lemma removeIndex_skip key index get n :
  indexes key index get -> get (n_id n) = Some n -> key n = None -> indexes key index (upd get (n_id n) None).
Proof.
  intros Hi Hold Hk k'. destruct (Hi k') as [Hnd Hin]. split; [done|]. intros id. rewrite Hin. unfold upd.
  destruct (decide (id = n_id n)) as [->|Hne]; [|done]. rewrite Hold. naive_solver.
Qed.

(** ** The maps of an index *)

Record maps_ok (ix : SemanticIndex) (get : Lookup) : Prop := {
  ok_byId : forall id, jget (byId ix) id = get id;
  ok_ids : forall id n, get id = Some n -> n_id n = id;
  ok_role : indexes (fun n => Some (n_role n)) (byRole ix) get;
  ok_testId : indexes n_testId (byTestId ix) get;
  ok_name : indexes (fun n => Some (n_name n)) (byExactName ix) get;
}.

Lemma maps_ok_ext ix get get' : (forall id, get id = get' id) -> maps_ok ix get -> maps_ok ix get'.
Proof.
  intros H [H1 H2 H3 H4 H5]. assert (pointwise_relation _ eq get get') as Hp by exact H.
  split; [intros id; by rewrite H1|intros id n; rewrite <- H; apply H2| | |]; by rewrite <- Hp.
Qed.

Lemma add_node_ok n ix get :
  maps_ok ix get -> get (n_id n) = None -> maps_ok (add_node n ix) (upd get (n_id n) (Some n)).
Proof.
  intros [H1 H2 H3 H4 H5] Hnew. split; cbn [add_node byId byRole byTestId byExactName].
  - intros id. rewrite jget_jset, H1. unfold upd. destruct (decide (n_id n = id)), (decide (id = n_id n)); congruence.
  - intros id m. unfold upd. case_decide; [|apply H2]. by intros [= ->].
  - by eapply addIndex_ok.
  - destruct (n_testId n) eqn:E; [by eapply addIndex_ok|by apply addIndex_skip].
  - by eapply addIndex_ok.
Qed.

Lemma remove_node_ok n ix get :
  maps_ok ix get -> get (n_id n) = Some n -> maps_ok (remove_node n ix) (upd get (n_id n) None).
Proof.
  intros [H1 H2 H3 H4 H5] Hold. split; cbn [remove_node byId byRole byTestId byExactName].
  - intros id. rewrite jget_jdelete, H1. unfold upd. destruct (decide (n_id n = id)), (decide (id = n_id n)); congruence.
  - intros id m. unfold upd. case_decide; [done|apply H2].
  - by eapply removeIndex_ok.
  - destruct (n_testId n) eqn:E; [by eapply removeIndex_ok|by apply removeIndex_skip].
  - by eapply removeIndex_ok.
Qed.

Lemma change_node_ok c ix get :
  maps_ok ix get -> (forall n, c.2 = Some n -> n_id n = c.1) -> maps_ok (change_node c ix) (upd get c.1 c.2).
Proof.
  intros H Hc. unfold change_node. rewrite (ok_byId ix get H). destruct c as [id next]. cbn [fst snd] in *.
  assert (exists ix' get', maps_ok ix' get' /\ get' id = None /\ (forall i, i <> id -> get' i = get i) /\
    match get id with Some previous => remove_node previous ix | None => ix end = ix') as (ix' & get' & H' & Hn & Hrest & ->).
  { destruct (get id) as [m|] eqn:E.
    - exists (remove_node m ix), (upd get id None). pose proof (ok_ids ix get H _ _ E) as <-. split; [by apply remove_node_ok|].
      unfold upd. split; [by rewrite decide_True|]. split; [|done]. intros i Hi. by rewrite decide_False.
    - by exists ix, get. }
  destruct next as [n|].
  - specialize (Hc n eq_refl). subst id. eapply maps_ok_ext; [|by apply add_node_ok]. intros i. unfold upd. case_decide; [done|auto].
  - eapply maps_ok_ext; [|exact H']. intros i. unfold upd. case_decide; [by subst|auto].
Qed.

(** ** Building and updating *)

Record index_ok (ix : SemanticIndex) : Prop := {
  ok_distinct : NoDup (n_id <$> s_nodes (snapshot ix));
  ok_maps : maps_ok ix (find_node (s_nodes (snapshot ix)));
  ok_ordinal : forall i n, s_nodes (snapshot ix) !! i = Some n -> jget (ordinal ix) (n_id n) = Some (Z.of_nat i);
}.

Lemma set_ordinals_ok from nodes o :
  NoDup (n_id <$> nodes) ->
  (forall id, id ∉ n_id <$> nodes -> jget (set_ordinals from nodes o) id = jget o id) /\
  forall i n, nodes !! i = Some n -> jget (set_ordinals from nodes o) (n_id n) = Some (from + Z.of_nat i).
Proof.
  revert from o. induction nodes as [|m nodes IH]; intros from o Hnd; [by split|].
  rewrite fmap_cons in Hnd. apply NoDup_cons in Hnd as [Hni Hnd]. destruct (IH (from + 1) (jset o (n_id m) from) Hnd) as [Ho Hi].
  cbn [set_ordinals]. split.
  - intros id. rewrite fmap_cons, not_elem_of_cons. intros [Hne Hid]. rewrite Ho, jget_jset by done. by rewrite decide_False by congruence.
  - intros [|i] n Hn; cbn in Hn.
    + injection Hn as <-. rewrite Ho, jget_jset, decide_True by done. f_equal. lia.
    + rewrite (Hi i n Hn). f_equal. lia.
Qed.

Lemma fold_add_ok ix pre rest :
  NoDup (n_id <$> pre ++ rest) -> maps_ok ix (find_node pre) ->
  maps_ok (foldl (fun ix n => add_node n ix) ix rest) (find_node (pre ++ rest)).
Proof.
  revert ix pre. induction rest as [|n rest IH]; intros ix pre Hnd H; [by rewrite app_nil_r|].
  cbn [foldl]. change (n :: rest) with ([n] ++ rest) in *. rewrite app_assoc in Hnd |- *. apply IH; [done|].
  assert (n_id n ∉ n_id <$> pre) as Hni.
  { rewrite !fmap_app, <- app_assoc in Hnd. apply NoDup_app in Hnd as (_ & Hd & _). intros Hin. apply (Hd _ Hin). left. }
  eapply maps_ok_ext; [intros id; symmetry; by apply find_node_snoc|]. apply add_node_ok; [done|]. by apply find_node_None.
Qed.

Lemma fold_add_snapshot ix rest : snapshot (foldl (fun ix n => add_node n ix) ix rest) = snapshot ix.
Proof. revert ix. induction rest as [|n rest IH]; intros ix; cbn; [done|]. by rewrite IH. Qed.

Lemma newIndex_ok s : NoDup (n_id <$> s_nodes s) -> index_ok (newIndex s).
Proof.
  intros Hnd. unfold newIndex. split; cbn [set_ordinal snapshot ordinal]; rewrite ?fold_add_snapshot; cbn [snapshot].
  - done.
  - destruct (fold_add_ok {| snapshot := s; byId := []; byRole := []; byTestId := []; byExactName := []; ordinal := [] |} [] (s_nodes s))
      as [H1 H2 H3 H4 H5]; [done| |by split].
    split; try done; intros k; (split; [constructor|]); intros id; split; try (by intros ?%not_elem_of_nil); by intros (n & ? & _).
  - intros i n Hn. by apply (set_ordinals_ok 0 (s_nodes s) []).
Qed.

(** [changes] lists everything that differs between two accepted trees, and the
    order of the nodes only differs when some id came or went. *)
Record describes (old new : list SemanticNode) (changes : Changes) : Prop := {
  de_keys : NoDup (keys changes);
  de_distinct : NoDup (n_id <$> new);
  de_entry : forall id next, (id, next) ∈ changes -> next = find_node new id;
  de_rest : forall id, id ∉ keys changes -> find_node old id = find_node new id;
  de_order : (forall id, id ∈ n_id <$> old <-> id ∈ n_id <$> new) -> n_id <$> new = n_id <$> old;
}.

Lemma apply_changes_snapshot changes ix b :
  snapshot (apply_changes changes ix b).1 = snapshot ix /\ ordinal (apply_changes changes ix b).1 = ordinal ix.
Proof.
  revert ix b. induction changes as [|c changes IH]; intros ix b; cbn; [done|].
  assert (snapshot (change_node c ix) = snapshot ix /\ ordinal (change_node c ix) = ordinal ix) as [<- <-]; [|apply IH].
  unfold change_node. destruct (jget _ _), c.2; done.
Qed.

Lemma apply_changes_ok changes ix b get :
  NoDup (keys changes) -> maps_ok ix get -> (forall id n, (id, Some n) ∈ changes -> n_id n = id) ->
  maps_ok (apply_changes changes ix b).1 (fun id => match jget changes id with Some next => next | None => get id end) /\
  ((apply_changes changes ix b).2 = false ->
   forall id next, (id, next) ∈ changes -> (is_Some (get id) <-> is_Some next)).
Proof.
  revert ix b get. induction changes as [|[id next] changes IH]; intros ix b get Hnd H Hid.
  - cbn. split; [done|]. intros _ id next []%not_elem_of_nil.
  - cbn [keys fmap list_fmap] in Hnd. apply NoDup_cons in Hnd as [Hni Hnd]. cbn [apply_changes fst snd].
    assert (maps_ok (change_node (id, next) ix) (upd get id next)) as H'.
    { apply (change_node_ok (id, next)); [done|]. cbn. intros n ->. apply Hid. left. }
    destruct (IH (change_node (id, next) ix) (b || presence_changed (id, next) ix) _ Hnd H') as [Hm Hp].
    { intros i n Hin. apply Hid. by right. }
    split.
    + eapply maps_ok_ext; [|exact Hm]. intros i. cbn [jget]. unfold upd. destruct (decide (id = i)) as [<-|Hne].
      * by rewrite (proj2 (jget_None changes id) Hni), decide_True.
      * destruct (jget changes i); [done|]. by rewrite decide_False by congruence.
    + intros Hb. specialize (Hp Hb). intros i nx [[= -> ->]|Hin]%elem_of_cons.
      * assert (presence_changed (id, next) ix = false) as Hpc.
        { clear -Hb. assert (forall cs x c, (apply_changes cs x c).2 = false -> c = false) as Hf.
          { induction cs as [|c cs IH]; intros x d; cbn; [done|]. intros [Hd _]%IH%orb_false_iff. done. }
          apply Hf, orb_false_iff in Hb as [_ ?]. done. }
        unfold presence_changed, jhas in Hpc. cbn [fst snd] in Hpc. rewrite (ok_byId ix get H) in Hpc.
        apply negb_false_iff, Bool.eqb_prop in Hpc. destruct (get id), next; try discriminate Hpc; split; intros [? [=]]; by eexists.
      * rewrite <- (Hp i nx Hin). unfold upd. rewrite decide_False; [done|]. intros ->. apply Hni. by apply (list_elem_of_fmap_2 fst) in Hin.
Qed.

Lemma update_ok s changes ix :
  index_ok ix -> describes (s_nodes (snapshot ix)) (s_nodes s) changes -> index_ok (update s changes ix).
Proof.
  intros [Hd Hm Ho] [Hk Hnew He Hr Hord]. unfold update.
  destruct (apply_changes_ok changes ix false _ Hk Hm) as [Hm' Hp].
  { intros id n Hin. apply He in Hin. symmetry in Hin. by apply find_node_Some in Hin as [_ ?]. }
  destruct (apply_changes_snapshot changes ix false) as [_ Ho'].
  destruct (apply_changes changes ix false) as [ix' b]. cbn [fst snd] in *.
  assert (maps_ok ix' (find_node (s_nodes s))) as Hmaps.
  { eapply maps_ok_ext; [|exact Hm']. intros id. cbn. destruct (jget changes id) as [next|] eqn:E.
    - apply He. by apply jget_In.
    - apply Hr. by apply jget_None. }
  destruct b; split; cbn [set_ordinal set_snapshot snapshot ordinal]; try done.
  - destruct Hmaps; by split.
  - intros i n Hn. by apply (set_ordinals_ok 0 (s_nodes s) []).
  - destruct Hmaps; by split.
  - intros i n Hn. rewrite Ho'. assert (n_id <$> s_nodes s = n_id <$> s_nodes (snapshot ix)) as Hids.
    { apply Hord. intros id. assert (is_Some (find_node (s_nodes (snapshot ix)) id) <-> is_Some (find_node (s_nodes s) id)) as Hs.
      { destruct (decide (id ∈ keys changes)) as [Hin|Hout]; [|by rewrite Hr].
        apply list_elem_of_fmap in Hin as ([i' nx] & -> & Hin). cbn [fst]. rewrite (Hp eq_refl _ _ Hin). by rewrite (He _ _ Hin). }
      assert (forall l, id ∈ n_id <$> l <-> is_Some (find_node l id)) as Hin.
      { intros l. rewrite <- not_eq_None_Some, find_node_None. split; [auto|]. intros Hnn. by destruct (decide (id ∈ n_id <$> l)). }
      by rewrite !Hin. }
    assert ((n_id <$> s_nodes s) !! i = Some (n_id n)) as Hi by (by rewrite list_lookup_fmap, Hn).
    rewrite Hids, list_lookup_fmap in Hi. destruct (s_nodes (snapshot ix) !! i) as [m|] eqn:E; [|done]. cbn in Hi.
    injection Hi as <-. by apply Ho.
Qed.

(** ** Candidates *)

(** What the index filters by; an exact name is compared as it is. *)
Definition candidate (step : SemanticStep) (n : SemanticNode) : bool :=
  unless (q_role step) (fun r => bool_decide (n_role n = r)) &&
  unless (q_testId step) (fun t => bool_decide (n_testId n = Some t)) &&
  match q_name step with Some (exact t) => bool_decide (n_name n = t) | _ => true end.

Lemma filter_sorted {A} (R : A -> A -> Prop) P l : StronglySorted R l -> StronglySorted R (List.filter P l).
Proof.
  induction 1 as [|a l Hs IH Ha]; cbn; [constructor|]. destruct (P a); [|done]. constructor; [done|].
  rewrite Forall_forall in *. intros x [Hx _]%list_elem_of_In%filter_In. by apply Ha, list_elem_of_In.
Qed.

Lemma positions_sorted (ord : SemanticNode -> Z) nodes from :
  (forall i n, nodes !! i = Some n -> ord n = from + Z.of_nat i) -> StronglySorted (fun x y => ord x < ord y) nodes.
Proof.
  revert from. induction nodes as [|n nodes IH]; intros from H; constructor.
  - apply (IH (from + 1)). intros i m Hm. rewrite (H (S i) m Hm). lia.
  - rewrite Forall_forall. intros m Hm. apply list_elem_of_lookup in Hm as [i Hm].
    rewrite (H 0%nat n eq_refl), (H (S i) m Hm). lia.
Qed.

Lemma omap_ids get ids :
  (forall id n, get id = Some n -> n_id n = id) -> NoDup ids ->
  NoDup (omap get ids) /\ forall n : SemanticNode, n ∈ omap get ids <-> n_id n ∈ ids /\ get (n_id n) = Some n.
Proof.
  intros Hget Hnd. assert (forall n : SemanticNode, n ∈ omap get ids <-> n_id n ∈ ids /\ get (n_id n) = Some n) as Hin.
  { intros n. rewrite list_elem_of_omap. split.
    - intros (i & Hi & E). by rewrite (Hget i n E).
    - intros [Hi E]. by exists (n_id n). }
  split; [|done]. clear Hin. induction Hnd as [|i ids Hni Hnd IH]; [constructor|]. cbn.
  destruct (get i) as [n|] eqn:E; [|done]. constructor; [|done]. intros (j & Hj & Ej)%list_elem_of_omap. apply Hni.
  rewrite <- (Hget _ _ E). by rewrite (Hget _ _ Ej).
Qed.

(** One property of a step as a set of the index and as a test of a node. *)
Lemma component_spec get id (o : option jstring) (ids : jstring -> list jstring) (test : SemanticNode -> jstring -> bool) :
  (forall k, id ∈ ids k <-> exists n, get id = Some n /\ test n k = true) ->
  (forall set, set ∈ match o with Some k => [ids k] | None => [] end -> id ∈ set) <->
  match get id with Some n => unless o (test n) = true | None => o = None end.
Proof.
  intros H. destruct o as [k|]; cbn [unless].
  - assert ((forall set, set ∈ [ids k] -> id ∈ set) <-> id ∈ ids k) as ->.
    { split; [intros Hs; apply Hs; left|]. by intros Hs set ->%list_elem_of_singleton. }
    rewrite H. destruct (get id) as [n|]; [|naive_solver]. split; [by intros (m & [= <-] & ?)|by exists n].
  - split; [by destruct (get id)|]. by intros _ set ?%not_elem_of_nil.
Qed.

Definition exact_name (step : SemanticStep) : option jstring := match q_name step with Some (exact t) => Some t | _ => None end.

Lemma candidate_sets_spec ix get step :
  maps_ok ix get -> candidate_sets ix step <> [] ->
  Forall (@NoDup jstring) (candidate_sets ix step) /\
  forall id, (forall set, set ∈ candidate_sets ix step -> id ∈ set) <-> exists n, get id = Some n /\ candidate step n = true.
Proof.
  intros [_ _ Hr Ht Hn]. unfold candidate_sets, candidate.
  assert (forall (B : Type) (f : jstring -> B) b, match q_name step with Some (exact t) => f t | _ => b end =
    match exact_name step with Some t => f t | None => b end) as Hname.
  { intros B f b. unfold exact_name. by destruct (q_name step) as [[]|]. }
  rewrite (Hname _ (fun t => [default [] (jget (byExactName ix) t)])). intros Hne. split.
  - repeat (apply Forall_app; split).
    + destruct (q_role step); [constructor; [apply Hr|constructor]|constructor].
    + destruct (q_testId step); [constructor; [apply Ht|constructor]|constructor].
    + destruct (exact_name step); [constructor; [apply Hn|constructor]|constructor].
  - intros id.
    pose proof (component_spec get id (q_role step) (fun r => default [] (jget (byRole ix) r)) (fun n r => bool_decide (n_role n = r))) as Cr.
    pose proof (component_spec get id (q_testId step) (fun r => default [] (jget (byTestId ix) r)) (fun n r => bool_decide (n_testId n = Some r))) as Ct.
    pose proof (component_spec get id (exact_name step) (fun r => default [] (jget (byExactName ix) r)) (fun n r => bool_decide (n_name n = r))) as Cn.
    cbn beta in Cr, Ct, Cn. setoid_rewrite bool_decide_eq_true in Cr. setoid_rewrite bool_decide_eq_true in Ct. setoid_rewrite bool_decide_eq_true in Cn.
    assert (forall (X Y Z : list (list jstring)), (forall set, set ∈ X ++ Y ++ Z -> id ∈ set) <->
      (forall set, set ∈ X -> id ∈ set) /\ (forall set, set ∈ Y -> id ∈ set) /\ (forall set, set ∈ Z -> id ∈ set)) as Happ.
    { intros X Y Z. setoid_rewrite elem_of_app. setoid_rewrite elem_of_app. naive_solver. }
    rewrite Happ, Cr, Ct, Cn; clear Cr Ct Cn Happ.
    + setoid_rewrite (Hname bool). destruct (get id) as [n|].
      * setoid_rewrite andb_true_iff. setoid_rewrite andb_true_iff. split; [by intros (? & ? & ?); exists n|].
        by intros (m & [= <-] & [? ?] & ?).
      * split; [|by intros (? & ? & _)]. intros (E1 & E2 & E3). by rewrite E1, E2, E3 in Hne.
    + intros k. destruct (Hn k) as [_ ->]. naive_solver.
    + intros k. apply Ht.
    + intros k. destruct (Hr k) as [_ ->]. naive_solver.
Qed.

Lemma candidates_exact ix step :
  index_ok ix -> candidates ix step = List.filter (candidate step) (s_nodes (snapshot ix)).
Proof.
  intros [Hd Hm Ho]. unfold candidates.
  destruct (sort_on _ (candidate_sets ix step)) as [|first rest] eqn:Es.
  - assert (candidate_sets ix step = []) as Hnil.
    { apply Permutation_nil. rewrite <- Es. apply sort_on_Permutation. }
    unfold candidate_sets in Hnil. apply app_eq_nil in Hnil as [Hr [Ht Hn]%app_eq_nil]. symmetry.
    rewrite <- (List.filter_true (s_nodes (snapshot ix))) at 2. apply List.filter_ext. intros n. unfold candidate.
    destruct (q_role step); [done|]. destruct (q_testId step); [done|]. destruct (q_name step) as [[]|]; done.
  - assert (candidate_sets ix step <> []) as Hne.
    { intros E. rewrite E in Es. done. }
    destruct (candidate_sets_spec ix _ step Hm Hne) as [Hnd Hin].
    assert (first :: rest ≡ₚ candidate_sets ix step) as Hp by (rewrite <- Es; apply sort_on_Permutation).
    rewrite <- Hp in Hnd. apply Forall_cons_1 in Hnd as [Hfirst _]. unfold node.
    set (ids := List.filter _ first).
    assert (NoDup ids) as Hids by (rewrite NoDup_ListNoDup in *; by apply List.NoDup_filter).
    assert (forall id, id ∈ ids <-> exists n, find_node (s_nodes (snapshot ix)) id = Some n /\ candidate step n = true) as Hmem.
    { intros id. rewrite <- Hin. unfold ids. rewrite !list_elem_of_In, filter_In, forallb_forall, <- list_elem_of_In.
      setoid_rewrite <- Hp. setoid_rewrite elem_of_cons. setoid_rewrite bool_decide_eq_true. setoid_rewrite <- list_elem_of_In. naive_solver. }
    destruct (omap_ids (fun id => jget (byId ix) id) ids) as [Hnd Hel]; [|done|].
    { intros id n. rewrite (ok_byId ix _ Hm). apply (ok_ids ix _ Hm). }
    apply sort_on_unique.
    + apply NoDup_Permutation; [done| |].
      * rewrite NoDup_ListNoDup. apply List.NoDup_filter. rewrite <- NoDup_ListNoDup. by eapply NoDup_fmap_1.
      * intros n. rewrite Hel, (ok_byId ix _ Hm), Hmem, list_elem_of_In, filter_In, <- list_elem_of_In. split.
        -- intros [(m & E & Hc) E']. rewrite E in E'. injection E' as ->. by apply find_node_Some in E as [? _].
        -- intros [Hn Hc]. rewrite (find_node_in _ n Hd Hn). split; [by exists n|done].
    + apply filter_sorted, (positions_sorted _ _ 0). intros i n Hn. unfold ordinal_of. by rewrite (Ho i n Hn).
Qed.

(** ** The tree above a node *)

Lemma filter_length_lt {A} (P Q : A -> bool) l a :
  (forall x, P x = true -> Q x = true) -> a ∈ l -> P a = false -> Q a = true ->
  (length (List.filter P l) < length (List.filter Q l))%nat.
Proof.
  intros H Ha HP HQ. assert (forall l, (length (List.filter P l) <= length (List.filter Q l))%nat) as Hle.
  { induction l0 as [|x l0 IH]; cbn; [done|]. destruct (P x) eqn:E; [rewrite (H x E)|destruct (Q x)]; cbn; lia. }
  induction l as [|x l IH]; [by apply not_elem_of_nil in Ha|]. cbn. apply elem_of_cons in Ha as [->|Ha].
  - rewrite HP, HQ. cbn. specialize (Hle l). lia.
  - specialize (IH Ha). destruct (P x) eqn:E; [rewrite (H x E)|destruct (Q x)]; cbn; lia.
Qed.

(** The fuel of [ancestors] is enough, and only what ids map to matters. *)
Lemma ancestors_from_ext ix ix' seen n fuel fuel' :
  (forall id, jget (byId ix) id = jget (byId ix') id) -> (forall id m, jget (byId ix) id = Some m -> n_id m = id) ->
  (length (List.filter (fun k => negb (bool_decide (k ∈ seen))) (keys (byId ix))) < fuel)%nat ->
  (length (List.filter (fun k => negb (bool_decide (k ∈ seen))) (keys (byId ix'))) < fuel')%nat ->
  ancestors_from fuel ix seen n = ancestors_from fuel' ix' seen n.
Proof.
  intros Hext Hid. revert seen n fuel'. induction fuel as [|fuel IH]; intros seen n fuel' Hf Hf'; [lia|].
  destruct fuel' as [|fuel']; [lia|]. cbn [ancestors_from]. destruct (n_parentId n) as [p|]; [|done].
  rewrite <- Hext. destruct (jget (byId ix) p) as [parent|] eqn:E; [|done]. pose proof (Hid p parent E) as <-.
  case_decide as Hseen; [done|]. f_equal.
  assert (forall ks, n_id parent ∈ ks ->
    (length (List.filter (fun k => negb (bool_decide (k ∈ n_id parent :: seen))) ks) <
     length (List.filter (fun k => negb (bool_decide (k ∈ seen))) ks))%nat) as Hdrop.
  { intros ks Hin. assert (forall k, negb (bool_decide (k ∈ n_id parent :: seen)) = true -> negb (bool_decide (k ∈ seen)) = true) as Himp.
    { intros k. rewrite !negb_true_iff, !bool_decide_eq_false. intros Hk Hk'. apply Hk. by right. }
    apply (filter_length_lt _ _ ks (n_id parent)); [done|done|by rewrite bool_decide_eq_true_2 by left|].
    by rewrite bool_decide_eq_false_2. }
  assert (n_id parent ∈ keys (byId ix) /\ n_id parent ∈ keys (byId ix')) as [Hk Hk'].
  { split; [by eapply jget_Some_keys|]. rewrite Hext in E. by eapply jget_Some_keys. }
  apply Hdrop in Hk, Hk'. apply IH; lia.
Qed.

Section Queries.
Context (unicode_lower : jstring -> jstring).

(** Indexes that agree on ids agree on everything above and about a node. *)
Lemma ancestors_ext ix ix' n :
  (forall id, jget (byId ix) id = jget (byId ix') id) -> (forall id m, jget (byId ix) id = Some m -> n_id m = id) ->
  ancestors ix n = ancestors ix' n.
Proof.
  intros Hext Hid. assert (forall l : list (jstring * SemanticNode), forall P, (length (List.filter P (keys l)) < S (length l))%nat) as Hl.
  { intros l P. pose proof (List.filter_length_le P (keys l)). unfold keys in *. rewrite length_fmap in *. lia. }
  by apply ancestors_from_ext.
Qed.

Lemma label_ext ix ix' n : (forall id, jget (byId ix) id = jget (byId ix') id) -> label ix n = label ix' n.
Proof.
  intros Hext. unfold label, node.
  assert (forall ids : list jstring, omap (fun id => n_name <$> jget (byId ix) id) ids = omap (fun id => n_name <$> jget (byId ix') id) ids) as Ho.
  { induction ids as [|i ids IH]; [done|]. cbn. by rewrite Hext, IH. }
  destruct (n_labelledBy n) as [[|i ids]|]; [done| |done]. by rewrite Ho.
Qed.

Lemma stepMatches_ext ix ix' n step :
  (forall id, jget (byId ix) id = jget (byId ix') id) -> stepMatches unicode_lower ix n step = stepMatches unicode_lower ix' n step.
Proof. intros Hext. unfold stepMatches. by rewrite (label_ext ix ix' n Hext). Qed.

(** The first ancestor that matches may always be taken. *)
Lemma climb_steps_spec ix pending chain :
  pending <> [] ->
  climb_steps unicode_lower ix pending chain = true <->
  exists chosen, chosen `sublist_of` chain /\ Forall2 (fun a step => stepMatches unicode_lower ix a step = true) chosen pending.
Proof.
  revert pending. induction chain as [|a chain IH]; intros pending Hne; cbn [climb_steps].
  - split; [done|]. intros (chosen & Hs & Hm). apply sublist_nil_r in Hs as ->. by apply Forall2_nil_inv_l in Hm.
  - destruct pending as [|step outer]; [done|]. destruct (stepMatches unicode_lower ix a step) eqn:E.
    + assert ((exists chosen, chosen `sublist_of` a :: chain /\ Forall2 (fun a step => stepMatches unicode_lower ix a step = true) chosen (step :: outer)) <->
        exists chosen, chosen `sublist_of` chain /\ Forall2 (fun a step => stepMatches unicode_lower ix a step = true) chosen outer) as ->.
      { split.
        - intros (chosen & Hs & Hm). apply Forall2_cons_inv_r in Hm as (b & chosen' & Hb & Hm & ->). exists chosen'. split; [|done].
          apply sublist_cons_r in Hs as [Hs|(l & [= <- <-] & Hs)]; [|done]. by eapply sublist_cons_l in Hs as (k1 & k2 & -> & Hs); apply sublist_inserts_l, sublist_cons.
        - intros (chosen & Hs & Hm). exists (a :: chosen). split; [by apply sublist_skip|by constructor]. }
      destruct outer as [|s outer]; [|by apply IH]. split; [|done]. intros _. exists []. split; [apply sublist_nil_l|constructor].
    + rewrite IH by done. split; intros (chosen & Hs & Hm); exists chosen; (split; [|done]).
      * by apply sublist_cons.
      * apply sublist_cons_r in Hs as [Hs|(l & -> & Hs)]; [done|]. apply Forall2_cons_inv_l in Hm as (? & ? & Hx & _ & [= <- <-]). congruence.
Qed.

(** What a chain of steps asks of a node: it is below the scope, it matches the
    last step, with an exact name letter by letter, and ancestors of it, from the
    inside out, match the steps around. *)
Definition selects (ix : SemanticIndex) (outer : list SemanticStep) (l : SemanticStep) (scopeId : option jstring)
    (n : SemanticNode) : Prop :=
  from_option (fun s => s ∈ n_id <$> ancestors ix n) True scopeId /\
  stepMatches unicode_lower ix n l = true /\
  from_option (fun t => n_name n = t) True (exact_name l) /\
  exists chosen, chosen `sublist_of` ancestors ix n /\
    Forall2 (fun a step => stepMatches unicode_lower ix a step = true) chosen (rev outer).

Lemma stepMatches_candidate ix n step :
  stepMatches unicode_lower ix n step = true ->
  (candidate step n = true <-> from_option (fun t => n_name n = t) True (exact_name step)).
Proof.
  unfold stepMatches, candidate, exact_name. rewrite !andb_true_iff. intros [[[[[[[-> ->] _] _] _] _] _] _]. cbn [andb].
  destruct (q_name step) as [[]|]; cbn; rewrite ?bool_decide_eq_true; tauto.
Qed.

Lemma ancestorsMatch_spec ix n outer :
  ancestorsMatch unicode_lower ix n outer = true <->
  exists chosen, chosen `sublist_of` ancestors ix n /\
    Forall2 (fun a step => stepMatches unicode_lower ix a step = true) chosen (rev outer).
Proof.
  unfold ancestorsMatch. destruct outer as [|s outer].
  - split; [|done]. intros _. exists []. split; [apply sublist_nil_l|constructor].
  - apply climb_steps_spec. cbn. by intros [_ [=]]%app_eq_nil.
Qed.

Lemma scope_spec ix n scopeId :
  unless scopeId (isDescendantOf ix n) = true <-> from_option (fun s => s ∈ n_id <$> ancestors ix n) True scopeId.
Proof.
  destruct scopeId as [s|]; [|done]. cbn. unfold isDescendantOf. rewrite existsb_exists, list_elem_of_fmap.
  split; intros (a & H1 & H2); exists a; [apply bool_decide_eq_true in H2; by rewrite list_elem_of_In|].
  rewrite <- list_elem_of_In. by rewrite bool_decide_eq_true.
Qed.

Lemma filter_sublist {A} (P : A -> bool) l : List.filter P l `sublist_of` l.
Proof. induction l as [|a l IH]; cbn; [done|]. destruct (P a); [by apply sublist_skip|by apply sublist_cons]. Qed.
End Queries.

(** C26 A semantic query selects exactly what it asks for: on an index that holds
    an accepted tree, the result is the nodes of the tree, in document order and
    each once, that lie below the scope, match the last step (an exact name
    letter by letter, through the index) and have ancestors matching the outer
    steps in nesting order; taking the nearest matching ancestor never misses
    one. *)
Theorem query_selects_exactly unicode_lower ix outer l scopeId :
  index_ok ix ->
  matchSemantic unicode_lower ix (outer ++ [l]) scopeId `sublist_of` s_nodes (snapshot ix) /\
  NoDup (s_nodes (snapshot ix)) /\
  forall n, n ∈ matchSemantic unicode_lower ix (outer ++ [l]) scopeId <->
    n ∈ s_nodes (snapshot ix) /\ selects unicode_lower ix outer l scopeId n.
Proof.
  intros H. unfold matchSemantic. rewrite last_snoc, removelast_last, (candidates_exact ix l H). split_and!.
  - etransitivity; [apply filter_sublist|apply filter_sublist].
  - eapply NoDup_fmap_1, H.
  - intros n. rewrite !list_elem_of_In, !filter_In, !andb_true_iff, <- list_elem_of_In, scope_spec, ancestorsMatch_spec. unfold selects.
    split.
    + intros [[Hn Hc] [[Hs Hm] Ha]]. by rewrite <- (stepMatches_candidate unicode_lower ix n l Hm).
    + intros (Hn & Hs & Hm & He & Ha). by rewrite (stepMatches_candidate unicode_lower ix n l Hm).
Qed.

(** ** A small tree *)

Definition make_node (id : jstring) (parent : option jstring) (role name : jstring) : SemanticNode :=
  {| n_id := id; n_parentId := parent; n_role := role; n_name := name; n_description := None; n_value := None;
     n_state := None; n_extended := None; n_actions := None; n_inputRecipes := None; n_labelledBy := None;
     n_describedBy := None; n_textRanges := None; n_testId := None; n_frameworkType := None; n_opaqueChildren := None;
     n_p := None; n_px := None;
     n_geometry := {| displayed := unsupported [] framework_unobservable; intendedRect := unsupported [] framework_unobservable;
                      visibleRect := unsupported [] framework_unobservable |};
     n_scroll := None; n_paintedRegion := None |}.
Definition bare_node (id : string) (parent : option string) (role name : string) : SemanticNode :=
  make_node (js id) (js <$> parent) (js role) (js name).
Definition bare_snapshot (revision : Z) (nodes : list SemanticNode) : SemanticSnapshot :=
  {| s_sessionId := js "s"; s_revision := revision; s_columns := 80; s_rows := 24; s_cursor := None; s_rootIds := [js "a"];
     s_nodes := nodes; s_coordinateSpace := unsupported [] framework_unobservable;
     s_hitGrid := unsupported [] framework_unobservable; s_providerEvidence := None |}.

Definition app_nodes : list SemanticNode :=
  [bare_node "a" None "application" "App"; bare_node "d" (Some "a"%string) "dialog" "Confirm";
   bare_node "r" (Some "d"%string) "region" ""; bare_node "b" (Some "r"%string) "button" "Save";
   bare_node "c" (Some "a"%string) "button" "Save"].

(** [dialog >> button] with the exact name [Save]: the button inside the dialog. *)
Lemma query_selects_exactly_witness :
  let ix := newIndex (bare_snapshot 1 app_nodes) in
  let l := {| q_role := Some (js "button"); q_testId := None; q_classes := []; q_name := Some (exact (js "Save"));
              q_text := None; q_label := None; q_frameworkType := None; q_state := [] |} in
  let outer := roleQuery (js "dialog") None [] None in
  n_id <$> matchSemantic id ix (outer ++ [l]) None = [js "b"] /\
  forall n, n ∈ matchSemantic id ix (outer ++ [l]) None <-> n ∈ app_nodes /\ selects id ix outer l None n.
Proof.
  intros ix l outer. split; [by vm_compute|].
  apply (query_selects_exactly id ix outer l None). apply newIndex_ok. apply (bool_decide_eq_true_1 _). by vm_compute.
Defined.

(** An exact name is looked up as it is, so a query that the text comparison
    would accept after trimming finds nothing, while the same text as an
    expression of the label does. *)
Example exact_name_is_not_trimmed :
  let ix := newIndex (bare_snapshot 1 [bare_node "b" None "button" "Save "]) in
  matchesText id (Some (js "Save ")) (exact (js "Save")) = true /\
  matchSemantic id ix (roleQuery (js "button") (Some (exact (js "Save"))) [] None) None = [] /\
  n_id <$> matchSemantic id ix (labelQuery (exact (js "Save"))) None = [js "b"].
Proof. by vm_compute. Qed.
