(* ===== verification/IndexTheorems.v ===== *)
(** * The index over published deltas

    The three components a tree goes through: a delta is staged on the committed
    tree, the pairing publishes the revision, and the session's index is updated
    with the changed nodes.  When every staged revision is published, the index
    answers as one built from the latest tree; when the pairing gives up a
    revision, its changes never reach the index. *)

From S2P Require Import Prelude JsText Dto Limits JsObject JsSearch Tree Validate SemanticDelta DeltaTheorems.
From S2P Require Import Pairing PairingTheorems Selectors Matching MatchingTheorems.

Local Open Scope Z_scope.

(** ** Deltas describe their changes *)

Section Read.
(** What the schema makes of a node object, element by element. *)
Context (read : members -> SemanticNode).

(** [nodes] is the typed view of the objects, which carry the ids they are kept
    under. *)
Definition views (objects : list (jstring * members)) (nodes : list SemanticNode) : Prop :=
  nodes = (fun kv => read kv.2) <$> objects /\ forall k m, (k, m) ∈ objects -> n_id (read m) = k.

(** [changedNodes] of an applied delta. *)
Definition changes_of (ids : list jstring) (nodes : list SemanticNode) : Changes := (fun i => (i, find_node nodes i)) <$> ids.

Lemma views_ids objects nodes : views objects nodes -> n_id <$> nodes = keys objects.
Proof.
  intros [-> H]. unfold keys. rewrite <- list_fmap_compose. apply list_fmap_ext. intros i [k m] Hi.
  apply H. by eapply list_elem_of_lookup_2.
Qed.

Lemma views_find objects nodes id : views objects nodes -> find_node nodes id = read <$> jget objects id.
Proof.
  intros [-> H]. unfold find_node. induction objects as [|[k m] objects IH]; [done|]. cbn [fmap list_fmap List.find jget snd].
  rewrite (H k m) by left. destruct (decide (k = id)) as [->|Hne]; [by rewrite bool_decide_eq_true_2|].
  rewrite bool_decide_eq_false_2 by done. apply IH. intros k' m' Hin. apply H. by right.
Qed.

Lemma remove_nodes_known ids s s' : remove_nodes ids s = Ok s' -> forall i, i ∈ ids -> i ∈ keys s.
Proof.
  revert s. induction ids as [|j ids IH]; intros s H i Hi; [by apply not_elem_of_nil in Hi|]. cbn [remove_nodes] in H.
  destruct (jhas s j) eqn:E; [|done]. apply elem_of_cons in Hi as [->|Hi]; [by apply jhas_keys|].
  apply (IH _ H) in Hi. rewrite keys_jdelete in Hi. by apply list_elem_of_In, filter_In in Hi as [?%list_elem_of_In _].
Qed.

(** Ids come or go unless the delta only updates nodes, which keep their places. *)
Lemma staged_order c delta limits g :
  stageDelta c delta limits = Ok g ->
  (forall id, id ∈ keys (c_nodes c) <-> id ∈ keys (g_nodes g)) -> keys (g_nodes g) = keys (c_nodes c).
Proof.
  intros H Hsame. apply stageDelta_inv in H as [p []].
  destruct (remove_nodes_Ok _ _ _ sb_remove) as [Ekept Hrem]. pose proof (remove_nodes_known _ _ _ sb_remove) as Hknown.
  destruct (add_nodes_Ok _ _ _ sb_add) as (Hkeys & Hfresh & _ & Hadd).
  apply NoDup_app in sb_distinct as (_ & HdA & HndU). apply NoDup_app in HndU as (HndU & HdU & _).
  destruct (update_nodes_Ok _ _ _ sb_apply HndU) as (Hk & _ & _).
  assert (p_removes p = []) as Er.
  { destruct (p_removes p) as [|r rs] eqn:E; [done|]. exfalso. assert (r ∈ p_removes p) as Hr by (rewrite E; left).
    rewrite <- E in *. specialize (Hknown r Hr). rewrite Hsame, Hk, Hkeys in Hknown. apply elem_of_app in Hknown as [Hin|Hin].
    - assert (jget (p_kept p) r = None) as Hnone by (by rewrite Hrem, decide_True). by apply jget_None in Hnone.
    - apply (HdA r Hin). apply elem_of_app. by right. }
  assert (p_kept p = c_nodes c) as Ek by (rewrite Ekept, Er; done).
  destruct (p_adds p) as [|[a m] l] eqn:E.
  { cbn in Hkeys. rewrite app_nil_r in Hkeys. by rewrite Hk, Hkeys, Ek. }
  exfalso. assert (a ∈ keys (p_adds p)) as Ha by (rewrite E; left). rewrite <- E in *.
  apply (Hfresh a Ha). rewrite Ek. apply Hsame. rewrite Hk, Hkeys. apply elem_of_app. by right.
Qed.

Lemma delta_describes c delta limits g old new :
  stageDelta c delta limits = Ok g -> NoDup (keys (g_nodes g)) -> views (c_nodes c) old -> views (g_nodes g) new ->
  describes old new (changes_of (g_changed g) new).
Proof.
  intros H Hnd Ho Hn. pose proof (staged_order _ _ _ _ H) as Hord. apply delta_touches in H as (Hch & Hrest).
  assert (keys (changes_of (g_changed g) new) = g_changed g) as Hkeys.
  { unfold keys, changes_of. rewrite <- list_fmap_compose. apply list_fmap_id. }
  split.
  - by rewrite Hkeys.
  - by rewrite (views_ids _ _ Hn).
  - intros id next Hin. apply list_elem_of_fmap in Hin as (i & [= -> ->] & _). done.
  - intros id Hid. rewrite Hkeys in Hid. by rewrite (views_find _ _ _ Ho), (views_find _ _ _ Hn), Hrest.
  - rewrite (views_ids _ _ Ho), (views_ids _ _ Hn). apply Hord.
Qed.
End Read.

(** ** Publishing every revision *)

Section Publish.
Context (read : members -> SemanticNode).

(** The index of a session that publishes a snapshot and then every delta staged
    on the one before. *)
Inductive follows : list (jstring * members) -> SemanticIndex -> Prop :=
| follows_snapshot objects s :
    NoDup (keys objects) -> views read objects (s_nodes s) -> follows objects (publish_index None s None)
| follows_delta c ix delta limits g s :
    follows (c_nodes c) ix -> stageDelta c delta limits = Ok g -> views read (g_nodes g) (s_nodes s) ->
    follows (g_nodes g) (publish_index (Some ix) s (Some (changes_of (g_changed g) (s_nodes s)))).

Lemma staged_NoDup c delta limits g : stageDelta c delta limits = Ok g -> NoDup (keys (c_nodes c)) -> NoDup (keys (g_nodes g)).
Proof.
  intros H Hnd. apply stageDelta_inv in H as [p []]. destruct (remove_nodes_Ok _ _ _ sb_remove) as [Ekept _].
  destruct (add_nodes_Ok _ _ _ sb_add) as (Hkeys & Hfresh & HndA & _).
  apply NoDup_app in sb_distinct as (_ & _ & HndU). apply NoDup_app in HndU as (HndU & _ & _).
  destruct (update_nodes_Ok _ _ _ sb_apply HndU) as (-> & _ & _). rewrite Hkeys. apply NoDup_app. split_and!; [|naive_solver|done].
  rewrite Ekept. by apply NoDup_deletes.
Qed.

Lemma follows_ok objects ix :
  follows objects ix -> NoDup (keys objects) /\ views read objects (s_nodes (snapshot ix)) /\ index_ok ix.
Proof.
  induction 1 as [objects s Hnd Hv|c ix delta limits g s H (Hnd & Hv & Hok) Hs Hv'].
  - split; [done|]. cbn [publish_index]. split; [by unfold newIndex; cbn; rewrite fold_add_snapshot|].
    apply newIndex_ok. by rewrite (views_ids _ _ _ Hv).
  - pose proof (staged_NoDup _ _ _ _ Hs Hnd) as Hnd'. cbn [publish_index]. split; [done|]. split.
    + unfold update. destruct (apply_changes _ _ _) as [ix' []]; done.
    + apply update_ok; [done|]. by eapply delta_describes.
Qed.

(** Two indexes over the same tree answer alike. *)
Lemma indexes_agree unicode_lower ix ix' steps scopeId :
  index_ok ix -> index_ok ix' -> snapshot ix = snapshot ix' ->
  matchSemantic unicode_lower ix steps scopeId = matchSemantic unicode_lower ix' steps scopeId.
Proof.
  intros H H' E. assert (forall id, jget (byId ix) id = jget (byId ix') id) as Hext.
  { intros id. by rewrite (ok_byId _ _ (ok_maps _ H)), (ok_byId _ _ (ok_maps _ H')), E. }
  assert (forall id m, jget (byId ix) id = Some m -> n_id m = id) as Hid.
  { intros id m. rewrite (ok_byId _ _ (ok_maps _ H)). apply (ok_ids _ _ (ok_maps _ H)). }
  unfold matchSemantic. destruct (last steps) as [l|]; [|done]. rewrite !candidates_exact by done. rewrite E.
  apply List.filter_ext. intros n. rewrite (stepMatches_ext unicode_lower ix ix' n l Hext). f_equal; [f_equal|].
  - destruct scopeId; [|done]. cbn [unless]. unfold isDescendantOf. by rewrite (ancestors_ext ix ix' n Hext Hid).
  - unfold ancestorsMatch. rewrite (ancestors_ext ix ix' n Hext Hid). destruct (removelast steps) as [|s steps']; [done|].
    generalize (ancestors ix' n), (rev (s :: steps')). induction l0 as [|a chain IH]; intros pending; cbn; [done|].
    destruct pending as [|st outer]; [done|]. rewrite (stepMatches_ext unicode_lower ix ix' a st Hext), !IH. done.
Qed.

Definition same_answers (unicode_lower : jstring -> jstring) (ix ix' : SemanticIndex) : Prop :=
  (forall steps scopeId, matchSemantic unicode_lower ix steps scopeId = matchSemantic unicode_lower ix' steps scopeId) /\
  (forall id, node ix id = node ix' id) /\ forall n, label ix n = label ix' n.

(** C24 The index of a session that published a tree and then every delta staged
    on it answers every query, looks up every id and computes every label as an
    index built afresh from the latest tree does, whatever nodes the deltas
    added, removed, moved or renamed. *)
Theorem incremental_index_exact unicode_lower objects ix :
  follows objects ix -> same_answers unicode_lower ix (newIndex (snapshot ix)).
Proof.
  intros H. apply follows_ok in H as (_ & _ & Hok). pose proof Hok as [Hd Hm _].
  assert (index_ok (newIndex (snapshot ix))) as Hok' by by apply newIndex_ok.
  assert (snapshot ix = snapshot (newIndex (snapshot ix))) as E by (unfold newIndex; cbn; by rewrite fold_add_snapshot).
  assert (forall id, jget (byId ix) id = jget (byId (newIndex (snapshot ix))) id) as Hext.
  { intros id. rewrite (ok_byId _ _ Hm), (ok_byId _ _ (ok_maps _ Hok')). by rewrite <- E. }
  split; [intros; by apply indexes_agree|]. split; [done|]. intros n. by apply label_ext.
Qed.
End Publish.

(** ** A session *)

Definition text_of (m : members) (k : string) : jstring := match jget m (js k) with Some (JStr s) => s | _ => [] end.
(** The members the example's nodes have. *)
Definition read_bare (m : members) : SemanticNode :=
  make_node (text_of m "id") (match jget m (js "parentId") with Some (JStr p) => Some p | _ => None end)
    (text_of m "role") (text_of m "name").
Definition object_of (id : string) (parent : option string) (role name : string) : jstring * members :=
  (js id, [(js "id", JStr (js id))] ++ match parent with Some p => [(js "parentId", JStr (js p))] | None => [] end ++
          [(js "role", JStr (js role)); (js "name", JStr (js name))]).

Definition tree_1 : Committed :=
  {| c_sessionId := js "s"; c_revision := 1; c_fields := [];
     c_nodes := [object_of "a" None "application" "App"; object_of "b" (Some "a"%string) "button" "Save";
                 object_of "c" (Some "a"%string) "button" "Quit"] |}.
Definition renaming (base : Z) (id name : string) : members :=
  [(js "v", JNum (int 3)); (js "sessionId", JStr (js "s")); (js "revision", JNum (int (base + 1)));
   (js "baseRevision", JNum (int base));
   (js "updateNodes", JArr [JObj [(js "id", JStr (js id)); (js "set", JObj [(js "name", JStr (js name))])]])].
Definition view (objects : list (jstring * members)) (revision : Z) : SemanticSnapshot :=
  bare_snapshot revision ((fun kv => read_bare kv.2) <$> objects).

(** The tree after renaming [b], and after also renaming [c]. *)
Definition commit (revision : Z) (objects : list (jstring * members)) : Committed :=
  {| c_sessionId := js "s"; c_revision := revision; c_fields := []; c_nodes := objects |}.
Definition staged (c : Committed) (delta : members) : Staged :=
  match stageDelta c delta DEFAULT_LIMITS with Ok g => g | Err _ => {| g_members := []; g_nodes := []; g_changed := [] |} end.
Definition stage_2 : Staged := staged tree_1 (renaming 1 "b" "Store").
Definition stage_3 : Staged := staged (commit 2 (g_nodes stage_2)) (renaming 2 "c" "Leave").

Lemma incremental_index_exact_witness :
  let ix1 := publish_index None (view (c_nodes tree_1) 1) None in
  let ix2 := publish_index (Some ix1) (view (g_nodes stage_2) 2) (Some (changes_of (g_changed stage_2) (s_nodes (view (g_nodes stage_2) 2)))) in
  n_id <$> matchSemantic id ix2 (roleQuery (js "button") (Some (exact (js "Store"))) [] None) None = [js "b"] /\
  same_answers id ix2 (newIndex (view (g_nodes stage_2) 2)).
Proof.
  intros ix1 ix2. split; [by vm_compute|]. apply (incremental_index_exact read_bare id (g_nodes stage_2)).
  apply (follows_delta read_bare tree_1 ix1 (renaming 1 "b" "Store") DEFAULT_LIMITS stage_2).
  - apply follows_snapshot; [apply (bool_decide_eq_true_1 _); by vm_compute|]. split; [done|].
    intros k m Hin. repeat (apply elem_of_cons in Hin as [[= -> ->]|Hin]; [by vm_compute|]). by apply not_elem_of_nil in Hin.
  - by vm_compute.
  - split; [done|]. intros k m Hin. vm_compute in Hin.
    repeat (apply elem_of_cons in Hin as [[= -> ->]|Hin]; [by vm_compute|]). by apply not_elem_of_nil in Hin.
Defined.

(** When the marker of revision 2 never arrives, the pairing supersedes it and
    publishes revision 3 with the changes since revision 2: the index still
    finds [b] under the name it no longer has. *)
Example superseded_delta_lost :
  let s1 := view (c_nodes tree_1) 1 in
  let s2 := view (g_nodes stage_2) 2 in
  let s3 := view (g_nodes stage_3) 3 in
  let changes2 := changes_of (g_changed stage_2) (s_nodes s2) in
  let changes3 := changes_of (g_changed stage_3) (s_nodes s3) in
  log (run 3 [SetMarkerEnabled true; OfferSnapshot s1 None; OfferMarker 1 1; OfferSnapshot s2 (Some changes2);
              OfferSnapshot s3 (Some changes3); OfferMarker 3 2]) =
    [Publish {| pr_snapshot := s1; pr_changedNodes := None; pr_screenRevision := Some 1 |};
     Diagnostic revision_superseded 2;
     Publish {| pr_snapshot := s3; pr_changedNodes := Some changes3; pr_screenRevision := Some 2 |}] /\
  let ix := publish_index (Some (publish_index None s1 None)) s3 (Some changes3) in
  let query name := roleQuery (js "button") (Some (exact (js name))) [] None in
  n_name <$> s_nodes (snapshot ix) = [js "App"; js "Store"; js "Leave"] /\
  n_id <$> matchSemantic id ix (query "Store"%string) None = [] /\
  n_id <$> matchSemantic id ix (query "Save"%string) None = [js "b"].
Proof. by vm_compute. Qed.
