(* ===== verification/GridMatch.v ===== *)
(** * The grid locator engine (packages/driver/src/matching.ts)

    Text queries against the captured cells of the screen: a row becomes text
    with the column of each unit, matches in it become rectangles. *)

From S2P Require Import Prelude JsText Dto JsObject JsSearch Keys Tree Selectors.

Local Open Scope Z_scope.

(** ** Cells *)

Inductive CellColor : Set := color_default | palette (index : Z) | rgb (r g b : Z).
Global Instance CellColor_eq_dec : EqDecision CellColor.
Proof. solve_decision. Defined.

Record CellSnapshot : Type := {
  cell_char : jstring;
  cell_width : Z;
  cell_fg : CellColor;
  cell_bg : CellColor;
  cell_attributes : CellAttributes;
}.

Record CapturedRow : Type := { cells : list CellSnapshot; captured_text : jstring }.

(** The text of a row and the column of the cell each unit comes from. *)
Fixpoint row_text_from (column : Z) (cs : list CellSnapshot) : jstring * list Z :=
  match cs with
  | [] => ([], [])
  | cell :: cs =>
      let '(text, columns) := row_text_from (column + 1) cs in
      if cell_width cell =? 0 then (text, columns)
      else
        let chars := match cell_char cell with [] => [32] | chars => chars end in
        (chars ++ text, (const column <$> chars) ++ columns)
  end.
Definition rowText (row : CapturedRow) : jstring * list Z := row_text_from 0 (cells row).

(** ** Styles *)

Definition NAMED_COLORS : list (jstring * Z) :=
  table [("black"%string, 0); ("red"%string, 1); ("green"%string, 2); ("yellow"%string, 3); ("blue"%string, 4);
         ("magenta"%string, 5); ("cyan"%string, 6); ("white"%string, 7); ("brightblack"%string, 8);
         ("brightred"%string, 9); ("brightgreen"%string, 10); ("brightyellow"%string, 11); ("brightblue"%string, 12);
         ("brightmagenta"%string, 13); ("brightcyan"%string, 14); ("brightwhite"%string, 15)].

Definition hex_value (c : Z) : option Z :=
  if between 48 c 57 then Some (c - 48) else if between 97 c 102 then Some (c - 87)
  else if between 65 c 70 then Some (c - 55) else None.

Fixpoint hex_digits (acc : option Z) (s : jstring) : option Z :=
  match s with
  | c :: t => match hex_value c with Some d => hex_digits (Some (default 0 acc * 16 + d)) t | None => acc end
  | [] => acc
  end.

(** [Number.parseInt(s, 16)], [None] when it is not a number: leading white
    space, a sign and [0x] are passed over, and what follows the digits is not
    read. *)
Definition parseInt16 (s : jstring) : option Z :=
  let s := trim_start s in
  let '(sign, s) := match s with 45 :: t => (-1, t) | 43 :: t => (1, t) | _ => (1, s) end in
  let s := match s with 48 :: 120 :: t | 48 :: 88 :: t => t | _ => s end in
  Z.mul sign <$> hex_digits None s.

Section Grid.
Context (unicode_lower : jstring -> jstring).

Definition colorMatches (color : CellColor) (spec : jstring) : bool :=
  let normalized := toLowerCase unicode_lower (trim spec) in
  if decide (normalized = js "default") then bool_decide (color = color_default)
  else match normalized with
  | 35 :: hex =>
      match color with
      | rgb r g b =>
          if negb (Nat.eqb (length hex) 6) then false
          else match parseInt16 hex with
               | None => false
               | Some value =>
                   (r =? Z.land (Z.shiftr value 16) 255) && (g =? Z.land (Z.shiftr value 8) 255) && (b =? Z.land value 255)
               end
      | _ => false
      end
  | _ =>
      let index :=
        match table_get NAMED_COLORS normalized with
        | Some (Own i) => Some i
        | Some (Inherited _) => None
        | None =>
            match normalized with
            | [] => None
            | _ => if forallb is_digit normalized then round_double (parse_decimal normalized) else None
            end
        end in
      match index with Some i => bool_decide (color = palette i) | None => false end
  end.

Definition attribute_members (a : CellAttributes) : list (jstring * bool) :=
  table [("bold"%string, bold a); ("dim"%string, dim a); ("italic"%string, italic a); ("underline"%string, underline a);
         ("inverse"%string, inverse a); ("strikethrough"%string, strikethrough a)].

Definition attributesMatch (cell : CellSnapshot) (expected : list (jstring * option bool)) : bool :=
  forallb (fun kv => match kv.2 with
                     | None => true
                     | Some want => bool_decide (jget (attribute_members (cell_attributes cell)) kv.1 = Some want)
                     end) expected.

Definition styleMatches (cs : list CellSnapshot) (style : StylePredicates) : bool :=
  forallb (fun cell =>
    match style_fg style with Some fg => colorMatches (cell_fg cell) fg | None => true end &&
    match style_bg style with Some bg => colorMatches (cell_bg cell) bg | None => true end &&
    match style_attributes style with Some a => attributesMatch cell a | None => true end) cs.

(** ** Matches in a row *)

(** The loop over [exec]: [None] when the fuel runs out.  [exec] answers nothing
    past the end of the text, and leaves [lastIndex] at the end of the match. *)
Fixpoint regex_ranges (fuel : nat) (r : RegExp) (text : jstring) (lastIndex : nat) : option (list (nat * nat)) :=
  match fuel with
  | O => None
  | S fuel =>
      match (if (length text <? lastIndex)%nat then None else exec r text lastIndex) with
      | None => Some []
      | Some (index, 0%nat) => regex_ranges fuel r text (index + 1)
      | Some (index, len) => cons (index, (index + len)%nat) <$> regex_ranges fuel r text (index + len)
      end
  end.

(** The loop over [indexOf]; every turn passes over the needle. *)
Fixpoint text_ranges (fuel : nat) (needle haystack : jstring) (from : nat) : list (nat * nat) :=
  match fuel with
  | O => []
  | S fuel =>
      match index_of needle (drop from haystack) with
      | None => []
      | Some i => let at_ := (from + i)%nat in
          (at_, (at_ + length needle)%nat) :: text_ranges fuel needle haystack (at_ + length needle)
      end
  end.

Definition literal_ranges (needle haystack : jstring) : list (nat * nat) :=
  match needle with [] => [] | _ => text_ranges (S (length haystack)) needle haystack 0 end.

Definition findRanges (text : jstring) (matcher : TextMatcher) : option (list (nat * nat)) :=
  match matcher with
  | regex r => regex_ranges (length text + 2) r text 0
  | exact needle => Some (literal_ranges needle text)
  | substring needle => Some (literal_ranges (toLowerCase unicode_lower needle) (toLowerCase unicode_lower text))
  end.

(** ** Rectangles *)

Definition range_rect (index : Z) (row : CapturedRow) (columns : list Z) (query : GenericQuery) (scope : option Rect)
    (range : nat * nat) : option Rect :=
  match columns !! range.1, columns !! (range.2 - 1)%nat with
  | Some startColumn, Some endColumnCell =>
      let wide := match cells row !! Z.to_nat endColumnCell with Some c => cell_width c =? 2 | None => false end in
      let w := endColumnCell + (if wide then 2 else 1) - startColumn in
      if match scope with
         | Some s => (startColumn <? column s) || (column s + width s <? startColumn + w)
         | None => false
         end then None
      else if match g_style query with
              | Some style => negb (styleMatches (take (Z.to_nat w) (drop (Z.to_nat startColumn) (cells row))) style)
              | None => false
              end then None
      else Some {| Tree.row := index; column := startColumn; width := w; height := 1 |}
  | _, _ => None
  end.

Definition row_rects (index : Z) (row : CapturedRow) (query : GenericQuery) (scope : option Rect) : option (list Rect) :=
  let '(text, columns) := rowText row in
  (fun ranges : list (nat * nat) => omap (range_rect index row columns query scope) ranges) <$> findRanges text (g_text query).

(** The loop over the rows of the scope; [index] is the index of the first. *)
Fixpoint grid_rects (index : Z) (rows : list CapturedRow) (query : GenericQuery) (scope : option Rect) : option (list Rect) :=
  match rows with
  | [] => Some []
  | r :: rows =>
      let inside := match scope with Some s => (row s <=? index) && (index <? row s + height s) | None => true end in
      here ← (if inside then row_rects index r query scope else Some []);
      below ← grid_rects (index + 1) rows query scope;
      Some (here ++ below)
  end.

Definition matchGrid (rows : list CapturedRow) (query : GenericQuery) (scope : option Rect) : option (list Rect) :=
  out ← grid_rects 0 rows query scope;
  match g_occurrence query with
  | None => Some out
  | Some n => Some (if n <? 1 then [] else option_list (out !! Z.to_nat (n - 1)))
  end.
End Grid.

(** The units of a row whose cell lies in the columns of a rectangle. *)
Fixpoint units_in (rect : Rect) (text : jstring) (columns : list Z) : jstring :=
  match text, columns with
  | c :: text, col :: columns =>
      if (column rect <=? col) && (col <? column rect + width rect) then c :: units_in rect text columns
      else units_in rect text columns
  | _, _ => []
  end.

(** [lines.join('\n')] *)
Fixpoint join_lines (lines : list jstring) : jstring :=
  match lines with
  | [] => []
  | [l] => l
  | l :: lines => l ++ 10 :: join_lines lines
  end.

(** Rows outside the screen are passed over. *)
Definition textInRect (rows : list CapturedRow) (rect : Rect) : jstring :=
  join_lines (omap (fun i : nat =>
    let index := row rect + Z.of_nat i in
    r ← (if index <? 0 then None else rows !! Z.to_nat index);
    let '(text, columns) := rowText r in Some (units_in rect text columns)) (seq 0 (Z.to_nat (height rect)))).
