(* ===== verification/GridTheorems.v ===== *)
(** * Grid queries find the text on the screen

    A text query reports every occurrence in reading order, as a rectangle whose
    text contains it; a scoped query stays inside its scope; the search ends for
    every expression that only moves forward. *)

From stdpp Require Import sorting.
From S2P Require Import Prelude JsText Dto JsObject JsSearch Keys Tree Selectors GridMatch.

Local Open Scope Z_scope.

(** ** Rows *)

Lemma row_text_columns col cs :
  length (row_text_from col cs).2 = length (row_text_from col cs).1 /\
  Forall (fun c => col <= c < col + Z.of_nat (length cs)) (row_text_from col cs).2 /\
  StronglySorted Z.le (row_text_from col cs).2.
Proof.
  revert col. induction cs as [|cell cs IH]; intros col; cbn [row_text_from]; [repeat constructor|].
  specialize (IH (col + 1)). destruct (row_text_from (col + 1) cs) as [text columns]. cbn [fst snd] in IH |- *.
  destruct IH as (Hl & Hf & Hs). cbn [length].
  assert (Forall (fun c => col <= c < col + Z.of_nat (S (length cs))) columns) as Hf'.
  { eapply Forall_impl; [exact Hf|]. cbn. intros c ?. lia. }
  destruct (cell_width cell =? 0); cbn [fst snd]; [done|].
  set (chars := match cell_char cell with [] => [32] | _ => _ end). rewrite !length_app, length_fmap. split; [lia|].
  assert (Forall (fun c => c = col) (const col <$> chars)) as Hc.
  { rewrite Forall_fmap. apply Forall_true. done. }
  split.
  - apply Forall_app. split; [|done]. eapply Forall_impl; [exact Hc|]. cbn. intros c ->. lia.
  - induction Hc as [|c l -> Hc IHc]; cbn [app]; [done|]. constructor; [done|]. apply Forall_app. split.
    + eapply Forall_impl; [exact Hc|]. cbn. lia.
    + eapply Forall_impl; [exact Hf|]. cbn. lia.
Qed.

Lemma sorted_lookup l i j (a b : Z) :
  StronglySorted Z.le l -> l !! i = Some a -> l !! j = Some b -> (i <= j)%nat -> a <= b.
Proof.
  intros Hs. revert i j. induction Hs as [|c l Hs IH Hc]; intros i j Ha Hb Hij; [done|].
  destruct i as [|i], j as [|j]; cbn in Ha, Hb; [| |lia|].
  - injection Ha as <-. injection Hb as <-. done.
  - injection Ha as <-. rewrite Forall_forall in Hc. apply Hc. by eapply list_elem_of_lookup_2.
  - apply (IH i j Ha Hb). lia.
Qed.

(** ** Ranges *)

Lemma text_ranges_sound fuel needle hay from s e :
  needle <> [] -> (s, e) ∈ text_ranges fuel needle hay from ->
  (from <= s)%nat /\ e = (s + length needle)%nat /\ (e <= length hay)%nat /\ take (length needle) (drop s hay) = needle.
Proof.
  intros Hne. revert from. induction fuel as [|fuel IH]; intros from H; cbn [text_ranges] in H; [by apply not_elem_of_nil in H|].
  destruct (index_of needle (drop from hay)) as [i|] eqn:E; [|by apply not_elem_of_nil in H].
  apply index_of_Some in E as ([t Ht] & Hl & _). rewrite length_drop in Hl.
  assert (0 < length needle)%nat as Hpos by (destruct needle; [done|cbn; lia]).
  apply elem_of_cons in H as [[= -> ->]|H].
  - split; [lia|]. split; [lia|]. split; [lia|]. rewrite <- drop_drop, Ht, drop_app_length'; [by apply take_app_length|].
    rewrite length_take, length_drop. lia.
  - apply IH in H as (? & ? & ? & ?). split; [lia|done].
Qed.

Lemma text_ranges_complete fuel needle hay from j :
  needle <> [] -> (length hay < from + fuel)%nat -> (from <= j)%nat -> starts_with needle (drop j hay) = true ->
  exists s e, (s, e) ∈ text_ranges fuel needle hay from /\ (s <= j < e)%nat.
Proof.
  intros Hne. revert from. induction fuel as [|fuel IH]; intros from Hf Hj Hs.
  - exfalso. apply starts_with_spec in Hs as [t Ht]. rewrite drop_ge in Ht by lia. by destruct needle.
  - cbn [text_ranges]. assert (0 < length needle)%nat as Hpos by (destruct needle; [done|cbn; lia]).
    assert (drop j hay = drop (j - from) (drop from hay)) as Hd by (rewrite drop_drop; f_equal; lia).
    destruct (index_of needle (drop from hay)) as [i|] eqn:E.
    + apply index_of_Some in E as (_ & _ & Hb).
      assert (from + i <= j)%nat as Hij.
      { destruct (decide (from + i <= j)%nat) as [?|Hlt]; [done|]. rewrite Hd, Hb in Hs by lia. done. }
      destruct (decide (j < from + i + length needle)%nat) as [Hlt|Hge].
      * exists (from + i)%nat, (from + i + length needle)%nat. split; [left|lia].
      * destruct (IH (from + i + length needle)%nat) as (s & e & Hin & Hse); [lia..|done|]. exists s, e. split; [by right|done].
    + rewrite Hd, (index_of_None _ _ E) in Hs. done.
Qed.

Lemma text_ranges_sorted fuel needle hay from :
  needle <> [] -> StronglySorted (fun a b : nat * nat => (a.1 <= b.1)%nat) (text_ranges fuel needle hay from).
Proof.
  intros Hne. revert from. induction fuel as [|fuel IH]; intros from; cbn [text_ranges]; [constructor|].
  destruct (index_of _ _) as [i|]; [|constructor]. constructor; [apply IH|]. rewrite Forall_forall. intros [s e] Hin.
  apply text_ranges_sound in Hin as [? _]; [|done]. cbn. lia.
Qed.

Lemma units_prefix rect text columns needle :
  length columns = length text -> take (length needle) text = needle ->
  (forall i c, (i < length needle)%nat -> columns !! i = Some c -> column rect <= c < column rect + width rect) ->
  exists after, units_in rect text columns = needle ++ after.
Proof.
  revert text columns. induction needle as [|n needle IH]; intros text columns Hl Hn Hc; [by exists (units_in rect text columns)|].
  destruct text as [|c text]; [done|]. destruct columns as [|col columns]; [done|]. cbn in Hl, Hn. injection Hl as Hl. injection Hn as -> Hn.
  destruct (Hc 0%nat col ltac:(cbn; lia) eq_refl) as [H1 H2]. cbn [units_in].
  rewrite (proj2 (Z.leb_le _ _) H1), (proj2 (Z.ltb_lt _ _) H2). cbn [andb].
  destruct (IH text columns Hl Hn) as [after ->]; [|by exists after].
  intros i c' Hi Hc'. apply (Hc (S i) c'); [cbn; lia|done].
Qed.

(** The units between two positions lie in the columns between theirs. *)
Lemma units_in_segment rect text columns s needle :
  length columns = length text -> take (length needle) (drop s text) = needle ->
  (forall i c, (s <= i < s + length needle)%nat -> columns !! i = Some c -> column rect <= c < column rect + width rect) ->
  exists before after, units_in rect text columns = before ++ needle ++ after.
Proof.
  revert columns s needle. induction text as [|c text IH]; intros columns s needle Hl Hn Hc.
  - rewrite drop_nil, take_nil in Hn. subst needle. by exists [], [].
  - destruct columns as [|col columns]; [done|]. cbn in Hl. injection Hl as Hl. cbn [units_in].
    destruct s as [|s].
    + destruct (units_prefix rect (c :: text) (col :: columns) needle) as [after Ha]; [by cbn; rewrite Hl|done| |].
      { intros i c' Hi. apply Hc. lia. }
      exists [], after. exact Ha.
    + destruct (IH columns s needle Hl Hn) as (before & after & ->).
      { intros i c' Hi Hc'. apply (Hc (S i) c'); [lia|done]. }
      destruct (_ && _); [by exists (c :: before), after|by exists before, after].
Qed.

(** ** Literal queries *)

Definition literal (needle : jstring) : GenericQuery := {| g_text := exact needle; g_occurrence := None; g_style := None |}.

Definition reading_order (a b : Rect) : Prop := row a < row b \/ (row a = row b /\ column a <= column b).

(** The rectangles of one row. *)
Definition rects_of_row (index : Z) (r : CapturedRow) (needle : jstring) : list Rect :=
  omap (range_rect id index r (rowText r).2 (literal needle) None) (literal_ranges needle (rowText r).1).

Section Literal.
Context (unicode_lower : jstring -> jstring) (needle : jstring) (nonempty : needle <> []).

Lemma grid_rects_literal index rows :
  grid_rects unicode_lower index rows (literal needle) None =
    Some (mjoin (imap (fun i r => rects_of_row (index + Z.of_nat i) r needle) rows)).
Proof.
  revert index. induction rows as [|r rows IH]; intros index; [done|]. cbn [grid_rects].
  assert (row_rects unicode_lower index r (literal needle) None = Some (rects_of_row index r needle)) as ->.
  { unfold row_rects, rects_of_row. destruct (rowText r) as [text columns]. done. }
  cbn [mbind option_bind]. rewrite IH. cbn [mbind option_bind imap]. f_equal.
  change (mjoin (?x :: ?l)) with (x ++ mjoin l). rewrite Z.add_0_r. f_equal. f_equal.
  apply imap_ext. intros i x _. cbn. f_equal. lia.
Qed.

(** A range of a row is a rectangle around the occurrence. *)
Lemma row_rect_spec index r s e :
  (s, e) ∈ literal_ranges needle (rowText r).1 ->
  e = (s + length needle)%nat /\ take (length needle) (drop s (rowText r).1) = needle /\
  exists rect, range_rect id index r (rowText r).2 (literal needle) None (s, e) = Some rect /\
    row rect = index /\ height rect = 1 /\ 0 <= column rect /\ 1 <= width rect /\
    (rowText r).2 !! s = Some (column rect) /\
    forall i c, (s <= i < e)%nat -> (rowText r).2 !! i = Some c -> column rect <= c < column rect + width rect.
Proof.
  intros H. unfold literal_ranges in H. destruct needle as [|n0 ns] eqn:En; [done|]. rewrite <- En in *.
  apply text_ranges_sound in H as (_ & -> & Hle & Htake); [|done]. split; [done|]. split; [done|].
  assert (0 < length needle)%nat as Hpos by (rewrite En; cbn; lia).
  destruct (row_text_columns 0 (cells r)) as (Hl & Hf & Hs). fold (rowText r) in Hl, Hf, Hs.
  destruct (lookup_lt_is_Some_2 (rowText r).2 s) as [cs Hcs]; [lia|].
  destruct (lookup_lt_is_Some_2 (rowText r).2 (s + length needle - 1)) as [ce Hce]; [lia|].
  unfold range_rect. cbn [fst snd]. rewrite Hcs, Hce. cbn [g_style literal]. eexists. split; [done|].
  cbn [row column width height].
  pose proof (sorted_lookup _ s _ _ _ Hs Hcs Hce ltac:(lia)) as Hse. rewrite Forall_forall in Hf.
  pose proof (Hf cs ltac:(by eapply list_elem_of_lookup_2)) as [H0 _].
  split; [done|]. split; [done|]. split; [lia|]. split; [destruct (match _ with Some _ => _ | None => _ end); lia|]. split; [done|].
  intros i c Hi Hc. pose proof (sorted_lookup _ s i _ _ Hs Hcs Hc ltac:(lia)).
  pose proof (sorted_lookup _ i _ _ _ Hs Hc Hce ltac:(lia)). destruct (match _ with Some _ => _ | None => _ end); lia.
Qed.

Lemma rects_of_row_in index r rect :
  rect ∈ rects_of_row index r needle <->
  exists s e, (s, e) ∈ literal_ranges needle (rowText r).1 /\
    range_rect id index r (rowText r).2 (literal needle) None (s, e) = Some rect.
Proof.
  unfold rects_of_row. rewrite list_elem_of_omap. split.
  - intros ([s e] & ? & ?). by exists s, e.
  - intros (s & e & ? & ?). by exists (s, e).
Qed.

Lemma rects_of_row_sorted index r : StronglySorted reading_order (rects_of_row index r needle).
Proof.
  unfold rects_of_row. assert (StronglySorted (fun a b : nat * nat => (a.1 <= b.1)%nat) (literal_ranges needle (rowText r).1)) as Hs.
  { unfold literal_ranges. destruct needle eqn:E; [constructor|]. by apply text_ranges_sorted. }
  destruct (row_text_columns 0 (cells r)) as (_ & _ & Hcols). fold (rowText r) in Hcols.
  assert (forall se, se ∈ literal_ranges needle (rowText r).1 -> exists rect,
    range_rect id index r (rowText r).2 (literal needle) None se = Some rect /\ row rect = index /\
    (rowText r).2 !! se.1 = Some (column rect)) as Hrect.
  { intros [s e] Hin. destruct (row_rect_spec index r s e Hin) as (_ & _ & rect & H1 & H2 & _ & _ & _ & H3 & _). eauto. }
  induction Hs as [|se l Hs IH Hle]; [constructor|]. cbn.
  destruct (Hrect se) as (rect & -> & Hr & Hc); [left|].
  constructor; [apply IH; intros x Hx; apply Hrect; by right|]. rewrite Forall_forall. intros rect' Hin.
  apply list_elem_of_omap in Hin as (se' & Hin & E). destruct (Hrect se') as (rect2 & E' & Hr' & Hc'); [by right|].
  assert (rect2 = rect') as -> by congruence. right. split; [congruence|]. rewrite Forall_forall in Hle.
  by eapply (sorted_lookup _ _ _ _ _ Hcols Hc Hc'), Hle.
Qed.
End Literal.

Lemma mjoin_imap_in {A B} (f : nat -> A -> list B) l x : x ∈ mjoin (imap f l) <-> exists i a, l !! i = Some a /\ x ∈ f i a.
Proof.
  rewrite list_elem_of_join. split.
  - intros (l' & Hx & Hl). apply list_elem_of_lookup in Hl as [i Hi]. rewrite list_lookup_imap in Hi.
    destruct (l !! i) as [a|] eqn:E; [|done]. injection Hi as <-. by exists i, a.
  - intros (i & a & E & Hx). exists (f i a). split; [done|]. apply list_elem_of_lookup. exists i. by rewrite list_lookup_imap, E.
Qed.

Lemma textInRect_row rows rect r :
  0 <= row rect -> rows !! Z.to_nat (row rect) = Some r -> height rect = 1 ->
  textInRect rows rect = units_in rect (rowText r).1 (rowText r).2.
Proof.
  intros H0 Hr Hh. unfold textInRect. rewrite Hh. change (seq 0 (Z.to_nat 1)) with [0%nat]. cbn [omap list_omap].
  change (Z.of_nat 0) with 0. rewrite Z.add_0_r, (proj2 (Z.ltb_ge _ 0)) by done. rewrite Hr. cbn. by destruct (rowText r).
Qed.

Lemma sorted_join (f : nat -> CapturedRow -> list Rect) rows k :
  (forall i r, StronglySorted reading_order (f i r)) ->
  (forall i r rect, rect ∈ f i r -> row rect = k + Z.of_nat i) ->
  StronglySorted reading_order (mjoin (imap f rows)).
Proof.
  revert f k. induction rows as [|r rows IH]; intros f k Hs Hr; [constructor|]. cbn [imap].
  change (mjoin (?x :: ?l)) with (x ++ mjoin l).
  assert (StronglySorted reading_order (mjoin (imap (f ∘ S) rows))) as Hrest.
  { apply (IH _ (k + 1)); [intros i; apply Hs|]. intros i r' rect Hin. rewrite (Hr (S i) r' rect Hin). lia. }
  assert (Forall (fun rect => row rect = k) (f 0%nat r)) as Hrow.
  { rewrite Forall_forall. intros rect Hin. rewrite (Hr 0%nat r rect Hin). lia. }
  specialize (Hs 0%nat r). induction Hs as [|a l Hs IHl Ha]; cbn [app]; [done|]. apply Forall_cons_1 in Hrow as [Hra Hrow].
  constructor; [by apply IHl|]. apply Forall_app. split; [done|]. rewrite Forall_forall. intros rect Hin. left.
  apply mjoin_imap_in in Hin as (i & r' & _ & Hin). rewrite Hra, (Hr (S i) r' rect Hin). lia.
Qed.

(** Text on the screen is found where it is: a literal query always answers;
    its rectangles come in reading order, each is one row high and the text
    inside it contains the needle; and every occurrence in the text of a row,
    wide and combined characters included, has a unit inside one of the
    rectangles of that row. *)
Theorem screen_text_found unicode_lower needle rows :
  needle <> [] ->
  exists rects, matchGrid unicode_lower rows (literal needle) None = Some rects /\
    StronglySorted reading_order rects /\
    (forall rect, rect ∈ rects -> 0 <= row rect < Z.of_nat (length rows) /\ 0 <= column rect /\ 1 <= width rect /\ height rect = 1 /\
       exists before after, textInRect rows rect = before ++ needle ++ after) /\
    forall i r j c, rows !! i = Some r -> starts_with needle (drop j (rowText r).1) = true -> (rowText r).2 !! j = Some c ->
      exists rect, rect ∈ rects /\ row rect = Z.of_nat i /\ column rect <= c < column rect + width rect.
Proof.
  intros Hne. unfold matchGrid. rewrite grid_rects_literal by done. cbn [mbind option_bind g_occurrence literal].
  eexists. split; [done|]. split_and!.
  - apply (sorted_join (fun i r => rects_of_row (0 + Z.of_nat i) r needle) rows 0); [intros i r; by apply rects_of_row_sorted|].
    intros i r rect Hin. apply rects_of_row_in in Hin as (s & e & Hin & E).
    destruct (row_rect_spec needle Hne (0 + Z.of_nat i) r s e Hin) as (_ & _ & rect' & E' & Hr & _). by rewrite E in E'; injection E' as <-.
  - intros rect Hin. apply mjoin_imap_in in Hin as (i & r & Hi & Hin). apply rects_of_row_in in Hin as (s & e & Hin & E).
    destruct (row_rect_spec needle Hne (0 + Z.of_nat i) r s e Hin) as (He & Ht & rect' & E' & Hr & Hh & Hc & Hw & _ & Hcols).
    rewrite E in E'. injection E' as <-. pose proof (lookup_lt_Some _ _ _ Hi). split; [lia|]. split; [done|]. split; [done|]. split; [done|].
    rewrite (textInRect_row rows rect r); [|lia|by rewrite Hr, Z.add_0_l, Nat2Z.id|done].
    destruct (row_text_columns 0 (cells r)) as (Hl & _ & _). fold (rowText r) in Hl.
    eapply units_in_segment; [done|done|]. intros k c Hk. apply Hcols. lia.
  - intros i r j c Hi Hs Hc.
    destruct (text_ranges_complete (S (length (rowText r).1)) needle (rowText r).1 0 j Hne) as (s & e & Hin & Hse); [lia|lia|done|].
    assert ((s, e) ∈ literal_ranges needle (rowText r).1) as Hin'.
    { unfold literal_ranges. destruct needle as [|n ns] eqn:En; [done|]. exact Hin. }
    destruct (row_rect_spec needle Hne (0 + Z.of_nat i) r s e Hin') as (_ & _ & rect & E & Hr & _ & _ & _ & _ & Hcols).
    exists rect. split; [|split; [lia|by apply (Hcols j)]]. apply mjoin_imap_in. exists i, r. split; [done|].
    apply rects_of_row_in. by exists s, e.
Qed.

(** ** Scoped and regular-expression queries *)

(** A match starts where the search does or later, and lies in the text. *)
Definition forward (r : RegExp) : Prop :=
  forall text from i n, exec r text from = Some (i, n) -> (from <= i /\ i + n <= length text)%nat.
Definition searchable (m : TextMatcher) : Prop := match m with regex r => forward r | _ => True end.

Lemma regex_ranges_total r text fuel from :
  forward r -> (length text + 2 <= from + fuel)%nat -> (0 < fuel)%nat -> is_Some (regex_ranges fuel r text from).
Proof.
  intros Hr. revert from. induction fuel as [|fuel IH]; intros from Hf Hpos; [lia|]. cbn [regex_ranges].
  destruct (Nat.ltb_spec (length text) from) as [Hlt|Hge]; [by eexists|].
  destruct (exec r text from) as [[i n]|] eqn:E; [|by eexists]. apply Hr in E as [Hi Hn].
  destruct n as [|n]; [apply IH; lia|]. destruct (IH (i + S n)%nat) as [l ->]; [lia|lia|]. by eexists.
Qed.

Lemma findRanges_total unicode_lower text m : searchable m -> is_Some (findRanges unicode_lower text m).
Proof. destruct m; intros H; cbn; [by eexists|by eexists|]. apply regex_ranges_total; [done|lia|lia]. Qed.

(** What a reported rectangle satisfies. *)
Definition reported_in (unicode_lower : jstring -> jstring) (rows : list CapturedRow) (query : GenericQuery)
    (scope : option Rect) (first : Z) (rect : Rect) : Prop :=
  exists r, rows !! Z.to_nat (row rect - first) = Some r /\ first <= row rect /\
    from_option (fun s => row s <= row rect < row s + height s /\ column s <= column rect /\
                          column rect + width rect <= column s + width s) True scope /\
    from_option (fun style => styleMatches unicode_lower
                   (take (Z.to_nat (width rect)) (drop (Z.to_nat (column rect)) (cells r))) style = true) True (g_style query).

Lemma range_rect_reported unicode_lower index r columns query scope range rect :
  range_rect unicode_lower index r columns query scope range = Some rect ->
  from_option (fun s => row s <= index < row s + height s) True scope ->
  reported_in unicode_lower [r] query scope index rect /\ row rect = index.
Proof.
  unfold range_rect. destruct (columns !! range.1) as [sc|]; [|done]. destruct (columns !! (range.2 - 1)%nat) as [ec|]; [|done].
  set (w := ec + _ - sc). destruct (match scope with Some _ => _ | None => _ end) eqn:Es; [done|].
  destruct (match g_style query with Some _ => _ | None => _ end) eqn:Est; [done|]. intros [= <-] Hs.
  split; [|done]. exists r. cbn [row column width]. rewrite Z.sub_diag. split; [done|]. split; [lia|]. split.
  - destruct scope as [s|]; [|done]. cbn in Hs |- *. apply orb_false_iff in Es as [H1%Z.ltb_ge H2%Z.ltb_ge]. lia.
  - destruct (g_style query); [|done]. cbn. by apply negb_false_iff in Est.
Qed.

Lemma grid_rects_reported unicode_lower rows query scope index :
  searchable (g_text query) ->
  exists rects, grid_rects unicode_lower index rows query scope = Some rects /\
    forall rect, rect ∈ rects -> reported_in unicode_lower rows query scope index rect.
Proof.
  intros Hm. revert index. induction rows as [|r rows IH]; intros index.
  { exists []. split; [done|]. by intros rect ?%not_elem_of_nil. }
  destruct (IH (index + 1)) as (below & Hb & Hrest). cbn [grid_rects].
  assert (exists here, (if match scope with Some s => (row s <=? index) && (index <? row s + height s) | None => true end
    then row_rects unicode_lower index r query scope else Some []) = Some here /\
    forall rect, rect ∈ here -> reported_in unicode_lower [r] query scope index rect /\ row rect = index) as (here & -> & Hhere).
  { destruct (match scope with Some _ => _ | None => _ end) eqn:Ein; [|exists []; split; [done|by intros rect ?%not_elem_of_nil]].
    unfold row_rects. destruct (rowText r) as [text columns]. destruct (findRanges_total unicode_lower text (g_text query) Hm) as [ranges ->].
    cbn. eexists. split; [done|]. intros rect Hin. apply list_elem_of_omap in Hin as (range & _ & E).
    eapply range_rect_reported; [exact E|]. destruct scope as [s|]; [|done]. apply andb_true_iff in Ein as [?%Z.leb_le ?%Z.ltb_lt]. cbn. lia. }
  cbn [mbind option_bind]. rewrite Hb. cbn [mbind option_bind]. eexists. split; [done|].
  intros rect Hin. apply elem_of_app in Hin as [Hin|Hin].
  - destruct (Hhere rect Hin) as [(r' & Hr & H1 & H2 & H3) Hrow]. rewrite Hrow, Z.sub_diag in Hr. cbn in Hr. injection Hr as <-.
    exists r. rewrite Hrow, Z.sub_diag in *. done.
  - destruct (Hrest rect Hin) as (r' & Hr & H1 & H2 & H3). exists r'. split; [|split; [lia|done]].
    replace (Z.to_nat (row rect - index)) with (S (Z.to_nat (row rect - (index + 1)))) by lia. done.
Qed.

(** A grid query ends and keeps to its bounds: for literal text and for every
    expression whose matches move forward the search returns, with or without an
    occurrence to pick; each rectangle is on a row of the screen, inside the
    scope, and all its cells satisfy the style; and picking the n-th occurrence
    gives the n-th rectangle of the query without it, or nothing. *)
Theorem grid_query_bounded unicode_lower rows query scope :
  searchable (g_text query) ->
  exists rects, matchGrid unicode_lower rows query scope = Some rects /\
    (forall rect, rect ∈ rects -> reported_in unicode_lower rows query scope 0 rect) /\
    exists all, matchGrid unicode_lower rows (gridQuery (g_text query) None (g_style query)) scope = Some all /\
      rects = match g_occurrence query with
              | None => all
              | Some n => if n <? 1 then [] else option_list (all !! Z.to_nat (n - 1))
              end.
Proof.
  intros Hm. destruct (grid_rects_reported unicode_lower rows query scope 0 Hm) as (all & Hall & Hin).
  assert (grid_rects unicode_lower 0 rows (gridQuery (g_text query) None (g_style query)) scope = Some all) as Hall'.
  { rewrite <- Hall. generalize 0. clear. induction rows as [|r rows IH]; intros index; cbn [grid_rects]; [done|]. by rewrite IH. }
  unfold matchGrid. rewrite Hall. cbn [mbind option_bind]. destruct (g_occurrence query) as [n|].
  - eexists. split; [done|]. split.
    + intros rect Hr. destruct (n <? 1); [by apply not_elem_of_nil in Hr|].
      destruct (all !! Z.to_nat (n - 1)) as [x|] eqn:E; cbn in Hr; [|by apply not_elem_of_nil in Hr].
      apply list_elem_of_singleton in Hr as ->. by eapply Hin, list_elem_of_lookup_2.
    + exists all. rewrite Hall'. done.
  - exists all. split; [done|]. split; [done|]. exists all. rewrite Hall'. done.
Qed.

(** ** A screen *)

Definition plain : CellAttributes :=
  {| bold := false; dim := false; italic := false; underline := false; inverse := false; strikethrough := false |}.
Definition cell (char : jstring) (w : Z) : CellSnapshot :=
  {| cell_char := char; cell_width := w; cell_fg := color_default; cell_bg := palette 4; cell_attributes := plain |}.
Definition line (s : jstring) : CapturedRow := {| cells := (fun c => cell [c] 1) <$> s; captured_text := s |}.
(** A wide character, its continuation, and text after it. *)
Definition wide_line : CapturedRow :=
  {| cells := [cell [20013] 2; cell [] 0; cell [111] 1; cell [107] 1]; captured_text := [20013; 111; 107] |}.

Lemma screen_text_found_witness :
  let rows := [line (js "ok ok"); wide_line] in
  matchGrid id rows (literal (js "ok")) None =
    Some [{| row := 0; column := 0; width := 2; height := 1 |}; {| row := 0; column := 3; width := 2; height := 1 |};
          {| row := 1; column := 2; width := 2; height := 1 |}] /\
  exists rects, matchGrid id rows (literal (js "ok")) None = Some rects /\
    StronglySorted reading_order rects /\
    (forall rect, rect ∈ rects -> 0 <= row rect < 2 /\ 0 <= column rect /\ 1 <= width rect /\ height rect = 1 /\
       exists before after, textInRect rows rect = before ++ js "ok" ++ after) /\
    forall i r j c, rows !! i = Some r -> starts_with (js "ok") (drop j (rowText r).1) = true -> (rowText r).2 !! j = Some c ->
      exists rect, rect ∈ rects /\ row rect = Z.of_nat i /\ column rect <= c < column rect + width rect.
Proof. intros rows. split; [by vm_compute|]. by apply (screen_text_found id (js "ok") rows). Defined.

(** The expression [/o/], and one on a blue background, second occurrence, in the
    right half of the row. *)
Definition letter_o : RegExp :=
  {| exec := fun text from => (fun i => ((from + i)%nat, 1%nat)) <$> index_of (js "o") (drop from text) |}.

Lemma grid_query_bounded_witness :
  let rows := [line (js "ok ok ok")] in
  let blue := {| style_fg := None; style_bg := Some (js " Blue "); style_attributes := Some [(js "bold", Some false)] |} in
  let query := gridQuery (regex letter_o) (Some 2) (Some blue) in
  let scope := Some {| row := 0; column := 2; width := 6; height := 1 |} in
  matchGrid id rows query scope = Some [{| row := 0; column := 6; width := 1; height := 1 |}] /\
  exists rects, matchGrid id rows query scope = Some rects /\
    (forall rect, rect ∈ rects -> reported_in id rows query scope 0 rect) /\
    exists all, matchGrid id rows (gridQuery (g_text query) None (g_style query)) scope = Some all /\
      rects = option_list (all !! 1%nat).
Proof.
  intros rows blue query scope. split; [by vm_compute|]. apply (grid_query_bounded id rows query scope).
  intros text from i n. cbn. destruct (index_of _ _) as [k|] eqn:E; [|done]. intros [= <- <-].
  apply index_of_Some in E as (_ & Hl & _). rewrite length_drop in Hl. cbn in Hl. lia.
Defined.

(** ** Where a search goes wrong *)

(** The empty expression with the unicode flag: from the middle of a surrogate
    pair it matches before the pair.  The search then looks at the same position
    for ever. *)
Definition unicode_empty : RegExp :=
  {| exec := fun text from =>
       match text !! from, text !! (from - 1)%nat with
       | Some c, Some before => if (0 <? from)%nat && is_low c && is_high before then Some ((from - 1)%nat, 0%nat) else Some (from, 0%nat)
       | _, _ => Some (from, 0%nat)
       end |}.

Theorem unicode_empty_never_ends fuel : regex_ranges fuel unicode_empty [55357; 56832] 0 = None.
Proof.
  assert (forall fuel, regex_ranges fuel unicode_empty [55357; 56832] 1 = None) as H1.
  { clear. induction fuel as [|fuel IH]; [done|]. cbn. exact IH. }
  destruct fuel as [|fuel]; [done|]. cbn. apply H1.
Qed.

(** Lower-casing a dotted capital I makes two units of one, so that the columns
    of what follows are off by one and the match at the end of the row is lost. *)
Definition dotted_lower (s : jstring) : jstring := mjoin ((fun c => if c =? 304 then [105; 775] else [lower_unit c]) <$> s).

Example lower_case_shifts_columns :
  matchGrid dotted_lower [line ([304] ++ js "x")] (gridQuery (substring (js "x")) None None) None = Some [] /\
  matchGrid dotted_lower [line ([304] ++ js "x")] (gridQuery (exact (js "x")) None None) None =
    Some [{| row := 0; column := 1; width := 1; height := 1 |}].
Proof. by vm_compute. Qed.

(** What follows the hexadecimal digits of a colour is not read. *)
Example malformed_colour : colorMatches id (rgb 0 0 18) (js "#12zzzz") = true.
Proof. by vm_compute. Qed.
