(* ===== verification/ArtifactSafety.v ===== *)
(** * Values at the artifact boundary (packages/protocol/src/artifact-safety.ts)

    The policy every durable or published artifact goes through: its resolution
    from what a project configured, the values of inputs as they are recorded,
    and the projection of a semantic snapshot. *)

From S2P Require Import Prelude JsText Dto Tree Selectors.

Local Open Scope Z_scope.

(** ** Policies *)

Inductive ArtifactValuePolicy : Set := policy_none | redacted | policy_raw.
Definition DEFAULT_ARTIFACT_VALUE_POLICY : ArtifactValuePolicy := policy_raw.

(** A pattern: the expression, its flags, and the longest match it may have. *)
Record ArtifactRedactionPattern : Type := {
  pattern : RegExp;
  p_global : bool;
  p_unicode : bool;
  maxMatchChars : Z;
}.

Record ResolvedArtifactSecurityPolicy : Type := {
  mode : ArtifactValuePolicy;
  p_secrets : list jstring;
  patterns : list ArtifactRedactionPattern;
  maxTerminalPendingBytes : Z;
}.

Definition DEFAULT_ARTIFACT_SECURITY_POLICY : ResolvedArtifactSecurityPolicy :=
  {| mode := policy_raw; p_secrets := []; patterns := []; maxTerminalPendingBytes := 256 * 1024 |}.

(** What a project may configure; numbers are integers, and absent members are
    [None]. *)
Record ArtifactSecurityPolicy : Type := {
  c_mode : jstring;
  c_secrets : option (list jstring);
  c_patterns : option (list ArtifactRedactionPattern);
  c_maxTerminalPendingBytes : option Z;
}.

Inductive PolicyError : Set := unknown_mode | pending_bytes_too_small | match_bound_not_positive.

Definition policy_of_name (name : jstring) : option ArtifactValuePolicy :=
  if decide (name = js "none") then Some policy_none
  else if decide (name = js "redacted") then Some redacted
  else if decide (name = js "raw") then Some policy_raw
  else None.

Definition is_safe_integer (z : Z) : bool := Z.abs z <=? 9007199254740991.

(** [new Set(values)], in order. *)
Definition dedupe (l : list jstring) : list jstring := foldl (fun acc x => if decide (x ∈ acc) then acc else acc ++ [x]) [] l.

Definition resolveArtifactSecurityPolicy (policy : option ArtifactSecurityPolicy) :
    result PolicyError ResolvedArtifactSecurityPolicy :=
  match policy with
  | None => Ok DEFAULT_ARTIFACT_SECURITY_POLICY
  | Some c =>
      match policy_of_name (c_mode c) with
      | None => Err unknown_mode
      | Some m =>
          let secrets := dedupe (List.filter (fun v => negb (bool_decide (v = []))) (default [] (c_secrets c))) in
          let pending := default (maxTerminalPendingBytes DEFAULT_ARTIFACT_SECURITY_POLICY) (c_maxTerminalPendingBytes c) in
          if negb (is_safe_integer pending) || (pending <? 1024) then Err pending_bytes_too_small
          else
            let ps := default [] (c_patterns c) in
            if forallb (fun p => is_safe_integer (maxMatchChars p) && (1 <=? maxMatchChars p)) ps
            then Ok {| mode := m; p_secrets := secrets; patterns := ps; maxTerminalPendingBytes := pending |}
            else Err match_bound_not_positive
      end
  end.

(** ** Input values *)

Inductive ExecutableValue : Type := plain_value (text : jstring) | wrapped (sensitivity : Sensitivity) (text : jstring).

Definition executableText (v : ExecutableValue) : jstring := match v with plain_value t => t | wrapped _ t => t end.
Definition valueSensitivity (v : ExecutableValue) : Sensitivity := match v with plain_value _ => sensitive | wrapped s _ => s end.

Inductive RecordedValue : Type :=
| recorded_known (value : jstring) (sensitivity : Sensitivity)
| recorded_withheld (sensitivity : Sensitivity).

(** Whether a value of this sensitivity may be published. *)
Definition publishes (policy : ArtifactValuePolicy) (s : Sensitivity) : bool :=
  match policy, s with policy_raw, _ => true | redacted, public => true | _, _ => false end.

Definition recordValue (v : ExecutableValue) (policy : ArtifactValuePolicy) : RecordedValue :=
  if publishes policy (valueSensitivity v) then recorded_known (executableText v) (valueSensitivity v)
  else recorded_withheld (valueSensitivity v).

(** ** Snapshots *)

Definition with_value (v : option SemanticValueObservation) (n : SemanticNode) : SemanticNode :=
  {| n_id := n_id n; n_parentId := n_parentId n; n_role := n_role n; n_name := n_name n; n_description := n_description n;
     n_value := v; n_state := n_state n; n_extended := n_extended n; n_actions := n_actions n;
     n_inputRecipes := n_inputRecipes n; n_labelledBy := n_labelledBy n; n_describedBy := n_describedBy n;
     n_textRanges := n_textRanges n; n_testId := n_testId n; n_frameworkType := n_frameworkType n;
     n_opaqueChildren := n_opaqueChildren n; n_p := n_p n; n_px := n_px n; n_geometry := n_geometry n;
     n_scroll := n_scroll n; n_paintedRegion := n_paintedRegion n |}.

Definition project_node (policy : ArtifactValuePolicy) (n : SemanticNode) : SemanticNode :=
  match n_value n with
  | Some (value_known _ s _) => if publishes policy s then n else with_value (Some (value_withheld artifact_policy s)) n
  | _ => n
  end.

Definition projectSemanticSnapshotForArtifact (s : SemanticSnapshot) (policy : ArtifactValuePolicy) : SemanticSnapshot :=
  {| s_sessionId := s_sessionId s; s_revision := s_revision s; s_columns := s_columns s; s_rows := s_rows s;
     s_cursor := s_cursor s; s_rootIds := s_rootIds s; s_nodes := project_node policy <$> s_nodes s;
     s_coordinateSpace := s_coordinateSpace s; s_hitGrid := s_hitGrid s; s_providerEvidence := s_providerEvidence s |}.

(** A resolved policy is usable as it is: exactly the secrets given that are
    not empty, each once, and bounds in range. *)
Theorem resolved_policy_valid c p :
  resolveArtifactSecurityPolicy (Some c) = Ok p ->
  NoDup (p_secrets p) /\ (forall x, x ∈ p_secrets p <-> x <> [] /\ x ∈ default [] (c_secrets c)) /\
  1024 <= maxTerminalPendingBytes p /\ Forall (fun q => 1 <= maxMatchChars q) (patterns p).
Proof.
  assert (forall l acc, NoDup acc -> let d := foldl (fun acc x => if decide (x ∈ acc) then acc else acc ++ [x]) acc l in
    NoDup d /\ forall x : jstring, x ∈ d <-> x ∈ acc \/ x ∈ l) as Hd.
  { induction l as [|y l IH]; intros acc Hacc; cbn [foldl].
    - split; [done|]. intros x. set_solver.
    - case_decide as Hy.
      + destruct (IH acc Hacc) as [H1 H2]. split; [done|]. intros x. rewrite H2. set_solver.
      + destruct (IH (acc ++ [y])) as [H1 H2]; [apply NoDup_app; split_and!; [done| |apply NoDup_singleton]; set_solver|].
        split; [done|]. intros x. rewrite H2. set_solver. }
  unfold resolveArtifactSecurityPolicy. destruct (policy_of_name (c_mode c)); [|done].
  destruct (negb _ || _) eqn:Eb; [done|]. destruct (forallb _ _) eqn:Ep; [|done]. intros [= <-].
  cbn [p_secrets maxTerminalPendingBytes patterns].
  destruct (Hd (List.filter (fun v => negb (bool_decide (v = []))) (default [] (c_secrets c))) [] ltac:(constructor)) as [H1 H2].
  split; [done|]. split; [|split].
  - intros x. unfold dedupe. rewrite H2, !list_elem_of_In, filter_In, negb_true_iff, bool_decide_eq_false. cbn. tauto.
  - apply orb_false_iff in Eb as [_ Eb%Z.ltb_ge]. done.
  - rewrite Forall_forall. rewrite forallb_forall in Ep. intros q Hq. apply list_elem_of_In, Ep, andb_true_iff in Hq as [_ Hq%Z.leb_le]. done.
Qed.

(** Artifacts carry only what their policy publishes: a projected snapshot and
    a recorded input hold the text of a value exactly when the policy is raw, or
    redacting and the value public; a plain input counts as sensitive; and
    nothing but values differs from the snapshot that was projected, whose nodes
    keep their number and order. *)
Theorem artifacts_withhold_values s policy v :
  (forall i n, s_nodes s !! i = Some n -> exists n', s_nodes (projectSemanticSnapshotForArtifact s policy) !! i = Some n' /\
     n' = with_value (n_value n') n /\
     (forall t q e, n_value n' = Some (value_known t q e) <-> n_value n = Some (value_known t q e) /\ publishes policy q = true) /\
     ((forall t q e, n_value n <> Some (value_known t q e)) -> n_value n' = n_value n)) /\
  length (s_nodes (projectSemanticSnapshotForArtifact s policy)) = length (s_nodes s) /\
  (forall t q, recordValue v policy = recorded_known t q <->
     executableText v = t /\ valueSensitivity v = q /\ (policy = policy_raw \/ (policy = redacted /\ v = wrapped public t))).
Proof.
  split_and!.
  - intros i n Hn. cbn [projectSemanticSnapshotForArtifact s_nodes]. rewrite list_lookup_fmap, Hn. cbn. eexists. split; [done|].
    unfold project_node. destruct n as [? ? ? ? ? vl]. cbn [n_value]. destruct vl as [[]|]; try (split; [done|]; split; [|done]; intros; split; [done|by intros [? _]]).
    destruct (publishes policy s0) eqn:Ep; (split; [done|]); (split; [|naive_solver]); intros; cbn; split; [intros [= <- <- <-]; done|by intros [? _]|done|].
    intros [[= <- <- <-] ?]. congruence.
  - cbn. by rewrite length_fmap.
  - intros t q. unfold recordValue. destruct v as [x|[] x], policy; cbn; naive_solver.
Qed.
