(* ===== verification/Sanitizer.v ===== *)
(** * Secrets in recorded terminal output (packages/trace/src/terminal-sanitizer.ts)

    The streaming sanitizer between the terminal and the trace spool: output is
    cut into visible characters and control sequences, registered secrets and
    configured patterns are masked in both, and as much is held back as a secret
    still arriving may need.  The mask of a text is built from the grapheme
    segmentation of the host and the width tables of packages/vt, which are
    parameters. *)

From S2P Require Import Prelude JsText Dto JsObject JsSearch Keys Tree Selectors GridMatch ArtifactSafety.

Local Open Scope Z_scope.

(** ** State *)

Inductive TraceErrorCode : Set := capacity | protocol_violation.

Record Token : Type := { raw : jstring; visible : jstring }.

Inductive ControlKind : Set := k_esc | k_csi | k_string.

Record Sanitizer : Type := {
  policy : ResolvedArtifactSecurityPolicy;
  secrets : list jstring;
  tokens : list Token;
  control : jstring;
  controlKind : option ControlKind;
  stringEsc : bool;
}.

(** [split(/\r?\n/u)] *)
Fixpoint split_lines (line : jstring) (s : jstring) : list jstring :=
  match s with
  | [] => [line]
  | 13 :: ((10 :: s) as t) => line :: split_lines [] s
  | 10 :: s => line :: split_lines [] s
  | c :: s => split_lines (line ++ [c]) s
  end.

Definition register (value : jstring) (s : Sanitizer) : Sanitizer :=
  {| policy := policy s;
     secrets := foldl (fun acc line => match line with [] => acc | _ => if decide (line ∈ acc) then acc else acc ++ [line] end)
                  (secrets s) (split_lines [] value);
     tokens := tokens s; control := control s; controlKind := controlKind s; stringEsc := stringEsc s |}.

Definition newSanitizer (p : ResolvedArtifactSecurityPolicy) : Sanitizer :=
  foldl (fun s secret => register secret s)
    {| policy := p; secrets := []; tokens := []; control := []; controlKind := None; stringEsc := false |} (p_secrets p).

Definition set_tokens (ts : list Token) (s : Sanitizer) : Sanitizer :=
  {| policy := policy s; secrets := secrets s; tokens := ts; control := control s; controlKind := controlKind s;
     stringEsc := stringEsc s |}.
Definition set_control (c : jstring) (k : option ControlKind) (e : bool) (s : Sanitizer) : Sanitizer :=
  {| policy := policy s; secrets := secrets s; tokens := tokens s; control := c; controlKind := k; stringEsc := e |}.

(** ** Patterns *)

(** [AdvanceStringIndex]: over a whole character with the unicode flag. *)
Definition advance (unicode : bool) (text : jstring) (i : nat) : nat :=
  match text !! i, text !! (S i) with
  | Some c, Some d => if unicode && is_high c && is_low d then (i + 2)%nat else (i + 1)%nat
  | _, _ => (i + 1)%nat
  end.

(** Every match from a position, as [matchAll] and a global [replace] find them. *)
Fixpoint all_matches (fuel : nat) (p : ArtifactRedactionPattern) (text : jstring) (from : nat) : list (nat * nat) :=
  match fuel with
  | O => []
  | S fuel =>
      match (if (length text <? from)%nat then None else exec (pattern p) text from) with
      | None => []
      | Some (i, n) =>
          (i, (i + n)%nat) :: all_matches fuel p text (if Nat.eqb n 0 then advance (p_unicode p) text i else (i + n)%nat)
      end
  end.
Definition matches_of (p : ArtifactRedactionPattern) (text : jstring) : list (nat * nat) := all_matches (length text + 2) p text 0.

(** A match longer than declared is refused. *)
Definition assertPatternBound (p : ArtifactRedactionPattern) (ms : list (nat * nat)) : result TraceErrorCode unit :=
  if forallb (fun m => Z.of_nat (m.2 - m.1) <=? maxMatchChars p) ms then Ok tt else Err capacity.

Definition REDACTED : jstring := js "[redacted]".

(** The text with the matches, in order, replaced. *)
Fixpoint replace_matches (text : jstring) (at_ : nat) (ms : list (nat * nat)) : jstring :=
  match ms with
  | [] => drop at_ text
  | (i, e) :: ms => take (i - at_) (drop at_ text) ++ REDACTED ++ replace_matches text e ms
  end.

(** [result.replace(pattern, ...)]: without the global flag, the first match. *)
Definition replace_pattern (p : ArtifactRedactionPattern) (text : jstring) : result TraceErrorCode jstring :=
  let ms := if p_global p then matches_of p text else take 1 (matches_of p text) in
  _ ← assertPatternBound p ms;
  Ok (replace_matches text 0 ms).

(** [result.split(secret).join('[redacted]')] *)
Definition replace_secret (text secret : jstring) : jstring := replace_matches text 0 (literal_ranges secret text).

Fixpoint replace_patterns (ps : list ArtifactRedactionPattern) (text : jstring) : result TraceErrorCode jstring :=
  match ps with
  | [] => Ok text
  | p :: ps => text ← replace_pattern p text; replace_patterns ps text
  end.

Definition sanitizeControl (s : Sanitizer) (c : jstring) : result TraceErrorCode jstring :=
  replace_patterns (patterns (policy s)) (foldl replace_secret c (secrets s)).

(** ** Tokens *)

(** The characters of [for (const character of text)]. *)
Definition characters (text : jstring) : list jstring := utf16_scalar <$> code_points text.

Definition finishControl (s : Sanitizer) : result TraceErrorCode unit * Sanitizer :=
  match sanitizeControl s (control s) with
  | Err e => (Err e, s)
  | Ok r => (Ok tt, set_control [] None false (set_tokens (tokens s ++ [{| raw := r; visible := [] |}]) s))
  end.

Definition token_step (character : jstring) (s : Sanitizer) : result TraceErrorCode unit * Sanitizer :=
  match controlKind s with
  | None =>
      if decide (character = [27]) then (Ok tt, set_control character (Some k_esc) (stringEsc s) s)
      else (Ok tt, set_tokens (tokens s ++ [{| raw := character; visible := character |}]) s)
  | Some k =>
      let s := set_control (control s ++ character) (Some k) (stringEsc s) s in
      match k with
      | k_esc =>
          if decide (character = [91]) then (Ok tt, set_control (control s) (Some k_csi) (stringEsc s) s)
          else if decide (character ∈ [[93]; [80]; [95]; [94]]) then (Ok tt, set_control (control s) (Some k_string) (stringEsc s) s)
          else finishControl s
      | k_csi =>
          let code := default 0 (head (code_points character)) in
          if between 64 code 126 then finishControl s else (Ok tt, s)
      | k_string =>
          if decide (character = [7]) then finishControl s
          else if stringEsc s && bool_decide (character = [92]) then finishControl s
          else (Ok tt, set_control (control s) (Some k_string) (bool_decide (character = [27])) s)
      end
  end.

(** The loop stops where a step throws. *)
Fixpoint tokenize_from (cs : list jstring) (s : Sanitizer) : result TraceErrorCode unit * Sanitizer :=
  match cs with
  | [] => (Ok tt, s)
  | c :: cs =>
      match token_step c s with
      | (Ok _, s) => tokenize_from cs s
      | (Err e, s) => (Err e, s)
      end
  end.
Definition tokenize (text : jstring) (s : Sanitizer) : result TraceErrorCode unit * Sanitizer := tokenize_from (characters text) s.

(** ** Masking *)

Definition visible_text (ts : list Token) : jstring := mjoin (visible <$> ts).

(** The tokens that overlap a range of the visible text: the first takes the
    mask, the others are emptied. *)
Fixpoint replace_range (from_ to_ : nat) (mask : jstring) (offset : nat) (placed : bool) (ts : list Token) : list Token :=
  match ts with
  | [] => []
  | t :: ts =>
      let next := (offset + length (visible t))%nat in
      if negb (bool_decide (visible t = [])) && (from_ <? next)%nat && (offset <? to_)%nat
      then {| raw := if placed then [] else mask; visible := visible t |} :: replace_range from_ to_ mask next true ts
      else t :: replace_range from_ to_ mask next placed ts
  end.
Definition replaceVisibleRange (r : nat * nat * jstring) (ts : list Token) : list Token := replace_range r.1.1 r.1.2 r.2 0 false ts.

Section Mask.
(** [Intl.Segmenter] and [measureTextCellWidth]. *)
Context (graphemes : jstring -> list jstring) (measureTextCellWidth : jstring -> Z).

Definition maskGeometry (text : jstring) : jstring :=
  mjoin ((fun segment => if decide (segment ∈ [[13]; [10]]) then segment
                         else repeat 9608 (Z.to_nat (measureTextCellWidth segment))) <$> graphemes text).

Definition secret_ranges (text : jstring) (ss : list jstring) : list (nat * nat * jstring) :=
  mjoin ((fun secret => (fun r => (r, maskGeometry secret)) <$> literal_ranges secret text) <$> ss).

Fixpoint pattern_ranges (text : jstring) (ps : list ArtifactRedactionPattern) : result TraceErrorCode (list (nat * nat * jstring)) :=
  match ps with
  | [] => Ok []
  | p :: ps =>
      let ms := List.filter (fun m => negb (Nat.eqb m.2 m.1)) (matches_of p text) in
      _ ← assertPatternBound p ms;
      rest ← pattern_ranges text ps;
      Ok (((fun m => (m, maskGeometry (take (m.2 - m.1) (drop m.1 text)))) <$> ms) ++ rest)
  end.

Definition redactPending (s : Sanitizer) : result TraceErrorCode (list Token) :=
  let text := visible_text (tokens s) in
  more ← pattern_ranges text (patterns (policy s));
  let ranges := sort_on (fun r => - Z.of_nat r.1.1) (secret_ranges text (secrets s) ++ more) in
  Ok (foldl (fun ts r => replaceVisibleRange r ts) (tokens s) ranges).

(** ** Output *)

Definition longestSecret (s : Sanitizer) : Z :=
  foldl Z.max (foldl Z.max 1 ((fun x => Z.of_nat (length x)) <$> secrets s)) (maxMatchChars <$> patterns (policy s)).

Definition assertBounded (s : Sanitizer) : bool :=
  utf8_length (control s) + foldl Z.add 0 ((fun t => utf8_length (raw t)) <$> tokens s) <=? maxTerminalPendingBytes (policy s).

(** How many tokens may go. *)
Fixpoint flush_count (flushVisible seen : nat) (ts : list Token) : nat :=
  match ts with
  | [] => 0
  | t :: ts =>
      if negb (bool_decide (visible t = [])) && (flushVisible <? seen + length (visible t))%nat then 0
      else S (flush_count flushVisible (seen + length (visible t)) ts)
  end.

(** The tokens that go and those that stay. *)
Definition flush_tokens (all : bool) (s : Sanitizer) : list Token * list Token :=
  let keep := if all then 0%nat else Z.to_nat (Z.max 0 (longestSecret s - 1)) in
  let count := flush_count (length (visible_text (tokens s)) - keep) 0 (tokens s) in
  (take count (tokens s), drop count (tokens s)).
Definition flushed_text (ts : list Token) : jstring := mjoin (raw <$> ts).

Definition push (text : jstring) (s : Sanitizer) : result TraceErrorCode jstring * Sanitizer :=
  match mode (policy s) with
  | policy_raw => (Ok text, s)
  | policy_none => (Ok [], s)
  | redacted =>
      match tokenize text s with
      | (Err e, s) => (Err e, s)
      | (Ok _, s) =>
          match redactPending s with
          | Err e => (Err e, s)
          | Ok ts =>
              let s := set_tokens ts s in
              if assertBounded s then let '(out, rest) := flush_tokens false s in (Ok (flushed_text out), set_tokens rest s)
              else (Err capacity, s)
          end
      end
  end.

Definition finish (s : Sanitizer) : result TraceErrorCode jstring * Sanitizer :=
  match mode (policy s) with
  | policy_raw | policy_none => (Ok [], s)
  | redacted =>
      match control s with
      | _ :: _ => (Err protocol_violation, s)
      | [] =>
          match redactPending s with
          | Err e => (Err e, s)
          | Ok ts => let s := set_tokens ts s in
                     let '(out, rest) := flush_tokens true s in (Ok (flushed_text out), set_tokens rest s)
          end
      end
  end.

Definition sanitizeComplete (text : jstring) (s : Sanitizer) : result TraceErrorCode jstring :=
  let isolated := foldl (fun i secret => register secret i) (newSanitizer (policy s)) (secrets s) in
  match push text isolated with
  | (Err e, _) => Err e
  | (Ok a, isolated) => match (finish isolated).1 with Err e => Err e | Ok b => Ok (a ++ b) end
  end.
End Mask.
