(* ===== verification/SanitizerTheorems.v ===== *)
(** * No registered secret passes the sanitizer whole

    However the output is cut into chunks: every occurrence of a secret in the
    visible text loses at least one of its characters to a mask, nothing outside
    an occurrence is touched, and control sequences come out in place with the
    secrets in them replaced. *)

From S2P Require Import Prelude JsText Dto JsObject JsSearch Keys Tree Selectors GridMatch GridTheorems ArtifactSafety Sanitizer.

Local Open Scope Z_scope.

(** ** Positions *)

Lemma visible_text_app ts us : visible_text (ts ++ us) = visible_text ts ++ visible_text us.
Proof. unfold visible_text. by rewrite fmap_app, join_app. Qed.

(** Where the token at an index starts in the visible text. *)
Definition start_of (ts : list Token) (k : nat) : nat := length (visible_text (take k ts)).

(** The token at index [k] has a unit in the range. *)
Definition overlaps (ts : list Token) (k a b : nat) : Prop := (start_of ts k < b /\ a < start_of ts (S k))%nat.

Lemma start_of_S ts k t : ts !! k = Some t -> start_of ts (S k) = (start_of ts k + length (visible t))%nat.
Proof.
  intros H. unfold start_of. rewrite (take_S_r ts k t H), visible_text_app, length_app. f_equal. unfold visible_text. cbn. by rewrite app_nil_r.
Qed.

Lemma start_of_app_l ts us k : (k <= length ts)%nat -> start_of (ts ++ us) k = start_of ts k.
Proof. intros H. unfold start_of. by rewrite take_app_le. Qed.

Lemma start_of_app_r ts us k : start_of (ts ++ us) (length ts + k) = (length (visible_text ts) + start_of us k)%nat.
Proof. unfold start_of. rewrite take_app_add, visible_text_app, length_app. done. Qed.

Lemma overlaps_app_l ts us k a b : (k < length ts)%nat -> overlaps (ts ++ us) k a b <-> overlaps ts k a b.
Proof. intros H. unfold overlaps. rewrite !start_of_app_l by lia. done. Qed.

Lemma overlaps_app_r ts us k a b :
  overlaps us k a b -> overlaps (ts ++ us) (length ts + k) (length (visible_text ts) + a) (length (visible_text ts) + b).
Proof. unfold overlaps. rewrite <- Nat.add_succ_r. rewrite !start_of_app_r. lia. Qed.

(** Every unit of the visible text belongs to a token. *)
Lemma unit_token ts j :
  (j < length (visible_text ts))%nat ->
  exists k t, ts !! k = Some t /\ visible t <> [] /\ (start_of ts k <= j < start_of ts (S k))%nat.
Proof.
  induction ts as [|t ts IH] using rev_ind; [cbn; lia|]. rewrite visible_text_app, length_app.
  destruct (decide (j < length (visible_text ts))%nat) as [Hj|Hj].
  - intros _. destruct (IH Hj) as (k & u & Hk & Hu & Hr). exists k, u. pose proof (lookup_lt_Some _ _ _ Hk).
    rewrite lookup_app_l by done. rewrite !start_of_app_l by lia. done.
  - intros Hl. exists (length ts), t. rewrite lookup_app_r, Nat.sub_diag by lia. split; [done|].
    assert (length (visible_text [t]) = length (visible t)) as Ht by (unfold visible_text; cbn; by rewrite app_nil_r).
    split; [intros E; rewrite Ht, E in Hl; cbn in Hl; lia|].
    rewrite (start_of_S _ _ t) by (by rewrite lookup_app_r, Nat.sub_diag by lia). rewrite start_of_app_l by lia.
    unfold start_of at 1 2. rewrite take_ge by lia. lia.
Qed.

(** ** Masking a range *)

Definition hit (ts : list Token) (off k a b : nat) : Prop := (off + start_of ts k < b /\ a < off + start_of ts (S k))%nat.

Lemma replace_range_spec a b mask off placed ts :
  length (replace_range a b mask off placed ts) = length ts /\
  forall k t, ts !! k = Some t -> exists t', replace_range a b mask off placed ts !! k = Some t' /\ visible t' = visible t /\
    (visible t <> [] -> hit ts off k a b -> raw t' = [] \/ raw t' = mask) /\
    (visible t = [] \/ ~ hit ts off k a b -> t' = t).
Proof.
  revert off placed. induction ts as [|u ts IH]; intros off placed; [done|]. cbn [replace_range].
  assert (forall k, start_of (u :: ts) (S k) = (length (visible u) + start_of ts k)%nat) as HS.
  { intros k. unfold start_of. cbn [take]. change (u :: take k ts) with ([u] ++ take k ts). rewrite visible_text_app, length_app.
    f_equal. unfold visible_text. cbn. by rewrite app_nil_r. }
  assert (hit (u :: ts) off 0 a b <-> (off < b /\ a < off + length (visible u))%nat) as H0.
  { unfold hit. rewrite HS. change (start_of (u :: ts) 0) with 0%nat. change (start_of ts 0) with 0%nat. lia. }
  set (c := negb (bool_decide (visible u = [])) && (a <? off + length (visible u))%nat && (off <? b)%nat).
  assert (c = true <-> visible u <> [] /\ hit (u :: ts) off 0 a b) as Hc.
  { unfold c. rewrite H0, !andb_true_iff, negb_true_iff, bool_decide_eq_false, !Nat.ltb_lt. tauto. }
  assert (forall placed', length (replace_range a b mask (off + length (visible u)) placed' ts) = length ts /\
    forall k t, ts !! k = Some t -> exists t', replace_range a b mask (off + length (visible u)) placed' ts !! k = Some t' /\ visible t' = visible t /\
      (visible t <> [] -> hit (u :: ts) off (S k) a b -> raw t' = [] \/ raw t' = mask) /\
      (visible t = [] \/ ~ hit (u :: ts) off (S k) a b -> t' = t)) as Hrest.
  { intros placed'. destruct (IH (off + length (visible u))%nat placed') as [Hl Hk]. split; [done|]. intros k t Ht.
    destruct (Hk k t Ht) as (t' & H1 & H2 & H3 & H4). exists t'. unfold hit in *. rewrite !HS. rewrite !Nat.add_assoc. done. }
  destruct c eqn:Ec.
  - destruct (Hrest true) as [Hl Hk]. split; [cbn; by rewrite Hl|]. intros [|k] t Ht; cbn in Ht |- *; [|by apply Hk].
    injection Ht as <-. destruct (proj1 Hc eq_refl) as [Hv Hh]. eexists. split; [done|]. split; [done|]. split.
    + intros _ _. destruct placed; cbn; auto.
    + intros [?|?]; done.
  - destruct (Hrest placed) as [Hl Hk]. split; [cbn; by rewrite Hl|]. intros [|k] t Ht; cbn in Ht |- *; [|by apply Hk].
    injection Ht as <-. exists u. split; [done|]. split; [done|]. split; [|done].
    intros Hv Hh. assert (false = true) by (by apply Hc). done.
Qed.

Definition masked (masks : list jstring) (x : jstring) : Prop := x = [] \/ x ∈ masks.

(** What masking some ranges does to the tokens. *)
Record masking (masks : list jstring) (ranges : list (nat * nat * jstring)) (ts ts' : list Token) : Prop := {
  mk_visible : visible <$> ts' = visible <$> ts;
  mk_token : forall k t, ts !! k = Some t -> exists t', ts' !! k = Some t' /\ visible t' = visible t /\
    (visible t <> [] -> masked masks (raw t) \/ (exists r, r ∈ ranges /\ overlaps ts k r.1.1 r.1.2) -> masked masks (raw t')) /\
    (visible t = [] \/ (forall r, r ∈ ranges -> ~ overlaps ts k r.1.1 r.1.2) -> t' = t);
}.

Lemma start_of_visible ts ts' k : visible <$> ts' = visible <$> ts -> start_of ts' k = start_of ts k.
Proof. intros H. unfold start_of, visible_text. by rewrite !fmap_take, H. Qed.

Lemma overlaps_visible ts ts' k a b : visible <$> ts' = visible <$> ts -> overlaps ts' k a b <-> overlaps ts k a b.
Proof. intros H. unfold overlaps. by rewrite !(start_of_visible ts ts'). Qed.

Lemma masking_one masks r ts : r.2 ∈ masks -> masking masks [r] ts (replaceVisibleRange r ts).
Proof.
  intros Hm. destruct r as [[a b] mask]. unfold replaceVisibleRange. cbn [fst snd] in *.
  destruct (replace_range_spec a b mask 0 false ts) as [Hl Hk]. split.
  - apply list_eq_same_length with (length ts); [by rewrite length_fmap|by rewrite length_fmap|].
    intros i x y Hi Hx Hy. rewrite list_lookup_fmap in Hx, Hy. destruct (ts !! i) as [t|] eqn:E; [|done].
    destruct (Hk i t E) as (t' & Ht' & Hv & _). rewrite Ht' in Hx. cbn in Hx, Hy. congruence.
  - intros k t Ht. destruct (Hk k t Ht) as (t' & Ht' & Hv & Hh & Hn). exists t'. split; [done|]. split; [done|].
    assert (hit ts 0 k a b <-> overlaps ts k a b) as Hho by (unfold hit, overlaps; lia). split.
    + intros Hne Hor. destruct (decide (start_of ts k < b /\ a < start_of ts (S k))%nat) as [Ho|Ho].
      * destruct (Hh Hne) as [->| ->]; [by apply Hho|by left|by right].
      * rewrite Hn by (right; by rewrite Hho). destruct Hor as [?|(r & ->%list_elem_of_singleton & Hr)]; done.
    + intros [Hv0|Hno]; [by apply Hn; left|]. apply Hn. right. rewrite Hho. apply (Hno (a, b, mask)). left.
Qed.

Lemma masking_fold masks ranges ts :
  Forall (fun r => r.2 ∈ masks) ranges -> masking masks ranges ts (foldl (fun ts r => replaceVisibleRange r ts) ts ranges).
Proof.
  intros H. revert ts. induction H as [|r ranges Hr H IH]; intros ts; cbn [foldl].
  - split; [done|]. intros k t Ht. exists t. split; [done|]. split; [done|]. split; [|done].
    intros _ [?|(r & []%not_elem_of_nil & _)]. done.
  - destruct (masking_one masks r ts Hr) as [V1 T1], (IH (replaceVisibleRange r ts)) as [V2 T2]. split; [congruence|].
    intros k t Ht. destruct (T1 k t Ht) as (t1 & Ht1 & Hv1 & Hm1 & Hu1), (T2 k t1 Ht1) as (t2 & Ht2 & Hv2 & Hm2 & Hu2).
    exists t2. split; [done|]. split; [congruence|]. setoid_rewrite (overlaps_visible _ _ k _ _ V1) in Hm2.
    setoid_rewrite (overlaps_visible _ _ k _ _ V1) in Hu2. setoid_rewrite elem_of_cons. split.
    + intros Hne Hor. apply Hm2; [congruence|]. destruct Hor as [Hraw|(r' & [->|Hin] & Ho)].
      * left. apply Hm1; auto.
      * left. apply Hm1; [done|]. right. exists r. split; [left|done].
      * right. eauto.
    + intros Hor. rewrite Hu2; [apply Hu1|].
      * destruct Hor as [?|Hno]; [by left|]. right. intros r' ->%list_elem_of_singleton. apply Hno. by left.
      * destruct Hor as [?|Hno]; [left; congruence|]. right. intros r' Hr'. apply Hno. by right.
Qed.

(** ** Occurrences *)

Definition occurs (s : jstring) (p : nat) (text : jstring) : Prop := starts_with s (drop p text) = true.

Lemma occurs_length s p text : s <> [] -> occurs s p text -> (p + length s <= length text)%nat.
Proof.
  intros Hne [t Ht]%starts_with_spec. apply (f_equal length) in Ht. rewrite length_drop, length_app in Ht.
  destruct s; [done|]. cbn in *. lia.
Qed.

Lemma occurs_app_l s p text more : (p + length s <= length text)%nat -> occurs s p (text ++ more) <-> occurs s p text.
Proof.
  intros Hl. unfold occurs, starts_with. rewrite !bool_decide_eq_true, drop_app_le, take_app_le by (rewrite ?length_drop; lia). done.
Qed.

Lemma occurs_app_r s p text more : occurs s (length text + p) (text ++ more) <-> occurs s p more.
Proof. unfold occurs. by rewrite drop_app_add. Qed.

Section Guard.
Context (ss masks : list jstring) (keep : nat).
Hypothesis nonempty : Forall (fun s => s <> []) ss.
Hypothesis keep_enough : Forall (fun s => (length s <= keep + 1)%nat) ss.

(** Every occurrence that ends by [upto] has lost a character, and only
    characters of occurrences were touched. *)
Record guarded (ts : list Token) (upto : nat) : Prop := {
  g_covered : forall s p, s ∈ ss -> occurs s p (visible_text ts) -> (p + length s <= upto)%nat ->
    exists k t, ts !! k = Some t /\ visible t <> [] /\ masked masks (raw t) /\ overlaps ts k p (p + length s);
  g_sound : forall k t, ts !! k = Some t -> visible t <> [] ->
    raw t = visible t \/ (masked masks (raw t) /\
      exists s p, s ∈ ss /\ occurs s p (visible_text ts) /\ overlaps ts k p (p + length s));
}.

Lemma guarded_append ts new upto :
  guarded ts upto -> (upto <= length (visible_text ts))%nat -> Forall (fun t => visible t = [] \/ raw t = visible t) new ->
  guarded (ts ++ new) upto.
Proof.
  intros [Hc Hs] Hu Hnew. split; rewrite ?visible_text_app.
  - intros s p Hin Ho Hp. apply occurs_app_l in Ho; [|lia]. destruct (Hc s p Hin Ho Hp) as (k & t & Hk & Hv & Hm & Hov).
    pose proof (lookup_lt_Some _ _ _ Hk). exists k, t. rewrite lookup_app_l by done. rewrite overlaps_app_l by done. done.
  - intros k t Hk Hv. destruct (decide (k < length ts)%nat) as [Hlt|Hge].
    + rewrite lookup_app_l in Hk by done. destruct (Hs k t Hk Hv) as [?|(Hm & s & p & Hin & Ho & Hov)]; [by left|]. right. split; [done|].
      exists s, p. split; [done|]. rewrite overlaps_app_l by done. split; [|done].
      rewrite Forall_forall in nonempty. apply occurs_app_l; [|done]. apply occurs_length; [by apply nonempty|done].
    + rewrite lookup_app_r in Hk by lia. rewrite Forall_forall in Hnew. left.
      destruct (Hnew t) as [?|?]; [by eapply list_elem_of_lookup_2|done|done].
Qed.

Lemma literal_ranges_sound s text a b :
  s <> [] -> (a, b) ∈ literal_ranges s text -> b = (a + length s)%nat /\ occurs s a text.
Proof.
  intros Hne H. unfold literal_ranges in H. destruct s as [|c s]; [done|].
  apply text_ranges_sound in H as (_ & -> & _ & Ht); [|done]. split; [done|]. unfold occurs, starts_with. by rewrite Ht, bool_decide_eq_true_2.
Qed.

Lemma literal_ranges_complete s text j :
  s <> [] -> occurs s j text -> exists a b, (a, b) ∈ literal_ranges s text /\ (a <= j < b)%nat.
Proof.
  intros Hne H. unfold literal_ranges. destruct s as [|c s]; [done|]. apply text_ranges_complete; [done|lia|lia|done].
Qed.

(** Masking what is pending covers what has arrived. *)
Lemma guarded_masking gone pending pending' ranges upto :
  guarded (gone ++ pending) upto -> (length (visible_text gone) <= upto - keep)%nat ->
  (forall s r, s ∈ ss -> r ∈ literal_ranges s (visible_text pending) -> exists m, (r, m) ∈ ranges) ->
  (forall r, r ∈ ranges -> exists s, s ∈ ss /\ r.1 ∈ literal_ranges s (visible_text pending)) ->
  masking masks ranges pending pending' ->
  guarded (gone ++ pending') (length (visible_text (gone ++ pending'))).
Proof.
  intros [Hc Hs] Hgone Hr1 Hr2 [Hvis Htok]. rewrite Forall_forall in nonempty, keep_enough.
  assert (visible <$> gone ++ pending' = visible <$> gone ++ pending) as Hvis' by (by rewrite !fmap_app, Hvis).
  assert (visible_text (gone ++ pending') = visible_text (gone ++ pending)) as Htext by (unfold visible_text; by rewrite Hvis').
  assert (length pending' = length pending) as Hlen by (apply (f_equal length) in Hvis; by rewrite !length_fmap in Hvis).
  assert (forall k t, (gone ++ pending) !! k = Some t -> visible t <> [] -> masked masks (raw t) ->
    exists t', (gone ++ pending') !! k = Some t' /\ visible t' = visible t /\ masked masks (raw t')) as Hkept.
  { intros k t Hk Hv Hm. destruct (decide (k < length gone)%nat) as [Hlt|Hge].
    - rewrite lookup_app_l in Hk by done. exists t. by rewrite lookup_app_l by done.
    - rewrite lookup_app_r in Hk by lia. destruct (Htok _ t Hk) as (t' & Ht' & Hv' & Hm' & _). exists t'.
      rewrite lookup_app_r by lia. split; [done|]. split; [done|]. apply Hm'; auto. }
  split; rewrite ?Htext.
  - intros s p Hin Ho Hp. pose proof (nonempty s Hin) as Hne. setoid_rewrite (overlaps_visible _ _ _ _ _ Hvis').
    destruct (decide (p + length s <= upto)%nat) as [Hle|Hgt].
    + destruct (Hc s p Hin Ho Hle) as (k & t & Hk & Hv & Hm & Hov). destruct (Hkept k t Hk Hv Hm) as (t' & Ht' & Hv' & Hm').
      exists k, t'. split; [done|]. split; [congruence|done].
    + assert (length (visible_text gone) <= p)%nat as Hge by (pose proof (keep_enough s Hin); cbn in *; lia).
      rewrite visible_text_app in Ho. replace p with (length (visible_text gone) + (p - length (visible_text gone)))%nat in Ho by lia.
      apply occurs_app_r in Ho. set (j := (p - length (visible_text gone))%nat) in *.
      destruct (literal_ranges_complete s _ j Hne Ho) as (a & b & Hab & Hj). destruct (Hr1 s (a, b) Hin Hab) as [m Hm].
      assert (0 < length s)%nat as Hpos by (destruct s; [done|cbn; lia]). pose proof (occurs_length s j _ Hne Ho).
      destruct (unit_token pending j) as (k & t & Hk & Hv & Hkj); [lia|].
      destruct (Htok k t Hk) as (t' & Ht' & Hv' & Hm' & _). exists (length gone + k)%nat, t'.
      rewrite lookup_app_r by lia. replace (length gone + k - length gone)%nat with k by lia. split; [done|]. split; [congruence|]. split.
      * apply Hm'; [done|]. right. exists (a, b, m). split; [done|]. unfold overlaps. cbn. lia.
      * replace p with (length (visible_text gone) + j)%nat by lia. rewrite <- Nat.add_assoc. apply overlaps_app_r. unfold overlaps. lia.
  - intros k t' Hk' Hv'. setoid_rewrite (overlaps_visible _ _ _ _ _ Hvis').
    destruct (decide (k < length gone)%nat) as [Hlt|Hge].
    + rewrite lookup_app_l in Hk' by done. apply (Hs k t'); [by rewrite lookup_app_l by done|done].
    + rewrite lookup_app_r in Hk' by lia. destruct (lookup_lt_is_Some_2 pending (k - length gone)) as [t Hk].
      { rewrite <- Hlen. by eapply lookup_lt_Some. }
      destruct (Htok _ t Hk) as (t'' & Ht'' & Hv & Hm & Hu). rewrite Hk' in Ht''. injection Ht'' as <-.
      assert ((gone ++ pending) !! k = Some t) as Hk0 by (by rewrite lookup_app_r by lia).
      destruct (decide (Exists (fun r => start_of pending (k - length gone) < r.1.2 /\ r.1.1 < start_of pending (S (k - length gone)))%nat ranges)) as [Hex|Hno].
      * apply Exists_exists in Hex as (r & Hr & Ho). right. split; [apply Hm; [congruence|]; right; exists r; done|].
        destruct (Hr2 r Hr) as (s & Hin & Hl). destruct r as [[a b] m]. cbn [fst snd] in *.
        destruct (literal_ranges_sound s _ a b (nonempty s Hin) Hl) as [-> Hocc].
        exists s, (length (visible_text gone) + a)%nat. split; [done|]. split; [rewrite visible_text_app; by apply occurs_app_r|].
        replace k with (length gone + (k - length gone))%nat by lia. rewrite <- Nat.add_assoc. by apply overlaps_app_r.
      * rewrite Hu; [apply (Hs k t); [done|congruence]|]. right. intros r Hr Ho. apply Hno, Exists_exists. by exists r.
Qed.
End Guard.

(** ** Cutting into tokens *)

Lemma characters_join s : Forall (fun c => is_unit c = true) s -> mjoin (characters s) = s /\ Forall (fun c => c <> []) (characters s).
Proof.
  unfold characters. induction s as [s IH] using (well_founded_induction (well_founded_ltof _ (@length Z))). intros H.
  destruct s as [|c [|d t]]; [by repeat constructor| |].
  - apply Forall_cons_1 in H as [Hc _]. unfold is_unit in Hc. apply andb_true_iff in Hc as [_ Hc%Z.ltb_lt].
    cbn. unfold utf16_scalar. rewrite (proj2 (Z.ltb_lt c 65536)) by done. split; [done|]. by repeat constructor.
  - change (code_points (c :: d :: t)) with
      (if is_high c && is_low d then (65536 + (c - 55296) * 1024 + (d - 56320)) :: code_points t else c :: code_points (d :: t)). apply Forall_cons_1 in H as [Hc H]. destruct (is_high c && is_low d) eqn:E.
    + apply Forall_cons_1 in H as [Hd H]. destruct (IH t) as [H1 H2]; [unfold ltof; cbn; lia|done|].
      change (mjoin (utf16_scalar <$> ?x :: ?l)) with (utf16_scalar x ++ mjoin (utf16_scalar <$> l)).
      rewrite H1. apply andb_true_iff in E as [Eh El]. unfold is_high, is_low in Eh, El.
      apply andb_true_iff in Eh as [?%Z.leb_le ?%Z.ltb_lt], El as [?%Z.leb_le ?%Z.ltb_lt].
      assert (utf16_scalar (65536 + (c - 55296) * 1024 + (d - 56320)) = [c; d]) as ->.
      { unfold utf16_scalar. rewrite (proj2 (Z.ltb_ge _ 65536)) by lia. f_equal; [|f_equal].
        - replace (65536 + (c - 55296) * 1024 + (d - 56320) - 65536) with ((c - 55296) * 1024 + (d - 56320)) by lia.
          rewrite Z.div_add_l, Z.div_small by lia. lia.
        - replace (65536 + (c - 55296) * 1024 + (d - 56320) - 65536) with ((d - 56320) + (c - 55296) * 1024) by lia.
          rewrite Z.mod_add, Z.mod_small by lia. lia. }
      split; [done|]. rewrite fmap_cons. constructor; [|done].
      unfold utf16_scalar. by destruct (_ <? _).
    + destruct (IH (d :: t)) as [H1 H2]; [unfold ltof; cbn; lia|done|].
      change (mjoin (utf16_scalar <$> ?x :: ?l)) with (utf16_scalar x ++ mjoin (utf16_scalar <$> l)). rewrite H1.
      unfold is_unit in Hc. apply andb_true_iff in Hc as [_ Hc%Z.ltb_lt].
      assert (utf16_scalar c = [c]) as Ec by (unfold utf16_scalar; by rewrite (proj2 (Z.ltb_lt c 65536)) by done).
      rewrite fmap_cons, Ec. split; [done|]. by constructor.
Qed.

(** Two sanitizers in the same place of the stream. *)
Definition same_place (s cl : Sanitizer) : Prop :=
  control s = control cl /\ controlKind s = controlKind cl /\ stringEsc s = stringEsc cl.

(** A token as it arrives: a control with its secrets replaced, or a character. *)
Definition arrives (ss : list jstring) (o t : Token) : Prop :=
  visible t = visible o /\
  (visible o = [] -> raw t = foldl replace_secret (raw o) ss) /\ (visible o <> [] -> raw t = visible o /\ raw o = visible o).

(** A step of two sanitizers in the same place, of which one has no secrets. *)
Record locked (s cl : Sanitizer) : Prop := {
  lk_place : same_place s cl;
  lk_idle : controlKind cl = None -> control cl = [];
  lk_patterns : patterns (policy s) = [] /\ patterns (policy cl) = [];
  lk_clean : secrets cl = [];
}.

Record lockstep (cs : list jstring) (s cl s' cl' : Sanitizer) : Prop := {
  ls_locked : locked s' cl';
  ls_policy : policy s' = policy s;
  ls_secrets : secrets s' = secrets s;
  ls_tokens : exists new newc, tokens s' = tokens s ++ new /\ tokens cl' = tokens cl ++ newc /\
    Forall2 (arrives (secrets s)) newc new /\ flushed_text newc ++ control cl' = control cl ++ mjoin cs;
}.

Lemma finishControl_lock c s cl :
  locked s cl -> exists s' cl', finishControl (set_control (control s ++ c) (controlKind s) (stringEsc s) s) = (Ok tt, s') /\
    finishControl (set_control (control cl ++ c) (controlKind cl) (stringEsc cl) cl) = (Ok tt, cl') /\ lockstep [c] s cl s' cl'.
Proof.
  intros [(E1 & E2 & E3) Hi [P1 P2] Hc]. unfold finishControl, sanitizeControl. cbn [policy set_control control secrets].
  rewrite P1, P2, Hc. cbn [replace_patterns foldl]. do 2 eexists. split; [done|]. split; [done|]. split; try done.
  do 2 eexists. split; [done|]. split; [done|]. split.
  - constructor; [|constructor]. split; [done|]. split; [|done]. intros _. cbn. by rewrite E1.
  - unfold flushed_text. cbn. by rewrite !app_nil_r.
Qed.

Lemma token_step_lock c s cl :
  c <> [] -> locked s cl ->
  exists s' cl', token_step c s = (Ok tt, s') /\ token_step c cl = (Ok tt, cl') /\ lockstep [c] s cl s' cl'.
Proof.
  intros Hne H. pose proof H as [(E1 & E2 & E3) Hi [P1 P2] Hc]. unfold token_step. rewrite E2.
  assert (forall k e, exists s' cl', set_control (control s ++ c) k e s = s' /\ set_control (control cl ++ c) k e cl = cl' /\
    (k <> None -> lockstep [c] s cl s' cl')) as Hmore.
  { intros k e. do 2 eexists. split; [done|]. split; [done|]. intros Hk. split; try done.
    - split; [by split; [cbn; rewrite E1|]|done|done|done].
    - exists [], []. rewrite !app_nil_r. split; [done|]. split; [done|]. split; [constructor|]. cbn. by rewrite app_nil_r. }
  destruct (controlKind cl) as [k|] eqn:Ek.
  - destruct (finishControl_lock c s cl H) as (sf & clf & Hf1 & Hf2 & Hf). rewrite E2 in Hf1. rewrite Ek in Hf2.
    destruct k; cbn [control stringEsc set_control].
    + destruct (decide (c = [91])); [destruct (Hmore (Some k_csi) (stringEsc s)) as (? & ? & <- & <- & Hl);
        do 2 eexists; split; [done|]; split; [by rewrite <- E3|by apply Hl]|].
      destruct (decide (c ∈ _)); [destruct (Hmore (Some k_string) (stringEsc s)) as (? & ? & <- & <- & Hl);
        do 2 eexists; split; [done|]; split; [by rewrite <- E3|by apply Hl]|]. eauto.
    + destruct (between 64 _ 126); [eauto|]. destruct (Hmore (Some k_csi) (stringEsc s)) as (? & ? & <- & <- & Hl).
      do 2 eexists; split; [done|]; split; [by rewrite <- E3|by apply Hl].
    + destruct (decide (c = [7])); [eauto|].
      replace (stringEsc s && bool_decide (c = [92])) with (stringEsc cl && bool_decide (c = [92])) by by rewrite E3.
      destruct (stringEsc cl && _); [eauto|].
      destruct (Hmore (Some k_string) (bool_decide (c = [27]))) as (? & ? & <- & <- & Hl).
      do 2 eexists; split; [done|]; split; [done|by apply Hl].
  - specialize (Hi eq_refl). destruct (decide (c = [27])) as [->|Hesc].
    + do 2 eexists. split; [done|]. split; [done|]. split; try done.
      exists [], []. rewrite !app_nil_r. split; [done|]. split; [done|]. split; [constructor|]. cbn. by rewrite Hi.
    + do 2 eexists. split; [done|]. split; [done|]. split; [split; [by split_and!; cbn; congruence|intros _; exact Hi|done|done]|done|done|].
      do 2 eexists. split; [done|]. split; [done|]. split.
      * constructor; [|constructor]. split; [done|]. split; [by intros ?|done].
      * cbn. by rewrite Hi, !app_nil_r.
Qed.

Lemma tokenize_lock cs s cl :
  Forall (fun c => c <> []) cs -> locked s cl ->
  exists s' cl', tokenize_from cs s = (Ok tt, s') /\ tokenize_from cs cl = (Ok tt, cl') /\ lockstep cs s cl s' cl'.
Proof.
  intros Hcs. revert s cl. induction Hcs as [|c cs Hc Hcs IH]; intros s cl H.
  - exists s, cl. split; [done|]. split; [done|]. split; try done. exists [], []. rewrite !app_nil_r. split; [done|]. split; [done|].
    split; [constructor|done].
  - destruct (token_step_lock c s cl Hc H) as (s1 & cl1 & T1 & T2 & [L1 Q1 S1 (n1 & c1 & N1 & C1 & F1 & X1)]).
    destruct (IH s1 cl1 L1) as (s2 & cl2 & T3 & T4 & [L2 Q2 S2 (n2 & c2 & N2 & C2 & F2 & X2)]).
    exists s2, cl2. cbn [tokenize_from]. rewrite T1, T2. split; [done|]. split; [done|]. split; [done|congruence|congruence|].
    exists (n1 ++ n2), (c1 ++ c2). rewrite N2, C2, N1, C1, <- !app_assoc. split; [done|]. split; [done|]. split.
    + apply Forall2_app; [done|]. by rewrite <- S1.
    + unfold flushed_text in *. rewrite fmap_app, join_app, <- app_assoc, X2. cbn in X1. rewrite app_nil_r in X1.
      rewrite app_assoc, X1, <- app_assoc. done.
Qed.

(** ** Releasing tokens *)

Lemma visible_text_cons t ts : visible_text (t :: ts) = visible t ++ visible_text ts.
Proof. done. Qed.

Lemma flush_count_bound fv seen ts :
  (seen <= fv)%nat -> (seen + length (visible_text (take (flush_count fv seen ts) ts)) <= fv)%nat.
Proof.
  revert seen. induction ts as [|t ts IH]; intros seen Hs; cbn [flush_count]; [cbn; lia|].
  destruct (negb (bool_decide (visible t = [])) && (fv <? seen + length (visible t))%nat) eqn:E; [cbn; lia|].
  cbn [take]. rewrite visible_text_cons, length_app.
  assert (seen + length (visible t) <= fv)%nat as Hle.
  { apply andb_false_iff in E as [Hv%negb_false_iff%bool_decide_eq_true|Hv%Nat.ltb_ge]; [rewrite Hv; cbn; lia|done]. }
  specialize (IH _ Hle). lia.
Qed.

Lemma flush_count_all fv seen ts : (seen + length (visible_text ts) <= fv)%nat -> flush_count fv seen ts = length ts.
Proof.
  revert seen. induction ts as [|t ts IH]; intros seen Hs; cbn [flush_count length]; [done|].
  rewrite visible_text_cons, length_app in Hs.
  rewrite (proj2 (Nat.ltb_ge fv (seen + length (visible t)))) by lia. rewrite andb_false_r, IH by lia. done.
Qed.

Lemma flushed_text_app ts us : flushed_text (ts ++ us) = flushed_text ts ++ flushed_text us.
Proof. unfold flushed_text. by rewrite fmap_app, join_app. Qed.

(** ** Runs *)

Section Run.
Context (graphemes : jstring -> list jstring) (measureTextCellWidth : jstring -> Z).

Fixpoint pushes (chunks : list jstring) (s : Sanitizer) : result TraceErrorCode (jstring * Sanitizer) :=
  match chunks with
  | [] => Ok ([], s)
  | c :: chunks =>
      match push graphemes measureTextCellWidth c s with
      | (Err e, _) => Err e
      | (Ok out, s) => '(rest, s) ← pushes chunks s; Ok (out ++ rest, s)
      end
  end.

(** What is recorded of a stream that arrives in chunks. *)
Definition recorded_text (p : ResolvedArtifactSecurityPolicy) (chunks : list jstring) : result TraceErrorCode jstring :=
  '(out, s) ← pushes chunks (newSanitizer p);
  tail ← (finish graphemes measureTextCellWidth s).1;
  Ok (out ++ tail).

(** The tokens of the stream itself: a sanitizer that knows no secrets. *)
Definition unguarded : Sanitizer :=
  {| policy := {| mode := redacted; p_secrets := []; patterns := []; maxTerminalPendingBytes := 0 |};
     secrets := []; tokens := []; control := []; controlKind := None; stringEsc := false |}.
Definition originals (chunks : list jstring) : Sanitizer := foldl (fun s c => (tokenize c s).2) unguarded chunks.

(** A recorded token of an original one. *)
Definition derived (ss : list jstring) (o t : Token) : Prop :=
  visible t = visible o /\
  (visible o = [] -> raw t = foldl replace_secret (raw o) ss) /\ (visible o <> [] -> raw o = visible o).

Context (p : ResolvedArtifactSecurityPolicy).
Hypothesis redacting : mode p = redacted.
Hypothesis no_patterns : patterns p = [].
Abbreviation ss := (secrets (newSanitizer p)).
Abbreviation masks := (maskGeometry graphemes measureTextCellWidth <$> ss).
Definition keep_of : nat := Z.to_nat (Z.max 0 (longestSecret (newSanitizer p) - 1)).

Lemma registered : policy (newSanitizer p) = p /\ Forall (fun s => s <> []) ss /\ locked (newSanitizer p) unguarded /\ tokens (newSanitizer p) = [].
Proof.
  assert (forall vs s, policy (foldl (fun s v => register v s) s vs) = policy s /\
    tokens (foldl (fun s v => register v s) s vs) = tokens s /\ control (foldl (fun s v => register v s) s vs) = control s /\
    controlKind (foldl (fun s v => register v s) s vs) = controlKind s /\ stringEsc (foldl (fun s v => register v s) s vs) = stringEsc s /\
    (Forall (fun x => x <> []) (secrets s) -> Forall (fun x => x <> []) (secrets (foldl (fun s v => register v s) s vs)))) as H.
  { induction vs as [|v vs IH]; intros s; [done|]. cbn [foldl]. destruct (IH (register v s)) as (-> & -> & -> & -> & -> & Hn).
    do 5 (split; [done|]). intros Hs. apply Hn. cbn [register secrets]. clear -Hs. revert Hs. generalize (secrets s) (split_lines [] v).
    intros acc lines. revert acc. induction lines as [|l lines IH]; intros acc Hacc; [done|]. cbn [foldl]. apply IH.
    destruct l as [|c l]; [done|]. case_decide; [done|]. apply Forall_app. split; [done|]. by repeat constructor. }
  unfold newSanitizer. destruct (H (p_secrets p) {| policy := p; secrets := []; tokens := []; control := []; controlKind := None; stringEsc := false |})
    as (E1 & E2 & E3 & E4 & E5 & E6). split; [done|]. split; [apply E6; constructor|]. split; [|done].
  split; [split_and!; by rewrite ?E3, ?E4, ?E5|done|by rewrite E1|done].
Qed.

Lemma longest_enough : Forall (fun s => (length s <= keep_of + 1)%nat) ss.
Proof.
  assert (forall l m, m <= foldl Z.max m l /\ Forall (fun x => x <= foldl Z.max m l) l) as H.
  { induction l as [|x l IH]; intros m; cbn; [split; [lia|constructor]|]. destruct (IH (Z.max m x)) as [H1 H2]. split; [lia|].
    constructor; [lia|done]. }
  unfold keep_of, longestSecret. destruct registered as (-> & _). rewrite no_patterns. cbn [fmap list_fmap foldl].
  destruct (H ((fun x => Z.of_nat (length x)) <$> ss) 1) as [_ Hl]. rewrite Forall_fmap in Hl. eapply Forall_impl; [exact Hl|].
  cbn. intros s Hs. lia.
Qed.

(** Where the recording stands after some chunks: [gone] was released. *)
Record stands (chunks : list jstring) (gone : list Token) (s : Sanitizer) : Prop := {
  st_policy : policy s = p;
  st_secrets : secrets s = ss;
  st_locked : locked s (originals chunks);
  st_text : flushed_text (tokens (originals chunks)) ++ control (originals chunks) = mjoin chunks;
  st_derived : Forall2 (derived ss) (tokens (originals chunks)) (gone ++ tokens s);
  st_guarded : guarded ss masks (gone ++ tokens s) (length (visible_text (gone ++ tokens s)));
  st_hold : (length (visible_text gone) <= length (visible_text (gone ++ tokens s)) - keep_of)%nat;
}.

Lemma stands_start : stands [] [] (newSanitizer p).
Proof.
  destruct registered as (E1 & E2 & E3 & E4). split; try done; rewrite ?E4; cbn; try done.
  - split; [|by intros]. intros s q Hs Ho Hq. rewrite Forall_forall in E2. specialize (E2 s Hs). destruct s; [done|]. cbn in Hq. lia.
Qed.

(** Masking the pending tokens of a standing sanitizer. *)
Lemma redactPending_ok s :
  policy s = p -> secrets s = ss ->
  exists ts', redactPending graphemes measureTextCellWidth s = Ok ts' /\
    exists ranges, masking masks ranges (tokens s) ts' /\
      (forall x r, x ∈ ss -> r ∈ literal_ranges x (visible_text (tokens s)) -> exists m, (r, m) ∈ ranges) /\
      (forall r, r ∈ ranges -> exists x, x ∈ ss /\ r.1 ∈ literal_ranges x (visible_text (tokens s))).
Proof.
  intros Hp Hs. unfold redactPending. rewrite Hp, no_patterns, Hs. cbn [pattern_ranges mbind result_bind]. rewrite app_nil_r.
  set (text := visible_text (tokens s)). set (ranges := secret_ranges _ _ text ss).
  assert (forall r, r ∈ ranges <-> exists x, x ∈ ss /\ r.1 ∈ literal_ranges x text /\ r.2 = maskGeometry graphemes measureTextCellWidth x) as Hr.
  { intros r. unfold ranges, secret_ranges. rewrite list_elem_of_join. setoid_rewrite list_elem_of_fmap. split.
    - intros (l & Hl & x & -> & Hx). apply list_elem_of_fmap in Hl as (ab & -> & Hab). by exists x.
    - intros (x & Hx & Hab & Hm). eexists. split; [|by exists x]. apply list_elem_of_fmap. exists r.1. split; [|done].
      destruct r; cbn in *. by rewrite Hm. }
  assert (sort_on (fun r => - Z.of_nat r.1.1) ranges ≡ₚ ranges) as Hperm by apply sort_on_Permutation.
  eexists. split; [done|]. exists (sort_on (fun r => - Z.of_nat r.1.1) ranges). split_and!.
  - apply masking_fold. rewrite Hperm, Forall_forall. intros r (x & Hx & _ & ->)%Hr. by apply list_elem_of_fmap_2.
  - intros x r Hx Hl. exists (maskGeometry graphemes measureTextCellWidth x). rewrite Hperm. apply Hr. by exists x.
  - intros r Hin. rewrite Hperm in Hin. apply Hr in Hin as (x & Hx & Hl & _). by exists x.
Qed.

Lemma masking_derived ranges gone os ts ts' :
  Forall2 (derived ss) os (gone ++ ts) -> masking masks ranges ts ts' -> Forall2 (derived ss) os (gone ++ ts').
Proof.
  intros H [Hv Ht]. assert (length ts' = length ts) as Hl by (apply (f_equal length) in Hv; by rewrite !length_fmap in Hv).
  apply Forall2_same_length_lookup_2.
  { apply Forall2_length in H. rewrite length_app in *. lia. }
  intros k o t' Ho Ht'. destruct (Forall2_lookup_l _ _ _ _ _ H Ho) as (t & H1 & Hd).
  destruct (decide (k < length gone)%nat) as [Hlt|Hge].
  - rewrite lookup_app_l in Ht' by done. rewrite lookup_app_l in H1 by done. congruence.
  - rewrite lookup_app_r in H1, Ht' by lia. destruct (Ht _ t H1) as (t2 & E & Hv2 & _ & Hu). rewrite Ht' in E. injection E as <-.
    destruct Hd as (D1 & D2 & D3). split; [congruence|]. split; [|done]. intros E0. rewrite (Hu ltac:(left; congruence)). auto.
Qed.
Lemma keep_same s : policy s = p -> secrets s = ss -> Z.to_nat (Z.max 0 (longestSecret s - 1)) = keep_of.
Proof. intros Hp Hs. unfold keep_of, longestSecret. destruct registered as (-> & _). by rewrite Hp, Hs. Qed.

Lemma arrives_derived os ts : Forall2 (arrives ss) os ts -> Forall2 (derived ss) os ts /\ Forall (fun t => visible t = [] \/ raw t = visible t) ts.
Proof.
  induction 1 as [|o t os ts (H1 & H2 & H3) H [IH1 IH2]]; [by split|]. split; constructor; try done.
  - split; [done|]. split; [done|]. intros Hne. by apply H3.
  - destruct (decide (visible o = [])) as [E|E]; [left; congruence|]. right. destruct (H3 E). congruence.
Qed.

(** Masking and then releasing a prefix of what is pending. *)
Lemma stands_flush chunks gone s n count ts' :
  policy s = p -> secrets s = ss -> locked s (originals chunks) ->
  flushed_text (tokens (originals chunks)) ++ control (originals chunks) = mjoin chunks ->
  Forall2 (derived ss) (tokens (originals chunks)) (gone ++ ts') ->
  guarded ss masks (gone ++ ts') (length (visible_text (gone ++ ts'))) ->
  (length (visible_text gone) <= n - keep_of)%nat -> (n <= length (visible_text (gone ++ ts')))%nat ->
  (length (visible_text (take count ts')) <= length (visible_text ts') - keep_of)%nat ->
  stands chunks (gone ++ take count ts') (set_tokens (drop count ts') s).
Proof.
  intros Hp Hs Hl Ht Hd Hg Hh Hn Hc. split; cbn [set_tokens policy secrets tokens]; rewrite <- ?app_assoc, ?take_drop; try done.
  - destruct Hl as [[? [? ?]] ? ? ?]. by split.
  - rewrite !visible_text_app, !length_app in *. lia.
Qed.

Lemma stands_push chunks gone s text out s' :
  stands chunks gone s -> Forall (fun c => is_unit c = true) text ->
  push graphemes measureTextCellWidth text s = (Ok out, s') ->
  exists g, out = flushed_text g /\ stands (chunks ++ [text]) (gone ++ g) s'.
Proof.
  intros [Hp Hs Hl Ht Hd Hg Hh] Hu H. destruct (characters_join text Hu) as [Hj Hne]. unfold push in H. rewrite Hp, redacting in H.
  destruct (tokenize_lock (characters text) s (originals chunks) Hne Hl) as (s1 & cl1 & T1 & T2 & [L1 Q1 S1 (new & newc & N1 & C1 & F1 & X1)]).
  unfold tokenize in H. rewrite T1 in H. rewrite Hs in F1.
  assert (originals (chunks ++ [text]) = cl1) as Hor.
  { unfold originals. rewrite foldl_app. cbn [foldl]. fold (originals chunks). unfold tokenize. by rewrite T2. }
  destruct (redactPending_ok s1) as (ts' & R1 & ranges & Hm & Hr1 & Hr2); [congruence|congruence|]. rewrite R1 in H.
  destruct (arrives_derived newc new F1) as [Hd1 Hfresh].
  assert (visible_text (gone ++ ts') = visible_text (gone ++ tokens s1)) as Hvis.
  { unfold visible_text. by rewrite !fmap_app, (mk_visible _ _ _ _ Hm). }
  destruct (assertBounded _); [|done]. unfold flush_tokens in H. cbn [tokens set_tokens] in H.
  rewrite keep_same in H by (cbn; congruence). injection H as <- <-. eexists. split; [done|]. rewrite <- Q1 in Hp.
  destruct registered as (_ & Hnonempty & _).
  eapply (stands_flush (chunks ++ [text]) gone _ (length (visible_text (gone ++ tokens s))));
    rewrite ?Hor; cbn [policy secrets set_tokens]; try done.
  - congruence.
  - destruct L1 as [[? [? ?]] ? ? ?]. by split.
  - rewrite C1, flushed_text_app, <- app_assoc, X1, app_assoc, Ht, Hj, join_app. cbn. by rewrite app_nil_r.
  - eapply masking_derived; [|exact Hm]. rewrite C1, N1, app_assoc. by apply Forall2_app.
  - eapply guarded_masking; [done|apply longest_enough| |exact Hh|done|done|done].
    rewrite N1, app_assoc. apply guarded_append; [done|done|lia|done].
  - rewrite Hvis, N1, app_assoc, (visible_text_app (gone ++ tokens s)), length_app. lia.
  - pose proof (flush_count_bound (length (visible_text ts') - keep_of) 0 ts' ltac:(lia)). lia.
Qed.
Lemma stands_pushes more chunks gone s out s' :
  stands chunks gone s -> Forall (Forall (fun c => is_unit c = true)) more -> pushes more s = Ok (out, s') ->
  exists g, out = flushed_text g /\ stands (chunks ++ more) (gone ++ g) s'.
Proof.
  revert chunks gone s out. induction more as [|c more IH]; intros chunks gone s out H Hu E; cbn [pushes] in E.
  - injection E as <- <-. exists []. rewrite !app_nil_r. done.
  - apply Forall_cons_1 in Hu as [Hc Hu]. destruct (push graphemes measureTextCellWidth c s) as [[o|e] s1] eqn:Ep; [|done].
    destruct (pushes more s1) as [[rest s2]|] eqn:Er; [|done]. cbn in E. injection E as <- <-.
    destruct (stands_push _ _ _ _ _ _ H Hc Ep) as (g1 & -> & H1). destruct (IH _ _ _ _ H1 Hu Er) as (g2 & -> & H2).
    exists (g1 ++ g2). rewrite flushed_text_app. split; [done|]. by rewrite <- app_assoc in H2; rewrite app_assoc.
Qed.

Lemma stands_finish chunks gone s out :
  stands chunks gone s -> (finish graphemes measureTextCellWidth s).1 = Ok out ->
  exists g, out = flushed_text g /\ control (originals chunks) = [] /\
    Forall2 (derived ss) (tokens (originals chunks)) (gone ++ g) /\ guarded ss masks (gone ++ g) (length (visible_text (gone ++ g))).
Proof.
  intros [Hp Hs Hl Ht Hd Hg Hh] H. unfold finish in H. rewrite Hp, redacting in H.
  destruct (control s) as [|c0 c1] eqn:Ec; [|done].
  destruct (redactPending_ok s Hp Hs) as (ts' & R1 & ranges & Hm & Hr1 & Hr2). rewrite R1 in H. unfold flush_tokens in H.
  cbn [tokens set_tokens fst] in H. rewrite Nat.sub_0_r, flush_count_all in H by lia. rewrite take_ge in H by done. cbn in H. injection H as <-.
  exists ts'. split; [done|]. split; [destruct Hl as [[E _] _ _ _]; congruence|]. split; [by eapply masking_derived|].
  destruct registered as (_ & Hne & _). eapply guarded_masking; [done|apply longest_enough|exact Hg|exact Hh|done|done|done].
Qed.
End Run.

(** C27 No registered secret is recorded whole: when output is recorded under a
    redacting policy with secrets and no patterns, in chunks cut anywhere, and
    the recording is not refused, what is written is token by token
    what arrived: control sequences in place with the secrets in them replaced,
    and the visible characters, of which every occurrence of a secret, also one
    interrupted by control sequences or split over chunks, has lost at least one
    to a mask, while no character outside an occurrence is touched. *)
Theorem secrets_never_recorded graphemes measureTextCellWidth p chunks out :
  mode p = redacted -> patterns p = [] -> Forall (Forall (fun c => is_unit c = true)) chunks ->
  recorded_text graphemes measureTextCellWidth p chunks = Ok out ->
  let ss := secrets (newSanitizer p) in
  exists ts, out = flushed_text ts /\ flushed_text (tokens (originals chunks)) = mjoin chunks /\
    Forall2 (derived ss) (tokens (originals chunks)) ts /\
    guarded ss (maskGeometry graphemes measureTextCellWidth <$> ss) ts (length (visible_text ts)).
Proof.
  intros Hm Hp Hu H ss. unfold recorded_text in H.
  destruct (pushes graphemes measureTextCellWidth chunks (newSanitizer p)) as [[o s]|] eqn:E; [|done]. cbn in H.
  destruct (finish graphemes measureTextCellWidth s).1 as [tail|] eqn:Ef; [|done]. cbn in H. injection H as <-.
  destruct (stands_pushes _ _ p Hm Hp _ _ _ _ _ _ (stands_start _ _ p Hp) Hu E) as (g1 & -> & Hs). cbn [app] in Hs.
  destruct (stands_finish _ _ p Hm Hp _ _ _ _ Hs Ef) as (g2 & -> & Hc & Hd & Hg). exists (g1 ++ g2).
  split; [by rewrite flushed_text_app|]. split; [|done]. pose proof (st_text _ _ _ _ _ _ Hs) as Ht. by rewrite Hc, app_nil_r in Ht.
Qed.

(** ** The fuel of a search *)

Lemma advance_gt unicode text i : (i < advance unicode text i)%nat.
Proof. unfold advance. destruct (text !! i), (text !! S i); try destruct (_ && _); lia. Qed.

(** More fuel than the text is long finds nothing more. *)
Lemma all_matches_ext p text fuel fuel' from :
  forward (pattern p) -> (length text + 2 <= from + fuel)%nat -> (0 < fuel)%nat -> (fuel <= fuel')%nat ->
  all_matches fuel p text from = all_matches fuel' p text from.
Proof.
  intros Hr. revert fuel' from. induction fuel as [|fuel IH]; intros fuel' from Hf Hpos Hle; [lia|].
  destruct fuel' as [|fuel']; [lia|]. cbn [all_matches].
  destruct (Nat.ltb_spec (length text) from) as [Hlt|Hge]; [done|].
  destruct (exec (pattern p) text from) as [[i n]|] eqn:E; [|done]. apply Hr in E as [Hi Hn]. f_equal.
  pose proof (advance_gt (p_unicode p) text i). destruct n as [|n]; cbn [Nat.eqb]; apply IH; lia.
Qed.

(** ** A recording *)

Definition redact (secrets : list jstring) (ps : list ArtifactRedactionPattern) : ResolvedArtifactSecurityPolicy :=
  {| mode := redacted; p_secrets := secrets; patterns := ps; maxTerminalPendingBytes := 1024 |}.
Definition letters (s : jstring) : list jstring := (fun c => [c]) <$> s.
Definition record (p : ResolvedArtifactSecurityPolicy) (chunks : list jstring) : result TraceErrorCode jstring :=
  recorded_text letters (fun s => Z.of_nat (length s)) p chunks.

(** A secret in three chunks and two colours. *)
Lemma secrets_never_recorded_witness :
  let p := redact [js "SECRET"] [] in
  let chunks := [js "a S"; [27] ++ js "[31mE" ++ [27]; js "[0mCRET b"] in
  record p chunks = Ok (js "a " ++ repeat 9608 6 ++ [27] ++ js "[31m" ++ [27] ++ js "[0m b") /\
  exists ts, js "a " ++ repeat 9608 6 ++ [27] ++ js "[31m" ++ [27] ++ js "[0m b" = flushed_text ts /\
    flushed_text (tokens (originals chunks)) = mjoin chunks /\
    Forall2 (derived [js "SECRET"]) (tokens (originals chunks)) ts /\
    guarded [js "SECRET"] [repeat 9608 6] ts (length (visible_text ts)).
Proof.
  intros p chunks. split; [by vm_compute|].
  apply (secrets_never_recorded letters (fun s => Z.of_nat (length s)) p chunks); [done|done| |by vm_compute].
  repeat constructor.
Defined.

(** ** What passes *)

(** A character set is designated by three characters, [ESC ( B]; the third is
    taken for text, so a secret around it is not recognised, though the terminal
    shows it. *)
Example designation_hides_secret :
  record (redact [js "SECRET"] []) [js "SEC" ++ [27] ++ js "(BRET"] = Ok (js "SEC" ++ [27] ++ js "(BRET").
Proof. by vm_compute. Qed.

(** [/token=[A-Z]+/] without the global flag: every match is masked in the text,
    but only the first in a control sequence. *)
Fixpoint token_search (fuel : nat) (text : jstring) (from : nat) : option (nat * nat) :=
  match fuel with
  | O => None
  | S fuel =>
      i ← index_of (js "token=") (drop from text);
      match (span (fun c => between 65 c 90) (drop (from + i + 6) text)).1 with
      | [] => token_search fuel text (from + i + 1)
      | run => Some ((from + i)%nat, (6 + length run)%nat)
      end
  end.
Definition token_pattern : ArtifactRedactionPattern :=
  {| pattern := {| exec := fun text from => token_search (S (length text)) text from |}; p_global := false; p_unicode := true;
     maxMatchChars := 16 |}.

Example second_match_passes :
  record (redact [] [token_pattern]) [js "token=A token=B"] = Ok (repeat 9608 7 ++ js " " ++ repeat 9608 7) /\
  record (redact [] [token_pattern]) [[27] ++ js "]0;token=A token=B" ++ [7]] = Ok ([27] ++ js "]0;[redacted] token=B" ++ [7]).
Proof. by vm_compute. Qed.
