(* ===== verification/CapabilityGraph.v ===== *)
(** * The capability graph (packages/protocol/src/capability-graph.ts)

    Which facts of producers make which frozen session capabilities, and which
    session and runtime nodes a strategy or public consumer needs.  The tables are
    those of the source, with its ids as text; the functions that read them are
    stated for a graph [g] and used with [CAPABILITY_GRAPH]. *)

From stdpp Require Import sorting.
From S2P Require Import Prelude JsObject.


(** ** Vocabulary *)

Definition CAPABILITY_GRAPH_VERSION : Z := 5.

Inductive CapabilityNodeCategory : Set := evidence | input | planning | synchronization | diagnostic.
Inductive CapabilityNodeLayer : Set := producer | session | runtime | strategy | public.
Inductive CapabilityEdgeKind : Set := produces | requires | requires_any | runtime_requires | diagnoses.

Global Instance CapabilityNodeCategory_eq_dec : EqDecision CapabilityNodeCategory.
Proof. solve_decision. Defined.
Global Instance CapabilityNodeLayer_eq_dec : EqDecision CapabilityNodeLayer.
Proof. solve_decision. Defined.
Global Instance CapabilityEdgeKind_eq_dec : EqDecision CapabilityEdgeKind.
Proof. solve_decision. Defined.

Definition CAPABILITY_NODE_CATEGORIES : list CapabilityNodeCategory := [evidence; input; planning; synchronization; diagnostic].
Definition CAPABILITY_NODE_LAYERS : list CapabilityNodeLayer := [producer; session; runtime; strategy; public].
Definition CAPABILITY_EDGE_KINDS : list CapabilityEdgeKind := [produces; requires; requires_any; runtime_requires; diagnoses].

Definition ADAPTER_CAPABILITIES : list string := [
  "tree"; "intended-geometry"; "clipped-geometry"; "states"; "focus-state"; "actions"; "action-recipes";
  "text-ranges"; "render-revisions"; "logs"; "pointer-hit-grid"; "incremental-tree"].

Definition PROBE_CAPABILITIES : list string := [
  "stable-identity"; "intended-rect"; "visible-rect"; "operations"; "annotations"; "frame-begin";
  "paint-order"].

Definition EVIDENCE_PROVIDER_CAPABILITIES : list string := [
  "pointer-regions"; "hit-test"; "focus-state"; "action-recipes"; "scroll-state"; "painted-regions";
  "terminal-input-modes"].

Definition EVIDENCE_PROVIDER_TYPES : list string := [
  "pointer-evidence"; "focus-evidence"; "action-strategy"; "scroll-evidence"; "paint-evidence";
  "input-mode-evidence"].

Definition SESSION_CAPABILITIES : list string := [
  "semantic-tree"; "stable-identity"; "intended-geometry"; "clipped-geometry"; "painted-region";
  "pointer-geometry"; "pointer-hit-testing"; "focus"; "scroll"; "render-order"; "action-strategies";
  "keyboard-input"; "pointer-input"; "focus-input"; "paired-revisions"].

Definition RUNTIME_PREREQUISITES : list string := [
  "writable-pty"; "terminal-input-modes-authoritative"; "mouse-reporting-enabled"; "mouse-motion-enabled";
  "focus-reporting-enabled"; "committed-observation"].

Definition PUBLIC_CAPABILITY_CONSUMERS : list string := [
  "locator.semantic-query"; "locator.semantic-scroll"; "locator.painted-region"; "condition.attached";
  "condition.displayed"; "condition.visible"; "condition.in-viewport"; "condition.focused";
  "condition.value"; "action.click"; "action.hover"; "action.drag"; "action.focus"; "action.activate";
  "action.type"; "action.fill"; "action.check"; "action.uncheck"; "device.keyboard"; "device.mouse";
  "device.window-focus"; "checkpoint"; "runner.inspector"; "trace.action"; "recorder.semantic-action";
  "mcp.semantic-action"; "runner.diagnostics"; "trace.diagnostics"].

Definition CAPABILITY_CONFORMANCE_CLAIMS : list string := [
  "claim.semantic-tree-authoritative"; "claim.stable-identity-authoritative";
  "claim.intended-geometry-authoritative"; "claim.clipped-geometry-authoritative";
  "claim.painted-region-authoritative"; "claim.pointer-region-authoritative";
  "claim.pointer-hit-test-authoritative"; "claim.focus-authoritative"; "claim.scroll-authoritative";
  "claim.render-order-authoritative"; "claim.action-strategy-authoritative"; "claim.keyboard-real-pty";
  "claim.pointer-real-pty"; "claim.focus-report-real-pty"; "claim.paired-revisions"; "claim.logs-diagnostic"].

Definition CONDITION_KINDS : list string := [
  "attached"; "detached"; "displayed"; "hidden"; "visible"; "in-viewport"; "offscreen"; "receives-pointer";
  "pointer-region"; "pointer-input"; "mouse-input-enabled"; "enabled"; "disabled"; "focused"; "checked";
  "selected"; "expanded"; "collapsed"; "value"; "not"; "all"; "any"].

(** ** Nodes and edges *)

(** The text of a node id: its family, a dot and its name. *)
Definition CapabilityNodeId : Type := string.

Inductive RemediationCode : Set :=
| select_certified_adapter | register_application_provider | enable_terminal_runtime
| wait_for_committed_observation | no_authoritative_producer.
Global Instance RemediationCode_eq_dec : EqDecision RemediationCode.
Proof. solve_decision. Defined.

Definition code_text (c : RemediationCode) : string :=
  match c with
  | select_certified_adapter => "select-certified-adapter"
  | register_application_provider => "register-application-provider"
  | enable_terminal_runtime => "enable-terminal-runtime"
  | wait_for_committed_observation => "wait-for-committed-observation"
  | no_authoritative_producer => "no-authoritative-producer"
  end.

Record CapabilityRemediation : Type := {
  code : RemediationCode;
  message : string;
  providerType : option string;
  runtimePrerequisite : option string;
}.

Record CapabilityGraphNode : Type := {
  id : CapabilityNodeId;
  category : CapabilityNodeCategory;
  layer : CapabilityNodeLayer;
  description : string;
  conformanceClaims : option (list string);
  conditions : option (list string);
  publicConsumer : option string;
  remediation : CapabilityRemediation;
}.

Record CapabilityGraphEdge : Type := edge {
  from : CapabilityNodeId;
  to : CapabilityNodeId;
  kind : CapabilityEdgeKind;
}.

Definition certified (m : string) : CapabilityRemediation :=
  {| code := select_certified_adapter; message := m; providerType := None; runtimePrerequisite := None |}.
Definition provider (type m : string) : CapabilityRemediation :=
  {| code := register_application_provider; message := m; providerType := Some type; runtimePrerequisite := None |}.
Definition runtime_remedy (prerequisite m : string) : CapabilityRemediation :=
  {| code := enable_terminal_runtime; message := m; providerType := None; runtimePrerequisite := Some prerequisite |}.
Definition settle : CapabilityRemediation :=
  {| code := wait_for_committed_observation;
     message := "Wait for one paired committed observation before using this capability.";
     providerType := None; runtimePrerequisite := None |}.

(** An object literal with neither conditions nor a public consumer. *)
Definition plainNode (i : CapabilityNodeId) (c : CapabilityNodeCategory) (l : CapabilityNodeLayer) (d : string)
    (claims : option (list string)) (r : CapabilityRemediation) : CapabilityGraphNode :=
  {| id := i; category := c; layer := l; description := d; conformanceClaims := claims; conditions := None;
     publicConsumer := None; remediation := r |}.

Definition same (a b : string) : bool := bool_decide (a = b).

Definition adapterNode (i : string) : CapabilityGraphNode :=
  plainNode ("adapter." +:+ i)
    (if same i "render-revisions" then synchronization else if same i "logs" then diagnostic else evidence) producer
    ("Certified adapter handshake fact: " +:+ i +:+ ".") None
    (certified ("Use an exact certified adapter which publishes " +:+ i +:+ ".")).

Definition probeNode (i : string) : CapabilityGraphNode :=
  plainNode ("probe." +:+ i)
    (if same i "frame-begin" then synchronization else if same i "operations" || same i "annotations" then diagnostic else evidence)
    producer ("Framework probe fact: " +:+ i +:+ ".") None
    (certified ("Use exact certified instrumentation which publishes " +:+ i +:+ ".")).

Definition providerNode (i : string) : CapabilityGraphNode :=
  plainNode ("provider." +:+ i) evidence producer ("Authoritative application production-router fact: " +:+ i +:+ ".") None
    (provider
       (if same i "action-recipes" then "action-strategy" else if same i "focus-state" then "focus-evidence"
        else if same i "scroll-state" then "scroll-evidence" else if same i "painted-regions" then "paint-evidence"
        else if same i "terminal-input-modes" then "input-mode-evidence" else "pointer-evidence")
       (if same i "action-recipes" then "Register an action-strategy provider backed by the application's production keybindings."
        else if same i "focus-state" then "Register a focus-evidence provider backed by the application's production focus manager."
        else if same i "scroll-state" then "Register a scroll-evidence provider backed by the application's production viewport model."
        else if same i "painted-regions" then "Register a paint-evidence provider backed by the application's production painter."
        else if same i "terminal-input-modes" then "Register an input-mode-evidence provider backed by the application's production terminal parser configuration."
        else "Register a pointer-evidence provider backed by the application's production router (" +:+ i +:+ ").")).

Definition terminalNodes : list CapabilityGraphNode := [
  plainNode "terminal.writable-pty" input producer
    "The native session owns a writable PTY input channel."
    (None) (runtime_remedy "writable-pty" "Launch the application in a writable real PTY.");
  plainNode "terminal.input-modes-observable" input producer
    "The terminal backend authoritatively observes application mouse modes."
    (None) (runtime_remedy "terminal-input-modes-authoritative" "Use a terminal backend that authoritatively observes terminal input modes.")].

Definition producerNodes : list CapabilityGraphNode :=
  (adapterNode <$> ADAPTER_CAPABILITIES) ++ (probeNode <$> PROBE_CAPABILITIES) ++
  (providerNode <$> EVIDENCE_PROVIDER_CAPABILITIES) ++ terminalNodes.

Definition sessionNode (i : string) (c : CapabilityNodeCategory) (claim : string) (r : CapabilityRemediation) : CapabilityGraphNode :=
  plainNode ("session." +:+ i) c session ("Frozen session capability: " +:+ i +:+ ".") (Some [claim]) r.

Definition sessionNodes : list CapabilityGraphNode := [
  sessionNode "semantic-tree" evidence "claim.semantic-tree-authoritative" (certified "Use a certified semantic adapter.");
  sessionNode "stable-identity" evidence "claim.stable-identity-authoritative" (certified "Use a certified retained-identity adapter or explicit SemanticKey contract.");
  sessionNode "intended-geometry" evidence "claim.intended-geometry-authoritative" (certified "Use an adapter instrumented at the authoritative layout/render boundary.");
  sessionNode "clipped-geometry" evidence "claim.clipped-geometry-authoritative" (certified "Use an adapter that publishes authoritative clipping.");
  sessionNode "painted-region" evidence "claim.painted-region-authoritative" (provider "paint-evidence" "Register a paint-evidence provider backed by the application's production painter.");
  sessionNode "pointer-geometry" evidence "claim.pointer-region-authoritative" (provider "pointer-evidence" "Register the application production pointer router as a pointer-evidence provider.");
  sessionNode "pointer-hit-testing" evidence "claim.pointer-hit-test-authoritative" (provider "pointer-evidence" "Register a pointer-evidence provider with authoritative hit testing.");
  sessionNode "focus" evidence "claim.focus-authoritative" (provider "focus-evidence" "Use a certified adapter with focus-state or register the application's production focus manager.");
  sessionNode "scroll" evidence "claim.scroll-authoritative" (provider "scroll-evidence" "Use a certified adapter with explicit scroll evidence or register the application's production viewport model.");
  sessionNode "render-order" evidence "claim.render-order-authoritative" (certified "Use a certified adapter which guarantees render order for every applicable semantic node.");
  sessionNode "action-strategies" planning "claim.action-strategy-authoritative" (provider "action-strategy" "Register the application's production keybindings as authoritative physical input recipes.");
  sessionNode "keyboard-input" input "claim.keyboard-real-pty" (runtime_remedy "writable-pty" "Launch in a writable real PTY.");
  sessionNode "pointer-input" input "claim.pointer-real-pty" (provider "input-mode-evidence" "Use a backend that observes terminal modes or register the application's authoritative production parser configuration.");
  sessionNode "focus-input" input "claim.focus-report-real-pty" (provider "input-mode-evidence" "Use a backend that observes terminal modes or register the application's authoritative production parser configuration.");
  sessionNode "paired-revisions" synchronization "claim.paired-revisions" (certified "Use an adapter with exact render revision markers.")].

Definition runtimeNodes : list CapabilityGraphNode := [
  plainNode "runtime.writable-pty" input runtime
    "PTY input remains writable."
    (None) (runtime_remedy "writable-pty" "Launch or retain a writable PTY.");
  plainNode "runtime.terminal-input-modes-authoritative" input runtime
    "Terminal mouse mode state is authoritative, either observed from VT output or supplied by the application's production parser."
    (None) (runtime_remedy "terminal-input-modes-authoritative" "Use a backend with authoritative terminal mouse mode tracking or register input-mode evidence.");
  plainNode "runtime.mouse-reporting-enabled" input runtime
    "The application currently enables compatible mouse reporting."
    (None) (runtime_remedy "mouse-reporting-enabled" "Enable terminal mouse reporting in the application.");
  plainNode "runtime.mouse-motion-enabled" input runtime
    "The application currently requests unpressed pointer motion."
    (None) (runtime_remedy "mouse-motion-enabled" "Enable terminal any-event mouse motion reporting for hover.");
  plainNode "runtime.focus-reporting-enabled" input runtime
    "The application currently enables terminal focus reports."
    (None) (runtime_remedy "focus-reporting-enabled" "Enable terminal focus reporting in the application.");
  plainNode "runtime.committed-observation" synchronization runtime
    "Semantic and VT evidence share one committed checkpoint."
    (None) (settle)].

Definition publicNode (consumer : string) (c : CapabilityNodeCategory) (cs claims : list string) : CapabilityGraphNode :=
  {| id := "public." +:+ consumer; category := c; layer := public; publicConsumer := Some consumer;
     description := "Public consumer " +:+ consumer +:+ "."; conditions := Some cs; conformanceClaims := Some claims;
     remediation := settle |}.

Definition strategyNodes : list CapabilityGraphNode := [
  plainNode "strategy.pointer-target" planning strategy
    "Resolve an authoritative safe physical pointer target."
    (None) (provider "pointer-evidence" "Provide authoritative pointer regions, optionally with hit testing.");
  plainNode "strategy.keyboard-activate" planning strategy
    "Activate through a framework-declared keyboard convention and real PTY input."
    (None) (certified "Expose an authoritative semantic keyboard action convention.");
  plainNode "strategy.pointer-activate" planning strategy
    "Activate through a planned real pointer click."
    (None) (provider "pointer-evidence" "Provide authoritative pointer evidence.");
  plainNode "strategy.focus-by-pointer" planning strategy
    "Focus using a real planned pointer action."
    (None) (provider "pointer-evidence" "Provide authoritative pointer evidence for the focus target.");
  plainNode "strategy.type-focused" planning strategy
    "Type only after authoritative element focus is known."
    (None) (certified "Use an adapter that guarantees focus state.")].

Definition publicNodes : list CapabilityGraphNode := [
  publicNode "locator.semantic-query" evidence
    []
    ["claim.semantic-tree-authoritative"];
  publicNode "locator.semantic-scroll" evidence
    []
    ["claim.scroll-authoritative"; "claim.paired-revisions"];
  publicNode "locator.painted-region" evidence
    []
    ["claim.painted-region-authoritative"; "claim.paired-revisions"];
  publicNode "condition.attached" evidence
    ["attached"; "detached"]
    ["claim.semantic-tree-authoritative"];
  publicNode "condition.displayed" evidence
    ["displayed"; "hidden"]
    ["claim.semantic-tree-authoritative"];
  publicNode "condition.visible" evidence
    ["visible"]
    ["claim.clipped-geometry-authoritative"];
  publicNode "condition.in-viewport" evidence
    ["in-viewport"; "offscreen"]
    ["claim.clipped-geometry-authoritative"];
  publicNode "condition.focused" evidence
    ["focused"]
    ["claim.focus-authoritative"];
  publicNode "condition.value" evidence
    ["value"]
    ["claim.semantic-tree-authoritative"];
  publicNode "action.click" planning
    ["attached"; "enabled"; "visible"; "pointer-region"; "receives-pointer"; "mouse-input-enabled"]
    ["claim.pointer-region-authoritative"; "claim.pointer-real-pty"; "claim.paired-revisions"];
  publicNode "action.hover" planning
    ["attached"; "visible"; "pointer-region"; "receives-pointer"; "mouse-input-enabled"]
    ["claim.pointer-region-authoritative"; "claim.pointer-real-pty"];
  publicNode "action.drag" planning
    ["attached"; "enabled"; "visible"; "pointer-region"; "receives-pointer"; "mouse-input-enabled"]
    ["claim.pointer-region-authoritative"; "claim.pointer-real-pty"];
  publicNode "action.focus" planning
    ["attached"; "enabled"; "displayed"]
    ["claim.keyboard-real-pty"; "claim.pointer-real-pty"];
  publicNode "action.activate" planning
    ["attached"; "enabled"; "displayed"]
    ["claim.keyboard-real-pty"; "claim.pointer-real-pty"];
  publicNode "action.type" planning
    ["attached"; "enabled"; "displayed"; "focused"]
    ["claim.focus-authoritative"; "claim.keyboard-real-pty"];
  publicNode "action.fill" planning
    ["attached"; "enabled"; "displayed"]
    ["claim.focus-authoritative"; "claim.keyboard-real-pty"];
  publicNode "action.check" planning
    ["attached"; "enabled"; "displayed"; "checked"]
    ["claim.keyboard-real-pty"; "claim.pointer-real-pty"];
  publicNode "action.uncheck" planning
    ["attached"; "enabled"; "displayed"; "checked"]
    ["claim.keyboard-real-pty"; "claim.pointer-real-pty"];
  publicNode "device.keyboard" input
    []
    ["claim.keyboard-real-pty"];
  publicNode "device.mouse" input
    []
    ["claim.pointer-real-pty"];
  publicNode "device.window-focus" input
    []
    ["claim.focus-report-real-pty"];
  publicNode "checkpoint" synchronization
    []
    ["claim.paired-revisions"];
  publicNode "runner.inspector" diagnostic
    []
    ["claim.semantic-tree-authoritative"];
  publicNode "trace.action" diagnostic
    []
    ["claim.pointer-real-pty"; "claim.keyboard-real-pty"];
  publicNode "recorder.semantic-action" planning
    []
    ["claim.pointer-hit-test-authoritative"];
  publicNode "mcp.semantic-action" planning
    []
    ["claim.pointer-real-pty"; "claim.keyboard-real-pty"];
  publicNode "runner.diagnostics" diagnostic
    []
    ["claim.semantic-tree-authoritative"];
  publicNode "trace.diagnostics" diagnostic
    []
    ["claim.logs-diagnostic"]].

Definition diagnosticNodes : list CapabilityGraphNode := [
  plainNode "diagnostic.semantic-tree" diagnostic session
    "Best-effort semantic tree for inspector diagnostics only."
    (Some ["claim.semantic-tree-authoritative"]) (certified "Use certified semantic evidence for public queries.");
  plainNode "diagnostic.geometry" diagnostic session
    "Best-effort geometry that cannot unlock actions."
    (Some ["claim.intended-geometry-authoritative"]) (certified "Use certified geometry evidence for action planning.");
  plainNode "diagnostic.render-order" diagnostic session
    "Best-effort paint order that cannot prove actionability."
    (Some ["claim.render-order-authoritative"]) (certified "Use a universally certified render-order producer.");
  plainNode "diagnostic.logs" diagnostic session
    "Structured application logs."
    (Some ["claim.logs-diagnostic"]) (certified "Use an adapter that negotiates structured logs.")].

Definition producer_edges : list CapabilityGraphEdge := [
  edge "adapter.tree" "session.semantic-tree" produces;
  edge "probe.stable-identity" "session.stable-identity" produces;
  edge "adapter.intended-geometry" "session.intended-geometry" produces;
  edge "adapter.clipped-geometry" "session.clipped-geometry" produces;
  edge "adapter.focus-state" "session.focus" produces;
  edge "provider.focus-state" "session.focus" produces;
  edge "provider.scroll-state" "session.scroll" produces;
  edge "provider.painted-regions" "session.painted-region" produces;
  edge "adapter.action-recipes" "session.action-strategies" produces;
  edge "adapter.pointer-hit-grid" "session.pointer-geometry" produces;
  edge "adapter.pointer-hit-grid" "session.pointer-hit-testing" produces;
  edge "provider.pointer-regions" "session.pointer-geometry" produces;
  edge "provider.hit-test" "session.pointer-hit-testing" produces;
  edge "provider.action-recipes" "session.action-strategies" produces;
  edge "probe.paint-order" "session.render-order" produces;
  edge "probe.paint-order" "diagnostic.render-order" diagnoses;
  edge "adapter.logs" "diagnostic.logs" diagnoses;
  edge "terminal.writable-pty" "session.keyboard-input" produces;
  edge "terminal.input-modes-observable" "session.pointer-input" produces;
  edge "provider.terminal-input-modes" "session.pointer-input" produces;
  edge "terminal.input-modes-observable" "session.focus-input" produces;
  edge "provider.terminal-input-modes" "session.focus-input" produces;
  edge "adapter.render-revisions" "session.paired-revisions" produces;
  edge "terminal.writable-pty" "runtime.writable-pty" produces;
  edge "terminal.input-modes-observable" "runtime.terminal-input-modes-authoritative" produces;
  edge "provider.terminal-input-modes" "runtime.terminal-input-modes-authoritative" produces].

Definition strategy_edges : list CapabilityGraphEdge := [
  edge "session.pointer-geometry" "strategy.pointer-target" requires;
  edge "runtime.committed-observation" "strategy.pointer-target" runtime_requires;
  edge "strategy.pointer-target" "strategy.pointer-activate" requires;
  edge "session.pointer-input" "strategy.pointer-activate" requires;
  edge "runtime.terminal-input-modes-authoritative" "strategy.pointer-activate" runtime_requires;
  edge "runtime.mouse-reporting-enabled" "strategy.pointer-activate" runtime_requires;
  edge "session.keyboard-input" "strategy.keyboard-activate" requires;
  edge "runtime.writable-pty" "strategy.keyboard-activate" runtime_requires;
  edge "strategy.pointer-activate" "strategy.focus-by-pointer" requires;
  edge "session.focus" "strategy.type-focused" requires;
  edge "session.keyboard-input" "strategy.type-focused" requires].

Definition query_edges : list CapabilityGraphEdge := [
  edge "session.semantic-tree" "public.locator.semantic-query" requires;
  edge "session.scroll" "public.locator.semantic-scroll" requires;
  edge "runtime.committed-observation" "public.locator.semantic-scroll" runtime_requires;
  edge "session.painted-region" "public.locator.painted-region" requires;
  edge "runtime.committed-observation" "public.locator.painted-region" runtime_requires;
  edge "session.semantic-tree" "public.condition.attached" requires;
  edge "session.semantic-tree" "public.condition.displayed" requires;
  edge "session.clipped-geometry" "public.condition.visible" requires;
  edge "session.clipped-geometry" "public.condition.in-viewport" requires;
  edge "session.focus" "public.condition.focused" requires;
  edge "session.semantic-tree" "public.condition.value" requires].

Definition action_edges : list CapabilityGraphEdge := [
  edge "strategy.pointer-activate" "public.action.click" requires;
  edge "strategy.pointer-target" "public.action.hover" requires;
  edge "session.pointer-input" "public.action.hover" requires;
  edge "runtime.terminal-input-modes-authoritative" "public.action.hover" runtime_requires;
  edge "runtime.mouse-motion-enabled" "public.action.hover" runtime_requires;
  edge "strategy.pointer-activate" "public.action.drag" requires;
  edge "strategy.focus-by-pointer" "public.action.focus" requires_any;
  edge "strategy.keyboard-activate" "public.action.focus" requires_any;
  edge "strategy.pointer-activate" "public.action.activate" requires_any;
  edge "strategy.keyboard-activate" "public.action.activate" requires_any;
  edge "strategy.type-focused" "public.action.type" requires;
  edge "public.action.focus" "public.action.fill" requires;
  edge "session.keyboard-input" "public.action.fill" requires;
  edge "public.action.activate" "public.action.check" requires;
  edge "public.action.activate" "public.action.uncheck" requires;
  edge "session.keyboard-input" "public.device.keyboard" requires;
  edge "session.pointer-input" "public.device.mouse" requires;
  edge "runtime.terminal-input-modes-authoritative" "public.device.mouse" runtime_requires;
  edge "runtime.mouse-reporting-enabled" "public.device.mouse" runtime_requires;
  edge "session.focus-input" "public.device.window-focus" requires;
  edge "runtime.focus-reporting-enabled" "public.device.window-focus" runtime_requires;
  edge "runtime.terminal-input-modes-authoritative" "public.device.window-focus" runtime_requires;
  edge "session.paired-revisions" "public.checkpoint" requires;
  edge "public.action.click" "public.recorder.semantic-action" requires;
  edge "public.action.click" "public.mcp.semantic-action" requires;
  edge "diagnostic.semantic-tree" "public.runner.diagnostics" diagnoses;
  edge "diagnostic.geometry" "public.runner.diagnostics" diagnoses;
  edge "diagnostic.logs" "public.trace.diagnostics" diagnoses;
  edge "public.action.click" "public.runner.inspector" diagnoses;
  edge "public.action.click" "public.trace.action" diagnoses].

Record CapabilityGraph : Type := { version : Z; nodes : list CapabilityGraphNode; edges : list CapabilityGraphEdge }.

Definition CAPABILITY_GRAPH : CapabilityGraph :=
  {| version := CAPABILITY_GRAPH_VERSION;
     nodes := producerNodes ++ sessionNodes ++ runtimeNodes ++ strategyNodes ++ publicNodes ++ diagnosticNodes;
     edges := producer_edges ++ strategy_edges ++ query_edges ++ action_edges |}.

(** ** The integrity gate *)

Inductive GraphError : Type :=
| duplicate_node (i : CapabilityNodeId)
| invalid_category (i : CapabilityNodeId)
| invalid_layer (i : CapabilityNodeId)
| unknown_claim (claim : string) (i : CapabilityNodeId)
| unknown_condition (condition : string) (i : CapabilityNodeId)
| orphaned_source (i : CapabilityNodeId)
| orphaned_target (i : CapabilityNodeId)
| duplicate_edge (key : string)
| no_conformance_claim (i : CapabilityNodeId)
| impossible_provider_remediation (i : CapabilityNodeId)
| runtime_without_prerequisite (i : CapabilityNodeId)
| orphan_claim (claim : string).

(** [errors.push(e)] under a condition *)
Definition report (b : bool) (e : GraphError) : list GraphError := if b then [e] else [].

Definition includes {A} `{EqDecision A} (l : list A) (x : A) : bool := bool_decide (x ∈ l).

Fixpoint node_errors (seen : list CapabilityNodeId) (ns : list CapabilityGraphNode) : list GraphError :=
  match ns with
  | [] => []
  | n :: ns =>
      report (includes seen (id n)) (duplicate_node (id n)) ++
      report (negb (includes CAPABILITY_NODE_CATEGORIES (category n))) (invalid_category (id n)) ++
      report (negb (includes CAPABILITY_NODE_LAYERS (layer n))) (invalid_layer (id n)) ++
      mjoin ((fun c => report (negb (includes CAPABILITY_CONFORMANCE_CLAIMS c)) (unknown_claim c (id n))) <$> default [] (conformanceClaims n)) ++
      mjoin ((fun c => report (negb (includes CONDITION_KINDS c)) (unknown_condition c (id n))) <$> default [] (conditions n)) ++
      node_errors (id n :: seen) ns
  end.

Definition kind_text (k : CapabilityEdgeKind) : string :=
  match k with
  | produces => "produces" | requires => "requires" | requires_any => "requires-any"
  | runtime_requires => "runtime-requires" | diagnoses => "diagnoses"
  end.
Definition edge_key (e : CapabilityGraphEdge) : string := kind_text (kind e) +:+ ":" +:+ from e +:+ "->" +:+ to e.

Fixpoint edge_errors (known : list CapabilityNodeId) (edgeKeys : list string) (es : list CapabilityGraphEdge) : list GraphError :=
  match es with
  | [] => []
  | e :: es =>
      report (negb (includes known (from e))) (orphaned_source (from e)) ++
      report (negb (includes known (to e))) (orphaned_target (to e)) ++
      report (includes edgeKeys (edge_key e)) (duplicate_edge (edge_key e)) ++
      edge_errors known (edge_key e :: edgeKeys) es
  end.

Definition startsWith (prefix s : string) : bool := String.prefix prefix s.

Definition remediation_errors (es : list CapabilityGraphEdge) (n : CapabilityGraphNode) : list GraphError :=
  report (includes [session; public] (layer n) && Nat.eqb (length (default [] (conformanceClaims n))) 0) (no_conformance_claim (id n)) ++
  (if decide (code (remediation n) = register_application_provider) then
     let reachable := existsb (fun e => same (to e) (id n) && startsWith "provider." (from e) && bool_decide (kind e = produces)) es in
     report (negb reachable && bool_decide (layer n = session)) (impossible_provider_remediation (id n))
   else []) ++
  report (bool_decide (code (remediation n) = enable_terminal_runtime) && bool_decide (runtimePrerequisite (remediation n) = None))
    (runtime_without_prerequisite (id n)).

Definition usedClaims (ns : list CapabilityGraphNode) : list string := mjoin ((fun n => default [] (conformanceClaims n)) <$> ns).

Definition validateGraph (g : CapabilityGraph) : list GraphError :=
  node_errors [] (nodes g) ++ edge_errors (id <$> nodes g) [] (edges g) ++
  mjoin (remediation_errors (edges g) <$> nodes g) ++
  mjoin ((fun c => report (negb (includes (usedClaims (nodes g)) c)) (orphan_claim c)) <$> CAPABILITY_CONFORMANCE_CLAIMS).

Definition validateCapabilityGraph : bool * list GraphError :=
  let errors := validateGraph CAPABILITY_GRAPH in (bool_decide (length errors = 0), errors).

(** ** Resolution *)

Inductive GraphFailure : Type := unknown_node (i : CapabilityNodeId) | dependency_cycle (i : CapabilityNodeId).

(** [\[...new Set(values)\]] *)
Definition unique {A} `{EqDecision A} (values : list A) : list A :=
  foldl (fun acc v => if decide (v ∈ acc) then acc else acc ++ [v]) [] values.

Lemma unique_from {A} `{EqDecision A} (values acc : list A) :
  NoDup acc ->
  NoDup (foldl (fun acc v => if decide (v ∈ acc) then acc else acc ++ [v]) acc values) /\
  forall x, x ∈ foldl (fun acc v => if decide (v ∈ acc) then acc else acc ++ [v]) acc values <-> x ∈ acc \/ x ∈ values.
Proof.
  revert acc. induction values as [|v values IH]; intros acc Hn; cbn.
  { split; [done|]. set_solver. }
  destruct (decide (v ∈ acc)) as [Hv|Hv].
  - destruct (IH acc Hn) as [H1 H2]. split; [done|]. intros x. rewrite H2. set_solver.
  - destruct (IH (acc ++ [v])) as [H1 H2].
    { apply NoDup_app. split; [done|]. split; [set_solver|apply NoDup_singleton]. }
    split; [done|]. intros x. rewrite H2. set_solver.
Qed.

Lemma unique_NoDup {A} `{EqDecision A} (values : list A) : NoDup (unique values).
Proof. apply unique_from, NoDup_nil_2. Qed.

Lemma elem_of_unique {A} `{EqDecision A} (values : list A) x : x ∈ unique values <-> x ∈ values.
Proof. destruct (unique_from values [] (NoDup_nil_2)) as [_ H]. unfold unique. rewrite H. set_solver. Qed.

Definition uniqueBy {A} (values : list A) (key : A -> string) : list A :=
  (foldl (fun found v => jset found (key v) v) [] values).*2.

(** The key by which remediations are told apart. *)
Definition remediation_key (r : CapabilityRemediation) : string :=
  code_text (code r) +:+ ":" +:+ default "" (providerType r) +:+ ":" +:+ default "" (runtimePrerequisite r) +:+ ":" +:+ message r.

Section Graph.
Context (g : CapabilityGraph).

Definition capabilityNode (i : CapabilityNodeId) : result GraphFailure CapabilityGraphNode :=
  match List.find (fun n => same (id n) i) (nodes g) with Some n => Ok n | None => Err (unknown_node i) end.

Definition capabilityRemediation (i : CapabilityNodeId) : result GraphFailure CapabilityRemediation :=
  n ← capabilityNode i; Ok (remediation n).

(** What follows the family of an id. *)
Definition slice (n : nat) (s : string) : string := String.substring n (String.length s - n) s.

Definition producing (producers : gset CapabilityNodeId) (e : CapabilityGraphEdge) : bool :=
  bool_decide (kind e = produces) && startsWith "session." (to e) && bool_decide (from e ∈ producers).

Definition sessionCapabilitiesFromProducers (producers : gset CapabilityNodeId) : list (string * list CapabilityNodeId) :=
  let resolved := foldl (fun m e =>
      if producing producers e then
        let capability := slice (String.length "session.") (to e) in
        jset m capability (default [] (jget m capability) ++ [from e])
      else m) [] (edges g) in
  (fun kv => (kv.1, merge_sort String.le (unique kv.2))) <$> resolved.

Definition incoming (i : CapabilityNodeId) : list CapabilityGraphEdge :=
  List.filter (fun e => same (to e) i && includes [requires; requires_any; runtime_requires] (kind e)) (edges g).
Definition mandatory_of (i : CapabilityNodeId) : list CapabilityNodeId :=
  from <$> List.filter (fun e => negb (bool_decide (kind e = requires_any))) (incoming i).
Definition alternatives_of (i : CapabilityNodeId) : list CapabilityNodeId :=
  from <$> List.filter (fun e => bool_decide (kind e = requires_any)) (incoming i).

(** [alternatives.reduce(...)]: the first of the shortest. *)
Definition bestAlternative (alternatives : list (list CapabilityNodeId)) : list CapabilityNodeId :=
  match alternatives with
  | [] => []
  | first :: rest => foldl (fun best candidate => if (length candidate <? length best)%nat then candidate else best) first rest
  end.

Fixpoint traverse {A B} (f : A -> result GraphFailure B) (l : list A) : result GraphFailure (list B) :=
  match l with
  | [] => Ok []
  | a :: l => b ← f a; bs ← traverse f l; Ok (b :: bs)
  end.

(** The nodes [i] still lacks.  The set [visiting] is what the source has added
    and not yet deleted: the chain of callers.  Fuel is the number of nodes that
    may still be visited. *)
Fixpoint resolve (fuel : nat) (available : gset CapabilityNodeId) (visiting : list CapabilityNodeId) (i : CapabilityNodeId)
    : result GraphFailure (list CapabilityNodeId) :=
  match fuel with
  | O => Err (dependency_cycle i)
  | S fuel =>
      if decide (i ∈ available) then Ok [] else
      node ← capabilityNode i;
      if includes [producer; session; runtime] (layer node) then Ok [i] else
      if includes visiting i then Err (dependency_cycle i) else
      let deeper := resolve fuel available (i :: visiting) in
      mandatory ← traverse deeper (mandatory_of i);
      alternatives ← traverse deeper (alternatives_of i);
      Ok (unique (mjoin mandatory ++ bestAlternative alternatives))
  end.

Record CapabilityResolution : Type := {
  available : bool;
  target : CapabilityNodeId;
  missing : list CapabilityNodeId;
  remedies : list CapabilityRemediation;
}.

Definition resolve_in (t : CapabilityNodeId) (av : gset CapabilityNodeId) : result GraphFailure CapabilityResolution :=
  m ← resolve (S (length (nodes g))) av [] t;
  rs ← traverse capabilityRemediation m;
  Ok {| available := Nat.eqb (length m) 0; target := t; missing := m; remedies := uniqueBy rs remediation_key |}.
End Graph.

Definition resolveCapability : CapabilityNodeId -> gset CapabilityNodeId -> result GraphFailure CapabilityResolution :=
  resolve_in CAPABILITY_GRAPH.
