(* ===== verification/CapabilityTheorems.v ===== *)
(** * What the capability graph promises

    Resolution ends for every node and is exact: a consumer is available just
    when what it requires is, what is reported missing is what would unlock it, and
    facts of producers and diagnostics play no part.  Session capabilities come
    from the produces edges of negotiated producers and from nothing else. *)

From stdpp Require Import sorting.
From S2P Require Import Prelude JsObject CapabilityGraph.

(** ** Loops *)

Lemma traverse_Ok {A B} (f : A -> result GraphFailure B) (P : A -> B -> Prop) l :
  (forall a, a ∈ l -> exists b, f a = Ok b /\ P a b) -> exists bs, traverse f l = Ok bs /\ Forall2 P l bs.
Proof.
  induction l as [|a l IH]; intros H; cbn; [by exists []|].
  destruct (H a) as (b & -> & Hb); [left|]. destruct IH as (bs & -> & Hbs); [intros; apply H; by right|].
  cbn. exists (b :: bs). by repeat constructor.
Qed.

Lemma traverse_ext {A B} (f h : A -> result GraphFailure B) l :
  (forall a, a ∈ l -> f a = h a) -> traverse f l = traverse h l.
Proof.
  induction l as [|a l IH]; intros H; cbn; [done|]. rewrite H by left. destruct (h a); cbn; [|done].
  rewrite IH; [done|]. intros; apply H; by right.
Qed.

(** The reduction returns one of the alternatives, and none is shorter. *)
Lemma bestAlternative_spec alts :
  alts <> [] -> bestAlternative alts ∈ alts /\ forall a, a ∈ alts -> (length (bestAlternative alts) <= length a)%nat.
Proof.
  destruct alts as [|first rest]; [done|]. intros _. cbn [bestAlternative].
  revert first. induction rest as [|c rest IH]; intros first; cbn [foldl].
  { split; [left|]. intros a ->%list_elem_of_singleton. lia. }
  destruct (Nat.ltb_spec (length c) (length first)) as [Hlt|Hge].
  - destruct (IH c) as [Hin Hmin]. split; [by right|]. intros a [->|Ha]%elem_of_cons; [|by apply Hmin].
    specialize (Hmin c ltac:(left)). lia.
  - destruct (IH first) as [Hin Hmin]. split; [set_solver|].
    intros a [->|[->|Ha]%elem_of_cons]%elem_of_cons; [apply Hmin; left| |apply Hmin; by right].
    specialize (Hmin first ltac:(left)). lia.
Qed.

Lemma bestAlternative_nil alts : bestAlternative alts = [] <-> alts = [] \/ [] ∈ alts.
Proof.
  destruct alts as [|a alts]; [by split; [left|]|]. destruct (bestAlternative_spec (a :: alts)) as [Hin Hmin]; [done|].
  split; [intros E; right; by rewrite <- E|]. intros [|H]; [done|]. apply Hmin, Nat.le_0_r, nil_length_inv in H. done.
Qed.

Lemma unique_nil {A} `{EqDecision A} (values : list A) : unique values = [] <-> values = [].
Proof.
  split; [|by intros ->]. intros E. destruct values as [|v values]; [done|].
  assert (v ∈ unique (v :: values)) as H by (apply elem_of_unique; left). rewrite E in H. by apply not_elem_of_nil in H.
Qed.

(** ** Requirements *)

Definition needed (k : CapabilityEdgeKind) : Prop := k ∈ [requires; requires_any; runtime_requires].

Lemma same_spec a b : same a b = true <-> a = b.
Proof. apply bool_decide_eq_true. Qed.

Lemma elem_of_incoming g i e : e ∈ incoming g i <-> e ∈ edges g /\ to e = i /\ needed (kind e).
Proof.
  unfold incoming. rewrite list_elem_of_In, filter_In, <- list_elem_of_In, andb_true_iff, same_spec. unfold includes.
  by rewrite bool_decide_eq_true.
Qed.

Lemma elem_of_mandatory g i j :
  j ∈ mandatory_of g i <-> exists e, e ∈ edges g /\ to e = i /\ from e = j /\ needed (kind e) /\ kind e <> requires_any.
Proof.
  unfold mandatory_of. rewrite list_elem_of_fmap. setoid_rewrite list_elem_of_In. setoid_rewrite filter_In.
  setoid_rewrite <- list_elem_of_In. setoid_rewrite elem_of_incoming. setoid_rewrite negb_true_iff.
  setoid_rewrite bool_decide_eq_false. naive_solver.
Qed.

Lemma elem_of_alternatives g i j :
  j ∈ alternatives_of g i <-> exists e, e ∈ edges g /\ to e = i /\ from e = j /\ kind e = requires_any.
Proof.
  unfold alternatives_of. rewrite list_elem_of_fmap. setoid_rewrite list_elem_of_In. setoid_rewrite filter_In.
  setoid_rewrite <- list_elem_of_In. setoid_rewrite elem_of_incoming. setoid_rewrite bool_decide_eq_true. unfold needed.
  split; [naive_solver|]. intros (e & H1 & H2 & H3 & H4). exists e. rewrite H4. split_and!; try done. set_solver.
Qed.

Definition known (g : CapabilityGraph) (i : CapabilityNodeId) : Prop := exists n, capabilityNode g i = Ok n.
(** Nodes that resolution does not look behind. *)
Definition leaf (g : CapabilityGraph) (i : CapabilityNodeId) : Prop :=
  exists n, capabilityNode g i = Ok n /\ layer n ∈ [producer; session; runtime].

(** A node is unlocked when it is given, or is a strategy or consumer all of
    whose requirements are unlocked, with one of its alternatives if it has any. *)
Inductive unlocked (g : CapabilityGraph) (av : gset CapabilityNodeId) : CapabilityNodeId -> Prop :=
| unlocked_given i : i ∈ av -> unlocked g av i
| unlocked_by i :
    known g i -> ~ leaf g i ->
    (forall j, j ∈ mandatory_of g i -> unlocked g av j) ->
    (alternatives_of g i = [] \/ exists j, j ∈ alternatives_of g i /\ unlocked g av j) ->
    unlocked g av i.

(** More facts unlock more. *)
Lemma unlocked_mono g av av' i : av ⊆ av' -> unlocked g av i -> unlocked g av' i.
Proof.
  intros Hsub. revert i. fix IH 2. intros i [j Hj|j Hk Hl Hm Ha]; [apply unlocked_given; set_solver|].
  apply unlocked_by; [done|done|intros k Hk'; by apply IH, Hm|]. destruct Ha as [Ha|(k & Hk' & Hu)]; [by left|right].
  exists k. split; [done|by apply IH].
Qed.

Section Resolve.
Context (g : CapabilityGraph) (rank : CapabilityNodeId -> nat).

(** The requires edges of [g] lead from known nodes of lower rank. *)
Definition ranked : Prop :=
  forall e, e ∈ edges g -> needed (kind e) -> known g (from e) /\ (rank (from e) < rank (to e))%nat.
Hypothesis acyclic : ranked.

Lemma mandatory_lower i j : j ∈ mandatory_of g i -> known g j /\ (rank j < rank i)%nat.
Proof. intros (e & He & <- & <- & Hk & _)%elem_of_mandatory. by apply acyclic. Qed.
Lemma alternative_lower i j : j ∈ alternatives_of g i -> known g j /\ (rank j < rank i)%nat.
Proof. intros (e & He & <- & <- & Hk)%elem_of_alternatives. apply acyclic; [done|]. rewrite Hk. unfold needed. set_solver. Qed.

(** What [resolve] answers for a node. *)
Record lacks (av : gset CapabilityNodeId) (i : CapabilityNodeId) (m : list CapabilityNodeId) : Prop := {
  lacks_nil : m = [] <-> unlocked g av i;
  lacks_leaf j : j ∈ m -> j ∉ av /\ leaf g j;
  lacks_once : NoDup m;
  lacks_unlock : unlocked g (av ∪ list_to_set m) i;
}.

Lemma Forall2_lacks_nil av xs ms : Forall2 (lacks av) xs ms -> mjoin ms = [] <-> forall i, i ∈ xs -> unlocked g av i.
Proof.
  induction 1 as [|i m xs ms Hm _ IH]; cbn; [split; [intros _ i ?%elem_of_nil|]; done|].
  rewrite app_nil, (lacks_nil _ _ _ Hm), IH. set_solver.
Qed.

Lemma Forall2_lacks_in av xs ms j :
  Forall2 (lacks av) xs ms -> j ∈ mjoin ms -> j ∉ av /\ leaf g j.
Proof.
  intros H (m & Hj & Hm)%list_elem_of_join. apply list_elem_of_lookup in Hm as [k Hk].
  destruct (Forall2_lookup_r _ _ _ _ _ H Hk) as (i & _ & Hl). by apply (lacks_leaf _ _ _ Hl).
Qed.

Lemma unlocked_with av i m (ms : list CapabilityNodeId) :
  lacks av i m -> (forall j, j ∈ m -> j ∈ ms) -> unlocked g (av ∪ list_to_set ms) i.
Proof.
  intros H Hsub. eapply unlocked_mono; [|exact (lacks_unlock _ _ _ H)].
  intros x [Hx|Hx%elem_of_list_to_set]%elem_of_union; apply elem_of_union; [by left|right]. by apply elem_of_list_to_set, Hsub.
Qed.

(** The answers for the requirements combine to the answer for the node. *)
Lemma lacks_combine av i mand alts :
  i ∉ av -> known g i -> ~ leaf g i ->
  Forall2 (lacks av) (mandatory_of g i) mand -> Forall2 (lacks av) (alternatives_of g i) alts ->
  lacks av i (unique (mjoin mand ++ bestAlternative alts)).
Proof.
  intros Hi Hk Hl Hm Ha.
  assert (Hbest : alts <> [] -> exists j, j ∈ alternatives_of g i /\ lacks av j (bestAlternative alts)).
  { intros Hne. destruct (bestAlternative_spec alts Hne) as [[k Hb]%list_elem_of_lookup _].
    destruct (Forall2_lookup_r _ _ _ _ _ Ha Hb) as (j & Hj & Hlk). exists j. split; [by eapply list_elem_of_lookup_2|done]. }
  assert (Halt : alts = [] <-> alternatives_of g i = []) by (destruct Ha; done).
  split.
  - rewrite unique_nil, app_nil, (Forall2_lacks_nil _ _ _ Hm), bestAlternative_nil. split.
    + intros [Hall Hb]. apply unlocked_by; [done|done|done|]. destruct Hb as [->|[k Hb]%list_elem_of_lookup]; [left; tauto|right].
      destruct (Forall2_lookup_r _ _ _ _ _ Ha Hb) as (j & Hj & Hlk). exists j. split; [by eapply list_elem_of_lookup_2|].
      by apply (lacks_nil _ _ _ Hlk).
    + intros Hu. destruct Hu as [?|? _ _ Hall Hb]; [done|]. split; [done|]. rewrite Halt. destruct Hb as [|(j & [k Hj]%list_elem_of_lookup & Hu)]; [by left|right].
      destruct (Forall2_lookup_l _ _ _ _ _ Ha Hj) as (m & Hm' & Hlk). apply (lacks_nil _ _ _ Hlk) in Hu as ->. by eapply list_elem_of_lookup_2.
  - intros j Hj%elem_of_unique%elem_of_app. destruct Hj as [Hj|Hj]; [by eapply (Forall2_lacks_in _ _ _ _ Hm)|].
    destruct alts as [|a alts]; [by apply not_elem_of_nil in Hj|]. destruct Hbest as (k & _ & Hlk); [done|]. by apply (lacks_leaf _ _ _ Hlk).
  - apply unique_NoDup.
  - apply unlocked_by; [done|done| |].
    + intros j [k Hj]%list_elem_of_lookup. destruct (Forall2_lookup_l _ _ _ _ _ Hm Hj) as (m & Hm' & Hlk).
      eapply unlocked_with; [done|]. intros x Hx. apply elem_of_unique, elem_of_app. left.
      apply list_elem_of_join. exists m. split; [done|by eapply list_elem_of_lookup_2].
    + destruct (decide (alts = [])) as [->|Hne]; [left; tauto|right]. destruct (Hbest Hne) as (j & Hj & Hlk). exists j. split; [done|].
      eapply unlocked_with; [done|]. intros x Hx. apply elem_of_unique, elem_of_app. by right.
Qed.

(** Enough fuel and a chain of callers of higher rank give the answer. *)
Lemma resolve_lacks fuel av visiting i :
  known g i -> (rank i < fuel)%nat -> (forall v, v ∈ visiting -> (rank i < rank v)%nat) ->
  exists m, resolve g fuel av visiting i = Ok m /\ lacks av i m.
Proof.
  revert visiting i. induction fuel as [|fuel IH]; intros visiting i Hk Hf Hv; [lia|]. cbn [resolve].
  destruct (decide (i ∈ av)) as [Hi|Hi].
  { exists []. split; [done|]. split; [split; [intros _; by apply unlocked_given|done]| |apply NoDup_nil_2|apply unlocked_given; set_solver].
    intros j Hj. by apply not_elem_of_nil in Hj. }
  destruct (Hk) as [n Hn]. rewrite Hn. cbn. unfold includes. case_bool_decide as Hlay.
  { exists [i]. assert (leaf g i) as Hl by (exists n; done). split; [done|]. split.
    - split; [done|]. intros Hu. by destruct Hu.
    - intros j ->%list_elem_of_singleton. done.
    - apply NoDup_singleton.
    - apply unlocked_given. set_solver. }
  case_bool_decide as Hvis; [specialize (Hv i Hvis); lia|].
  assert (Hdeep : forall j, known g j /\ (rank j < rank i)%nat -> exists m, resolve g fuel av (i :: visiting) j = Ok m /\ lacks av j m).
  { intros j [Hkj Hr]. apply IH; [done|lia|]. intros v [->|Hin]%elem_of_cons; [done|]. specialize (Hv v Hin). lia. }
  destruct (traverse_Ok (resolve g fuel av (i :: visiting)) (lacks av) (mandatory_of g i)) as (mand & -> & Hm).
  { intros j Hj. by apply Hdeep, mandatory_lower. }
  destruct (traverse_Ok (resolve g fuel av (i :: visiting)) (lacks av) (alternatives_of g i)) as (alts & -> & Ha).
  { intros j Hj. by apply Hdeep, alternative_lower. }
  cbn. eexists. split; [done|]. apply lacks_combine; try done. intros (n' & Hn' & ?). rewrite Hn in Hn'. by injection Hn' as <-.
Qed.
End Resolve.

(** Resolution looks at no fact outside a set closed under requirements. *)
Lemma resolve_local g (P : CapabilityNodeId -> Prop) fuel av av' visiting i :
  (forall e, e ∈ edges g -> needed (kind e) -> P (from e)) -> (forall j, P j -> j ∈ av <-> j ∈ av') -> P i ->
  resolve g fuel av visiting i = resolve g fuel av' visiting i.
Proof.
  intros Hc Hav. revert visiting i. induction fuel as [|fuel IH]; intros visiting i Hi; cbn [resolve]; [done|].
  rewrite (decide_ext (i ∈ av) (i ∈ av')) by by apply Hav. destruct (decide _); [done|].
  destruct (capabilityNode g i); cbn; [|done]. destruct (includes _ _); [done|]. destruct (includes _ _); [done|].
  rewrite (traverse_ext _ (resolve g fuel av' (i :: visiting)) (mandatory_of g i)).
  2: { intros j (e & He & _ & <- & Hk & _)%elem_of_mandatory. by apply IH, Hc. }
  rewrite (traverse_ext _ (resolve g fuel av' (i :: visiting)) (alternatives_of g i)); [done|].
  intros j (e & He & _ & <- & Hk)%elem_of_alternatives. apply IH, Hc; [done|]. rewrite Hk. unfold needed. set_solver.
Qed.

(** ** The graph of the source *)

Lemma known_find g i : known g i <-> exists n, n ∈ nodes g /\ id n = i.
Proof.
  unfold known, capabilityNode. split.
  - intros [n Hn]. destruct (List.find _ _) as [n'|] eqn:E; [|done]. injection Hn as <-.
    apply List.find_some in E as [E H%same_spec]. exists n'. by rewrite list_elem_of_In.
  - intros (n & Hn & Hi). destruct (List.find _ _) as [n'|] eqn:E; [by eexists|]. apply List.find_none with (x := n) in E; [|by apply list_elem_of_In].
    apply not_true_iff_false in E. by rewrite same_spec in E.
Qed.

(** The longest chain of requirements below a node. *)
Fixpoint depth (fuel : nat) (i : CapabilityNodeId) : nat :=
  match fuel with
  | O => O
  | S fuel => S (foldr max O (depth fuel <$> (mandatory_of CAPABILITY_GRAPH i ++ alternatives_of CAPABILITY_GRAPH i)))
  end.

Lemma depth_bound fuel i : (depth fuel i <= fuel)%nat.
Proof.
  revert i. induction fuel as [|fuel IH]; intros i; cbn [depth]; [lia|]. apply le_n_S.
  induction (mandatory_of CAPABILITY_GRAPH i ++ alternatives_of CAPABILITY_GRAPH i) as [|j l IHl]; cbn; [lia|]. pose proof (IH j). lia.
Qed.

Definition edge_ranked (e : CapabilityGraphEdge) : bool :=
  negb (includes [requires; requires_any; runtime_requires] (kind e)) ||
  (existsb (fun n => same (id n) (from e)) (nodes CAPABILITY_GRAPH) && (depth 8 (from e) <? depth 8 (to e))%nat).

Lemma capability_graph_ranked : ranked CAPABILITY_GRAPH (depth 8).
Proof.
  assert (forallb edge_ranked (edges CAPABILITY_GRAPH) = true) as H by by vm_compute.
  rewrite forallb_forall in H. intros e He%list_elem_of_In Hk. specialize (H e He). unfold edge_ranked, includes in H.
  rewrite bool_decide_eq_true_2 in H by exact Hk. cbn [negb orb] in H. apply andb_true_iff in H as [H1 H2%Nat.ltb_lt].
  split; [|done]. apply existsb_exists in H1 as (n & Hn%list_elem_of_In & Hi%same_spec). apply known_find. by exists n.
Qed.

(** Families of ids that take part in resolution. *)
Definition deciding (i : CapabilityNodeId) : bool :=
  startsWith "session." i || startsWith "runtime." i || startsWith "strategy." i || startsWith "public." i.

Lemma requirements_deciding e : e ∈ edges CAPABILITY_GRAPH -> needed (kind e) -> deciding (from e) = true.
Proof.
  assert (forallb (fun e => negb (includes [requires; requires_any; runtime_requires] (kind e)) || deciding (from e))
            (edges CAPABILITY_GRAPH) = true) as H by by vm_compute.
  rewrite forallb_forall in H. intros He%list_elem_of_In Hk. specialize (H e He). unfold includes in H.
  by rewrite bool_decide_eq_true_2 in H by exact Hk.
Qed.

Lemma uniqueBy_spec {A} (values : list A) (key : A -> string) :
  NoDup (key <$> uniqueBy values key) /\ forall k, k ∈ key <$> uniqueBy values key <-> k ∈ key <$> values.
Proof.
  unfold uniqueBy.
  enough (forall m : list (string * A), NoDup (keys m) -> (forall k v, (k, v) ∈ m -> key v = k) ->
    let m' := foldl (fun found v => jset found (key v) v) m values in
    NoDup (keys m') /\ (forall k v, (k, v) ∈ m' -> key v = k) /\ forall k, k ∈ keys m' <-> k ∈ keys m \/ k ∈ key <$> values) as H.
  { destruct (H []) as (H1 & H2 & H3); [apply NoDup_nil_2|intros k v Hkv; by apply not_elem_of_nil in Hkv|].
    set (m' := foldl _ _ _) in *. assert (key <$> m'.*2 = keys m') as ->.
    { unfold keys. rewrite <- list_fmap_compose. apply list_fmap_ext. intros i [k v] Hi. cbn. by apply H2, (list_elem_of_lookup_2 _ i). }
    split; [done|]. intros k. rewrite H3. set_solver. }
  induction values as [|v values IH]; intros m Hn Hk; cbn [foldl].
  { split_and!; try done. set_solver. }
  destruct (IH (jset m (key v) v)) as (H1 & H2 & H3).
  - rewrite keys_jset. destruct (decide _); [done|]. apply NoDup_app. split; [done|]. split; [set_solver|apply NoDup_singleton].
  - intros k w Hin. apply jget_In in Hin; [|]. 2: { rewrite keys_jset. destruct (decide _); [done|]. apply NoDup_app. split; [done|]. split; [set_solver|apply NoDup_singleton]. }
    rewrite jget_jset in Hin. destruct (decide _) as [<-|Hne]; [by injection Hin as <-|]. apply Hk. by apply jget_In.
  - split_and!; [done|done|]. intros k. rewrite H3, keys_jset. destruct (decide _); set_solver.
Qed.

(** C9 Resolution against the negotiated facts always answers, and exactly: the
    consumer is available just when it is unlocked, every node reported missing is
    a leaf that was not given, none is reported twice, granting the missing nodes
    unlocks the consumer, and the remediation lists each way to repair once. *)
Theorem capability_resolution_exact t av :
  known CAPABILITY_GRAPH t ->
  exists r, resolveCapability t av = Ok r /\ target r = t /\
    (available r = true <-> unlocked CAPABILITY_GRAPH av t) /\
    (forall j, j ∈ missing r -> j ∉ av /\ leaf CAPABILITY_GRAPH j) /\ NoDup (missing r) /\
    unlocked CAPABILITY_GRAPH (av ∪ list_to_set (missing r)) t /\
    NoDup (remediation_key <$> remedies r) /\
    (forall k, k ∈ remediation_key <$> remedies r <->
       exists j x, j ∈ missing r /\ capabilityRemediation CAPABILITY_GRAPH j = Ok x /\ k = remediation_key x).
Proof.
  intros Hk. destruct (resolve_lacks CAPABILITY_GRAPH (depth 8) capability_graph_ranked (S (length (nodes CAPABILITY_GRAPH))) av [] t Hk)
    as (m & Em & [H1 H2 H3 H4]).
  { pose proof (depth_bound 8 t). assert (8 < S (length (nodes CAPABILITY_GRAPH)))%nat by (apply Nat.ltb_lt; by vm_compute). lia. }
  { intros v Hv. by apply not_elem_of_nil in Hv. }
  destruct (traverse_Ok (capabilityRemediation CAPABILITY_GRAPH) (fun j x => capabilityRemediation CAPABILITY_GRAPH j = Ok x) m) as (rs & Ers & Hrs).
  { intros j (_ & n & Hn & _)%H2. exists (remediation n). unfold capabilityRemediation. by rewrite Hn. }
  unfold resolveCapability, resolve_in. rewrite Em. cbn [mbind result_bind]. rewrite Ers. cbn [mbind result_bind].
  eexists. split; [done|]. cbn [target available missing remedies]. destruct (uniqueBy_spec rs remediation_key) as [U1 U2].
  split_and!; try done.
  - rewrite <- H1, Nat.eqb_eq. split; [apply nil_length_inv|by intros ->].
  - intros k. rewrite U2, list_elem_of_fmap. split.
    + intros (x & -> & [i Hi]%list_elem_of_lookup). destruct (Forall2_lookup_r _ _ _ _ _ Hrs Hi) as (j & Hj & Hx).
      exists j, x. split; [by eapply list_elem_of_lookup_2|done].
    + intros (j & x & [i Hi]%list_elem_of_lookup & Hx & ->). destruct (Forall2_lookup_l _ _ _ _ _ Hrs Hi) as (y & Hy & Ey).
      rewrite Hx in Ey. injection Ey as <-. exists x. split; [done|by eapply list_elem_of_lookup_2].
Qed.

(** Filling a field without a writable terminal: one thing to repair. *)
Lemma capability_resolution_exact_witness :
  let av := list_to_set ["session.focus"; "session.semantic-tree"] : gset CapabilityNodeId in
  exists r, resolveCapability "public.action.fill" av = Ok r /\ target r = "public.action.fill" /\
    (available r = true <-> unlocked CAPABILITY_GRAPH av "public.action.fill") /\
    (forall j, j ∈ missing r -> j ∉ av /\ leaf CAPABILITY_GRAPH j) /\ NoDup (missing r) /\
    unlocked CAPABILITY_GRAPH (av ∪ list_to_set (missing r)) "public.action.fill" /\
    NoDup (remediation_key <$> remedies r) /\
    (forall k, k ∈ remediation_key <$> remedies r <->
       exists j x, j ∈ missing r /\ capabilityRemediation CAPABILITY_GRAPH j = Ok x /\ k = remediation_key x).
Proof.
  intros av. apply (capability_resolution_exact "public.action.fill" av).
  destruct (capabilityNode CAPABILITY_GRAPH "public.action.fill") as [n|] eqn:E; [by exists n|]. by vm_compute in E.
Defined.

(** Facts of producers, probes, providers and the terminal, and diagnostics,
    never unlock an API: what resolution answers for a strategy or a public
    consumer depends only on the session, runtime, strategy and public nodes that
    are given. *)
Theorem diagnostics_never_unlock t n av av' :
  capabilityNode CAPABILITY_GRAPH t = Ok n -> layer n ∈ [strategy; public] ->
  (forall j, deciding j = true -> j ∈ av <-> j ∈ av') ->
  resolveCapability t av = resolveCapability t av'.
Proof.
  intros Hn Hl Hav. unfold resolveCapability, resolve_in.
  rewrite (resolve_local CAPABILITY_GRAPH (fun j => deciding j = true) _ av av'); [done| |exact Hav|].
  - apply requirements_deciding.
  - assert (forallb (fun n => negb (includes [strategy; public] (layer n)) || deciding (id n)) (nodes CAPABILITY_GRAPH) = true)
      as H by by vm_compute.
    rewrite forallb_forall in H. unfold capabilityNode in Hn. destruct (List.find _ _) as [n'|] eqn:E; [|done]. injection Hn as <-.
    apply List.find_some in E as [E <-%same_spec]. specialize (H n' E). unfold includes in H.
    by rewrite bool_decide_eq_true_2 in H by exact Hl.
Qed.

Lemma diagnostics_never_unlock_witness :
  resolveCapability "public.action.click" (list_to_set ["diagnostic.geometry"; "provider.hit-test"; "session.pointer-input"]) =
  resolveCapability "public.action.click" (list_to_set ["session.pointer-input"]).
Proof.
  destruct (capabilityNode CAPABILITY_GRAPH "public.action.click") as [n|] eqn:E; [|by vm_compute in E].
  apply (diagnostics_never_unlock "public.action.click" n); [done| |].
  - vm_compute in E. injection E as <-. cbn. set_solver.
  - intros j Hj. cbn. rewrite !elem_of_union, !elem_of_singleton. split; [|tauto].
    intros [->|[->|H]]; [by vm_compute in Hj|by vm_compute in Hj|exact H].
Defined.

(** The alternative with the fewest missing nodes is chosen by itself, so a
    repair can be asked for that the rest of the report makes unnecessary:
    keyboard input alone would do here. *)
Example missing_not_minimal :
  let av := list_to_set ["runtime.writable-pty"; "session.pointer-geometry"; "session.pointer-input"; "runtime.committed-observation";
                         "runtime.terminal-input-modes-authoritative"] : gset CapabilityNodeId in
  missing <$> resolveCapability "public.action.fill" av = Ok ["runtime.mouse-reporting-enabled"; "session.keyboard-input"] /\
  available <$> resolveCapability "public.action.fill" ({["session.keyboard-input"]} ∪ av) = Ok true.
Proof. by vm_compute. Qed.

(** The published graph passes its own integrity gate. *)
Example capability_graph_valid : validateCapabilityGraph = (true, []).
Proof. by vm_compute. Qed.

(** ** Session capabilities *)

Lemma substring_all s : String.substring 0 (String.length s) s = s.
Proof. induction s as [|c s IH]; cbn; [done|by f_equal]. Qed.

Lemma prefix_slice p s : startsWith p s = true <-> s = p +:+ slice (String.length p) s.
Proof.
  unfold startsWith, slice. revert s. induction p as [|a p IH]; intros s.
  { cbn. rewrite Nat.sub_0_r, substring_all. by destruct s. }
  destruct s as [|b s]; [done|]. cbn [String.prefix String.length Nat.sub String.substring String.append].
  match goal with |- context [String a p +:+ ?x] => change (String a p +:+ x) with (String a (p +:+ x)) end.
  destruct (Ascii.ascii_dec a b) as [->|Hne]; [|split; [done|congruence]]. rewrite IH. split; [by intros <-|congruence].
Qed.

Lemma slice_app p s : slice (String.length p) (p +:+ s) = s.
Proof.
  unfold slice. induction p as [|a p IH]; cbn; [|exact IH]. by rewrite Nat.sub_0_r, substring_all.
Qed.

Lemma append_inj p s t : p +:+ s = p +:+ t -> s = t.
Proof. intros H. by rewrite <- (slice_app p s), H, slice_app. Qed.

(** The sources collected so far for each capability. *)
Lemma collected producers es (m : list (string * list CapabilityNodeId)) :
  NoDup (keys m) ->
  let m' := foldl (fun m e =>
      if producing producers e then
        let capability := slice (String.length "session.") (to e) in
        jset m capability (default [] (jget m capability) ++ [from e])
      else m) m es in
  NoDup (keys m') /\
  forall c, jget m' c =
    match default [] (jget m c) ++ (from <$> List.filter (fun e => producing producers e && same (to e) ("session." +:+ c)) es) with
    | [] => jget m c
    | l => Some l
    end.
Proof.
  revert m. induction es as [|e es IH]; intros m Hn; cbn [foldl List.filter].
  { split; [done|]. intros c. cbn. rewrite app_nil_r. by destruct (jget m c) as [[|]|]. }
  destruct (producing producers e) eqn:Ep; cbn [andb]; [|by apply IH].
  assert (to e = "session." +:+ slice (String.length "session.") (to e)) as Et.
  { apply prefix_slice. unfold producing in Ep. by destruct (startsWith _ _); [|rewrite andb_false_r in Ep]. }
  set (k := slice _ _) in *. destruct (IH (jset m k (default [] (jget m k) ++ [from e]))) as [H1 H2].
  { rewrite keys_jset. destruct (decide _); [done|]. apply NoDup_app. split; [done|]. split; [set_solver|apply NoDup_singleton]. }
  split; [done|]. intros c. rewrite H2, jget_jset. destruct (decide (k = c)) as [<-|Hne].
  - assert (same (to e) ("session." +:+ k) = true) as -> by by apply same_spec. cbn [fmap list_fmap].
    change (default [] (Some (default [] (jget m k) ++ [from e]))) with (default [] (jget m k) ++ [from e]).
    rewrite <- app_assoc. cbn [app]. by destruct (default [] (jget m k)).
  - assert (same (to e) ("session." +:+ c) = false) as ->; [|done].
    apply not_true_iff_false. rewrite same_spec, Et. intros H%append_inj. done.
Qed.

(** A session capability is present just when a negotiated producer has a
    produces edge to it, and its sources are those producers, each once, in the
    order of their text. *)
Theorem session_capabilities_exact producers :
  let m := sessionCapabilitiesFromProducers CAPABILITY_GRAPH producers in
  NoDup (keys m) /\
  (forall c srcs, jget m c = Some srcs <->
    srcs <> [] /\ StronglySorted String.le srcs /\ NoDup srcs /\
    forall p, p ∈ srcs <-> p ∈ producers /\ edge p ("session." +:+ c) produces ∈ edges CAPABILITY_GRAPH) /\
  (forall c p, p ∈ producers -> edge p ("session." +:+ c) produces ∈ edges CAPABILITY_GRAPH -> is_Some (jget m c)).
Proof.
  intros m. unfold sessionCapabilitiesFromProducers in m.
  destruct (collected producers (edges CAPABILITY_GRAPH) []) as [Hn Hg]; [apply NoDup_nil_2|].
  set (m0 := foldl _ _ _) in *.
  assert (keys m = keys m0) as Ek.
  { unfold keys, m. rewrite <- list_fmap_compose. by apply list_fmap_ext. }
  assert (forall c, jget m c = (fun l => merge_sort String.le (unique l)) <$> jget m0 c) as Em.
  { intros c. subst m. clear. induction m0 as [|[k v] m0 IH]; cbn; [done|]. by destruct (decide (k = c)). }
  rewrite Ek. split; [done|].
  enough (forall c, (forall srcs, jget m c = Some srcs <->
    srcs <> [] /\ StronglySorted String.le srcs /\ NoDup srcs /\
    forall p, p ∈ srcs <-> p ∈ producers /\ edge p ("session." +:+ c) produces ∈ edges CAPABILITY_GRAPH) /\
    forall p, p ∈ producers -> edge p ("session." +:+ c) produces ∈ edges CAPABILITY_GRAPH -> is_Some (jget m c)) as H
    by (split; intros c; apply H).
  intros c. rewrite Em, Hg. cbn [jget]. change (default [] None) with ([] : list CapabilityNodeId). cbn [app].
  set (l := from <$> _).
  assert (forall p, p ∈ l <-> p ∈ producers /\ edge p ("session." +:+ c) produces ∈ edges CAPABILITY_GRAPH) as Hl.
  { intros p. unfold l. rewrite list_elem_of_fmap. setoid_rewrite list_elem_of_In. setoid_rewrite filter_In.
    setoid_rewrite <- list_elem_of_In. setoid_rewrite andb_true_iff. setoid_rewrite same_spec. unfold producing.
    setoid_rewrite andb_true_iff. setoid_rewrite andb_true_iff. setoid_rewrite bool_decide_eq_true. split.
    - intros (e & -> & He & [[Hk _] Hp] & Ht). split; [done|]. rewrite <- Hk, <- Ht. by destruct e.
    - intros [Hp He]. exists (edge p ("session." +:+ c) produces). cbn. split_and!; try done. by destruct c. }
  clearbody l. assert (forall s, s ∈ merge_sort String.le (unique l) <-> s ∈ l) as Hs.
  { intros s. rewrite (merge_sort_Permutation String.le (unique l)). apply elem_of_unique. }
  assert (StronglySorted String.le (merge_sort String.le (unique l))) as Hsort by (apply StronglySorted_merge_sort; apply _).
  assert (NoDup (merge_sort String.le (unique l))) as Hnd by (rewrite (merge_sort_Permutation String.le (unique l)); apply unique_NoDup).
  split; [intros srcs; split|].
  - intros H. destruct l as [|x l']; [done|]. change (Some (merge_sort String.le (unique (x :: l'))) = Some srcs) in H. injection H as <-. split_and!; [|done|done|].
    + intros E. specialize (Hs x). rewrite E in Hs. apply (not_elem_of_nil x), Hs. left.
    + intros p. by rewrite Hs.
  - intros (Hne & Hso & Hno & Hp).
    assert (merge_sort String.le (unique l) = srcs) as Esrcs.
    { apply StronglySorted_unique with String.le; [apply _|done|done|]. apply NoDup_Permutation; [done|done|].
      intros x. by rewrite Hs, Hl, Hp. }
    destruct l as [|x l']; [|exact (f_equal Some Esrcs)]. exfalso. apply Hne. by rewrite <- Esrcs.
  - intros p Hp He. destruct l as [|x l']; [|by eexists]. exfalso. by apply (not_elem_of_nil p), Hl.
Qed.
