(* ===== verification/SessionContract.v ===== *)
(** * The session contract (packages/driver/src/internal/session-semantic-plane.ts)

    What one session is negotiated to offer, frozen from the attachment of the
    adapter and the terminal through the produces edges of the capability graph. *)

From stdpp Require Import sorting.
From S2P Require Import Prelude JsText Dto JsObject Tree CapabilityGraph CapabilityTheorems.

(** ** Data (packages/protocol/src/contract.ts, probe/ir.ts) *)

Inductive ProviderMethod : Set := by_native | by_declared.

Record EvidenceProviderRegistration : Type := {
  rg_id : jstring;
  rg_version : jstring;
  rg_capabilities : list string;
  rg_method : ProviderMethod;
}.

Record ProbeInstrumentation : Type := { highestTier : string; semanticClass : string; degradedCapabilities : list string }.

Record ProbeInfo : Type := {
  pi_framework : jstring;
  frameworkVersion : option jstring;
  probeVersion : jstring;
  identityKind : string;
  pi_capabilities : list string;
  instrumentation : ProbeInstrumentation;
}.

Record SemanticAttachment : Type := {
  adapter_name : jstring;
  adapter_version : jstring;
  at_capabilities : list string;
  markerEnabled : bool;
  logsEnabled : bool;
  probe : option ProbeInfo;
  at_providers : list EvidenceProviderRegistration;
}.

Record SessionContractInput : Type := {
  sessionId : jstring;
  attachment : option SemanticAttachment;
  terminalProfile : jstring;
  platform : jstring;
  modesObservable : option bool;
}.

Inductive UnsupportedReason : Set := r_not_negotiated | r_framework_unobservable | r_terminal_unobservable | r_provider_required.

Inductive SessionCapabilityAvailability : Type :=
| supported (ev : EvidenceProvenance)
| unsupported (reason : UnsupportedReason).

Inductive ContractProvider : Type :=
| framework_provider (i version : jstring)
| terminal_provider (i version : jstring)
| application_provider (i version : jstring) (method : ProviderMethod) (capabilities : list string).

Record ContractFramework : Type := {
  cf_name : jstring;
  cf_version : jstring;
  adapterVersion : jstring;
  certificationId : jstring;
  cf_instrumentation : option ProbeInstrumentation;
}.

Record EffectiveSessionContract : Type := {
  contractId : jstring;
  c_sessionId : jstring;
  epoch : Z;
  c_framework : option ContractFramework;
  c_providers : list ContractProvider;
  c_capabilities : list (string * SessionCapabilityAvailability);
  c_profile : jstring;
  c_platform : jstring;
  mouseModesObservable : bool;
}.

(** ** [buildSessionContract] *)

Definition authoritative (s : EvidenceSource) (m : EvidenceMethod) (i : jstring) : EvidenceProvenance :=
  {| ev_source := s; ev_method := m; ev_strength := es_authoritative; ev_providerId := i |}.

Definition terminalEvidence : EvidenceProvenance := authoritative terminal native (js "termwright-vt").

Definition frameworkId (a : option SemanticAttachment) : jstring :=
  match a with
  | None => js "generic"
  | Some a => match probe a with Some p => pi_framework p | None => adapter_name a end
  end.

Definition frameworkEvidence (a : option SemanticAttachment) : EvidenceProvenance :=
  authoritative framework (match a ≫= probe with None => declared | Some _ => instrumented end) (frameworkId a).

Definition evidence_method (m : ProviderMethod) : EvidenceMethod := match m with by_native => native | by_declared => declared end.
Definition applicationEvidence (i : jstring) (m : ProviderMethod) : EvidenceProvenance := authoritative application (evidence_method m) i.

Definition registrations (input : SessionContractInput) : list EvidenceProviderRegistration :=
  match attachment input with Some a => at_providers a | None => [] end.

Definition observable (input : SessionContractInput) : bool := negb (bool_decide (modesObservable input = Some false)).

(** The producers of this session. *)
Definition producerNodes_of (input : SessionContractInput) : gset CapabilityNodeId :=
  list_to_set (
    ((fun c => "adapter." +:+ c) <$> match attachment input with Some a => at_capabilities a | None => [] end) ++
    ((fun c => "probe." +:+ c) <$> match attachment input ≫= probe with Some p => pi_capabilities p | None => [] end) ++
    mjoin ((fun r => (fun c => "provider." +:+ c) <$> rg_capabilities r) <$> registrations input) ++
    ["terminal.writable-pty"] ++
    (if observable input then ["terminal.input-modes-observable"] else [])).

Definition evidenceFor (input : SessionContractInput) (sources : list CapabilityNodeId) : EvidenceProvenance :=
  let fallback := if existsb (startsWith "terminal.") sources then terminalEvidence else frameworkEvidence (attachment input) in
  match List.find (startsWith "provider.") sources with
  | None => fallback
  | Some s =>
      match List.find (fun r => includes (rg_capabilities r) (slice (String.length "provider.") s)) (registrations input) with
      | Some r => applicationEvidence (rg_id r) (rg_method r)
      | None => fallback
      end
  end.

Definition unsupportedReason (capability : string) : UnsupportedReason :=
  if includes ["pointer-input"; "focus-input"] capability then r_terminal_unobservable
  else if includes ["pointer-geometry"; "pointer-hit-testing"; "focus"; "action-strategies"] capability then r_provider_required
  else if includes ["semantic-tree"; "paired-revisions"] capability then r_not_negotiated
  else r_framework_unobservable.

Definition CONTRACT_CAPABILITIES : list string :=
  ["semantic-tree"; "stable-identity"; "intended-geometry"; "clipped-geometry"; "painted-region"; "pointer-geometry";
   "pointer-hit-testing"; "focus"; "scroll"; "render-order"; "action-strategies"; "keyboard-input"; "pointer-input";
   "focus-input"; "paired-revisions"].

Definition availability (input : SessionContractInput) (produced : list (string * list CapabilityNodeId)) (capability : string)
    : SessionCapabilityAvailability :=
  if jhas produced capability then supported (evidenceFor input (default [] (jget produced capability)))
  else unsupported (unsupportedReason capability).

Definition session_providers (input : SessionContractInput) : list ContractProvider :=
  match attachment input with
  | None => [terminal_provider (js "termwright-vt") (js "1")]
  | Some a =>
      framework_provider (frameworkId (Some a)) (default (adapter_version a) (probe a ≫= frameworkVersion)) ::
      ((fun r => application_provider (rg_id r) (rg_version r) (rg_method r) (rg_capabilities r)) <$> at_providers a) ++
      [terminal_provider (js "termwright-vt") (js "1")]
  end.

Definition session_framework (a : SemanticAttachment) : ContractFramework :=
  let version := default (adapter_version a) (probe a ≫= frameworkVersion) in
  {| cf_name := frameworkId (Some a); cf_version := version; adapterVersion := adapter_version a;
     certificationId := frameworkId (Some a) ++ js "@" ++ version ++ js "/" ++ adapter_version a;
     cf_instrumentation := instrumentation <$> probe a |}.

Definition buildSessionContract (input : SessionContractInput) : EffectiveSessionContract :=
  let produced := sessionCapabilitiesFromProducers CAPABILITY_GRAPH (producerNodes_of input) in
  {| contractId := sessionId input ++ js ":0"; c_sessionId := sessionId input; epoch := 0;
     c_framework := session_framework <$> attachment input;
     c_providers := session_providers input;
     c_capabilities := foldl (fun o c => jset o c (availability input produced c)) [] CONTRACT_CAPABILITIES;
     c_profile := terminalProfile input; c_platform := platform input; mouseModesObservable := observable input |}.

(** ** What the contract says *)

Lemma elem_of_producers input p :
  p ∈ producerNodes_of input <->
  (exists a c, attachment input = Some a /\ c ∈ at_capabilities a /\ p = "adapter." +:+ c) \/
  (exists q c, attachment input ≫= probe = Some q /\ c ∈ pi_capabilities q /\ p = "probe." +:+ c) \/
  (exists r c, r ∈ registrations input /\ c ∈ rg_capabilities r /\ p = "provider." +:+ c) \/
  p = "terminal.writable-pty" \/ (p = "terminal.input-modes-observable" /\ observable input = true).
Proof.
  unfold producerNodes_of. rewrite elem_of_list_to_set, !elem_of_app, !list_elem_of_fmap, list_elem_of_join, list_elem_of_singleton.
  setoid_rewrite list_elem_of_fmap.
  assert (p ∈ (if observable input then ["terminal.input-modes-observable"] else []) <->
          p = "terminal.input-modes-observable" /\ observable input = true) as ->.
  { destruct (observable input); [rewrite list_elem_of_singleton; tauto|]. rewrite elem_of_nil. naive_solver. }
  split.
  - intros [(c & -> & H)|[(c & -> & H)|[(l & Hp & r & -> & Hr)|H]]].
    + left. destruct (attachment input) as [a|]; [by exists a, c|by apply not_elem_of_nil in H].
    + right; left. destruct (attachment input ≫= probe) as [q|]; [by exists q, c|by apply not_elem_of_nil in H].
    + right; right; left. apply list_elem_of_fmap in Hp as (c & -> & Hc). by exists r, c.
    + by right; right; right.
  - intros [(a & c & -> & H & ->)|[(q & c & -> & H & ->)|[(r & c & Hr & Hc & ->)|H]]]; [left; by exists c|right; left; by exists c| |by right; right; right].
    right; right; left. exists ((fun c => "provider." +:+ c) <$> rg_capabilities r). split; [|by exists r].
    apply list_elem_of_fmap. by exists c.
Qed.

(** A producer [p] of this session stands behind capability [c]. *)
Definition produced_by (input : SessionContractInput) (c p : string) : Prop :=
  p ∈ producerNodes_of input /\ edge p ("session." +:+ c) produces ∈ edges CAPABILITY_GRAPH.

(** The evidence names a producer that is really there. *)
Definition truthful (input : SessionContractInput) (c : string) (ev : EvidenceProvenance) : Prop :=
  ev_strength ev = es_authoritative /\
  match ev_source ev with
  | application =>
      exists r cap, r ∈ registrations input /\ cap ∈ rg_capabilities r /\ produced_by input c ("provider." +:+ cap) /\
        ev_providerId ev = rg_id r /\ ev_method ev = evidence_method (rg_method r)
  | terminal => exists p, produced_by input c p /\ startsWith "terminal." p = true
  | framework =>
      exists a p, attachment input = Some a /\ produced_by input c p /\
        (startsWith "adapter." p = true \/ startsWith "probe." p = true) /\ ev_providerId ev = frameworkId (Some a)
  | _ => False
  end.

Lemma startsWith_app p s : startsWith p (p +:+ s) = true.
Proof. apply prefix_slice. by rewrite slice_app. Qed.

Lemma find_none {A} (f : A -> bool) l : List.find f l = None -> forall x, x ∈ l -> f x = false.
Proof. intros H x Hx%list_elem_of_In. by eapply List.find_none. Qed.
Lemma find_some {A} (f : A -> bool) l x : List.find f l = Some x -> x ∈ l /\ f x = true.
Proof. intros [H1 H2]%List.find_some. by rewrite list_elem_of_In. Qed.

Lemma evidenceFor_truthful input c srcs :
  srcs <> [] -> (forall p, p ∈ srcs <-> produced_by input c p) -> truthful input c (evidenceFor input srcs).
Proof.
  intros Hne Hs. unfold evidenceFor. destruct (List.find (startsWith "provider.") srcs) as [s|] eqn:E.
  - apply find_some in E as [Hin Hpre]. pose proof Hpre as Hs'. apply prefix_slice in Hs'. set (cap := slice _ s) in *.
    apply Hs in Hin as [Hp He]. pose proof Hp as Hp'. apply elem_of_producers in Hp' as [(a & k & _ & _ & ->)|[(q & k & _ & _ & ->)|[(r & k & Hr & Hk & Es)|[->|[-> _]]]]];
      try (by cbn in Hpre).
    assert (k = cap) as -> by (rewrite Hs' in Es; by apply append_inj in Es).
    destruct (List.find _ (registrations input)) as [r'|] eqn:Er.
    + apply find_some in Er as [Hr' Hc']. unfold includes in Hc'. apply bool_decide_eq_true in Hc'.
      split; [done|]. cbn. exists r', cap. split_and!; try done; rewrite <- Hs'; done.
    + apply (find_none _ _ Er) in Hr. unfold includes in Hr. by apply bool_decide_eq_false in Hr.
  - destruct (existsb (startsWith "terminal.") srcs) eqn:Et.
    + apply existsb_exists in Et as (p & Hp%list_elem_of_In & Hpre). split; [done|]. cbn. exists p. by rewrite <- Hs.
    + destruct srcs as [|p srcs]; [done|]. assert (produced_by input c p) as Hp by (apply Hs; left).
      pose proof (find_none _ _ E p ltac:(left)) as Hnp.
      assert (startsWith "terminal." p = false) as Hnt by (cbn [existsb] in Et; by apply orb_false_iff in Et as [? _]).
      destruct (Hp) as [Hin _]. apply elem_of_producers in Hin.
      destruct Hin as [(a & k & Ha & _ & ->)|[(q & k & Hq & _ & ->)|[(r & k & _ & _ & ->)|[->|[-> _]]]]]; try (by rewrite startsWith_app in Hnp); try (by vm_compute in Hnt).
      * split; [done|]. cbn. exists a, ("adapter." +:+ k). rewrite Ha. split_and!; [done|done|left; apply startsWith_app|done].
      * destruct (attachment input) as [a|] eqn:Ha; [|done]. split; [done|]. cbn. exists a, ("probe." +:+ k).
        split_and!; [done|done|right; apply startsWith_app|done].
Qed.

Lemma jget_fold {V} (f : string -> V) ks c :
  NoDup ks -> jget (foldl (fun o k => jset o k (f k)) [] ks) c = if decide (c ∈ ks) then Some (f c) else None.
Proof.
  intros _. enough (forall o, jget (foldl (fun o k => jset o k (f k)) o ks) c = if decide (c ∈ ks) then Some (f c) else jget o c) as H by apply H.
  induction ks as [|k ks IH]; intros o; cbn [foldl]; [done|]. rewrite IH, jget_jset.
  destruct (decide (c ∈ ks)) as [Hi|Hi]; [by rewrite decide_True by by right|]. destruct (decide (k = c)) as [->|Hne].
  - rewrite decide_True; [done|left].
  - rewrite decide_False; [done|]. intros [->|?]%elem_of_cons; done.
Qed.

(** C39 The session contract claims what was negotiated and nothing else: a
    capability is supported just when a producer of the session has a produces edge
    to it, its evidence names the registered provider, the terminal or the attached
    framework such a producer belongs to, and without an attachment no framework
    is named. *)
Theorem contract_claims_exactly input c :
  c ∈ SESSION_CAPABILITIES ->
  match jget (c_capabilities (buildSessionContract input)) c with
  | Some (supported ev) => truthful input c ev
  | Some (unsupported _) => forall p, ~ produced_by input c p
  | None => False
  end.
Proof.
  intros Hc. unfold buildSessionContract. cbn [c_capabilities]. rewrite jget_fold by (apply (bool_decide_unpack _); by vm_compute).
  rewrite decide_True by exact Hc. destruct (session_capabilities_exact (producerNodes_of input)) as (_ & Hx & Hy).
  unfold availability. destruct (jhas _ c) eqn:Eh.
  - apply jhas_true in Eh as [srcs Es]. rewrite Es. cbn [default]. apply Hx in Es as (Hne & _ & _ & Hp). apply evidenceFor_truthful; [done|]. intros p. apply Hp.
  - intros p [Hp He]. apply jhas_false in Eh. apply Eh. destruct (Hy c p Hp He) as [srcs Es]. by eapply jget_Some_keys.
Qed.

(** An application that brings its own focus manager, on a terminal whose modes
    are not observable. *)
Definition focus_registration : EvidenceProviderRegistration :=
  {| rg_id := js "app.focus"; rg_version := js "2"; rg_capabilities := ["focus-state"]; rg_method := by_native |}.
Definition provided : SessionContractInput :=
  {| sessionId := js "s1"; terminalProfile := js "xterm"; platform := js "linux"; modesObservable := Some false;
     attachment := Some {| adapter_name := js "ink"; adapter_version := js "1"; at_capabilities := ["tree"; "focus-state"]; markerEnabled := false; logsEnabled := false;
                           probe := None; at_providers := [focus_registration] |} |}.

Lemma contract_claims_exactly_witness :
  jget (c_capabilities (buildSessionContract provided)) "focus" = Some (supported (applicationEvidence (js "app.focus") by_native)) /\
  match jget (c_capabilities (buildSessionContract provided)) "focus" with
  | Some (supported ev) => truthful provided "focus" ev
  | Some (unsupported _) => forall p, ~ produced_by provided "focus" p
  | None => False
  end.
Proof. split; [by vm_compute|]. apply (contract_claims_exactly provided "focus"). apply (bool_decide_unpack _). by vm_compute. Defined.

Example bare_session :
  let input := {| sessionId := js "s1"; terminalProfile := js "xterm"; platform := js "linux"; modesObservable := None; attachment := None |} in
  List.filter (fun kv => match kv.2 with supported _ => true | _ => false end) (c_capabilities (buildSessionContract input)) =
  [("keyboard-input", supported terminalEvidence); ("pointer-input", supported terminalEvidence); ("focus-input", supported terminalEvidence)].
Proof. by vm_compute. Qed.
