(* ===== verification/ActionModel.v ===== *)
(** * Actions and conditions (packages/protocol/src/action-model.ts)

    The vocabulary action planning, traces and artifacts share: conditions on a
    target, intents, device operations, plans and receipts, and what of a plan and
    its receipt crosses the artifact boundary. *)

From S2P Require Import Prelude JsText Tree ArtifactSafety.
From S2P Require Mouse.

Local Open Scope Z_scope.

(** ** Observations (packages/protocol/src/observation.ts) *)

(** Atomic identity of the screen and tree pair an observation was made on. *)
Record ObservationStamp : Type := {
  os_sessionId : jstring;
  os_contractId : jstring;
  os_epoch : Z;
  os_sequence : Z;
  os_screenRevision : Z;
  os_semanticRevision : option Z;
  os_pairedScreenRevision : option Z;
}.

(** ** Conditions *)

Inductive ConditionTextMatcher : Type :=
| cm_exact (text : jstring)
| cm_substring (text : jstring)
| cm_regex (pattern flags : jstring).

(** The conditions about one target. *)
Inductive LeafCondition : Type :=
| c_attached (target : jstring)
| c_detached (target : jstring)
| c_displayed (target : jstring)
| c_hidden (target : jstring)
| c_visible (target : jstring)
| c_in_viewport (target : jstring) (minRatio : number)
| c_offscreen (target : jstring)
| c_receives_pointer (target : jstring)
| c_pointer_region (target : jstring)
| c_pointer_input (target : jstring)
| c_mouse_input_enabled (target : jstring)
| c_enabled (target : jstring)
| c_disabled (target : jstring)
| c_focused (target : jstring)
| c_checked (target : jstring) (value : bool)
| c_selected (target : jstring) (value : bool)
| c_expanded (target : jstring) (value : bool)
| c_collapsed (target : jstring)
| c_value (target : jstring) (matcher : ConditionTextMatcher).

Inductive Condition : Type :=
| c_leaf (leaf : LeafCondition)
| c_not (condition : Condition)
| c_all (conditions : list Condition)
| c_any (conditions : list Condition).

Inductive Verdict : Set := satisfied | unsatisfied | inconclusive.
Global Instance Verdict_eq_dec : EqDecision Verdict.
Proof. solve_decision. Defined.

Record ConditionResult : Type := {
  cr_condition : Condition;
  cr_checkpoint : ObservationStamp;
  cr_observation : Observation bool;
  verdict : Verdict;
}.

(** A region as non-overlapping spans of rows. *)
Record PhysicalRegion : Type := {
  rg_checkpoint : ObservationStamp;
  rg_coordinateSpace : CoordinateSpace;
  rg_intendedRect : Rect;
  rg_spans : list Span;
  rg_evidence : EvidenceProvenance;
}.

(** ** Intents and device operations *)

Inductive ActionKind : Set :=
| a_click | a_double_click | a_hover | a_drag | a_focus | a_activate | a_press | a_type | a_paste | a_fill | a_check
| a_uncheck | a_wheel | a_shell_command | a_resize.
Global Instance ActionKind_eq_dec : EqDecision ActionKind.
Proof. solve_decision. Defined.

(** [via] is kept as text: an untyped caller can pass any. *)
Record ActionIntent : Type := {
  i_kind : ActionKind;
  i_selector : option jstring;
  i_targetRef : option jstring;
  i_via : option jstring;
}.

Inductive KeyboardKind : Set := k_press | k_type | k_paste.
Inductive MouseKind : Set := m_move | m_down | m_up | m_wheel.

Record MouseOperation : Type := {
  m_kind : MouseKind;
  m_row : Z;
  m_column : Z;
  m_button : option Mouse.MouseButton;
  m_modifiers : option (list Mouse.MouseModifier);
  m_deltaX : option Z;
  m_deltaY : option Z;
}.

Inductive ExecutableDeviceOperation : Type :=
| e_keyboard (kind : KeyboardKind) (value : ExecutableValue)
| e_mouse (operation : MouseOperation).

Inductive RecordedDeviceOperation : Type :=
| r_keyboard (kind : KeyboardKind) (value : RecordedValue)
| r_mouse (operation : MouseOperation).

Definition recordDeviceOperation (operation : ExecutableDeviceOperation) (policy : ArtifactValuePolicy) : RecordedDeviceOperation :=
  match operation with
  | e_mouse m => r_mouse m
  | e_keyboard k_press (plain_value t) => r_keyboard k_press (recorded_known t public)
  | e_keyboard k v => r_keyboard k (recordValue v policy)
  end.

Inductive Outcome : Set := completed | partial | failed.

Record ExecutableActionPlan : Type := {
  x_actionId : jstring;
  x_contractId : jstring;
  x_intent : ActionIntent;
  x_checkpoint : ObservationStamp;
  x_requirements : list ConditionResult;
  x_strategy : jstring;
  x_physicalRegion : option PhysicalRegion;
  x_operations : list ExecutableDeviceOperation;
}.

Record ActionPlan : Type := {
  actionId : jstring;
  contractId : jstring;
  intent : ActionIntent;
  checkpoint : ObservationStamp;
  requirements : list ConditionResult;
  strategy : jstring;
  physicalRegion : option PhysicalRegion;
  operations : list RecordedDeviceOperation;
  valuePolicy : ArtifactValuePolicy;
}.

(** Why an action can or cannot be planned; the message of the reason is dropped. *)
Record ActionabilityReason : Type := { ar_code : jstring; ar_targetRef : option jstring }.
Record ActionabilityExplanation : Type := {
  actionable : bool;
  ae_intent : ActionIntent;
  ae_checkpoint : ObservationStamp;
  ae_requirements : list ConditionResult;
  ae_strategy : option jstring;
  ae_reason : option ActionabilityReason;
}.

Record ActionReceipt : Type := {
  rc_intent : ActionIntent;
  plan : ActionPlan;
  before : ObservationStamp;
  after : ObservationStamp;
  executed : list RecordedDeviceOperation;
  outcome : Outcome;
}.

Definition recordActionPlan (p : ExecutableActionPlan) (policy : ArtifactValuePolicy) : ActionPlan :=
  {| actionId := x_actionId p; contractId := x_contractId p; intent := x_intent p; checkpoint := x_checkpoint p;
     requirements := x_requirements p; strategy := x_strategy p; physicalRegion := x_physicalRegion p;
     operations := (fun o => recordDeviceOperation o policy) <$> x_operations p; valuePolicy := policy |}.

(** [project] of [projectActionReceiptForArtifact] *)
Definition project_operation (policy : ArtifactValuePolicy) (operation : RecordedDeviceOperation) : RecordedDeviceOperation :=
  match operation with
  | r_mouse _ | r_keyboard _ (recorded_withheld _) | r_keyboard k_press (recorded_known _ public) => operation
  | r_keyboard k (recorded_known _ s) => if publishes policy s then operation else r_keyboard k (recorded_withheld s)
  end.

Definition projectActionReceiptForArtifact (receipt : ActionReceipt) (policy : ArtifactValuePolicy) : ActionReceipt :=
  let p := plan receipt in
  {| rc_intent := rc_intent receipt;
     plan := {| actionId := actionId p; contractId := contractId p; intent := intent p; checkpoint := checkpoint p;
                requirements := requirements p; strategy := strategy p; physicalRegion := physicalRegion p;
                operations := project_operation policy <$> operations p; valuePolicy := policy |};
     before := before receipt; after := after receipt; executed := project_operation policy <$> executed receipt;
     outcome := outcome receipt |}.

(** ** Recording and projecting *)

(** The stricter of two policies. *)
Definition stricter (p q : ArtifactValuePolicy) : ArtifactValuePolicy :=
  match p, q with
  | policy_none, _ | _, policy_none => policy_none
  | redacted, _ | _, redacted => redacted
  | policy_raw, policy_raw => policy_raw
  end.

Definition public_press (o : ExecutableDeviceOperation) : Prop := exists t, o = e_keyboard k_press (wrapped public t).

Lemma project_record o p q :
  ~ public_press o -> project_operation p (recordDeviceOperation o q) = recordDeviceOperation o (stricter p q).
Proof.
  intros H. destruct o as [k [t|[] t]|m]; [..|done]; destruct k; try (destruct p, q; by cbn). destruct H. by exists t.
Qed.

(** Projecting what was recorded gives what recording under the stricter policy
    would have given: nothing withheld comes back and nothing the projection
    withholds stays, keys pressed by name aside. *)
Theorem projection_is_stricter_recording p q ops :
  Forall (fun o => ~ public_press o) ops ->
  project_operation p <$> ((fun o => recordDeviceOperation o q) <$> ops) = (fun o => recordDeviceOperation o (stricter p q)) <$> ops.
Proof.
  intros H. rewrite <- list_fmap_compose. apply list_fmap_ext. intros i o Ho. apply project_record.
  by apply (Forall_lookup_1 _ _ _ _ H Ho).
Qed.

(** Projecting twice is projecting once, and a receipt keeps everything but values. *)
Theorem receipt_projection_idempotent receipt p :
  projectActionReceiptForArtifact (projectActionReceiptForArtifact receipt p) p = projectActionReceiptForArtifact receipt p.
Proof.
  assert (forall l : list RecordedDeviceOperation, project_operation p <$> (project_operation p <$> l) = project_operation p <$> l) as H.
  { intros l. rewrite <- list_fmap_compose. apply list_fmap_ext. intros i o _. cbn.
    destruct o as [[] [t []|s]|m], p; done. }
  unfold projectActionReceiptForArtifact. cbn. by rewrite !H.
Qed.
(** A key given as a public value is withheld when recorded under the policy that
    publishes nothing, but not when a receipt is projected under it. *)
Example public_press_survives (t : jstring) :
  recordDeviceOperation (e_keyboard k_press (wrapped public t)) policy_none = r_keyboard k_press (recorded_withheld public) /\
  project_operation policy_none (recordDeviceOperation (e_keyboard k_press (wrapped public t)) redacted) =
    r_keyboard k_press (recorded_known t public).
Proof. done. Qed.
