(* ===== verification/Conditions.v ===== *)
(** * Conditions over observed evidence (packages/driver/src/action-planner.ts)

    [evaluateCondition] decides a tree of conditions from observations that may be
    missing.  Its verdicts are three-valued logic: conclusive only when every way
    the missing evidence could turn out agrees. *)

From S2P Require Import Prelude JsText Tree ActionModel.

(** ** Evaluation *)

(** [result] of the source. *)
Definition condition_result (condition : Condition) (checkpoint : ObservationStamp) (observation : Observation bool) : ConditionResult :=
  {| cr_condition := condition; cr_checkpoint := checkpoint; cr_observation := observation;
     verdict := match observation with known true _ => satisfied | known false _ => unsatisfied | _ => inconclusive end |}.

Definition derivedEvidence : EvidenceProvenance :=
  {| ev_source := driver; ev_method := derived; ev_strength := es_authoritative; ev_providerId := js "termwright-condition" |}.

Definition is_known {A} (o : Observation A) : bool := match o with known _ _ => true | _ => false end.
Definition knows (v : bool) (o : Observation bool) : bool := match o with known w _ => Bool.eqb v w | _ => false end.

(** Any condition but [not] and [all] combines its children as [any] does. *)
Definition combineCondition (condition : Condition) (checkpoint : ObservationStamp) (children : list ConditionResult) : ConditionResult :=
  let inconclusive_on o := {| cr_condition := condition; cr_checkpoint := checkpoint; cr_observation := o; verdict := inconclusive |} in
  let conclude := condition_result condition checkpoint in
  match condition with
  | c_not _ =>
      match children with
      | [] => conclude (known true derivedEvidence)
      | child :: _ =>
          match cr_observation child with
          | known v evidence => conclude (known (negb v) evidence)
          | o => inconclusive_on o
          end
      end
  | _ =>
      let every := match condition with c_all _ => true | _ => false end in
      let knownChildren := List.filter (fun c => is_known (cr_observation c)) children in
      match List.find (fun c => knows (negb every) (cr_observation c)) knownChildren with
      | Some decisive => conclude (cr_observation decisive)
      | None =>
          match List.find (fun c => negb (is_known (cr_observation c))) children with
          | Some missing => inconclusive_on (cr_observation missing)
          | None =>
              match knownChildren with
              | [] => conclude (known every derivedEvidence)
              | child :: _ =>
                  match cr_observation child with
                  | known _ evidence => conclude (known every evidence)
                  | o => inconclusive_on o
                  end
              end
          end
      end
  end.

Fixpoint evaluateCondition (condition : Condition) (checkpoint : ObservationStamp) (observe : LeafCondition -> Observation bool) : ConditionResult :=
  match condition with
  | c_leaf l => condition_result condition checkpoint (observe l)
  | c_not c => combineCondition condition checkpoint [evaluateCondition c checkpoint observe]
  | c_all cs | c_any cs => combineCondition condition checkpoint (List.map (fun c => evaluateCondition c checkpoint observe) cs)
  end.

(** ** What verdicts mean *)

Section ConditionInd.
Context (P : Condition -> Prop).
Hypothesis P_leaf : forall l, P (c_leaf l).
Hypothesis P_not : forall c, P c -> P (c_not c).
Hypothesis P_joined : forall (every : bool) cs, Forall P cs -> P (if every then c_all cs else c_any cs).

(** Induction through the lists of conditions. *)
Fixpoint condition_ind (c : Condition) : P c :=
  let each := fix each (cs : list Condition) : Forall P cs :=
    match cs with [] => Forall_nil_2 _ | c :: cs => Forall_cons_2 _ _ _ (condition_ind c) (each cs) end in
  match c with
  | c_leaf l => P_leaf l
  | c_not c => P_not c (condition_ind c)
  | c_all cs => P_joined true cs (each cs)
  | c_any cs => P_joined false cs (each cs)
  end.
End ConditionInd.

(** The truth of a condition when nothing is hidden. *)
Fixpoint holds (truth : LeafCondition -> bool) (condition : Condition) : bool :=
  match condition with
  | c_leaf l => truth l
  | c_not c => negb (holds truth c)
  | c_all cs => forallb (holds truth) cs
  | c_any cs => existsb (holds truth) cs
  end.

Fixpoint leaves (condition : Condition) : list LeafCondition :=
  match condition with
  | c_leaf l => [l]
  | c_not c => leaves c
  | c_all cs | c_any cs => List.flat_map leaves cs
  end.

(** [truth] is one way the world can be, given what was observed. *)
Definition agrees (truth : LeafCondition -> bool) (observe : LeafCondition -> Observation bool) : Prop :=
  forall l v e, observe l = known v e -> truth l = v.

(** [observe'] knows all [observe] does. *)
Definition learns (observe observe' : LeafCondition -> Observation bool) : Prop :=
  forall l v e, observe l = known v e -> exists e', observe' l = known v e'.

Definition of_verdict (v : Verdict) : option bool := match v with satisfied => Some true | unsatisfied => Some false | inconclusive => None end.

Lemma verdict_none v : of_verdict v = None <-> v = inconclusive.
Proof. by destruct v. Qed.

Definition obs_value (o : Observation bool) : option bool := match o with known v _ => Some v | _ => None end.

(** The verdict is read off the observation. *)
Definition coherent (r : ConditionResult) : Prop := of_verdict (verdict r) = obs_value (cr_observation r).

Lemma condition_result_coherent c cp o : coherent (condition_result c cp o).
Proof. by destruct o as [[]| | |]. Qed.

Lemma find_knows b rs :
  List.find (fun c => knows b (cr_observation c)) (List.filter (fun c => is_known (cr_observation c)) rs) =
  List.find (fun c => knows b (cr_observation c)) rs.
Proof.
  induction rs as [|r rs IH]; [done|]. cbn. destruct (cr_observation r) as [v e| | |] eqn:E; cbn; rewrite ?E; cbn; try exact IH.
  by destruct (Bool.eqb b v); rewrite ?IH.
Qed.

Lemma find_Some {A} (f : A -> bool) l x : List.find f l = Some x -> x ∈ l /\ f x = true.
Proof. intros [H1 H2]%List.find_some. by rewrite list_elem_of_In. Qed.
Lemma find_None {A} (f : A -> bool) l x : List.find f l = None -> x ∈ l -> f x = false.
Proof. intros H Hx%list_elem_of_In. by eapply List.find_none. Qed.

(** A conjunction ([every]) or a disjunction of what is known. *)
Inductive joined (every : bool) (rs : list ConditionResult) : option bool -> Prop :=
| joined_decided r : r ∈ rs -> obs_value (cr_observation r) = Some (negb every) -> joined every rs (Some (negb every))
| joined_missing r : r ∈ rs -> obs_value (cr_observation r) = None ->
    (forall r', r' ∈ rs -> obs_value (cr_observation r') <> Some (negb every)) -> joined every rs None
| joined_every : (forall r, r ∈ rs -> obs_value (cr_observation r) = Some every) -> joined every rs (Some every).

(** What a combination of children answers. *)
Lemma combine_joined (every : bool) cs cp rs :
  let r := combineCondition (if every then c_all cs else c_any cs) cp rs in
  coherent r /\ joined every rs (of_verdict (verdict r)) /\
  (verdict r = inconclusive -> exists child, child ∈ rs /\ cr_observation r = cr_observation child /\ obs_value (cr_observation child) = None).
Proof.
  cbv zeta. assert (forall o, knows (negb every) o = true <-> obs_value o = Some (negb every)) as Hk.
  { intros [v e| | |]; cbn; try done. rewrite Bool.eqb_true_iff. split; [by intros ->|by intros [= ->]]. }
  assert (forall o : Observation bool, is_known o = false <-> obs_value o = None) as Hn by (intros []; cbn; split; congruence).
  assert (combineCondition (if every then c_all cs else c_any cs) cp rs =
    let condition := if every then c_all cs else c_any cs in
    match List.find (fun c => knows (negb every) (cr_observation c)) rs with
    | Some decisive => condition_result condition cp (cr_observation decisive)
    | None =>
        match List.find (fun c => negb (is_known (cr_observation c))) rs with
        | Some missing => {| cr_condition := condition; cr_checkpoint := cp; cr_observation := cr_observation missing; verdict := inconclusive |}
        | None => condition_result condition cp (known every (match rs with [] => derivedEvidence | r :: _ =>
            match cr_observation r with known _ e => e | _ => derivedEvidence end end))
        end
    end) as ->.
  { rewrite <- find_knows. destruct every; cbn [combineCondition]; (destruct (List.find _ (List.filter _ rs)); [done|]);
      (destruct (List.find _ rs) eqn:E; [done|]); (destruct rs as [|r rs]; [done|]);
      pose proof (find_None _ _ r E ltac:(left)) as Hr; cbn [List.filter]; destruct (cr_observation r) eqn:Er; cbn in Hr; rewrite Er in Hr; cbn; rewrite ?Er; done. }
  cbv zeta. destruct (List.find (fun c => knows (negb every) (cr_observation c)) rs) as [d|] eqn:E1.
  { apply find_Some in E1 as [Hd Hv]. apply Hk in Hv. split; [apply condition_result_coherent|]. destruct (cr_observation d) as [v e| | |] eqn:Ed; try done. injection Hv as ->.
    split; [|by destruct every]. replace (of_verdict _) with (Some (negb every)) by by destruct every. apply (joined_decided _ _ d Hd). by rewrite Ed. }
  assert (forall r', r' ∈ rs -> obs_value (cr_observation r') <> Some (negb every)) as Hnone.
  { intros r' Hr' Hv. apply Hk in Hv. by rewrite (find_None _ _ _ E1 Hr') in Hv. }
  destruct (List.find (fun c => negb (is_known (cr_observation c))) rs) as [m|] eqn:E2.
  { apply find_Some in E2 as [Hm Hv]. apply negb_true_iff, Hn in Hv. split; [by unfold coherent; cbn; rewrite Hv|]. cbn. split; [by eapply joined_missing|]. intros _. by exists m. }
  split; [apply condition_result_coherent|]. split; [|by destruct every]. replace (of_verdict _) with (Some every) by by destruct every. apply joined_every. intros r Hr.
  specialize (Hnone r Hr). pose proof (find_None _ _ r E2 Hr) as Hkn. apply negb_false_iff in Hkn. revert Hnone Hkn.
  destruct (cr_observation r) as [v e| | |]; try done. cbn. by destruct v, every.
Qed.

Lemma evaluate_coherent c cp observe : coherent (evaluateCondition c cp observe).
Proof.
  destruct c as [l|c|cs|cs]; cbn [evaluateCondition].
  - apply condition_result_coherent.
  - cbn [combineCondition]. by destruct (cr_observation _) as [[]| | |].
  - exact (proj1 (combine_joined true cs cp _)).
  - exact (proj1 (combine_joined false cs cp _)).
Qed.

Lemma evaluate_not c cp observe :
  let r := evaluateCondition c cp observe in
  of_verdict (verdict (evaluateCondition (c_not c) cp observe)) = negb <$> of_verdict (verdict r) /\
  (verdict r = inconclusive -> cr_observation (evaluateCondition (c_not c) cp observe) = cr_observation r).
Proof.
  cbv zeta. pose proof (evaluate_coherent c cp observe) as H. unfold coherent in H. rewrite H. cbn [evaluateCondition combineCondition].
  destruct (cr_observation _) as [[]| | |] eqn:E; cbn; try done; (split; [done|]); by intros Hv; rewrite Hv in H.
Qed.

(** A conjunction or disjunction of conditions, by its children. *)
Lemma evaluate_joined (every : bool) cs cp observe :
  let r := evaluateCondition (if every then c_all cs else c_any cs) cp observe in
  let rs := List.map (fun c => evaluateCondition c cp observe) cs in
  joined every rs (of_verdict (verdict r)) /\
  (verdict r = inconclusive -> exists child, child ∈ rs /\ cr_observation r = cr_observation child /\ verdict child = inconclusive).
Proof.
  cbv zeta. destruct (combine_joined every cs cp (List.map (fun c => evaluateCondition c cp observe) cs)) as (_ & H2 & H3).
  replace (evaluateCondition (if every then c_all cs else c_any cs) cp observe) with
    (combineCondition (if every then c_all cs else c_any cs) cp (List.map (fun c => evaluateCondition c cp observe) cs)) by by destruct every.
  split; [exact H2|]. intros Hv. destruct (H3 Hv) as (child & Hin & He & Hn). exists child. split_and!; [done..|].
  apply list_elem_of_In, in_map_iff in Hin as (c & <- & _). pose proof (evaluate_coherent c cp observe) as Hc. unfold coherent in Hc. rewrite Hn in Hc.
  by apply verdict_none.
Qed.

Lemma elem_of_results rs cs cp observe :
  rs ∈ List.map (fun c => evaluateCondition c cp observe) cs -> exists c, c ∈ cs /\ rs = evaluateCondition c cp observe.
Proof. intros (c & <- & H)%list_elem_of_In%in_map_iff. exists c. by rewrite list_elem_of_In. Qed.
Lemma results_elem_of c cs cp observe : c ∈ cs -> evaluateCondition c cp observe ∈ List.map (fun c => evaluateCondition c cp observe) cs.
Proof. intros H. apply list_elem_of_In, in_map_iff. exists c. split; [done|by apply list_elem_of_In]. Qed.

Lemma value_is_verdict c cp observe v :
  obs_value (cr_observation (evaluateCondition c cp observe)) = v <-> of_verdict (verdict (evaluateCondition c cp observe)) = v.
Proof. by rewrite (evaluate_coherent c cp observe). Qed.

Lemma holds_joined truth (every : bool) cs v :
  holds truth (if every then c_all cs else c_any cs) = v <->
  (v = negb every /\ exists c, c ∈ cs /\ holds truth c = v) \/ (v = every /\ forall c, c ∈ cs -> holds truth c = v).
Proof.
  assert (forall b, (exists c, c ∈ cs /\ holds truth c = b) \/ (forall c, c ∈ cs -> holds truth c = negb b)) as Hdec.
  { intros b. induction cs as [|c cs IH]; [right; by intros c ?%elem_of_nil|]. destruct (bool_decide (holds truth c = b)) eqn:E.
    - apply bool_decide_eq_true in E. left. exists c. split; [left|done].
    - apply bool_decide_eq_false in E. destruct IH as [(d & Hd & Ed)|IH]; [left; exists d; split; [by right|done]|].
      right. intros d [->|Hd]%elem_of_cons; [|by apply IH]. by destruct (holds truth c), b. }
  assert (forall b, (exists c, c ∈ cs /\ holds truth c = b) -> (forall c, c ∈ cs -> holds truth c = negb b) -> False) as Hnot.
  { intros b (c & Hc & <-) H. specialize (H c Hc). by destruct (holds truth c). }
  assert ((exists c, c ∈ cs /\ holds truth c = negb every) -> holds truth (if every then c_all cs else c_any cs) = negb every) as H1.
  { intros (c & Hc & E). destruct every; cbn [holds] in *.
    - apply not_true_is_false. intros H. rewrite forallb_forall in H. rewrite H in E; [done|]. by apply list_elem_of_In.
    - apply existsb_exists. exists c. split; [by apply list_elem_of_In|done]. }
  assert ((forall c, c ∈ cs -> holds truth c = every) -> holds truth (if every then c_all cs else c_any cs) = every) as H2.
  { intros H. destruct every; cbn [holds] in *.
    - apply forallb_forall. intros c Hc. by apply H, list_elem_of_In.
    - apply not_true_is_false. intros (c & Hc & E)%existsb_exists. by rewrite H in E by by apply list_elem_of_In. }
  split.
  - intros <-. destruct (Hdec (negb every)) as [H|H]; [left|right]; rewrite ?negb_involutive in H; rewrite ?(H1 H), ?(H2 H); done.
  - intros [[-> H]|[-> H]]; auto.
Qed.

(** What a verdict says holds however the missing evidence turns out. *)
Lemma verdict_sound truth observe c cp v :
  agrees truth observe -> of_verdict (verdict (evaluateCondition c cp observe)) = Some v -> holds truth c = v.
Proof.
  intros Ha. revert v. induction c as [l|c IH|every cs IH] using condition_ind; intros v.
  - cbn. destruct (observe l) as [[] e| | |] eqn:E; try done; intros [= <-]; by eapply Ha.
  - rewrite (proj1 (evaluate_not c cp observe)). intros (w & E & ->)%fmap_Some. cbn. by rewrite (IH w E).
  - intros Hv. apply holds_joined. rewrite Forall_forall in IH. pose proof (proj1 (evaluate_joined every cs cp observe)) as Hj. rewrite Hv in Hj.
    inversion Hj as [r Hr Er Eq| |He Eq]; subst; [left|right]; (split; [done|]).
    + apply elem_of_results in Hr as (c & Hc & ->). exists c. split; [done|]. by apply (IH c Hc), value_is_verdict.
    + intros c Hc. by apply (IH c Hc), value_is_verdict, He, results_elem_of.
Qed.

(** Evidence can only be added: a conclusive verdict stays. *)
Lemma verdict_monotone observe observe' c cp cp' v :
  learns observe observe' -> of_verdict (verdict (evaluateCondition c cp observe)) = Some v ->
  of_verdict (verdict (evaluateCondition c cp' observe')) = Some v.
Proof.
  intros Hl. revert v. induction c as [l|c IH|every cs IH] using condition_ind; intros v.
  - cbn. destruct (observe l) as [w e| | |] eqn:E; try done; (destruct (Hl l _ _ E) as [e' ->]); by destruct w.
  - rewrite (proj1 (evaluate_not c cp observe)), (proj1 (evaluate_not c cp' observe')). intros (w & E & ->)%fmap_Some. by rewrite (IH w E).
  - intros Hv. rewrite Forall_forall in IH. pose proof (proj1 (evaluate_joined every cs cp observe)) as Hj. rewrite Hv in Hj.
    pose proof (proj1 (evaluate_joined every cs cp' observe')) as Hj'.
    inversion Hj as [r Hr Er Eq| |He Eq]; subst.
    + apply elem_of_results in Hr as (c & Hc & ->). apply value_is_verdict, (IH c Hc), value_is_verdict in Er.
      pose proof (results_elem_of c cs cp' observe' Hc) as Hc'. inversion Hj' as [r Hr Er' Eq'|r Hr Er' Hn Eq'|He' Eq']; [done|by destruct (Hn _ Hc')|].
      rewrite (He' _ Hc') in Er. by destruct every.
    + assert (forall r, r ∈ List.map (fun c => evaluateCondition c cp' observe') cs -> obs_value (cr_observation r) = Some v) as Hall.
      { intros r (c & Hc & ->)%elem_of_results. by apply value_is_verdict, (IH c Hc), value_is_verdict, He, results_elem_of. }
      inversion Hj' as [r Hr Er' Eq'|r Hr Er' Hn Eq'|He' Eq']; [|by rewrite (Hall r Hr) in Er'|done].
      rewrite (Hall r Hr) in Er'. by destruct v.
Qed.

(** An inconclusive verdict points at evidence that is missing. *)
Lemma inconclusive_observed observe c cp :
  verdict (evaluateCondition c cp observe) = inconclusive ->
  exists l, l ∈ leaves c /\ observe l = cr_observation (evaluateCondition c cp observe) /\ obs_value (observe l) = None.
Proof.
  induction c as [l|c IH|every cs IH] using condition_ind.
  - intros Hv. exists l. split; [left|]. cbn in *. by destruct (observe l) as [[] e| | |].
  - destruct (evaluate_not c cp observe) as [H1 H2]. intros Hv. apply verdict_none in Hv. rewrite H1 in Hv. apply fmap_None, verdict_none in Hv.
    rewrite (H2 Hv). by apply IH.
  - intros Hv. rewrite Forall_forall in IH. destruct (proj2 (evaluate_joined every cs cp observe) Hv) as (r & Hr & -> & Hrv).
    apply elem_of_results in Hr as (c & Hc & ->). destruct (IH c Hc Hrv) as (l & Hl & E & Hn). exists l. split; [|done].
    assert (forall cs', c ∈ cs' -> l ∈ List.flat_map leaves cs') as Hin.
    { intros cs' Hcs. apply list_elem_of_In, in_flat_map. exists c. by rewrite <- !list_elem_of_In. }
    by destruct every; apply Hin.
Qed.

(** Verdicts never guess: a satisfied or unsatisfied condition is true or false
    however the evidence that is missing turns out, stays so when more is observed,
    and an inconclusive one names an observation of one of its parts that is
    missing, so that complete evidence decides every condition. *)
Theorem verdicts_never_guess c cp observe :
  (forall truth v, agrees truth observe -> of_verdict (verdict (evaluateCondition c cp observe)) = Some v -> holds truth c = v) /\
  (forall observe' cp' v, learns observe observe' -> of_verdict (verdict (evaluateCondition c cp observe)) = Some v ->
     of_verdict (verdict (evaluateCondition c cp' observe')) = Some v) /\
  (verdict (evaluateCondition c cp observe) = inconclusive ->
     exists l, l ∈ leaves c /\ observe l = cr_observation (evaluateCondition c cp observe) /\ obs_value (observe l) = None).
Proof.
  split_and!.
  - intros truth v. apply verdict_sound.
  - intros observe' cp' v. apply verdict_monotone.
  - apply inconclusive_observed.
Qed.
