(* ===== verification/ActionPlanner.v ===== *)
(** * The action planner (packages/driver/src/action-planner.ts)

    From a resolved target and the evidence of one committed observation to the
    device operations an action consists of, or to the reason it cannot be
    performed.  The accessors of the context do not change while one plan is made,
    as planning does not await. *)

From Stdlib Require Import SpecFloat.
From stdpp Require Import strings.
From S2P Require Import Prelude JsText Dto JsObject JsSearch Tree ArtifactSafety ActionModel Conditions SessionContract Selectors.
From S2P Require Mouse.

Local Open Scope Z_scope.

(** ** Context, options and errors *)

Inductive ObservationState : Set := settled | parser_in_flight | semantic_frame_open | pairing_pending.
Global Instance ObservationState_eq_dec : EqDecision ObservationState.
Proof. solve_decision. Defined.

Record ResolvedTarget : Type := {
  t_ref : jstring;
  t_revision : Z;
  t_semantic : bool;
  t_rect : option Rect;
}.

(** The pointer region of a node. *)
Record PointerRegion : Type := { pg_bounds : Rect; pg_spans : list Span; pg_evidence : EvidenceProvenance }.

Record ActionPlannerContext : Type := {
  actionObservationState : ObservationState;
  cx_checkpoint : ObservationStamp;
  cx_contract : option EffectiveSessionContract;
  cx_modes : Mouse.TerminalModes;
  semanticNode : jstring -> option SemanticNode;
  hitGrid : option (Observation PointerHitGrid);
  pointerRegion : jstring -> option PointerRegion;
  screenRegionUnchangedSince : Z -> list Span -> bool;
  screenRegionChangeSince : option (Z -> list Span -> jstring);
  screenRows : option (list jstring);
}.

(** Offsets are cells. *)
Record PointerOptions : Type := {
  po_button : option Mouse.MouseButton;
  po_position : option (Z * Z);
  po_modifiers : option (list jstring);
}.
Definition no_options : PointerOptions := {| po_button := None; po_position := None; po_modifiers := None |}.

Record PlannedWheelOptions : Type := {
  wo_position : option (Z * Z);
  wo_deltaY : option number;
  wo_deltaX : option number;
  wo_modifiers : option (list jstring);
}.

Record PlannedDragOptions : Type := {
  do_steps : option number;
  do_path : option (list (number * number));
  do_modifiers : option (list jstring);
}.

Inductive Transient : Set := target_state | pointer_region | covered.
Global Instance Transient_eq_dec : EqDecision Transient.
Proof. solve_decision. Defined.

(** The errors of errors.ts the planner throws. *)
Inductive Failure : Set :=
| CapabilityUnavailable
| InputModeDisabled
| NotActionable (transient : option Transient)
| StaleSnapshot
| PendingObservation (state : ObservationState).
Global Instance Failure_eq_dec : EqDecision Failure.
Proof. solve_decision. Defined.

Definition failure_code (f : Failure) : jstring :=
  match f with
  | CapabilityUnavailable => js "capability-unavailable"
  | InputModeDisabled => js "input-mode-disabled"
  | NotActionable _ => js "not-actionable"
  | StaleSnapshot | PendingObservation _ => js "stale-snapshot"
  end.

(** A [TermwrightError] with the explanation attached to it, or another error. *)
Inductive PlanError : Type :=
| failed (f : Failure) (actionability : option ActionabilityExplanation)
| type_error
| range_error.

Record Point : Set := { pt_row : Z; pt_column : Z }.
Record PlannedPointerAction : Type := { pp_plan : ExecutableActionPlan; pp_point : Point }.

(** The private fields of [ActionPlanner]. *)
Record Planner : Type := { lastRequirements : list ConditionResult; lastCheckpoint : option ObservationStamp }.
Definition newPlanner : Planner := {| lastRequirements := []; lastCheckpoint := None |}.

Definition planning (A : Type) : Type := method Planner PlanError A.

Definition fail_with {A} (f : Failure) : planning A := throw (failed f None).
Definition require (b : bool) (f : Failure) : planning () := if b then mret tt else fail_with f.

(** ** Evidence *)

Definition isAuthoritativeRegionOwnership (contract : option EffectiveSessionContract) (evidence : EvidenceProvenance) : bool :=
  match contract with
  | None => false
  | Some c =>
      match ev_source evidence, ev_strength evidence with
      | application, es_authoritative =>
          let offers capability p := match p with application_provider _ _ _ cs => bool_decide (capability ∈ cs) | _ => false end in
          let candidate p := match p with application_provider i _ _ _ => bool_decide (i = ev_providerId evidence) | _ => false end in
          match List.find candidate (c_providers c) with
          | Some p => offers "pointer-regions" p && negb (existsb (offers "hit-test") (c_providers c))
          | None => false
          end
      | _, _ => false
      end
  end.

Definition availability_of (contract : option EffectiveSessionContract) (capability : string) : option SessionCapabilityAvailability :=
  c ← contract; jget (c_capabilities c) capability.

Definition contractSupports (contract : option EffectiveSessionContract) (capability : string) : bool :=
  match availability_of contract capability with Some (supported _) => true | _ => false end.

(** [#capabilityBoolean] *)
Definition capabilityBoolean (contract : option EffectiveSessionContract) (capability : string) (value : bool) : Observation bool :=
  match availability_of contract capability with
  | Some (supported evidence) => known value evidence
  | Some (SessionContract.unsupported r_framework_unobservable) => Tree.unsupported (js capability) framework_unobservable
  | None | Some (SessionContract.unsupported r_not_negotiated) => Tree.unsupported (js capability) not_negotiated
  | Some (SessionContract.unsupported _) => Tree.unsupported (js capability) Tree.capability
  end.

(** ** Where to aim *)

Definition in_span (p : Point) (s : Span) : bool :=
  (sp_row s =? pt_row p) && (Tree.from s <=? pt_column p) && (pt_column p <? Tree.to s).

(** Twice the distance to the centre of the rectangle, which may lie between cells. *)
Definition distance2 (r : Rect) (p : Point) : Z :=
  Z.abs (2 * pt_row p - (2 * row r + (height r - 1))) + Z.abs (2 * pt_column p - (2 * column r + (width r - 1))).

Definition aim (r : Rect) (s : Span) : Point :=
  {| pt_row := sp_row s;
     pt_column := Z.max (Tree.from s) (Z.min (Tree.to s - 1) ((2 * column r + (width r - 1)) / 2)) |}.

(** The comparison of the loop. *)
Definition better (r : Rect) (p best : Point) : bool :=
  (distance2 r p <? distance2 r best) ||
  ((distance2 r p =? distance2 r best) &&
   ((pt_row p <? pt_row best) || ((pt_row p =? pt_row best) && (pt_column p <? pt_column best)))).

Definition choosePoint (region : PhysicalRegion) (requested : option (Z * Z)) : option Point :=
  let r := rg_intendedRect region in
  match requested with
  | Some (rowOffset, columnOffset) =>
      let p := {| pt_row := row r + rowOffset; pt_column := column r + columnOffset |} in
      if existsb (in_span p) (rg_spans region) then Some p else None
  | None =>
      foldl (fun best s => match best with
                           | None => Some (aim r s)
                           | Some b => if better r (aim r s) b then Some (aim r s) else Some b
                           end) None (rg_spans region)
  end.

(** ** Mouse modes *)

Definition mouseModeAllows (kind : ActionKind) (modes : Mouse.TerminalModes) : bool :=
  if bool_decide (Mouse.mouseTracking modes = Mouse.t_unknown) || bool_decide (Mouse.mouseEncoding modes = Mouse.e_unknown) ||
     bool_decide (Mouse.mouseTracking modes = Mouse.t_none) then false
  else match kind with
       | a_hover => bool_decide (Mouse.mouseTracking modes = Mouse.t_any)
       | a_drag => bool_decide (Mouse.mouseTracking modes = Mouse.t_drag) || bool_decide (Mouse.mouseTracking modes = Mouse.t_any)
       | _ => true
       end.

Definition modeRequirement (kind : ActionKind) (modes : Mouse.TerminalModes) : planning () :=
  _ ← require (negb (bool_decide (Mouse.mouseTracking modes = Mouse.t_unknown) || bool_decide (Mouse.mouseEncoding modes = Mouse.e_unknown))) InputModeDisabled;
  _ ← require (negb (bool_decide (Mouse.mouseTracking modes = Mouse.t_none))) InputModeDisabled;
  _ ← require (negb (bool_decide (kind = a_hover) && negb (bool_decide (Mouse.mouseTracking modes = Mouse.t_any)))) InputModeDisabled;
  require (negb (bool_decide (kind = a_drag) && negb (bool_decide (Mouse.mouseTracking modes = Mouse.t_drag)) &&
                 negb (bool_decide (Mouse.mouseTracking modes = Mouse.t_any)))) InputModeDisabled.

(** ** Planning *)

Definition remember (reqs : list ConditionResult) : planning () :=
  modify (fun p => {| lastRequirements := reqs; lastCheckpoint := lastCheckpoint p |}).
Definition observed_at (cp : ObservationStamp) : planning () :=
  modify (fun p => {| lastRequirements := lastRequirements p; lastCheckpoint := Some cp |}).

(** [throw] of a [normalizeMouseModifiers] that refuses a name. *)
Definition mouse_modifiers (values : option (list jstring)) : planning (list Mouse.MouseModifier) :=
  match Mouse.normalizeMouseModifiers values with Ok ms => mret ms | Err _ => throw type_error end.

Definition mouse_operation (k : MouseKind) (button : option Mouse.MouseButton) (ms : list Mouse.MouseModifier) (p : Point) : ExecutableDeviceOperation :=
  e_mouse {| m_kind := k; m_row := pt_row p; m_column := pt_column p; m_button := button; m_modifiers := Some ms; m_deltaX := None; m_deltaY := None |}.

(** [#operations] *)
Definition pointer_operations (intent : ActionIntent) (p : Point) (options : PointerOptions) : planning (list ExecutableDeviceOperation) :=
  let button := default Mouse.left_button (po_button options) in
  ms ← mouse_modifiers (po_modifiers options);
  match i_kind intent with
  | a_hover => mret [mouse_operation m_move None ms p]
  | k =>
      let click := [mouse_operation m_down (Some button) ms p; mouse_operation m_up (Some button) ms p] in
      mret (mjoin (replicate (if bool_decide (k = a_double_click) then 2 else 1)%nat click))
  end.

Definition is_verdict (v : Verdict) (r : ConditionResult) : bool := bool_decide (verdict r = v).

Section Planner.
Context (ctx : ActionPlannerContext).

Definition supports (capability : string) : bool := contractSupports (cx_contract ctx) capability.
Definition requireCapability (capability : string) : planning () := require (supports capability) CapabilityUnavailable.

(** [#requireSettledObservation] *)
Definition requireSettledObservation : planning () :=
  match actionObservationState ctx with settled => mret tt | s => fail_with (PendingObservation s) end.

Definition condition (c : LeafCondition) (o : Observation bool) : ConditionResult := condition_result (c_leaf c) (cx_checkpoint ctx) o.

(** [#attachFailure] *)
Definition attachFailure {A} (intent : ActionIntent) (m : planning A) : planning A :=
  catch m (fun e =>
    match e with
    | failed f _ =>
        p ← get;
        let cp := match lastRequirements p with r :: _ => cr_checkpoint r | [] => default (cx_checkpoint ctx) (lastCheckpoint p) end in
        throw (failed f (Some {| actionable := false; ae_intent := intent; ae_checkpoint := cp; ae_requirements := lastRequirements p;
                                 ae_strategy := None;
                                 ae_reason := Some {| ar_code := failure_code f; ar_targetRef := i_targetRef intent |} |}))
    | e => throw e
    end).

Definition terminal_evidence (m : EvidenceMethod) : EvidenceProvenance := authoritative terminal m (js "termwright-vt").

(** [s.slice(from, to)] *)
Definition js_slice (i j : Z) (s : jstring) : jstring :=
  let n := Z.of_nat (length s) in
  let clamp k := if k <? 0 then Z.max 0 (n + k) else Z.min k n in
  take (Z.to_nat (clamp j - clamp i)) (drop (Z.to_nat (clamp i)) s).

(** [join] with a return symbol *)
Fixpoint join_shown (lines : list jstring) : jstring :=
  match lines with [] => [] | [l] => l | l :: lines => l ++ [9166] ++ join_shown lines end.

(** What the committed rows show under the region. *)
Definition shown (region : PointerRegion) : jstring :=
  let rows := default [] (screenRows ctx) in
  let text s := if sp_row s <? 0 then [] else default [] (rows !! Z.to_nat (sp_row s)) in
  join_shown ((fun s => js_slice (Tree.from s) (Tree.to s) (text s)) <$> pg_spans region).

(** Whether the region may have become something else since the paired frame. *)
Definition region_moved (node : SemanticNode) (region : PointerRegion) (paired : Z) : bool :=
  let cp := cx_checkpoint ctx in
  if negb (paired =? os_screenRevision cp) && negb (screenRegionUnchangedSince ctx paired (pg_spans region)) then
    let reason := match screenRegionChangeSince ctx with Some f => f paired (pg_spans region) | None => js "unreported" end in
    let expected := trim (n_name node) in
    negb (bool_decide (reason ∈ [js "glyphs-changed"; js "styling-changed"]) && (0 <? Z.of_nat (length expected)) && includes expected (shown region))
  else false.

(** The cells of a span that the hit grid gives to the node. *)
Definition owned_spans (nodeId : jstring) (grid : PointerHitGrid) (candidate : Span) : list Span :=
  List.filter (fun hit => (sp_row candidate =? sp_row hit) && (Tree.from hit <? Tree.to hit))
    (mjoin ((fun r =>
       (fun offset => {| sp_row := row (hr_rect r) + Z.of_nat offset;
                         Tree.from := Z.max (Tree.from candidate) (column (hr_rect r));
                         Tree.to := Z.min (Tree.to candidate) (column (hr_rect r) + width (hr_rect r)) |}) <$>
         seq 0 (Z.to_nat (height (hr_rect r))))
       <$> List.filter (fun r => bool_decide (hr_recipientId r = nodeId)) (regions grid))).

Definition make_plan (actionId : jstring) (intent : ActionIntent) (reqs : list ConditionResult) (strategy : jstring)
    (region : option PhysicalRegion) (operations : list ExecutableDeviceOperation) : ExecutableActionPlan :=
  {| x_actionId := actionId; x_contractId := os_contractId (cx_checkpoint ctx); x_intent := intent; x_checkpoint := cx_checkpoint ctx;
     x_requirements := reqs; x_strategy := strategy; x_physicalRegion := region; x_operations := operations |}.

(** The target of the semantic branch: the node, and the revision of the screen
    its tree was paired with. *)
Definition committed_node (target : ResolvedTarget) : planning (jstring * SemanticNode * Z) :=
  _ ← requireCapability "paired-revisions";
  let cp := cx_checkpoint ctx in
  match os_pairedScreenRevision cp with
  | Some paired =>
      if bool_decide (Some (t_revision target) = os_semanticRevision cp) then
        let nodeId := default [] (semanticNodeId (t_ref target)) in
        match semanticNode ctx nodeId with
        | Some node => mret (nodeId, node, paired)
        | None => fail_with StaleSnapshot
        end
      else fail_with StaleSnapshot
  | None => fail_with StaleSnapshot
  end.

Definition enabled_result (target : ResolvedTarget) (node : SemanticNode) : ConditionResult :=
  condition (c_enabled (t_ref target))
    (capabilityBoolean (cx_contract ctx) "semantic-tree" (negb (bool_decide ((n_state node ≫= st_disabled) = Some true)))).
Definition displayed_result (target : ResolvedTarget) (node : SemanticNode) : ConditionResult :=
  condition (c_displayed (t_ref target)) (displayed (n_geometry node)).

(** The end of the semantic branch: who owns the cells, and which one to use. *)
Definition owned_region (nodeId : jstring) (region : PointerRegion) : PhysicalRegion :=
  {| rg_checkpoint := cx_checkpoint ctx; rg_coordinateSpace := viewport_cells; rg_intendedRect := pg_bounds region;
     rg_spans :=
       if supports "pointer-hit-testing" then
         mjoin ((fun s => match hitGrid ctx with Some (known grid _) => owned_spans nodeId grid s | _ => [] end) <$> pg_spans region)
       else pg_spans region;
     rg_evidence := pg_evidence region |}.

Definition ownership_evidence (region : PointerRegion) : EvidenceProvenance :=
  match hitGrid ctx with
  | Some (known _ e) => if supports "pointer-hit-testing" then e else pg_evidence region
  | _ => pg_evidence region
  end.

Definition aimAtRegion (actionId : jstring) (intent : ActionIntent) (target : ResolvedTarget) (options : PointerOptions) (nodeId : jstring)
    (region : PointerRegion) (reqs : list ConditionResult) : planning PlannedPointerAction :=
  let verifiesOwnership := supports "pointer-hit-testing" in
  _ ← require (negb verifiesOwnership || match hitGrid ctx with Some o => is_known o | None => false end) CapabilityUnavailable;
  _ ← require (verifiesOwnership || isAuthoritativeRegionOwnership (cx_contract ctx) (pg_evidence region)) CapabilityUnavailable;
  let physical := owned_region nodeId region in
  let point := choosePoint physical (po_position options) in
  let reqs := reqs ++ [condition (c_receives_pointer (t_ref target)) (known (bool_decide (is_Some point)) (ownership_evidence region))] in
  _ ← remember reqs;
  match point with
  | None => fail_with (NotActionable (Some covered))
  | Some point =>
      operations ← pointer_operations intent point options;
      mret {| pp_point := point; pp_plan := make_plan actionId intent reqs (js "authoritative-pointer-region") (Some physical) operations |}
  end.

(** The semantic branch of [#planPointer], from the requirements on the device. *)
Definition planSemanticPointer (actionId : jstring) (intent : ActionIntent) (target : ResolvedTarget) (options : PointerOptions)
    (reqs : list ConditionResult) : planning PlannedPointerAction :=
  found ← committed_node target;
  let '(nodeId, node, paired) := found in
  let enabled := enabled_result target node in
  let hover := bool_decide (i_kind intent = a_hover) in
  let reqs := reqs ++ (if hover then [] else [enabled]) ++ [displayed_result target node] in
  _ ← remember reqs;
  _ ← require (negb (existsb (is_verdict unsatisfied) reqs)) (NotActionable (Some target_state));
  _ ← require (hover || negb (is_verdict inconclusive enabled)) CapabilityUnavailable;
  let region := pointerRegion ctx nodeId in
  let regionResult := condition (c_pointer_region (t_ref target)) (capabilityBoolean (cx_contract ctx) "pointer-geometry" (bool_decide (is_Some region))) in
  let reqs := reqs ++ [regionResult] in
  _ ← remember reqs;
  _ ← require (negb (is_verdict inconclusive regionResult)) CapabilityUnavailable;
  match region with
  | None => fail_with (NotActionable (Some pointer_region))
  | Some region =>
      _ ← require (negb (region_moved node region paired)) StaleSnapshot;
      aimAtRegion actionId intent target options nodeId region reqs
  end.

Definition screen_region (r : Rect) : PhysicalRegion :=
  {| rg_checkpoint := cx_checkpoint ctx; rg_coordinateSpace := viewport_cells; rg_intendedRect := r;
     rg_spans := (fun offset => {| sp_row := row r + Z.of_nat offset; Tree.from := column r; Tree.to := column r + width r |}) <$>
                   seq 0 (Z.to_nat (height r));
     rg_evidence := terminal_evidence measured |}.

Definition planScreenPointer (actionId : jstring) (intent : ActionIntent) (target : ResolvedTarget) (options : PointerOptions)
    (reqs : list ConditionResult) : planning PlannedPointerAction :=
  _ ← require (t_revision target =? os_screenRevision (cx_checkpoint ctx)) StaleSnapshot;
  match t_rect target with
  | None => fail_with (NotActionable (Some pointer_region))
  | Some r =>
      match choosePoint (screen_region r) (po_position options) with
      | None => fail_with (NotActionable (Some covered))
      | Some point =>
          operations ← pointer_operations intent point options;
          mret {| pp_point := point; pp_plan := make_plan actionId intent reqs (js "screen-region") (Some (screen_region r)) operations |}
      end
  end.

(** [#planPointer] *)
Definition planPointer_ (actionId : jstring) (intent : ActionIntent) (target : ResolvedTarget) (options : PointerOptions)
    : planning PlannedPointerAction :=
  _ ← remember [];
  _ ← requireSettledObservation;
  _ ← observed_at (cx_checkpoint ctx);
  let device := condition (c_pointer_input (t_ref target)) (capabilityBoolean (cx_contract ctx) "pointer-input" true) in
  let mode := condition (c_mouse_input_enabled (t_ref target)) (known (mouseModeAllows (i_kind intent) (cx_modes ctx)) (terminal_evidence native)) in
  _ ← remember [device; mode];
  _ ← require (is_verdict satisfied device) CapabilityUnavailable;
  _ ← (if is_verdict satisfied mode then mret tt else modeRequirement (i_kind intent) (cx_modes ctx));
  let attached := condition (c_attached (t_ref target))
    (capabilityBoolean (cx_contract ctx) (if t_semantic target then "semantic-tree" else "pointer-input")%string true) in
  let reqs := [device; mode; attached] in
  _ ← remember reqs;
  _ ← require (negb (is_verdict inconclusive attached)) CapabilityUnavailable;
  if t_semantic target then planSemanticPointer actionId intent target options reqs else planScreenPointer actionId intent target options reqs.

Definition planPointer (actionId : jstring) (intent : ActionIntent) (target : ResolvedTarget) (options : PointerOptions)
    : planning PlannedPointerAction :=
  attachFailure intent (planPointer_ actionId intent target options).

(** ** Keyboard plans *)

(** [#recipeOperations] *)
Definition recipe_step (value : option ExecutableValue) (step : PhysicalInputRecipeStep) : planning ExecutableDeviceOperation :=
  match step with
  | Tree.press key => mret (e_keyboard k_press (plain_value key))
  | insert_action_value =>
      match value with Some v => mret (e_keyboard k_type v) | None => fail_with CapabilityUnavailable end
  end.

Fixpoint recipe_steps (value : option ExecutableValue) (steps : list PhysicalInputRecipeStep) : planning (list ExecutableDeviceOperation) :=
  match steps with
  | [] => mret []
  | step :: steps => o ← recipe_step value step; os ← recipe_steps value steps; mret (o :: os)
  end.

Record RecipeOperations : Type := { ro_requiresFocus : bool; ro_operations : list ExecutableDeviceOperation }.

Definition recipe_of (node : SemanticNode) (action : string) : option PhysicalInputRecipe :=
  recipes ← n_inputRecipes node; List.find (fun r => bool_decide (rc_action r = js action)) recipes.

Definition recipeOperations (node : SemanticNode) (action : string) (value : option ExecutableValue) (required : bool)
    : planning (option RecipeOperations) :=
  match recipe_of node action with
  | None => if required then fail_with CapabilityUnavailable else mret None
  | Some recipe =>
      operations ← recipe_steps value (rc_steps recipe);
      mret (Some {| ro_requiresFocus := rc_requiresFocus recipe; ro_operations := operations |})
  end.

Definition is_via (intent : ActionIntent) (v : string) : bool := bool_decide (default (js "auto") (i_via intent) = js v).

(** What every keyboard plan requires: the node, whether it is focused, and the
    requirements so far. *)
Definition keyboardTarget (intent : ActionIntent) (target : ResolvedTarget) : planning (SemanticNode * bool * list ConditionResult) :=
  _ ← remember [];
  _ ← requireSettledObservation;
  _ ← observed_at (cx_checkpoint ctx);
  _ ← (if is_via intent "auto" || is_via intent "keyboard" || is_via intent "pointer" then mret tt else throw type_error);
  _ ← (if is_via intent "pointer" then mret tt else requireCapability "keyboard-input");
  _ ← require (t_semantic target) CapabilityUnavailable;
  found ← committed_node target;
  let '(nodeId, node, _) := found in
  let attached := condition (c_attached (t_ref target)) (capabilityBoolean (cx_contract ctx) "semantic-tree" true) in
  let reqs := [attached; enabled_result target node; displayed_result target node] in
  _ ← remember reqs;
  _ ← require (negb (existsb (is_verdict inconclusive) reqs)) CapabilityUnavailable;
  _ ← require (negb (existsb (is_verdict unsatisfied) reqs)) (NotActionable (Some target_state));
  let focused := bool_decide ((n_state node ≫= st_focused) = Some true) in
  let focusResult := condition (c_focused (t_ref target)) (capabilityBoolean (cx_contract ctx) "focus" focused) in
  let reqs := reqs ++ [focusResult] in
  _ ← remember reqs;
  _ ← require (negb (is_verdict inconclusive focusResult)) CapabilityUnavailable;
  mret (node, focused, reqs).

Definition focus_intent (target : ResolvedTarget) (via : option string) : ActionIntent :=
  {| i_kind := a_focus; i_selector := None; i_targetRef := Some (t_ref target); i_via := js <$> via |}.

Definition plan_requirements (plan : option ExecutableActionPlan) : list ConditionResult := match plan with Some p => x_requirements p | None => [] end.
Definition plan_operations (plan : option ExecutableActionPlan) : list ExecutableDeviceOperation := match plan with Some p => x_operations p | None => [] end.

Section Branches.
(** Planning another action on the same target. *)
Context (again : ActionIntent -> planning ExecutableActionPlan).
Context (actionId : jstring) (intent : ActionIntent) (target : ResolvedTarget) (node : SemanticNode) (focused : bool) (reqs : list ConditionResult).

Definition planFocusedKeyboard (value : ExecutableValue) : planning ExecutableActionPlan :=
  _ ← require focused (NotActionable None);
  mret (make_plan actionId intent reqs (js "focused-keyboard") None
          [e_keyboard (if bool_decide (i_kind intent = a_press) then k_press else k_type) value]).

Definition planFill (value : ExecutableValue) : planning ExecutableActionPlan :=
  _ ← requireCapability "action-strategies";
  recipe ← recipeOperations node "setValue" (Some value) true;
  match recipe with
  | None => fail_with CapabilityUnavailable
  | Some recipe =>
      focusPlan ← (if focused then mret None else p ← again (focus_intent target None); mret (Some p));
      _ ← require (negb (ro_requiresFocus recipe && negb focused && bool_decide (plan_operations focusPlan = []))) (NotActionable None);
      mret (make_plan actionId intent (reqs ++ plan_requirements focusPlan)
              (if focused then js "focused-authoritative-replace"
               else match focusPlan with Some p => x_strategy p | None => js "focus" end ++ js "-then-authoritative-replace")
              (focusPlan ≫= x_physicalRegion) (plan_operations focusPlan ++ ro_operations recipe))
  end.

Definition planFocus : planning ExecutableActionPlan :=
  if focused then mret (make_plan actionId intent reqs (js "already-focused") None [])
  else
    recipe ← (if negb (is_via intent "pointer") && supports "action-strategies" then recipeOperations node "focus" None false else mret None);
    match recipe with
    | Some recipe =>
        _ ← require (negb (ro_requiresFocus recipe)) CapabilityUnavailable;
        mret (make_plan actionId intent reqs (js "authoritative-keyboard-focus") None (ro_operations recipe))
    | None =>
        _ ← require (negb (is_via intent "keyboard")) CapabilityUnavailable;
        pointer ← planPointer actionId (focus_intent target None) target no_options;
        mret (make_plan actionId intent (reqs ++ x_requirements (pp_plan pointer)) (js "authoritative-pointer-focus")
                (x_physicalRegion (pp_plan pointer)) (x_operations (pp_plan pointer)))
    end.

Definition desired_state : option bool := match i_kind intent with a_check => Some true | a_uncheck => Some false | _ => None end.
Definition checked_state : option bool := match n_state node ≫= st_checked with Some (is_checked b) => Some b | _ => None end.

Definition activate_intent : ActionIntent := {| i_kind := a_activate; i_selector := None; i_targetRef := Some (t_ref target); i_via := None |}.

Definition planPointerActivate : planning ExecutableActionPlan :=
  pointer ← planPointer actionId activate_intent target no_options;
  let p := pp_plan pointer in
  mret {| x_actionId := x_actionId p; x_contractId := x_contractId p; x_intent := intent; x_checkpoint := x_checkpoint p;
          x_requirements := reqs ++ x_requirements p; x_strategy := js "authoritative-pointer-activate";
          x_physicalRegion := x_physicalRegion p; x_operations := x_operations p |}.

(** By a recipe of the application, or else by the pointer. *)
Definition planStrategy (action : string) : planning ExecutableActionPlan :=
  recipe ← (if negb (is_via intent "pointer") && supports "action-strategies" then recipeOperations node action None false else mret None);
  match recipe with
  | Some recipe =>
      focusPlan ← (if ro_requiresFocus recipe && negb focused then p ← again (focus_intent target (Some "keyboard"%string)); mret (Some p) else mret None);
      mret (make_plan actionId intent (reqs ++ plan_requirements focusPlan)
              (match focusPlan with Some p => x_strategy p ++ js "-then-" | None => [] end ++ js "authoritative-" ++ js action)
              (focusPlan ≫= x_physicalRegion) (plan_operations focusPlan ++ ro_operations recipe))
  | None =>
      _ ← require (negb (is_via intent "keyboard")) CapabilityUnavailable;
      planPointerActivate
  end.

Definition planActivate : planning ExecutableActionPlan :=
  let desired := desired_state in
  _ ← require (negb (bool_decide (is_Some desired)) || bool_decide (n_role node ∈ [js "checkbox"; js "radio"])) (NotActionable None);
  _ ← require (negb (bool_decide (is_Some desired)) || bool_decide (is_Some checked_state)) CapabilityUnavailable;
  match desired with
  | Some d =>
      if bool_decide (checked_state = Some d) then
        let reqs := reqs ++ [condition (c_checked (t_ref target) d) (capabilityBoolean (cx_contract ctx) "semantic-tree" true)] in
        _ ← remember reqs;
        mret (make_plan actionId intent reqs (js "already-in-state") None [])
      else planStrategy "toggle"
  | None => planStrategy "activate"
  end.
End Branches.

(** One level of [#planKeyboard], given how it plans the actions it calls itself for. *)
Definition planKeyboard_step (again : ActionIntent -> planning ExecutableActionPlan) (actionId : jstring) (target : ResolvedTarget)
    (value : ExecutableValue) (intent : ActionIntent) : planning ExecutableActionPlan :=
  found ← keyboardTarget intent target;
  let '(node, focused, reqs) := found in
  match i_kind intent with
  | a_type | a_press => planFocusedKeyboard actionId intent focused reqs value
  | a_fill => planFill again actionId intent target node focused reqs value
  | a_focus => planFocus actionId intent target node focused reqs
  | a_activate | a_check | a_uncheck => planActivate again actionId intent target node focused reqs
  | _ => fail_with CapabilityUnavailable
  end.

(** [#planKeyboard]: it only calls itself to plan a focus, with no value, and that
    never recurs. *)
Definition planKeyboard_ (actionId : jstring) (intent : ActionIntent) (target : ResolvedTarget) (value : ExecutableValue)
    : planning ExecutableActionPlan :=
  planKeyboard_step (planKeyboard_step (fun _ => throw type_error) actionId target (plain_value [])) actionId target value intent.

Definition planKeyboard (actionId : jstring) (intent : ActionIntent) (target : ResolvedTarget) (value : ExecutableValue)
    : planning ExecutableActionPlan :=
  attachFailure intent (planKeyboard_ actionId intent target value).

(** ** Wheel and drag *)

(** [#wheelDelta] *)
Definition wheelDelta (value : option number) : planning Z :=
  match to_safe_integer (default (int 0) value) with
  | None => throw type_error
  | Some v => if 100 <? Z.abs v then throw range_error else mret v
  end.

Definition wheel_operation (ms : list Mouse.MouseModifier) (p : Point) (dx dy : option Z) : ExecutableDeviceOperation :=
  e_mouse {| m_kind := m_wheel; m_row := pt_row p; m_column := pt_column p; m_button := None; m_modifiers := Some ms; m_deltaX := dx; m_deltaY := dy |}.

Definition replace_plan (p : ExecutableActionPlan) (intent : ActionIntent) (reqs : list ConditionResult) (strategy : jstring)
    (operations : list ExecutableDeviceOperation) : ExecutableActionPlan :=
  {| x_actionId := x_actionId p; x_contractId := x_contractId p; x_intent := intent; x_checkpoint := x_checkpoint p; x_requirements := reqs;
     x_strategy := strategy; x_physicalRegion := x_physicalRegion p; x_operations := operations |}.

Definition planWheel (actionId : jstring) (intent : ActionIntent) (target : ResolvedTarget) (options : PlannedWheelOptions)
    : planning PlannedPointerAction :=
  vertical ← wheelDelta (wo_deltaY options);
  horizontal ← wheelDelta (wo_deltaX options);
  if (vertical =? 0) && (horizontal =? 0) then throw type_error else
  planned ← planPointer actionId intent target {| po_button := None; po_position := wo_position options; po_modifiers := wo_modifiers options |};
  ms ← mouse_modifiers (wo_modifiers options);
  let p := pp_plan planned in
  let operations :=
    replicate (Z.abs_nat vertical) (wheel_operation ms (pp_point planned) None (Some (Z.sgn vertical))) ++
    replicate (Z.abs_nat horizontal) (wheel_operation ms (pp_point planned) (Some (Z.sgn horizontal)) None) in
  mret {| pp_point := pp_point planned; pp_plan := replace_plan p (x_intent p) (x_requirements p) (x_strategy p ++ js "-wheel") operations |}.

(** [#point] *)
Definition path_point (p : number * number) : planning Point :=
  match to_safe_integer p.1, to_safe_integer p.2 with
  | Some r, Some c => if (r <? 0) || (c <? 0) then throw type_error else mret {| pt_row := r; pt_column := c |}
  | _, _ => throw type_error
  end.
Fixpoint path_points (ps : list (number * number)) : planning (list Point) :=
  match ps with [] => mret [] | p :: ps => q ← path_point p; qs ← path_points ps; mret (q :: qs) end.

(** Double arithmetic on small integers, and [Math.round]. *)
Definition f64 (z : Z) : spec_float := binary_normalize 53 1024 z 0 false.
Definition js_round (x : spec_float) : Z :=
  match x with
  | S754_finite s m e =>
      let v := if s then - Zpos m else Zpos m in
      if 0 <=? e then Z.shiftl v e else (2 * v + Z.shiftl 1 (- e)) / Z.shiftl 1 (1 - e)
  | _ => 0
  end.
Definition interpolate (a b k n : Z) : Z :=
  js_round (SFadd 53 1024 (f64 a) (SFmul 53 1024 (f64 (b - a)) (SFdiv 53 1024 (f64 k) (f64 n)))).

Definition straight_path (a b : Point) (steps : Z) : list Point :=
  (fun i => {| pt_row := interpolate (pt_row a) (pt_row b) (Z.of_nat i + 1) steps;
               pt_column := interpolate (pt_column a) (pt_column b) (Z.of_nat i + 1) steps |}) <$> seq 0 (Z.to_nat steps).

Global Instance Point_eq_dec : EqDecision Point.
Proof. solve_decision. Defined.

(** Points that differ from the one before. *)
Fixpoint moves_from (previous : Point) (path : list Point) : list Point :=
  match path with
  | [] => []
  | p :: path => if bool_decide (p = previous) then moves_from p path else p :: moves_from p path
  end.
Definition unique_path (path : list Point) : list Point := match path with [] => [] | p :: path => p :: moves_from p path end.

Definition with_target (intent : ActionIntent) (target : ResolvedTarget) : ActionIntent :=
  {| i_kind := i_kind intent; i_selector := i_selector intent; i_targetRef := Some (t_ref target); i_via := i_via intent |}.

Definition planDrag (actionId : jstring) (intent : ActionIntent) (source destination : ResolvedTarget) (options : PlannedDragOptions)
    : planning PlannedPointerAction :=
  a ← planPointer actionId (with_target intent source) source no_options;
  b ← planPointer actionId (with_target intent destination) destination no_options;
  let p := pp_plan a in let q := pp_plan b in
  _ ← require (bool_decide (os_contractId (x_checkpoint p) = os_contractId (x_checkpoint q)) &&
               (os_sequence (x_checkpoint p) =? os_sequence (x_checkpoint q))) StaleSnapshot;
  let long := Z.max (Z.max (Z.abs (pt_row (pp_point b) - pt_row (pp_point a))) (Z.abs (pt_column (pp_point b) - pt_column (pp_point a)))) 1 in
  match to_safe_integer (default (int long) (do_steps options)) with
  | None => throw range_error
  | Some steps =>
      if (steps <? 1) || (1000 <? steps) then throw range_error else
      path ← (match do_path options with
              | None => mret (straight_path (pp_point a) (pp_point b) steps)
              | Some ps => qs ← path_points ps; mret (qs ++ [pp_point b])
              end);
      ms ← mouse_modifiers (do_modifiers options);
      let operations :=
        mouse_operation m_down (Some Mouse.left_button) ms (pp_point a) ::
        (mouse_operation m_move (Some Mouse.left_button) ms <$> unique_path path) ++
        [mouse_operation m_up (Some Mouse.left_button) ms (pp_point b)] in
      mret {| pp_point := pp_point a;
              pp_plan := replace_plan p (with_target intent source) (x_requirements p ++ x_requirements q)
                           (x_strategy p ++ js "-to-" ++ x_strategy q ++ js "-stepped-drag") operations |}
  end.

(** ** Explanation *)

Definition error_code (e : PlanError) : jstring := match e with failed f _ => failure_code f | _ => js "unknown" end.

Definition explain (intent : ActionIntent) (target : ResolvedTarget) (options : PointerOptions) (value : jstring) : planning ActionabilityExplanation :=
  catch (plan ← (match i_kind intent with
                 | a_click | a_double_click | a_hover => p ← planPointer (js "explain") intent target options; mret (pp_plan p)
                 | _ => planKeyboard (js "explain") intent target (plain_value value)
                 end);
         mret {| actionable := true; ae_intent := intent; ae_checkpoint := x_checkpoint plan; ae_requirements := x_requirements plan;
                 ae_strategy := Some (x_strategy plan); ae_reason := None |})
    (fun e => p ← get;
       mret {| actionable := false; ae_intent := intent; ae_checkpoint := cx_checkpoint ctx; ae_requirements := lastRequirements p;
               ae_strategy := None; ae_reason := Some {| ar_code := error_code e; ar_targetRef := i_targetRef intent |} |}).
End Planner.
