(* ===== verification/PlannerTheorems.v ===== *)
(** * What plans promise

    A plan that is returned is backed by the evidence the contract asks for and
    aims at a cell of its target; a plan that fails says why; and what a plan
    presses it releases. *)

From stdpp Require Import strings.
From S2P Require Import Prelude JsText Dto JsObject JsSearch Tree ArtifactSafety ActionModel Conditions SessionContract Selectors ActionPlanner.
From S2P Require Mouse.

Local Open Scope Z_scope.

(** ** Aiming *)

(** The order of aiming: nearer to the centre, then above, then to the left. *)
Definition ahead (r : Rect) (p q : Point) : Prop :=
  distance2 r p < distance2 r q \/
  (distance2 r p = distance2 r q /\ (pt_row p < pt_row q \/ (pt_row p = pt_row q /\ pt_column p <= pt_column q))).

Lemma ahead_refl r p : ahead r p p.
Proof. right. split; [done|]. right. split; [done|lia]. Qed.
Lemma ahead_trans r p q o : ahead r p q -> ahead r q o -> ahead r p o.
Proof. unfold ahead. lia. Qed.

Lemma better_spec r p q : if better r p q then ahead r p q else ahead r q p.
Proof.
  unfold better, ahead. destruct (Z.ltb_spec (distance2 r p) (distance2 r q)); cbn [orb]; [by left|].
  destruct (Z.eqb_spec (distance2 r p) (distance2 r q)); cbn [andb]; [|left; lia].
  destruct (Z.ltb_spec (pt_row p) (pt_row q)); cbn [orb]; [right; lia|].
  destruct (Z.eqb_spec (pt_row p) (pt_row q)); cbn [andb]; [|right; lia].
  destruct (Z.ltb_spec (pt_column p) (pt_column q)); right; lia.
Qed.

Lemma in_span_iff p s : in_span p s = true <-> sp_row s = pt_row p /\ Tree.from s <= pt_column p < Tree.to s.
Proof. unfold in_span. rewrite !andb_true_iff, Z.eqb_eq, Z.leb_le, Z.ltb_lt. lia. Qed.

Lemma aim_in_span r s : Tree.from s < Tree.to s -> in_span (aim r s) s = true.
Proof. intros H. apply in_span_iff. unfold aim. cbn. lia. Qed.

(** In its span the aim is the first of the nearest cells. *)
Lemma aim_ahead r s p : in_span p s = true -> ahead r (aim r s) p.
Proof.
  rewrite in_span_iff. intros [Hr Hc]. unfold ahead, distance2, aim. cbn [pt_row pt_column].
  set (c := 2 * column r + (width r - 1)). pose proof (Z.div_mod c 2 ltac:(lia)) as Hd. pose proof (Z.mod_pos_bound c 2 ltac:(lia)).
  rewrite Hr. set (h := c / 2) in *. destruct (Z.max_spec (Tree.from s) (Z.min (Tree.to s - 1) h)) as [[? ->]|[? ->]];
    destruct (Z.min_spec (Tree.to s - 1) h) as [[? E]|[? E]]; rewrite ?E in *; lia.
Qed.

Lemma choosePoint_fold r spans best :
  let p := foldl (fun best s => match best with None => Some (aim r s) | Some b => if better r (aim r s) b then Some (aim r s) else Some b end) best spans in
  match p with
  | None => best = None /\ spans = []
  | Some p =>
      (best = Some p \/ exists s, s ∈ spans /\ p = aim r s) /\
      (forall b, best = Some b -> ahead r p b) /\ (forall s, s ∈ spans -> ahead r p (aim r s))
  end.
Proof.
  cbv zeta. revert best. induction spans as [|s spans IH]; intros best; cbn [foldl].
  { destruct best as [b|]; [|done]. split; [by left|]. split; [intros b' [= <-]; apply ahead_refl|by intros s ?%elem_of_nil]. }
  set (best' := match best with None => _ | Some b => _ end). specialize (IH best'). destruct (foldl _ best' spans) as [p|].
  2: { destruct IH as [E _]. unfold best' in E. destruct best as [b|]; [|done]. by destruct (better r (aim r s) b). }
  destruct IH as (H1 & H2 & H3).
  assert (ahead r p (aim r s) /\ (forall b, best = Some b -> ahead r p b)) as [Ha Hb].
  { unfold best' in H2. destruct best as [b|].
    - pose proof (better_spec r (aim r s) b) as Hbt. destruct (better r (aim r s) b).
      + pose proof (H2 _ eq_refl) as Hp. split; [done|]. intros b' [= <-]. by eapply ahead_trans.
      + pose proof (H2 _ eq_refl) as Hp. split; [by eapply ahead_trans|]. by intros b' [= <-].
    - split; [by apply H2|done]. }
  split; [|split; [done|]].
  - destruct H1 as [H1|(s' & Hs' & ->)]; [|right; exists s'; split; [by right|done]]. unfold best' in H1.
    destruct best as [b|]; [destruct (better r (aim r s) b)|]; injection H1 as <-; [right; exists s; split; [left|done]|by left|right; exists s; split; [left|done]].
  - intros s' [->|Hs']%elem_of_cons; [done|by apply H3].
Qed.

(** A point of a region of real spans is in one of them. *)
Lemma aim_in region requested :
  Forall (fun s => Tree.from s < Tree.to s) (rg_spans region) ->
  match choosePoint region requested with Some p => exists s, s ∈ rg_spans region /\ in_span p s = true | None => True end.
Proof.
  intros Hs. unfold choosePoint. destruct requested as [[dr dc]|].
  - destruct (existsb _ _) eqn:E; [|done]. apply existsb_exists in E as (s & Hin & Hp). exists s. split; [by apply list_elem_of_In|done].
  - pose proof (choosePoint_fold (rg_intendedRect region) (rg_spans region) None) as H. cbv zeta in H. destruct (foldl _ None _) as [p|]; [|done].
    destruct H as ([?|(s & Hin & ->)] & _ & Ha); [done|]. exists s. split; [done|]. apply aim_in_span. rewrite Forall_forall in Hs. by apply Hs.
Qed.

(** Aiming is exact: the point is the requested cell just when the region has it,
    and else the first of the region's cells nearest to the centre of the bounds;
    there is none just when the region is empty or lacks the requested cell. *)
Theorem aim_is_nearest region requested :
  Forall (fun s => Tree.from s < Tree.to s) (rg_spans region) ->
  match choosePoint region requested with
  | Some p =>
      (exists s, s ∈ rg_spans region /\ in_span p s = true) /\
      match requested with
      | Some (dr, dc) => p = {| pt_row := row (rg_intendedRect region) + dr; pt_column := column (rg_intendedRect region) + dc |}
      | None => forall q s, s ∈ rg_spans region -> in_span q s = true -> ahead (rg_intendedRect region) p q
      end
  | None =>
      match requested with
      | Some (dr, dc) => forall s, s ∈ rg_spans region ->
          in_span {| pt_row := row (rg_intendedRect region) + dr; pt_column := column (rg_intendedRect region) + dc |} s = false
      | None => rg_spans region = []
      end
  end.
Proof.
  intros Hs. unfold choosePoint. destruct requested as [[dr dc]|].
  - destruct (existsb _ _) eqn:E.
    + apply existsb_exists in E as (s & Hin & Hp). split; [|done]. exists s. split; [by apply list_elem_of_In|done].
    + intros s Hin. apply not_true_is_false. intros Hp. apply not_true_iff_false in E. apply E, existsb_exists. exists s. by rewrite <- list_elem_of_In.
  - pose proof (choosePoint_fold (rg_intendedRect region) (rg_spans region) None) as H. cbv zeta in H. destruct (foldl _ None _) as [p|]; [|by destruct H].
    destruct H as ([?|(s & Hin & ->)] & _ & Ha); [done|]. split.
    + exists s. split; [done|]. apply aim_in_span. rewrite Forall_forall in Hs. by apply Hs.
    + intros q s' Hs' Hq. eapply ahead_trans; [by apply Ha|by apply aim_ahead].
Qed.

(** ** Running a plan *)

Lemma require_Ok b f s u s' : require b f s = (Ok u, s') <-> b = true /\ s' = s.
Proof. unfold require, fail_with, throw. destruct b, u; split; intros H; first [by injection H as <-|discriminate H|by destruct H as [? ->]]. Qed.

Lemma attach_Ok {A} ctx intent (m : planning A) s a s' : attachFailure ctx intent m s = (Ok a, s') -> m s = (Ok a, s').
Proof. unfold attachFailure, catch. destruct (m s) as [[b|[f x| |]] s1]; [by intros [= <- <-]|by unfold throw, get, mbind, method_bind|done..]. Qed.

(** Opens the method at the head of a run that returned. *)
Ltac open_run H :=
  lazymatch type of H with
  | (require _ _ ≫= _) _ = (Ok _, _) =>
      let u := fresh "u" in let s1 := fresh "s" in let E := fresh "E" in
      apply method_bind_Ok in H as (u & s1 & E & H); apply require_Ok in E as [E ->]
  | (requireCapability _ _ ≫= _) _ = (Ok _, _) =>
      let u := fresh "u" in let s1 := fresh "s" in let E := fresh "E" in
      apply method_bind_Ok in H as (u & s1 & E & H); apply require_Ok in E as [E ->]
  | (remember _ ≫= _) _ = (Ok _, _) =>
      let u := fresh "u" in let s1 := fresh "s" in let E := fresh "E" in
      apply method_bind_Ok in H as (u & s1 & E & H); unfold remember, modify in E; injection E as <- <-
  | (observed_at _ ≫= _) _ = (Ok _, _) =>
      let u := fresh "u" in let s1 := fresh "s" in let E := fresh "E" in
      apply method_bind_Ok in H as (u & s1 & E & H); unfold observed_at, modify in E; injection E as <- <-
  | (_ ≫= _) _ = (Ok _, _) =>
      let a := fresh "a" in let s1 := fresh "s" in let E := fresh "E" in apply method_bind_Ok in H as (a & s1 & E & H)
  | fail_with _ _ = _ => discriminate H
  | mret _ _ = _ => injection H as <- <-
  end.
Ltac open_all H := repeat open_run H.

(** The button held after an operation; [None] when a second button goes down, one
    that is not held goes up, or the pointer is dragged with another one. *)
Definition next_held (held : option Mouse.MouseButton) (o : ExecutableDeviceOperation) : option (option Mouse.MouseButton) :=
  match o with
  | e_keyboard _ _ => Some held
  | e_mouse m =>
      match m_kind m, m_button m, held with
      | m_down, Some b, None => Some (Some b)
      | m_up, Some b, Some h => if bool_decide (b = h) then Some None else None
      | m_move, Some b, Some h => if bool_decide (b = h) then Some held else None
      | m_move, None, None | m_wheel, None, None => Some held
      | _, _, _ => None
      end
  end.
Fixpoint held_after (held : option Mouse.MouseButton) (ops : list ExecutableDeviceOperation) : option (option Mouse.MouseButton) :=
  match ops with [] => Some held | o :: ops => h ← next_held held o; held_after h ops end.

(** Every button that goes down comes up again, one at a time. *)
Definition balanced (ops : list ExecutableDeviceOperation) : Prop := held_after None ops = Some None.

Lemma held_after_app held ops ops' : held_after held (ops ++ ops') = (h ← held_after held ops; held_after h ops').
Proof. revert held. induction ops as [|o ops IH]; intros held; cbn [held_after app]; [done|]. destruct (next_held held o); cbn; [apply IH|done]. Qed.
Lemma balanced_app ops ops' : balanced ops -> balanced ops' -> balanced (ops ++ ops').
Proof. unfold balanced. intros H H'. by rewrite held_after_app, H. Qed.

(** A mouse operation at a point. *)
Definition mouse_at (p : Point) (o : ExecutableDeviceOperation) : Prop :=
  match o with e_mouse m => m_row m = pt_row p /\ m_column m = pt_column p | _ => False end.

(** Mouse operations at one point that leave no button down. *)
Record points_at (p : Point) (ops : list ExecutableDeviceOperation) : Prop := {
  pa_some : ops <> [];
  pa_at : Forall (mouse_at p) ops;
  pa_balanced : balanced ops;
}.

Section Plans.
Context (ctx : ActionPlannerContext).

Lemma settled_Ok s u s' : requireSettledObservation ctx s = (Ok u, s') -> actionObservationState ctx = settled /\ s' = s.
Proof. unfold requireSettledObservation. destruct (actionObservationState ctx); first [by intros [= <- <-]|discriminate]. Qed.

(** The node of a target and the paired frame it is committed with. *)
Record committed (target : ResolvedTarget) (nodeId : jstring) (node : SemanticNode) (paired : Z) : Prop := {
  cm_paired : supports ctx "paired-revisions" = true;
  cm_revision : Some (t_revision target) = os_semanticRevision (cx_checkpoint ctx);
  cm_screen : os_pairedScreenRevision (cx_checkpoint ctx) = Some paired;
  cm_id : nodeId = default [] (semanticNodeId (t_ref target));
  cm_node : semanticNode ctx nodeId = Some node;
}.

Lemma committed_Ok target s nodeId node paired s' :
  committed_node ctx target s = (Ok (nodeId, node, paired), s') -> committed target nodeId node paired /\ s' = s.
Proof.
  unfold committed_node. intros H. open_run H. destruct (os_pairedScreenRevision (cx_checkpoint ctx)) as [p|] eqn:Ep; [|discriminate].
  destruct (bool_decide _) eqn:Er; [|discriminate]. apply bool_decide_eq_true in Er. destruct (semanticNode ctx _) as [n|] eqn:En; [|discriminate].
  injection H as <- <- <- <-. split; [by split|done].
Qed.

Lemma capability_satisfied c cap v :
  verdict (condition ctx c (capabilityBoolean (cx_contract ctx) cap v)) = (if supports ctx cap then if v then satisfied else unsatisfied else inconclusive).
Proof.
  unfold supports, contractSupports, capabilityBoolean. destruct (availability_of (cx_contract ctx) cap) as [[ev|[]]|]; by destruct v.
Qed.

Lemma modifiers_Ok values s ms s' : mouse_modifiers values s = (Ok ms, s') -> Mouse.normalizeMouseModifiers values = Ok ms /\ s' = s.
Proof. unfold mouse_modifiers. destruct (Mouse.normalizeMouseModifiers values); [by intros [= <- <-]|discriminate]. Qed.

Lemma pointer_operations_Ok intent p options s ops s' :
  pointer_operations intent p options s = (Ok ops, s') -> s' = s /\ points_at p ops.
Proof.
  unfold pointer_operations. intros H. open_run H. apply modifiers_Ok in E as [_ ->].
  destruct (i_kind intent); injection H as <- <-; (split; [done|]); (split; [done|by repeat constructor|]); unfold balanced; cbn; by destruct (po_button options) as [[]|].
Qed.

(** Cells of a grid, row-major and without overlap (node-schema.ts). *)
Definition row_before (a b : Rect) : bool := (row a <? row b) || ((row a =? row b) && (column a + width a <=? column b)).
Fixpoint row_major_runs (previous : option Rect) (rs : list PointerHitRegion) : bool :=
  match rs with
  | [] => true
  | r :: rs =>
      (height (hr_rect r) =? 1) && (0 <? width (hr_rect r)) &&
      match previous with Some p => row_before p (hr_rect r) | None => true end && row_major_runs (Some (hr_rect r)) rs
  end.

Lemma row_major_after p rs :
  row_major_runs (Some p) rs = true ->
  forall r, r ∈ rs -> height (hr_rect r) = 1 /\ 0 < width (hr_rect r) /\
    (row p < row (hr_rect r) \/ (row p = row (hr_rect r) /\ column p + width p <= column (hr_rect r))).
Proof.
  revert p. induction rs as [|r rs IH]; intros p H r' Hr; [by apply elem_of_nil in Hr|]. cbn [row_major_runs] in H. breflect.
  assert (row p < row (hr_rect r) \/ (row p = row (hr_rect r) /\ column p + width p <= column (hr_rect r))) as Hp.
  { match goal with H : row_before _ _ = true |- _ => unfold row_before in H; apply orb_true_iff in H as [H|H]; breflect; [by left|by right] end. }
  apply elem_of_cons in Hr as [->|Hr]; [done|]. destruct (IH _ ltac:(eassumption) r' Hr) as (? & ? & ?). lia.
Qed.

Lemma unique_owner rs r1 r2 x y :
  row_major_runs None rs = true -> r1 ∈ rs -> r2 ∈ rs -> covers (hr_rect r1) x y -> covers (hr_rect r2) x y -> r1 = r2.
Proof.
  generalize (@None Rect). induction rs as [|r rs IH]; intros previous H H1 H2 C1 C2; [by apply elem_of_nil in H1|]. cbn [row_major_runs] in H. breflect.
  pose proof (row_major_after (hr_rect r) rs ltac:(done)) as Ha. unfold covers in *.
  apply elem_of_cons in H1 as [->|H1]; apply elem_of_cons in H2 as [->|H2]; [done| | |by eapply IH].
  - destruct (Ha r2 H2) as (? & ? & ?). lia.
  - destruct (Ha r1 H1) as (? & ? & ?). lia.
Qed.

(** The cell [p] is given to node [i] and to no other. *)
Definition owns (grid : PointerHitGrid) (i : jstring) (p : Point) : Prop :=
  (exists r, r ∈ regions grid /\ covers (hr_rect r) (pt_column p) (pt_row p) /\ hr_recipientId r = i) /\
  forall r, r ∈ regions grid -> covers (hr_rect r) (pt_column p) (pt_row p) -> hr_recipientId r = i.

Lemma owned_span nodeId grid candidate s p :
  s ∈ owned_spans nodeId grid candidate -> in_span p s = true ->
  in_span p candidate = true /\ exists r, r ∈ regions grid /\ hr_recipientId r = nodeId /\ covers (hr_rect r) (pt_column p) (pt_row p).
Proof.
  unfold owned_spans. intros Hs Hp. apply in_span_iff in Hp as [Hr Hc].
  apply list_elem_of_In, filter_In in Hs as [Hs Hf]. breflect. apply list_elem_of_In, list_elem_of_join in Hs as (l & Hsl & Hl).
  apply list_elem_of_fmap in Hl as (r & -> & Hin). apply list_elem_of_fmap in Hsl as (o & -> & Ho). cbn in *.
  apply list_elem_of_In, filter_In in Hin as [Hin Hi]. breflect. apply list_elem_of_In, in_seq in Ho.
  split; [apply in_span_iff; lia|]. exists r. rewrite list_elem_of_In. split_and!; [done..|]. unfold covers. lia.
Qed.

Lemma owned_spans_wide nodeId grid candidate s : s ∈ owned_spans nodeId grid candidate -> Tree.from s < Tree.to s.
Proof. intros (_ & Hf)%list_elem_of_In%filter_In. breflect. lia. Qed.

(** What stands behind a plan that points at a semantic target. *)
Record owned_cell (intent : ActionIntent) (target : ResolvedTarget) (p : Point) : Prop := {
  oc_evidence : exists nodeId node paired region,
    committed target nodeId node paired /\ pointerRegion ctx nodeId = Some region /\
    (exists s, s ∈ pg_spans region /\ in_span p s = true) /\
    (i_kind intent <> a_hover -> supports ctx "semantic-tree" = true /\ (n_state node ≫= st_disabled) <> Some true) /\
    (forall e, displayed (n_geometry node) <> known false e) /\
    region_moved ctx node region paired = false /\
    if supports ctx "pointer-hit-testing" then
      exists grid e, hitGrid ctx = Some (known grid e) /\ (row_major_runs None (regions grid) = true -> owns grid nodeId p)
    else isAuthoritativeRegionOwnership (cx_contract ctx) (pg_evidence region) = true;
}.

(** What any plan made on this context shows. *)
Record pointed (intent : ActionIntent) (a : PlannedPointerAction) : Prop := {
  po_checkpoint : x_checkpoint (pp_plan a) = cx_checkpoint ctx;
  po_intent : x_intent (pp_plan a) = intent;
  po_operations : points_at (pp_point a) (x_operations (pp_plan a));
  po_requirements : Forall (fun r => verdict r <> unsatisfied) (x_requirements (pp_plan a));
}.

Lemma committed_supports target nodeId node paired : committed target nodeId node paired -> contractSupports (cx_contract ctx) "paired-revisions" = true.
Proof. by intros []. Qed.

Lemma none_unsatisfied rs : existsb (is_verdict unsatisfied) rs = false -> Forall (fun r => verdict r <> unsatisfied) rs.
Proof.
  intros H. apply Forall_forall. intros r Hr Hv. apply not_true_iff_false in H. apply H, existsb_exists. exists r.
  split; [by apply list_elem_of_In|]. unfold is_verdict. by apply bool_decide_eq_true.
Qed.

Lemma aim_region_sound actionId intent target options nodeId region reqs s a s' :
  Forall (fun s => Tree.from s < Tree.to s) (pg_spans region) -> Forall (fun r => verdict r <> unsatisfied) reqs ->
  aimAtRegion ctx actionId intent target options nodeId region reqs s = (Ok a, s') ->
  (exists sp, sp ∈ pg_spans region /\ in_span (pp_point a) sp = true) /\ pointed intent a /\
  if supports ctx "pointer-hit-testing" then
    exists grid e, hitGrid ctx = Some (known grid e) /\ (row_major_runs None (regions grid) = true -> owns grid nodeId (pp_point a))
  else isAuthoritativeRegionOwnership (cx_contract ctx) (pg_evidence region) = true.
Proof.
  intros Hw Hreqs H. unfold aimAtRegion in H. cbv zeta in H. open_run H. open_run H. open_run H.
  assert (Forall (fun s => Tree.from s < Tree.to s) (rg_spans (owned_region ctx nodeId region))) as Hw'.
  { cbn. destruct (supports ctx _); [|done]. apply Forall_forall. intros sp (l & Hsp & Hl)%list_elem_of_join.
    apply list_elem_of_fmap in Hl as (c & -> & _). destruct (hitGrid ctx) as [[grid e| | |]|]; try by apply elem_of_nil in Hsp. by eapply owned_spans_wide. }
  pose proof (aim_in _ (po_position options) Hw') as Hp. destruct (choosePoint _ _) as [p|]; [|discriminate]. destruct Hp as (sp & Hsp & Hin).
  open_run H. apply pointer_operations_Ok in E1 as (-> & Hops). injection H as <- <-.
  assert (pointed intent {| pp_point := p; pp_plan := make_plan ctx actionId intent
    (reqs ++ [condition ctx (c_receives_pointer (t_ref target)) (known (bool_decide (is_Some (Some p))) (ownership_evidence ctx region))])
    (js "authoritative-pointer-region") (Some (owned_region ctx nodeId region)) a0 |}) as Hpt.
  { split; [done|done|done|]. cbn. apply Forall_app. split; [done|]. repeat constructor. cbn. done. }
  cbn in Hsp |- *. destruct (supports ctx "pointer-hit-testing") eqn:Ev.
  - apply list_elem_of_join in Hsp as (l & Hsp & Hl). apply list_elem_of_fmap in Hl as (c & -> & Hc).
    destruct (hitGrid ctx) as [[grid e| | |]|]; try by apply elem_of_nil in Hsp. destruct (owned_span _ _ _ _ _ Hsp Hin) as (Hcand & r & Hr & Hi & Hcov).
    split; [by exists c|]. split; [done|]. exists grid, e. split; [done|]. intros Hrm. split; [by exists r|].
    intros r' Hr' Hcov'. by rewrite (unique_owner _ r' r _ _ Hrm Hr' Hr Hcov' Hcov).
  - split; [by exists sp|]. split; [done|]. by rewrite orb_false_l in E0.
Qed.

Lemma semantic_pointer_sound actionId intent target options reqs s a s' :
  (forall i region, pointerRegion ctx i = Some region -> Forall (fun s => Tree.from s < Tree.to s) (pg_spans region)) ->
  planSemanticPointer ctx actionId intent target options reqs s = (Ok a, s') ->
  owned_cell intent target (pp_point a) /\ pointed intent a.
Proof.
  intros Hspans H. unfold planSemanticPointer in H. open_run H. destruct a0 as [[nodeId node] paired].
  apply committed_Ok in E as [Hc ->]. cbv zeta in H. open_run H. open_run H. open_run H.
  set (reqs1 := reqs ++ _) in *. open_run H. open_run H. apply negb_true_iff in E. apply none_unsatisfied in E.
  destruct (pointerRegion ctx nodeId) as [region|] eqn:Er; [|discriminate]. open_run H.
  apply aim_region_sound in H as (Hin & Hpt & Hown); [|by eapply Hspans|].
  2: { apply Forall_app. split; [done|]. repeat constructor. rewrite capability_satisfied. by destruct (supports ctx _). }
  split; [|done]. split. exists nodeId, node, paired, region. apply Forall_app in E as [_ E]. apply Forall_app in E as [Een Edis].
  split_and!; try done.
  - intros Hk. rewrite bool_decide_eq_false_2 in E0, Een by done. cbn [orb] in E0. apply Forall_cons in Een as [Een _].
    unfold enabled_result, is_verdict in *. rewrite capability_satisfied in *. destruct (supports ctx "semantic-tree"); [|done]. split; [done|].
    intros Hd. rewrite Hd in Een. done.
  - intros e He. apply Forall_cons in Edis as [Edis _]. unfold displayed_result in Edis. by rewrite He in Edis.
  - by apply negb_true_iff.
Qed.

Lemma screen_pointer_sound actionId intent target options reqs s a s' :
  (forall r, t_rect target = Some r -> 0 < width r) -> Forall (fun r => verdict r <> unsatisfied) reqs ->
  planScreenPointer ctx actionId intent target options reqs s = (Ok a, s') ->
  pointed intent a /\ t_revision target = os_screenRevision (cx_checkpoint ctx) /\
  exists r, t_rect target = Some r /\ covers r (pt_column (pp_point a)) (pt_row (pp_point a)).
Proof.
  intros Hw Hreqs H. unfold planScreenPointer in H. open_run H. destruct (t_rect target) as [r|]; [|discriminate]. specialize (Hw r eq_refl).
  assert (Forall (fun s => Tree.from s < Tree.to s) (rg_spans (screen_region ctx r))) as Hs.
  { cbn. apply Forall_forall. intros sp (o & -> & _)%list_elem_of_fmap. cbn. lia. }
  pose proof (aim_in _ (po_position options) Hs) as Hp. destruct (choosePoint _ _) as [p|]; [|discriminate]. destruct Hp as (sp & Hsp & Hin).
  open_run H. apply pointer_operations_Ok in E0 as (-> & Hops). injection H as <- <-. split; [by split|]. split; [lia|]. exists r. split; [done|].
  cbn in Hsp |- *. apply list_elem_of_fmap in Hsp as (o & -> & Ho). apply in_span_iff in Hin. cbn in Hin. apply list_elem_of_In, in_seq in Ho. unfold covers. lia.
Qed.

Lemma mode_requirement_Ok kind s u s' : modeRequirement kind (cx_modes ctx) s = (Ok u, s') -> mouseModeAllows kind (cx_modes ctx) = true.
Proof.
  unfold modeRequirement, mouseModeAllows. intros H. open_run H. open_run H. open_run H. apply require_Ok in H as [H ->].
  apply negb_true_iff, orb_false_iff in E as [-> ->]. apply negb_true_iff in E0. rewrite E0. cbn [orb].
  destruct kind; try done; cbn in E1, H; apply negb_true_iff in E1, H.
  - by apply negb_false_iff in E1.
  - apply andb_false_iff in H as [H|H]; apply negb_false_iff in H; rewrite H; by rewrite ?orb_true_r.
Qed.
End Plans.

Lemma pointer_planned ctx actionId intent target options s a s' :
  (forall i region, pointerRegion ctx i = Some region -> Forall (fun s => Tree.from s < Tree.to s) (pg_spans region)) ->
  (forall r, t_rect target = Some r -> 0 < width r) ->
  planPointer ctx actionId intent target options s = (Ok a, s') ->
  actionObservationState ctx = settled /\ supports ctx "pointer-input" = true /\ mouseModeAllows (i_kind intent) (cx_modes ctx) = true /\
  pointed ctx intent a /\
  if t_semantic target then owned_cell ctx intent target (pp_point a)
  else t_revision target = os_screenRevision (cx_checkpoint ctx) /\
       exists r, t_rect target = Some r /\ covers r (pt_column (pp_point a)) (pt_row (pp_point a)).
Proof.
  intros Hspans Hrect H%attach_Ok. unfold planPointer_ in H. open_run H. open_run H. apply settled_Ok in E as [Hset ->]. open_run H. cbv zeta in H.
  open_run H. open_run H. open_run H. open_run H. open_run H.
  assert (supports ctx "pointer-input" = true) as Hin.
  { unfold is_verdict in E. rewrite capability_satisfied in E. by destruct (supports ctx "pointer-input"). }
  assert (mouseModeAllows (i_kind intent) (cx_modes ctx) = true) as Hmode.
  { destruct (mouseModeAllows (i_kind intent) (cx_modes ctx)) eqn:Em; [done|]. cbn in E0. apply mode_requirement_Ok in E0. congruence. }
  split; [done|]. split; [done|]. split; [done|].
  match type of H with context [planScreenPointer _ _ _ _ _ ?l] => set (reqs := l) in * end.
  assert (Forall (fun r => verdict r <> unsatisfied) reqs) as Hreqs.
  { unfold reqs. rewrite Hmode, !Forall_cons, !capability_satisfied. split_and!; try done.
    - by destruct (supports ctx "pointer-input").
    - by repeat case_match. }
  destruct (t_semantic target).
  - by apply semantic_pointer_sound in H as [? ?].
  - by apply screen_pointer_sound in H as (? & ? & ?).
Qed.

(** C18 A plan for the pointer is backed by evidence: it is made on a settled
    observation whose contract has pointer input and whose terminal reports what the
    action needs, no requirement is known to fail, every operation is a mouse
    operation at the point, and the point is a cell of the target.  For a target on
    the screen, which has a positive width, that is a cell of its rectangle at the
    current screen revision.  For a semantic target it is a cell of the committed
    pointer region of the node it names, whose spans are not empty; the region has
    not become something else since the tree was paired; the node is not known to be
    hidden (one of unknown visibility is not refused) and, unless the pointer only
    hovers, the contract has the semantic tree and the tree does not say that it is
    disabled; and a hit grid whose runs are in row-major order gives the cell to that
    node and to no other, or, without hit testing, the application is contracted as
    the owner of the region. *)
Theorem pointer_plan_sound ctx actionId intent target options s a s' :
  (forall i region, pointerRegion ctx i = Some region -> Forall (fun s => Tree.from s < Tree.to s) (pg_spans region)) ->
  (forall r, t_rect target = Some r -> 0 < width r) ->
  planPointer ctx actionId intent target options s = (Ok a, s') ->
  actionObservationState ctx = settled /\ supports ctx "pointer-input" = true /\ mouseModeAllows (i_kind intent) (cx_modes ctx) = true /\
  pointed ctx intent a /\
  if t_semantic target then owned_cell ctx intent target (pp_point a)
  else t_revision target = os_screenRevision (cx_checkpoint ctx) /\
       exists r, t_rect target = Some r /\ covers r (pt_column (pp_point a)) (pt_row (pp_point a)).
Proof. apply pointer_planned. Qed.

(** ** Keyboard plans *)

(** The device operations of a recipe. *)
Definition recipe_operation (value : option ExecutableValue) (step : PhysicalInputRecipeStep) : ExecutableDeviceOperation :=
  match step with
  | Tree.press key => e_keyboard k_press (plain_value key)
  | insert_action_value => e_keyboard k_type (default (plain_value []) value)
  end.
Definition recipe_operations (value : option ExecutableValue) (r : PhysicalInputRecipe) : list ExecutableDeviceOperation :=
  recipe_operation value <$> rc_steps r.

Lemma recipe_steps_Ok value steps s ops s' : recipe_steps value steps s = (Ok ops, s') -> ops = (recipe_operation value <$> steps) /\ s' = s.
Proof.
  revert s ops s'. induction steps as [|step steps IH]; intros s ops s' H; cbn [recipe_steps] in H; [by injection H as <- <-|]. open_run H. open_run H.
  apply IH in E0 as [-> ->]. injection H as <- <-. destruct step as [key|]; cbn in E.
  - by injection E as <- <-.
  - destruct value as [v|]; [by injection E as <- <-|discriminate].
Qed.

Lemma recipeOperations_Ok node action value required s r s' :
  recipeOperations node action value required s = (Ok r, s') ->
  s' = s /\ match r with
            | Some o => exists recipe, recipe_of node action = Some recipe /\ o = {| ro_requiresFocus := rc_requiresFocus recipe; ro_operations := recipe_operations value recipe |}
            | None => recipe_of node action = None
            end.
Proof.
  unfold recipeOperations. destruct (recipe_of node action) as [recipe|] eqn:E; intros H.
  - open_run H. apply recipe_steps_Ok in E0 as [-> ->]. injection H as <- <-. split; [done|]. by exists recipe.
  - destruct required; [discriminate|]. by injection H as <- <-.
Qed.

Definition has_focus (node : SemanticNode) : Prop := (n_state node ≫= st_focused) = Some true.

Section Keyboard.
Context (ctx : ActionPlannerContext) (target : ResolvedTarget) (node : SemanticNode).

(** How a plan may move the focus to the target. *)
Inductive focusing (intent : ActionIntent) : list ExecutableDeviceOperation -> Prop :=
| focus_by_keys r :
    is_via intent "pointer" = false -> supports ctx "action-strategies" = true -> recipe_of node "focus" = Some r -> rc_requiresFocus r = false ->
    focusing intent (recipe_operations None r)
| focus_by_pointer p ops :
    is_via intent "keyboard" = false -> owned_cell ctx (focus_intent target None) target p -> points_at p ops ->
    focusing intent ops.

(** The way to activate a control, or to toggle it into the state asked for. *)
Inductive activating (intent : ActionIntent) : string -> Prop :=
| to_activate : i_kind intent = a_activate -> activating intent "activate"
| to_toggle d :
    desired_state intent = Some d -> checked_state node = Some (negb d) -> n_role node ∈ [js "checkbox"; js "radio"] -> activating intent "toggle".

(** What may be planned for an intent on the keyboard. *)
Inductive planned (intent : ActionIntent) (value : ExecutableValue) : list ExecutableDeviceOperation -> Prop :=
| plans_text :
    i_kind intent = a_type \/ i_kind intent = a_press -> has_focus node ->
    planned intent value [e_keyboard (if bool_decide (i_kind intent = a_press) then k_press else k_type) value]
| plans_fill r ops :
    i_kind intent = a_fill -> supports ctx "action-strategies" = true -> recipe_of node "setValue" = Some r ->
    (has_focus node -> ops = []) -> (~ has_focus node -> focusing (focus_intent target None) ops) ->
    (rc_requiresFocus r = true -> has_focus node \/ ops <> []) ->
    planned intent value (ops ++ recipe_operations (Some value) r)
| plans_no_focus : i_kind intent = a_focus -> has_focus node -> planned intent value []
| plans_focus ops : i_kind intent = a_focus -> ~ has_focus node -> focusing intent ops -> planned intent value ops
| plans_no_toggle d : desired_state intent = Some d -> checked_state node = Some d -> planned intent value []
| plans_recipe action r ops :
    activating intent action -> is_via intent "pointer" = false -> supports ctx "action-strategies" = true -> recipe_of node action = Some r ->
    (rc_requiresFocus r = true -> ~ has_focus node -> focusing (focus_intent target (Some "keyboard"%string)) ops) ->
    (rc_requiresFocus r = false \/ has_focus node -> ops = []) ->
    planned intent value (ops ++ recipe_operations None r)
| plans_pointer action p ops :
    activating intent action -> is_via intent "keyboard" = false -> owned_cell ctx (activate_intent target) target p -> points_at p ops ->
    planned intent value ops.

(** The target of every keyboard plan. *)
Record usable (intent : ActionIntent) : Prop := {
  us_settled : actionObservationState ctx = settled;
  us_semantic : t_semantic target = true;
  us_keyboard : is_via intent "pointer" = true \/ supports ctx "keyboard-input" = true;
  us_node : exists nodeId paired, committed ctx target nodeId node paired;
  us_enabled : (n_state node ≫= st_disabled) <> Some true;
  us_displayed : exists e, displayed (n_geometry node) = known true e;
  us_focus : supports ctx "focus" = true;
}.
End Keyboard.

Lemma none_inconclusive rs : existsb (is_verdict inconclusive) rs = false -> Forall (fun r => verdict r <> inconclusive) rs.
Proof.
  intros H. apply Forall_forall. intros r Hr Hv. apply not_true_iff_false in H. apply H, existsb_exists. exists r.
  split; [by apply list_elem_of_In|]. unfold is_verdict. by apply bool_decide_eq_true.
Qed.

Lemma keyboardTarget_Ok ctx intent target s node focused reqs s' :
  keyboardTarget ctx intent target s = (Ok (node, focused, reqs), s') ->
  usable ctx target node intent /\ focused = bool_decide (has_focus node) /\ Forall (fun r => cr_checkpoint r = cx_checkpoint ctx) reqs.
Proof.
  intros H. unfold keyboardTarget in H. open_run H. open_run H. apply settled_Ok in E as [Hset ->]. open_run H. open_run H. open_run H. open_run H. open_run H.
  destruct a2 as [[nodeId n] paired]. apply committed_Ok in E2 as [Hc ->]. cbv zeta in H. open_run H. open_run H. open_run H. open_run H. open_run H.
  injection H as <- <- <- <-. split; [|split; [done|by repeat constructor]].
  apply negb_true_iff, none_inconclusive in E2. apply negb_true_iff, none_unsatisfied in E3. rewrite !Forall_cons in E2, E3.
  destruct E2 as (I1 & I2 & I3 & _), E3 as (U1 & U2 & U3 & _). unfold enabled_result, displayed_result in *. rewrite !capability_satisfied in *.
  split; [done|done| |by exists nodeId, paired| | |].
  - destruct (is_via intent "pointer"); [by left|]. right. unfold requireCapability in E0. by apply require_Ok in E0 as [E0 _].
  - intros Hd. rewrite Hd in U2, I2. by destruct (supports ctx "semantic-tree").
  - unfold condition, condition_result in I3, U3. cbn in I3, U3. destruct (displayed (n_geometry n)) as [[] e| | |]; try done. by exists e.
  - unfold is_verdict in E4. rewrite capability_satisfied in E4. by destruct (supports ctx "focus").
Qed.

Lemma usable_same ctx target n1 n2 i1 i2 : usable ctx target n1 i1 -> usable ctx target n2 i2 -> n1 = n2.
Proof. intros [_ _ _ (? & ? & [_ _ _ -> H1]) _ _ _] [_ _ _ (? & ? & [_ _ _ -> H2]) _ _ _]. congruence. Qed.

(** The assumptions on what the session reports: regions and targets have cells. *)
Record sized (ctx : ActionPlannerContext) (target : ResolvedTarget) : Prop := {
  sz_regions i region : pointerRegion ctx i = Some region -> Forall (fun s => Tree.from s < Tree.to s) (pg_spans region);
  sz_target r : t_rect target = Some r -> 0 < width r;
}.

(** A pointer plan for a semantic target, in the terms of its cell. *)
Lemma planPointer_owned ctx actionId intent target options s a s' :
  sized ctx target -> t_semantic target = true -> planPointer ctx actionId intent target options s = (Ok a, s') ->
  owned_cell ctx intent target (pp_point a) /\ pointed ctx intent a.
Proof.
  intros [Hspans Hrect] Hsem H%attach_Ok. unfold planPointer_ in H. do 5 (open_run H). cbv zeta in H. repeat open_run H.
  rewrite Hsem in H. by apply semantic_pointer_sound in H.
Qed.

Section Soundness.
Context (ctx : ActionPlannerContext) (actionId : jstring) (target : ResolvedTarget).
Hypothesis Hsized : sized ctx target.

Lemma planFocus_sound intent node focused reqs s p s' :
  t_semantic target = true -> focused = bool_decide (has_focus node) ->
  planFocus ctx actionId intent target node focused reqs s = (Ok p, s') ->
  x_intent p = intent /\ x_checkpoint p = cx_checkpoint ctx /\
  if bool_decide (has_focus node) then x_operations p = [] else focusing ctx target node intent (x_operations p).
Proof.
  intros Hsem -> H. unfold planFocus in H. destruct (bool_decide (has_focus node)); [by injection H as <- <-|]. open_run H.
  destruct a as [o|].
  - open_run H. injection H as <- <-. split; [done|]. split; [done|]. destruct (negb (is_via intent "pointer") && supports ctx "action-strategies") eqn:Ev; [|discriminate].
    breflect. apply recipeOperations_Ok in E as (_ & r & Hr & ->). cbn in *. by apply focus_by_keys.
  - open_run H. open_run H. injection H as <- <-. apply planPointer_owned in E1 as [Ho [_ _ Hops _]]; [|done|done]. apply negb_true_iff in E0.
    split; [done|]. split; [done|]. by eapply focus_by_pointer.
Qed.

(** The inner level of [planKeyboard_], on an intent to focus. *)
Lemma focus_level again v intent s p s' node :
  i_kind intent = a_focus -> (exists i, usable ctx target node i) -> planKeyboard_step ctx again actionId target v intent s = (Ok p, s') ->
  if bool_decide (has_focus node) then x_operations p = [] else focusing ctx target node intent (x_operations p).
Proof.
  intros Hk [i Hu] H. unfold planKeyboard_step in H. open_run H. destruct a as [[n focused] reqs]. apply keyboardTarget_Ok in E as (Hu' & Hf & _).
  rewrite (usable_same _ _ _ _ _ _ Hu' Hu) in *. rewrite Hk in H. eapply planFocus_sound in H; [apply H|by destruct Hu|done].
Qed.

Lemma planStrategy_sound again intent node focused reqs value action s p s' :
  usable ctx target node intent -> focused = bool_decide (has_focus node) -> activating node intent action ->
  (forall i s p s', i_kind i = a_focus -> again i s = (Ok p, s') ->
     if bool_decide (has_focus node) then x_operations p = [] else focusing ctx target node i (x_operations p)) ->
  planStrategy ctx again actionId intent target node focused reqs action s = (Ok p, s') ->
  x_intent p = intent /\ x_checkpoint p = cx_checkpoint ctx /\ planned ctx target node intent value (x_operations p).
Proof.
  intros Hu -> Hact Hagain H. unfold planStrategy in H. open_run H. destruct a as [o|].
  - destruct (negb (is_via intent "pointer") && supports ctx "action-strategies") eqn:Ev; [|discriminate]. breflect.
    apply recipeOperations_Ok in E as (-> & r & Hr & ->). open_run H. injection H as <- <-. cbn [make_plan x_intent x_checkpoint x_operations ro_operations ro_requiresFocus] in *.
    split; [done|]. split; [done|]. apply (plans_recipe _ _ _ _ _ action); try done.
    + intros Hrf Hnf. rewrite Hrf, bool_decide_eq_false_2 in E by done. cbn [negb andb] in E. open_run E. injection E as <- <-.
      apply Hagain in E0; [|done]. by rewrite bool_decide_eq_false_2 in E0.
    + intros Hno. destruct (rc_requiresFocus r && negb (bool_decide (has_focus node))) eqn:Ef; [|by injection E as <- <-].
      breflect. destruct Hno; [congruence|done].
  - open_run H. unfold planPointerActivate in H. open_run H. injection H as <- <-. apply planPointer_owned in E1 as [Ho [Hcp _ Hops _]]; [|done|by destruct Hu].
    apply negb_true_iff in E0. split; [done|]. split; [exact Hcp|]. by eapply plans_pointer.
Qed.

Lemma planFill_sound again intent node focused reqs value s p s' :
  i_kind intent = a_fill -> focused = bool_decide (has_focus node) ->
  (forall i s p s', i_kind i = a_focus -> again i s = (Ok p, s') ->
     if bool_decide (has_focus node) then x_operations p = [] else focusing ctx target node i (x_operations p)) ->
  planFill ctx again actionId intent target node focused reqs value s = (Ok p, s') ->
  x_intent p = intent /\ x_checkpoint p = cx_checkpoint ctx /\ planned ctx target node intent value (x_operations p).
Proof.
  intros Hk -> Hagain H. unfold planFill in H. open_run H. open_run H. destruct a as [o|]; [|discriminate]. apply recipeOperations_Ok in E0 as (-> & r & Hr & ->).
  open_run H. open_run H. injection H as <- <-. cbn [make_plan x_intent x_checkpoint x_operations ro_operations ro_requiresFocus] in *. split; [done|]. split; [done|].
  apply negb_true_iff in E1. destruct (bool_decide (has_focus node)) eqn:Ef.
  - injection E0 as <- <-. apply bool_decide_eq_true in Ef. apply plans_fill; try done. by left.
  - open_run E0. injection E0 as <- <-. apply Hagain in E2; [|done]. apply bool_decide_eq_false in Ef.
    apply plans_fill; try done. intros Hrf. rewrite Hrf in E1. cbn [negb andb] in E1. right. by apply bool_decide_eq_false in E1.
Qed.

Lemma planActivate_sound again intent node focused reqs value s p s' :
  usable ctx target node intent -> focused = bool_decide (has_focus node) -> i_kind intent ∈ [a_activate; a_check; a_uncheck] ->
  (forall i s p s', i_kind i = a_focus -> again i s = (Ok p, s') ->
     if bool_decide (has_focus node) then x_operations p = [] else focusing ctx target node i (x_operations p)) ->
  planActivate ctx again actionId intent target node focused reqs s = (Ok p, s') ->
  x_intent p = intent /\ x_checkpoint p = cx_checkpoint ctx /\ planned ctx target node intent value (x_operations p).
Proof.
  intros Hu Hf Hk Hagain H. unfold planActivate in H. cbv zeta in H. open_run H. open_run H. destruct (desired_state intent) as [d|] eqn:Ed.
  - rewrite bool_decide_eq_true_2 in E, E0 by eauto. cbn [negb orb] in E, E0. breflect. destruct (bool_decide (checked_state node = Some d)) eqn:Ec.
    + open_run H. injection H as <- <-. apply bool_decide_eq_true in Ec. split; [done|]. split; [done|]. by eapply plans_no_toggle.
    + apply bool_decide_eq_false in Ec. eapply planStrategy_sound; [done|done| |done|exact H]. eapply to_toggle; [done| |done].
      destruct E0 as [c Hc]. rewrite Hc in *. f_equal. destruct c, d; done.
  - eapply planStrategy_sound; [done|done| |done|exact H]. apply to_activate. unfold desired_state in Ed.
    destruct (i_kind intent); try done; exfalso; by repeat (apply elem_of_cons in Hk as [?|Hk]; [done|]); apply elem_of_nil in Hk.
Qed.
End Soundness.

Lemma keyboard_planned ctx actionId intent target value s p s' :
  sized ctx target -> planKeyboard ctx actionId intent target value s = (Ok p, s') ->
  x_intent p = intent /\ x_checkpoint p = cx_checkpoint ctx /\
  exists node, usable ctx target node intent /\ planned ctx target node intent value (x_operations p).
Proof.
  intros Hsized H%attach_Ok. unfold planKeyboard_ in H. unfold planKeyboard_step at 1 in H. open_run H. destruct a as [[node focused] reqs].
  apply keyboardTarget_Ok in E as (Hu & Hf & _).
  assert (forall i s p s', i_kind i = a_focus ->
     planKeyboard_step ctx (fun _ => throw type_error) actionId target (plain_value []) i s = (Ok p, s') ->
     if bool_decide (has_focus node) then x_operations p = [] else focusing ctx target node i (x_operations p)) as Hagain.
  { intros i st p0 st1 Hk. apply focus_level; eauto. }
  enough (x_intent p = intent /\ x_checkpoint p = cx_checkpoint ctx /\ planned ctx target node intent value (x_operations p)) as (? & ? & ?)
    by (split; [done|]; split; [done|]; by exists node).
  destruct (i_kind intent) eqn:Hk; try discriminate H.
  - eapply planFocus_sound in H as (? & ? & H); [|done|by destruct Hu|done]. split; [done|]. split; [done|].
    destruct (bool_decide (has_focus node)) eqn:Ef; [rewrite H; apply plans_no_focus|apply plans_focus]; try done;
      [by apply bool_decide_eq_true in Ef|by apply bool_decide_eq_false in Ef].
  - eapply planActivate_sound; [done|done|done|rewrite Hk; set_solver|exact Hagain|exact H].
  - unfold planFocusedKeyboard in H. open_run H. injection H as <- <-. split; [done|]. split; [done|]. rewrite E in Hf. symmetry in Hf. apply bool_decide_eq_true in Hf.
    apply plans_text; [by right|done].
  - unfold planFocusedKeyboard in H. open_run H. injection H as <- <-. split; [done|]. split; [done|]. rewrite E in Hf. symmetry in Hf. apply bool_decide_eq_true in Hf.
    apply plans_text; [by left|done].
  - eapply planFill_sound; [done|done|exact Hagain|exact H].
  - eapply planActivate_sound; [done|done|done|rewrite Hk; set_solver|exact Hagain|exact H].
  - eapply planActivate_sound; [done|done|done|rewrite Hk; set_solver|exact Hagain|exact H].
Qed.

(** C15 A keyboard plan only does what the contract lets it: it is made on a settled
    observation for a semantic target whose node is committed, enabled and
    displayed, and its operations are those of the specification [planned]: text
    only into a focused node, a registered recipe only when the focus it needs is
    there or moved first, nothing when the state asked for is there already, and
    the pointer only on a cell of the target and never against an intent that asks
    for the keyboard. *)
Theorem keyboard_plan_sound ctx actionId intent target value s p s' :
  sized ctx target -> planKeyboard ctx actionId intent target value s = (Ok p, s') ->
  x_intent p = intent /\ x_checkpoint p = cx_checkpoint ctx /\
  exists node, usable ctx target node intent /\ planned ctx target node intent value (x_operations p).
Proof. apply keyboard_planned. Qed.

(** ** Wheel and drag *)

Lemma recipe_balanced value r : balanced (recipe_operations value r).
Proof. unfold balanced, recipe_operations. induction (rc_steps r) as [|[key|] steps IH]; [done|exact IH..]. Qed.

Lemma focusing_balanced ctx target node intent ops : focusing ctx target node intent ops -> balanced ops.
Proof. intros [r|p ops' _ _ []]; [apply recipe_balanced|done]. Qed.

Lemma planned_balanced ctx target node intent value ops : planned ctx target node intent value ops -> balanced ops.
Proof.
  intros [_ _|r ops' _ _ _ Hf Hn _| |ops' _ _ H|d _ _|action r ops' _ _ _ _ Hf Hn|action p ops' _ _ _ []]; try done.
  - apply balanced_app; [|apply recipe_balanced]. destruct (decide (has_focus node)) as [H|H]; [by rewrite Hf|by eapply focusing_balanced, Hn].
  - by eapply focusing_balanced.
  - apply balanced_app; [|apply recipe_balanced]. destruct (decide (has_focus node)) as [H|H]; [by rewrite Hn by by right|].
    destruct (rc_requiresFocus r) eqn:Er; [by eapply focusing_balanced, Hf|by rewrite Hn by by left].
Qed.

Lemma wheelDelta_Ok value s v s' : wheelDelta value s = (Ok v, s') -> s' = s /\ default (int 0) value = int v /\ Z.abs v <= 100.
Proof.
  unfold wheelDelta. destruct (to_safe_integer _) as [z|] eqn:E; [|discriminate]. apply to_safe_integer_Some in E as [E _].
  destruct (Z.ltb_spec 100 (Z.abs z)); [discriminate|]. by intros [= <- <-].
Qed.

Definition deltaX (o : ExecutableDeviceOperation) : Z := match o with e_mouse m => default 0 (m_deltaX m) | _ => 0 end.
Definition deltaY (o : ExecutableDeviceOperation) : Z := match o with e_mouse m => default 0 (m_deltaY m) | _ => 0 end.
Definition is_wheel (p : Point) (o : ExecutableDeviceOperation) : Prop :=
  match o with e_mouse m => m_kind m = m_wheel /\ m_row m = pt_row p /\ m_column m = pt_column p | _ => False end.

Lemma held_after_wheels ms p dx dy n held : held = None -> held_after held (replicate n (wheel_operation ms p dx dy)) = Some None.
Proof. intros ->. induction n as [|n IH]; [done|exact IH]. Qed.

Lemma sum_replicate {A} (f : A -> Z) n x : sum_list_with (fun a => Z.to_nat (Z.abs (f a))) (replicate n x) = (n * Z.to_nat (Z.abs (f x)))%nat.
Proof. induction n as [|n IH]; cbn; [done|]. rewrite IH. lia. Qed.

Lemma unique_path_last path : last (unique_path path) = last path.
Proof.
  destruct path as [|p path]; [done|]. cbn [unique_path]. revert p. induction path as [|q path IH]; intros p; [done|]. cbn [moves_from].
  destruct (bool_decide (q = p)) eqn:E.
  - apply bool_decide_eq_true in E as ->. rewrite IH. by destruct path.
  - specialize (IH q). by destruct (moves_from q path), path.
Qed.

(** No two successive points are the same. *)
Fixpoint moving (previous : Point) (path : list Point) : Prop :=
  match path with [] => True | p :: path => p <> previous /\ moving p path end.
Lemma unique_path_moves path : match unique_path path with [] => path = [] | p :: ps => moving p ps end.
Proof.
  destruct path as [|p path]; [done|]. cbn [unique_path]. revert p. induction path as [|q path IH]; intros p; [done|]. cbn [moves_from].
  destruct (bool_decide (q = p)) eqn:E; [apply bool_decide_eq_true in E as ->; apply IH|]. apply bool_decide_eq_false in E. split; [done|apply IH].
Qed.

Lemma held_after_moves b ms path : held_after (Some b) ((mouse_operation m_move (Some b) ms) <$> path) = Some (Some b).
Proof. induction path as [|p path IH]; [done|]. cbn. rewrite bool_decide_eq_true_2 by done. exact IH. Qed.

Lemma planDrag_shape ctx actionId intent source destination options s a s' :
  planDrag ctx actionId intent source destination options s = (Ok a, s') ->
  exists ms path b sa sb sb', planPointer ctx actionId (with_target intent destination) destination no_options sb = (Ok b, sb') /\
    (exists a', planPointer ctx actionId (with_target intent source) source no_options sa = (Ok a', sb) /\ pp_point a = pp_point a' /\
       x_checkpoint (pp_plan a) = x_checkpoint (pp_plan a') /\ x_physicalRegion (pp_plan a) = x_physicalRegion (pp_plan a')) /\
    (forall ps, do_path options = Some ps -> last path = Some (pp_point b)) /\
    x_operations (pp_plan a) = mouse_operation m_down (Some Mouse.left_button) ms (pp_point a) ::
      (mouse_operation m_move (Some Mouse.left_button) ms <$> unique_path path) ++ [mouse_operation m_up (Some Mouse.left_button) ms (pp_point b)].
Proof.
  intros H. unfold planDrag in H. open_run H. open_run H. cbv zeta in H. open_run H. destruct (to_safe_integer _) as [steps|]; [|discriminate].
  destruct (_ || _); [discriminate|]. open_run H. open_run H. apply modifiers_Ok in E3 as [_ ->]. injection H as <- <-.
  exists a3, a2, a1, s, s0, s1. split; [done|]. split; [by exists a0|]. split; [|done]. intros ps Hps. rewrite Hps in E2. open_run E2. injection E2 as <- <-. by rewrite last_snoc.
Qed.

Lemma planWheel_shape ctx actionId intent target options s a s' :
  planWheel ctx actionId intent target options s = (Ok a, s') ->
  exists ms v h, default (int 0) (wo_deltaY options) = int v /\ default (int 0) (wo_deltaX options) = int h /\ Z.abs v <= 100 /\ Z.abs h <= 100 /\
    x_operations (pp_plan a) = replicate (Z.abs_nat v) (wheel_operation ms (pp_point a) None (Some (Z.sgn v))) ++
                               replicate (Z.abs_nat h) (wheel_operation ms (pp_point a) (Some (Z.sgn h)) None).
Proof.
  intros H. unfold planWheel in H. open_run H. apply wheelDelta_Ok in E as (-> & Ev & Hv). open_run H. apply wheelDelta_Ok in E as (-> & Eh & Hh).
  destruct (_ && _); [discriminate|]. open_run H. cbv zeta in H. open_run H. apply modifiers_Ok in E0 as [_ ->]. injection H as <- <-. by exists a3, a0, a1.
Qed.

(** The plan of one of the four entry points of the planner. *)
Inductive plans (ctx : ActionPlannerContext) (p : ExecutableActionPlan) : Prop :=
| by_pointer actionId intent target options s a s' :
    sized ctx target -> planPointer ctx actionId intent target options s = (Ok a, s') -> p = pp_plan a -> plans ctx p
| by_keyboard actionId intent target value s s' :
    sized ctx target -> planKeyboard ctx actionId intent target value s = (Ok p, s') -> plans ctx p
| by_wheel actionId intent target options s a s' :
    planWheel ctx actionId intent target options s = (Ok a, s') -> p = pp_plan a -> plans ctx p
| by_drag actionId intent source destination options s a s' :
    planDrag ctx actionId intent source destination options s = (Ok a, s') -> p = pp_plan a -> plans ctx p.

(** What a plan presses it releases: in the operations of any plan a button only
    goes down while none is held, the pointer is dragged with the button that is
    held, only that one comes up, and none is held at the end. *)
Lemma plans_balanced ctx p : plans ctx p -> balanced (x_operations p).
Proof.
  intros [actionId intent target options s a s' [Hr Ht] H ->|actionId intent target value s s' Hs H|actionId intent target options s a s' H ->|
          actionId intent source destination options s a s' H ->].
  - by apply pointer_planned in H as (_ & _ & _ & [_ _ [] _] & _).
  - apply keyboard_planned in H as (_ & _ & node & _ & H); [|done]. by eapply planned_balanced.
  - apply planWheel_shape in H as (ms & v & h & _ & _ & _ & _ & ->). unfold balanced. rewrite held_after_app, held_after_wheels by done. by apply held_after_wheels.
  - apply planDrag_shape in H as (ms & path & b & sa & sb & sb' & _ & _ & _ & ->). unfold balanced. cbn. by rewrite held_after_app, held_after_moves.
Qed.

(** The wheel turns by what was asked and a drag runs between its targets: a wheel
    plan has one step per unit on each axis, all at the point, which add up to the
    deltas; a drag presses at the point of the source, never reports the same cell
    twice in a row, follows the path that was given, and releases at the point of
    the destination. *)
Theorem wheel_and_drag_exact ctx actionId intent target destination wheel drag s :
  match planWheel ctx actionId intent target wheel s with
  | (Ok a, _) =>
      exists v h, default (int 0) (wo_deltaY wheel) = int v /\ default (int 0) (wo_deltaX wheel) = int h /\
        Forall (is_wheel (pp_point a)) (x_operations (pp_plan a)) /\
        length (x_operations (pp_plan a)) = (Z.abs_nat v + Z.abs_nat h)%nat /\
        foldr Z.add 0 (deltaY <$> x_operations (pp_plan a)) = v /\ foldr Z.add 0 (deltaX <$> x_operations (pp_plan a)) = h
  | (Err _, _) => True
  end /\
  match planDrag ctx actionId intent target destination drag s with
  | (Ok a, _) =>
      exists a' b s1 s2 s3 ms path,
        planPointer ctx actionId (with_target intent target) target no_options s1 = (Ok a', s2) /\
        planPointer ctx actionId (with_target intent destination) destination no_options s2 = (Ok b, s3) /\ pp_point a = pp_point a' /\
        x_operations (pp_plan a) = mouse_operation m_down (Some Mouse.left_button) ms (pp_point a) ::
          (mouse_operation m_move (Some Mouse.left_button) ms <$> path) ++ [mouse_operation m_up (Some Mouse.left_button) ms (pp_point b)] /\
        match path with [] => True | p :: ps => moving p ps end /\ (forall ps, do_path drag = Some ps -> last path = Some (pp_point b))
  | (Err _, _) => True
  end.
Proof.
  split.
  - destruct (planWheel ctx actionId intent target wheel s) as [[a|e] s'] eqn:E; [|done]. apply planWheel_shape in E as (ms & v & h & Ev & Eh & _ & _ & ->).
    exists v, h. split; [done|]. split; [done|]. split; [apply Forall_app; split; by apply Forall_replicate|]. split; [by rewrite length_app, !length_replicate|].
    rewrite !fmap_app, !fmap_replicate, !foldr_app. cbn [deltaX deltaY wheel_operation m_deltaX m_deltaY default].
    assert (forall n x acc, foldr Z.add acc (replicate n x) = Z.of_nat n * x + acc) as Hsum by (intros n x acc; induction n as [|n IH]; cbn [foldr replicate]; lia).
    rewrite !Hsum, !Nat2Z.inj_abs_nat. change (default 0 None) with 0. rewrite !Z.mul_0_r. cbn [default].
    change (default 0 (Some (Z.sgn v))) with (Z.sgn v). change (default 0 (Some (Z.sgn h))) with (Z.sgn h). rewrite !Z.abs_sgn. lia.
  - destruct (planDrag ctx actionId intent target destination drag s) as [[a|e] s'] eqn:E; [|done].
    apply planDrag_shape in E as (ms & path & b & sa & sb & sb' & Hb & (a' & Ha & Hp & _) & Hlast & Hops).
    exists a', b, sa, sb, sb', ms, (unique_path path). split_and!; try done.
    + pose proof (unique_path_moves path). by destruct (unique_path path).
    + intros ps Hps. rewrite unique_path_last. by eapply Hlast.
Qed.

(** ** A form with a text field *)

Module Form.
Definition native : EvidenceProvenance := authoritative framework Tree.native (js "ink").
Definition stamp : ObservationStamp :=
  {| os_sessionId := js "s"; os_contractId := js "c"; os_epoch := 0; os_sequence := 7; os_screenRevision := 5;
     os_semanticRevision := Some 3; os_pairedScreenRevision := Some 5 |}.
Definition contract : EffectiveSessionContract :=
  {| contractId := js "c"; c_sessionId := js "s"; epoch := 0; c_framework := None; c_providers := [];
     c_capabilities := (fun c => (c, supported native)) <$>
       ["pointer-input"; "keyboard-input"; "semantic-tree"; "paired-revisions"; "pointer-geometry"; "pointer-hit-testing"; "focus"; "action-strategies"]%string;
     c_profile := js "xterm"; c_platform := js "linux"; mouseModesObservable := true |}.
Definition nothing : SemanticState :=
  {| st_disabled := None; st_focused := Some false; st_selected := None; st_checked := None; st_expanded := None; st_modal := None; st_busy := None;
     st_hidden := None; st_offscreen := None; st_readonly := None; st_multiline := None; st_required := None; st_multiselectable := None;
     st_orientation := None; st_level := None; st_positionInSet := None; st_setSize := None |}.
Definition field : SemanticNode :=
  {| n_id := js "name"; n_parentId := None; n_role := js "textbox"; n_name := js "Name"; n_description := None; n_value := None;
     n_state := Some nothing; n_extended := None; n_actions := None;
     n_inputRecipes := Some [{| rc_action := js "setValue"; rc_requiresFocus := true; rc_steps := [Tree.press (js "Control+u"); insert_action_value] |}];
     n_labelledBy := None; n_describedBy := None; n_textRanges := None; n_testId := None; n_frameworkType := None; n_opaqueChildren := None;
     n_p := None; n_px := None;
     n_geometry := {| displayed := known true native; intendedRect := Tree.unsupported [] framework_unobservable;
                      visibleRect := Tree.unsupported [] framework_unobservable |};
     n_scroll := None; n_paintedRegion := None |}.
(** The field is painted on two rows; a badge covers the end of the first. *)
Definition region : PointerRegion :=
  {| pg_bounds := {| row := 2; column := 10; width := 8; height := 2 |};
     pg_spans := [{| sp_row := 2; Tree.from := 10; Tree.to := 18 |}; {| sp_row := 3; Tree.from := 10; Tree.to := 14 |}]; pg_evidence := native |}.
Definition grid : PointerHitGrid :=
  {| regions := [{| hr_rect := {| row := 2; column := 0; width := 13; height := 2 |}; hr_recipientId := js "name" |};
                 {| hr_rect := {| row := 2; column := 13; width := 9; height := 1 |}; hr_recipientId := js "badge" |}] |}.
Definition context : ActionPlannerContext :=
  {| actionObservationState := settled; cx_checkpoint := stamp; cx_contract := Some contract;
     cx_modes := {| Mouse.mouseTracking := Mouse.t_any; Mouse.mouseEncoding := Mouse.e_sgr |};
     semanticNode i := if bool_decide (i = js "name") then Some field else None;
     hitGrid := Some (known grid native);
     pointerRegion i := if bool_decide (i = js "name") then Some region else None;
     screenRegionUnchangedSince _ _ := true; screenRegionChangeSince := None; screenRows := None |}.
Definition target : ResolvedTarget := {| t_ref := js "semantic:name@3"; t_revision := 3; t_semantic := true; t_rect := None |}.
Definition intent (k : ActionKind) : ActionIntent := {| i_kind := k; i_selector := None; i_targetRef := Some (t_ref target); i_via := None |}.

(** A click, and a fill, of the field. *)
Definition click : result PlanError PlannedPointerAction * Planner := planPointer context (js "1") (intent a_click) target no_options newPlanner.
Definition fill : result PlanError ExecutableActionPlan * Planner :=
  planKeyboard context (js "2") (intent a_fill) target (wrapped sensitive (js "Ada")) newPlanner.

Lemma sized_target : sized context target.
Proof.
  split; [|done]. intros i r. cbn. case_bool_decide; [|done]. intros [= <-]. by repeat constructor.
Qed.
End Form.

(** The centre of the field. *)
Lemma aim_is_nearest_witness :
  exists p, choosePoint (owned_region Form.context (js "name") Form.region) None = Some p /\ p = {| pt_row := 2; pt_column := 12 |} /\
    forall q s, s ∈ rg_spans (owned_region Form.context (js "name") Form.region) -> in_span q s = true -> ahead (pg_bounds Form.region) p q.
Proof.
  exists {| pt_row := 2; pt_column := 12 |}. split; [reflexivity|]. split; [reflexivity|]. intros q s.
  refine (proj2 (aim_is_nearest (owned_region Form.context (js "name") Form.region) None _) q s). vm_compute. by repeat constructor.
Defined.

Lemma pointer_plan_sound_witness :
  exists a s', Form.click = (Ok a, s') /\ pp_point a = {| pt_row := 2; pt_column := 12 |} /\ length (x_operations (pp_plan a)) = 2%nat /\
    owned_cell Form.context (Form.intent a_click) Form.target (pp_point a).
Proof.
  eexists _, _. split; [vm_compute; reflexivity|]. split; [reflexivity|]. split; [reflexivity|].
  eapply (pointer_plan_sound Form.context (js "1") (Form.intent a_click) Form.target no_options newPlanner);
    [apply Form.sized_target|apply Form.sized_target|vm_compute; reflexivity].
Defined.

(** The field is clicked, then cleared and filled. *)
Lemma keyboard_plan_sound_witness :
  exists p s', Form.fill = (Ok p, s') /\ length (x_operations p) = 4%nat /\
    exists node, usable Form.context Form.target node (Form.intent a_fill) /\
      planned Form.context Form.target node (Form.intent a_fill) (wrapped sensitive (js "Ada")) (x_operations p).
Proof.
  eexists _, _. split; [vm_compute; reflexivity|]. split; [reflexivity|].
  eapply (keyboard_plan_sound Form.context (js "2") (Form.intent a_fill) Form.target (wrapped sensitive (js "Ada")) newPlanner);
    [apply Form.sized_target|vm_compute; reflexivity].
Defined.
