(* ===== verification/PlannerErrors.v ===== *)
(** * Plans that fail

    A plan that cannot be made says why: an error of the catalogue carries the
    requirements that were evaluated, all of the observation the plan was attempted
    on, and the requirement that failed where one answers for the failure. An
    argument the planner cannot use is a [TypeError], which carries nothing. *)

From stdpp Require Import strings.
From S2P Require Import Prelude JsText Dto JsObject JsSearch Tree ArtifactSafety ActionModel Conditions SessionContract Selectors ActionPlanner PlannerTheorems.
From S2P Require Mouse.

Local Open Scope Z_scope.

(** ** How a method ends *)

Section Ends.
Context {A : Type} (Q : A -> Planner -> Prop) (E : PlanError -> Planner -> Prop).

(** [m], run from [s], returns with [Q] or throws with [E]. *)
Definition ends (m : planning A) (s : Planner) : Prop := match m s with (Ok a, s') => Q a s' | (Err e, s') => E e s' end.

Lemma ends_ret a s : Q a s -> ends (mret a) s.
Proof. done. Qed.
Lemma ends_fail f s : E (failed f None) s -> ends (fail_with f) s.
Proof. done. Qed.
Lemma ends_throw e s : E e s -> ends (throw e) s.
Proof. done. Qed.
Lemma ends_bind {B} (R : B -> Planner -> Prop) (m : planning B) (k : B -> planning A) s :
  match m s with (Ok b, s') => R b s' | (Err e, s') => E e s' end ->
  (forall b s', R b s' -> ends (k b) s') -> ends (m ≫= k) s.
Proof. unfold ends, mbind, method_bind. intros H Hk. destruct (m s) as [[b|e] s']; [by apply Hk|done]. Qed.
Lemma ends_require b f (k : () -> planning A) s :
  (b = false -> E (failed f None) s) -> (b = true -> ends (k tt) s) -> ends (require b f ≫= k) s.
Proof. intros H1 H2. destruct b; [by apply H2|by apply H1]. Qed.
Lemma ends_remember reqs (k : () -> planning A) s :
  ends (k tt) {| lastRequirements := reqs; lastCheckpoint := lastCheckpoint s |} -> ends (remember reqs ≫= k) s.
Proof. done. Qed.
Lemma ends_observed cp (k : () -> planning A) s :
  ends (k tt) {| lastRequirements := lastRequirements s; lastCheckpoint := Some cp |} -> ends (observed_at cp ≫= k) s.
Proof. done. Qed.
End Ends.
#[export] Hint Resolve ends_ret ends_fail ends_throw : core.

Section Failures.
Context (ctx : ActionPlannerContext).

(** The requirements the planner remembers are of the observation at hand. *)
Definition current (s : Planner) : Prop := Forall (fun r => cr_checkpoint r = cx_checkpoint ctx) (lastRequirements s).
Definition failing (s : Planner) : Prop := Exists (fun r => verdict r = unsatisfied) (lastRequirements s).

(** What a call makes the planner answer for: the target is a node, the call types
    or presses at it, and an argument cannot be used. *)
Record Call : Type := { on_node : bool; at_keys : bool; misused : Prop }.
Definition pointer_call (target : ResolvedTarget) (options : PointerOptions) : Call :=
  {| on_node := t_semantic target; at_keys := false; misused := exists e, Mouse.normalizeMouseModifiers (po_modifiers options) = Err e |}.
Definition keyboard_call (target : ResolvedTarget) (intent : ActionIntent) : Call :=
  {| on_node := t_semantic target; at_keys := bool_decide (i_kind intent = a_type) || bool_decide (i_kind intent = a_press);
     misused := is_via intent "auto" || is_via intent "keyboard" || is_via intent "pointer" = false |}.

(** The failures that a requirement answers for: the terminal's mode, the state, the
    region or the owner of a node, and the focus that keys need. *)
Definition at_fault (c : Call) (f : Failure) : Prop :=
  f = InputModeDisabled \/ (on_node c = true /\ exists t, f = NotActionable (Some t)) \/ (at_keys c = true /\ f = NotActionable None).

(** What is remembered when a plan fails, and which calls fail otherwise. *)
Definition blamed (c : Call) (e : PlanError) (s : Planner) : Prop :=
  match e with
  | failed f _ => current s /\ (at_fault c f -> failing s)
  | type_error => misused c
  | range_error => False
  end.

Lemma blamed_other c f x s : (f = CapabilityUnavailable \/ f = StaleSnapshot \/ exists o, f = PendingObservation o) ->
  current s -> blamed c (failed f x) s.
Proof. intros [->|[->|[o ->]]] H; (split; [done|]); by intros [?|[[_ [t ?]]|[_ ?]]]. Qed.
Lemma blamed_none c x s : at_keys c = false -> current s -> blamed c (failed (NotActionable None) x) s.
Proof. intros Hc Hs. split; [done|]. intros [?|[[_ [t ?]]|[? _]]]; congruence. Qed.

Lemma blamed_weaken c c' e s :
  on_node c' = on_node c -> at_keys c' = false -> (misused c -> misused c') -> blamed c e s -> blamed c' e s.
Proof.
  intros Hn Hk Hm. destruct e as [f x| |]; [|done|done]. intros [Hs Hf]. split; [done|].
  intros [?|[[? ?]|[? _]]]; [apply Hf; by left|apply Hf; right; left; split; [congruence|done]|congruence].
Qed.

Lemma failing_in (rs : list ConditionResult) cp :
  existsb (is_verdict unsatisfied) rs = true -> failing {| lastRequirements := rs; lastCheckpoint := cp |}.
Proof. intros (r & Hin & Hr)%existsb_exists. apply bool_decide_eq_true in Hr. apply Exists_exists. exists r. split; [by apply list_elem_of_In|done]. Qed.

Lemma failing_last rs r cp : verdict r = unsatisfied -> failing {| lastRequirements := rs ++ [r]; lastCheckpoint := cp |}.
Proof. intros H. apply Exists_app. right. by constructor. Qed.
End Failures.

Section Failing.
Context (ctx : ActionPlannerContext).
#[local] Abbreviation current := (current ctx).
#[local] Abbreviation blamed := (blamed ctx).
#[local] Abbreviation at_cp := (fun r => cr_checkpoint r = cx_checkpoint ctx).

Lemma condition_at c o : cr_checkpoint (condition ctx c o) = cx_checkpoint ctx.
Proof. done. Qed.
Hint Resolve condition_at : core.

Lemma current_remembered rs cp : Forall at_cp rs -> current {| lastRequirements := rs; lastCheckpoint := cp |}.
Proof. done. Qed.

Lemma settled_ends {A} Q c (k : () -> planning A) s :
  current s -> (forall s', current s' -> ends Q (blamed c) (k tt) s') -> ends Q (blamed c) (requireSettledObservation ctx ≫= k) s.
Proof.
  intros Hs Hk. unfold requireSettledObservation. destruct (actionObservationState ctx) eqn:E; [by apply Hk|..]; (apply blamed_other; [|done]); right; right; eauto.
Qed.

Lemma committed_ends {A} Q c target (k : jstring * SemanticNode * Z -> planning A) s :
  current s -> (forall found, ends Q (blamed c) (k found) s) -> ends Q (blamed c) (committed_node ctx target ≫= k) s.
Proof.
  intros Hs Hk. apply (ends_bind _ _ (fun _ s' => s' = s)); [|intros b s' ->; apply Hk]. unfold committed_node, requireCapability.
  apply (ends_require _ _ _ _ _ s); intros _; [apply blamed_other; [by left|done]|]. destruct (os_pairedScreenRevision _);
    [destruct (bool_decide _); [destruct (semanticNode _ _); [done|]|]|]; (apply blamed_other; [by right; left|done]).
Qed.

Lemma modifiers_ends {A} Q c values (k : list Mouse.MouseModifier -> planning A) s :
  ((exists e, Mouse.normalizeMouseModifiers values = Err e) -> misused c) -> (forall ms, ends Q (blamed c) (k ms) s) -> ends Q (blamed c) (mouse_modifiers values ≫= k) s.
Proof. intros Hm H. unfold mouse_modifiers. destruct (Mouse.normalizeMouseModifiers values); [apply H|apply Hm; eauto]. Qed.

Lemma pointer_operations_ends {A} Q target intent p options (k : list ExecutableDeviceOperation -> planning A) s :
  (forall ops, ends Q (blamed (pointer_call target options)) (k ops) s) ->
  ends Q (blamed (pointer_call target options)) (pointer_operations intent p options ≫= k) s.
Proof.
  intros H. apply (ends_bind _ _ (fun _ s' => s' = s)); [|intros b s' ->; apply H]. unfold pointer_operations.
  apply (modifiers_ends (fun _ s' => s' = s)); [done|]. intros ms. by destruct (i_kind intent).
Qed.

Lemma mode_requirement_ends c kind s :
  current s -> failing s -> ends (fun _ => current) (blamed c) (modeRequirement kind (cx_modes ctx)) s.
Proof.
  intros Hs Hf. unfold modeRequirement. assert (blamed c (failed InputModeDisabled None) s) as Hb by done.
  do 3 (apply ends_require; intros _; [exact Hb|]). unfold require, fail_with. destruct (negb _); [done|exact Hb].
Qed.

(** Opens the method at the head of a run, leaving what a failure here has to answer. *)
Ltac run_step :=
  cbv zeta;
  lazymatch goal with
  | |- ends _ _ (remember _ ≫= _) _ => apply ends_remember
  | |- ends _ _ (observed_at _ ≫= _) _ => apply ends_observed
  | |- ends _ _ (require _ _ ≫= _) _ => apply ends_require; intros ?
  | |- ends _ _ (requireCapability _ _ ≫= _) _ => apply ends_require; intros ?
  | |- ends _ _ (committed_node _ _ ≫= _) _ => apply committed_ends; [|intros [[? ?] ?]]
  | |- ends _ _ (pointer_operations _ _ _ ≫= _) _ => apply pointer_operations_ends; intros ?
  | |- ends _ _ (requireSettledObservation _ ≫= _) _ => apply settled_ends; [|intros ? ?]
  | |- ends _ _ (mret _) _ => apply ends_ret
  | |- ends _ _ (fail_with _) _ => apply ends_fail
  end.
Ltac refused := apply blamed_other; [eauto 6|done].

Lemma verdict_of c o : verdict (condition ctx c o) = match o with known true _ => satisfied | known false _ => unsatisfied | _ => inconclusive end.
Proof. done. Qed.

Lemma verdicts (v : Verdict) : v <> satisfied -> v <> inconclusive -> v = unsatisfied.
Proof. by destruct v. Qed.
Lemma is_verdict_false v r : is_verdict v r = false -> verdict r <> v.
Proof. apply bool_decide_eq_false. Qed.

Lemma capability_verdict c cap v : verdict (condition ctx c (capabilityBoolean (cx_contract ctx) cap v)) = satisfied -> v = true.
Proof. rewrite capability_satisfied. by destruct (supports ctx cap), v. Qed.

Lemma aim_ends actionId intent target options nodeId region reqs s :
  current s -> Forall at_cp reqs -> ends (fun _ => current) (blamed (pointer_call target options)) (aimAtRegion ctx actionId intent target options nodeId region reqs) s.
Proof.
  intros Hs Hr. unfold aimAtRegion. run_step; [refused|]. run_step; [refused|]. run_step.
  assert (forall v cp, current {| lastRequirements := reqs ++ [condition ctx (c_receives_pointer (t_ref target)) (known v (ownership_evidence ctx region))]; lastCheckpoint := cp |}) as Hc.
  { intros v cp. apply Forall_app. split; [done|]. by constructor. }
  destruct (choosePoint _ _) as [p|] eqn:E; [run_step; by run_step|]. run_step. split; [apply Hc|]. intros _. by apply failing_last.
Qed.

Lemma semantic_pointer_ends actionId intent target options reqs s :
  current s -> Forall at_cp reqs -> ends (fun _ => current) (blamed (pointer_call target options)) (planSemanticPointer ctx actionId intent target options reqs) s.
Proof.
  intros Hs Hr. unfold planSemanticPointer. run_step; [done|]. set (reqs1 := reqs ++ _ ++ _).
  assert (Forall at_cp reqs1) as Hr1 by (unfold reqs1; rewrite !Forall_app; split_and!; [done|case_match; by repeat constructor|by repeat constructor]).
  run_step. run_step. { split; [done|]. intros _. by apply failing_in, negb_false_iff. }
  run_step; [refused|]. set (regionResult := condition ctx (c_pointer_region _) _).
  assert (Forall at_cp (reqs1 ++ [regionResult])) as Hr2 by (apply Forall_app; split; [done|by repeat constructor]).
  run_step. run_step; [refused|]. destruct (pointerRegion ctx _) as [region|] eqn:E.
  - run_step; [refused|]. by apply aim_ends.
  - run_step. split; [done|]. intros _. apply failing_last, verdicts; [|by apply is_verdict_false, negb_true_iff].
    intros Hv%capability_verdict. by apply bool_decide_eq_true in Hv as [? ?].
Qed.

Lemma screen_pointer_ends actionId intent target options reqs s :
  t_semantic target = false -> current s ->
  ends (fun _ => current) (blamed (pointer_call target options)) (planScreenPointer ctx actionId intent target options reqs) s.
Proof.
  intros Ht Hs. assert (forall t x s', current s' -> blamed (pointer_call target options) (failed (NotActionable (Some t)) x) s') as Hn.
  { intros t x s' H. split; [done|]. unfold at_fault. cbn [on_node at_keys pointer_call]. rewrite Ht. intros [?|[[? _]|[? _]]]; congruence. }
  unfold planScreenPointer. run_step; [refused|]. destruct (t_rect target); [|run_step; by apply Hn].
  destruct (choosePoint _ _); [run_step; by run_step|run_step; by apply Hn].
Qed.

Lemma pointer_ends actionId intent target options s :
  ends (fun _ => current) (blamed (pointer_call target options)) (planPointer_ ctx actionId intent target options) s.
Proof.
  unfold planPointer_. run_step. run_step; [by constructor|]. run_step. cbv zeta.
  set (device := condition ctx (c_pointer_input _) _). set (mode := condition ctx (c_mouse_input_enabled _) _). set (attached := condition ctx (c_attached _) _).
  assert (forall cp, current {| lastRequirements := [device; mode]; lastCheckpoint := cp |}) as H1 by by repeat constructor.
  assert (Forall at_cp [device; mode; attached]) as H2 by by repeat constructor.
  run_step. run_step; [refused|]. apply (ends_bind _ _ (fun _ => current)).
  { destruct (is_verdict satisfied mode) eqn:Em; [apply H1|]. apply mode_requirement_ends; [done|].
    apply is_verdict_false in Em. apply Exists_cons_tl, Exists_cons_hd. revert Em. unfold mode. rewrite verdict_of. by destruct (mouseModeAllows _ _). }
  intros _ s2 Hs2. run_step. run_step; [refused|]. destruct (t_semantic target) eqn:Et; [by apply semantic_pointer_ends|by apply screen_pointer_ends].
Qed.

(** ** The explanation attached to an error *)

Definition explained (c : Call) (intent : ActionIntent) (e : PlanError) (s : Planner) : Prop :=
  match e with
  | failed f x =>
      blamed c e s /\
      exists cp, (lastRequirements s <> [] -> cp = cx_checkpoint ctx) /\
        x = Some {| actionable := false; ae_intent := intent; ae_checkpoint := cp; ae_requirements := lastRequirements s; ae_strategy := None;
                    ae_reason := Some {| ar_code := failure_code f; ar_targetRef := i_targetRef intent |} |}
  | _ => blamed c e s
  end.

Lemma explained_blamed c intent e s : explained c intent e s -> blamed c e s.
Proof. destruct e; [by intros [? _]|done..]. Qed.

Lemma attach_ends {A} (Q : A -> Planner -> Prop) c intent (m : planning A) s :
  ends Q (blamed c) m s -> ends Q (explained c intent) (attachFailure ctx intent m) s.
Proof.
  unfold ends, attachFailure, catch. destruct (m s) as [[a|[f x| |]] s']; [done| |done|done]. intros H. cbn. split; [exact H|].
  eexists. split; [|reflexivity]. destruct H as [H _]. unfold current in H. by destruct H.
Qed.

Lemma planPointer_ends actionId intent target options s :
  ends (fun _ => current) (explained (pointer_call target options) intent) (planPointer ctx actionId intent target options) s.
Proof. apply attach_ends, pointer_ends. Qed.

Lemma ends_weaken {A} (Q Q' : A -> Planner -> Prop) (E E' : PlanError -> Planner -> Prop) (m : planning A) s :
  ends Q E m s -> (forall a s', Q a s' -> Q' a s') -> (forall e s', E e s' -> E' e s') -> ends Q' E' m s.
Proof. unfold ends. intros H HQ HE. destruct (m s) as [[a|e] s']; [by apply HQ|by apply HE]. Qed.

Section Keyboard.
Context (actionId : jstring) (target : ResolvedTarget).

Lemma keyboardTarget_ends intent s :
  ends (fun found s' => current s' /\ Forall at_cp found.2 /\ (found.1.2 = false -> failing s')) (blamed (keyboard_call target intent))
    (keyboardTarget ctx intent target) s.
Proof.
  unfold keyboardTarget. run_step. run_step; [by constructor|]. run_step.
  apply (ends_bind _ _ (fun _ => current)). { unfold ends, misused, keyboard_call, blamed. by destruct (_ || _). } intros _ s2 Hs2.
  apply (ends_bind _ _ (fun _ => current)). { destruct (is_via intent "pointer"); [done|]. unfold requireCapability, require. destruct (supports _ _); [done|]. refused. }
  intros _ s3 Hs3. run_step; [refused|]. run_step; [done|].
  run_step. assert (forall cp, current {| lastRequirements := [condition ctx (c_attached (t_ref target)) (capabilityBoolean (cx_contract ctx) "semantic-tree" true);
    enabled_result ctx target s0; displayed_result ctx target s0]; lastCheckpoint := cp |}) as Hc by by repeat constructor.
  run_step; [refused|]. run_step. { split; [done|]. intros _. by apply failing_in, negb_false_iff. }
  run_step. run_step; [apply blamed_other; [eauto|by repeat constructor]|]. run_step. cbn [fst snd]. split_and!; [by repeat constructor|by repeat constructor|].
  intros Hf. rewrite Hf in *. apply failing_last, verdicts; [|by apply is_verdict_false, negb_true_iff]. by intros ?%capability_verdict.
Qed.

(** A call that is no typing, at the target: the failures without a requirement. *)
Context (c : Call) (on_target : on_node c = t_semantic target) (no_keys : at_keys c = false).
#[local] Abbreviation stops := (blamed c).
Ltac refused_here := apply blamed_none; done.

Lemma recipe_ends node action value required s :
  current s -> ends (fun _ => current) stops (recipeOperations node action value required) s.
Proof.
  intros Hs. unfold recipeOperations. destruct (recipe_of node action) as [r|]; [|destruct required; [by run_step; refused|done]].
  apply (ends_bind _ _ (fun _ => current)); [|intros; by run_step]. induction (rc_steps r) as [|step steps IH]; [done|]. cbn [recipe_steps].
  change (ends (fun _ => current) stops (o ← recipe_step value step; os ← recipe_steps value steps; mret (o :: os)) s).
  apply (ends_bind _ _ (fun _ s' => s' = s)). { destruct step as [key|]; [done|]. destruct value; [done|]. refused. }
  intros o s' ->. apply (ends_bind _ _ (fun _ => current)); [exact IH|]. intros. by run_step.
Qed.

Lemma pointer_inside_ends intent s : ends (fun _ => current) stops (planPointer ctx actionId intent target no_options) s.
Proof.
  eapply ends_weaken; [apply planPointer_ends|done|]. intros e s' H%explained_blamed. eapply blamed_weaken; [..|exact H]; try done. intros [x Hx]; discriminate Hx.
Qed.

Section Branches.
Context (again : ActionIntent -> planning ExecutableActionPlan).
Hypothesis again_ends : forall via s, via = None \/ via = Some "keyboard"%string -> current s ->
  ends (fun _ => current) stops (again (focus_intent target via)) s.
Context (intent : ActionIntent) (node : SemanticNode) (focused : bool) (reqs : list ConditionResult).

(** A method that keeps the requirements current comes first. *)
Lemma ends_then {A B} (m : planning A) (k : A -> planning B) s :
  ends (fun _ => current) stops m s -> (forall a s', current s' -> ends (fun _ => current) stops (k a) s') -> ends (fun _ => current) stops (m ≫= k) s.
Proof. apply ends_bind. Qed.

Lemma focus_first_ends (b : bool) via s : via = None \/ via = Some "keyboard"%string -> current s ->
  ends (fun _ => current) stops (if b then p ← again (focus_intent target via); mret (Some p) else mret None) s.
Proof. intros Hv Hs. destruct b; [|done]. apply ends_then; [by apply again_ends|]. intros. by run_step. Qed.
Lemma maybe_recipe_ends (b : bool) action s :
  current s -> ends (fun _ => current) stops (if b then recipeOperations node action None false else mret None) s.
Proof. intros Hs. destruct b; [by apply recipe_ends|done]. Qed.

Lemma fill_ends value s : current s -> ends (fun _ => current) stops (planFill ctx again actionId intent target node focused reqs value) s.
Proof.
  intros Hs. unfold planFill. run_step; [refused|]. apply ends_then; [by apply recipe_ends|]. intros [r|] s1 Hs1; [|run_step; refused].
  apply ends_then. { destruct focused; [done|]. apply (focus_first_ends true); [by left|done]. } intros p s2 Hs2. run_step; [refused_here|]. by run_step.
Qed.

Lemma focus_ends s : current s -> ends (fun _ => current) stops (planFocus ctx actionId intent target node focused reqs) s.
Proof.
  intros Hs. unfold planFocus. destruct focused; [by run_step|]. apply ends_then; [by apply maybe_recipe_ends|]. intros [r|] s1 Hs1.
  - run_step; [refused|]. by run_step.
  - run_step; [refused|]. apply ends_then; [apply pointer_inside_ends|]. intros. by run_step.
Qed.

Lemma strategy_ends action s : current s -> ends (fun _ => current) stops (planStrategy ctx again actionId intent target node focused reqs action) s.
Proof.
  intros Hs. unfold planStrategy. apply ends_then; [by apply maybe_recipe_ends|]. intros [r|] s1 Hs1.
  - apply ends_then; [apply focus_first_ends; [by right|done]|]. intros. by run_step.
  - run_step; [refused|]. apply ends_then; [apply pointer_inside_ends|]. intros. by run_step.
Qed.

Lemma activate_ends s : current s -> Forall at_cp reqs -> ends (fun _ => current) stops (planActivate ctx again actionId intent target node focused reqs) s.
Proof.
  intros Hs Hr. unfold planActivate. run_step; [refused_here|]. run_step; [refused|]. destruct (desired_state intent) as [d|]; [|by apply strategy_ends].
  destruct (bool_decide (checked_state node = Some d)); [|by apply strategy_ends]. run_step. run_step. apply Forall_app. split; [done|by repeat constructor].
Qed.

End Branches.
End Keyboard.

(** Typing needs the focus, and says so. *)
Lemma typing_ends actionId target intent focused reqs value s :
  current s -> (focused = false -> failing s) ->
  ends (fun _ => current) (blamed (keyboard_call target intent)) (planFocusedKeyboard ctx actionId intent focused reqs value) s.
Proof. intros Hs Hf. unfold planFocusedKeyboard. run_step; [by split; [|auto]|]. by run_step. Qed.

(** A focus never plans another action. *)
Lemma plan_focus_ends again actionId target value via s :
  via = None \/ via = Some "keyboard"%string ->
  ends (fun _ => current) (blamed (keyboard_call target (focus_intent target via)))
    (planKeyboard_step ctx again actionId target value (focus_intent target via)) s.
Proof.
  intros Hv. unfold planKeyboard_step. apply (ends_bind _ _ _ _ _ _ (keyboardTarget_ends target _ s)). intros [[node focused] reqs] s1 (Hs1 & _ & _).
  by apply focus_ends.
Qed.

Lemma keyboard_step_ends again actionId target value intent s :
  (forall via s, via = None \/ via = Some "keyboard"%string ->
     ends (fun _ => current) (blamed (keyboard_call target (focus_intent target via))) (again (focus_intent target via)) s) ->
  ends (fun _ => current) (blamed (keyboard_call target intent)) (planKeyboard_step ctx again actionId target value intent) s.
Proof.
  intros Hagain. unfold planKeyboard_step. apply (ends_bind _ _ _ _ _ _ (keyboardTarget_ends target intent s)).
  intros [[node focused] reqs] s1 (Hs1 & Hr & Hf).
  assert (at_keys (keyboard_call target intent) = false -> forall via s, via = None \/ via = Some "keyboard"%string -> current s ->
    ends (fun _ => current) (blamed (keyboard_call target intent)) (again (focus_intent target via)) s) as Ha.
  { intros Hk via s2 Hv _. eapply ends_weaken; [by apply Hagain|done|]. intros e s3. apply blamed_weaken; [done|done|]. by destruct Hv as [-> | ->]. }
  assert (i_kind intent = a_type \/ i_kind intent = a_press \/ at_keys (keyboard_call target intent) = false) as Hk.
  { cbn. destruct (i_kind intent); auto. }
  destruct Hk as [Hk|[Hk|Hk]]; [rewrite Hk; by apply typing_ends..|]. specialize (Ha Hk).
  destruct (i_kind intent) eqn:Ek; try (exfalso; cbn in Hk; by rewrite Ek in Hk); try (run_step; refused).
  all: first [by apply fill_ends|by apply focus_ends|by apply activate_ends].
Qed.

Lemma planKeyboard_ends actionId target intent value s :
  ends (fun _ => current) (explained (keyboard_call target intent) intent) (planKeyboard ctx actionId intent target value) s.
Proof. apply attach_ends, keyboard_step_ends. intros via s1 Hv. by apply plan_focus_ends. Qed.
End Failing.

(** Whether a planner returned. *)
Definition returned {A} (r : result PlanError A * Planner) : bool := match r.1 with Ok _ => true | Err _ => false end.

(** What [explain] asks the planner. *)
Definition explains (ctx : ActionPlannerContext) (intent : ActionIntent) (target : ResolvedTarget) (options : PointerOptions) (value : jstring) (s : Planner) : bool :=
  match i_kind intent with
  | a_click | a_double_click | a_hover => returned (planPointer ctx (js "explain") intent target options s)
  | _ => returned (planKeyboard ctx (js "explain") intent target (plain_value value) s)
  end.

Lemma explain_run ctx intent (m : planning ExecutableActionPlan) s :
  exists x s', catch (plan ← m; mret {| actionable := true; ae_intent := intent; ae_checkpoint := x_checkpoint plan; ae_requirements := x_requirements plan;
                                        ae_strategy := Some (x_strategy plan); ae_reason := None |})
    (fun e => p ← get; mret {| actionable := false; ae_intent := intent; ae_checkpoint := cx_checkpoint ctx; ae_requirements := lastRequirements p;
                               ae_strategy := None; ae_reason := Some {| ar_code := error_code e; ar_targetRef := i_targetRef intent |} |}) s = (Ok x, s') /\
    ae_intent x = intent /\ actionable x = returned (m s) /\
    if actionable x then ae_reason x = None else ae_checkpoint x = cx_checkpoint ctx /\ is_Some (ae_reason x) /\ ae_requirements x = lastRequirements s'.
Proof.
  unfold catch, mbind, method_bind, returned. destruct (m s) as [[a|e] s1]; eexists _, _; (split; [reflexivity|]); cbn; by eauto.
Qed.

