(* ===== verification/DeviceExecutor.v ===== *)
(** * Executing a plan (packages/driver/src/session.ts, internal/session-input-plane.ts)

    The device operations of a plan become bytes on the pseudo terminal, in one go
    or not at all until the first is written, and what is pressed when a write fails
    is released. *)

From S2P Require Import Prelude JsText ArtifactSafety ActionModel ActionPlanner.
From S2P Require Keys Mouse.

Local Open Scope Z_scope.

(** ** The session at one moment

    A session is observed between two awaits, where nothing else runs; [Moment] is
    what the code reads of it there.  Of what it awaits, the drain of the parser has
    no timer: [m_drains] says whether it settles. *)

Inductive PtyState : Set := no_pty | pty_writable | pty_refuses.

Record Moment : Type := {
  m_context : ActionPlannerContext;
  m_keyModes : Keys.KeyEncodingModes;
  m_bracketedPaste : bool;
  m_open : bool;
  m_failed : bool;
  m_exited : bool;
  m_negotiating : bool;
  m_caughtUp : bool;
  m_drains : bool;
  m_pty : PtyState;
}.

Inductive InputKind : Set := in_key | in_mouse | in_paste | in_raw.

(** An input the session admitted; [in_written] is false before there is a terminal. *)
Record Input : Type := { in_data : bytes; in_kind : InputKind; in_written : bool }.

Inductive ActionError : Type :=
| planning_error (e : PlanError)
| key_refused (e : Keys.KeyError)
| mouse_refused (e : Mouse.MouseError)
| timed_out
| session_closed
| session_failed
| process_exited
| pty_error
| ambiguous
| semantic_violation
(** not an error: the run awaits what never settles, and nothing comes after *)
| stuck.

(** What a run of the driver leaves behind: the turns of the event loop and the
    readings of the clock it took, the input it sent, the waits it reported, and
    the immediate re-plan it has used. *)
Record Run : Type := {
  turn : nat;
  readings : nat;
  inputs : list Input;
  waits : list ObservationState;
  staleRetries : nat;
}.
Definition newRun : Run := {| turn := 0; readings := 0; inputs := []; waits := []; staleRetries := 0 |}.

Definition acting (A : Type) : Type := method Run ActionError A.

(** ** Encoding *)

Inductive Encoded : Type := encoded (operation : ExecutableDeviceOperation) (data : bytes) (kind : InputKind).

(** The event of a mouse operation. *)
Definition mouse_event (o : MouseOperation) : Mouse.MouseEvent :=
  let names : option (list jstring) := (fun ms : list Mouse.MouseModifier => Mouse.modifier_name <$> ms) <$> m_modifiers o in
  let event k b := {| Mouse.kind := k; Mouse.e_row := m_row o; Mouse.e_column := m_column o; Mouse.button := b; Mouse.modifiers := names;
                      Mouse.wheelDelta := None; Mouse.wheelAxis := None; Mouse.dragging := None |} in
  match m_kind o with
  | m_move => {| Mouse.kind := Mouse.move_; Mouse.e_row := m_row o; Mouse.e_column := m_column o; Mouse.button := m_button o;
                 Mouse.modifiers := names; Mouse.wheelDelta := None; Mouse.wheelAxis := None;
                 Mouse.dragging := match m_button o with Some _ => Some true | None => None end |}
  | m_down => event Mouse.press (Some (default Mouse.left_button (m_button o)))
  | m_up => event Mouse.release_ (Some (default Mouse.left_button (m_button o)))
  | m_wheel => {| Mouse.kind := Mouse.wheel; Mouse.e_row := m_row o; Mouse.e_column := m_column o; Mouse.button := None;
                  Mouse.modifiers := names;
                  Mouse.wheelDelta := Some (match m_deltaY o with Some d => d | None => default 0 (m_deltaX o) end);
                  Mouse.wheelAxis := Some (match m_deltaX o with Some _ => Mouse.horizontal | None => Mouse.vertical end);
                  Mouse.dragging := None |}
  end.

Section Encoding.
(** Case mapping on text outside ASCII, as in [Keys]. *)
Context (unicode_lower unicode_upper locale_lower : jstring -> jstring).

Definition encode_operation (m : Moment) (o : ExecutableDeviceOperation) : result ActionError Encoded :=
  match o with
  | e_keyboard k_press v =>
      match Keys.encodeKeys unicode_lower unicode_upper (executableText v) (m_keyModes m) with Ok b => Ok (encoded o b in_key) | Err e => Err (key_refused e) end
  | e_keyboard k_paste v => Ok (encoded o (Keys.encodePaste (executableText v) (m_bracketedPaste m)) in_paste)
  | e_keyboard k_type v => Ok (encoded o (Keys.encodeText unicode_lower locale_lower (executableText v) (Some (m_keyModes m))) in_key)
  | e_mouse mo =>
      match Mouse.encodeMouse (mouse_event mo) (cx_modes (m_context m)) with Ok b => Ok (encoded o b in_mouse) | Err e => Err (mouse_refused e) end
  end.

Fixpoint encode_operations (m : Moment) (ops : list ExecutableDeviceOperation) : result ActionError (list Encoded) :=
  match ops with
  | [] => Ok []
  | o :: ops => e ← encode_operation m o; es ← encode_operations m ops; Ok (e :: es)
  end.

End Encoding.

(** The button a failure would leave down, and where. *)
Record Held : Set := { h_button : Mouse.MouseButton; h_row : Z; h_column : Z }.

Definition hold (held : option Held) (o : ExecutableDeviceOperation) : option Held :=
  match o with
  | e_keyboard _ _ => held
  | e_mouse m =>
      match m_kind m with
      | m_down => Some {| h_button := default Mouse.left_button (m_button m); h_row := m_row m; h_column := m_column m |}
      | m_move => match held with Some h => Some {| h_button := h_button h; h_row := m_row m; h_column := m_column m |} | None => None end
      | m_up => None
      | m_wheel => held
      end
  end.

Definition release_event (h : Held) : Mouse.MouseEvent :=
  {| Mouse.kind := Mouse.release_; Mouse.e_row := h_row h; Mouse.e_column := h_column h; Mouse.button := Some (h_button h);
     Mouse.modifiers := None; Mouse.wheelDelta := None; Mouse.wheelAxis := None; Mouse.dragging := None |}.

Section Session.
(** What happens in the session and on the clock while the driver awaits is not
    up to the driver. *)
Context (world : nat -> Moment) (now : nat -> Z) (unicode_lower unicode_upper locale_lower : jstring -> jstring).

Definition here : acting Moment := fun s => (Ok (world (turn s)), s).
Definition await : acting () := modify (fun s => {| turn := S (turn s); readings := readings s; inputs := inputs s; waits := waits s; staleRetries := staleRetries s |}).
Definition read_clock : acting Z :=
  fun s => (Ok (now (readings s)), {| turn := turn s; readings := S (readings s); inputs := inputs s; waits := waits s; staleRetries := staleRetries s |}).
Definition admit_input (i : Input) : acting () :=
  modify (fun s => {| turn := turn s; readings := readings s; inputs := inputs s ++ [i]; waits := waits s; staleRetries := staleRetries s |}).

(** [assertBeforeActionInput] *)
Definition assertBeforeActionInput (deadline : Z) : acting () :=
  t ← read_clock; if deadline <=? t then throw timed_out else mret ().

(** [checkpoint()] *)
Definition checkpoint_now : acting ObservationStamp :=
  m ← here; if m_open m then mret (cx_checkpoint (m_context m)) else throw session_closed.

Definition assert_accepting : acting Moment :=
  m ← here;
  if negb (m_open m) then throw session_closed
  else if m_failed m then throw session_failed
  else if m_exited m then throw process_exited
  else mret m.

(** [#vt.drain()] *)
Definition drain (m : Moment) : acting () := if m_drains m then await else throw stuck.

Definition sendInput (data : bytes) (kind : InputKind) : acting () :=
  m ← assert_accepting;
  m ← (if m_caughtUp m then mret m else _ ← drain m; assert_accepting);
  match m_pty m with
  | pty_refuses => throw pty_error
  | p =>
      _ ← admit_input {| in_data := data; in_kind := kind; in_written := match p with pty_writable => true | _ => false end |};
      await
  end.

(** The loop over the encoded operations; an error carries what is held. *)
Fixpoint send_operations (deadline : option Z) (started : bool) (held : option Held) (es : list Encoded)
    : method Run (ActionError * option Held) () :=
  match es with
  | [] => mret ()
  | encoded o data kind :: es =>
      let with_held {A} (m : acting A) : method Run (ActionError * option Held) A :=
        fun s => match m s with (Ok a, s) => (Ok a, s) | (Err e, s) => (Err (e, held), s) end in
      _ ← with_held (match deadline with Some d => if started then mret () else assertBeforeActionInput d | None => mret () end);
      _ ← with_held (sendInput data kind);
      send_operations deadline true (hold held o) es
  end.

(** What the handler of a failure does before it throws on. *)
Definition release_held (modes : Mouse.TerminalModes) (held : option Held) : acting () :=
  match held with
  | None => mret ()
  | Some h =>
      match Mouse.encodeMouse (release_event h) modes with
      | Ok data => catch (sendInput data in_mouse) (fun e => match e with stuck => throw stuck | _ => mret () end)
      | Err _ => mret ()
      end
  end.

(** The [try] around the loop. *)
Definition send_or_release (modes : Mouse.TerminalModes) (deadline : option Z) (es : list Encoded) : acting () :=
  fun s => match send_operations deadline false None es s with
           | (Ok _, s) => (Ok (), s)
           | (Err (stuck, _), s) => (Err stuck, s)
           | (Err (e, held), s) => (_ ← release_held modes held; throw e) s
           end.

Definition executeDeviceOperations (ops : list ExecutableDeviceOperation) (expected : ObservationStamp) (deadline : option Z)
    : acting (list ExecutableDeviceOperation) :=
  _ ← (match deadline with Some d => assertBeforeActionInput d | None => mret () end);
  current ← checkpoint_now;
  if negb (bool_decide (os_contractId current = os_contractId expected)) || negb (os_sequence current =? os_sequence expected)
  then throw (planning_error (failed StaleSnapshot None))
  else
    m ← here;
    es ← lift (encode_operations unicode_lower unicode_upper locale_lower m ops);
    _ ← send_or_release (cx_modes (m_context m)) deadline es;
    mret ops.
End Session.
