(* ===== verification/ExecutorTheorems.v ===== *)
(** * What executing a plan sends

    The executor sends the encodings of the operations, in order and nothing else;
    before the first one any failure sends nothing, and after it a failure releases
    the button that is down. *)

From S2P Require Import Prelude JsText ArtifactSafety ActionModel ActionPlanner PlannerTheorems DeviceExecutor.
From S2P Require Keys Mouse.

Local Open Scope Z_scope.

(** The session takes no input at a moment: it refuses, or waits for a drain that
    never settles. *)
Definition refuses (m : Moment) : Prop :=
  m_open m = false \/ m_failed m = true \/ m_exited m = true \/ m_pty m = pty_refuses \/ (m_caughtUp m = false /\ m_drains m = false).

(** How an input that is not admitted ends. *)
Definition interrupted (e : ActionError) : Prop := e = session_closed \/ e = session_failed \/ e = process_exited \/ e = pty_error \/ e = stuck.

Definition input_of (i : Input) : bytes * InputKind := (in_data i, in_kind i).
Definition sent_of (e : Encoded) : bytes * InputKind := let '(encoded _ data kind) := e in (data, kind).
Definition operation_of (e : Encoded) : ExecutableDeviceOperation := let '(encoded o _ _) := e in o.

(** What is held after some operations. *)
Definition holding (es : list Encoded) : option Held := foldl hold None (operation_of <$> es).

(** Some input was added to a run. *)
Definition adds (s s' : Run) (sent : list (bytes * InputKind)) : Prop :=
  exists l, inputs s' = inputs s ++ l /\ input_of <$> l = sent.

Lemma adds_nothing s s' : inputs s' = inputs s -> adds s s' [].
Proof. intros H. exists []. split; [by rewrite app_nil_r|done]. Qed.
Lemma adds_trans s s1 s' l l' : adds s s1 l -> adds s1 s' l' -> adds s s' (l ++ l').
Proof. intros (l1 & H1 & <-) (l2 & H2 & <-). exists (l1 ++ l2). by rewrite H2, H1, app_assoc, fmap_app. Qed.

Section Executor.
Context (world : nat -> Moment) (now : nat -> Z) (unicode_lower unicode_upper locale_lower : jstring -> jstring).

(** ** One input *)

Lemma accepting_spec s :
  match assert_accepting world s with
  | (Ok m, s') => s' = s /\ m = world (turn s)
  | (Err e, s') => s' = s /\ interrupted e /\ refuses (world (turn s))
  end.
Proof.
  unfold assert_accepting, here, mbind, method_bind, refuses, interrupted. destruct (m_open (world (turn s))) eqn:E1; cbn; [|by split_and!; [|left|left]].
  destruct (m_failed _) eqn:E2; cbn; [by split_and!; [|right; left|right; left]|].
  destruct (m_exited _) eqn:E3; cbn; [by split_and!; [|right; right; left|right; right; left]|done].
Qed.

Lemma sendInput_spec data kind s :
  match sendInput world data kind s with
  | (Ok _, s') => adds s s' [(data, kind)]
  | (Err e, s') => inputs s' = inputs s /\ interrupted e /\ refuses (world (turn s'))
  end.
Proof.
  unfold sendInput. unfold mbind at 1, method_bind at 1. pose proof (accepting_spec s) as H1. destruct (assert_accepting world s) as [[m|e] s1].
  2: { destruct H1 as (-> & ? & ?). done. }
  destruct H1 as [-> ->].
  assert (forall m s1, m = world (turn s1) -> inputs s1 = inputs s ->
    match (match m_pty m with
           | pty_refuses => throw pty_error
           | p => _ ← admit_input {| in_data := data; in_kind := kind; in_written := match p with pty_writable => true | _ => false end |}; await
           end : acting ()) s1 with
    | (Ok _, s') => adds s s' [(data, kind)]
    | (Err e, s') => inputs s' = inputs s /\ interrupted e /\ refuses (world (turn s'))
    end) as Hsend.
  { intros m s1 -> Hi. unfold refuses, interrupted. destruct (m_pty (world (turn s1))) eqn:E; unfold mbind, method_bind, throw; cbn; [eexists [_]; cbn; by rewrite Hi..|]. split_and!; [done|by right; right; right; left|by right; right; right; left]. }
  destruct (m_caughtUp _) eqn:Ec; [by apply Hsend|]. unfold mbind at 1, method_bind at 1. unfold drain. destruct (m_drains _) eqn:Edr.
  2: { unfold mbind, method_bind, throw, refuses, interrupted. split_and!; [done|by do 4 right|by do 4 right]. }
  change ((await ≫= fun _ => assert_accepting world) s) with (assert_accepting world (await s).2).
  pose proof (accepting_spec (await s).2) as H2. destruct (assert_accepting world (await s).2) as [[m|e] s3].
  - destruct H2 as [-> ->]. by apply Hsend.
  - destruct H2 as (-> & ? & ?). done.
Qed.

(** ** The loop *)

Lemma assertBefore_spec deadline s :
  inputs (assertBeforeActionInput now deadline s).2 = inputs s /\
  match (assertBeforeActionInput now deadline s).1 with Ok _ => now (readings s) < deadline | Err e => e = timed_out /\ deadline <= now (readings s) end.
Proof. unfold assertBeforeActionInput, read_clock, mbind, method_bind. cbn. destruct (Z.leb_spec deadline (now (readings s))); by cbn. Qed.

Lemma send_operations_spec deadline started held es s :
  match send_operations world now deadline started held es s with
  | (Ok _, s') => adds s s' (sent_of <$> es)
  | (Err (e, h), s') =>
      exists es1 x es2, es = es1 ++ x :: es2 /\ adds s s' (sent_of <$> es1) /\ h = foldl hold held (operation_of <$> es1) /\
        (interrupted e \/ (e = timed_out /\ started = false /\ es1 = [])) /\ (e = stuck -> refuses (world (turn s')))
  end.
Proof.
  revert started held s. induction es as [|[o data kind] es IH]; intros started held s; cbn [send_operations]; [by apply adds_nothing|].
  unfold mbind at 1, method_bind at 1.
  assert (match (match deadline with Some d => if started then mret () else assertBeforeActionInput now d | None => mret () end : acting ()) s with
          | (Ok _, s1) => inputs s1 = inputs s
          | (Err e, s1) => inputs s1 = inputs s /\ e = timed_out /\ started = false
          end) as H1.
  { destruct deadline as [d|]; [|done]. destruct started; [done|]. destruct (assertBefore_spec d s) as [Hi He].
    destruct (assertBeforeActionInput now d s) as [[]]; cbn in *; [done|]. by destruct He. }
  destruct (_ s) as [[[]|e] s1].
  2: { destruct H1 as (Hi & -> & ->). exists [], (encoded o data kind), es. split; [done|]. split; [by apply adds_nothing|]. split; [done|]. split; [|done]. by eauto. }
  unfold mbind at 1, method_bind at 1. pose proof (sendInput_spec data kind s1) as H2. destruct (sendInput world data kind s1) as [[[]|e] s2].
  - assert (adds s s2 [(data, kind)]) as H by (eapply (adds_trans _ s1 _ []); [by apply adds_nothing|done]).
    specialize (IH true (hold held o) s2). destruct (send_operations _ _ _ _ _ es s2) as [[[]|[e h]] s3].
    + by apply (adds_trans _ s2 _ [_]).
    + destruct IH as (es1 & x & es2 & -> & Ha & Hh & He). exists (encoded o data kind :: es1), x, es2. split; [done|].
      split; [by apply (adds_trans _ s2 _ [_])|]. split; [done|]. destruct He as [[He|(_ & ? & _)] Hst]; [|done]. split; [by left|done].
  - destruct H2 as (Hi & He & Hr). exists [], (encoded o data kind), es. split; [done|]. split; [apply adds_nothing; congruence|]. by eauto 6.
Qed.

Lemma release_spec modes h s :
  match release_held world modes h s with
  | (Ok _, s') =>
      match h with
      | None => adds s s' []
      | Some h =>
          match Mouse.encodeMouse (release_event h) modes with
          | Ok data => adds s s' [(data, in_mouse)] \/ (adds s s' [] /\ refuses (world (turn s')))
          | Err _ => adds s s' []
          end
      end
  | (Err e, s') => e = stuck /\ is_Some h /\ adds s s' [] /\ refuses (world (turn s'))
  end.
Proof.
  unfold release_held. destruct h as [h|]; [|by apply adds_nothing]. destruct (Mouse.encodeMouse _ _) as [data|e]; [|by apply adds_nothing].
  unfold catch. pose proof (sendInput_spec data in_mouse s) as H. destruct (sendInput world data in_mouse s) as [[[]|e] s1]; [by left|].
  destruct H as (Hi & _ & Hr). destruct e; try (right; by split; [apply adds_nothing|]). split_and!; [done|done|by apply adds_nothing|done].
Qed.

(** What an interrupted run sends: the operations before the one that failed, and
    the release of the button they leave down. *)
Inductive cut_short (modes : Mouse.TerminalModes) (es1 : list Encoded) (m : Moment) : list (bytes * InputKind) -> Prop :=
| nothing_held : holding es1 = None -> cut_short modes es1 m (sent_of <$> es1)
| release_sent h data :
    holding es1 = Some h -> Mouse.encodeMouse (release_event h) modes = Ok data -> cut_short modes es1 m ((sent_of <$> es1) ++ [(data, in_mouse)])
| release_refused h : holding es1 = Some h -> refuses m -> cut_short modes es1 m (sent_of <$> es1)
| release_unencodable h e :
    holding es1 = Some h -> Mouse.encodeMouse (release_event h) modes = Err e -> cut_short modes es1 m (sent_of <$> es1).

Lemma send_or_release_spec modes deadline es s :
  match send_or_release world now modes deadline es s with
  | (Ok _, s') => adds s s' (sent_of <$> es)
  | (Err e, s') =>
      (e = timed_out /\ adds s s' []) \/
      (interrupted e /\ exists es1 x es2 sent, es = es1 ++ x :: es2 /\ cut_short modes es1 (world (turn s')) sent /\ adds s s' sent)
  end.
Proof.
  unfold send_or_release. pose proof (send_operations_spec deadline false None es s) as H.
  destruct (send_operations _ _ _ _ _ es s) as [[[]|[e h]] s1]; [done|]. destruct H as (es1 & x & es2 & -> & Ha & Hh & He & Hst).
  change (h = holding es1) in Hh.
  assert (forall l s2, adds s1 s2 l -> adds s s2 ((sent_of <$> es1) ++ l)) as Ht by (intros l s2; by apply adds_trans).
  assert (refuses (world (turn s1)) -> cut_short modes es1 (world (turn s1)) (sent_of <$> es1)) as Hcut.
  { intros Hr. destruct (holding es1) eqn:Eh; by econstructor. }
  assert (e = stuck \/ e <> stuck) as [->|Hne] by (destruct e; auto).
  { right. split; [by do 4 right|]. exists es1, x, es2. eexists. split; [done|]. split; [by apply Hcut, Hst|done]. }
  replace (match e with stuck => (Err stuck, s1) | _ => _ end) with ((_ ← release_held world modes h; throw e : acting ()) s1) by by destruct e.
  unfold mbind, method_bind. pose proof (release_spec modes h s1) as H. destruct (release_held world modes h s1) as [[[]|e'] s2].
  - destruct He as [He|(-> & _ & ->)].
    + right. split; [done|]. exists es1, x, es2.
      destruct h as [h|]; [destruct (Mouse.encodeMouse _ _) as [data|e'] eqn:Ee; [destruct H as [H|[H Hr]]|]|]; apply Ht in H; rewrite ?app_nil_r in H;
        (eexists; split; [done|split; [|exact H]]); by econstructor.
    + left. split; [done|]. subst h. change (adds s1 s2 []) in H. by apply (adds_trans _ s1 _ [] []).
  - destruct H as (-> & [h' ->] & H & Hr). right. split; [by do 4 right|]. exists es1, x, es2. apply Ht in H. rewrite app_nil_r in H.
    eexists. split; [done|]. split; [by eapply release_refused|done].
Qed.

Lemma execution_sends ops expected deadline s :
  let m := world (turn s) in
  let '(r, s') := executeDeviceOperations world now unicode_lower unicode_upper locale_lower ops expected deadline s in
  exists sent, adds s s' sent /\
  match r with
  | Ok done => done = ops
  | Err e => sent = [] \/ interrupted e
  end /\
  (r = Ok ops \/ sent <> [] ->
   (forall d, deadline = Some d -> now (readings s) < d) /\ m_open m = true /\
   os_contractId (cx_checkpoint (m_context m)) = os_contractId expected /\ os_sequence (cx_checkpoint (m_context m)) = os_sequence expected /\
   exists es, encode_operations unicode_lower unicode_upper locale_lower m ops = Ok es /\
     match r with
     | Ok _ => sent = sent_of <$> es
     | Err _ => exists es1 x es2, es = es1 ++ x :: es2 /\ cut_short (cx_modes (m_context m)) es1 (world (turn s')) sent
     end).
Proof.
  cbv zeta. unfold executeDeviceOperations. unfold mbind at 1, method_bind at 1.
  assert (let '(r1, s1) := (match deadline with Some d => assertBeforeActionInput now d | None => mret () end : acting ()) s in
          inputs s1 = inputs s /\ turn s1 = turn s /\ (is_ok r1 -> forall d, deadline = Some d -> now (readings s) < d) /\ (forall e, r1 = Err e -> e = timed_out)) as H0.
  { destruct deadline as [d|]; [|done]. unfold assertBeforeActionInput, read_clock, mbind, method_bind. cbn.
    destruct (Z.leb_spec d (now (readings s))); cbn; (split_and!; [done|done| |]); try done; [by intros ? [= ->]|by intros _ ? [= <-]]. }
  destruct (_ s) as [[[]|e] s1].
  2: { destruct H0 as (Hi & _ & _ & He). exists []. split; [by apply adds_nothing|]. split; [by left|]. by intros [?|?]. }
  destruct H0 as (Hi & Ht & Hd & _). unfold mbind at 1, method_bind at 1. unfold checkpoint_now, here, mbind, method_bind. rewrite Ht.
  assert (adds s s1 []) as Ha0 by by apply adds_nothing.
  destruct (m_open (world (turn s))) eqn:Eo; cbn [mret method_ret throw].
  2: { exists []. split; [done|]. split; [by left|]. by intros [?|?]. }
  destruct (_ || _) eqn:Ec.
  { exists []. split; [done|]. split; [by left|]. by intros [?|?]. }
  apply orb_false_iff in Ec as [Ec1%negb_false_iff%bool_decide_eq_true Ec2%negb_false_iff%Z.eqb_eq].
  unfold lift. rewrite ?Ht. destruct (encode_operations _ _ _ _ ops) as [es|e] eqn:Ee.
  2: { exists []. split; [done|]. split; [by left|]. by intros [?|?]. }
  pose proof (send_or_release_spec (cx_modes (m_context (world (turn s)))) deadline es s1) as H.
  destruct (send_or_release _ _ _ deadline es s1) as [[[]|e] s2]; unfold mret, method_ret.
  - exists (sent_of <$> es). split; [by apply (adds_trans _ s1 _ [])|]. split; [done|]. intros _. split_and!; try done; [by apply Hd|by exists es].
  - destruct H as [[-> H]|(He & es1 & x & es2 & sent & -> & Hc & H)].
    + exists []. split; [by apply (adds_trans _ s1 _ [] [])|]. split; [by left|]. by intros [?|?].
    + exists sent. split; [by apply (adds_trans _ s1 _ [])|]. split; [by right|]. intros _. split_and!; try done; [by apply Hd|].
      eexists. split; [done|]. by exists es1, x, es2.
Qed.

(** C13 Executing a plan sends its operations, encoded under the modes at that moment,
    in order and nothing else.  Input is only sent in an open session on the
    observation the plan was made on, before the deadline and when every operation
    can be encoded; after a failure to send, what follows is the release of the
    button that is down, unless the session refuses it or never comes to it, or it
    cannot be encoded. *)
Theorem device_execution_exact ops expected deadline s :
  let m := world (turn s) in
  let '(r, s') := executeDeviceOperations world now unicode_lower unicode_upper locale_lower ops expected deadline s in
  exists sent, adds s s' sent /\
  match r with
  | Ok done => done = ops
  | Err e => sent = [] \/ interrupted e
  end /\
  (r = Ok ops \/ sent <> [] ->
   (forall d, deadline = Some d -> now (readings s) < d) /\ m_open m = true /\
   os_contractId (cx_checkpoint (m_context m)) = os_contractId expected /\ os_sequence (cx_checkpoint (m_context m)) = os_sequence expected /\
   exists es, encode_operations unicode_lower unicode_upper locale_lower m ops = Ok es /\
     match r with
     | Ok _ => sent = sent_of <$> es
     | Err _ => exists es1 x es2, es = es1 ++ x :: es2 /\ cut_short (cx_modes (m_context m)) es1 (world (turn s')) sent
     end).
Proof. apply execution_sends. Qed.

(** ** Buttons *)

(** A cell the encoding can report. *)
Definition reportable (modes : Mouse.TerminalModes) (r c : Z) : Prop :=
  match Mouse.mouseEncoding modes with
  | Mouse.e_default => c + 1 <= 223 /\ r + 1 <= 223
  | Mouse.e_utf8 => 0 <= 32 + (c + 1) <= 1114111 /\ 0 <= 32 + (r + 1) <= 1114111
  | Mouse.e_unknown => False
  | _ => True
  end.

Lemma encodeMouse_reports event modes data :
  Mouse.encodeMouse event modes = Ok data ->
  reportable modes (Mouse.e_row event) (Mouse.e_column event) /\
  Mouse.mouseModeUnverifiable modes = false /\ bool_decide (Mouse.mouseTracking modes = Mouse.t_none) = false /\
  bool_decide (Mouse.mouseTracking modes = Mouse.t_x10) && negb (bool_decide (Mouse.kind event = Mouse.press)) = false.
Proof.
  unfold Mouse.encodeMouse. destruct (Mouse.mouseModeUnverifiable modes); [done|]. destruct (bool_decide (_ = Mouse.t_none)); [done|].
  destruct (bool_decide (_ = Mouse.t_x10) && _); [done|]. destruct (_ && _ && _); [done|]. destruct (Mouse.buttonCode event) as [code|]; [|done].
  cbn [mbind result_bind]. intros H. split; [|done]. unfold reportable. destruct (Mouse.mouseEncoding modes); try done; cbv zeta in H.
  - destruct (_ || _) eqn:E; [done|]. unfold Mouse.X10_MAX_COORDINATE in E. breflect. lia.
  - unfold Mouse.fromCodePoint in H. destruct (forallb _ _) eqn:E; [|done]. cbn [forallb] in E. unfold between in E. breflect. lia.
Qed.

Lemma release_encodes h modes event data :
  Mouse.kind event = Mouse.release_ -> Mouse.encodeMouse event modes = Ok data -> reportable modes (h_row h) (h_column h) ->
  exists data', Mouse.encodeMouse (release_event h) modes = Ok data'.
Proof.
  intros Hk (_ & Hu & Hn & Hx)%encodeMouse_reports Hr. rewrite Hk in Hx.
  change (bool_decide (Mouse.mouseTracking modes = Mouse.t_x10) && negb (bool_decide (Mouse.kind (release_event h) = Mouse.press)) = false) in Hx.
  unfold Mouse.encodeMouse. rewrite Hu, Hn, Hx. change (bool_decide (Mouse.kind (release_event h) = Mouse.move_)) with false.
  assert (exists code, Mouse.buttonCode (release_event h) = Ok code) as [code ->] by by eexists.
  unfold mbind, result_bind. cbv beta iota zeta. cbn [andb]. unfold reportable in Hr.
  change (Mouse.e_column (release_event h)) with (h_column h). change (Mouse.e_row (release_event h)) with (h_row h).
  destruct (Mouse.mouseEncoding modes); try done; try (by eexists).
  - unfold Mouse.X10_MAX_COORDINATE. destruct (Z.ltb_spec 223 (h_column h + 1)); [lia|]. destruct (Z.ltb_spec 223 (h_row h + 1)); [lia|]. by eexists.
  - rewrite decide_True by done. unfold Mouse.fromCodePoint. replace (forallb _ _) with true; [by eexists|].
    cbn [forallb]. unfold between. symmetry. breflect. lia.
Qed.

(** What an encoded operation of the mouse says of the modes. *)
Lemma encode_operation_mouse m o data kind mo :
  encode_operation unicode_lower unicode_upper locale_lower m o = Ok (encoded o data kind) -> o = e_mouse mo ->
  Mouse.encodeMouse (mouse_event mo) (cx_modes (m_context m)) = Ok data.
Proof. intros H ->. cbn in H. destruct (Mouse.encodeMouse _ _); [by injection H as -> _|done]. Qed.
Lemma encode_operation_of m o e : encode_operation unicode_lower unicode_upper locale_lower m o = Ok e -> operation_of e = o.
Proof.
  destruct o as [[] v|mo]; cbn; [destruct (Keys.encodeKeys _ _ _ _)|..|destruct (Mouse.encodeMouse _ _)]; by intros [= <-].
Qed.

Lemma encode_operations_spec m ops es :
  encode_operations unicode_lower unicode_upper locale_lower m ops = Ok es ->
  operation_of <$> es = ops /\ Forall (fun e => encode_operation unicode_lower unicode_upper locale_lower m (operation_of e) = Ok e) es.
Proof.
  revert es. induction ops as [|o ops IH]; intros es; cbn [encode_operations]; [by intros [= <-]|].
  destruct (encode_operation _ _ _ m o) as [e|] eqn:E; [|done]. cbn. destruct (encode_operations _ _ _ m ops) as [es'|] eqn:E'; [|done].
  cbn. intros [= <-]. destruct (IH es' eq_refl) as [<- H]. pose proof (encode_operation_of m o e E) as Ho. cbn. rewrite Ho. split; [done|].
  constructor; [by rewrite Ho|done].
Qed.

(** The executor tracks the button the operations hold. *)
Lemma hold_next h o h' : next_held (h_button <$> h) o = Some h' -> h' = h_button <$> hold h o.
Proof.
  destruct o as [k v|mo]; cbn; [congruence|]. destruct (m_kind mo), (m_button mo) as [b|], h as [h|]; cbn; try done; try congruence; case_bool_decide; congruence.
Qed.
Lemma hold_after ops h h' : held_after (h_button <$> h) ops = Some h' -> h' = h_button <$> foldl hold h ops.
Proof.
  revert h. induction ops as [|o ops IH]; intros h; cbn [held_after foldl]; [by intros [= <-]|].
  destruct (next_held _ o) as [h1|] eqn:E; [|done]. apply hold_next in E as ->. apply IH.
Qed.

(** A button that is up at the end was released on the way. *)
Lemma released_later b ops : held_after (Some b) ops = Some None -> exists mo, e_mouse mo ∈ ops /\ m_kind mo = m_up.
Proof.
  revert b. induction ops as [|o ops IH]; intros b; cbn [held_after]; [done|]. destruct (next_held (Some b) o) as [h|] eqn:E; [|done]. cbn. intros H.
  assert ((exists mo, e_mouse mo ∈ ops /\ m_kind mo = m_up) -> exists mo, e_mouse mo ∈ o :: ops /\ m_kind mo = m_up) as Hin
    by (intros (mo & ? & ?); exists mo; split; [by right|done]).
  destruct o as [k v|mo]; cbn in E; [injection E as <-; by apply Hin, (IH b)|].
  destruct (m_kind mo) eqn:Ek, (m_button mo) as [b'|]; try done; try case_bool_decide; simplify_eq; try (by apply Hin, (IH b)).
  exists mo. split; [by left|done].
Qed.

Section Encoded.
Context (m : Moment).
#[local] Abbreviation modes := (cx_modes (m_context m)).
#[local] Abbreviation encodes := (fun e => encode_operation unicode_lower unicode_upper locale_lower m (operation_of e) = Ok e).

Lemma mouse_reportable mo e : encode_operation unicode_lower unicode_upper locale_lower m (e_mouse mo) = Ok e -> reportable modes (m_row mo) (m_column mo).
Proof.
  cbn. destruct (Mouse.encodeMouse _ _) eqn:E; [|done]. intros _. apply encodeMouse_reports in E as [E _]. unfold mouse_event in E. by destruct (m_kind mo).
Qed.

Lemma held_reportable es h0 h :
  Forall encodes es -> (forall h, h0 = Some h -> reportable modes (h_row h) (h_column h)) ->
  foldl hold h0 (operation_of <$> es) = Some h -> reportable modes (h_row h) (h_column h).
Proof.
  intros Hes. revert h0. induction Hes as [|e es He _ IH]; intros h0 H0; cbn; [by apply H0|]. apply IH. intros h' Hh'.
  destruct (operation_of e) as [k v|mo]; cbn in Hh'; [by apply H0|]. apply mouse_reportable in He as Hr.
  destruct (m_kind mo), h0 as [h1|]; simplify_eq/=; first [done|by apply H0].
Qed.

(** A button of a plan can be released wherever the plan is cut. *)
Lemma held_released es1 es2 h :
  Forall encodes (es1 ++ es2) -> balanced (operation_of <$> (es1 ++ es2)) -> holding es1 = Some h ->
  exists data, Mouse.encodeMouse (release_event h) modes = Ok data.
Proof.
  intros [H1 H2]%Forall_app Hb Hh. unfold balanced in Hb. rewrite fmap_app, held_after_app in Hb.
  destruct (held_after None (operation_of <$> es1)) as [b|] eqn:E; [|done]. cbn in Hb. pose proof (hold_after _ None _ E) as ->.
  change (foldl hold None (operation_of <$> es1)) with (holding es1) in Hb. rewrite Hh in Hb. cbn in Hb. apply released_later in Hb as (mo & Hin & Hk).
  apply list_elem_of_fmap in Hin as (e & He & Hin). rewrite Forall_forall in H2. specialize (H2 e Hin).
  assert (Mouse.kind (mouse_event mo) = Mouse.release_) as Hkind by (unfold mouse_event; by rewrite Hk).
  destruct e as [o data kind]. cbn in H2, He. eapply encode_operation_mouse in H2; [|by symmetry].
  eapply release_encodes; [exact Hkind|exact H2|]. by apply (held_reportable es1 None).
Qed.
End Encoded.

(** C17 No button is left down: when the operations of a plan of the planner are
    executed, to the end or not, what is sent ends with every button up, the executor
    sending itself the release of the one that is down, unless the session no longer
    takes input or never gets through the output it has to parse first. *)
Theorem no_button_left_down ctx p expected deadline s :
  plans ctx p ->
  let ops := x_operations p in
  let '(r, s') := executeDeviceOperations world now unicode_lower unicode_upper locale_lower ops expected deadline s in
  exists es1 last, adds s s' ((sent_of <$> es1) ++ last) /\ (operation_of <$> es1) `prefix_of` ops /\
    match held_after None (operation_of <$> es1) with
    | None => False
    | Some None => last = []
    | Some (Some b) =>
        (exists h data, h_button h = b /\ Mouse.encodeMouse (release_event h) (cx_modes (m_context (world (turn s)))) = Ok data /\ last = [(data, in_mouse)]) \/
        (last = [] /\ refuses (world (turn s')))
    end.
Proof.
  intros Hb%plans_balanced ops. pose proof (execution_sends ops expected deadline s) as H. cbv zeta in H.
  destruct (executeDeviceOperations _ _ _ _ _ ops expected deadline s) as [r s']. destruct H as (sent & Ha & Hr & H).
  assert (sent = [] \/ (r = Ok ops \/ sent <> [])) as [->|Hc] by (destruct sent; [by left|by right; right]).
  { exists [], []. split; [done|]. split; [by apply prefix_nil|done]. }
  destruct (H Hc) as (_ & _ & _ & _ & es & Hes & Hs). clear H. change (balanced ops) in Hb. apply encode_operations_spec in Hes as [Ho Hes].
  clearbody ops. subst ops.
  destruct r as [done|e].
  - exists es, []. rewrite app_nil_r. split; [by rewrite <- Hs|]. split; [done|]. by rewrite Hb.
  - destruct Hs as (es1 & x & es2 & -> & Hcut).
    assert (exists b, held_after None (operation_of <$> es1) = Some b /\ b = h_button <$> holding es1) as (b & Eb & ->).
    { unfold balanced in Hb. rewrite fmap_app, held_after_app in Hb. destruct (held_after None (operation_of <$> es1)) as [b|] eqn:E; [|done].
      exists b. split; [done|]. by apply (hold_after _ None). }
    assert ((operation_of <$> es1) `prefix_of` (operation_of <$> (es1 ++ x :: es2))) as Hp by (rewrite fmap_app; by apply prefix_app_r).
    destruct Hcut as [Hh|h data Hh Hd|h Hh Hrf|h e' Hh He]; rewrite Hh in Eb; cbn in Eb.
    + exists es1, []. by rewrite app_nil_r, Eb.
    + exists es1, [(data, in_mouse)]. split; [done|]. split; [done|]. rewrite Eb. left. by exists h, data.
    + exists es1, []. rewrite app_nil_r, Eb. split; [done|]. split; [done|]. by right.
    + destruct (held_released _ es1 (x :: es2) h Hes Hb Hh) as (data & Hd). congruence.
Qed.
End Executor.

(** ** A click that is interrupted *)

Module Interrupted.
Definition moment (caughtUp : bool) (pty : PtyState) : Moment :=
  {| m_context := Form.context; m_keyModes := {| Keys.applicationCursorKeys := false; Keys.applicationKeypad := false; Keys.kittyKeyboardFlags := None |};
     m_bracketedPaste := true; m_open := true; m_failed := false; m_exited := false; m_negotiating := false;
     m_caughtUp := caughtUp; m_drains := true; m_pty := pty |}.
(** The terminal refuses the release of the click, and then recovers. *)
Definition world (k : nat) : Moment :=
  match k with 0 => moment true pty_writable | 1 => moment false pty_writable | 2 => moment false pty_refuses | _ => moment true pty_writable end%nat.
Definition now (k : nat) : Z := Z.of_nat k.
End Interrupted.

(** The button goes down, comes up by itself, and the failure is reported. *)
Lemma no_button_left_down_witness :
  exists a s', Form.click = (Ok a, s') /\
    let '(r, s1) := executeDeviceOperations Interrupted.world Interrupted.now id id id (x_operations (pp_plan a)) Form.stamp (Some 10) newRun in
    r = Err pty_error /\ length (inputs s1) = 2%nat /\
    exists es1 last, adds newRun s1 ((sent_of <$> es1) ++ last) /\ (operation_of <$> es1) `prefix_of` x_operations (pp_plan a) /\
      match held_after None (operation_of <$> es1) with
      | None => False
      | Some None => last = []
      | Some (Some b) =>
          (exists h data, h_button h = b /\ Mouse.encodeMouse (release_event h) (cx_modes Form.context) = Ok data /\ last = [(data, in_mouse)]) \/
          (last = [] /\ refuses (Interrupted.world (turn s1)))
      end.
Proof.
  destruct Form.click as [[a|e] s'] eqn:E; [|vm_compute in E; discriminate E]. exists a, s'. split; [reflexivity|].
  pose proof (no_button_left_down Interrupted.world Interrupted.now id id id Form.context (pp_plan a) Form.stamp (Some 10) newRun) as H. cbv zeta in H.
  assert (plans Form.context (pp_plan a)) as Hp by (eapply (by_pointer Form.context _ _ _ _ _ _ a); [apply Form.sized_target|exact E|reflexivity]).
  specialize (H Hp).
  assert (a = match Form.click with (Ok a, _) => a | _ => a end) as Ha by (rewrite E; reflexivity). clear E Hp.
  destruct (executeDeviceOperations _ _ _ _ _ _ _ _ newRun) as [r s1] eqn:Er. rewrite Ha in Er. vm_compute in Er.
  split; [injection Er as <- _; reflexivity|]. split; [injection Er as _ <-; reflexivity|]. exact H.
Defined.
