(* ===== verification/ActionRun.v ===== *)
(** * Running an action (packages/driver/src/locator.ts, internal/action-retry.ts, internal/session-actions.ts)

    An action resolves its target, plans on the observation at hand and executes the
    plan; when the observation moved away under the plan it waits for another one and
    starts over, within one deadline.  A fill, a focus and a check then wait until
    the node shows the effect.  Every wait for a change of the session has a timer
    that ends it (armChange in session.ts), so it takes a turn and comes back; the
    session is one without an operation budget, whose operationTimeout is the time
    requested. *)

From S2P Require Import Prelude JsText JsSearch Tree ArtifactSafety ActionModel Selectors ActionPlanner DeviceExecutor.

Local Open Scope Z_scope.

(** [targetRef] of the explanation attached to an error. *)
Definition error_target (x : option ActionabilityExplanation) : option jstring :=
  match x with
  | None => None
  | Some x => match ae_reason x ≫= ar_targetRef with Some r => Some r | None => i_targetRef (ae_intent x) end
  end.

Definition is_stale (f : Failure) : bool := match f with StaleSnapshot | PendingObservation _ => true | _ => false end.
Definition is_pending (f : Failure) : bool := match f with PendingObservation _ => true | _ => false end.

Definition relevantObservationChanged (f : Failure) (x : option ActionabilityExplanation) (left right : ObservationStamp) : bool :=
  if negb (bool_decide (os_contractId left = os_contractId right)) || negb (os_epoch left =? os_epoch right) then true
  else if is_stale f then negb (os_sequence left =? os_sequence right)
  else
    match error_target x with
    | Some ref =>
        if starts_with (js "screen:") ref then negb (os_screenRevision left =? os_screenRevision right)
        else negb (bool_decide (os_semanticRevision left = os_semanticRevision right)) ||
             negb (bool_decide (os_pairedScreenRevision left = os_pairedScreenRevision right))
    | None => negb (bool_decide (os_semanticRevision left = os_semanticRevision right)) ||
              negb (bool_decide (os_pairedScreenRevision left = os_pairedScreenRevision right))
    end.

Definition recoverable (e : ActionError) : option (Failure * option ActionabilityExplanation) :=
  match e with
  | planning_error (ActionPlanner.failed f x) =>
      match f with StaleSnapshot | PendingObservation _ | NotActionable (Some _) => Some (f, x) | _ => None end
  | _ => None
  end.

(** What evaluating a locator throws: an error of the planner's catalogue, or the
    violation that ended the semantic channel. *)
Inductive LocatorError : Type := cannot_match (e : PlanError) | tree_violated.
Definition locator_error (e : LocatorError) : ActionError := match e with cannot_match e => planning_error e | tree_violated => semantic_violation end.

(** What a run of an action that does not end with the fuel it was given throws. *)
Inductive Stopped : Type := threw (e : ActionError) | out_of_fuel.
Definition running (A : Type) : Type := method Run Stopped A.
Definition run {A} (m : acting A) : running A := fun s => match m s with (Ok a, s) => (Ok a, s) | (Err e, s) => (Err (threw e), s) end.

Section Action.
Context (world : nat -> Moment) (now : nat -> Z) (unicode_lower unicode_upper locale_lower : jstring -> jstring).
(** What the locator's expression matches in the session at a turn ([#evaluate]),
    or what evaluating it throws. *)
Context (matched : nat -> result LocatorError (list ResolvedTarget)).
Context (policy : ArtifactValuePolicy).

Definition expired (deadline : Z) : acting bool := t ← read_clock now; mret (deadline <=? t).

Definition report_wait (o : ObservationState) : acting () :=
  modify (fun s => {| turn := turn s; readings := readings s; inputs := inputs s; waits := waits s ++ [o]; staleRetries := staleRetries s |}).

(** The post-increment of the counter. *)
Definition take_stale_retry : acting nat :=
  fun s => (Ok (staleRetries s), {| turn := turn s; readings := readings s; inputs := inputs s; waits := waits s; staleRetries := S (staleRetries s) |}).

(** The waiting loop of [retry]. *)
Fixpoint wait_for_observation (fuel : nat) (deadline : Z) (e : ActionError) (f : Failure) (x : option ActionabilityExplanation)
    (failedAt : ObservationStamp) (settlement reported : bool) : running () :=
  match fuel with
  | O => throw out_of_fuel
  | S fuel =>
      m ← run (here world);
      let state := actionObservationState (m_context m) in
      let open := negb (bool_decide (state = settled)) in
      _ ← run (if open && negb reported then report_wait state else mret ());
      let settlement := settlement || open in
      ready ← run (if settlement then mret (negb open)
                   else cp ← checkpoint_now world; mret (relevantObservationChanged f x failedAt cp));
      if (ready : bool) then mret ()
      else
        _ ← run await;
        late ← run (expired deadline);
        if (late : bool) then throw (threw e) else wait_for_observation fuel deadline e f x failedAt settlement (reported || open)
  end.

Definition retry (fuel : nat) (deadline : Z) (e : ActionError) : running () :=
  match recoverable e with
  | None => throw (threw e)
  | Some (f, x) =>
      late ← run (expired deadline);
      if (late : bool) then throw (threw e)
      else
        again ← run (if bool_decide (f = StaleSnapshot) then n ← take_stale_retry; mret (n =? 0)%nat else mret false);
        if (again : bool) then mret ()
        else
          failedAt ← run (match x with Some x => mret (ae_checkpoint x) | None => checkpoint_now world end);
          wait_for_observation fuel deadline e f x failedAt (is_pending f) false
  end.

(** A planner at work on the session as it is now; [checkpoint] throws once it is closed. *)
Definition planned_now {A} (plan : ActionPlannerContext -> planning A) : acting A :=
  m ← here world;
  if m_open m then
    match (plan (m_context m) newPlanner).1 with Ok a => mret a | Err e => throw (planning_error e) end
  else throw session_closed.

Definition executePlan (deadline : Z) (plan : ExecutableActionPlan) : acting ActionReceipt :=
  _ ← assertBeforeActionInput now deadline;
  executed ← executeDeviceOperations world now unicode_lower unicode_upper locale_lower (x_operations plan) (x_checkpoint plan) (Some deadline);
  after ← checkpoint_now world;
  mret {| rc_intent := x_intent plan; ActionModel.plan := recordActionPlan plan policy; before := x_checkpoint plan; ActionModel.after := after;
          ActionModel.executed := (fun o => recordDeviceOperation o policy) <$> executed; outcome := completed |}.

(** [Deadline.remaining] *)
Definition remaining (deadline : Z) : acting Z := t ← read_clock now; mret (Z.max 0 (deadline - t)).

Definition assertOpen : acting () := m ← here world; if m_open m then mret () else throw session_closed.

(** The loop of [#awaitNegotiation]: the promise it races is settled once the
    negotiation no longer is pending. *)
Fixpoint negotiation (fuel : nat) (deadline : Z) : running () :=
  match fuel with
  | O => throw out_of_fuel
  | S fuel =>
      late ← run (expired deadline);
      if (late : bool) then throw (threw timed_out)
      else
        _ ← run await;
        late ← run (expired deadline);
        if (late : bool) then throw (threw timed_out)
        else m ← run (here world); if m_negotiating m then negotiation fuel deadline else mret ()
  end.
Definition awaitNegotiation (fuel : nat) (deadline : Z) : running () :=
  m ← run (here world); if m_negotiating m then negotiation fuel deadline else mret ().

(** [#select] of what [#evaluate] finds now. *)
Definition select : acting (option ResolvedTarget) :=
  fun s => (match matched (turn s) with
            | Err e => Err (locator_error e)
            | Ok [] => Ok None
            | Ok [target] => Ok (Some target)
            | Ok _ => Err ambiguous
            end, s).

(** The loop of [resolve]. *)
Fixpoint resolving (fuel : nat) (deadline : Z) : running ResolvedTarget :=
  match fuel with
  | O => throw out_of_fuel
  | S fuel =>
      _ ← run assertOpen;
      selected ← run select;
      match selected with
      | Some target => mret target
      | None =>
          late ← run (expired deadline);
          if (late : bool) then throw (threw timed_out) else _ ← run await; resolving fuel deadline
      end
  end.

Definition resolve (fuel : nat) (timeout : Z) : running ResolvedTarget :=
  _ ← run assertOpen;
  t ← run (read_clock now);
  _ ← awaitNegotiation fuel (t + timeout);
  resolving fuel (t + timeout).

(** What is left of the deadline is the time to resolve in. *)
Definition resolved (fuel : nat) (deadline : Z) : running ResolvedTarget := left ← run (remaining deadline); resolve fuel left.

Definition attempt (deadline : Z) (plan : ActionPlannerContext -> ResolvedTarget -> planning ExecutableActionPlan) (target : ResolvedTarget) : acting ActionReceipt :=
  p ← planned_now (fun ctx => plan ctx target);
  _ ← assertBeforeActionInput now deadline;
  executePlan deadline p.

(** Ends in what was thrown as well as in what was returned. *)
Definition outcome_of {A} (m : running A) : running (result ActionError A) :=
  fun s => match m s with
           | (Ok a, s) => (Ok (Ok a), s)
           | (Err (threw e), s) => (Ok (Err e), s)
           | (Err out_of_fuel, s) => (Err out_of_fuel, s)
           end.

(** The loop of [#plannedPointer] and of [#plannedKeyboard]; waits, resolutions and
    attempts take their fuel from [fuel]. *)
Fixpoint attempts (fuel : nat) (deadline : Z) (plan : ActionPlannerContext -> ResolvedTarget -> planning ExecutableActionPlan)
    : running (ActionReceipt * ResolvedTarget) :=
  match fuel with
  | O => throw out_of_fuel
  | S fuel =>
      target ← resolved fuel deadline;
      r ← outcome_of (run (attempt deadline plan target));
      match r with
      | Ok receipt => mret (receipt, target)
      | Err e => _ ← retry fuel deadline e; attempts fuel deadline plan
      end
  end.

Definition with_ref (intent : ActionIntent) (target : ResolvedTarget) : ActionIntent := with_target intent target.

(** The deadline is set when the controller of the retries is made. *)
Definition plannedPointer (fuel : nat) (timeout : Z) (actionId : jstring) (intent : ActionIntent) (options : PointerOptions) : running ActionReceipt :=
  t ← run (read_clock now);
  done ← attempts fuel (t + timeout) (fun ctx target => p ← planPointer ctx actionId (with_ref intent target) target options; mret (pp_plan p));
  mret done.1.

Definition keyboard_attempts (fuel : nat) (deadline : Z) (actionId : jstring) (intent : ActionIntent) (value : ExecutableValue)
    : running (ActionReceipt * ResolvedTarget) :=
  attempts fuel deadline (fun ctx target => planKeyboard ctx actionId (with_ref intent target) target value).

(** [press], [type] and [activate] *)
Definition plannedKeyboard (fuel : nat) (timeout : Z) (actionId : jstring) (intent : ActionIntent) (value : ExecutableValue) : running ActionReceipt :=
  t ← run (read_clock now);
  done ← keyboard_attempts fuel (t + timeout) actionId intent value;
  mret done.1.

(** ** Actions that wait for their effect *)

(** The node a target names, on the observation at hand. *)
Definition node_now (target : ResolvedTarget) : acting (option SemanticNode) :=
  m ← here world; mret (if t_semantic target then semanticNode (m_context m) (default [] (semanticNodeId (t_ref target))) else None).

(** [#waitForSemanticPostcondition], and the loop of [#checkedAction]. *)
Fixpoint postcondition (fuel : nat) (deadline : Z) (satisfied : SemanticNode -> bool) : running () :=
  match fuel with
  | O => throw out_of_fuel
  | S fuel =>
      current ← resolved fuel deadline;
      node ← run (node_now current);
      if match node with Some n => satisfied n | None => false end then mret ()
      else
        late ← run (expired deadline);
        if (late : bool) then throw (threw timed_out)
        else
          _ ← run await;
          late ← run (expired deadline);
          if (late : bool) then throw (threw timed_out) else postcondition fuel deadline satisfied
  end.

Definition with_after (r : ActionReceipt) (cp : ObservationStamp) : ActionReceipt :=
  {| rc_intent := rc_intent r; ActionModel.plan := ActionModel.plan r; before := before r; ActionModel.after := cp;
     ActionModel.executed := ActionModel.executed r; outcome := outcome r |}.

(** [checks] says, from the target, whether there is an effect to wait for. *)
Definition with_effect (fuel : nat) (timeout : Z) (actionId : jstring) (intent : ActionIntent) (value : ExecutableValue)
    (checks : ResolvedTarget -> acting bool) (satisfied : SemanticNode -> bool) : running ActionReceipt :=
  t ← run (read_clock now);
  done ← keyboard_attempts fuel (t + timeout) actionId intent value;
  checked ← run (checks done.2);
  _ ← (if (checked : bool) && negb (bool_decide (operations (ActionModel.plan done.1) = [])) then postcondition fuel (t + timeout) satisfied else mret ());
  cp ← run (checkpoint_now world);
  mret (with_after done.1 cp).

Definition has_value (text : jstring) (n : SemanticNode) : bool := match n_value n with Some (value_known v _ _) => bool_decide (v = text) | _ => false end.
Definition fill (fuel : nat) (timeout : Z) (actionId : jstring) (intent : ActionIntent) (text : ExecutableValue) : running ActionReceipt :=
  with_effect fuel timeout actionId intent text
    (fun target => n ← node_now target; mret (match n ≫= n_value with Some (value_known _ _ _) => true | _ => false end)) (has_value (executableText text)).

Definition focus (fuel : nat) (timeout : Z) (actionId : jstring) (intent : ActionIntent) : running ActionReceipt :=
  with_effect fuel timeout actionId intent (plain_value []) (fun _ => mret true) (fun n => bool_decide ((n_state n ≫= st_focused) = Some true)).

Definition checkedAction (fuel : nat) (timeout : Z) (actionId : jstring) (intent : ActionIntent) (value : bool) : running ActionReceipt :=
  with_effect fuel timeout actionId intent (plain_value []) (fun _ => mret true) (fun n => bool_decide (checked_state n = Some value)).

(** ** Drag and wheel

    Here the resolution is part of what is tried again. *)

Fixpoint trying (fuel : nat) (deadline : Z) (body : nat -> running ActionReceipt) : running ActionReceipt :=
  match fuel with
  | O => throw out_of_fuel
  | S fuel =>
      r ← outcome_of (body fuel);
      match r with
      | Ok receipt => mret receipt
      | Err e => _ ← retry fuel deadline e; trying fuel deadline body
      end
  end.

Definition wheel (fuel : nat) (timeout : Z) (actionId : jstring) (intent : ActionIntent) (options : PlannedWheelOptions) : running ActionReceipt :=
  t ← run (read_clock now);
  let deadline := t + timeout in
  trying fuel deadline (fun fuel =>
    target ← resolved fuel deadline;
    run (attempt deadline (fun ctx target => p ← planWheel ctx actionId (with_ref intent target) target options; mret (pp_plan p)) target)).
End Action.

(** A drag resolves two locators. *)
Section Drag.
Context (world : nat -> Moment) (now : nat -> Z) (unicode_lower unicode_upper locale_lower : jstring -> jstring).
Context (matched destination_matched : nat -> result LocatorError (list ResolvedTarget)).
Context (policy : ArtifactValuePolicy).

Definition dragTo (fuel : nat) (timeout : Z) (actionId : jstring) (intent : ActionIntent) (options : PlannedDragOptions) : running ActionReceipt :=
  t ← run (read_clock now);
  let deadline := t + timeout in
  trying world now fuel deadline (fun fuel =>
    source ← resolved world now matched fuel deadline;
    destination ← resolved world now destination_matched fuel deadline;
    run (attempt world now unicode_lower unicode_upper locale_lower policy deadline
           (fun ctx source => p ← planDrag ctx actionId (with_ref intent source) source destination options; mret (pp_plan p)) source)).

(** The actions of a locator: click, doubleClick and hover; press, type and activate;
    fill; focus; check and uncheck; wheel; dragTo. *)
Inductive LocatorAction : Type :=
| on_pointer (intent : ActionIntent) (options : PointerOptions)
| on_keyboard (intent : ActionIntent) (value : ExecutableValue)
| on_fill (intent : ActionIntent) (text : ExecutableValue)
| on_focus (intent : ActionIntent)
| on_check (intent : ActionIntent) (value : bool)
| on_wheel (intent : ActionIntent) (options : PlannedWheelOptions)
| on_drag (intent : ActionIntent) (options : PlannedDragOptions).

Definition perform (fuel : nat) (timeout : Z) (actionId : jstring) (a : LocatorAction) : running ActionReceipt :=
  match a with
  | on_pointer intent options => plannedPointer world now unicode_lower unicode_upper locale_lower matched policy fuel timeout actionId intent options
  | on_keyboard intent value => plannedKeyboard world now unicode_lower unicode_upper locale_lower matched policy fuel timeout actionId intent value
  | on_fill intent text => fill world now unicode_lower unicode_upper locale_lower matched policy fuel timeout actionId intent text
  | on_focus intent => focus world now unicode_lower unicode_upper locale_lower matched policy fuel timeout actionId intent
  | on_check intent value => checkedAction world now unicode_lower unicode_upper locale_lower matched policy fuel timeout actionId intent value
  | on_wheel intent options => wheel world now unicode_lower unicode_upper locale_lower matched policy fuel timeout actionId intent options
  | on_drag intent options => dragTo fuel timeout actionId intent options
  end.
End Drag.
