(* ===== verification/ActionTheorems.v ===== *)
(** * What running an action promises

    The input of an action is that of one plan, made on the observation it is sent
    to, and an action whose input has begun is never planned again. *)

From S2P Require Import Prelude JsText JsSearch Tree ArtifactSafety ActionModel ActionPlanner PlannerTheorems PlannerErrors DeviceExecutor ExecutorTheorems ActionRun.
From S2P Require Mouse.

Local Open Scope Z_scope.

Section Action.
Context (world : nat -> Moment) (now : nat -> Z) (unicode_lower unicode_upper locale_lower : jstring -> jstring).
Context (matched : nat -> result LocatorError (list ResolvedTarget)) (policy : ArtifactValuePolicy).

(** ** Nothing is sent but by the executor *)

(** A method sends nothing. *)
Definition silent {E A} (m : method Run E A) : Prop := forall s, inputs (m s).2 = inputs s.

Lemma silent_bind {E A B} (m : method Run E A) (k : A -> method Run E B) : silent m -> (forall a, silent (k a)) -> silent (m ≫= k).
Proof.
  intros Hm Hk s. unfold mbind, method_bind. specialize (Hm s). destruct (m s) as [[a|e] s1]; [by rewrite (Hk a s1)|done].
Qed.
Lemma silent_run {A} (m : acting A) : silent m -> silent (run m).
Proof. intros H s. specialize (H s). unfold run. by destruct (m s) as [[] ?]. Qed.
Lemma silent_mret {E A} (a : A) : silent (E:=E) (mret a).
Proof. done. Qed.
Lemma silent_throw {E A} (e : E) : silent (A:=A) (throw e).
Proof. done. Qed.

Lemma silent_checkpoint : silent (checkpoint_now world).
Proof. intros s. unfold checkpoint_now, here, mbind, method_bind. by destruct (m_open _). Qed.
Lemma silent_expired deadline : silent (expired now deadline).
Proof. done. Qed.
End Action.
Create HintDb silent.
#[export] Hint Resolve silent_bind silent_run silent_mret silent_throw silent_checkpoint silent_expired : silent.

Section Action.
Context (world : nat -> Moment) (now : nat -> Z) (unicode_lower unicode_upper locale_lower : jstring -> jstring).
Context (matched : nat -> result LocatorError (list ResolvedTarget)) (policy : ArtifactValuePolicy).

Lemma silent_if {E A} (b : bool) (m1 m2 : method Run E A) : silent m1 -> silent m2 -> silent (if b then m1 else m2).
Proof. by destruct b. Qed.
#[local] Hint Resolve silent_if : silent.
#[local] Hint Extern 1 (silent _) => (intros ?; reflexivity) : silent.

Lemma silent_wait fuel deadline e f x failedAt settlement reported :
  silent (wait_for_observation world now fuel deadline e f x failedAt settlement reported).
Proof.
  revert settlement reported. induction fuel as [|fuel IH]; intros settlement reported; cbn [wait_for_observation]; [done|].
  apply silent_bind; [by apply silent_run|]. intros m. cbv zeta. auto 12 with silent.
Qed.

Lemma silent_retry fuel deadline e : silent (retry world now fuel deadline e).
Proof.
  unfold retry. destruct (recoverable e) as [[f x]|]; [|done]. pose proof silent_wait. apply silent_bind; [auto with silent|]. intros late.
  apply silent_if; [done|]. apply silent_bind; [auto 8 with silent|]. intros again. apply silent_if; [done|]. apply silent_bind; [|auto].
  apply silent_run. destruct x; auto with silent.
Qed.

(** ** One attempt *)

#[local] Abbreviation encode := (encode_operations unicode_lower unicode_upper locale_lower).

(** What is sent of a plan that is executed at a moment: all its input, or that of an
    execution cut short. *)
Inductive input_of_plan (m : Moment) (p : ExecutableActionPlan) : list (bytes * InputKind) -> Prop :=
| all_of_it es : encode m (x_operations p) = Ok es -> input_of_plan m p (sent_of <$> es)
| part_of_it es1 x es2 m' sent :
    encode m (x_operations p) = Ok (es1 ++ x :: es2) -> cut_short (cx_modes (m_context m)) es1 m' sent -> input_of_plan m p sent.

(** The receipt of a plan that was executed. *)
Definition receipt_of (p : ExecutableActionPlan) (after : ObservationStamp) : ActionReceipt :=
  {| rc_intent := x_intent p; ActionModel.plan := recordActionPlan p policy; before := x_checkpoint p; ActionModel.after := after;
     ActionModel.executed := (fun o => recordDeviceOperation o policy) <$> x_operations p; outcome := completed |}.

Lemma assertBefore_run deadline s :
  exists r, assertBeforeActionInput now deadline s =
    (r, {| turn := turn s; readings := S (readings s); inputs := inputs s; waits := waits s; staleRetries := staleRetries s |}) /\
  match r with Ok _ => now (readings s) < deadline | Err e => e = timed_out /\ deadline <= now (readings s) end.
Proof. unfold assertBeforeActionInput, read_clock, mbind, method_bind. destruct (Z.leb_spec deadline (now (readings s))); by eexists. Qed.

Lemma adds_same s s1 s' l : inputs s1 = inputs s -> adds s1 s' l -> adds s s' l.
Proof. intros H Ha. eapply (adds_trans _ s1 _ []); [by apply adds_nothing|done]. Qed.
Lemma adds_end s s1 s' l : adds s s1 l -> inputs s' = inputs s1 -> adds s s' l.
Proof. intros (l1 & H1 & H2) H. exists l1. by rewrite H. Qed.

Lemma interrupted_final e : interrupted e -> recoverable e = None.
Proof. by intros [->|[->|[->|[->| ->]]]]. Qed.

Lemma planned_now_spec {A} (f : ActionPlannerContext -> planning A) s :
  match planned_now world f s with
  | (Ok a, s') => s' = s /\ m_open (world (turn s)) = true /\ (f (m_context (world (turn s))) newPlanner).1 = Ok a
  | (Err _, s') => s' = s
  end.
Proof.
  unfold planned_now, here, mbind, method_bind. destruct (m_open (world (turn s))); [|done]. by destruct ((f (m_context (world (turn s))) newPlanner).1).
Qed.

(** Whatever is sent for a plan is its input, and a failure after that is final. *)
Lemma executePlan_spec deadline p s :
  let m := world (turn s) in
  match executePlan world now unicode_lower unicode_upper locale_lower policy deadline p s with
  | (Ok receipt, s') => exists es after, adds s s' (sent_of <$> es) /\ encode m (x_operations p) = Ok es /\ receipt = receipt_of p after
  | (Err e, s') => exists sent, adds s s' sent /\ (sent = [] \/ (recoverable e = None /\ input_of_plan m p sent))
  end.
Proof.
  cbv zeta. unfold executePlan. unfold mbind at 1, method_bind at 1. destruct (assertBefore_run deadline s) as (r & -> & Hr).
  destruct r as [[]|e]; [|exists []; split; [by apply adds_nothing|by left]]. set (s1 := {| turn := turn s |}).
  unfold mbind at 1, method_bind at 1.
  pose proof (execution_sends world now unicode_lower unicode_upper locale_lower (x_operations p) (x_checkpoint p) (Some deadline) s1) as H. cbv zeta in H.
  destruct (executeDeviceOperations _ _ _ _ _ _ _ _ s1) as [[ex|e] s2]; destruct H as (sent & Ha & He & H);
    (apply (adds_same s s1) in Ha; [|done]); change (turn s1) with (turn s) in H.
  - destruct H as (_ & _ & _ & _ & es & Hes & ->); [by left; subst|]. subst ex. unfold mbind, method_bind.
    pose proof (silent_checkpoint world s2) as Hs. destruct (checkpoint_now world s2) as [[after|e] s3] eqn:Ec; cbn in Hs.
    + exists es, after. split; [by eapply adds_end|done].
    + exists (sent_of <$> es). split; [by eapply adds_end|]. right. split; [|by constructor].
      unfold checkpoint_now, here, mbind, method_bind in Ec. destruct (m_open _); [done|]. by injection Ec as <- _.
  - exists sent. split; [done|]. destruct He as [->|He]; [by left|]. destruct sent as [|i sent]; [by left|]. right. split; [by apply interrupted_final|].
    destruct H as (_ & _ & _ & _ & es & Hes & es1 & x & es2 & -> & Hc); [by right|]. by eapply part_of_it.
Qed.

(** An attempt plans on the observation it executes the plan on. *)
Lemma attempt_spec deadline plan target s :
  let m := world (turn s) in
  match attempt world now unicode_lower unicode_upper locale_lower policy deadline plan target s with
  | (Ok receipt, s') => exists p after es, adds s s' (sent_of <$> es) /\ m_open m = true /\ (plan (m_context m) target newPlanner).1 = Ok p /\
                                           encode m (x_operations p) = Ok es /\ receipt = receipt_of p after
  | (Err e, s') => exists sent, adds s s' sent /\
      (sent = [] \/ (recoverable e = None /\ exists p, m_open m = true /\ (plan (m_context m) target newPlanner).1 = Ok p /\ input_of_plan m p sent))
  end.
Proof.
  cbv zeta. unfold attempt. unfold mbind at 1, method_bind at 1. pose proof (planned_now_spec (fun ctx => plan ctx target) s) as H.
  destruct (planned_now world _ s) as [[p|e] s1]; [|subst s1; exists []; split; [by apply adds_nothing|by left]]. destruct H as (-> & Ho & Hp).
  unfold mbind at 1, method_bind at 1. destruct (assertBefore_run deadline s) as (r & -> & _).
  destruct r as [[]|e]; [|exists []; split; [by apply adds_nothing|by left]]. set (s1 := {| turn := turn s |}).
  pose proof (executePlan_spec deadline p s1) as H. cbv zeta in H. change (turn s1) with (turn s) in H.
  destruct (executePlan _ _ _ _ _ _ _ p s1) as [[receipt|e] s2].
  - destruct H as (es & after & Ha & Hes & ->). exists p, after, es. by apply (adds_same s s1) in Ha.
  - destruct H as (sent & Ha & H). exists sent. apply (adds_same s s1) in Ha; [|done]. split; [done|]. destruct H as [->|[Hr H]]; [by left|]. right. eauto.
Qed.

(** ** All attempts *)

(** The input of an action: nothing, or that of one plan made while the session was
    open, sent at the moment it was made. *)
Inductive input_of_one (plan : ActionPlannerContext -> ResolvedTarget -> planning ExecutableActionPlan) : list (bytes * InputKind) -> Prop :=
| no_input : input_of_one plan []
| one_plan n target k p sent :
    matched n = Ok [target] -> m_open (world k) = true -> (plan (m_context (world k)) target newPlanner).1 = Ok p -> input_of_plan (world k) p sent -> input_of_one plan sent.

Lemma run_spec {A} (m : acting A) s : (run m s).2 = (m s).2 /\ (run m s).1 = match (m s).1 with Ok a => Ok a | Err e => Err (threw e) end.
Proof. unfold run. by destruct (m s) as [[] ?]. Qed.

(** Resolving sends nothing, and finds the only match of some moment. *)
Lemma silent_negotiation fuel deadline : silent (negotiation world now fuel deadline).
Proof.
  induction fuel as [|fuel IH]; cbn [negotiation]; [done|]. apply silent_bind; [auto with silent|]. intros late. apply silent_if; [done|].
  apply silent_bind; [auto with silent|]. intros _. apply silent_bind; [auto with silent|]. intros late'. apply silent_if; [done|].
  apply silent_bind; [auto with silent|]. intros m. by apply silent_if.
Qed.

Lemma silent_assertOpen : silent (assertOpen world).
Proof. intros s. unfold assertOpen, here, mbind, method_bind. by destruct (m_open _). Qed.
Lemma silent_select : silent (select matched).
Proof. done. Qed.

Lemma silent_resolving fuel deadline : silent (resolving world now matched fuel deadline).
Proof.
  induction fuel as [|fuel IH]; cbn [resolving]; [done|]. apply silent_bind; [apply silent_run, silent_assertOpen|]. intros _.
  apply silent_bind; [apply silent_run, silent_select|]. intros [target|]; [done|]. apply silent_bind; [auto with silent|]. intros late. apply silent_if; [done|].
  by apply silent_bind; [auto with silent|].
Qed.

Lemma silent_resolved fuel deadline : silent (resolved world now matched fuel deadline).
Proof.
  unfold resolved, resolve. apply silent_bind; [apply silent_run; unfold remaining; auto with silent|]. intros left.
  apply silent_bind; [apply silent_run, silent_assertOpen|]. intros _. apply silent_bind; [auto with silent|]. intros t.
  apply silent_bind; [|intros _; apply silent_resolving]. unfold awaitNegotiation. apply silent_bind; [auto with silent|]. intros m.
  apply silent_if; [apply silent_negotiation|done].
Qed.

Lemma acted_Ok {A} (m : acting A) s a s' : run m s = (Ok a, s') -> m s = (Ok a, s').
Proof. unfold run. destruct (m s) as [[] ?]; congruence. Qed.

Lemma resolving_Ok fuel deadline s t s' : resolving world now matched fuel deadline s = (Ok t, s') -> exists n, matched n = Ok [t].
Proof.
  revert s. induction fuel as [|fuel IH]; intros s; cbn [resolving]; [done|].
  intros (u & s1 & _ & H)%method_bind_Ok. apply method_bind_Ok in H as (selected & s2 & Hsel & H). apply acted_Ok in Hsel. unfold select in Hsel.
  destruct selected as [t'|].
  - injection H as -> _. exists (turn s1). by destruct (matched (turn s1)) as [[|? []]|]; simplify_eq/=.
  - apply method_bind_Ok in H as (late & s3 & _ & H). destruct late; [done|]. apply method_bind_Ok in H as (u' & s4 & _ & H). by eapply IH.
Qed.
Lemma resolved_Ok fuel deadline s t s' : resolved world now matched fuel deadline s = (Ok t, s') -> exists n, matched n = Ok [t].
Proof.
  unfold resolved, resolve. intros (left & s1 & _ & H)%method_bind_Ok. do 3 (apply method_bind_Ok in H as (? & ? & _ & H)). by eapply resolving_Ok.
Qed.

Lemma outcome_run {A} (m : acting A) s : outcome_of (run m) s = (Ok (m s).1, (m s).2).
Proof. unfold outcome_of, run. by destruct (m s) as [[] ?]. Qed.

Lemma adds_silent {E A} (m : method Run E A) s r s1 s' l : silent m -> m s = (r, s1) -> adds s1 s' l -> adds s s' l.
Proof. intros H E'. specialize (H s). rewrite E' in H. by apply adds_same. Qed.

Lemma attempts_spec fuel deadline plan s :
  match attempts world now unicode_lower unicode_upper locale_lower matched policy fuel deadline plan s with
  | (Ok (receipt, _), s') => exists n target k p after es, adds s s' (sent_of <$> es) /\ matched n = Ok [target] /\ m_open (world k) = true /\
      (plan (m_context (world k)) target newPlanner).1 = Ok p /\ encode (world k) (x_operations p) = Ok es /\ receipt = receipt_of p after
  | (Err _, s') => exists sent, adds s s' sent /\ input_of_one plan sent
  end.
Proof.
  revert s. induction fuel as [|fuel IH]; intros s; cbn [attempts]; [exists []; split; [by apply adds_nothing|constructor]|].
  unfold mbind at 1, method_bind at 1. pose proof (silent_resolved fuel deadline) as Hsil.
  destruct (resolved world now matched fuel deadline s) as [[target|e] s1] eqn:Er.
  2: { exists []. split; [|constructor]. specialize (Hsil s). rewrite Er in Hsil. by apply adds_nothing. }
  destruct (resolved_Ok _ _ _ _ _ Er) as [n Hn]. unfold mbind at 1, method_bind at 1. rewrite outcome_run.
  pose proof (attempt_spec deadline plan target s1) as H. cbv zeta in H.
  destruct (attempt _ _ _ _ _ _ deadline plan target s1) as [[receipt|e] s2]; cbn [fst snd].
  - destruct H as (p & after & es & Ha & H). exists n, target, (turn s1), p, after, es. split; [by eapply adds_silent|done].
  - destruct H as (sent & Ha & H). eapply adds_silent in Ha; [|done..]. unfold mbind, method_bind. pose proof (silent_retry fuel deadline e s2) as Hr.
    destruct (retry world now fuel deadline e s2) as [[[]|e'] s3] eqn:Ert; cbn in Hr.
    + destruct H as [->|[Hf _]]; [|unfold retry in Ert; rewrite Hf in Ert; done]. specialize (IH s3).
      assert (inputs s3 = inputs s) as Hi by (destruct Ha as (l & Hl & Hnil); apply fmap_nil_inv in Hnil as ->; by rewrite Hr, Hl, app_nil_r).
      destruct (attempts _ _ _ _ _ _ _ fuel deadline plan s3) as [[[receipt t']|e''] s4].
      * destruct IH as (n' & t & k & p & after & es & Hb & H). exists n', t, k, p, after, es. split; [by eapply adds_same|done].
      * destruct IH as (sent & Hb & H). exists sent. split; [by eapply adds_same|done].
    + exists sent. split; [by eapply adds_end|]. destruct H as [->|(_ & p & Ho & Hp & Hi)]; [constructor|by eapply one_plan].
Qed.

(** The input of a whole action, and the receipt it returns. *)
Definition sends_one (plan : ActionPlannerContext -> ResolvedTarget -> planning ExecutableActionPlan) (s : Run) (run : result Stopped ActionReceipt * Run) : Prop :=
  match run with
  | (Ok receipt, s') => exists n target k p after es, adds s s' (sent_of <$> es) /\ matched n = Ok [target] /\ m_open (world k) = true /\
      (plan (m_context (world k)) target newPlanner).1 = Ok p /\ encode (world k) (x_operations p) = Ok es /\ receipt = receipt_of p after
  | (Err _, s') => exists sent, adds s s' sent /\ input_of_one plan sent
  end.

Definition pointer_plan (actionId : jstring) (intent : ActionIntent) (options : PointerOptions) (ctx : ActionPlannerContext) (target : ResolvedTarget)
    : planning ExecutableActionPlan :=
  p ← planPointer ctx actionId (with_target intent target) target options; mret (pp_plan p).
Definition keyboard_plan (actionId : jstring) (intent : ActionIntent) (value : ExecutableValue) (ctx : ActionPlannerContext) (target : ResolvedTarget)
    : planning ExecutableActionPlan :=
  planKeyboard ctx actionId (with_target intent target) target value.

(** Attempts within a deadline set at the start, and what leaves the receipt and the
    input alone after them. *)
Lemma attempts_send_one fuel timeout plan (after : Z -> ActionReceipt * ResolvedTarget -> running ActionReceipt) s :
  (forall d x, silent (after d x)) ->
  (forall d p cp t s1 r s2, after d (receipt_of p cp, t) s1 = (Ok r, s2) -> exists cp', r = receipt_of p cp') ->
  sends_one plan s
    ((t ← run (read_clock now); x ← attempts world now unicode_lower unicode_upper locale_lower matched policy fuel (t + timeout) plan; after t x) s).
Proof.
  intros Hs Hd. unfold mbind, method_bind, run, read_clock, sends_one. set (s1 := {| turn := turn s |}).
  pose proof (attempts_spec fuel (now (readings s) + timeout) plan s1) as H.
  destruct (attempts _ _ _ _ _ _ _ fuel _ plan s1) as [[[receipt t]|e] s2]; [|exact H].
  destruct H as (n & target & k & p & cp & es & Ha & Hn & Ho & Hp & Hes & ->). specialize (Hs (now (readings s)) (receipt_of p cp, t) s2).
  destruct (after (now (readings s)) (receipt_of p cp, t) s2) as [[b|e] s3] eqn:Ea; cbn in Hs.
  - apply Hd in Ea as [cp' Ecp]. exists n, target, k, p, cp', es. split; [by eapply adds_end|done].
  - exists (sent_of <$> es). split; [by eapply adds_end|]. eapply one_plan; [done..|by constructor].
Qed.
Lemma pointer_sends_one fuel timeout actionId intent options s :
  sends_one (pointer_plan actionId intent options) s
    (plannedPointer world now unicode_lower unicode_upper locale_lower matched policy fuel timeout actionId intent options s).
Proof.
  refine (attempts_send_one fuel timeout (pointer_plan actionId intent options) (fun _ x => mret x.1) s _ _); [done|].
  intros d p cp t s1 b s2 [= <- <-]. by exists cp.
Qed.
Lemma keyboard_sends_one fuel timeout actionId intent value s :
  sends_one (keyboard_plan actionId intent value) s
    (plannedKeyboard world now unicode_lower unicode_upper locale_lower matched policy fuel timeout actionId intent value s).
Proof.
  refine (attempts_send_one fuel timeout (keyboard_plan actionId intent value) (fun _ x => mret x.1) s _ _); [done|].
  intros d p cp t s1 b s2 [= <- <-]. by exists cp.
Qed.

Lemma silent_node target : silent (node_now world target).
Proof. done. Qed.

Lemma silent_postcondition fuel deadline satisfied : silent (postcondition world now matched fuel deadline satisfied).
Proof.
  induction fuel as [|fuel IH]; cbn [postcondition]; [done|]. apply silent_bind; [apply silent_resolved|]. intros current.
  apply silent_bind; [apply silent_run, silent_node|]. intros node. apply silent_if; [done|]. apply silent_bind; [auto with silent|]. intros late.
  apply silent_if; [done|]. apply silent_bind; [auto with silent|]. intros _. apply silent_bind; [auto with silent|]. intros late'. by apply silent_if.
Qed.

(** Waiting for the effect sends nothing. *)
Lemma effect_sends_one fuel timeout actionId intent value checks satisfied s :
  (forall target, silent (checks target)) ->
  sends_one (keyboard_plan actionId intent value) s
    (with_effect world now unicode_lower unicode_upper locale_lower matched policy fuel timeout actionId intent value checks satisfied s).
Proof.
  intros Hc. refine (attempts_send_one fuel timeout (keyboard_plan actionId intent value) (fun t done => checked ← run (checks done.2);
    _ ← (if (checked : bool) && negb (bool_decide (operations (ActionModel.plan done.1) = [])) then postcondition world now matched fuel (t + timeout) satisfied else mret ());
    cp ← run (checkpoint_now world); mret (with_after done.1 cp)) s _ _).
  - intros d x. apply silent_bind; [by apply silent_run|]. intros checked. apply silent_bind; [apply silent_if; [apply silent_postcondition|done]|].
    intros _. auto with silent.
  - intros d p cp t s1 r s2 H. do 3 (apply method_bind_Ok in H as (? & ? & _ & H)). injection H as <- _. by eexists.
Qed.

(** *** Drag and wheel *)

(** What one try of [trying] does. *)
Definition tries_one (plan : ActionPlannerContext -> ResolvedTarget -> planning ExecutableActionPlan) (r : result Stopped ActionReceipt * Run) (s : Run) : Prop :=
  match r with
  | (Ok receipt, s') => sends_one plan s (Ok receipt, s')
  | (Err e, s') => exists sent, adds s s' sent /\ (sent = [] \/ ((forall a, e = threw a -> recoverable a = None) /\ input_of_one plan sent))
  end.

Lemma attempt_tries n deadline plan target s :
  matched n = Ok [target] ->
  tries_one plan (run (attempt world now unicode_lower unicode_upper locale_lower policy deadline plan target) s) s.
Proof.
  intros Hn. pose proof (attempt_spec deadline plan target s) as H. cbv zeta in H. unfold run. destruct (attempt _ _ _ _ _ _ deadline plan target s) as [[receipt|e] s'].
  - destruct H as (p & after & es & Ha & Ho & Hp & Hes & ->). exists n, target, (turn s), p, after, es. done.
  - destruct H as (sent & Ha & [->|(Hr & p & Ho & Hp & Hi)]); [exists []; split; [done|by left]|]. exists sent. split; [done|]. right. split; [by intros a [= <-]|by eapply one_plan].
Qed.

Lemma silent_tries {A} plan (m : running A) (k : A -> running ActionReceipt) s :
  silent m -> (forall a s1, m s = (Ok a, s1) -> tries_one plan (k a s1) s1) -> tries_one plan ((m ≫= k) s) s.
Proof.
  intros Hm Hk. unfold mbind, method_bind. specialize (Hm s). destruct (m s) as [[a|e] s1]; cbn in Hm.
  - specialize (Hk a s1 eq_refl). destruct (k a s1) as [[receipt|e] s2].
    + destruct Hk as (n & t & i & p & cp & es & Ha & H). exists n, t, i, p, cp, es. split; [by eapply adds_same|done].
    + destruct Hk as (sent & Ha & H). exists sent. split; [by eapply adds_same|done].
  - exists []. split; [by apply adds_nothing|by left].
Qed.

Lemma trying_sends_one plan fuel deadline body s :
  (forall fuel s, tries_one plan (body fuel s) s) -> sends_one plan s (trying world now fuel deadline body s).
Proof.
  intros Hb. revert s. induction fuel as [|fuel IH]; intros s; cbn [trying]; [exists []; split; [by apply adds_nothing|constructor]|].
  unfold mbind at 1, method_bind at 1, outcome_of. specialize (Hb fuel s). destruct (body fuel s) as [[receipt|[e|]] s1]; [exact Hb| |].
  - destruct Hb as (sent & Ha & H). unfold mbind, method_bind. pose proof (silent_retry fuel deadline e s1) as Hr.
    destruct (retry world now fuel deadline e s1) as [[[]|e'] s2] eqn:Er; cbn in Hr.
    + destruct H as [->|[Hf _]]; [|unfold retry in Er; rewrite (Hf e eq_refl) in Er; done]. specialize (IH s2).
      assert (inputs s2 = inputs s) as Hi by (destruct Ha as (l & Hl & Hnil); apply fmap_nil_inv in Hnil as ->; by rewrite Hr, Hl, app_nil_r).
      destruct (trying world now fuel deadline body s2) as [[receipt|e''] s3].
      * destruct IH as (n & t & k & p & after & es & Ha' & H). exists n, t, k, p, after, es. split; [by eapply adds_same|done].
      * destruct IH as (sent & Ha' & H). exists sent. split; [by eapply adds_same|done].
    + exists sent. split; [by eapply adds_end|]. destruct H as [->|[_ H]]; [constructor|done].
  - destruct Hb as (sent & Ha & H). exists sent. split; [done|]. destruct H as [->|[_ H]]; [constructor|done].
Qed.

Definition wheel_plan (actionId : jstring) (intent : ActionIntent) (options : PlannedWheelOptions) (ctx : ActionPlannerContext) (target : ResolvedTarget)
    : planning ExecutableActionPlan :=
  p ← planWheel ctx actionId (with_target intent target) target options; mret (pp_plan p).

Lemma wheel_sends_one fuel timeout actionId intent options s :
  sends_one (wheel_plan actionId intent options) s
    (wheel world now unicode_lower unicode_upper locale_lower matched policy fuel timeout actionId intent options s).
Proof.
  unfold wheel, mbind, method_bind, run, read_clock. set (s1 := {| turn := turn s |}).
  pose proof (trying_sends_one (wheel_plan actionId intent options) fuel (now (readings s) + timeout)
    (fun fuel => target ← resolved world now matched fuel (now (readings s) + timeout);
       run (attempt world now unicode_lower unicode_upper locale_lower policy (now (readings s) + timeout) (wheel_plan actionId intent options) target)) s1) as H.
  apply H. intros fuel' s2. apply silent_tries; [apply silent_resolved|]. intros target s3 [n Hn]%resolved_Ok. by eapply attempt_tries.
Qed.

(** C6 An action sends the input of one plan: all that a pointer or a keyboard action
    sends, through any number of attempts, is the input of a single plan for a
    target that was resolved, made and executed at the same moment, or nothing; an
    action that returns has sent all of it, and its receipt tells exactly that.  So
    it is for a turn of the wheel, and for the actions that wait for their effect:
    the wait sends nothing. *)
Theorem actions_send_one_plan fuel timeout actionId intent options value turns b s :
  sends_one (pointer_plan actionId intent options) s
    (plannedPointer world now unicode_lower unicode_upper locale_lower matched policy fuel timeout actionId intent options s) /\
  sends_one (keyboard_plan actionId intent value) s
    (plannedKeyboard world now unicode_lower unicode_upper locale_lower matched policy fuel timeout actionId intent value s) /\
  sends_one (wheel_plan actionId intent turns) s
    (wheel world now unicode_lower unicode_upper locale_lower matched policy fuel timeout actionId intent turns s) /\
  sends_one (keyboard_plan actionId intent value) s
    (fill world now unicode_lower unicode_upper locale_lower matched policy fuel timeout actionId intent value s) /\
  sends_one (keyboard_plan actionId intent (plain_value [])) s
    (focus world now unicode_lower unicode_upper locale_lower matched policy fuel timeout actionId intent s) /\
  sends_one (keyboard_plan actionId intent (plain_value [])) s
    (checkedAction world now unicode_lower unicode_upper locale_lower matched policy fuel timeout actionId intent b s).
Proof.
  split; [apply pointer_sends_one|]. split; [apply keyboard_sends_one|]. split; [apply wheel_sends_one|].
  split_and!; apply effect_sends_one; done.
Qed.

(** ** A click arrives where it was aimed *)

(** A report of the mouse at a cell. *)
Definition reports_at (m : Moment) (pt : Point) (i : bytes * InputKind) : Prop :=
  exists event data, i = (data, in_mouse) /\ Mouse.encodeMouse event (cx_modes (m_context m)) = Ok data /\
    Mouse.e_row event = pt_row pt /\ Mouse.e_column event = pt_column pt.

Lemma encoded_reports m pt ops es : encode m ops = Ok es -> Forall (mouse_at pt) ops -> Forall (reports_at m pt) (sent_of <$> es).
Proof.
  intros [Ho Hes]%encode_operations_spec Hops. subst ops. apply Forall_fmap, Forall_forall. intros [o data kind] Hin.
  rewrite Forall_forall in Hes. rewrite Forall_forall in Hops. specialize (Hes _ Hin) as He.
  assert (mouse_at pt o) as Hat by (apply Hops, list_elem_of_fmap; by exists (encoded o data kind)).
  cbn in He, Hat. destruct o as [k v|mo]; [done|]. cbn in He.
  destruct (Mouse.encodeMouse (mouse_event mo) _) as [d|] eqn:E; [|done]. injection He as <- <-. exists (mouse_event mo), d. split; [done|]. split; [done|].
  unfold mouse_event. by destruct (m_kind mo).
Qed.

Lemma holding_at pt es h : Forall (mouse_at pt) (operation_of <$> es) -> holding es = Some h -> h_row h = pt_row pt /\ h_column h = pt_column pt.
Proof.
  unfold holding. generalize (operation_of <$> es). intros ops Hops.
  assert (forall h0, (forall h, h0 = Some h -> h_row h = pt_row pt /\ h_column h = pt_column pt) ->
    foldl hold h0 ops = Some h -> h_row h = pt_row pt /\ h_column h = pt_column pt) as H; [|by apply H].
  induction Hops as [|o ops Ho Hops IH]; intros h0 H0; cbn; [apply H0|]. apply IH. intros h1 Hh1. destruct o as [k v|mo]; [done|]. cbn in Hh1, Ho.
  destruct (m_kind mo), h0 as [h2|]; simplify_eq/=; first [done|by apply H0].
Qed.

Lemma plan_reports m pt p sent : Forall (mouse_at pt) (x_operations p) -> input_of_plan m p sent -> Forall (reports_at m pt) sent.
Proof.
  intros Hops [es Hes|es1 x es2 m' l Hes Hc]; [by eapply encoded_reports|].
  pose proof (encoded_reports m pt _ _ Hes Hops) as Hall. rewrite fmap_app, Forall_app in Hall. destruct Hall as [H1 _].
  apply encode_operations_spec in Hes as [Ho _]. rewrite <- Ho, fmap_app, Forall_app in Hops. destruct Hops as [Hops _].
  destruct Hc as [Hh|h data Hh Hd|h Hh Hr|h e Hh He]; try exact H1. apply Forall_app. split; [exact H1|]. constructor; [|done].
  destruct (holding_at pt es1 h Hops Hh) as [Hrow Hcol]. by exists (release_event h), data.
Qed.

(** C5 A pointer action only ever reports cells of its target: whatever it sends are
    mouse reports at one cell, which a plan of the planner chose on the observation
    they were sent on, in an open session that is settled, has pointer input and
    asked for such reports; for a semantic target the cell is of the pointer region
    of the node, and its own. *)
Theorem pointer_actions_hit_target fuel timeout actionId intent options s :
  (forall n target k, matched n = Ok [target] -> sized (m_context (world k)) target) ->
  let '(_, s') := plannedPointer world now unicode_lower unicode_upper locale_lower matched policy fuel timeout actionId intent options s in
  exists sent, adds s s' sent /\
  (sent = [] \/ exists n target k pt,
     matched n = Ok [target] /\ m_open (world k) = true /\ Forall (reports_at (world k) pt) sent /\
     let ctx := m_context (world k) in
     actionObservationState ctx = settled /\ supports ctx "pointer-input" = true /\ mouseModeAllows (i_kind intent) (cx_modes ctx) = true /\
     if t_semantic target then owned_cell ctx (with_target intent target) target pt
     else t_revision target = os_screenRevision (cx_checkpoint ctx) /\
          exists r, t_rect target = Some r /\ covers r (pt_column pt) (pt_row pt)).
Proof.
  intros Hsized. pose proof (pointer_sends_one fuel timeout actionId intent options s) as H. unfold sends_one in H.
  assert (forall k target p sent n, matched n = Ok [target] -> m_open (world k) = true ->
    (pointer_plan actionId intent options (m_context (world k)) target newPlanner).1 = Ok p -> input_of_plan (world k) p sent -> exists pt,
     Forall (reports_at (world k) pt) sent /\
     let ctx := m_context (world k) in
     actionObservationState ctx = settled /\ supports ctx "pointer-input" = true /\ mouseModeAllows (i_kind intent) (cx_modes ctx) = true /\
     if t_semantic target then owned_cell ctx (with_target intent target) target pt
     else t_revision target = os_screenRevision (cx_checkpoint ctx) /\
          exists r, t_rect target = Some r /\ covers r (pt_column pt) (pt_row pt)) as Hplan.
  { intros k target p sent n Hn Ho Hp Hsent. unfold pointer_plan, mbind, method_bind in Hp.
    destruct (planPointer _ _ _ target options newPlanner) as [[a|e] s1] eqn:Ea; [|done]. injection Hp as <-. destruct (Hsized n target k Hn) as [Hr Ht].
    apply pointer_planned in Ea as (Hset & Hin & Hmode & Hat & Hcell); [|done..]. exists (pp_point a). split; [|done].
    eapply plan_reports; [|exact Hsent]. by destruct Hat as [_ _ [_ Hat _] _]. }
  destruct (plannedPointer _ _ _ _ _ _ _ _ _ _ _ _ s) as [[receipt|e] s'].
  - destruct H as (n & target & k & p & after & es & Ha & Hn & Ho & Hp & Hes & _). exists (sent_of <$> es). split; [done|]. right. exists n, target, k.
    destruct (Hplan k target p (sent_of <$> es) n) as (pt & H); [done..|by constructor|]. exists pt. by destruct H.
  - destruct H as (sent & Ha & Hone). exists sent. split; [done|]. destruct Hone as [|n target k p sent Hn Ho Hp Hs]; [by left|]. right. exists n, target, k.
    destruct (Hplan k target p sent n) as (pt & H); [done..|]. exists pt. by destruct H.
Qed.
End Action.

(** ** A click on the form *)

Module FormAction.
Definition world (_ : nat) : Moment := Interrupted.moment true pty_writable.
Definition now (k : nat) : Z := Z.of_nat k.
Definition locate (_ : nat) : result LocatorError (list ResolvedTarget) := Ok [Form.target].
Definition intent : ActionIntent := {| i_kind := a_click; i_selector := None; i_targetRef := None; i_via := None |}.
Definition clicked : result Stopped ActionReceipt * Run :=
  plannedPointer world now id id id locate policy_none 20 10 (js "1") intent no_options newRun.
End FormAction.

Lemma pointer_actions_hit_target_witness :
  let '(r, s') := FormAction.clicked in
  is_ok r = true /\ length (inputs s') = 2%nat /\
  exists sent, adds newRun s' sent /\
  (sent = [] \/ exists n target k pt,
     FormAction.locate n = Ok [target] /\ m_open (FormAction.world k) = true /\ Forall (reports_at (FormAction.world k) pt) sent /\
     let ctx := m_context (FormAction.world k) in
     actionObservationState ctx = settled /\ supports ctx "pointer-input" = true /\ mouseModeAllows a_click (cx_modes ctx) = true /\
     if t_semantic target then owned_cell ctx (with_target FormAction.intent target) target pt
     else t_revision target = os_screenRevision (cx_checkpoint ctx) /\
          exists r, t_rect target = Some r /\ covers r (pt_column pt) (pt_row pt)).
Proof.
  pose proof (pointer_actions_hit_target FormAction.world FormAction.now id id id FormAction.locate policy_none 20 10 (js "1") FormAction.intent no_options newRun) as H.
  assert (forall n target k, FormAction.locate n = Ok [target] -> sized (m_context (FormAction.world k)) target) as Hs
    by (intros n target k [= <-]; exact Form.sized_target).
  specialize (H Hs). fold FormAction.clicked in H. destruct FormAction.clicked as [r s'] eqn:E. vm_compute in E.
  split; [injection E as <- _; reflexivity|]. split; [injection E as _ <-; reflexivity|]. exact H.
Defined.

(** Under X10 tracking a click is planned, and called possible, although the release
    it ends with cannot be reported: executing it is refused before any input. *)
Module X10.
Definition context : ActionPlannerContext :=
  let c := Form.context in
  {| actionObservationState := settled; cx_checkpoint := Form.stamp; cx_contract := cx_contract c;
     cx_modes := {| Mouse.mouseTracking := Mouse.t_x10; Mouse.mouseEncoding := Mouse.e_sgr |};
     semanticNode := semanticNode c; hitGrid := hitGrid c; pointerRegion := pointerRegion c;
     screenRegionUnchangedSince := screenRegionUnchangedSince c; screenRegionChangeSince := None; screenRows := None |}.
Definition world (_ : nat) : Moment :=
  {| m_context := context; m_keyModes := m_keyModes (FormAction.world 0); m_bracketedPaste := false; m_open := true; m_failed := false;
     m_exited := false; m_negotiating := false; m_caughtUp := true; m_drains := true; m_pty := pty_writable |}.
End X10.
Example x10_click_is_planned_but_refused :
  match explain X10.context (Form.intent a_click) Form.target no_options [] newPlanner with (Ok x, _) => actionable x = true | _ => False end /\
  let '(r, s') := plannedPointer X10.world FormAction.now id id id FormAction.locate policy_none 20 10 (js "1") FormAction.intent no_options newRun in
  r = Err (threw (mouse_refused Mouse.input_mode_disabled)) /\ inputs s' = [].
Proof. split; vm_compute; [reflexivity|split; reflexivity]. Qed.
