(* ===== verification/ActionEnds.v ===== *)
(** * Every action ends

    Whatever the session does, an action of a locator returns or throws: each of its
    loops reads the clock, and goes on only before its deadline.  The deadline of a
    resolution is reckoned from what is left of the action's when it starts. *)

From S2P Require Import Prelude JsText Tree ArtifactSafety ActionModel ActionPlanner PlannerTheorems DeviceExecutor ExecutorTheorems ActionRun ActionTheorems.
From S2P Require Mouse.

Local Open Scope Z_scope.

(** A run that returned or threw: it neither ran out of fuel nor awaits what never
    settles. *)
Definition ended {A} (r : result Stopped A * Run) : Prop := r.1 <> Err out_of_fuel /\ r.1 <> Err (threw stuck).

(** It ended, at some readings of the clock, which are fewer when it returned. *)
Definition stops {A} (lo hi ok : nat) (r : result Stopped A * Run) : Prop :=
  ended r /\ (lo <= readings r.2 <= hi)%nat /\ (is_ok r.1 = true -> (readings r.2 <= ok)%nat).

Lemma stops_weaken {A} lo lo' hi hi' ok ok' (r : result Stopped A * Run) :
  (lo <= lo')%nat -> (hi' <= hi)%nat -> (ok' <= ok)%nat -> stops lo' hi' ok' r -> stops lo hi ok r.
Proof. intros Hl Hh Ho (He & Hr & Hok). split; [done|]. split; [lia|]. intros H. specialize (Hok H). lia. Qed.

Lemma stops_bind {A B} lo hi ok hi' ok' (m : running A) (k : A -> running B) s :
  stops lo hi ok (m s) -> (hi <= hi')%nat ->
  (forall a s1, m s = (Ok a, s1) -> (lo <= readings s1 <= ok)%nat -> stops (readings s1) hi' ok' (k a s1)) -> stops lo hi' ok' ((m ≫= k) s).
Proof.
  intros ([He1 He2] & Hr & Hok) Hh Hk. unfold mbind, method_bind. destruct (m s) as [[a|e] s1] eqn:E; cbn in *.
  - specialize (Hok eq_refl). eapply (stops_weaken _ (readings s1)); [..|apply Hk]; done || lia.
  - split; [unfold ended; cbn; split; congruence|]. split; [cbn; lia|done].
Qed.

(** A method of some readings of the clock that does not get stuck. *)
Definition tame {A} (n : nat) (m : acting A) : Prop :=
  forall s, (readings s <= readings (m s).2 <= readings s + n)%nat /\ (m s).1 <> Err stuck.

Lemma tame_ret {A} (a : A) : tame 0 (mret a).
Proof. intros s. split; [cbn; lia|done]. Qed.
Lemma tame_throw {A} e : e <> stuck -> tame (A:=A) 0 (throw e).
Proof. intros He s. split; [cbn; lia|]. cbn. congruence. Qed.
Lemma tame_weaken {A} n n' (m : acting A) : (n <= n')%nat -> tame n m -> tame n' m.
Proof. intros Hn H s. destruct (H s). split; [lia|done]. Qed.
Lemma tame_bind {A B} n n' (m : acting A) (k : A -> acting B) : tame n m -> (forall a, tame n' (k a)) -> tame (n + n') (m ≫= k).
Proof.
  intros Hm Hk s. destruct (Hm s) as [Hr He]. unfold mbind, method_bind. destruct (m s) as [[a|e] s1]; cbn in *.
  - destruct (Hk a s1) as [Hr' He']. split; [lia|done].
  - split; [lia|congruence].
Qed.
(** The same at one state, for what the state decides. *)
Lemma tame_at_bind {A B} n n' (m : acting A) (k : A -> acting B) s :
  tame n m ->
  (forall a s1, m s = (Ok a, s1) -> (readings s1 <= readings (k a s1).2 <= readings s1 + n')%nat /\ (k a s1).1 <> Err stuck) ->
  (readings s <= readings ((m ≫= k) s).2 <= readings s + (n + n'))%nat /\ ((m ≫= k) s).1 <> Err stuck.
Proof.
  intros Hm Hk. destruct (Hm s) as [Hr He]. unfold mbind, method_bind. destruct (m s) as [[a|e] s1]; cbn in *.
  - destruct (Hk a s1 eq_refl) as [Hr' He']. split; [lia|done].
  - split; [lia|congruence].
Qed.
Lemma tame_if {A} n (b : bool) (m1 m2 : acting A) : tame n m1 -> tame n m2 -> tame n (if b then m1 else m2).
Proof. by destruct b. Qed.

Create HintDb tame.
#[export] Hint Resolve tame_ret tame_if : tame.
#[export] Hint Extern 1 (tame 0 (throw _)) => (apply tame_throw; discriminate) : tame.
#[export] Hint Extern 1 (tame 0 (here _)) => (intros ?; split; [cbn; lia|done]) : tame.
#[export] Hint Extern 1 (tame 0 await) => (intros ?; split; [cbn; lia|done]) : tame.
#[export] Hint Extern 1 (tame 0 (admit_input _)) => (intros ?; split; [cbn; lia|done]) : tame.
#[export] Hint Extern 1 (tame 0 (report_wait _)) => (intros ?; split; [cbn; lia|done]) : tame.
#[export] Hint Extern 1 (tame 0 take_stale_retry) => (intros ?; split; [cbn; lia|done]) : tame.
#[export] Hint Extern 1 (tame 1 (read_clock _)) => (intros ?; split; [cbn; lia|done]) : tame.
#[export] Hint Extern 2 (tame 0 (_ ≫= _)) => (apply (tame_bind 0 0)) : tame.
#[export] Hint Extern 2 (tame 1 (read_clock _ ≫= _)) => (apply (tame_bind 1 0)) : tame.

(** ** Executing a plan *)

Section Ends.
Context (world : nat -> Moment) (now : nat -> Z) (unicode_lower unicode_upper locale_lower : jstring -> jstring).
Context (matched destination_matched : nat -> result LocatorError (list ResolvedTarget)) (policy : ArtifactValuePolicy).

Lemma tame_checkpoint : tame 0 (checkpoint_now world).
Proof. unfold checkpoint_now. auto 9 with tame. Qed.
Lemma tame_assertBefore deadline : tame 1 (assertBeforeActionInput now deadline).
Proof. unfold assertBeforeActionInput. auto 9 with tame. Qed.
Lemma tame_assertOpen : tame 0 (assertOpen world).
Proof. unfold assertOpen. auto 9 with tame. Qed.
Lemma tame_select m : tame 0 (select m).
Proof.
  intros s. unfold select. cbn. split; [lia|]. destruct (m (turn s)) as [[|? [|]]|e]; try done. by destruct e.
Qed.
Lemma tame_node target : tame 0 (node_now world target).
Proof. unfold node_now. auto 9 with tame. Qed.

(** Every drain of the parser settles. *)
Section Drains.
Hypothesis drains : forall k, m_caughtUp (world k) = true \/ m_drains (world k) = true.

Lemma tame_sendInput data kind : tame 0 (sendInput world data kind).
Proof.
  assert (tame 0 (assert_accepting world)) as Ha by (unfold assert_accepting; auto 12 with tame).
  intros s. unfold sendInput. refine (tame_at_bind 0 0 _ _ _ Ha _). intros m s1 Hs. pose proof (accepting_spec world s) as H. rewrite Hs in H. destruct H as [-> ->].
  assert (tame 0 (if m_caughtUp (world (turn s)) then mret (world (turn s)) else _ ← drain (world (turn s)); assert_accepting world)) as Hd.
  { unfold drain. destruct (drains (turn s)) as [-> | ->]; [auto with tame|]. auto 9 with tame. }
  refine (tame_bind 0 0 _ _ Hd _ s). intros m. destruct (m_pty m); auto 9 with tame.
Qed.

Lemma operations_stop deadline started held es s :
  match send_operations world now deadline started held es s with
  | (Ok _, s') => (readings s <= readings s' <= readings s + (if started then 0 else 1))%nat
  | (Err (e, _), s') => (readings s <= readings s' <= readings s + (if started then 0 else 1))%nat /\ e <> stuck
  end.
Proof.
  revert started held s. induction es as [|[o data kind] es IH]; intros started held s; cbn [send_operations]; [cbn; lia|].
  unfold mbind at 1, method_bind at 1.
  assert (tame (if started then 0 else 1) (match deadline with Some d => if started then mret () else assertBeforeActionInput now d | None => mret () end)) as H1.
  { destruct deadline; [destruct started; [auto with tame|apply tame_assertBefore]|]. eapply tame_weaken; [|apply tame_ret]. destruct started; lia. }
  destruct (H1 s) as [Hr He]. destruct ((match deadline with Some d => if started then mret () else assertBeforeActionInput now d | None => mret () end : acting ()) s)
    as [[[]|e] s1]; cbn in Hr, He; [|split; [lia|congruence]].
  unfold mbind, method_bind. destruct (tame_sendInput data kind s1) as [Hr' He']. destruct (sendInput world data kind s1) as [[[]|e] s2]; cbn in Hr', He'; [|split; [lia|congruence]].
  specialize (IH true (hold held o) s2). cbn in IH. destruct (send_operations _ _ _ _ _ es s2) as [[[]|[e h]] s3]; [lia|]. destruct IH. split; [lia|done].
Qed.

Lemma tame_send modes deadline es : tame 1 (send_or_release world now modes deadline es).
Proof.
  intros s. unfold send_or_release. pose proof (operations_stop deadline false None es s) as H.
  destruct (send_operations _ _ _ _ _ es s) as [[[]|[e h]] s1]; cbn in H; [split; [cbn; lia|done]|]. destruct H as [Hr Hne].
  assert (tame 0 (_ ← release_held world modes h; (throw e : acting ()))) as Ht.
  { apply (tame_bind 0 0); [|intros _; by apply tame_throw]. unfold release_held. destruct h as [h|]; [|auto with tame].
    destruct (Mouse.encodeMouse _ _) as [data|]; [|auto with tame]. intros s2. unfold catch. destruct (tame_sendInput data in_mouse s2) as [Hr2 He2].
    destruct (sendInput world data in_mouse s2) as [[[]|e'] s3]; cbn in *; [done|]. destruct e'; done. }
  destruct (Ht s1) as [Hr1 He1]. 
  destruct e; try done; (refine (conj _ He1); split; [exact (Nat.le_trans _ _ _ (proj1 Hr) (proj1 Hr1))|etransitivity; [exact (proj2 Hr1)|lia]]).
Qed.

Lemma tame_attempt deadline plan target : tame 4 (attempt world now unicode_lower unicode_upper locale_lower policy deadline plan target).
Proof.
  unfold attempt. apply (tame_bind 0 4).
  { unfold planned_now. apply (tame_bind 0 0); [auto with tame|]. intros m. apply tame_if; [|auto with tame]. destruct (_.1); auto with tame. }
  intros p. apply (tame_bind 1 3); [apply tame_assertBefore|]. intros _. unfold executePlan. apply (tame_bind 1 2); [apply tame_assertBefore|]. intros _.
  apply (tame_bind 2 0).
  - unfold executeDeviceOperations. apply (tame_bind 1 1); [apply tame_assertBefore|]. intros _. apply (tame_bind 0 1); [apply tame_checkpoint|]. intros cp.
    apply tame_if; [apply (tame_weaken 0 1); [lia|auto with tame]|]. apply (tame_bind 0 1); [auto with tame|]. intros m. apply (tame_bind 0 1).
    + intros s. unfold lift. cbn. split; [lia|]. generalize (x_operations p). intros ops. clear. induction ops as [|o ops IH]; cbn [encode_operations]; [done|].
      assert (encode_operation unicode_lower unicode_upper locale_lower m o <> Err stuck) as Ho by (destruct o as [[] |]; cbn; try destruct (Keys.encodeKeys _ _ _ _); try destruct (Mouse.encodeMouse _ _); done).
      destruct (encode_operation _ _ _ m o) as [e|e]; [|cbn; congruence]. cbn. by destruct (encode_operations _ _ _ m ops).
    + intros es. apply (tame_bind 1 0); [apply tame_send|auto with tame].
  - intros ex. apply (tame_bind 0 0); [apply tame_checkpoint|auto with tame].
Qed.
End Drains.

(** ** The loops up to a deadline *)

(** [stops] from the state a method is run in. *)
#[local] Abbreviation halts hi ok m s := (stops (readings s) hi ok (m s)).

Lemma halts_threw {A} hi ok e s : e <> stuck -> (readings s <= hi)%nat -> halts hi ok (throw (threw e) : running A) s.
Proof. intros He H. split; [unfold ended; cbn; split; congruence|]. split; [cbn; lia|done]. Qed.
Lemma halts_ret {A} hi ok (a : A) s : (readings s <= hi)%nat -> (readings s <= ok)%nat -> halts hi ok (mret a : running A) s.
Proof. intros H Ho. split; [done|]. by split; [cbn; lia|]. Qed.

Lemma halts_run {A} n hi ok (m : acting A) s : tame n m -> (readings s + n <= hi)%nat -> (readings s + n <= ok)%nat -> halts hi ok (run m) s.
Proof.
  intros H Hh Ho. destruct (H s) as [Hr He]. unfold stops, ended, run. destruct (m s) as [[a|e] s1]; cbn in *; (split; [split|split]); try lia; congruence.
Qed.
Lemma halts_bind {A B} n hi ok (m : acting A) (k : A -> running B) s :
  tame n m -> (readings s + n <= hi)%nat ->
  (forall a s1, run m s = (Ok a, s1) -> (readings s <= readings s1 <= readings s + n)%nat -> halts hi ok (k a) s1) -> halts hi ok (run m ≫= k) s.
Proof. intros Ht Hh Hk. apply (stops_bind _ (readings s + n) (readings s + n)); [by eapply halts_run|done|]. intros a s1 E Hr. by apply Hk. Qed.

Section Deadline.
Context (deadline : Z) (N : nat).
(** The readings from [N] on are past the deadline. *)
Hypothesis past : forall n, (N <= n)%nat -> deadline <= now n.

(** The state after a reading. *)
Definition ticked (s : Run) : Run :=
  {| turn := turn s; readings := S (readings s); inputs := inputs s; waits := waits s; staleRetries := staleRetries s |}.
Lemma expired_run s : run (expired now deadline) s = (Ok (deadline <=? now (readings s)), ticked s).
Proof. done. Qed.
Lemma before_N s : now (readings s) < deadline -> (readings (ticked s) <= N)%nat.
Proof. intros H. destruct (decide (N <= readings s)%nat) as [Hn|Hn]; [specialize (past _ Hn); lia|cbn; lia]. Qed.

(** One reading, which was before [N] if it was not late. *)
Lemma unless_late {A} hi ok (m1 m2 : running A) s :
  (S (readings s) <= hi)%nat ->
  (forall s1, readings s1 = S (readings s) -> halts hi ok m1 s1) ->
  (forall s1, readings s1 = S (readings s) -> (readings s1 <= N)%nat -> halts hi ok m2 s1) ->
  halts hi ok (late ← run (expired now deadline); if (late : bool) then m1 else m2) s.
Proof.
  intros Hh H1 H2. unfold mbind, method_bind. rewrite expired_run. destruct (Z.leb_spec deadline (now (readings s))) as [Hl|Hl].
  - eapply (stops_weaken _ (readings (ticked s))); [..|by apply (H1 (ticked s))]; cbn; lia.
  - eapply (stops_weaken _ (readings (ticked s))); [..|apply (H2 (ticked s)); [done|by apply before_N]]; cbn; lia.
Qed.

(** The waiting loop: it comes back before [N]. *)
Lemma wait_halts fuel e f x failedAt settlement reported s :
  e <> stuck -> (readings s <= N)%nat -> (N - readings s < fuel)%nat ->
  halts (S N) N (wait_for_observation world now fuel deadline e f x failedAt settlement reported) s.
Proof.
  intros He. revert settlement reported s. induction fuel as [|fuel IH]; intros settlement reported s Hs Hf; [lia|]. cbn [wait_for_observation]. cbv zeta.
  apply (halts_bind 0); [auto with tame|lia|]. intros m s1 _ H1. apply (halts_bind 0); [auto with tame|lia|]. intros _ s2 _ H2.
  apply (halts_bind 0); [apply tame_if; [auto with tame|apply (tame_bind 0 0); [apply tame_checkpoint|auto with tame]]|lia|]. intros ready s3 _ H3.
  destruct ready; [apply halts_ret; lia|]. apply (halts_bind 0); [auto with tame|lia|]. intros _ s4 _ H4.
  apply unless_late; [lia|intros s5 H5; apply halts_threw; [done|lia]|]. intros s5 H5 Hn. apply IH; lia.
Qed.

(** A retry that lets the action go on comes back before [N], after a reading. *)
Lemma retry_halts fuel e s :
  e <> stuck -> (N < fuel)%nat ->
  halts (S (Nat.max (readings s) N)) N (retry world now fuel deadline e) s /\
  forall u s', retry world now fuel deadline e s = (Ok u, s') -> (readings s < readings s')%nat.
Proof.
  intros He Hf. unfold retry. destruct (recoverable e) as [[f x]|]; [|split; [apply halts_threw; [done|lia]|done]].
  assert (forall s1, readings s1 = S (readings s) -> (readings s1 <= N)%nat ->
    halts (S (Nat.max (readings s) N)) N (again ← run (if bool_decide (f = StaleSnapshot) then n ← take_stale_retry; mret (n =? 0)%nat else mret false);
      if (again : bool) then mret ()
      else failedAt ← run (match x with Some x => mret (ae_checkpoint x) | None => checkpoint_now world end);
           wait_for_observation world now fuel deadline e f x failedAt (is_pending f) false) s1) as H.
  { intros s1 H1 Hn. apply (halts_bind 0); [auto with tame|lia|]. intros again s2 _ H2. destruct again; [apply halts_ret; lia|].
    apply (halts_bind 0); [destruct x; [auto with tame|apply tame_checkpoint]|lia|]. intros failedAt s3 _ H3.
    eapply stops_weaken; [..|apply wait_halts]; try done; lia. }
  split; [apply unless_late; [lia|intros s1 H1; apply halts_threw; [done|lia]|exact H]|].
  intros u s'. unfold mbind at 1, method_bind at 1. rewrite expired_run. destruct (Z.leb_spec deadline (now (readings s))) as [Hl|Hl]; [done|].
  destruct (H (ticked s)) as (_ & Hr & _); [done|by apply before_N|]. intros E. rewrite E in Hr. cbn in Hr. lia.
Qed.

(** *** Resolving *)

Lemma negotiation_halts fuel s : (N < readings s + fuel)%nat -> (0 < fuel)%nat -> halts (S (S (Nat.max (readings s) N))) (Nat.max (readings s) N) (negotiation world now fuel deadline) s.
Proof.
  revert s. induction fuel as [|fuel IH]; intros s Hn Hf; [lia|]. cbn [negotiation].
  apply unless_late; [lia|intros s1 H1; apply halts_threw; [done|lia]|]. intros s1 H1 N1. apply (halts_bind 0); [auto with tame|lia|]. intros _ s2 _ H2.
  apply unless_late; [lia|intros s3 H3; apply halts_threw; [done|lia]|]. intros s3 H3 N3. apply (halts_bind 0); [auto with tame|lia|]. intros m s4 _ H4.
  destruct (m_negotiating m); [|apply halts_ret; lia]. eapply stops_weaken; [..|apply IH]; lia.
Qed.

Lemma resolving_halts found fuel s :
  (N < readings s + fuel)%nat -> (0 < fuel)%nat -> halts (S (Nat.max (readings s) N)) (Nat.max (readings s) N) (resolving world now found fuel deadline) s.
Proof.
  revert s. induction fuel as [|fuel IH]; intros s Hn Hf; [lia|]. cbn [resolving]. apply (halts_bind 0); [apply tame_assertOpen|lia|]. intros _ s1 _ H1.
  apply (halts_bind 0); [apply tame_select|lia|]. intros [target|] s2 _ H2; [apply halts_ret; lia|].
  apply unless_late; [lia|intros s3 H3; apply halts_threw; [done|lia]|]. intros s3 H3 N3. apply (halts_bind 0); [auto with tame|lia|]. intros _ s4 _ H4.
  eapply stops_weaken; [..|apply IH]; lia.
Qed.
End Deadline.

(** ** Under a clock that goes on *)

(** The clock never goes back, and passes every moment. *)
Section Clock.
Hypothesis steady : forall i j, (i <= j)%nat -> now i <= now j.
Hypothesis passes : forall t, exists n, t <= now n.

Lemma past_of t : exists N, forall n, (N <= n)%nat -> t <= now n.
Proof. destruct (passes t) as [N H]. exists N. intros n Hn. specialize (steady N n Hn). lia. Qed.

(** With enough fuel, a run that starts at one of the first [b] readings ends, at one
    of the first [F]. *)
Definition halting {A} (m : nat -> running A) : Prop :=
  forall b, exists F, forall fuel s, (F <= fuel)%nat -> (readings s <= b)%nat -> halts F F (m fuel) s.

Lemma resolved_halting found deadline : halting (fun fuel => resolved world now found fuel deadline).
Proof.
  intros b. destruct (past_of (now (S b) + Z.max 0 (deadline - now 0%nat))) as [N HN]. exists (b + N + 6)%nat. intros fuel s Hf Hb.
  unfold resolved, resolve. apply (halts_bind 1); [unfold remaining; auto with tame|lia|]. intros left s1 E1 H1.
  assert (left = Z.max 0 (deadline - now (readings s))) as -> by (unfold run, remaining, read_clock, mbind, method_bind in E1; cbn in E1; congruence). clear E1.
  apply (halts_bind 0); [apply tame_assertOpen|lia|]. intros _ s2 _ H2. apply (halts_bind 1); [auto with tame|lia|]. intros t s3 E3 H3.
  assert (t = now (readings s2)) as -> by (unfold run, read_clock in E3; cbn in E3; congruence). clear E3.
  assert (forall n, (N <= n)%nat -> now (readings s2) + Z.max 0 (deadline - now (readings s)) <= now n) as Hpast.
  { intros n Hn. specialize (HN n Hn). pose proof (steady (readings s2) (S b) ltac:(lia)). pose proof (steady 0 (readings s) ltac:(lia)). lia. }
  eapply (stops_bind _ (S (S (Nat.max (readings s3) N))) (Nat.max (readings s3) N)); [|lia|].
  - unfold awaitNegotiation. apply (halts_bind 0); [auto with tame|lia|]. intros m s4 _ H4. destruct (m_negotiating m); [|apply halts_ret; lia].
    eapply stops_weaken; [..|eapply (negotiation_halts _ N Hpast)]; lia.
  - intros _ s4 _ H4. eapply stops_weaken; [..|eapply (resolving_halts _ N Hpast)]; lia.
Qed.

Section Loops.
Hypothesis drains : forall k, m_caughtUp (world k) = true \/ m_drains (world k) = true.

(** The errors of a run that ended are not [stuck]. *)
Lemma outcome_halts {A B} hi ok hi' ok' (m : running A) (k : result ActionError A -> running B) s :
  halts hi ok m s -> (hi <= hi')%nat ->
  (forall r s1, (forall e, r = Err e -> e <> stuck) -> (readings s <= readings s1 <= hi)%nat -> halts hi' ok' (k r) s1) ->
  halts hi' ok' (outcome_of m ≫= k) s.
Proof.
  intros ([He1 He2] & Hr & Hok) Hh Hk. unfold mbind, method_bind, outcome_of. destruct (m s) as [[a|[e|]] s1]; cbn in *; [..|done].
  - eapply (stops_weaken _ (readings s1)); [..|apply (Hk (Ok a))]; try done; lia.
  - eapply (stops_weaken _ (readings s1)); [..|apply (Hk (Err e))]; try done; try lia. intros e' [= <-]. congruence.
Qed.

(** What follows an attempt that failed: the loop goes on from before [N], or ends. *)
Lemma retrying {A} deadline N B F (loop : running A) fuel e s :
  (forall n, (N <= n)%nat -> deadline <= now n) -> e <> stuck -> (N < fuel)%nat -> (readings s <= F)%nat ->
  (forall s1, (readings s < readings s1)%nat -> (readings s1 <= N)%nat -> halts (F + N + 2) B loop s1) ->
  halts (F + N + 2) B (_ ← retry world now fuel deadline e; loop) s.
Proof.
  intros Hpast He Hf Hs Hl. destruct (retry_halts deadline N Hpast fuel e s He Hf) as [Hr Hlt].
  eapply stops_bind; [exact Hr|lia|]. intros u s1 E H1. apply Hl; [by eapply Hlt|lia].
Qed.

Lemma attempts_halting deadline plan :
  halting (fun fuel => attempts world now unicode_lower unicode_upper locale_lower matched policy fuel deadline plan).
Proof.
  intros b. destruct (past_of deadline) as [N HN]. destruct (resolved_halting matched deadline (Nat.max b N)) as [Fr HFr].
  set (F := (Fr + 4 + N + 2)%nat).
  assert (forall fuel s, (readings s <= Nat.max b N)%nat -> (F + Nat.max b N + 2 <= readings s + fuel)%nat ->
    halts F F (attempts world now unicode_lower unicode_upper locale_lower matched policy fuel deadline plan) s) as H.
  { induction fuel as [|fuel IH]; intros s Hs Hf; [lia|]. cbn [attempts].
    eapply stops_bind; [apply HFr; lia|lia|]. intros target s1 _ H1.
    eapply (outcome_halts (Fr + 4) (Fr + 4)); [eapply (halts_run 4); [by apply tame_attempt|lia|lia]|lia|]. intros [receipt|e] s2 He H2; [apply halts_ret; lia|].
    apply (retrying deadline N F (Fr + 4)); [done|by apply He|lia|lia|]. intros s3 H3 H3'. apply IH; lia. }
  exists (F + Nat.max b N + 2)%nat. intros fuel s Hf Hs. eapply stops_weaken; [..|apply H]; lia.
Qed.

Lemma trying_halting deadline body : halting body -> halting (fun fuel => trying world now fuel deadline body).
Proof.
  intros Hb b. destruct (past_of deadline) as [N HN]. destruct (Hb (Nat.max b N)) as [Fb HFb]. set (F := (Fb + N + 2)%nat).
  assert (forall fuel s, (readings s <= Nat.max b N)%nat -> (F + Nat.max b N + 2 <= readings s + fuel)%nat -> halts F F (trying world now fuel deadline body) s) as H.
  { induction fuel as [|fuel IH]; intros s Hs Hf; [lia|]. cbn [trying].
    eapply outcome_halts; [apply HFb; lia|lia|]. intros [receipt|e] s2 He H2; [apply halts_ret; lia|].
    apply (retrying deadline N F Fb); [done|by apply He|lia|lia|]. intros s3 H3 H3'. apply IH; lia. }
  exists (F + Nat.max b N + 2)%nat. intros fuel s Hf Hs. eapply stops_weaken; [..|apply H]; lia.
Qed.

Lemma postcondition_halting deadline satisfied : halting (fun fuel => postcondition world now matched fuel deadline satisfied).
Proof.
  intros b. destruct (past_of deadline) as [N HN]. destruct (resolved_halting matched deadline (Nat.max b N)) as [Fr HFr]. set (F := (Fr + N + 2)%nat).
  assert (forall fuel s, (readings s <= Nat.max b N)%nat -> (F + Nat.max b N + 2 <= readings s + fuel)%nat ->
    halts F F (postcondition world now matched fuel deadline satisfied) s) as H.
  { induction fuel as [|fuel IH]; intros s Hs Hf; [lia|]. cbn [postcondition].
    eapply stops_bind; [apply HFr; lia|lia|]. intros current s1 _ H1. apply (halts_bind 0); [apply tame_node|lia|]. intros node s2 _ H2.
    destruct (match node with Some n => satisfied n | None => false end); [apply halts_ret; lia|].
    apply (unless_late deadline N HN); [lia|intros s3 H3; apply halts_threw; [done|lia]|]. intros s3 H3 _. apply (halts_bind 0); [auto with tame|lia|]. intros _ s4 _ H4.
    apply (unless_late deadline N HN); [lia|intros s5 H5; apply halts_threw; [done|lia]|]. intros s5 H5 N5. apply IH; lia. }
  exists (F + Nat.max b N + 2)%nat. intros fuel s Hf Hs. eapply stops_weaken; [..|apply H]; lia.
Qed.

Lemma halting_bind {A B} (m : nat -> running A) (k : A -> nat -> running B) :
  halting m -> (forall b, exists F, forall a fuel s, (F <= fuel)%nat -> (readings s <= b)%nat -> halts F F (k a fuel) s) -> halting (fun fuel => m fuel ≫= fun a => k a fuel).
Proof.
  intros Hm Hk b. destruct (Hm b) as [F1 H1]. destruct (Hk F1) as [F2 H2]. exists (Nat.max F1 F2). intros fuel s Hf Hs.
  eapply stops_bind; [apply H1; lia|lia|]. intros a s1 _ Hs1. eapply stops_weaken; [..|apply H2]; lia.
Qed.
Lemma halting_run {A} n (m : acting A) : tame n m -> halting (fun _ => run m).
Proof. intros H b. exists (b + n)%nat. intros fuel s Hf Hs. eapply halts_run; [done|lia|lia]. Qed.

Lemma effect_halting actionId intent value checks satisfied deadline :
  (forall target, tame 0 (checks target)) ->
  halting (fun fuel => done ← keyboard_attempts world now unicode_lower unicode_upper locale_lower matched policy fuel deadline actionId intent value;
    checked ← run (checks done.2);
    _ ← (if (checked : bool) && negb (bool_decide (operations (ActionModel.plan done.1) = [])) then postcondition world now matched fuel deadline satisfied else mret ());
    cp ← run (checkpoint_now world);
    mret (with_after done.1 cp)).
Proof.
  intros Hc. apply halting_bind; [apply attempts_halting|]. intros b. destruct (postcondition_halting deadline satisfied b) as [F HF].
  exists (F + b)%nat. intros [receipt target] fuel s Hf Hs. apply (halts_bind 0); [apply Hc|lia|]. intros checked s1 _ H1.
  apply (stops_bind _ (F + b) (F + b)); [destruct (_ && _); [eapply stops_weaken; [..|apply HF]; lia|apply halts_ret; lia]|lia|]. intros _ s2 _ H2.
  apply (halts_bind 0); [apply tame_checkpoint|lia|]. intros cp s3 _ H3. apply halts_ret; lia.
Qed.

(** The body of a wheel, and that of a drag. *)
Lemma one_target_halting d plan :
  halting (fun fuel => target ← resolved world now matched fuel d; run (attempt world now unicode_lower unicode_upper locale_lower policy d plan target)).
Proof.
  apply (halting_bind _ (fun target _ => run (attempt world now unicode_lower unicode_upper locale_lower policy d plan target))); [apply resolved_halting|].
  intros b. exists (b + 4)%nat. intros target fuel s _ Hs. eapply (halts_run 4); [by apply tame_attempt|lia|lia].
Qed.
Lemma two_targets_halting d (plan : ResolvedTarget -> ActionPlannerContext -> ResolvedTarget -> planning ExecutableActionPlan) :
  halting (fun fuel => source ← resolved world now matched fuel d; destination ← resolved world now destination_matched fuel d;
    run (attempt world now unicode_lower unicode_upper locale_lower policy d (plan destination) source)).
Proof.
  apply (halting_bind _ (fun source fuel => destination ← resolved world now destination_matched fuel d;
    run (attempt world now unicode_lower unicode_upper locale_lower policy d (plan destination) source))); [apply resolved_halting|].
  intros b. destruct (resolved_halting destination_matched d b) as [F HF]. exists (F + 4)%nat. intros source fuel s Hf Hs.
  eapply stops_bind; [apply HF; lia|lia|]. intros destination s2 _ H2. eapply (halts_run 4); [by apply tame_attempt|lia|lia].
Qed.
End Loops.
End Clock.

(** Every action is what [t] makes of its deadline. *)
Lemma within_deadline {A} timeout (m : Z -> nat -> running A) s :
  (forall d, halting (m d)) ->
  exists F, forall fuel, (F <= fuel)%nat -> ended ((t ← run (read_clock now); m (t + timeout) fuel) s).
Proof.
  intros H. destruct (H (now (readings s) + timeout) (S (readings s))) as [F HF]. exists F. intros fuel Hf.
  exact (proj1 (HF fuel (ticked s) Hf ltac:(cbn; lia))).
Qed.

End Ends.

(** ** Focusing the field of the form *)

Module FocusAction.
(** The form, with the field focused or not, and a parser that drains or not. *)
Definition field (focused : bool) : SemanticNode :=
  let f := Form.field in
  {| n_id := n_id f; n_parentId := n_parentId f; n_role := n_role f; n_name := n_name f; n_description := n_description f; n_value := n_value f;
     n_state := Some {| st_disabled := None; st_focused := Some focused; st_selected := None; st_checked := None; st_expanded := None; st_modal := None; st_busy := None;
       st_hidden := None; st_offscreen := None; st_readonly := None; st_multiline := None; st_required := None; st_multiselectable := None;
       st_orientation := None; st_level := None; st_positionInSet := None; st_setSize := None |};
     n_extended := n_extended f; n_actions := n_actions f; n_inputRecipes := n_inputRecipes f; n_labelledBy := n_labelledBy f; n_describedBy := n_describedBy f;
     n_textRanges := n_textRanges f; n_testId := n_testId f; n_frameworkType := n_frameworkType f; n_opaqueChildren := n_opaqueChildren f; n_p := n_p f; n_px := n_px f;
     n_geometry := n_geometry f; n_scroll := n_scroll f; n_paintedRegion := n_paintedRegion f |}.
Definition moment (focused drains : bool) : Moment :=
  let c := Form.context in
  {| m_context := {| actionObservationState := settled; cx_checkpoint := Form.stamp; cx_contract := cx_contract c; cx_modes := cx_modes c;
       semanticNode i := if bool_decide (i = js "name") then Some (field focused) else None; hitGrid := hitGrid c; pointerRegion := pointerRegion c;
       screenRegionUnchangedSince := screenRegionUnchangedSince c; screenRegionChangeSince := None; screenRows := None |};
     m_keyModes := m_keyModes (FormAction.world 0); m_bracketedPaste := false; m_open := true; m_failed := false; m_exited := false; m_negotiating := false;
     m_caughtUp := drains; m_drains := drains; m_pty := pty_writable |}.
(** The focus is reported some turns after the click; or never. *)
Definition later (k : nat) : Moment := moment (5 <=? k)%nat true.
Definition never (_ : nat) : Moment := moment false true.
Definition jammed (_ : nat) : Moment := moment false false.
(** The field is found on the third turn. *)
Definition locate (k : nat) : result LocatorError (list ResolvedTarget) := if (2 <=? k)%nat then Ok [Form.target] else Ok [].
Definition intent : ActionIntent := {| i_kind := a_focus; i_selector := None; i_targetRef := None; i_via := None |}.
Definition focusing (world : nat -> Moment) : result Stopped ActionReceipt * Run :=
  perform world FormAction.now id id id locate locate policy_none 50 20 (js "1") (on_focus intent) newRun.
End FocusAction.

Example focus_waits_for_its_effect :
  is_ok (FocusAction.focusing FocusAction.later).1 = true /\ turn (FocusAction.focusing FocusAction.later).2 = 5%nat /\
  length (inputs (FocusAction.focusing FocusAction.later).2) = 2%nat.
Proof. vm_compute. done. Qed.
Example focus_times_out :
  (FocusAction.focusing FocusAction.never).1 = Err (threw timed_out) /\ length (inputs (FocusAction.focusing FocusAction.never).2) = 2%nat.
Proof. vm_compute. done. Qed.
(** Where the parser never drains, no action ends. *)
Example undrained_is_stuck : (FocusAction.focusing FocusAction.jammed).1 = Err (threw stuck).
Proof. vm_compute. done. Qed.

