(* ===== verification/SessionActions.v ===== *)
(** * Announcing actions (packages/driver/src/internal/session-actions.ts)

    Every action that is announced while the session is open gets one terminal
    outcome. *)

From S2P Require Import Prelude JsText JsObject Tree ActionModel.

Local Open Scope Z_scope.

(** What the end of an action is reported with. *)
Record ActionCompletion : Type := {
  ac_selector : option jstring;
  ac_ref : option jstring;
  ac_error : option jstring;
  ac_actionability : option ActionabilityExplanation;
  ac_receipt : option ActionReceipt;
}.
Definition no_completion : ActionCompletion := {| ac_selector := None; ac_ref := None; ac_error := None; ac_actionability := None; ac_receipt := None |}.

(** The events the sink delivers. *)
Inductive ActionNotice : Type :=
| started (actionId api : jstring) (selector : option jstring) (timeMs : Z)
| finished (actionId api : jstring) (ok : bool) (about : ActionCompletion) (observation : ObservationStamp) (timeMs : Z).

Record SessionActionLifecycle : Type := {
  isOpen : bool;
  pending : list (jstring * (jstring * option jstring));
  delivered : list ActionNotice;
}.
Definition newLifecycle : SessionActionLifecycle := {| isOpen := true; pending := []; delivered := [] |}.

Section Lifecycle.
(** The clock and the observation, by how much was delivered. *)
Context (now : nat -> Z) (checkpoint : nat -> ObservationStamp).

(** [begin], given the id it creates. *)
Definition begin (actionId api : jstring) (selector : option jstring) (s : SessionActionLifecycle) : SessionActionLifecycle :=
  if negb (isOpen s) then s
  else {| isOpen := true; pending := jset (pending s) actionId (api, selector);
          delivered := delivered s ++ [started actionId api selector (now (length (delivered s)))] |}.

Definition end_ (actionId api : jstring) (ok : bool) (about : ActionCompletion) (s : SessionActionLifecycle) : SessionActionLifecycle :=
  if negb (isOpen s) then s
  else if jhas (pending s) actionId then
    let n := length (delivered s) in
    {| isOpen := true; pending := jdelete (pending s) actionId;
       delivered := delivered s ++ [finished actionId api ok about (checkpoint n) (now n)] |}
  else s.

Definition failPending (error : jstring) (s : SessionActionLifecycle) : SessionActionLifecycle :=
  foldl (fun s '(actionId, (api, selector)) =>
           end_ actionId api false {| ac_selector := selector; ac_ref := None; ac_error := Some error; ac_actionability := None; ac_receipt := None |} s)
    s (pending s).

(** What a session does with its lifecycle. *)
Inductive LifecycleCall : Type :=
| call_begin (actionId api : jstring) (selector : option jstring)
| call_end (actionId api : jstring) (ok : bool) (about : ActionCompletion)
| call_failPending (error : jstring)
| call_close.

Definition call (s : SessionActionLifecycle) (c : LifecycleCall) : SessionActionLifecycle :=
  match c with
  | call_begin i api selector => begin i api selector s
  | call_end i api ok about => end_ i api ok about s
  | call_failPending e => failPending e s
  | call_close => {| isOpen := false; pending := pending s; delivered := delivered s |}
  end.
Definition calls (cs : list LifecycleCall) : SessionActionLifecycle := foldl call newLifecycle cs.
End Lifecycle.

(** ** Every action ends once *)

Definition started_id (n : ActionNotice) : option jstring := match n with started i _ _ _ => Some i | _ => None end.
Definition finished_id (n : ActionNotice) : option jstring := match n with finished i _ _ _ _ _ => Some i | _ => None end.
Definition starts (l : list ActionNotice) : list jstring := omap started_id l.
Definition finishes (l : list ActionNotice) : list jstring := omap finished_id l.
Definition begun (cs : list LifecycleCall) : list jstring := omap (fun c => match c with call_begin i _ _ => Some i | _ => None end) cs.

(** Each id starts before it finishes. *)
Definition ordered (l : list ActionNotice) : Prop :=
  forall l1 n l2 i, l = l1 ++ n :: l2 -> finished_id n = Some i -> i ∈ starts l1.

Record books (used : list jstring) (s : SessionActionLifecycle) : Prop := {
  bk_pending : NoDup (keys (pending s));
  bk_started : NoDup (starts (delivered s));
  bk_finished : NoDup (finishes (delivered s));
  bk_open : forall i, i ∈ starts (delivered s) <-> i ∈ finishes (delivered s) \/ i ∈ keys (pending s);
  bk_apart : forall i, i ∈ finishes (delivered s) -> i ∉ keys (pending s);
  bk_used : forall i, i ∈ starts (delivered s) -> i ∈ used;
  bk_ordered : ordered (delivered s);
}.

Lemma starts_app l l' : starts (l ++ l') = starts l ++ starts l'.
Proof. apply omap_app. Qed.
Lemma finishes_app l l' : finishes (l ++ l') = finishes l ++ finishes l'.
Proof. apply omap_app. Qed.

Lemma ordered_snoc l n : ordered l -> (forall i, finished_id n = Some i -> i ∈ starts l) -> ordered (l ++ [n]).
Proof.
  intros H Hn l1 m l2 i E Hi. destruct l2 as [|m' l2 _] using rev_ind.
  - apply app_inj_tail in E as [-> ->]. by apply Hn.
  - rewrite app_comm_cons, app_assoc in E. apply app_inj_tail in E as [-> ->]. by eapply H.
Qed.

Lemma books_weaken used used' s : used ⊆ used' -> books used s -> books used' s.
Proof. intros H []. split; try done. intros i Hi. by apply H, bk_used0. Qed.

Section Books.
Context (now : nat -> Z) (checkpoint : nat -> ObservationStamp).

Lemma kept_ids i (l : list (jstring * (jstring * option jstring))) j : j ∈ keys (jdelete l i) <-> j ∈ keys l /\ j <> i.
Proof. by rewrite keys_jdelete, list_elem_of_In, filter_In, <- list_elem_of_In, negb_true_iff, bool_decide_eq_false. Qed.

Lemma begin_books used i api selector s : books used s -> i ∉ used -> books (i :: used) (begin now i api selector s).
Proof.
  intros B Hi. unfold begin. destruct (isOpen s); cbn [negb]; [|by apply (books_weaken used); [set_solver|]].
  assert (i ∉ starts (delivered s)) as Hs by (intros H; by apply Hi, (bk_used _ _ B)).
  assert (i ∉ keys (pending s)) as Hp by (intros H; apply Hs, (bk_open _ _ B); by right).
  assert (i ∉ finishes (delivered s)) as Hf by (intros H; apply Hs, (bk_open _ _ B); by left).
  split; cbn [pending delivered]; rewrite ?starts_app, ?finishes_app, ?keys_jset_new by done; cbn; rewrite ?app_nil_r.
  - apply NoDup_app. split; [apply B|]. split; [set_solver|apply NoDup_singleton].
  - apply NoDup_app. split; [apply B|]. split; [set_solver|apply NoDup_singleton].
  - apply B.
  - intros j. pose proof (bk_open _ _ B j). set_solver.
  - intros j Hj. pose proof (bk_apart _ _ B j Hj). set_solver.
  - intros j Hj. pose proof (bk_used _ _ B j). set_solver.
  - apply ordered_snoc; [apply B|done].
Qed.

Lemma end_books used i api ok about s : books used s -> books used (end_ now checkpoint i api ok about s).
Proof.
  intros B. unfold end_. destruct (isOpen s); cbn [negb]; [|done]. destruct (jhas (pending s) i) eqn:Hi; [|done]. apply jhas_keys in Hi.
  assert (i ∈ starts (delivered s)) as Hs by (apply (bk_open _ _ B); by right).
  assert (i ∉ finishes (delivered s)) as Hf by (intros H; by apply (bk_apart _ _ B) in H).
  pose proof (kept_ids i (pending s)) as Hd.
  split; cbn [pending delivered]; rewrite ?starts_app, ?finishes_app; cbn; rewrite ?app_nil_r.
  - rewrite keys_jdelete. apply NoDup_ListNoDup, List.NoDup_filter, NoDup_ListNoDup, B.
  - apply B.
  - apply NoDup_app. split; [apply B|]. split; [set_solver|apply NoDup_singleton].
  - intros j. rewrite Hd. pose proof (bk_open _ _ B j). destruct (decide (j = i)) as [->|]; set_solver.
  - intros j Hj. rewrite Hd. pose proof (bk_apart _ _ B j). set_solver.
  - apply B.
  - apply ordered_snoc; [apply B|]. by intros j [= <-].
Qed.

(** [failPending] ends what is pending, and no more. *)
Lemma fail_books used e l s :
  books used s ->
  let s' := foldl (fun s '(actionId, (api, selector)) =>
    end_ now checkpoint actionId api false {| ac_selector := selector; ac_ref := None; ac_error := Some e; ac_actionability := None; ac_receipt := None |} s) s l in
  books used s' /\ isOpen s' = isOpen s /\ (isOpen s = true -> forall i, i ∈ keys (pending s') -> i ∈ keys (pending s) /\ i ∉ keys l).
Proof.
  revert s. induction l as [|[i [api selector]] l IH]; intros s B; cbn [foldl]; [split; [done|]; split; [done|]; set_solver|].
  set (about := {| ac_selector := selector |}). destruct (IH (end_ now checkpoint i api false about s)) as (B' & Ho & Hk); [by apply end_books|].
  assert (isOpen (end_ now checkpoint i api false about s) = isOpen s) as Ho1 by (unfold end_; destruct (isOpen s) eqn:E; cbn; [by destruct (jhas _ _)|done]).
  split; [done|]. split; [by rewrite Ho|]. intros Hs j Hj. destruct (Hk ltac:(by rewrite Ho1) j Hj) as [Hj1 Hj2].
  assert (j ∈ keys (pending s) /\ j <> i) as [? ?]; [|set_solver].
  unfold end_ in Hj1. rewrite Hs in Hj1. cbn [negb] in Hj1. destruct (jhas (pending s) i) eqn:Ei; cbn [pending] in Hj1.
  - by apply kept_ids in Hj1.
  - apply jhas_false in Ei. split; [done|]. by intros ->.
Qed.

Lemma failPending_empties used e s : books used s -> isOpen s = true -> pending (failPending now checkpoint e s) = [].
Proof.
  intros B Hs. destruct (fail_books used e (pending s) s B) as (_ & _ & H). unfold failPending. set (s' := foldl _ _ _) in *.
  destruct (pending s') as [|[i v] l] eqn:E; [done|]. destruct (H Hs i) as [H1 H2]; [left|done].
Qed.

Lemma call_books used s c :
  books used s -> match c with call_begin i _ _ => i ∉ used | _ => True end ->
  books (match c with call_begin i _ _ => i :: used | _ => used end) (call now checkpoint s c).
Proof.
  intros B Hc. destruct c as [i api selector|i api ok about|e|]; cbn [call].
  - by apply begin_books.
  - by apply end_books.
  - by apply fail_books.
  - by destruct B.
Qed.

Lemma calls_books cs : NoDup (begun cs) -> books (begun cs) (calls now checkpoint cs).
Proof.
  unfold calls. induction cs as [|c cs IH] using rev_ind; intros H.
  - split; cbn; [constructor|constructor|constructor|set_solver|set_solver|set_solver|]. intros l1 n l2 i Hl. by destruct l1.
  - unfold begun in H. rewrite omap_app in H. apply NoDup_app in H as (H1 & H2 & H3). rewrite foldl_app. cbn [foldl].
    eapply books_weaken; [|apply call_books; [by apply IH|]].
    + unfold begun. rewrite omap_app. destruct c; cbn; set_solver.
    + destruct c; [|done..]. intros Hi. apply (H2 _ Hi). cbn. set_solver.
Qed.
End Books.

(** Each announced action ends once: however a session begins, ends and fails its
    actions, each id is announced at most once and ends at most once, after it was
    announced; what is announced has ended or is pending; and failing what is
    pending in an open session leaves nothing pending. *)
Theorem announced_actions_end_once now checkpoint cs error :
  NoDup (begun cs) ->
  let s := calls now checkpoint cs in
  NoDup (starts (delivered s)) /\ NoDup (finishes (delivered s)) /\ ordered (delivered s) /\
  (forall i, i ∈ starts (delivered s) <-> i ∈ finishes (delivered s) \/ i ∈ keys (pending s)) /\
  (isOpen s = true -> let s' := failPending now checkpoint error s in
     pending s' = [] /\ forall i, i ∈ starts (delivered s') <-> i ∈ finishes (delivered s')).
Proof.
  intros H s. pose proof (calls_books now checkpoint cs H) as B. fold s in B. split_and!; try apply B. intros Ho.
  destruct (fail_books now checkpoint _ error (pending s) s B) as (B' & _). pose proof (failPending_empties now checkpoint _ error s B Ho) as He.
  split; [done|]. intros i. pose proof (bk_open _ _ B' i) as Hi. unfold failPending in He |- *. rewrite He in Hi. set_solver.
Qed.
