(* ===== verification/PointerRegions.v ===== *)
(** * The pointer region of a node ([pointerRegion], packages/driver/src/session.ts)

    Where the pointer reaches a node: what a provider of the application says, or the
    visible cells that the hit grid of the committed snapshot gives to the node. *)

From stdpp Require Import strings.
From S2P Require Import Prelude JsText Dto JsObject Tree SessionContract ActionPlanner PlannerTheorems.

Local Open Scope Z_scope.

(** The visible spans of one region of the grid. *)
Definition visible_spans (visible r : Rect) : list Span :=
  let top := Z.max (row r) (row visible) in
  let bottom := Z.min (row r + height r) (row visible + height visible) in
  let from := Z.max (column r) (column visible) in
  let to := Z.min (column r + width r) (column visible + width visible) in
  if (to <=? from) || (bottom <=? top) then []
  else (fun offset => {| sp_row := top + Z.of_nat offset; Tree.from := from; Tree.to := to |}) <$> seq 0 (Z.to_nat (bottom - top)).

Definition hit_spans (i : jstring) (grid : PointerHitGrid) (visible : Rect) : list Span :=
  mjoin ((fun r => visible_spans visible (hr_rect r)) <$> List.filter (fun r => bool_decide (hr_recipientId r = i)) (regions grid)).

(** What an application provider published for the node. *)
Definition provided_region (snapshot : SemanticSnapshot) (providerId i : jstring) : option PointerRegion :=
  entries ← s_providerEvidence snapshot;
  entry ← List.find (fun e => bool_decide (pe_providerId e = providerId) && match pe_status e with available _ => true | _ => false end) entries;
  match pe_status entry with
  | available facts =>
      found ← List.find (fun r => bool_decide (pr_recipientId r = i)) (pf_pointerRegions facts);
      Some {| pg_bounds := regionBounds (pr_region found); pg_spans := spans (pr_region found); pg_evidence := pf_evidence facts |}
  | _ => None
  end.

(** What the framework's geometry and the hit grid give. *)
Definition derived_region (snapshot : SemanticSnapshot) (node : option SemanticNode) (evidence : EvidenceProvenance) (i : jstring) : option PointerRegion :=
  node ← node;
  match intendedRect (n_geometry node), visibleRect (n_geometry node), s_hitGrid snapshot with
  | known bounds _, known visible _, known grid _ => Some {| pg_bounds := bounds; pg_spans := hit_spans i grid visible; pg_evidence := evidence |}
  | _, _, _ => None
  end.

(** The snapshot and its nodes by id are those of the session's index. *)
Definition pointerRegion_of (index : option (SemanticSnapshot * (jstring -> option SemanticNode))) (contract : option EffectiveSessionContract) (i : jstring)
    : option PointerRegion :=
  '(snapshot, node) ← index;
  match availability_of contract "pointer-geometry" with
  | Some (supported evidence) =>
      match ev_source evidence with
      | application => provided_region snapshot (ev_providerId evidence) i
      | _ => derived_region snapshot (node i) evidence i
      end
  | _ => None
  end.

(** ** The cells of a derived region *)

Lemma visible_spans_cells visible r p :
  (exists s, s ∈ visible_spans visible r /\ in_span p s = true) <->
  covers visible (pt_column p) (pt_row p) /\ covers r (pt_column p) (pt_row p).
Proof.
  unfold visible_spans, covers. destruct (_ || _) eqn:E; [split; [by intros (s & Hs%elem_of_nil & _)|]|].
  - apply orb_true_iff in E as [E|E]; apply Z.leb_le in E; lia.
  - apply orb_false_iff in E as [E1%Z.leb_gt E2%Z.leb_gt]. split.
    + intros (s & Hs & Hp). apply list_elem_of_fmap in Hs as (k & -> & Hk). apply elem_of_seq in Hk. unfold in_span in Hp. cbn in Hp. breflect. lia.
    + intros H. exists {| sp_row := pt_row p; Tree.from := Z.max (column r) (column visible); Tree.to := Z.min (column r + width r) (column visible + width visible) |}.
      split; [|unfold in_span; cbn; breflect; lia]. apply list_elem_of_fmap. exists (Z.to_nat (pt_row p - Z.max (row r) (row visible))).
      split; [f_equal; lia|]. apply elem_of_seq. lia.
Qed.

Lemma visible_spans_sized visible r : Forall (fun s => Tree.from s < Tree.to s) (visible_spans visible r).
Proof.
  unfold visible_spans. destruct (_ || _) eqn:E; [constructor|]. apply orb_false_iff in E as [E1%Z.leb_gt _]. apply Forall_fmap, Forall_forall. intros k _. exact E1.
Qed.

Lemma hit_spans_cells i grid visible p :
  (exists s, s ∈ hit_spans i grid visible /\ in_span p s = true) <->
  covers visible (pt_column p) (pt_row p) /\ exists r, r ∈ regions grid /\ hr_recipientId r = i /\ covers (hr_rect r) (pt_column p) (pt_row p).
Proof.
  unfold hit_spans. split.
  - intros (s & Hs & Hp). apply list_elem_of_join in Hs as (l & Hs & Hl). apply list_elem_of_fmap in Hl as (r & -> & Hr).
    apply list_elem_of_In, filter_In in Hr as [Hr Hi%bool_decide_eq_true]. destruct (proj1 (visible_spans_cells visible (hr_rect r) p)) as [H1 H2]; [by exists s|].
    split; [done|]. exists r. split; [by apply list_elem_of_In|done].
  - intros (Hv & r & Hr & Hi & Hc). destruct (proj2 (visible_spans_cells visible (hr_rect r) p)) as (s & Hs & Hp); [done|]. exists s. split; [|done].
    apply list_elem_of_join. exists (visible_spans visible (hr_rect r)). split; [done|]. apply list_elem_of_fmap. exists r. split; [done|].
    apply list_elem_of_In, filter_In. split; [by apply list_elem_of_In|by apply bool_decide_eq_true].
Qed.

Lemma hit_spans_sized i grid visible : Forall (fun s => Tree.from s < Tree.to s) (hit_spans i grid visible).
Proof.
  unfold hit_spans. apply Forall_forall. intros s (l & Hs & Hl)%list_elem_of_join. apply list_elem_of_fmap in Hl as (r & -> & _).
  pose proof (visible_spans_sized visible (hr_rect r)) as H. rewrite Forall_forall in H. by apply H.
Qed.

(** A derived pointer region is exactly the node's: when the contract grants pointer
    geometry on evidence that is not the application's, the region a session gives
    for a node has the intended bounds of the node, a cell is in it exactly when it
    is visible of the node and the hit grid of the snapshot gives it to the node, no
    span is empty, and its evidence is that of the contract; without a grant there
    is no region. *)
Theorem derived_regions_exact snapshot node contract i :
  match pointerRegion_of (Some (snapshot, node)) contract i with
  | Some region =>
      exists evidence, availability_of contract "pointer-geometry" = Some (supported evidence) /\
      (ev_source evidence <> application ->
       pg_evidence region = evidence /\ Forall (fun s => Tree.from s < Tree.to s) (pg_spans region) /\
       exists n visible grid e1 e2 e3, node i = Some n /\ intendedRect (n_geometry n) = known (pg_bounds region) e1 /\
         visibleRect (n_geometry n) = known visible e2 /\ s_hitGrid snapshot = known grid e3 /\
         forall p, (exists s, s ∈ pg_spans region /\ in_span p s = true) <->
                   covers visible (pt_column p) (pt_row p) /\
                   exists r, r ∈ regions grid /\ hr_recipientId r = i /\ covers (hr_rect r) (pt_column p) (pt_row p))
  | None => forall evidence n visible grid bounds e1 e2 e3,
      availability_of contract "pointer-geometry" = Some (supported evidence) -> ev_source evidence <> application -> node i = Some n ->
      intendedRect (n_geometry n) = known bounds e1 -> visibleRect (n_geometry n) = known visible e2 -> s_hitGrid snapshot = known grid e3 -> False
  end.
Proof.
  unfold pointerRegion_of. cbn [mbind option_bind]. destruct (availability_of contract "pointer-geometry") as [[evidence|reason]|] eqn:Ec; [|done|done].
  assert (match derived_region snapshot (node i) evidence i with
          | Some region => pg_evidence region = evidence /\ Forall (fun s => Tree.from s < Tree.to s) (pg_spans region) /\
              exists n visible grid e1 e2 e3, node i = Some n /\ intendedRect (n_geometry n) = known (pg_bounds region) e1 /\
                visibleRect (n_geometry n) = known visible e2 /\ s_hitGrid snapshot = known grid e3 /\
                forall p, (exists s, s ∈ pg_spans region /\ in_span p s = true) <->
                          covers visible (pt_column p) (pt_row p) /\
                          exists r, r ∈ regions grid /\ hr_recipientId r = i /\ covers (hr_rect r) (pt_column p) (pt_row p)
          | None => forall n visible grid bounds e1 e2 e3, node i = Some n -> intendedRect (n_geometry n) = known bounds e1 ->
              visibleRect (n_geometry n) = known visible e2 -> s_hitGrid snapshot = known grid e3 -> False
          end) as Hd.
  { unfold derived_region. destruct (node i) as [n|]; [|done]. cbn. destruct (intendedRect (n_geometry n)) as [bounds e1| | |] eqn:E1; try (intros; simplify_eq; congruence).
    destruct (visibleRect (n_geometry n)) as [visible e2| | |] eqn:E2; try (intros; simplify_eq; congruence).
    destruct (s_hitGrid snapshot) as [grid e3| | |] eqn:E3; try (intros; simplify_eq; congruence).
    cbn. split; [done|]. split; [apply hit_spans_sized|]. exists n, visible, grid, e1, e2, e3. split_and!; try done. intros p. apply hit_spans_cells. }
  destruct (ev_source evidence) eqn:Es.
  all: try (destruct (derived_region _ _ _ _) as [region|]; [exists evidence; split; [done|by intros _]|intros; simplify_eq; by eapply Hd]).
  destruct (provided_region _ _ _) as [region|]; [exists evidence; split; [done|congruence]|intros; simplify_eq; congruence].
Qed.
