(* ===== verification/BrokerLeases.v ===== *)
(** * The broker seen by whoever holds its promises and handles

    What an operation of the resource broker may do to the promises and leases of
    others: promises stay settled, a lease appears only as the answer of a queued
    request, lease records keep their names, and a lease that is live has not been
    released.  The transport is proved against these lemmas. *)

From S2P Require Import Prelude JsText ResourceBroker BrokerAccounting BrokerScheduling BrokerTheorems.

Local Open Scope Z_scope.

Section Leases.
Context (clock : nat -> number) (uuid : nat -> jstring).
Context (unique : forall i j, uuid i = uuid j -> i = j).

(** Lease ids are drawn from the UUID source, each once. *)
Definition ids (s : Broker) : Prop :=
  (forall addr l, heap s !! addr = Some l -> (addr < allocated s)%nat /\ exists i, (i < draws s)%nat /\ leaseId l = js "lease:" ++ uuid i) /\
  (forall a b l k, heap s !! a = Some l -> heap s !! b = Some k -> leaseId l = leaseId k -> a = b).

(** A live lease has not been released by its handle. *)
Definition unpromised (s : Broker) : Prop :=
  forall lid addr l, leases s !! lid = Some addr -> heap s !! addr = Some l -> releasePromise l = None.

(** A record keeps what it was created with. *)
Definition same_record (l l' : LeaseRecord) : Prop := leaseId l' = leaseId l /\ token l' = token l /\ lessee l' = lessee l.
Definition kept_record (l l' : LeaseRecord) : Prop := same_record l l' /\ releasePromise l' = releasePromise l.

Record informs (s s' : Broker) : Prop := {
  inf_outbox n r : outbox s !! n = Some r -> outbox s' !! n = Some r;
  inf_queue p : p ∈ queue s' -> p ∈ queue s;
  inf_answer n : outbox s !! n = None -> is_Some (outbox s' !! n) -> exists p, p ∈ queue s /\ number_of p = n;
  inf_granted n addr : outbox s !! n = None -> outbox s' !! n = Some (Granted addr) ->
    exists p l, p ∈ queue s /\ number_of p = n /\ heap s' !! addr = Some l /\ lessee l = claimant p;
  inf_leases lid addr : leases s' !! lid = Some addr ->
    leases s !! lid = Some addr \/
    exists p l, p ∈ queue s /\ outbox s' !! number_of p = Some (Granted addr) /\ heap s' !! addr = Some l /\ lessee l = claimant p /\ heap s !! addr = None;
  inf_heap addr l : heap s !! addr = Some l -> exists l', heap s' !! addr = Some l' /\ same_record l l';
  inf_ids : ids s -> ids s';
  inf_unpromised : unpromised s -> unpromised s';
  inf_epochs : highestEpoch s' = highestEpoch s;
  inf_config : config s' = config s;
  inf_sequence : sequence s' = sequence s;
}.

Lemma same_record_refl l : same_record l l.
Proof. done. Qed.
Lemma same_record_trans l1 l2 l3 : same_record l1 l2 -> same_record l2 l3 -> same_record l1 l3.
Proof. unfold same_record. intuition congruence. Qed.

Lemma informs_refl s : informs s s.
Proof. constructor; eauto using same_record_refl; intros n; [intros Hn [r Hr]|intros addr]; congruence. Qed.

Lemma informs_trans s1 s2 s3 : informs s1 s2 -> informs s2 s3 -> informs s1 s3.
Proof.
  intros A B. constructor; try (rewrite (inf_epochs _ _ B); apply A); try (rewrite (inf_config _ _ B); apply A); try (rewrite (inf_sequence _ _ B); apply A).
  - intros n r H. by apply B, A.
  - intros p H. by apply A, B.
  - intros n Hn Hs. destruct (outbox s2 !! n) as [r|] eqn:E; [by apply (inf_answer _ _ A)|].
    destruct (inf_answer _ _ B n E Hs) as (p & Hp & <-). exists p. split; [by apply A|done].
  - intros n addr Hn Hs. destruct (outbox s2 !! n) as [r|] eqn:E.
    + pose proof (inf_outbox _ _ B n r E) as E'. rewrite Hs in E'. injection E' as <-. destruct (inf_granted _ _ A n addr Hn E) as (p & l & Hp & Hnum & Hl & Hwho).
      destruct (inf_heap _ _ B addr l Hl) as (l' & Hl' & _ & _ & El). exists p, l'. split_and!; [done..|congruence].
    + destruct (inf_granted _ _ B n addr E Hs) as (p & l & Hp & H). exists p, l. split; [by apply A|done].
  - intros lid addr H. destruct (inf_leases _ _ B lid addr H) as [H2|(p & l & Hp & Ho & Hl & He & Hn)].
    + destruct (inf_leases _ _ A lid addr H2) as [|(p & l & Hp & Ho & Hl & He & Hn)]; [by left|]. right.
      destruct (inf_heap _ _ B addr l Hl) as (l' & Hl' & _ & _ & El). exists p, l'. split_and!; [done|by apply B|done|congruence|done].
    + right. exists p, l. split_and!; [by apply A|done..|]. destruct (heap s1 !! addr) as [k|] eqn:Ek; [|done].
      destruct (inf_heap _ _ A addr k Ek) as (k' & Hk' & _). congruence.
  - intros addr l H. destruct (inf_heap _ _ A addr l H) as (l2 & H2 & E2). destruct (inf_heap _ _ B addr l2 H2) as (l3 & H3 & E3).
    exists l3. split; [done|by eapply same_record_trans].
  - intros H. by apply B, A.
  - intros H. by apply B, A.
Qed.

(** An update of the books that only takes leases away. *)
Lemma informs_quiet s s' :
  outbox s' = outbox s -> (forall p, p ∈ queue s' -> p ∈ queue s) -> (forall lid addr, leases s' !! lid = Some addr -> leases s !! lid = Some addr) ->
  (forall addr, match heap s !! addr, heap s' !! addr with Some l, Some l' => kept_record l l' | None, None => True | _, _ => False end) ->
  highestEpoch s' = highestEpoch s -> config s' = config s -> draws s' = draws s -> allocated s' = allocated s -> sequence s' = sequence s -> informs s s'.
Proof.
  intros Ho Hq Hl Hh He Hc Hd Ha Hseq.
  assert (Hback : forall addr l', heap s' !! addr = Some l' -> exists l, heap s !! addr = Some l /\ kept_record l l').
  { intros addr l' H. specialize (Hh addr). rewrite H in Hh. destruct (heap s !! addr) as [l|]; [by exists l|done]. }
  constructor; try done.
  - by rewrite Ho.
  - intros n Hn [r Hr]. rewrite Ho in Hr. congruence.
  - intros n addr Hn Hr. rewrite Ho in Hr. congruence.
  - intros lid addr H. left. by apply Hl.
  - intros addr l H. specialize (Hh addr). rewrite H in Hh. destruct (heap s' !! addr) as [l'|]; [exists l'; split; [done|apply Hh]|done].
  - intros [Hi Hinj]. split.
    + intros addr l' H. destruct (Hback addr l' H) as (l & H0 & [E _] & _). rewrite Hd, Ha, E. by apply (Hi addr l).
    + intros a b l k Hl1 Hl2 E. destruct (Hback a l Hl1) as (l0 & H0 & [E0 _] & _). destruct (Hback b k Hl2) as (k0 & K0 & [F0 _] & _).
      apply (Hinj a b l0 k0); [done..|congruence].
  - intros Hu lid addr l' Hlive H. destruct (Hback addr l' H) as (l & H0 & _ & ->). by eapply Hu; [apply Hl|].
Qed.

Lemma same_heap s s' : heap s' = heap s -> forall addr, match heap s !! addr, heap s' !! addr with Some l, Some l' => kept_record l l' | None, None => True | _, _ => False end.
Proof. intros -> addr. by destruct (heap s !! addr). Qed.

Lemma informs_same s s' :
  outbox s' = outbox s -> queue s' = queue s -> leases s' = leases s -> heap s' = heap s -> highestEpoch s' = highestEpoch s -> config s' = config s ->
  draws s' = draws s -> allocated s' = allocated s -> sequence s' = sequence s -> informs s s'.
Proof. intros Ho Hq Hl Hh He Hc Hd Ha Hseq. apply informs_quiet; try done; [by rewrite Hq|by rewrite Hl|by apply same_heap]. Qed.

(** ** Operations *)

Lemma informs_settled i p s : queue s !! i = Some p -> informs s (settlePending p (set_queue (delete i (queue s)) s)).
Proof.
  intros Hi. unfold settlePending. case_bool_decide; apply informs_quiet; bcbn; try done; try (by apply same_heap); intros q Hq; by eapply elem_of_delete.
Qed.

Lemma informs_delete_attempt k s : informs s (deleteAttemptIfEmpty k s).
Proof. unfold deleteAttemptIfEmpty. destruct (attempts s !! k) as [a|]; [|apply informs_refl]. destruct (_ && _); [by apply informs_same|apply informs_refl]. Qed.

(** The promise of a request of the queue is refused at the end. *)
Lemma informs_refused s s2 p e : p ∈ queue s -> informs s s2 -> informs s (settle_promise (number_of p) (Refused e) s2).
Proof.
  intros Hp A. unfold settle_promise. destruct (outbox s2 !! number_of p) eqn:Ho; [done|]. destruct A.
  constructor; bcbn; try done.
  - intros n r Hn. rewrite lookup_insert_ne; [eauto|]. intros <-. apply inf_outbox0 in Hn. congruence.
  - intros n Hn Hs. destruct (decide (number_of p = n)) as [<-|Hne]; [by exists p|]. rewrite lookup_insert_ne in Hs by done. eauto.
  - intros n addr Hn [[_ [=]]|[_ Hs]]%lookup_insert_Some. eauto.
  - intros lid addr H. destruct (inf_leases0 lid addr H) as [|(q & l & Hq & Hoq & Hl & He & Hn)]; [by left|]. right. exists q, l.
    split_and!; try done. rewrite lookup_insert_ne; [done|congruence].
Qed.

(** [s'] is [s] with one more lease, at [addr], of [who]. *)
Record lends (who : AttemptIdentity) (addr : nat) (s s' : Broker) : Prop := {
  len_record : exists l, heap s' = <[addr := l]> (heap s) /\ leases s' = <[leaseId l := addr]> (leases s) /\ lessee l = who /\ releasePromise l = None;
  len_new : heap s !! addr = None;
  len_outbox : outbox s' = outbox s;
  len_queue : queue s' = queue s;
  len_epochs : highestEpoch s' = highestEpoch s;
  len_config : config s' = config s;
  len_sequence : sequence s' = sequence s;
  len_ids : ids s -> ids s';
  len_unpromised : unpromised s -> unpromised s';
}.

Lemma fresh_loop_index n s lid s' :
  fresh_loop uuid n s = (Ok lid, s') -> exists i d, s' = set_draws d s /\ (draws s <= i < d)%nat /\ lid = js "lease:" ++ uuid i.
Proof.
  revert s. induction n as [|n IH]; intros s H; [done|]. cbn [fresh_loop] in H. unfold randomUUID in H. run_in H. destruct (bool_decide _).
  - injection H as <- <-. exists (draws s), (S (draws s)). split_and!; [done|lia..|done].
  - apply IH in H as (i & d & -> & Hi & ->). cbn in Hi. exists i, d. split_and!; [done|lia..|done].
Qed.

Lemma grant_lends id want s a addr s' :
  accounting uuid true s -> attempts s !! id = Some a -> grant uuid id want s = (Ok addr, s') -> lends (identity a) addr s s'.
Proof.
  intros Hacc Ha H. unfold grant in H. run_in H. fold (bumped id want s) in H. unfold freshLeaseId in H.
  destruct (fresh_loop uuid 8 (bumped id want s)) as [[lid|e] s1] eqn:Hf; [|done].
  apply fresh_loop_index in Hf as (i & d & -> & Hi & ->). unfold randomUUID in H. unfold bumped in H, Hi. bcbn.
  rewrite lookup_alter_eq, Ha in H. cbn in H. injection H as <- <-.
  assert (Hnew : heap s !! allocated s = None).
  { destruct (heap s !! allocated s) as [l|] eqn:E; [|done]. apply (acc_heap _ _ _ Hacc) in E as [? _]. lia. }
  constructor; bcbn; try done.
  - eexists. split_and!; reflexivity.
  - intros [Hids Hinj]. split; bcbn.
    + intros x l [[<- <-]|[_ Hx]]%lookup_insert_Some; cbn [leaseId].
      * split; [lia|]. exists i. split; [lia|done].
      * destruct (Hids x l Hx) as (Hlt & j & Hj & E). split; [lia|]. exists j. split; [lia|done].
    + assert (Hother : forall x l, heap s !! x = Some l -> leaseId l <> js "lease:" ++ uuid i).
      { intros x l Hx E. destruct (Hids x l Hx) as (_ & j & Hj & E'). rewrite E in E'. apply app_inv_head, unique in E'. lia. }
      intros x y l k [[<- <-]|[Hnx Hx]]%lookup_insert_Some [[<- <-]|[Hny Hy]]%lookup_insert_Some E; cbn [leaseId] in E; [done|..].
      * by destruct (Hother y k Hy).
      * by destruct (Hother x l Hx).
      * by eapply Hinj.
  - intros Hu lid x l. bcbn. intros [[<- <-]|[_ Hx]]%lookup_insert_Some [[E <-]|[Hne Hl]]%lookup_insert_Some; try done. by eapply Hu.
Qed.

(** The promise of a request of the queue is a lease of its claimant. *)
Lemma informs_granted s s1 s2 p addr :
  p ∈ queue s -> informs s s1 -> outbox s1 !! number_of p = None -> lends (claimant p) addr s1 s2 ->
  informs s (settle_promise (number_of p) (Granted addr) s2).
Proof.
  intros Hp A Hnone [(l & Hh & Hls & Hwho & Hrel) Hnew Ho Hq He Hc Hseq Hids Hun]. unfold settle_promise. rewrite Ho, Hnone. destruct A.
  constructor; bcbn.
  - intros n r Hn. apply inf_outbox0 in Hn. rewrite lookup_insert_ne; [done|congruence].
  - rewrite Hq. eauto.
  - intros n Hn Hs. destruct (decide (number_of p = n)) as [<-|Hne]; [by exists p|]. rewrite lookup_insert_ne in Hs by done. eauto.
  - intros n x Hn. rewrite Hh. intros [[<- [= <-]]|[_ Hs]]%lookup_insert_Some; [exists p, l; by rewrite lookup_insert_eq|].
    destruct (inf_granted0 n x Hn Hs) as (q & k & Hq' & Hnum & Hk & Hek). exists q, k. rewrite lookup_insert_ne; [done|congruence].
  - intros lid x. rewrite Hls, Hh. intros [[<- <-]|[_ Hx]]%lookup_insert_Some.
    + right. exists p, l. rewrite !lookup_insert_eq. split_and!; try done. destruct (heap s !! addr) as [k|] eqn:Ek; [|done].
      destruct (inf_heap0 addr k Ek) as (k' & Hk' & _). congruence.
    + destruct (inf_leases0 lid x Hx) as [|(q & k & Hq' & Hoq & Hk & Hek & Hn)]; [by left|]. right. exists q, k.
      split_and!; try done; rewrite lookup_insert_ne; [done|congruence|done|congruence].
  - intros x k Hk. apply inf_heap0 in Hk as (k' & Hk' & E). exists k'. rewrite Hh, lookup_insert_ne; [done|congruence].
  - eauto.
  - intros Hu. exact (Hun (inf_unpromised0 Hu)).
  - congruence.
  - congruence.
  - congruence.
Qed.

Lemma informs_cancelled p e s : accounting uuid true s -> p ∈ queue s -> informs s (cancelled p e s).
Proof.
  intros H Hp. destruct (queue_index_Some uuid true s p H Hp) as (i & Hix & Hi). destruct (acc_queue _ _ _ H p Hp) as (a & Ha & _).
  unfold cancelled, unqueue. rewrite Hix. bcbn. rewrite Ha. apply informs_refused; [done|].
  eapply informs_trans; [by apply informs_settled|apply informs_delete_attempt].
Qed.

Lemma informs_tick n s : informs s (set_ticks n s).
Proof. by apply informs_same. Qed.

(** A turn of the drain that grants. *)
Lemma grant_informs s x addr s2 :
  accounting uuid true s -> answered s -> queue s !! nextDrainableIndex s = Some x ->
  grant uuid (attemptId (claimant x)) (demand x) (settlePending x (set_queue (delete (nextDrainableIndex s) (queue s)) s)) = (Ok addr, s2) ->
  informs s (settle_promise (number_of x) (Granted addr) s2).
Proof.
  intros H Hans Hx Hg. assert (x ∈ queue s) as Hin by by eapply list_elem_of_lookup_2.
  pose proof (accounting_settle uuid true s _ x H Hx) as H1. destruct (settled_out uuid true s x _ H Hx) as (_ & _ & _ & Hout & _).
  destruct (acc_queue _ _ _ H x Hin) as (b & Hb & Hw). destruct (settle_attempt x (set_queue (delete (nextDrainableIndex s) (queue s)) s) b Hb) as [a Ha].
  assert (Hid : identity a = claimant x).
  { pose proof (acc_key _ _ _ H _ _ Hb) as Hk. assert (E : identity a = identity b).
    { unfold settlePending in Ha. case_bool_decide; bcbn; [congruence|]. rewrite lookup_alter_eq, Hb in Ha. by injection Ha as <-. }
    rewrite E. destruct (identity b), (claimant x). cbn in *. congruence. }
  eapply informs_granted; [done|by apply informs_settled| |rewrite <- Hid; by eapply grant_lends].
  rewrite Hout. destruct (acc_number _ _ _ H x Hin) as [_ Hn]. apply eq_None_not_Some. intros Hs. by apply Hn, Hans.
Qed.

Lemma drain_loop_informs fuel s r s' : accounting uuid true s -> answered s -> drain_loop clock uuid fuel s = (r, s') -> informs s s'.
Proof.
  revert s r s'. induction fuel as [|fuel IH]; intros s r s' H Hans Hd.
  { injection Hd as _ <-. apply informs_refl. }
  cbn [drain_loop] in Hd. unfold now in Hd. run_in Hd.
  destruct (queue s !! nextDrainableIndex s) as [x|] eqn:Hx; [|injection Hd as _ <-; apply informs_refl].
  assert (x ∈ queue s) as Hin by by eapply list_elem_of_lookup_2.
  set (s1 := set_ticks (S (ticks s)) s) in *. assert (accounting uuid true s1) as H1 by by apply accounting_tick.
  assert (informs s s1) as A1 by apply informs_tick. assert (answered s1) as Hans1 by done.
  destruct (num_leb (deadline x) (clock (ticks s))) eqn:Hexp.
  - rewrite cancel_with_queued in Hd by apply (acc_number _ _ _ H x Hin).
    pose proof (informs_cancelled x deadline_exceeded s1 H1 Hin) as A2.
    destruct (cancelled_spec uuid true s1 x deadline_exceeded H1 Hin) as (H2 & _ & _ & _ & Hans2).
    destruct (drain_loop clock uuid fuel (cancelled x deadline_exceeded s1)) as [r1 s2] eqn:Hd1.
    destruct (drain_loop_spec clock uuid true _ _ _ _ (fun _ => unique) H2 Hd1) as [P _].
    apply IH in Hd1; [|done|eauto]. pose proof (informs_trans _ _ _ A1 (informs_trans _ _ _ A2 Hd1)) as A3.
    destruct r1 as [[]|e]; [|by injection Hd as _ <-]. eapply informs_trans; [exact A3|]. eapply IH; [apply P| |exact Hd]. apply P; eauto.
  - destruct (acc_queue _ _ _ H x Hin) as (a & Ha & _). rewrite Ha in Hd.
    destruct (fits s (demand x)) eqn:Hf; cbn [negb] in Hd; [|by injection Hd as _ <-].
    destruct (grant uuid _ _ _) as [r2 s2] eqn:Hg.
    destruct (drain_grant uuid true s1 _ x _ _ (fun _ => unique) H1 Hx Hf Hg) as (H2 & _ & _ & Hset & Hout & Hok).
    destruct (Hok eq_refl) as [addr ->]. pose proof (grant_informs s1 x addr s2 H1 Hans1 Hx Hg) as A2.
    eapply informs_trans; [exact A1|]. eapply informs_trans; [exact A2|]. eapply IH; [by apply accounting_promise| |exact Hd].
    destruct (settle_promise_same (number_of x) (Granted addr) s2) as (_ & _ & Hset' & Hout'). intros n.
    rewrite Hset', Hset, (Hout' n), Hout, elem_of_union, elem_of_singleton. by rewrite (Hans1 n).
Qed.

Lemma drain_informs s r s' : core uuid true s -> drain clock uuid s = (r, s') -> informs s s'.
Proof. intros H Hd. eapply drain_loop_informs; [apply H|by apply (core_answered _ _ _ H)|exact Hd]. Qed.

Lemma cancel_informs p e s r s' : core uuid true s -> p ∈ queue s -> cancel clock uuid p e s = (r, s') -> informs s s'.
Proof.
  intros H Hp Hc. unfold cancel in Hc. pose proof (core_accounting _ _ _ H) as Hacc. rewrite cancel_with_queued in Hc by apply (acc_number _ _ _ Hacc p Hp).
  destruct (cancelled_spec uuid true s p e Hacc Hp) as (H2 & _ & _ & _ & Hans2).
  eapply informs_trans; [by apply informs_cancelled|]. eapply drain_loop_informs; [exact H2| |exact Hc]. apply Hans2, (core_answered _ _ _ H eq_refl).
Qed.

Lemma cancel_each_informs ps s r s' :
  core uuid true s -> (forall p, p ∈ ps -> p ∈ queue s \/ number_of p ∈ settled s) -> cancel_each clock uuid ps s = (r, s') -> informs s s'.
Proof.
  revert s. induction ps as [|p ps IH]; intros s H Hps Hr; cbn [cancel_each] in Hr; run_in Hr.
  { injection Hr as _ <-. apply informs_refl. }
  destruct (cancel clock uuid p stale_worker s) as [r1 s1] eqn:E.
  assert (A : informs s s1).
  { destruct (decide (number_of p ∈ settled s)) as [Hs|Hs].
    - unfold cancel in E. rewrite cancel_with_settled in E by done. injection E as _ <-. apply informs_refl.
    - destruct (Hps p ltac:(by left)) as [Hp|]; [|done]. by eapply cancel_informs. }
  destruct (cancel_spec clock uuid true s p _ _ _ (fun _ => unique) (core_accounting _ _ _ H) (Hps p ltac:(by left)) E) as (P & _ & _).
  assert (core uuid true s1) as H1 by (eapply core_evolves; [exact H|apply P|apply P|intros; by apply P]).
  destruct r1 as [[]|e]; [|by injection Hr as _ <-]. eapply informs_trans; [exact A|]. eapply IH; [done| |exact Hr].
  intros q Hq. destruct (Hps q ltac:(by right)) as [Hq'|Hq'].
  - by apply (ev_gone _ _ (dp_evolves _ _ _ _ _ P)).
  - right. by apply (ev_settled _ _ (dp_evolves _ _ _ _ _ P)).
Qed.

Lemma informs_reclaim_fold (m : gmap jstring nat) s :
  informs s (map_fold (fun lid addr s =>
    set_leases (delete lid (leases s)) (set_heap (alter flag_released addr (heap s)) s)) s m).
Proof.
  apply (map_fold_weak_ind (fun s' _ => informs s s')); [apply informs_refl|]. intros lid addr m' s' _ A.
  eapply informs_trans; [exact A|]. apply informs_quiet; bcbn; try done.
  - intros x a [_ Hx]%lookup_delete_Some. done.
  - intros x. destruct (decide (addr = x)) as [->|Hne]; [rewrite lookup_alter_eq|rewrite lookup_alter_ne by done]; by destruct (heap s' !! x).
Qed.

Lemma informs_recompute k s : informs s (recomputeReservation k s).
Proof. unfold recomputeReservation. destruct (attempts s !! k); [by apply informs_same|apply informs_refl]. Qed.

Lemma informs_reclaim_attempt k s : informs s (reclaim_attempt k s).
Proof.
  unfold reclaim_attempt. destruct (attempts s !! k) as [a|]; [|apply informs_refl]. cbv zeta.
  eapply informs_trans; [apply (informs_reclaim_fold (held a) s)|]. set (s1 := map_fold _ _ _).
  eapply informs_trans; [|eapply informs_trans; [apply (informs_recompute k)|apply informs_delete_attempt]]. by apply informs_same.
Qed.

Lemma informs_reclaim_attempts ks s : informs s (foldl (fun s id => reclaim_attempt id s) s ks).
Proof. revert s. induction ks as [|k ks IH]; intros s; [apply informs_refl|]. eapply informs_trans; [apply informs_reclaim_attempt|apply IH]. Qed.

Lemma reclaim_informs id epoch s r s' : core uuid true s -> reclaimWorker clock uuid id epoch s = (r, s') -> informs s s'.
Proof.
  intros H Hr. unfold reclaimWorker in Hr. run_in Hr. destruct (cancel_each _ _ _ s) as [r1 s1] eqn:E.
  apply cancel_each_informs in E; [|done|].
  2:{ intros p Hp. apply list_elem_of_filter in Hp as [_ Hp]. by left. }
  destruct r1 as [[]|e]; injection Hr as _ <-; [|done]. eapply informs_trans; [exact E|apply informs_reclaim_attempts].
Qed.

(** The worker named, if it is registered with that epoch, is gone with all it had;
    nothing fails. *)
Lemma disconnect_clears w s r s' :
  core uuid true s -> runId w = brokerRun (config s) -> disconnectWorker clock uuid w s = (r, s') ->
  r = Ok tt /\ informs s s' /\
  forall lid addr l, leases s' !! lid = Some addr -> heap s' !! addr = Some l -> worker (lessee l) <> w.
Proof.
  intros H Hrun Hd. pose proof Hd as Hrun'. unfold disconnectWorker, assertRun in Hd. run_in Hd.
  unfold guard_or in Hd. rewrite bool_decide_eq_true_2 in Hd by done. cbv beta iota in Hd.
  assert (Hown : forall x lid addr l, core uuid true x -> leases x !! lid = Some addr -> heap x !! addr = Some l ->
    workers x !! workerId (worker (lessee l)) = Some (workerEpoch (worker (lessee l)))).
  { intros x lid addr l Hx Hl Hh. pose proof (core_accounting _ _ _ Hx) as Hacc.
    destruct (acc_lease _ _ _ Hacc lid addr Hl) as (k & a & Ha & Hheld). destruct (acc_held _ _ _ Hacc _ _ _ _ Ha Hheld) as (_ & l' & Hl' & _ & Hle & _).
    rewrite Hh in Hl'. injection Hl' as <-. rewrite Hle. by eapply acc_owner. }
  destruct (match workers s !! workerId w with Some e => same_number e (workerEpoch w) | None => false end) eqn:Hw.
  - destruct (workers s !! workerId w) as [e|] eqn:He; [|done]. apply same_number_eq in Hw as ->.
    destruct (reclaimWorker _ _ _ _ s) as [r1 s1] eqn:E. pose proof (reclaim_informs _ _ _ _ _ H E) as A1.
    apply (reclaimWorker_spec clock uuid true (fun _ => unique)) in E as (H1 & _ & Htot & Hno & _); [|done|done].
    specialize (Htot eq_refl) as ->. specialize (Hno eq_refl). cbv beta iota in Hd.
    pose proof (unregistered_core uuid true w s1 H1 Hno) as H2.
    destruct (drain_spec clock uuid true _ _ _ (fun _ => unique) (core_accounting _ _ _ H2) Hd) as [P _].
    split; [by apply P|]. split.
    + eapply informs_trans; [exact A1|]. eapply informs_trans; [|exact (drain_informs _ _ _ H2 Hd)]. by apply informs_same.
    + intros lid addr l Hl Hh Heq.
      assert (core uuid true s') as H' by (eapply core_evolves; [exact H2|apply P|apply P|intros; by apply P]).
      pose proof (Hown _ _ _ _ H' Hl Hh) as Hw. rewrite (ev_workers _ _ (dp_evolves _ _ _ _ _ P)) in Hw. bcbn. rewrite Heq, lookup_delete_eq in Hw. done.
  - injection Hd as <- <-. split; [done|]. split; [apply informs_refl|]. intros lid addr l Hl Hh Heq.
    rewrite <- Heq, (Hown _ _ _ _ H Hl Hh) in Hw. rewrite same_number_refl in Hw; [done|]. pose proof (core_epoch _ _ _ H _ _ (Hown _ _ _ _ H Hl Hh)). done.
Qed.

Lemma informs_epochs h m s s' : informs s s' -> informs (set_highestEpoch h s) (set_highestEpoch h (set_workers m s')).
Proof. intros A. destruct A. by constructor. Qed.

(** A worker is registered only with an epoch above every earlier one. *)
Lemma register_informs w s r s' :
  core uuid true s -> registerWorker clock uuid w s = (r, s') ->
  (r <> Ok tt /\ s' = s) \/
  (r = Ok tt /\ runId w = brokerRun (config s) /\ (forall h, highestEpoch s !! workerId w = Some h -> num_leb (workerEpoch w) h = false) /\
   assertWorker (workerId w) (workerEpoch w) = Ok tt /\ informs (set_highestEpoch (<[workerId w := workerEpoch w]> (highestEpoch s)) s) s').
Proof.
  intros H Hr. unfold registerWorker, assertRun in Hr. run_in Hr.
  destruct (guard_or (bool_decide _) _) as [[]|] eqn:Eg; [|injection Hr as <- <-; by left].
  apply guard_or_Ok in Eg. breflect.
  destruct (assertWorker _ _) as [u|] eqn:Ew; [|injection Hr as <- <-; by left].
  pose proof (assertWorker_epoch _ _ _ Ew) as Hnan. destruct u.
  destruct (match highestEpoch s !! _ with Some _ => _ | None => _ end) eqn:Eh; [injection Hr as <- <-; by left|].
  assert (Hhigh : forall h, highestEpoch s !! workerId w = Some h -> num_leb (workerEpoch w) h = false) by (intros h E; by rewrite E in Eh).
  right. destruct (workers s !! workerId w) as [e|] eqn:Hw.
  - destruct (reclaimWorker _ _ _ _ s) as [r1 s1] eqn:E. pose proof (reclaim_informs _ _ _ _ _ H E) as A1.
    apply (reclaimWorker_spec clock uuid true (fun _ => unique)) in E as (H1 & _ & Htot & Hno & _); [|done|done].
    specialize (Htot eq_refl) as ->. specialize (Hno eq_refl). pose proof (registered_core uuid true w s1 H1 Hnan Hno) as H2.
    destruct (drain_spec clock uuid true _ _ _ (fun _ => unique) (core_accounting _ _ _ H2) Hr) as [P _].
    split_and!; [by apply P|done|done|done|]. rewrite <- (inf_epochs _ _ A1) in *.
    eapply informs_trans; [|exact (drain_informs _ _ _ H2 Hr)]. by apply informs_epochs.
  - injection Hr as <- <-. split_and!; try done. apply informs_epochs, informs_refl.
Qed.

(** ** Acquiring *)

Record acquires (o : AcquireResourcesOptions) (r : result ResourceBrokerErrorCode Promised) (s s' : Broker) : Prop := {
  acq_outbox n v : outbox s !! n = Some v -> outbox s' !! n = Some v;
  acq_queue p : p ∈ queue s' -> p ∈ queue s \/ r = Ok (Waiting (number_of p)) /\ claimant p = owner o;
  acq_answer n : outbox s !! n = None -> is_Some (outbox s' !! n) -> (exists p, p ∈ queue s /\ number_of p = n) \/ r = Ok (Waiting n);
  acq_answered n addr : outbox s !! n = None -> outbox s' !! n = Some (Granted addr) ->
    exists l, heap s' !! addr = Some l /\ ((exists p, p ∈ queue s /\ number_of p = n /\ lessee l = claimant p) \/ (r = Ok (Waiting n) /\ lessee l = owner o));
  acq_number n : r = Ok (Waiting n) -> sequence s < n <= sequence s';
  acq_sequence : sequence s <= sequence s';
  acq_leases lid addr : leases s' !! lid = Some addr ->
    leases s !! lid = Some addr \/
    (exists p l, p ∈ queue s /\ outbox s' !! number_of p = Some (Granted addr) /\ heap s' !! addr = Some l /\ lessee l = claimant p /\ heap s !! addr = None) \/
    (exists l, (r = Ok (Settled (Granted addr)) \/ exists n, r = Ok (Waiting n) /\ outbox s' !! n = Some (Granted addr)) /\
       heap s' !! addr = Some l /\ lessee l = owner o /\ heap s !! addr = None);
  acq_heap addr l : heap s !! addr = Some l -> exists l', heap s' !! addr = Some l' /\ same_record l l';
  acq_ids : ids s -> ids s';
  acq_unpromised : unpromised s -> unpromised s';
  acq_epochs : highestEpoch s' = highestEpoch s;
  acq_config : config s' = config s;
  acq_error : (forall v, r <> Ok v) -> informs s s';
  acq_granted addr : r = Ok (Settled (Granted addr)) -> exists l, heap s' !! addr = Some l /\ lessee l = owner o;
}.

Lemma informs_acquires o r s s' : informs s s' -> match r with Ok (Waiting _) | Ok (Settled (Granted _)) => False | _ => True end -> acquires o r s s'.
Proof.
  intros A Hr. destruct A. constructor; eauto.
  - intros n addr Hn Hs. destruct (inf_granted0 n addr Hn Hs) as (p & l & Hp & Ho & Hl & He). exists l. split; [done|]. left. by exists p.
  - intros n ->. done.
  - lia.
  - intros lid addr H. destruct (inf_leases0 lid addr H) as [|(p & l & ? & ? & ? & ? & ?)]; eauto 10.
  - intros _. by constructor.
  - intros addr ->. done.
Qed.

(** Only the promise of a request in the queue is open. *)
Lemma queue_open p s : core uuid true s -> p ∈ queue s -> outbox s !! number_of p = None.
Proof.
  intros H Hp. destruct (acc_number _ _ _ (core_accounting _ _ _ H) p Hp) as [_ Hn]. apply eq_None_not_Some. intros Hs. by apply Hn, (core_answered _ _ _ H eq_refl).
Qed.

Lemma attempt_of_informs who s r s' : attempt_of who s = (r, s') -> informs s s'.
Proof. unfold attempt_of. destruct (attempts s !! attemptId who); intros [= _ <-]; [apply informs_refl|by apply informs_same]. Qed.

Lemma informs_acquires_waiting o n p s s3 s4 :
  informs s3 s4 -> queue s3 = queue s ++ [p] -> claimant p = owner o -> number_of p = n ->
  outbox s3 = outbox s -> leases s3 = leases s -> heap s3 = heap s -> highestEpoch s3 = highestEpoch s -> config s3 = config s -> sequence s < n <= sequence s3 -> (ids s -> ids s3) ->
  acquires o (Ok (Waiting n)) s s4.
Proof.
  intros A Hq Hp <- Ho Hl Hh He Hc Hseq Hi. destruct A.
  assert (Hin : forall q, q ∈ queue s3 -> q ∈ queue s \/ q = p) by (intros q; rewrite Hq, elem_of_app, list_elem_of_singleton; tauto).
  assert (Hu : unpromised s -> unpromised s4) by (intros Hu; apply inf_unpromised0; unfold unpromised; by rewrite Hl, Hh).
  constructor; try congruence; try (by rewrite <- Ho); try (by rewrite <- Hh); eauto.
  - intros q Hq4. destruct (Hin q (inf_queue0 q Hq4)) as [| ->]; [by left|by right].
  - intros m Hm Hs. rewrite <- Ho in Hm. destruct (inf_answer0 m Hm Hs) as (q & Hq3 & <-). destruct (Hin q Hq3) as [| ->]; [left; by exists q|by right].
  - intros m addr Hm Hs. rewrite <- Ho in Hm. destruct (inf_granted0 m addr Hm Hs) as (q & l & Hq3 & <- & Hl4 & Hle). exists l. split; [done|].
    destruct (Hin q Hq3) as [| ->]; [left; by exists q|right; split; [done|congruence]].
  - lia.
  - intros lid addr H. destruct (inf_leases0 lid addr H) as [|(q & l & Hq3 & Hoq & Hl4 & Hle & Hn)]; [left; congruence|]. rewrite Hh in Hn.
    destruct (Hin q Hq3) as [| ->]; [right; left; by exists q, l|]. right. right. exists l. split_and!; [right; by exists (number_of p)|done|congruence|done].
  - intros Hno. by destruct (Hno (Waiting (number_of p))).
Qed.

Lemma acquire_informs o s r s' : wf uuid true s -> acquire clock uuid o s = (r, s') -> acquires o r s s'.
Proof.
  intros [H _] Hr. unfold acquire, now in Hr. run_in Hr.
  destruct (assertIdentity _ s) as [[[]|] s0] eqn:Ei; apply assertIdentity_spec in Ei as [-> Hid]; [|injection Hr as <- <-; apply informs_acquires; [apply informs_refl|done]].
  destruct (Hid eq_refl) as [_ Hwk].
  destruct (normalizeVector _ _) as [want|] eqn:En; [|injection Hr as <- <-; apply informs_acquires; [apply informs_refl|done]].
  apply normalizeVector_Ok in En.
  destruct (negb _); [injection Hr as <- <-; apply informs_acquires; [apply informs_refl|done]|].
  destruct (bool_decide _); [injection Hr as <- <-; apply informs_acquires; [apply informs_refl|done]|].
  set (s1 := set_ticks (S (ticks s)) s) in *. assert (informs s s1) as A1 by apply informs_tick.
  destruct (num_leb _ _); [injection Hr as <- <-; by apply informs_acquires|].
  destruct (attempt_of (owner o) s1) as [r2 s2] eqn:Ea. pose proof (informs_trans _ _ _ A1 (attempt_of_informs _ _ _ _ Ea)) as A2.
  assert (accounting uuid true s1) as Hacc1 by apply accounting_tick, H.
  destruct (accounting_attempt_of uuid true s1 _ _ _ Hacc1 Hwk Ea) as [Hacc2 Hatt].
  destruct (attempt_of_same _ _ _ _ Ea) as (Hev & Hq & Hset & Hout & Hus & Hh).
  assert (core uuid true s1) as H1 by (eapply core_same; [exact H|exact Hacc1|by apply evolves_same|done|done]).
  assert (core uuid true s2) as H2 by (eapply core_same; [exact H1|exact Hacc2|exact Hev|done|done]).
  destruct r2 as [[]|]; [|injection Hr as <- <-; by apply informs_acquires]. destruct (Hatt eq_refl) as (a & Ha & Hown).
  assert (Hwho : identity a = owner o).
  { pose proof (acc_key _ _ _ Hacc2 _ _ Ha) as Hk. destruct (identity a), (owner o). cbn in *. congruence. }
  destruct (_ && fits s2 want) eqn:Enow.
  - destruct (grant uuid _ _ s2) as [r3 s3] eqn:Eg. destruct (grant_total uuid true s2 _ a _ _ _ unique Hacc2 Ha Eg) as [addr ->].
    injection Hr as <- <-. apply (grant_lends _ _ _ a) in Eg as [(l & Hhp & Hls & Hle & Hrel) Hnew Ho3 Hq3 He3 Hc3 Hseq3 Hi3 Hu3]; [|done|done]. destruct A2.
    constructor.
    + intros n v Hn. rewrite Ho3. eauto.
    + intros p. rewrite Hq3. eauto.
    + intros n Hn Hs. rewrite Ho3 in Hs. eauto.
    + intros n x Hn Hs. rewrite Ho3 in Hs. destruct (inf_granted0 n x Hn Hs) as (q & k & Hq' & Hnum & Hk & Hek).
      exists k. rewrite Hhp, lookup_insert_ne by congruence. split; [done|]. left. by exists q.
    + done.
    + lia.
    + intros lid x. rewrite Hls. intros [[<- <-]|[_ Hx]]%lookup_insert_Some.
      * right. right. exists l. rewrite Hhp, lookup_insert_eq. split_and!; [by left|done|congruence|].
        destruct (heap s !! addr) as [k|] eqn:Ek; [|done]. destruct (inf_heap0 addr k Ek) as (k' & Hk' & _). congruence.
      * destruct (inf_leases0 lid x Hx) as [|(p & k & Hp & Hok & Hk & Hek & Hn)]; [by left|]. right. left. exists p, k.
        rewrite Hhp, Ho3, lookup_insert_ne; [done|congruence].
    + intros x k Hk. destruct (inf_heap0 x k Hk) as (k' & Hk' & E). exists k'. rewrite Hhp, lookup_insert_ne; [done|congruence].
    + eauto.
    + intros Hu. exact (Hu3 (inf_unpromised0 Hu)).
    + congruence.
    + congruence.
    + intros Hno. by destruct (Hno (Settled (Granted addr))).
    + intros x [= <-]. exists l. rewrite Hhp, lookup_insert_eq. split; [done|congruence].
  - destruct (maxQueued _ <=? _) eqn:Efull.
    + injection Hr as <- <-. apply informs_acquires; [|done]. eapply informs_trans; [exact A2|apply informs_delete_attempt].
    + breflect. match type of Hr with context [drain clock uuid ?x] => set (s3 := x) in * end.
      set (p := {| number_of := sequence s2 + 1; claimant := owner o; demand := want; deadline := until o; abortable := _ |}) in *.
      assert (core uuid true s3) as H3.
      { assert (demand_ok (capacities (config s2)) (demand p)) as Hdem by (rewrite (ev_config _ _ Hev); done).
        pose proof (core_enqueue uuid true s2 p a H2 Ha Hown Hdem eq_refl Efull) as He.
        eapply core_same; [exact He|apply accounting_tick, He|by apply evolves_same|done|done]. }
      destruct (drain clock uuid s3) as [r4 s4] eqn:Ed. destruct (drain_spec clock uuid true _ _ _ (fun _ => unique) (core_accounting _ _ _ H3) Ed) as [P _].
      rewrite (dp_total _ _ _ _ _ P eq_refl) in Hr. injection Hr as <- <-. pose proof (drain_informs _ _ _ H3 Ed) as A3.
      assert (E2 : outbox s2 = outbox s /\ queue s2 = queue s /\ leases s2 = leases s /\ heap s2 = heap s /\ highestEpoch s2 = highestEpoch s /\ config s2 = config s /\ sequence s2 = sequence s).
      { unfold attempt_of in Ea. destruct (attempts s1 !! attemptId (owner o)); [by injection Ea as _ <-|by injection Ea as <-]. }
      destruct E2 as (Eo & Eq & El & Eh & Ee & Ec & Es).
      eapply (informs_acquires_waiting o _ p s s3); try done; try (unfold s3; bcbn; congruence); [unfold s3, p; bcbn; lia|].
      intros Hids. change (ids s2). by apply A2.
Qed.

(** ** Timers, aborts and handles *)

Lemma timer_informs p s r s' : wf uuid true s -> p ∈ queue s -> onTimer clock uuid p s = (r, s') -> informs s s'.
Proof. intros [H _]. apply cancel_informs; done. Qed.

Lemma abort_informs p s r s' : wf uuid true s -> p ∈ queue s -> onAbort clock uuid p s = (r, s') -> informs s s'.
Proof. intros [H _] Hp. unfold onAbort. destruct (abortable p); [by apply cancel_informs|]. intros [= _ <-]. apply informs_refl. Qed.

Lemma attach_informs h given s r s' : attach h given s = (r, s') -> informs s s'.
Proof.
  intros Hr. unfold attach in Hr. run_in Hr. destruct (heap s !! h) as [l|]; [|injection Hr as _ <-; apply informs_refl].
  unfold attach_lease in Hr. run_in Hr.
  destruct (authenticatedLease _ _ _ s) as [[[addr l1]|e] s1] eqn:E; apply authenticatedLease_spec in E as [-> _]; [|injection Hr as _ <-; apply informs_refl].
  destruct (checkAttachments l1 given); injection Hr as _ <-; [|apply informs_refl]. apply informs_quiet; bcbn; try done.
  intros x. destruct (decide (addr = x)) as [->|Hne]; [rewrite lookup_alter_eq|rewrite lookup_alter_ne by done]; by destruct (heap s !! x).
Qed.

(** Setting the memo of a handle whose lease is gone. *)
Lemma informs_memo s s1 h r :
  informs s s1 -> (forall lid, leases s1 !! lid <> Some h) ->
  informs s (set_heap (alter (fun l => {| leaseId := leaseId l; token := token l; lessee := lessee l; resources := resources l; attachments := attachments l;
    released := released l; releasePromise := Some r |}) h (heap s1)) s1).
Proof.
  intros A Hgone. set (f := fun l : LeaseRecord => _). destruct A.
  assert (Hf : forall x l, heap s1 !! x = Some l -> exists l', alter f h (heap s1) !! x = Some l' /\ same_record l l').
  { intros x l Hx. destruct (decide (h = x)) as [->|Hne]; [exists (f l); by rewrite lookup_alter_eq, Hx|exists l; by rewrite lookup_alter_ne]. }
  assert (Hb : forall x l', alter f h (heap s1) !! x = Some l' -> exists l, heap s1 !! x = Some l /\ same_record l l').
  { intros x l' [(<- & l & Hl & ->)|[_ Hl]]%lookup_alter_Some; by eexists. }
  constructor; bcbn; try done.
  - intros n addr Hn Hs. destruct (inf_granted0 n addr Hn Hs) as (p & l & Hp & Ho & Hl & He). destruct (Hf addr l Hl) as (l' & Hl' & _ & _ & El).
    exists p, l'. split_and!; [done..|congruence].
  - intros lid addr H. destruct (inf_leases0 lid addr H) as [|(p & l & Hp & Ho & Hl & He & Hn)]; [by left|]. right.
    destruct (Hf addr l Hl) as (l' & Hl' & _ & _ & El). exists p, l'. split_and!; [done..|congruence|done].
  - intros addr l H. destruct (inf_heap0 addr l H) as (l1 & H1 & E1). destruct (Hf addr l1 H1) as (l2 & H2 & E2). exists l2. split; [done|by eapply same_record_trans].
  - intros [Hi Hinj]%inf_ids0. split; bcbn.
    + intros addr l' (l & Hl & E & _)%Hb. rewrite E. by apply (Hi addr l).
    + intros a b l k (l0 & Hl0 & E0 & _)%Hb (k0 & Hk0 & F0 & _)%Hb E. apply (Hinj a b l0 k0); [done..|congruence].
  - intros Hu%inf_unpromised0 lid addr l Hlive. bcbn. rewrite lookup_alter_ne; [by eapply Hu|]. intros <-. by eapply Hgone.
Qed.

(** A lease whose holder the broker would let in. *)
Definition let_in (s : Broker) (w : WorkerIdentity) : Prop := runId w = brokerRun (config s) /\ assertWorker (workerId w) (workerEpoch w) = Ok tt.

Lemma given_back_informs addr l s : informs s (given_back addr l s).
Proof.
  unfold given_back. cbv zeta. eapply informs_trans; [|eapply informs_trans; [apply informs_recompute|apply informs_delete_attempt]].
  apply informs_quiet; bcbn; try done.
  - intros x a [_ Hx]%lookup_delete_Some. done.
  - intros x. destruct (decide (addr = x)) as [->|Hne]; [rewrite lookup_alter_eq|rewrite lookup_alter_ne by done]; by destruct (heap s !! x).
Qed.

Lemma authenticated_live s lid addr l :
  core uuid true s -> leases s !! lid = Some addr -> heap s !! addr = Some l -> leaseId l = lid -> let_in s (worker (lessee l)) ->
  workers s !! workerId (worker (lessee l)) = Some (workerEpoch (worker (lessee l))) ->
  authenticatedLease (lessee l) (leaseId l) (token l) s = (Ok (addr, l), s).
Proof.
  intros H Hl Hh Hid [Hrun Hw] Hreg. assert (Hnan : workerEpoch (worker (lessee l)) <> NaN) by exact (core_epoch _ _ _ H _ _ Hreg).
  unfold authenticatedLease, assertIdentity, assertRun, mbind, method_bind, lift, get, guard_or.
  rewrite bool_decide_eq_true_2 by done. rewrite Hw, Hreg, same_number_refl by done. rewrite Hid, Hl. cbn. rewrite Hh. cbn.
  rewrite bool_decide_eq_true_2 by done. unfold sameAttempt, sameWorker. by rewrite !bool_decide_eq_true_2, same_number_refl.
Qed.

(** Releasing a handle ends its lease, whatever the call answers, and does nothing else
    to the others. *)
Lemma release_ends h s r s' :
  wf uuid true s -> ids s -> unpromised s ->
  (forall lid l, leases s !! lid = Some h -> heap s !! h = Some l -> let_in s (worker (lessee l))) ->
  release clock uuid h s = (r, s') -> informs s s' /\ (forall lid, leases s' !! lid <> Some h).
Proof.
  intros [H _] Hids Hun Hadm Hr. pose proof (core_accounting _ _ _ H) as Hacc. unfold release in Hr. run_in Hr.
  assert (Hheld : forall lid, leases s !! lid = Some h -> exists l, heap s !! h = Some l /\ leaseId l = lid /\ released l = false /\
    workers s !! workerId (worker (lessee l)) = Some (workerEpoch (worker (lessee l)))).
  { intros lid Hl. destruct (acc_lease _ _ _ Hacc lid h Hl) as (k & a & Ha & Hh). destruct (acc_held _ _ _ Hacc _ _ _ _ Ha Hh) as (_ & l & Hl' & Hid & Hle & Hrel).
    exists l. split_and!; try done. rewrite Hle. by eapply acc_owner. }
  destruct (heap s !! h) as [l|] eqn:Hh.
  2:{ injection Hr as _ <-. split; [apply informs_refl|]. intros lid Hl. by destruct (Hheld lid Hl) as (? & ? & _). }
  destruct (releasePromise l) as [r0|] eqn:Hp.
  { injection Hr as _ <-. split; [apply informs_refl|]. intros lid Hl. rewrite (Hun lid h l Hl Hh) in Hp. done. }
  destruct (release_lease _ _ _ _ _ s) as [r1 s1] eqn:E. injection Hr as _ <-.
  cut (informs s s1 /\ forall lid, leases s1 !! lid <> Some h).
  { intros [A Hgone]. split; [by apply informs_memo|exact Hgone]. }
  destruct (authenticatedLease (lessee l) (leaseId l) (token l) s) as [r2 s2] eqn:Ea.
  pose proof (authenticatedLease_spec _ _ _ _ _ _ Ea) as [-> Hok]. destruct r2 as [[addr l2]|e].
  - destruct (Hok addr l2 eq_refl) as [Hl2 Hh2]. destruct (given_back_spec uuid true s _ addr l2 H Hl2 Hh2) as (Hrel & Hc & Hnone).
    rewrite (release_lease_run _ _ _ _ _ _ _ _ Ea Hrel) in E. pose proof (given_back_informs addr l2 s) as A1. pose proof (drain_informs _ _ _ Hc E) as A2.
    split; [by eapply informs_trans|]. intros lid Hl.
    destruct (inf_leases _ _ A2 lid h Hl) as [Hl1|(p & k & _ & _ & _ & _ & Hn)].
    + destruct (inf_leases _ _ A1 lid h Hl1) as [Hl0|(p & k & _ & _ & _ & _ & Hn)]; [|congruence].
      destruct (Hheld lid Hl0) as (l3 & [= <-] & Hid & _). congruence.
    + destruct (inf_heap _ _ A1 h l Hh) as (k' & Hk' & _). congruence.
  - assert (s1 = s) as -> by (unfold release_lease, mbind, method_bind in E; rewrite Ea in E; by injection E as _ <-).
    split; [apply informs_refl|]. intros lid Hl. destruct (Hheld lid Hl) as (l3 & [= <-] & Hid & _ & Hreg).
    rewrite (authenticated_live s lid h l) in Ea; try done. by eapply Hadm.
Qed.
End Leases.
