(* ===== verification/LocalTransport.v ===== *)
(** * Local transport (packages/local-transport/src/index.ts)

    What the resource broker and the run journal share of their local sockets: the
    decoder that cuts what a socket hands it into bounded slices, the envelopes of
    requests and responses, and the secret both sides know.  Endpoints and their clean
    up are the operating system's. *)

From S2P Require Import Prelude JsText Dto Framing JsObject.

Local Open Scope Z_scope.

Inductive LocalTransportErrorCode : Set := local_frame_encoding | local_frame_malformed | local_frame_oversized | invalid_envelope | invalid_token.
Global Instance LocalTransportErrorCode_eq_dec : EqDecision LocalTransportErrorCode.
Proof. solve_decision. Defined.

(** [localError] *)
Definition localError (e : ViolationCode) : LocalTransportErrorCode :=
  match e with frame_encoding => local_frame_encoding | frame_oversized => local_frame_oversized | _ => local_frame_malformed end.

(** ** The decoder *)

Record LocalJsonDecoder : Type := { inner : FrameDecoder; maxBufferedBytes : Z }.

Definition newLocalJsonDecoder (maxFrameBytes : number) : result LocalTransportErrorCode LocalJsonDecoder :=
  match createFrameDecoder maxFrameBytes with
  | Ok d => Ok {| inner := d; maxBufferedBytes := d_maxFrameBytes d + 4 |}
  | Err e => Err (localError e)
  end.

(** How much of what is left of a chunk goes to the frame decoder at once. *)
Definition slice_length (d : LocalJsonDecoder) (chunk : bytes) : nat :=
  Nat.min (length chunk) (Z.to_nat (Z.max 1 (maxBufferedBytes d - Z.of_nat (buffered (inner d))))).

Section Push.
Context (json_parse : jstring -> option (heap * value)).
(** The decoder lives in the state of its owner, whose handler runs between slices. *)
Context {S E : Type} (decoder_of : S -> LocalJsonDecoder) (put : FrameDecoder -> S -> S) (wrong : LocalTransportErrorCode -> E) (onMessage : json -> method S E unit).

Fixpoint deliver (ms : list message) : method S E unit :=
  match ms with [] => mret tt | m :: ms => _ ← onMessage (m_dto m); deliver ms end.

(** One turn of the loop takes at least a byte, if there is one. *)
Fixpoint push_slices (fuel : nat) (chunk : bytes) : method S E unit :=
  match fuel with
  | O => mret tt
  | Datatypes.S fuel =>
      s ← get;
      let n := slice_length (decoder_of s) chunk in
      let '(r, d) := push json_parse (inner (decoder_of s)) (take n chunk) in
      _ ← modify (put d);
      match r with
      | Err e => throw (wrong (localError e))
      | Ok ms =>
          _ ← deliver ms;
          if (length chunk <=? n)%nat then mret tt else push_slices fuel (drop n chunk)
      end
  end.

(** [LocalJsonDecoder.push] *)
Definition local_push (chunk : bytes) : method S E unit := push_slices (Datatypes.S (length chunk)) chunk.
End Push.

(** ** Envelopes *)

Record RequestEnvelope : Type := { rq_type : jstring; rq_requestId : jstring; rq_fields : list (jstring * json) }.
Record ResponseEnvelope : Type := { rs_requestId : jstring; rs_answer : result json json }.

Definition object_ (v : json) : result LocalTransportErrorCode (list (jstring * json)) := match v with JObj members => Ok members | _ => Err invalid_envelope end.

Definition boundedText (v : option json) (max : Z) : result LocalTransportErrorCode jstring :=
  match v with
  | Some (JStr t) => if (length t =? 0)%nat || (max <? Z.of_nat (length t)) then Err invalid_envelope else Ok t
  | _ => Err invalid_envelope
  end.

(** [message.v !== version] *)
Definition is_version (v : option json) (version : Z) : bool :=
  match v ≫= json_number with Some n => num_leb n (int version) && num_leb (int version) n | _ => false end.

(** [message[key] === text] *)
Definition is_text (v : option json) (text : jstring) : bool := match v with Some (JStr t) => bool_decide (t = text) | _ => false end.

Definition parseRequestEnvelope (v : json) (version : Z) : result LocalTransportErrorCode RequestEnvelope :=
  message ← object_ v;
  _ ← guard_or (is_version (jget message (js "v")) version) invalid_envelope;
  type ← boundedText (jget message (js "type")) 64;
  requestId ← boundedText (jget message (js "requestId")) 256;
  Ok {| rq_type := type; rq_requestId := requestId; rq_fields := message |}.

Definition parseResponseEnvelope (v : json) (version requestIdMax : Z) : result LocalTransportErrorCode ResponseEnvelope :=
  message ← object_ v;
  match jget message (js "ok") with
  | Some (JBool ok) =>
      _ ← guard_or (is_version (jget message (js "v")) version && is_text (jget message (js "type")) (js "response")) invalid_envelope;
      requestId ← boundedText (jget message (js "requestId")) requestIdMax;
      match ok, jget message (js "result"), jget message (js "error") with
      | true, Some r, None => Ok {| rs_requestId := requestId; rs_answer := Ok r |}
      | false, None, Some e => Ok {| rs_requestId := requestId; rs_answer := Err e |}
      | _, _, _ => Err invalid_envelope
      end
  | _ => Err invalid_envelope
  end.

Definition responseEnvelope (version : Z) (requestId : jstring) (answer : result json json) : json :=
  JObj ([(js "v", JNum (int version)); (js "type", JStr (js "response")); (js "requestId", JStr requestId)] ++
        match answer with
        | Ok r => [(js "ok", JBool true); (js "result", r)]
        | Err e => [(js "ok", JBool false); (js "error", e)]
        end).

(** ** Secrets *)

(** [createLocalToken] of the token given, or of a random one. *)
Definition createLocalToken (provided : option jstring) (random : jstring) : result LocalTransportErrorCode jstring :=
  let token := default random provided in
  if (Z.of_nat (length token) <? 32) || (512 <? Z.of_nat (length token)) || LONE_SURROGATE_test token then Err invalid_token else Ok token.

(** [update(text, 'utf16le')] *)
Definition utf16le (t : jstring) : bytes := mjoin ((fun c => [Z.land c 255; Z.shiftr c 8]) <$> t).

Definition sameLocalSecret (sha256 : bytes -> bytes) (expected actual : jstring) : bool := bool_decide (sha256 (utf16le expected) = sha256 (utf16le actual)).

(** ** What the decoder delivers *)

Section Delivery.
Context (json_parse : jstring -> option (heap * value)).

(** The decoder with the messages handed out so far. *)
Definition collecting : Type := LocalJsonDecoder * list json.
Definition collect_put (d : FrameDecoder) (s : collecting) : collecting := ({| inner := d; maxBufferedBytes := maxBufferedBytes s.1 |}, s.2).
Definition collect (m : json) : method collecting LocalTransportErrorCode unit := modify (fun s => (s.1, s.2 ++ [m])).
Definition collected_push : bytes -> method collecting LocalTransportErrorCode unit := local_push json_parse fst collect_put (fun e => e) collect.

Fixpoint collect_all (chunks : list bytes) : method collecting LocalTransportErrorCode unit :=
  match chunks with [] => mret tt | c :: chunks => _ ← collected_push c; collect_all chunks end.

Definition local_ok (d : LocalJsonDecoder) : Prop := waiting json_parse (inner d) /\ maxBufferedBytes d = d_maxFrameBytes (inner d) + 4.

Lemma deliver_collect ms s : deliver collect ms s = (Ok tt, (s.1, s.2 ++ (m_dto <$> ms))).
Proof.
  revert s. induction ms as [|m ms IH]; intros [d out]; cbn [deliver]; [by rewrite app_nil_r|]. unfold mbind, method_bind, collect, modify.
  rewrite IH. cbn. by rewrite <- app_assoc.
Qed.

(** A clean stretch is delivered whole, in whatever slices. *)
Lemma push_slices_clean fuel chunk d out ms r :
  local_ok d -> (length chunk < fuel)%nat -> scans json_parse (d_maxFrameBytes (inner d)) (pending (inner d) ++ chunk) ms (inl r) ->
  exists d', push_slices json_parse fst collect_put (fun e => e) collect fuel chunk (d, out) = (Ok tt, (d', out ++ (m_dto <$> ms))) /\
    local_ok d' /\ pending (inner d') = r /\ d_maxFrameBytes (inner d') = d_maxFrameBytes (inner d).
Proof.
  revert chunk d out ms. induction fuel as [|fuel IH]; intros chunk d out ms [Hw Hmax] Hlt Hs; [lia|]. cbn [push_slices].
  unfold mbind, method_bind, get, modify. cbn [fst].
  set (n := slice_length d chunk). pose proof Hw as (Hok & Hf & Hq).
  destruct (scans_total json_parse (d_maxFrameBytes (inner d)) (pending (inner d) ++ take n chunk)) as (ms1 & o1 & H1).
  pose proof (push_scans json_parse (inner d) (take n chunk) ms1 o1 Hok Hf H1) as Hp.
  rewrite <- (take_drop n chunk) in Hs. rewrite app_assoc in Hs. destruct o1 as [r1|e].
  2:{ pose proof (scans_app_inr _ _ _ _ _ (drop n chunk) H1) as H3. by destruct (scans_functional _ _ _ _ _ _ _ Hs H3). }
  destruct Hp as (d1 & -> & Hw1 & Hr1 & Hm1).
  destruct (scans_total json_parse (d_maxFrameBytes (inner d)) (r1 ++ drop n chunk)) as (ms2 & o2 & H2).
  pose proof (scans_app_inl _ _ _ _ _ _ _ _ H1 H2) as H3. destruct (scans_functional _ _ _ _ _ _ _ Hs H3) as [-> <-].
  rewrite deliver_collect. cbn [fst snd collect_put inner maxBufferedBytes].
  assert (Hok1 : local_ok (Build_LocalJsonDecoder d1 (maxBufferedBytes d))) by (split; cbn; [done|by rewrite Hm1]).
  destruct (Nat.leb_spec (length chunk) n) as [Hle|Hgt].
  - rewrite drop_ge in H2 by done. rewrite app_nil_r in H2. rewrite <- Hr1, <- Hm1 in H2. destruct Hw1 as (Hok1' & Hf1 & Hq1).
    destruct (scans_functional _ _ _ _ _ _ _ H2 Hq1) as [-> [= ->]]. exists {| inner := d1; maxBufferedBytes := maxBufferedBytes d |}.
    rewrite app_nil_r. split_and!; [done|done|done|done].
  - assert (0 < n)%nat by (unfold n, slice_length in *; destruct chunk; cbn [length] in *; lia).
    destruct (IH (drop n chunk) {| inner := d1; maxBufferedBytes := maxBufferedBytes d |} (out ++ (m_dto <$> ms1)) ms2) as (d' & Hd' & Hok' & Hp' & Hm').
    + done.
    + rewrite length_drop. lia.
    + cbn [inner]. by rewrite Hm1, Hr1.
    + exists d'. rewrite Hd', fmap_app, <- app_assoc. split_and!; try done. cbn [inner] in Hm'. congruence.
Qed.

Lemma collect_all_clean chunks d out ms r :
  local_ok d -> scans json_parse (d_maxFrameBytes (inner d)) (pending (inner d) ++ mjoin chunks) ms (inl r) ->
  exists d', collect_all chunks (d, out) = (Ok tt, (d', out ++ (m_dto <$> ms))) /\ local_ok d' /\ pending (inner d') = r /\ d_maxFrameBytes (inner d') = d_maxFrameBytes (inner d).
Proof.
  revert d out ms. induction chunks as [|c chunks IH]; intros d out ms Hd Hs.
  - cbn in Hs. rewrite app_nil_r in Hs. destruct Hd as [Hw Hm]. destruct (scans_functional _ _ _ _ _ _ _ Hs (proj2 (proj2 Hw))) as [-> [= ->]].
    exists d. cbn. rewrite app_nil_r. done.
  - change (mjoin (c :: chunks)) with (c ++ mjoin chunks) in Hs. rewrite app_assoc in Hs.
    destruct (scans_total json_parse (d_maxFrameBytes (inner d)) (pending (inner d) ++ c)) as (ms1 & o1 & H1). destruct o1 as [r1|e].
    2:{ pose proof (scans_app_inr _ _ _ _ _ (mjoin chunks) H1) as H3. by destruct (scans_functional _ _ _ _ _ _ _ Hs H3). }
    destruct (scans_total json_parse (d_maxFrameBytes (inner d)) (r1 ++ mjoin chunks)) as (ms2 & o2 & H2).
    pose proof (scans_app_inl _ _ _ _ _ _ _ _ H1 H2) as H3. destruct (scans_functional _ _ _ _ _ _ _ Hs H3) as [-> <-].
    destruct (push_slices_clean (S (length c)) c d out ms1 r1 Hd ltac:(lia) H1) as (d1 & Hd1 & Hok1 & Hp1 & Hm1).
    destruct (IH d1 (out ++ (m_dto <$> ms1)) ms2 Hok1) as (d2 & Hd2 & Hok2 & Hp2 & Hm2); [by rewrite Hm1, Hp1|].
    exists d2. cbn [collect_all]. unfold collected_push, local_push, mbind, method_bind. rewrite Hd1, Hd2, fmap_app, <- app_assoc. split_and!; try done. congruence.
Qed.

(** A violation stops the decoder, after a part of what came before it. *)
Lemma push_slices_violating fuel chunk d out ms e :
  local_ok d -> (length chunk < fuel)%nat -> scans json_parse (d_maxFrameBytes (inner d)) (pending (inner d) ++ chunk) ms (inr e) ->
  exists d' ms', push_slices json_parse fst collect_put (fun e => e) collect fuel chunk (d, out) = (Err (localError e), (d', out ++ (m_dto <$> ms'))) /\ ms' `prefix_of` ms.
Proof.
  revert chunk d out ms. induction fuel as [|fuel IH]; intros chunk d out ms [Hw Hmax] Hlt Hs; [lia|]. cbn [push_slices].
  unfold mbind, method_bind, get, modify. cbn [fst].
  set (n := slice_length d chunk). pose proof Hw as (Hok & Hf & Hq).
  destruct (scans_total json_parse (d_maxFrameBytes (inner d)) (pending (inner d) ++ take n chunk)) as (ms1 & o1 & H1).
  pose proof (push_scans json_parse (inner d) (take n chunk) ms1 o1 Hok Hf H1) as Hp.
  rewrite <- (take_drop n chunk) in Hs. rewrite app_assoc in Hs. destruct o1 as [r1|e1].
  2:{ pose proof (scans_app_inr _ _ _ _ _ (drop n chunk) H1) as H3. destruct (scans_functional _ _ _ _ _ _ _ Hs H3) as [_ [= ->]].
      rewrite Hp. eexists _, []. cbn. rewrite app_nil_r. split; [reflexivity|apply prefix_nil]. }
  destruct Hp as (d1 & -> & Hw1 & Hr1 & Hm1).
  destruct (scans_total json_parse (d_maxFrameBytes (inner d)) (r1 ++ drop n chunk)) as (ms2 & o2 & H2).
  pose proof (scans_app_inl _ _ _ _ _ _ _ _ H1 H2) as H3. destruct (scans_functional _ _ _ _ _ _ _ Hs H3) as [-> <-].
  rewrite deliver_collect. cbn [fst snd collect_put inner maxBufferedBytes].
  destruct (Nat.leb_spec (length chunk) n) as [Hle|Hgt].
  - rewrite drop_ge in H2 by done. rewrite app_nil_r in H2. rewrite <- Hr1, <- Hm1 in H2. destruct Hw1 as (Hok1' & Hf1 & Hq1).
    by destruct (scans_functional _ _ _ _ _ _ _ H2 Hq1).
  - assert (0 < n)%nat by (unfold n, slice_length in *; destruct chunk; cbn [length] in *; lia).
    destruct (IH (drop n chunk) {| inner := d1; maxBufferedBytes := maxBufferedBytes d |} (out ++ (m_dto <$> ms1)) ms2) as (d' & ms' & Hd' & Hpre).
    + split; cbn; [done|by rewrite Hm1].
    + rewrite length_drop. lia.
    + cbn [inner]. by rewrite Hm1, Hr1.
    + exists d', (ms1 ++ ms'). rewrite Hd', fmap_app, <- app_assoc. split; [done|by apply prefix_app].
Qed.

Lemma collect_all_violating chunks d out ms e :
  local_ok d -> scans json_parse (d_maxFrameBytes (inner d)) (pending (inner d) ++ mjoin chunks) ms (inr e) ->
  exists d' ms', collect_all chunks (d, out) = (Err (localError e), (d', out ++ (m_dto <$> ms'))) /\ ms' `prefix_of` ms.
Proof.
  revert d out ms. induction chunks as [|c chunks IH]; intros d out ms Hd Hs.
  - cbn in Hs. rewrite app_nil_r in Hs. destruct Hd as [Hw Hm]. by destruct (scans_functional _ _ _ _ _ _ _ Hs (proj2 (proj2 Hw))).
  - change (mjoin (c :: chunks)) with (c ++ mjoin chunks) in Hs. rewrite app_assoc in Hs. cbn [collect_all]. unfold collected_push, local_push, mbind, method_bind.
    destruct (scans_total json_parse (d_maxFrameBytes (inner d)) (pending (inner d) ++ c)) as (ms1 & o1 & H1). destruct o1 as [r1|e1].
    2:{ pose proof (scans_app_inr _ _ _ _ _ (mjoin chunks) H1) as H3. destruct (scans_functional _ _ _ _ _ _ _ Hs H3) as [-> [= ->]].
        destruct (push_slices_violating (S (length c)) c d out ms1 e1 Hd ltac:(lia) H1) as (d' & ms' & -> & Hpre). by exists d', ms'. }
    destruct (scans_total json_parse (d_maxFrameBytes (inner d)) (r1 ++ mjoin chunks)) as (ms2 & o2 & H2).
    pose proof (scans_app_inl _ _ _ _ _ _ _ _ H1 H2) as H3. destruct (scans_functional _ _ _ _ _ _ _ Hs H3) as [-> <-].
    destruct (push_slices_clean (S (length c)) c d out ms1 r1 Hd ltac:(lia) H1) as (d1 & Hd1 & Hok1 & Hp1 & Hm1). rewrite Hd1.
    destruct (IH d1 (out ++ (m_dto <$> ms1)) ms2 Hok1) as (d2 & ms' & Hd2 & Hpre); [by rewrite Hm1, Hp1|].
    exists d2, (ms1 ++ ms'). rewrite Hd2, fmap_app, <- app_assoc. split; [done|by apply prefix_app].
Qed.

(** Between two chunks the decoder holds less than one frame of the largest size. *)
Lemma local_ok_bounded d : local_ok d -> Z.of_nat (buffered (inner d)) < maxBufferedBytes d.
Proof.
  intros [(Hok & _ & Hq) ->]. rewrite <- (length_pending _ Hok). destruct Hok as [Hm _]. destruct (scans_rest _ _ _ _ _ Hm Hq) as (_ & Hlt & _). lia.
Qed.
End Delivery.

(** A socket's bytes, however they are cut, become exactly the messages of the stream,
    while the decoder holds less than one frame of the largest size; a stream that
    violates the framing is refused with that violation after a prefix of the messages
    before it. *)
Theorem local_decoder_delivers json_parse maxFrameBytes d chunks ms o :
  newLocalJsonDecoder maxFrameBytes = Ok d -> scans json_parse (d_maxFrameBytes (inner d)) (mjoin chunks) ms o ->
  let '(r, (d', out)) := collect_all json_parse chunks (d, []) in
  match o with
  | inl rest => r = Ok tt /\ out = m_dto <$> ms /\ pending (inner d') = rest /\ Z.of_nat (buffered (inner d')) < maxBufferedBytes d'
  | inr e => r = Err (localError e) /\ out `prefix_of` (m_dto <$> ms)
  end.
Proof.
  unfold newLocalJsonDecoder. destruct (createFrameDecoder maxFrameBytes) as [f|] eqn:Hf; [|done]. intros [= <-] Hs.
  destruct (createFrameDecoder_waiting json_parse _ _ Hf) as (Hw & Hp & _).
  assert (Hd : local_ok json_parse {| inner := f; maxBufferedBytes := d_maxFrameBytes f + 4 |}) by done.
  assert (Hs' : scans json_parse (d_maxFrameBytes f) (pending f ++ mjoin chunks) ms o) by by rewrite Hp. destruct o as [rest|e].
  - destruct (collect_all_clean json_parse chunks _ [] ms rest Hd Hs') as (d' & -> & Hok' & Hp' & _). split_and!; [done|done|done|by eapply local_ok_bounded].
  - destruct (collect_all_violating json_parse chunks _ [] ms e Hd Hs') as (d' & ms' & -> & Hpre). split; [done|]. cbn.
    destruct Hpre as [k ->]. rewrite fmap_app. by eexists.
Qed.

(** What a server answers is read back as it was meant. *)
Theorem response_round_trip version requestId answer max :
  (1 <= Z.of_nat (length requestId) <= max) ->
  parseResponseEnvelope (responseEnvelope version requestId answer) version max = Ok {| rs_requestId := requestId; rs_answer := answer |}.
Proof.
  intros Hl. assert (Hv : is_version (Some (JNum (int version))) version = true) by (unfold is_version, num_leb, int; cbn [mbind option_bind json_number]; by rewrite Z.leb_refl).
  assert (Hid : boundedText (Some (JStr requestId)) max = Ok requestId).
  { unfold boundedText. destruct (Nat.eqb_spec (length requestId) 0); [lia|]. by destruct (Z.ltb_spec max (Z.of_nat (length requestId))); [lia|]. }
  unfold parseResponseEnvelope, responseEnvelope, object_, mbind, result_bind. destruct answer as [r|e]; set (m := _ ++ _);
    assert (E1 : jget m (js "v") = Some (JNum (int version))) by reflexivity; assert (E2 : jget m (js "requestId") = Some (JStr requestId)) by reflexivity;
    assert (E3 : is_text (jget m (js "type")) (js "response") = true) by reflexivity.
  - assert (E4 : jget m (js "ok") = Some (JBool true)) by reflexivity. assert (E5 : jget m (js "result") = Some r) by reflexivity.
    assert (E6 : jget m (js "error") = None) by reflexivity. by rewrite E4, E1, E2, E3, E5, E6, Hv, Hid.
  - assert (E4 : jget m (js "ok") = Some (JBool false)) by reflexivity. assert (E5 : jget m (js "result") = None) by reflexivity.
    assert (E6 : jget m (js "error") = Some e) by reflexivity. by rewrite E4, E1, E2, E3, E5, E6, Hv, Hid.
Qed.
