(* ===== verification/BrokerServer.v ===== *)
(** * The broker's server (packages/resource-broker/src/transport.ts)

    The socket protocol in front of the resource broker: connections, the hello that
    binds one to a worker, requests and what answers them later.  One event of the
    server is one callback the runtime makes; what a promise still has to do is kept as
    an acquisition or a task.  The texts of errors are left out; [stringify] is what
    becomes of a reply as JSON, text included. *)

From S2P Require Import Prelude JsText Dto Framing JsObject ResourceBroker LocalTransport.
From S2P Require RunEvents.

Local Open Scope Z_scope.

Definition PROTOCOL_VERSION : Z := 1.
Definition DEFAULT_MAX_FRAME_BYTES : Z := 64 * 1024.
Definition DEFAULT_HANDSHAKE_TIMEOUT_MS : Z := 5000.
Definition DEFAULT_MAX_CONNECTIONS : Z := 1000.
Definition DEFAULT_MAX_REQUESTS_PER_CONNECTION : Z := 100000.

(** ** Errors and replies *)

Inductive TransportErrorCode : Set :=
| authentication_failed | connection_closed | connection_limit | frame_too_large | handshake_timeout | protocol_error | request_timeout.
Global Instance TransportErrorCode_eq_dec : EqDecision TransportErrorCode.
Proof. solve_decision. Defined.

(** What a handler throws. *)
Inductive ServerError : Type :=
| transport_error (code : TransportErrorCode)
| local_error (code : LocalTransportErrorCode)
| broker_error (code : ResourceBrokerErrorCode).

Inductive WireCode : Type := on_transport (code : TransportErrorCode) | on_broker (code : ResourceBrokerErrorCode).

(** [leaseWire] *)
Record LeaseWire : Type := { lw_lease : LeaseSnapshot; lw_token : jstring }.

Inductive Payload : Type := p_hello | p_null | p_lease (lease : LeaseWire) | p_snapshot (s : BrokerSnapshot).

Inductive Reply : Type :=
| success (requestId : jstring) (p : Payload)
| responseFailure (requestId : jstring) (code : WireCode).

Definition reply_id (r : Reply) : jstring := match r with success i _ | responseFailure i _ => i end.

(** [failure]: not the answer to a request. *)
Definition failure (code : WireCode) : Reply := responseFailure (js "connection") code.

Definition wireFailure (e : ServerError) : Reply :=
  failure match e with
          | transport_error c => on_transport c
          | local_error local_frame_oversized => on_transport frame_too_large
          | local_error _ => on_transport protocol_error
          | broker_error c => on_broker c
          end.

Definition responseFromError (requestId : jstring) (e : ServerError) : Reply :=
  responseFailure requestId match e with broker_error c => on_broker c | _ => on_transport protocol_error end.

Definition brokerTransportError (e : LocalTransportErrorCode) : ServerError :=
  transport_error (if decide (e = local_frame_oversized) then frame_too_large else protocol_error).

Definition protocolError {A} : result ServerError A := Err (transport_error protocol_error).

(** ** Fields of a message *)

Definition fields : Type := list (jstring * json).
Definition field_of (message : fields) (key : string) : option json := jget message (js key).

Definition string_ (v : option json) (max : Z) : result ServerError jstring :=
  match v with
  | Some (JStr t) => if (length t =? 0)%nat || (max <? Z.of_nat (length t)) then protocolError else Ok t
  | _ => protocolError
  end.

Definition finiteNumber (v : option json) : result ServerError number :=
  match v ≫= json_number with Some n => if isFinite n then Ok n else protocolError | None => protocolError end.

Definition integer_from (least : Z) (v : option json) : result ServerError Z :=
  match v ≫= json_number with
  | Some n => match to_safe_integer n with Some z => if z <? least then protocolError else Ok z | None => protocolError end
  | None => protocolError
  end.
Definition nonNegativeInteger : option json -> result ServerError Z := integer_from 0.
Definition positiveInteger_ : option json -> result ServerError Z := integer_from 1.

Definition wireId (v : option json) (kind : string) : result ServerError jstring :=
  id ← string_ v 128;
  let prefix := js kind ++ js ":" in
  if bool_decide (take (length prefix) id = prefix) && RunEvents.matches_uuid RunEvents.UUID (drop (length prefix) id) then Ok id else protocolError.

Definition object_of (v : option json) : result ServerError fields := match v with Some (JObj m) => Ok m | _ => protocolError end.

Fixpoint read_amounts (input : fields) (keys : list jstring) : result ServerError ResourceVector :=
  match keys with
  | [] => Ok ∅
  | key :: keys =>
      match jget input key with
      | None => read_amounts input keys
      | Some v =>
          n ← nonNegativeInteger (Some v);
          rest ← read_amounts input keys;
          Ok (<[key := int n]> rest)
      end
  end.

Definition resourceVector (v : option json) : result ServerError ResourceVector :=
  input ← object_of v;
  _ ← guard_or (forallb (fun key => known_class key) (keys input)) (transport_error protocol_error);
  read_amounts input (class_name <$> RESOURCE_CLASSES).

Definition ATTACHABLE : list jstring := [js "ptySession"; js "externalProcess"; js "semanticEndpoint"; js "nativeHostPressure"; js "traceWriter"].

Definition attachment_of (entry : json) : result ServerError ResourceAttachment :=
  attachment ← object_of (Some entry);
  name ← string_ (field_of attachment "resource") 64;
  _ ← guard_or (bool_decide (name ∈ ATTACHABLE)) (transport_error protocol_error);
  process ← match field_of attachment "pid" with None => Ok None | Some v => n ← positiveInteger_ (Some v); Ok (Some (int n)) end;
  session ← match field_of attachment "sessionId" with None => Ok None | Some v => t ← string_ (Some v) 512; Ok (Some t) end;
  Ok {| resource := name; pid := process; sessionId := session |}.

Fixpoint attachments_of (entries : list json) : result ServerError (list ResourceAttachment) :=
  match entries with
  | [] => Ok []
  | entry :: entries => a ← attachment_of entry; rest ← attachments_of entries; Ok (a :: rest)
  end.

Definition attachments_ (v : option json) : result ServerError (list ResourceAttachment) :=
  match v with Some (JArr entries) => if (1000 <? length entries)%nat then protocolError else attachments_of entries | _ => protocolError end.

(** ** Options *)

Record ServerOptions : Type := {
  so_runId : jstring;
  so_token : jstring;
  so_maxFrameBytes : Z;
  so_handshakeTimeoutMs : Z;
  so_maxConnections : Z;
  so_maxRequestsPerConnection : Z;
}.

Definition option_or (given : option number) (fallback : Z) : result ServerError Z := positiveInteger_ (Some (JNum (default (int fallback) given))).

(** The checks of [startResourceBrokerServer]. *)
Definition serverOptions (run : jstring) (token : option jstring) (random : jstring) (frame handshake connections requests : option number) : result ServerError ServerOptions :=
  maxFrameBytes ← option_or frame DEFAULT_MAX_FRAME_BYTES;
  handshakeTimeoutMs ← option_or handshake DEFAULT_HANDSHAKE_TIMEOUT_MS;
  maxConnections ← option_or connections DEFAULT_MAX_CONNECTIONS;
  maxRequestsPerConnection ← option_or requests DEFAULT_MAX_REQUESTS_PER_CONNECTION;
  match createLocalToken token random with
  | Err _ => protocolError
  | Ok secret => Ok {| so_runId := run; so_token := secret; so_maxFrameBytes := maxFrameBytes; so_handshakeTimeoutMs := handshakeTimeoutMs;
                       so_maxConnections := maxConnections; so_maxRequestsPerConnection := maxRequestsPerConnection |}
  end.

(** ** The state *)

Inductive SocketState : Set := sock_open | sock_ended | sock_destroyed.
Global Instance SocketState_eq_dec : EqDecision SocketState.
Proof. solve_decision. Defined.

(** An entry of [connection.leases]: the handle of the lease, by its address. *)
Record OwnedLease : Type := { ow_handle : nat; ow_attemptId : jstring; ow_acquireRequestId : jstring }.

Record ServerConnection : Type := mkConnection {
  socket : SocketState;
  sent : list Reply;
  decoder : LocalJsonDecoder;
  seenRequests : gset jstring;
  pendingAcquires : list jstring;
  acquireLeases : gmap jstring jstring;
  owned : gmap jstring OwnedLease;
  bound : option WorkerIdentity;
  handshakeTimer : bool;
  closed : bool;
}.

Definition set_socket x c := mkConnection x (sent c) (decoder c) (seenRequests c) (pendingAcquires c) (acquireLeases c) (owned c) (bound c) (handshakeTimer c) (closed c).
Definition set_sent x c := mkConnection (socket c) x (decoder c) (seenRequests c) (pendingAcquires c) (acquireLeases c) (owned c) (bound c) (handshakeTimer c) (closed c).
Definition set_decoder x c := mkConnection (socket c) (sent c) x (seenRequests c) (pendingAcquires c) (acquireLeases c) (owned c) (bound c) (handshakeTimer c) (closed c).
Definition set_seen x c := mkConnection (socket c) (sent c) (decoder c) x (pendingAcquires c) (acquireLeases c) (owned c) (bound c) (handshakeTimer c) (closed c).
Definition set_pending x c := mkConnection (socket c) (sent c) (decoder c) (seenRequests c) x (acquireLeases c) (owned c) (bound c) (handshakeTimer c) (closed c).
Definition set_owned a o c := mkConnection (socket c) (sent c) (decoder c) (seenRequests c) (pendingAcquires c) a o (bound c) (handshakeTimer c) (closed c).
Definition set_bound x c := mkConnection (socket c) (sent c) (decoder c) (seenRequests c) (pendingAcquires c) (acquireLeases c) (owned c) x false (closed c).
Definition set_timer x c := mkConnection (socket c) (sent c) (decoder c) (seenRequests c) (pendingAcquires c) (acquireLeases c) (owned c) (bound c) x (closed c).
Definition set_closed c := mkConnection (socket c) (sent c) (decoder c) (seenRequests c) (pendingAcquires c) (acquireLeases c) (owned c) (bound c) false true.

(** An acquire request whose promise has not been handled: the object of
    [pendingAcquires], and the promise of the broker. *)
Record Acquisition : Type := { aq_promise : Promised; aq_cancelled : bool; aq_attemptId : jstring }.

(** What follows an attach or a release that has been carried out. *)
Inductive Task : Type :=
| t_reply (c : nat) (requestId : jstring) (outcome : result ResourceBrokerErrorCode unit)
| t_released (c : nat) (requestId leaseId acquireRequestId : jstring) (outcome : result ResourceBrokerErrorCode unit).

Record Server : Type := mkServer {
  broker : Broker;
  conns : gmap nat ServerConnection;  (** every connection there ever was *)
  sockets : gset nat;
  connected : gmap jstring nat;  (** [workers]: the connection of a worker *)
  closing : bool;
  acquisitions : gmap (nat * jstring) Acquisition;
  tasks : list Task;
  turned_away : list nat;  (** connections refused by the limit *)
  unhandled : nat;  (** rejections and exceptions nobody handles *)
}.

Definition set_broker x s := mkServer x (conns s) (sockets s) (connected s) (closing s) (acquisitions s) (tasks s) (turned_away s) (unhandled s).
Definition set_conns x s := mkServer (broker s) x (sockets s) (connected s) (closing s) (acquisitions s) (tasks s) (turned_away s) (unhandled s).
Definition set_sockets x s := mkServer (broker s) (conns s) x (connected s) (closing s) (acquisitions s) (tasks s) (turned_away s) (unhandled s).
Definition set_connected x s := mkServer (broker s) (conns s) (sockets s) x (closing s) (acquisitions s) (tasks s) (turned_away s) (unhandled s).
Definition set_closing s := mkServer (broker s) (conns s) (sockets s) (connected s) true (acquisitions s) (tasks s) (turned_away s) (unhandled s).
Definition set_acquisitions x s := mkServer (broker s) (conns s) (sockets s) (connected s) (closing s) x (tasks s) (turned_away s) (unhandled s).
Definition set_tasks x s := mkServer (broker s) (conns s) (sockets s) (connected s) (closing s) (acquisitions s) x (turned_away s) (unhandled s).
Definition set_turned_away x s := mkServer (broker s) (conns s) (sockets s) (connected s) (closing s) (acquisitions s) (tasks s) x (unhandled s).
Definition lose s := mkServer (broker s) (conns s) (sockets s) (connected s) (closing s) (acquisitions s) (tasks s) (turned_away s) (S (unhandled s)).

Definition on_conn (c : nat) (f : ServerConnection -> ServerConnection) (s : Server) : Server := set_conns (alter f c (conns s)) s.

Abbreviation sop := (method Server ServerError).

Fixpoint each {A} (f : A -> sop unit) (l : list A) : sop unit :=
  match l with [] => mret tt | x :: l => _ ← f x; each f l end.

Definition raise {A} (e : LocalTransportErrorCode) : result ServerError A := Err (local_error e).
Definition as_server {A} (r : result LocalTransportErrorCode A) : result ServerError A := match r with Ok a => Ok a | Err e => raise e end.

(** A call of the broker, which may throw, and one whose promise is looked at later. *)
Definition on_broker_op {A} (m : op A) : sop A := fun s =>
  let '(r, b) := m (broker s) in (match r with Ok a => Ok a | Err e => Err (broker_error e) end, set_broker b s).
Definition outcome_of {A} (m : op A) : sop (result ResourceBrokerErrorCode A) := fun s => let '(r, b) := m (broker s) in (Ok r, set_broker b s).

(** How a promise of the broker stands. *)
Definition answer (b : Broker) (p : Promised) : option Settlement := match p with Settled r => Some r | Waiting n => outbox b !! n end.

(** ** Handlers *)

Section Server.
Context (clock : nat -> number) (uuid : nat -> jstring) (json_parse : jstring -> option (Dto.heap * value)) (sha256 : bytes -> bytes).
(** [JSON.stringify] of a reply. *)
Context (stringify : Reply -> jstring) (options : ServerOptions).

Definition reply_frame (r : Reply) : result ViolationCode bytes := encodeFrame (StringifyText (stringify r)) (int (so_maxFrameBytes options)).

(** What is written to a socket that was ended or destroyed goes nowhere. *)
Definition writeFrame (c : nat) (r : Reply) : sop unit :=
  match reply_frame r with
  | Err e => throw (brokerTransportError (localError e))
  | Ok _ => modify (on_conn c (fun conn => if decide (socket conn = sock_open) then set_sent (sent conn ++ [r]) conn else conn))
  end.

Definition end_with (r : Reply) (conn : ServerConnection) : ServerConnection :=
  match reply_frame r with
  | Err _ => set_socket sock_destroyed conn
  | Ok _ => if decide (socket conn = sock_open) then set_socket sock_ended (set_sent (sent conn ++ [r]) conn) else conn
  end.
Definition sendAndEnd (c : nat) (r : Reply) : sop unit := modify (on_conn c (end_with r)).

(** [pending.cancelled = true; pending.controller.abort()]: the listener is there as
    long as the request is queued. *)
Definition abort_acquire (c : nat) (requestId : jstring) : sop unit := fun s =>
  match acquisitions s !! (c, requestId) with
  | None => (Ok tt, s)
  | Some a =>
      let s := set_acquisitions (<[(c, requestId) := {| aq_promise := aq_promise a; aq_cancelled := true; aq_attemptId := aq_attemptId a |}]> (acquisitions s)) s in
      match aq_promise a with
      | Settled _ => (Ok tt, s)
      | Waiting n =>
          match List.find (fun p => number_of p =? n) (queue (broker s)) with
          | None => (Ok tt, s)
          | Some p => let '(r, b) := onAbort clock uuid p (broker s) in (Ok tt, (if is_ok r then id else lose) (set_broker b s))
          end
      end
  end.

(** [void lease.release()]: a rejection that is new is nobody's. *)
Definition release_unheard (handle : nat) : sop unit := fun s =>
  let fresh := match ResourceBroker.heap (broker s) !! handle with Some l => bool_decide (releasePromise l = None) | None => true end in
  let '(r, b) := release clock uuid handle (broker s) in
  (Ok tt, (if is_ok r || negb fresh then id else lose) (set_broker b s)).

Definition closeConnection (c : nat) : sop unit :=
  s ← get;
  match conns s !! c with
  | None => mret tt
  | Some conn =>
      if closed conn then mret tt
      else
        _ ← modify (fun s => set_sockets (sockets s ∖ {[c]}) (on_conn c set_closed s));
        _ ← each (abort_acquire c) (pendingAcquires conn);
        _ ← modify (on_conn c (set_pending []));
        _ ← match bound conn with
            | None => mret tt
            | Some w =>
                _ ← modify (fun s => if decide (connected s !! workerId w = Some c) then set_connected (delete (workerId w) (connected s)) s else s);
                on_broker_op (disconnectWorker clock uuid w)
            end;
        modify (on_conn c (set_owned ∅ ∅))
  end.

Definition handleHello (c : nat) (requestId : jstring) (message : fields) : sop unit :=
  presented ← lift (string_ (field_of message "token") 512);
  if negb (sameLocalSecret sha256 (so_token options) presented) then sendAndEnd c (responseFailure requestId (on_transport authentication_failed))
  else
    run ← lift (wireId (field_of message "runId") "run");
    if bool_decide (run = so_runId options) then
      worker ← lift (string_ (field_of message "workerId") 256);
      epoch ← lift (nonNegativeInteger (field_of message "workerEpoch"));
      let w := {| runId := run; workerId := worker; workerEpoch := int epoch |} in
      registered ← catch (_ ← on_broker_op (registerWorker clock uuid w); mret true) (fun e => _ ← sendAndEnd c (responseFromError requestId e); mret false);
      if (registered : bool) then
        s ← get;
        let previous := connected s !! worker in
        _ ← modify (fun s => set_connected (<[worker := c]> (connected s)) (on_conn c (set_bound (Some w)) s));
        _ ← writeFrame c (success requestId p_hello);
        match previous with
        | Some c' => if decide (c' = c) then mret tt else modify (on_conn c' (set_socket sock_destroyed))
        | None => mret tt
        end
      else mret tt
    else sendAndEnd c (responseFailure requestId (on_broker stale_run)).

Definition handleAcquire (c : nat) (requestId : jstring) (message : fields) (w : WorkerIdentity) : sop unit :=
  attempt ← lift (wireId (field_of message "attemptId") "attempt");
  wanted ← lift (resourceVector (field_of message "resources"));
  until_ ← lift (finiteNumber (field_of message "deadline"));
  _ ← modify (on_conn c (fun conn => set_pending (pendingAcquires conn ++ [requestId]) conn));
  promise ← on_broker_op (acquire clock uuid
    {| owner := {| worker := w; attemptId := attempt |}; requested := wanted; until := until_; signal := Some false |});
  modify (fun s => set_acquisitions (<[(c, requestId) := {| aq_promise := promise; aq_cancelled := false; aq_attemptId := attempt |}]> (acquisitions s)) s).

(** [connection.acquireLeases.delete(...)] and [connection.leases.delete(...)] *)
Definition forget (acquireRequestId lease : jstring) (conn : ServerConnection) : ServerConnection :=
  set_owned (delete acquireRequestId (acquireLeases conn)) (delete lease (owned conn)) conn.

Definition handleCancel (c : nat) (requestId : jstring) (message : fields) (conn : ServerConnection) : sop unit :=
  target ← lift (string_ (field_of message "targetRequestId") 256);
  _ ← (if bool_decide (target ∈ pendingAcquires conn) then abort_acquire c target
       else match acquireLeases conn !! target ≫= fun lease => owned conn !! lease with
            | None => mret tt
            | Some o =>
                s ← get;
                match ResourceBroker.heap (broker s) !! ow_handle o with
                | None => mret tt
                | Some l => _ ← modify (on_conn c (forget target (leaseId l))); release_unheard (ow_handle o)
                end
            end);
  writeFrame c (success requestId p_null).

Definition handleLease (c : nat) (requestId : jstring) (attaching : bool) (message : fields) (conn : ServerConnection) : sop unit :=
  lease ← lift (string_ (field_of message "leaseId") 256);
  leaseToken ← lift (string_ (field_of message "leaseToken") 512);
  attempt ← lift (wireId (field_of message "attemptId") "attempt");
  s ← get;
  match o ← owned conn !! lease; l ← ResourceBroker.heap (broker s) !! ow_handle o; Some (o, l) with
  | None => throw (broker_error stale_lease)
  | Some (o, l) =>
      if bool_decide (ow_attemptId o = attempt) && bool_decide (token l = leaseToken) then
        if attaching then
          given ← lift (attachments_ (field_of message "attachments"));
          r ← outcome_of (attach (ow_handle o) given);
          modify (fun s => set_tasks (tasks s ++ [t_reply c requestId r]) s)
        else
          r ← outcome_of (release clock uuid (ow_handle o));
          modify (fun s => set_tasks (tasks s ++ [t_released c requestId lease (ow_acquireRequestId o) r]) s)
      else throw (broker_error stale_lease)
  end.

Definition handleAuthenticated (c : nat) (requestId type : jstring) (message : fields) (w : WorkerIdentity) (conn : ServerConnection) : sop unit :=
  if bool_decide (type = js "acquire") then handleAcquire c requestId message w
  else if bool_decide (type = js "cancel") then handleCancel c requestId message conn
  else if bool_decide (type = js "attach") then handleLease c requestId true message conn
  else if bool_decide (type = js "release") then handleLease c requestId false message conn
  else if bool_decide (type = js "snapshot") then s ← get; writeFrame c (success requestId (p_snapshot (snapshot (broker s))))
  else throw (transport_error protocol_error).

(** The try of [dispatch]. *)
Definition handleMessage (c : nat) (value : json) : sop unit :=
  message ← lift (as_server (parseRequestEnvelope value PROTOCOL_VERSION));
  s ← get;
  match conns s !! c with
  | None => mret tt
  | Some conn =>
      let requestId := rq_requestId message in
      if bool_decide (requestId ∈ seenRequests conn) then throw (transport_error protocol_error)
      else if so_maxRequestsPerConnection options <=? Z.of_nat (size (seenRequests conn)) then throw (transport_error protocol_error)
      else
        _ ← modify (on_conn c (set_seen ({[requestId]} ∪ seenRequests conn)));
        match bound conn with
        | None => if bool_decide (rq_type message = js "hello") then handleHello c requestId (rq_fields message) else throw (transport_error protocol_error)
        | Some w =>
            if bool_decide (rq_type message = js "hello") then throw (transport_error protocol_error)
            else handleAuthenticated c requestId (rq_type message) (rq_fields message) w conn
        end
  end.

Definition fail_connection (c : nat) (e : ServerError) : sop unit := _ ← closeConnection c; sendAndEnd c (wireFailure e).

Definition dispatch (c : nat) (value : json) : sop unit := catch (handleMessage c value) (fail_connection c).

(** ** Callbacks *)

Definition new_decoder : LocalJsonDecoder :=
  match newLocalJsonDecoder (int (so_maxFrameBytes options)) with Ok d => d | Err _ => {| inner := Decoder 0 [] 0 0 None; maxBufferedBytes := 0 |} end.

Definition onConnection (c : nat) (s : Server) : Server :=
  if closing s || (so_maxConnections options <=? Z.of_nat (size (sockets s))) then set_turned_away (turned_away s ++ [c]) s
  else set_sockets ({[c]} ∪ sockets s) (set_conns (<[c := mkConnection sock_open [] new_decoder ∅ [] ∅ ∅ None true false]> (conns s)) s).

Definition decoder_at (c : nat) (s : Server) : LocalJsonDecoder := match conns s !! c with Some conn => decoder conn | None => new_decoder end.
Definition put_decoder (c : nat) (d : FrameDecoder) : Server -> Server := on_conn c (fun conn => set_decoder {| inner := d; maxBufferedBytes := maxBufferedBytes (decoder conn) |} conn).

Definition onData (c : nat) (chunk : bytes) : sop unit :=
  catch (local_push json_parse (decoder_at c) (put_decoder c) local_error (dispatch c) chunk) (fail_connection c).

(** [error] and [close] of a socket. *)
Definition onGone (c : nat) : sop unit := _ ← modify (on_conn c (set_socket sock_destroyed)); closeConnection c.

Definition onHandshakeTimeout (c : nat) : sop unit :=
  _ ← modify (on_conn c (set_timer false));
  sendAndEnd c (failure (on_transport handshake_timeout)).

(** The promise of an acquire request settled. *)
Definition onAcquired (c : nat) (requestId : jstring) (a : Acquisition) (r : Settlement) : sop unit :=
  s ← get;
  match conns s !! c with
  | None => mret tt
  | Some conn =>
      _ ← modify (fun s => set_acquisitions (delete (c, requestId) (acquisitions s)) s);
      _ ← modify (on_conn c (fun conn => set_pending (List.filter (fun i => negb (bool_decide (i = requestId))) (pendingAcquires conn)) conn));
      match r with
      | Granted handle =>
          if closed conn || aq_cancelled a then release_unheard handle
          else
            match ResourceBroker.heap (broker s) !! handle with
            | None => mret tt
            | Some l =>
                _ ← modify (on_conn c (fun conn =>
                      set_owned (<[requestId := leaseId l]> (acquireLeases conn))
                        (<[leaseId l := {| ow_handle := handle; ow_attemptId := aq_attemptId a; ow_acquireRequestId := requestId |}]> (owned conn)) conn));
                writeFrame c (success requestId (p_lease {| lw_lease := freezeLeaseSnapshot l; lw_token := token l |}))
            end
      | Refused e => if closed conn then mret tt else writeFrame c (responseFromError requestId (broker_error e))
      end
  end.

Definition reply_of (requestId : jstring) (outcome : result ResourceBrokerErrorCode unit) : Reply :=
  match outcome with Ok _ => success requestId p_null | Err e => responseFromError requestId (broker_error e) end.

Definition onTask (t : Task) : sop unit :=
  match t with
  | t_reply c requestId outcome => writeFrame c (reply_of requestId outcome)
  | t_released c requestId lease acquireRequestId outcome =>
      _ ← (if is_ok outcome then modify (on_conn c (forget acquireRequestId lease)) else mret tt);
      modify (fun s => set_tasks (tasks s ++ [t_reply c requestId outcome]) s)
  end.

(** [close()] *)
Definition onClose : sop unit := fun s =>
  if closing s then (Ok tt, s)
  else each (fun c => _ ← modify (on_conn c (set_socket sock_destroyed)); closeConnection c) (elements (sockets s)) (set_closing s).

(** ** Events *)

Inductive ServerEvent : Type :=
| ev_connection (c : nat)
| ev_data (c : nat) (chunk : bytes)
| ev_gone (c : nat)
| ev_handshake_timeout (c : nat)
| ev_acquired (c : nat) (requestId : jstring)
| ev_task
| ev_deadline (n : Z)
| ev_close.

(** What escapes a callback is nobody's. *)
Definition callback (m : sop unit) (s : Server) : Server := let '(r, s) := m s in if is_ok r then s else lose s.

(** An event that cannot happen changes nothing: data on a destroyed socket, a timer
    that was cleared, a promise that is open. *)
Definition server_step (s : Server) (e : ServerEvent) : Server :=
  match e with
  | ev_connection c => if bool_decide (conns s !! c = None) then onConnection c s else s
  | ev_data c chunk => match conns s !! c with Some conn => if decide (socket conn = sock_destroyed) then s else callback (onData c chunk) s | None => s end
  | ev_gone c => match conns s !! c with Some _ => callback (onGone c) s | None => s end
  | ev_handshake_timeout c => match conns s !! c with Some conn => if handshakeTimer conn then callback (onHandshakeTimeout c) s else s | None => s end
  | ev_acquired c requestId =>
      match acquisitions s !! (c, requestId) with
      | Some a => match answer (broker s) (aq_promise a) with Some r => callback (onAcquired c requestId a r) s | None => s end
      | None => s
      end
  | ev_task => match tasks s with [] => s | t :: rest => callback (onTask t) (set_tasks rest s) end
  | ev_deadline n =>
      match List.find (fun p => number_of p =? n) (queue (broker s)) with
      | Some p => callback (on_broker_op (onTimer clock uuid p)) s
      | None => s
      end
  | ev_close => callback onClose s
  end.

Definition newServer (b : Broker) : Server := mkServer b ∅ ∅ ∅ false ∅ [] [] 0.
Definition serve (b : Broker) (es : list ServerEvent) : Server := foldl server_step (newServer b) es.
End Server.
