(* ===== verification/ServerInvariant.v ===== *)
(** * What holds of the broker's server between callbacks

    The state of the server seen from the broker: whose lease is in the books of which
    connection, which promise belongs to which request.  Each clause is kept by what a
    handler does to the broker, to a connection and to its acquisitions, hence by every
    callback. *)

From S2P Require Import Prelude JsText Dto Framing JsObject ResourceBroker BrokerAccounting BrokerScheduling BrokerTheorems BrokerLeases LocalTransport BrokerServer.

Local Open Scope Z_scope.

Section Server.
Context (clock : nat -> number) (uuid : nat -> jstring) (json_parse : jstring -> option (Dto.heap * value)) (sha256 : bytes -> bytes).
Context (stringify : Reply -> jstring) (options : ServerOptions).
Context (unique : forall i j, uuid i = uuid j -> i = j).

Abbreviation heap_of := ResourceBroker.heap.
Abbreviation inform := (informs uuid).

(** ** Who holds a lease *)

(** An open connection has it in its books; [x] names connections that are being closed. *)
Definition in_books (x : nat -> Prop) (s : Server) (lid : jstring) (addr : nat) (who : AttemptIdentity) : Prop :=
  exists c conn o, conns s !! c = Some conn /\ (closed conn = false \/ x c) /\ bound conn = Some (worker who) /\
    owned conn !! lid = Some o /\ ow_handle o = addr /\ ow_attemptId o = attemptId who.

(** Its grant has not reached the handler of the request yet. *)
Definition on_its_way (s : Server) (addr : nat) (who : AttemptIdentity) : Prop :=
  exists c requestId a conn, acquisitions s !! (c, requestId) = Some a /\ answer (broker s) (aq_promise a) = Some (Granted addr) /\
    conns s !! c = Some conn /\ bound conn = Some (worker who) /\ aq_attemptId a = attemptId who.

Definition task_ok (b : Broker) (t : Task) : Prop :=
  match t with
  | t_reply _ _ _ => True
  | t_released _ _ lid _ _ => leases b !! lid = None /\ exists addr l, heap_of b !! addr = Some l /\ leaseId l = lid
  end.

Record inv (x : nat -> Prop) (s : Server) : Prop := {
  i_broker : reached clock uuid (broker s);
  i_ids : ids uuid (broker s);
  i_unpromised : unpromised (broker s);
  i_run : brokerRun (config (broker s)) = so_runId options;
  i_bound c conn w : conns s !! c = Some conn -> bound conn = Some w ->
    let_in (broker s) w /\ exists h, highestEpoch (broker s) !! workerId w = Some h /\ num_leb (workerEpoch w) h = true;
  i_unique c c' conn conn' w : conns s !! c = Some conn -> conns s !! c' = Some conn' -> bound conn = Some w -> bound conn' = Some w -> c = c';
  i_queue p : p ∈ queue (broker s) -> exists c requestId a conn, acquisitions s !! (c, requestId) = Some a /\ aq_promise a = Waiting (number_of p) /\
    conns s !! c = Some conn /\ bound conn = Some (worker (claimant p)) /\ aq_attemptId a = attemptId (claimant p);
  i_waiting c requestId a conn p : p ∈ queue (broker s) -> acquisitions s !! (c, requestId) = Some a -> aq_promise a = Waiting (number_of p) ->
    conns s !! c = Some conn -> bound conn = Some (worker (claimant p)) /\ aq_attemptId a = attemptId (claimant p);
  i_granted c requestId a conn addr : acquisitions s !! (c, requestId) = Some a -> answer (broker s) (aq_promise a) = Some (Granted addr) -> conns s !! c = Some conn ->
    exists l, heap_of (broker s) !! addr = Some l /\ bound conn = Some (worker (lessee l)) /\ aq_attemptId a = attemptId (lessee l);
  i_number key a n : acquisitions s !! key = Some a -> aq_promise a = Waiting n -> n <= sequence (broker s);
  i_leases lid addr l : leases (broker s) !! lid = Some addr -> heap_of (broker s) !! addr = Some l -> in_books x s lid addr (lessee l) \/ on_its_way s addr (lessee l);
  i_owned c conn lid o : conns s !! c = Some conn -> owned conn !! lid = Some o ->
    exists l, heap_of (broker s) !! ow_handle o = Some l /\ leaseId l = lid /\ bound conn = Some (worker (lessee l)) /\ ow_attemptId o = attemptId (lessee l);
  i_tasks t : t ∈ tasks s -> task_ok (broker s) t;
  i_seen c requestId a : acquisitions s !! (c, requestId) = Some a -> exists conn, conns s !! c = Some conn /\ requestId ∈ seenRequests conn;
}.

Lemma reached_core b : reached clock uuid b -> core uuid true b.
Proof. intros H. exact (proj1 (reached_wf clock uuid true (fun _ => unique) b H)). Qed.

Lemma reached_next b b' : reached clock uuid b -> step clock uuid b b' -> reached clock uuid b'.
Proof. intros H Hs. by eapply reachable_step. Qed.

(** A live lease has its record, of that name. *)
Lemma live_record b lid addr : reached clock uuid b -> leases b !! lid = Some addr -> exists l, heap_of b !! addr = Some l /\ leaseId l = lid.
Proof.
  intros Hr Hl. pose proof (core_accounting _ _ _ (reached_core b Hr)) as Hacc. destruct (acc_lease _ _ _ Hacc lid addr Hl) as (k & a & Ha & Hh).
  destruct (acc_held _ _ _ Hacc _ _ _ _ Ha Hh) as (_ & l & Hl' & Hid & _). by exists l.
Qed.

Lemma answer_informs b b' p r : inform b b' -> answer b p = Some r -> answer b' p = Some r.
Proof. intros A. destruct p as [r'|n]; [done|]. apply A. Qed.

Lemma let_in_informs b b' w : inform b b' -> let_in b w -> let_in b' w.
Proof. intros A [Hr Hw]. split; [by rewrite (inf_config _ _ _ A)|done]. Qed.

(** A lease that is over stays over: names are not used again. *)
Lemma task_moves b b' t :
  reached clock uuid b' -> (forall addr l, heap_of b !! addr = Some l -> exists l', heap_of b' !! addr = Some l' /\ same_record l l') -> ids uuid b' ->
  (forall lid addr, leases b' !! lid = Some addr -> leases b !! lid = Some addr \/ heap_of b !! addr = None) -> task_ok b t -> task_ok b' t.
Proof.
  intros Hr Hheap [_ Hinj] Hnew. destruct t as [|c r lid q o]; [done|]. intros (Hnone & addr & l & Hl & Hid).
  destruct (Hheap addr l Hl) as (l' & Hl' & E & _). split; [|exists addr, l'; split; [done|congruence]].
  destruct (leases b' !! lid) as [addr'|] eqn:E'; [|done]. destruct (live_record b' lid addr' Hr E') as (k & Hk & Hkid).
  assert (addr' = addr) as -> by (apply (Hinj addr' addr k l' Hk Hl'); congruence). destruct (Hnew lid addr E'); congruence.
Qed.

Lemma task_informs b b' t : reached clock uuid b' -> inform b b' -> ids uuid b -> task_ok b t -> task_ok b' t.
Proof.
  intros Hr A Hids. apply task_moves; [done|apply A|exact (inf_ids _ _ _ A Hids)|]. intros lid addr H.
  destruct (inf_leases _ _ _ A lid addr H) as [|(p & l & _ & _ & _ & _ & Hn)]; auto.
Qed.

(** ** The broker moves *)

Lemma on_its_way_informs s b' addr who : inform (broker s) b' -> on_its_way s addr who -> on_its_way (set_broker b' s) addr who.
Proof. intros A (c & i & a & conn & Ha & Hans & H). exists c, i, a, conn. split; [done|]. split; [by eapply answer_informs|done]. Qed.

(** Epochs only grow. *)
Definition raised (he : gmap jstring number) (b : Broker) : Prop :=
  forall w h, highestEpoch b !! w = Some h -> exists h', he !! w = Some h' /\ (h' = h \/ h = NaN \/ num_leb h h' = true).

Lemma inv_moves x s he b' : inv x s -> reached clock uuid b' -> raised he (broker s) -> inform (set_highestEpoch he (broker s)) b' -> inv x (set_broker b' s).
Proof.
  intros I Hr Hup A. constructor; cbn [broker conns acquisitions tasks set_broker].
  - done.
  - exact (inf_ids _ _ _ A (i_ids _ _ I)).
  - exact (inf_unpromised _ _ _ A (i_unpromised _ _ I)).
  - rewrite (inf_config _ _ _ A). apply I.
  - intros c conn w Hc Hw. destruct (i_bound _ _ I c conn w Hc Hw) as (Had & h & Hh & Hle). split; [exact (let_in_informs _ _ w A Had)|].
    destruct (Hup _ h Hh) as (h' & Hh' & Hle'). exists h'. rewrite (inf_epochs _ _ _ A). split; [done|]. destruct Hle' as [->|[->|Hle']]; [done|by destruct (workerEpoch w) as [|[]|]|by eapply num_leb_trans].
  - apply I.
  - intros p Hp. apply I. exact (inf_queue _ _ _ A p Hp).
  - intros c i a conn p Hp. apply (i_waiting _ _ I). exact (inf_queue _ _ _ A p Hp).
  - intros c i a conn addr Ha Hans Hc. destruct (answer (broker s) (aq_promise a)) as [r|] eqn:E.
    + pose proof (answer_informs _ _ _ _ A E) as E'. cbn in E'. rewrite Hans in E'. injection E' as <-.
      destruct (i_granted _ _ I c i a conn addr Ha E Hc) as (l & Hl & Hw & Hat). destruct (inf_heap _ _ _ A addr l Hl) as (l' & Hl' & _ & _ & El).
      exists l'. by rewrite El.
    + destruct (aq_promise a) as [|n] eqn:Epr; [done|]. destruct (inf_granted _ _ _ A n addr E Hans) as (p & l & Hp & <- & Hl & Hwho).
      destruct (i_waiting _ _ I c i a conn p Hp Ha Epr Hc) as [Hw Hat]. exists l. by rewrite Hwho.
  - intros key a n. rewrite (inf_sequence _ _ _ A). apply (i_number _ _ I).
  - intros lid addr l Hl Hh. destruct (inf_leases _ _ _ A lid addr Hl) as [Hl0|(p & l0 & Hp & Ho & Hl0 & Hwho & _)].
    + destruct (live_record _ lid addr (i_broker _ _ I) Hl0) as (l0 & Hh0 & _). destruct (inf_heap _ _ _ A addr l0 Hh0) as (l1 & Hh1 & _ & _ & E).
      rewrite Hh in Hh1. injection Hh1 as <-. rewrite E. destruct (i_leases _ _ I lid addr l0 Hl0 Hh0) as [|(c & i & a & conn & Ha & Hans & H)]; [by left|right].
      exists c, i, a, conn. split; [done|]. split; [exact (answer_informs _ _ _ _ A Hans)|done].
    + rewrite Hh in Hl0. injection Hl0 as <-. right. rewrite Hwho. destruct (i_queue _ _ I p Hp) as (c & i & a & conn & Ha & Hpr & Hc & Hb & Hat).
      exists c, i, a, conn. cbn [broker set_broker]. rewrite Hpr. done.
  - intros c conn lid o Hc Ho. destruct (i_owned _ _ I c conn lid o Hc Ho) as (l & Hl & Hid & Hbd & Hat). destruct (inf_heap _ _ _ A _ _ Hl) as (l' & Hl' & E & _ & El).
    exists l'. rewrite El. split_and!; [done|congruence|done..].
  - intros t Ht. exact (task_informs _ _ t Hr A (i_ids _ _ I) (i_tasks _ _ I t Ht)).
  - apply I.
Qed.

Lemma inv_informs x s b' : inv x s -> reached clock uuid b' -> inform (broker s) b' -> inv x (set_broker b' s).
Proof.
  intros I Hr A. apply (inv_moves x s (highestEpoch (broker s))); [done|done| |by destruct (broker s)].
  intros w h Hh. exists h. split; [done|by left].
Qed.

(** ** The rest moves *)

(** What must stay of the connections, the acquisitions and the tasks. *)
Record framed (x : nat -> Prop) (s s' : Server) : Prop := {
  fr_broker : broker s' = broker s;
  fr_back c conn' : conns s' !! c = Some conn' ->
    exists conn, conns s !! c = Some conn /\ bound conn' = bound conn /\ forall lid o, owned conn' !! lid = Some o -> owned conn !! lid = Some o;
  fr_kept c conn : conns s !! c = Some conn ->
    exists conn', conns s' !! c = Some conn' /\ bound conn' = bound conn /\ closed conn' = closed conn /\ seenRequests conn ⊆ seenRequests conn' /\
      (closed conn = false \/ x c -> forall lid o, owned conn !! lid = Some o -> leases (broker s) !! lid = Some (ow_handle o) -> owned conn' !! lid = Some o);
  fr_acquisitions key a : acquisitions s !! key = Some a ->
    exists a', acquisitions s' !! key = Some a' /\ aq_promise a' = aq_promise a /\ aq_attemptId a' = aq_attemptId a;
  fr_known key a' : acquisitions s' !! key = Some a' ->
    exists a, acquisitions s !! key = Some a /\ aq_promise a' = aq_promise a /\ aq_attemptId a' = aq_attemptId a;
  fr_tasks t : t ∈ tasks s' -> t ∈ tasks s \/ task_ok (broker s) t;
}.

Lemma in_books_framed x s s' lid addr who : framed x s s' -> leases (broker s) !! lid = Some addr -> in_books x s lid addr who -> in_books x s' lid addr who.
Proof.
  intros F Hl (c & conn & o & Hc & Hop & Hb & Ho & Hh & Hat). destruct (fr_kept _ _ _ F c conn Hc) as (conn' & Hc' & Eb & Ec & _ & Hkeep).
  exists c, conn', o. split_and!; [done|by rewrite Ec|by rewrite Eb| |done|done]. apply Hkeep; [done|done|by rewrite Hh].
Qed.

Lemma on_its_way_framed x s s' addr who : framed x s s' -> on_its_way s addr who -> on_its_way s' addr who.
Proof.
  intros F (c & i & a & conn & Ha & Hans & Hc & Hb & Hat). destruct (fr_kept _ _ _ F c conn Hc) as (conn' & Hc' & Eb & _).
  destruct (fr_acquisitions _ _ _ F _ a Ha) as (a' & Ha' & Ep & Ea). exists c, i, a', conn'. rewrite (fr_broker _ _ _ F), Ep, Ea, Eb. done.
Qed.

Lemma inv_framed x s s' : inv x s -> framed x s s' -> inv x s'.
Proof.
  intros I F. pose proof (fr_broker _ _ _ F) as Eb. constructor; try rewrite Eb; try apply I.
  - intros c conn w Hc Hw. destruct (fr_back _ _ _ F c conn Hc) as (conn0 & Hc0 & E & _). rewrite E in Hw. by apply (i_bound _ _ I c conn0).
  - intros c c' conn conn' w Hc Hc' Hw Hw'. destruct (fr_back _ _ _ F c conn Hc) as (conn0 & Hc0 & E & _). destruct (fr_back _ _ _ F c' conn' Hc') as (conn1 & Hc1 & E1 & _).
    rewrite E in Hw. rewrite E1 in Hw'. by eapply (i_unique _ _ I c c').
  - intros p Hp. destruct (i_queue _ _ I p Hp) as (c & i & a & conn & Ha & Hpr & Hc & Hb & Hat).
    destruct (fr_kept _ _ _ F c conn Hc) as (conn' & Hc' & Ebd & _). destruct (fr_acquisitions _ _ _ F _ a Ha) as (a' & Ha' & Ep & Ea).
    exists c, i, a', conn'. by rewrite Ep, Ea, Ebd.
  - intros c i a conn p Hp Ha Hpr Hc. destruct (fr_back _ _ _ F c conn Hc) as (conn0 & Hc0 & -> & _). destruct (fr_known _ _ _ F _ a Ha) as (a0 & Ha0 & Ep & ->).
    apply (i_waiting _ _ I c i a0 conn0 p Hp Ha0); [congruence|done].
  - intros c i a conn addr Ha Hans Hc. destruct (fr_back _ _ _ F c conn Hc) as (conn0 & Hc0 & -> & _). destruct (fr_known _ _ _ F _ a Ha) as (a0 & Ha0 & Ep & ->).
    apply (i_granted _ _ I c i a0 conn0 addr Ha0); [congruence|done].
  - intros key a n Ha Hpr. destruct (fr_known _ _ _ F _ a Ha) as (a0 & Ha0 & Ep & _). apply (i_number _ _ I key a0 n Ha0). congruence.
  - intros lid addr l Hl Hh. destruct (i_leases _ _ I lid addr l Hl Hh); [left; by eapply in_books_framed|right; by eapply on_its_way_framed].
  - intros c conn lid o Hc Ho. destruct (fr_back _ _ _ F c conn Hc) as (conn0 & Hc0 & -> & Hsub). by apply (i_owned _ _ I c conn0), Hsub.
  - intros t Ht. destruct (fr_tasks _ _ _ F t Ht); [by apply (i_tasks _ _ I)|done].
  - intros c i a Ha. destruct (fr_known _ _ _ F _ a Ha) as (a0 & Ha0 & _). destruct (i_seen _ _ I c i a0 Ha0) as (conn & Hc & Hin).
    destruct (fr_kept _ _ _ F c conn Hc) as (conn' & Hc' & _ & _ & Hsub & _). exists conn'. split; [done|set_solver].
Qed.

(** An update of one connection that keeps what it is bound to and owns. *)
Definition quiet (f : ServerConnection -> ServerConnection) : Prop := forall conn, bound (f conn) = bound conn /\ closed (f conn) = closed conn /\ owned (f conn) = owned conn /\ seenRequests conn ⊆ seenRequests (f conn).

Lemma framed_conn x c f s s' :
  quiet f -> broker s' = broker s -> conns s' = alter f c (conns s) -> acquisitions s' = acquisitions s -> (forall t, t ∈ tasks s' -> t ∈ tasks s) -> framed x s s'.
Proof.
  intros Hf Eb Ec Ea Et. constructor; [done|..].
  - intros k conn'. rewrite Ec. intros [(<- & conn & Hc & ->)|[_ Hc]]%lookup_alter_Some.
    + exists conn. destruct (Hf conn) as (-> & _ & -> & _). done.
    + by exists conn'.
  - intros k conn Hc. rewrite Ec. destruct (decide (c = k)) as [->|Hne].
    + exists (f conn). rewrite lookup_alter_eq, Hc. destruct (Hf conn) as (-> & -> & -> & ?). done.
    + exists conn. by rewrite lookup_alter_ne.
  - intros key a Ha. rewrite Ea. by exists a.
  - intros key a Ha. rewrite <- Ea. by exists a.
  - intros t Ht. left. by apply Et.
Qed.

Lemma framed_same x s s' : broker s' = broker s -> conns s' = conns s -> acquisitions s' = acquisitions s -> (forall t, t ∈ tasks s' -> t ∈ tasks s \/ task_ok (broker s) t) -> framed x s s'.
Proof.
  intros Eb Ec Ea Et. constructor; [done| | | | |done].
  - intros c conn' Hc. rewrite Ec in Hc. by exists conn'.
  - intros c conn Hc. exists conn. by rewrite Ec.
  - intros key a Ha. exists a. by rewrite Ea.
  - intros key a Ha. exists a. by rewrite <- Ea.
Qed.

Lemma inv_on_conn x c f s : quiet f -> inv x s -> inv x (on_conn c f s).
Proof. intros Hf I. eapply inv_framed; [exact I|]. by eapply framed_conn. Qed.

Lemma keeps_on_conn x c f : quiet f -> preserves (inv x) (modify (on_conn c f) : method Server ServerError unit).
Proof. intros Hf s I. by apply inv_on_conn. Qed.

Lemma inv_same x s s' : broker s' = broker s -> conns s' = conns s -> acquisitions s' = acquisitions s -> tasks s' = tasks s -> inv x s -> inv x s'.
Proof. intros Eb Ec Ea Et I. eapply inv_framed; [exact I|]. apply framed_same; try done. rewrite Et. by left. Qed.

Lemma inv_lose x b s : inv x s -> inv x ((if b : bool then Datatypes.id else lose) s).
Proof. intros I. destruct b; [done|]. by apply (inv_same x s). Qed.

(** ** Writing *)

Lemma keeps_writeFrame x c r : preserves (inv x) (writeFrame stringify options c r).
Proof.
  unfold writeFrame. destruct (reply_frame _ _ r); [|by intros s]. apply keeps_on_conn. intros conn. by case_decide.
Qed.

Lemma keeps_sendAndEnd x c r : preserves (inv x) (sendAndEnd stringify options c r).
Proof. unfold sendAndEnd. apply keeps_on_conn. intros conn. unfold end_with. destruct (reply_frame _ _ r); [|done]. by case_decide. Qed.

(** ** Calls of the broker that answer nobody new *)

Lemma inv_wf x s : inv x s -> wf uuid true (broker s).
Proof. intros I. exact (reached_wf clock uuid true (fun _ => unique) _ (i_broker _ _ I)). Qed.

Lemma find_queue (q : list PendingAcquire) n p : List.find (fun p => number_of p =? n) q = Some p -> p ∈ q /\ number_of p = n.
Proof. intros [Hin Hn]%List.find_some. apply Z.eqb_eq in Hn. split; [by apply list_elem_of_In|done]. Qed.

Lemma keeps_abort x c i : preserves (inv x) (abort_acquire clock uuid c i).
Proof.
  intros s I. unfold abort_acquire. destruct (acquisitions s !! (c, i)) as [a|] eqn:Ha; [|done].
  match goal with |- context [set_acquisitions ?m s] => set (s1 := set_acquisitions m s) end.
  assert (I1 : inv x s1).
  { eapply inv_framed; [exact I|]. constructor; cbn.
    - done.
    - intros k conn Hk. by exists conn.
    - intros k conn Hk. by exists conn.
    - intros key a0 Ha0. destruct (decide (key = (c, i))) as [->|Hne]; [rewrite Ha in Ha0; injection Ha0 as <-; eexists; by rewrite lookup_insert_eq|].
      exists a0. by rewrite lookup_insert_ne.
    - intros key a0 [[<- <-]|[_ Ha0]]%lookup_insert_Some; by eexists.
    - by left. }
  destruct (aq_promise a) as [r|n]; [done|]. destruct (List.find _ _) as [p|] eqn:Hf; [|done]. apply find_queue in Hf as [Hp _].
  destruct (onAbort clock uuid p (broker s1)) as [r b] eqn:E. cbn [snd]. apply inv_lose. apply inv_informs; [done| |].
  - eapply reached_next; [apply I1|]. by eapply step_abort.
  - eapply abort_informs; [done|by eapply inv_wf|exact Hp|exact E].
Qed.

(** Ending a lease, whoever asks. *)
Lemma inv_release x s h r b :
  inv x s -> release clock uuid h (broker s) = (r, b) -> inv x (set_broker b s) /\ inform (broker s) b /\ forall lid, leases b !! lid <> Some h.
Proof.
  intros I E.
  assert (Hadm : forall lid l, leases (broker s) !! lid = Some h -> heap_of (broker s) !! h = Some l -> let_in (broker s) (worker (lessee l))).
  { intros lid l Hl Hh. destruct (i_leases _ _ I lid h l Hl Hh) as [(c & conn & o & Hc & _ & Hb & _)|(c & i & a & conn & _ & _ & Hc & Hb & _)]; by apply (i_bound _ _ I c conn). }
  destruct (release_ends clock uuid unique h (broker s) r b (inv_wf _ _ I) (i_ids _ _ I) (i_unpromised _ _ I) Hadm E) as [A Hgone].
  split; [|done]. apply inv_informs; [done| |done]. eapply reached_next; [apply I|]. by eapply step_release.
Qed.

Lemma keeps_release_unheard x h : preserves (inv x) (release_unheard clock uuid h).
Proof.
  intros s I. unfold release_unheard. destruct (release clock uuid h (broker s)) as [r b] eqn:E. cbn [snd]. apply inv_lose. by eapply inv_release.
Qed.

Lemma keeps_each {A} (I : Server -> Prop) (f : A -> method Server ServerError unit) l : (forall a, preserves I (f a)) -> preserves I (each f l).
Proof. intros Hf. induction l as [|a l IH]; [by intros s|]. apply preserves_bind; [done|]. by intros _. Qed.

(** ** Closing a connection *)

Definition nobody : nat -> Prop := fun _ => False.

Lemma abort_quiet c i s : (abort_acquire clock uuid c i s).1 = Ok tt /\ conns (abort_acquire clock uuid c i s).2 = conns s.
Proof.
  unfold abort_acquire. destruct (acquisitions s !! (c, i)) as [a|]; [|done]. destruct (aq_promise a); [done|]. destruct (List.find _ _); [|done].
  destruct (onAbort _ _ _ _) as [r b]. by destruct (is_ok r).
Qed.

Lemma aborts_quiet c names s : (each (abort_acquire clock uuid c) names s).1 = Ok tt /\ conns (each (abort_acquire clock uuid c) names s).2 = conns s.
Proof.
  revert s. induction names as [|i names IH]; intros s; [done|]. cbn [each]. unfold mbind, method_bind. destruct (abort_quiet c i s) as [E1 E2].
  destruct (abort_acquire clock uuid c i s) as [r s1]. cbn in E1, E2. subst r. destruct (IH s1) as [E3 E4]. split; [done|congruence].
Qed.

(** A connection that is being closed no longer counts once nothing of its worker lives. *)
Lemma inv_closed_out c s w :
  inv (eq c) s -> (forall conn, conns s !! c = Some conn -> bound conn = w) ->
  (forall lid addr l, leases (broker s) !! lid = Some addr -> heap_of (broker s) !! addr = Some l -> Some (worker (lessee l)) <> w) -> inv nobody s.
Proof.
  intros I Hb Hnone. destruct I. constructor; try done. intros lid addr l Hl Hh. destruct (i_leases0 lid addr l Hl Hh) as [(c' & conn & o & Hc & Hop & Hbd & H)|]; [|by right].
  left. exists c', conn, o. split_and!; try apply H; try done. destruct Hop as [|<-]; [by left|]. exfalso. apply (Hnone lid addr l Hl Hh). rewrite <- Hbd. by apply Hb.
Qed.

Lemma inv_closing c s s' :
  inv nobody s -> broker s' = broker s -> conns s' = alter set_closed c (conns s) -> acquisitions s' = acquisitions s -> tasks s' = tasks s ->
  inv (eq c) s'.
Proof.
  intros I Eb Ec Ea Et. assert (I1 : inv (eq c) s).
  { destruct I. constructor; try done. intros lid addr l Hl Hh. destruct (i_leases0 lid addr l Hl Hh) as [(c' & conn' & o & Hc' & [Hop|[]] & H)|]; [|by right].
    left. exists c', conn', o. split; [done|]. split; [by left|done]. }
  assert (Hlk : forall k conn', conns s' !! k = Some conn' -> exists conn0, conns s !! k = Some conn0 /\ bound conn' = bound conn0 /\ owned conn' = owned conn0).
  { intros k conn'. rewrite Ec. intros [(<- & conn0 & Hc0 & ->)|[_ Hc0]]%lookup_alter_Some; [by exists conn0|by exists conn']. }
  assert (Hkl : forall k conn0, conns s !! k = Some conn0 -> exists conn', conns s' !! k = Some conn' /\ bound conn' = bound conn0 /\ owned conn' = owned conn0 /\
    (closed conn0 = false -> closed conn' = false \/ c = k) /\ seenRequests conn' = seenRequests conn0).
  { intros k conn0 Hc0. rewrite Ec. destruct (decide (c = k)) as [->|Hne].
    - exists (set_closed conn0). rewrite lookup_alter_eq, Hc0. split_and!; try done. by right.
    - exists conn0. rewrite lookup_alter_ne by done. split_and!; try done. by left. }
  destruct I1. constructor; rewrite ?Eb, ?Ea, ?Et; try done.
  - intros k conn' w Hk Hw. destruct (Hlk k conn' Hk) as (conn0 & Hc0 & E & _). rewrite E in Hw. by apply (i_bound0 k conn0).
  - intros k k' conn1 conn2 w H1 H2 Hw1 Hw2. destruct (Hlk k conn1 H1) as (d1 & Hd1 & E1 & _). destruct (Hlk k' conn2 H2) as (d2 & Hd2 & E2 & _).
    rewrite E1 in Hw1. rewrite E2 in Hw2. by eapply (i_unique0 k k').
  - intros p Hp. destruct (i_queue0 p Hp) as (k & i & a & conn0 & Ha & Hpr & Hc0 & Hb & Hat). destruct (Hkl k conn0 Hc0) as (conn' & Hc' & E & _). exists k, i, a, conn'. by rewrite E.
  - intros k i a conn' p Hp Ha Hpr Hk. destruct (Hlk k conn' Hk) as (conn0 & Hc0 & -> & _). by apply (i_waiting0 k i a conn0 p).
  - intros k i a conn' addr Ha Hans Hk. destruct (Hlk k conn' Hk) as (conn0 & Hc0 & -> & _). by apply (i_granted0 k i a conn0 addr).
  - intros lid addr l Hl Hh. destruct (i_leases0 lid addr l Hl Hh) as [(k & conn0 & o & Hc0 & Hop & Hb & Ho & H)|(k & i & a & conn0 & Ha & Hans & Hc0 & Hb & Hat)].
    + destruct (Hkl k conn0 Hc0) as (conn' & Hc' & E & Eo & Hcl & _). left. exists k, conn', o. rewrite E, Eo. split_and!; try done; try apply H.
      destruct Hop as [Hop| ->]; [by apply Hcl|by right].
    + destruct (Hkl k conn0 Hc0) as (conn' & Hc' & E & _). right. exists k, i, a, conn'. by rewrite Eb, Ea, E.
  - intros k conn' lid o Hk Ho. destruct (Hlk k conn' Hk) as (conn0 & Hc0 & -> & E). rewrite E in Ho. by apply (i_owned0 k conn0).
  - intros k i a Ha. destruct (i_seen0 k i a Ha) as (conn0 & Hc0 & Hin). destruct (Hkl k conn0 Hc0) as (conn' & Hc' & _ & _ & _ & E). exists conn'. by rewrite E.
Qed.

(** What a connection that is closed has in its books counts for nothing. *)
Lemma inv_emptied c s : inv nobody s -> (forall conn, conns s !! c = Some conn -> closed conn = true) -> inv nobody (on_conn c (set_owned ∅ ∅) s).
Proof.
  intros I Hcl. eapply inv_framed; [exact I|]. constructor; cbn; [done| | | | |by left]; [| |intros key a Ha; by exists a|intros key a Ha; by exists a].
  - intros k conn' [(<- & conn0 & Hc0 & ->)|[_ Hc0]]%lookup_alter_Some; [|by exists conn']. exists conn0. split; [done|]. split; [done|]. intros lid o Ho. cbn in Ho. by rewrite lookup_empty in Ho.
  - intros k conn0 Hc0. destruct (decide (c = k)) as [->|Hne]; [|exists conn0; by rewrite lookup_alter_ne].
    exists (set_owned ∅ ∅ conn0). rewrite lookup_alter_eq, Hc0. split_and!; try done. rewrite (Hcl conn0 Hc0). by intros [|[]].
Qed.

Lemma close_connection c s : inv nobody s -> exists s', closeConnection clock uuid c s = (Ok tt, s') /\ inv nobody s'.
Proof.
  intros I. unfold closeConnection. unfold mbind, method_bind, get at 1. destruct (conns s !! c) as [conn|] eqn:Hc; [|by exists s].
  destruct (closed conn) eqn:Hcl; [by exists s|]. unfold modify at 1.
  set (s1 := set_sockets _ _). assert (I1 : inv (eq c) s1) by by apply (inv_closing c s).
  assert (Hc1 : conns s1 !! c = Some (set_closed conn)) by (cbn; by rewrite lookup_alter_eq, Hc).
  pose proof (keeps_each _ _ (pendingAcquires conn) (fun i => keeps_abort (eq c) c i) s1 I1) as I2. destruct (aborts_quiet c (pendingAcquires conn) s1) as [E1 E2].
  destruct (each (abort_acquire clock uuid c) (pendingAcquires conn) s1) as [r s2]. cbn [fst snd] in *. subst r. unfold modify at 1.
  set (s3 := on_conn c (set_pending []) s2). assert (I3 : inv (eq c) s3) by by apply inv_on_conn.
  assert (Hc3 : conns s3 !! c = Some (set_pending [] (set_closed conn))) by (cbn; by rewrite lookup_alter_eq, E2, Hc1). clearbody s3.
  destruct (bound conn) as [w|] eqn:Hw.
  - unfold modify at 1. set (s4 := if decide _ then _ else _).
    assert (I4 : inv (eq c) s4) by (unfold s4; case_decide; [by apply (inv_same (eq c) s3)|done]).
    assert (Hc4 : conns s4 !! c = Some (set_pending [] (set_closed conn))) by (unfold s4; by case_decide).
    assert (Hadm : let_in (broker s4) w) by by apply (i_bound _ _ I4 c _ w Hc4).
    unfold on_broker_op. destruct (disconnectWorker clock uuid w (broker s4)) as [r b] eqn:E.
    destruct (disconnect_clears clock uuid unique w (broker s4) r b) as (-> & A & Hclear); [by apply reached_core, I4|apply Hadm|done|].
    unfold modify. eexists. split; [reflexivity|]. apply inv_emptied; [|cbn; rewrite Hc4; by intros ? [= <-]].
    apply (inv_closed_out c _ (Some w)); [|cbn; rewrite Hc4; by intros ? [= <-]|].
    + apply inv_informs; [done| |done]. eapply reached_next; [apply I4|]. by eapply step_disconnect.
    + intros lid addr l Hl Hh [= E5]. by eapply Hclear.
  - unfold modify. eexists. split; [reflexivity|]. apply inv_emptied; [|rewrite Hc3; by intros ? [= <-]].
    apply (inv_closed_out c _ None); [done|rewrite Hc3; by intros ? [= <-]|done].
Qed.

Abbreviation sound := (inv nobody).

(** ** A worker is let in *)

Lemma inv_bind c w s b :
  sound s -> (forall conn, conns s !! c = Some conn -> bound conn = None) -> registerWorker clock uuid w (broker s) = (Ok tt, b) ->
  sound (on_conn c (set_bound (Some w)) (set_broker b s)).
Proof.
  intros I Hnone Hr. destruct (register_informs clock uuid unique w (broker s) (Ok tt) b) as [[]|(_ & Hrun & Hhigh & Hw & A)]; [by apply reached_core, I|done|done|].
  pose proof (assertWorker_epoch _ _ _ Hw) as Hnan.
  assert (I1 : sound (set_broker b s)).
  { eapply inv_moves; [exact I|eapply reached_next; [apply I|by eapply step_register]| |exact A]. intros k h Hk.
    destruct (decide (k = workerId w)) as [->|Hne]; [|exists h; rewrite lookup_insert_ne by done; split; [done|by left]].
    exists (workerEpoch w). rewrite lookup_insert_eq. split; [done|]. right. by apply num_leb_total; [apply Hhigh|]. }
  assert (Hother : forall k conn, conns s !! k = Some conn -> bound conn <> Some w).
  { intros k conn Hk Hb. destruct (i_bound _ _ I k conn w Hk Hb) as (_ & h & Hh & Hle). rewrite (Hhigh h Hh) in Hle. done. }
  assert (Hlk : forall k conn', conns (on_conn c (set_bound (Some w)) (set_broker b s)) !! k = Some conn' ->
    exists conn, conns s !! k = Some conn /\ owned conn' = owned conn /\ ((k = c /\ bound conn' = Some w) \/ (k <> c /\ bound conn' = bound conn))).
  { intros k conn'. cbn. intros [(<- & conn & Hk & ->)|[Hne Hk]]%lookup_alter_Some; [exists conn; split_and!; try done; by left|exists conn'; split_and!; try done; right; split; [congruence|done]]. }
  assert (Hkl : forall k conn, conns s !! k = Some conn ->
    exists conn', conns (on_conn c (set_bound (Some w)) (set_broker b s)) !! k = Some conn' /\ owned conn' = owned conn /\ closed conn' = closed conn /\
      seenRequests conn' = seenRequests conn /\ (forall v, bound conn = Some v -> bound conn' = Some v)).
  { intros k conn Hk. cbn. destruct (decide (c = k)) as [->|Hne]; [|exists conn; by rewrite lookup_alter_ne].
    exists (set_bound (Some w) conn). rewrite lookup_alter_eq, Hk. split_and!; try done. intros v. by rewrite (Hnone conn Hk). }
  assert (Hback : forall k conn', conns (on_conn c (set_bound (Some w)) (set_broker b s)) !! k = Some conn' ->
    exists conn, conns s !! k = Some conn /\ forall v, bound conn = Some v -> bound conn' = Some v).
  { intros k conn' Hk. destruct (Hlk k conn' Hk) as (conn & Hc & _). exists conn. split; [done|]. destruct (Hkl k conn Hc) as (conn2 & Hk2 & _ & _ & _ & Hb). rewrite Hk in Hk2. by injection Hk2 as <-. }
  destruct I1. constructor; try done.
  - intros k conn' v Hk Hv. destruct (Hlk k conn' Hk) as (conn & Hc & _ & [[-> Eb]|[_ Eb]]); [|apply (i_bound0 k conn); [done|congruence]].
    rewrite Eb in Hv. injection Hv as <-. split; [split; [cbn; by rewrite (inf_config _ _ _ A)|done]|]. exists (workerEpoch w). split; [cbn; rewrite (inf_epochs _ _ _ A); apply lookup_insert_eq|by apply num_leb_refl].
  - intros k k' c1 c2 v H1 H2 Hv1 Hv2. destruct (Hlk k c1 H1) as (d1 & Hd1 & _ & [[-> E1]|[Hn1 E1]]), (Hlk k' c2 H2) as (d2 & Hd2 & _ & [[-> E2]|[Hn2 E2]]); try done.
    + destruct (Hother k' d2 Hd2). cbn in *. congruence.
    + destruct (Hother k d1 Hd1). cbn in *. congruence.
    + apply (i_unique0 k k' d1 d2 v); [done|done|congruence..].
  - intros p Hp. destruct (i_queue0 p Hp) as (k & i & a & conn & Ha & Hpr & Hc & Hb & Hat). destruct (Hkl k conn Hc) as (conn' & Hc' & _ & _ & _ & Hbd). exists k, i, a, conn'. split_and!; auto.
  - intros k i a conn' p Hp Ha Hpr Hk. destruct (Hback k conn' Hk) as (conn & Hc & Hb). destruct (i_waiting0 k i a conn p Hp Ha Hpr Hc). auto.
  - intros k i a conn' addr Ha Hans Hk. destruct (Hback k conn' Hk) as (conn & Hc & Hb). destruct (i_granted0 k i a conn addr Ha Hans Hc) as (l & Hl & Hw' & Hat). exists l. auto.
  - intros lid addr l Hl Hh. destruct (i_leases0 lid addr l Hl Hh) as [(k & conn & o & Hc & Hop & Hb & Ho & H)|(k & i & a & conn & Ha & Hans & Hc & Hb & Hat)];
      destruct (Hkl k conn Hc) as (conn' & Hc' & Eo & Ecl & _ & Hbd).
    + left. exists k, conn', o. rewrite Eo, Ecl. auto.
    + right. exists k, i, a, conn'. split_and!; auto.
  - intros k conn' lid o Hk Ho. destruct (Hlk k conn' Hk) as (conn & Hc & E & _). rewrite E in Ho. destruct (i_owned0 k conn lid o Hc Ho) as (l & Hl & Hid & Hb & Hat).
    exists l. split_and!; try done. destruct (Hkl k conn Hc) as (conn2 & Hk2 & _ & _ & _ & Hbd). rewrite Hk in Hk2. injection Hk2 as <-. by apply Hbd.
  - intros k i a Ha. destruct (i_seen0 k i a Ha) as (conn & Hc & Hin). destruct (Hkl k conn Hc) as (conn' & Hc' & _ & _ & Es & _). exists conn'. by rewrite Es.
Qed.

(** ** Small steps *)

Abbreviation keeps := (preserves sound).

Lemma keeps_close c : keeps (closeConnection clock uuid c).
Proof. intros s I. by destruct (close_connection c s I) as (s' & -> & I'). Qed.

Lemma keeps_fail c e : keeps (fail_connection clock uuid stringify options c e).
Proof. apply preserves_bind; [apply keeps_close|]. intros _. apply keeps_sendAndEnd. Qed.

(** Runs the monadic operations at the head of the goal. *)
Ltac run_goal := unfold mbind, method_bind, mret, method_ret, modify, get, lift, throw, catch, on_broker_op, outcome_of; cbv beta iota.

(** A field is read first; if it is wrong nothing happens. *)
Ltac read_field := match goal with |- context [match ?r with Ok _ => _ | Err _ => _ end] => destruct r; [|done] end; cbv beta iota.

Lemma hello_keeps c i m s : sound s -> (forall conn, conns s !! c = Some conn -> bound conn = None) -> sound (handleHello clock uuid sha256 stringify options c i m s).2.
Proof.
  intros I Hnone. unfold handleHello. run_goal. read_field. destruct (negb _); [by apply keeps_sendAndEnd|]. read_field.
  case_bool_decide; [|by apply keeps_sendAndEnd]. do 2 read_field.
  match goal with |- context [registerWorker clock uuid ?x _] => set (w := x) end.
  destruct (registerWorker clock uuid w (broker s)) as [[[]|e] b] eqn:E.
  - pose proof (inv_bind c w s b I Hnone E) as I1. match goal with |- context [writeFrame stringify options c ?r ?x] => set (s1 := x); assert (I2 : sound s1) end.
    { by apply (inv_same nobody (on_conn c (set_bound (Some w)) (set_broker b s))). }
    match goal with |- context [writeFrame stringify options c ?r s1] => pose proof (keeps_writeFrame nobody c r s1 I2) as I3; destruct (writeFrame stringify options c r s1) as [[[]|] s2] end; [|done].
    destruct (connected _ !! _) as [c'|]; [|done]. case_decide; [done|]. by apply inv_on_conn.
  - destruct (register_informs clock uuid unique w (broker s) _ b (reached_core _ (i_broker _ _ I)) E) as [[_ ->]|[Hok _]]; [|done].
    destruct (sendAndEnd _ _ _ _ _) as [r s1] eqn:Es. assert (I1 : sound s1).
    { change s1 with (r, s1).2. rewrite <- Es. by apply keeps_sendAndEnd, (inv_same nobody s). }
    by destruct r as [[]|].
Qed.

(** ** Requests *)

(** A lease that is over may leave the books. *)
Lemma inv_forget c q lid s :
  sound s -> (forall conn o, conns s !! c = Some conn -> owned conn !! lid = Some o -> leases (broker s) !! lid <> Some (ow_handle o)) -> sound (on_conn c (forget q lid) s).
Proof.
  intros I Hover. eapply inv_framed; [exact I|]. constructor; cbn; [done| | | | |by left]; [| |intros key a Ha; by exists a|intros key a Ha; by exists a].
  - intros k conn' [(<- & conn & Hc & ->)|[_ Hc]]%lookup_alter_Some; [|by exists conn']. exists conn. split; [done|]. split; [done|]. intros id o. cbn. by intros [_ Ho]%lookup_delete_Some.
  - intros k conn Hc. destruct (decide (c = k)) as [->|Hne]; [|exists conn; by rewrite lookup_alter_ne].
    exists (forget q lid conn). rewrite lookup_alter_eq, Hc. split_and!; try done. intros _ id o Ho Hl. cbn [forget set_owned owned].
    rewrite lookup_delete_ne; [done|]. intros ->. by eapply Hover.
Qed.

(** A number that has not been given out is not answered. *)
Lemma unanswered s n : sound s -> sequence (broker s) < n -> outbox (broker s) !! n = None.
Proof.
  intros I Hn. pose proof (reached_core _ (i_broker _ _ I)) as H. apply eq_None_not_Some. intros Hs.
  apply (core_answered _ _ _ H eq_refl) in Hs. pose proof (core_settled _ _ _ H n Hs). lia.
Qed.

Lemma queue_number s p : sound s -> p ∈ queue (broker s) -> number_of p <= sequence (broker s).
Proof. intros I Hp. destruct (acc_number _ _ _ (core_accounting _ _ _ (reached_core _ (i_broker _ _ I))) p Hp). lia. Qed.

Lemma answer_acquires o r b b' p v : acquires uuid o r b b' -> answer b p = Some v -> answer b' p = Some v.
Proof. intros A. destruct p as [v'|n]; [done|]. apply A. Qed.

(** The lease the new promise stands for, if it is granted at once. *)
Lemma granted_now o pr s b addr :
  sound s -> acquires uuid o (Ok pr) (broker s) b -> answer b pr = Some (Granted addr) -> exists l, heap_of b !! addr = Some l /\ lessee l = owner o.
Proof.
  intros I A Hans. destruct pr as [v|n]; [injection Hans as ->; by apply (acq_granted _ _ _ _ _ A)|]. pose proof (acq_number _ _ _ _ _ A n eq_refl).
  destruct (acq_answered _ _ _ _ _ A n addr (unanswered s n I ltac:(lia)) Hans) as (l & Hl & [(p & Hp & <- & _)|[_ Hwho]]); [|by exists l].
  pose proof (queue_number s p I Hp). lia.
Qed.

(** The lease an older promise stands for. *)
Lemma granted_before o r s b k i a conn addr :
  sound s -> acquires uuid o r (broker s) b -> acquisitions s !! (k, i) = Some a -> answer b (aq_promise a) = Some (Granted addr) -> conns s !! k = Some conn ->
  exists l, heap_of b !! addr = Some l /\ bound conn = Some (worker (lessee l)) /\ aq_attemptId a = attemptId (lessee l).
Proof.
  intros I A Ha Hans Hk. destruct (answer (broker s) (aq_promise a)) as [v|] eqn:Eans.
  - assert (v = Granted addr) as -> by (apply (answer_acquires _ _ _ _ _ _ A) in Eans; congruence).
    destruct (i_granted _ _ I k i a conn addr Ha Eans Hk) as (l & Hl & Hw & Hat). destruct (acq_heap _ _ _ _ _ A addr l Hl) as (l' & Hl' & _ & _ & El). exists l'. by rewrite El.
  - destruct (aq_promise a) as [|n] eqn:Epr; [done|]. destruct (acq_answered _ _ _ _ _ A n addr Eans Hans) as (l & Hl & [(p & Hp & <- & Hwho)|[-> _]]).
    + exists l. rewrite Hwho. split; [done|]. by apply (i_waiting _ _ I k i a conn p).
    + pose proof (i_number _ _ I _ a _ Ha Epr). pose proof (acq_number _ _ _ _ _ A _ eq_refl). lia.
Qed.

(** A lease that was live before, or that a request of the queue was granted. *)
Lemma held_before o r s b lid addr l :
  sound s -> acquires uuid o r (broker s) b -> leases b !! lid = Some addr -> heap_of b !! addr = Some l ->
  in_books nobody s lid addr (lessee l) \/
  (exists k i a conn, acquisitions s !! (k, i) = Some a /\ answer b (aq_promise a) = Some (Granted addr) /\ conns s !! k = Some conn /\ bound conn = Some (worker (lessee l)) /\
    aq_attemptId a = attemptId (lessee l)) \/
  (lessee l = owner o /\ (r = Ok (Settled (Granted addr)) \/ exists n, r = Ok (Waiting n) /\ outbox b !! n = Some (Granted addr))).
Proof.
  intros I A Hl Hh. destruct (acq_leases _ _ _ _ _ A lid addr Hl) as [Hl0|[(p & l0 & Hp & Ho & Hl0 & Hwho & _)|(l0 & Hsrc & Hl0 & Hwho & _)]].
  - destruct (live_record _ lid addr (i_broker _ _ I) Hl0) as (l0 & Hh0 & _). destruct (acq_heap _ _ _ _ _ A addr l0 Hh0) as (l1 & Hh1 & _ & _ & E1).
    rewrite Hh in Hh1. injection Hh1 as <-. rewrite E1. destruct (i_leases _ _ I lid addr l0 Hl0 Hh0) as [|(k & i & a & conn' & Ha & Hans & H)]; [by left|right; left].
    exists k, i, a, conn'. split; [done|]. split; [by eapply answer_acquires|done].
  - rewrite Hh in Hl0. injection Hl0 as <-. right. left. rewrite Hwho. destruct (i_queue _ _ I p Hp) as (k & i & a & conn' & Ha & Hpr & H). exists k, i, a, conn'. by rewrite Hpr.
  - rewrite Hh in Hl0. injection Hl0 as <-. right. by right.
Qed.

(** An acquire request: its promise is remembered under the request. *)
Lemma inv_acquire c rid conn o s r b :
  sound s -> conns s !! c = Some conn -> bound conn = Some (worker (owner o)) -> rid ∈ seenRequests conn -> acquisitions s !! (c, rid) = None ->
  acquire clock uuid o (broker s) = (r, b) ->
  match r with
  | Ok p => sound (set_acquisitions (<[(c, rid) := {| aq_promise := p; aq_cancelled := false; aq_attemptId := attemptId (owner o) |}]> (acquisitions s)) (set_broker b s))
  | Err _ => sound (set_broker b s)
  end.
Proof.
  intros I Hc Hb Hin Hnew E. pose proof (acquire_informs clock uuid unique o (broker s) r b (inv_wf _ _ I) E) as A.
  assert (Hr : reached clock uuid b) by (eapply reached_next; [apply I|by eapply step_acquire]).
  destruct r as [pr|e]; [|by apply inv_informs; [exact I|exact Hr|apply (acq_error _ _ _ _ _ A)]].
  set (a0 := {| aq_promise := pr; aq_cancelled := false; aq_attemptId := attemptId (owner o) |}).
  assert (Hne : forall k i a, acquisitions s !! (k, i) = Some a -> (c, rid) <> (k, i)) by congruence.
  constructor; cbn [broker conns acquisitions tasks set_broker set_acquisitions].
  - exact Hr.
  - exact (acq_ids _ _ _ _ _ A (i_ids _ _ I)).
  - exact (acq_unpromised _ _ _ _ _ A (i_unpromised _ _ I)).
  - rewrite (acq_config _ _ _ _ _ A). apply I.
  - intros k conn' w Hk Hw. rewrite (acq_epochs _ _ _ _ _ A). unfold let_in. rewrite (acq_config _ _ _ _ _ A). by apply (i_bound _ _ I k conn').
  - apply I.
  - intros p Hp. destruct (acq_queue _ _ _ _ _ A p Hp) as [Hold|[[= ->] Hwho]].
    + destruct (i_queue _ _ I p Hold) as (k & i & a & conn' & Ha & H). exists k, i, a, conn'. rewrite lookup_insert_ne by eauto. done.
    + exists c, rid, a0, conn. rewrite lookup_insert_eq, Hwho. done.
  - intros k i a conn' p Hp [[[= <- <-] <-]|[_ Ha]]%lookup_insert_Some Hpr Hk.
    + cbn in Hpr. subst pr. destruct (acq_queue _ _ _ _ _ A p Hp) as [Hold|[_ Hwho]]; [|rewrite Hwho; split; [congruence|done]].
      pose proof (queue_number s p I Hold). pose proof (acq_number _ _ _ _ _ A _ eq_refl). lia.
    + destruct (acq_queue _ _ _ _ _ A p Hp) as [Hold|[[= ->] _]]; [by apply (i_waiting _ _ I k i a conn' p)|].
      pose proof (i_number _ _ I _ a _ Ha Hpr). pose proof (acq_number _ _ _ _ _ A _ eq_refl). lia.
  - intros k i a conn' addr [[[= <- <-] <-]|[_ Ha]]%lookup_insert_Some Hans Hk.
    + destruct (granted_now o pr s b addr I A Hans) as (l & Hl & Hwho). exists l. rewrite Hwho. split_and!; [done|congruence|done].
    + by eapply granted_before.
  - intros key a n [[<- <-]|[_ Ha]]%lookup_insert_Some Hpr.
    + cbn in Hpr. subst pr. apply (acq_number _ _ _ _ _ A). done.
    + pose proof (i_number _ _ I key a n Ha Hpr). pose proof (acq_sequence _ _ _ _ _ A). lia.
  - intros lid addr l Hl Hh. destruct (held_before o _ s b lid addr l I A Hl Hh) as [|[(k & i & a & conn' & Ha & H)|(Hwho & Hsrc)]]; [by left|right..].
    + exists k, i, a, conn'. cbn. rewrite lookup_insert_ne by eauto. done.
    + rewrite Hwho. exists c, rid, a0, conn. cbn. rewrite lookup_insert_eq. split_and!; try done. destruct Hsrc as [[= ->]|(n & [= ->] & Hn)]; done.
  - intros k conn' lid ow Hk Ho. destruct (i_owned _ _ I k conn' lid ow Hk Ho) as (l & Hl & Hid & Hbd & Hat). destruct (acq_heap _ _ _ _ _ A _ _ Hl) as (l' & Hl' & E' & _ & El).
    exists l'. rewrite El. split_and!; [done|congruence|done..].
  - intros t Ht. apply (task_moves (broker s)); [exact Hr|apply A|exact (acq_ids _ _ _ _ _ A (i_ids _ _ I))| |by apply (i_tasks _ _ I)]. intros lid addr H.
    destruct (acq_leases _ _ _ _ _ A lid addr H) as [|[(p & l & _ & _ & _ & _ & Hn)|(l & _ & _ & _ & Hn)]]; auto.
  - intros k i a [[[= <- <-] _]|[_ Ha]]%lookup_insert_Some; [by exists conn|by apply (i_seen _ _ I k i a)].
Qed.

Lemma acquire_keeps c rid m w conn s :
  sound s -> conns s !! c = Some conn -> bound conn = Some w -> rid ∈ seenRequests conn -> acquisitions s !! (c, rid) = None ->
  sound (handleAcquire clock uuid c rid m w s).2.
Proof.
  intros I Hc Hb Hin Hnew. unfold handleAcquire. run_goal. do 3 read_field.
  match goal with |- context [on_conn c ?f s] => set (s1 := on_conn c f s); assert (I1 : sound s1) by (by apply inv_on_conn);
    assert (Hc1 : conns s1 !! c = Some (f conn)) by (cbn; by rewrite lookup_alter_eq, Hc) end.
  match goal with |- context [acquire clock uuid ?o _] => destruct (acquire clock uuid o (broker s1)) as [r b] eqn:E;
    pose proof (inv_acquire c rid _ o s1 r b I1 Hc1 Hb Hin Hnew E) as I2 end.
  by destruct r.
Qed.

(** The lease of a handle that has been released is over under its name too. *)
Lemma name_over s h b lid l :
  sound (set_broker b s) -> heap_of b !! h = Some l -> leaseId l = lid -> (forall lid, leases b !! lid <> Some h) -> leases b !! lid = None.
Proof.
  intros I Hl Hid Hgone. destruct (leases b !! lid) as [addr|] eqn:E; [|done]. destruct (live_record b lid addr (i_broker _ _ I) E) as (k & Hk & Hkid).
  destruct (i_ids _ _ I) as [_ Hinj]. assert (addr = h) as -> by (apply (Hinj addr h k l Hk Hl); congruence). by apply Hgone in E.
Qed.

Lemma inv_returned c q lid h l s r b :
  sound s -> heap_of (broker s) !! h = Some l -> leaseId l = lid -> release clock uuid h (broker s) = (r, b) -> sound (on_conn c (forget q lid) (set_broker b s)).
Proof.
  intros I Hl Hid E. destruct (inv_release nobody s h r b I E) as (I1 & A & Hgone). apply inv_forget; [done|]. intros conn o _ _.
  destruct (inf_heap _ _ _ A h l Hl) as (l' & Hl' & E' & _). cbn. rewrite (name_over s h b lid l'); [done..|congruence|done].
Qed.

Lemma cancel_keeps c rid m conn conn' s :
  sound s -> conns s !! c = Some conn' -> owned conn' = owned conn -> sound (handleCancel clock uuid stringify options c rid m conn s).2.
Proof.
  intros I Hc Eo. unfold handleCancel. unfold mbind at 1, method_bind at 1, lift at 1. read_field.
  apply (preserves_after sound); [|intros _; apply keeps_writeFrame]. case_bool_decide; [by apply keeps_abort|].
  destruct (acquireLeases conn !! a ≫= _) as [o|] eqn:Ho; [|done]. apply bind_Some in Ho as (lid & _ & Ho). run_goal.
  rewrite <- Eo in Ho. destruct (i_owned _ _ I c conn' lid o Hc Ho) as (l & Hl & Hid & _). rewrite Hl. rewrite Hid. unfold release_unheard.
  cbn [broker on_conn set_conns]. destruct (release clock uuid (ow_handle o) (broker s)) as [r b] eqn:E.
  apply inv_lose. change (sound (on_conn c (forget a lid) (set_broker b s))). by eapply inv_returned.
Qed.

Lemma lease_keeps c rid attaching m conn conn' s :
  sound s -> conns s !! c = Some conn' -> owned conn' = owned conn -> sound (handleLease clock uuid c rid attaching m conn s).2.
Proof.
  intros I Hc Eo. unfold handleLease. unfold mbind at 1, method_bind at 1, lift at 1. read_field. unfold mbind at 1, method_bind at 1, lift at 1. read_field.
  unfold mbind at 1, method_bind at 1, lift at 1. read_field. unfold mbind at 1, method_bind at 1, get at 1.
  rewrite <- Eo. destruct (owned conn' !! a) as [o|] eqn:Ho; [|done]. destruct (i_owned _ _ I c conn' a o Hc Ho) as (l & Hl & Hid & _).
  cbn [mbind option_bind]. rewrite Hl. cbn [mbind option_bind]. destruct (bool_decide (ow_attemptId o = a1) && bool_decide (token l = a0)); [|done]. destruct attaching.
  - run_goal. read_field. destruct (attach (ow_handle o) a2 (broker s)) as [r b] eqn:E.
    assert (I1 : sound (set_broker b s)).
    { apply inv_informs; [done|eapply reached_next; [apply I|by eapply step_attach]|by eapply attach_informs]. }
    eapply inv_framed; [exact I1|]. apply framed_same; try done. cbn. intros t [Ht| ->%list_elem_of_singleton]%elem_of_app; [by left|by right].
  - run_goal. destruct (release clock uuid (ow_handle o) (broker s)) as [r b] eqn:E. destruct (inv_release nobody s _ r b I E) as (I1 & A & Hgone).
    destruct (inf_heap _ _ _ A _ l Hl) as (l' & Hl' & E' & _).
    eapply inv_framed; [exact I1|]. apply framed_same; try done. cbn. intros t [Ht| ->%list_elem_of_singleton]%elem_of_app; [by left|right]. cbn.
    split; [|exists (ow_handle o), l'; split; [done|congruence]]. apply (name_over s (ow_handle o) b a l'); [done|done|congruence|done].
Qed.

(** ** Messages *)

(** A request id is remembered. *)
Lemma inv_seen c i conn s : sound s -> conns s !! c = Some conn -> sound (on_conn c (set_seen ({[i]} ∪ seenRequests conn)) s).
Proof.
  intros I Hc. replace (on_conn c (set_seen ({[i]} ∪ seenRequests conn)) s) with (on_conn c (fun k => set_seen ({[i]} ∪ seenRequests k) k) s).
  - apply inv_on_conn; [|done]. intros k. split_and!; try done. cbn. set_solver.
  - unfold on_conn. f_equal. apply alter_ext. intros k Hk. rewrite Hc in Hk. by injection Hk as <-.
Qed.

Lemma message_keeps c v s : sound s -> sound (handleMessage clock uuid sha256 stringify options c v s).2.
Proof.
  intros I. unfold handleMessage. unfold mbind at 1, method_bind at 1, lift at 1. read_field. unfold mbind at 1, method_bind at 1, get at 1.
  destruct (conns s !! c) as [conn|] eqn:Hc; [|done]. case_bool_decide as Hseen; [done|]. destruct (_ <=? _); [done|].
  unfold mbind at 1, method_bind at 1, modify at 1. set (f := set_seen _).
  assert (Hq : conns (on_conn c f s) !! c = Some (f conn)) by (cbn; by rewrite lookup_alter_eq, Hc).
  assert (I1 : sound (on_conn c f s)) by by apply inv_seen.
  destruct (bound conn) as [w|] eqn:Hw; case_bool_decide; try done; [|by apply hello_keeps; [|rewrite Hq; intros ? [= <-]]].
  unfold handleAuthenticated. repeat case_bool_decide; try done.
  - apply (acquire_keeps c _ _ w (f conn)); try done; [cbn; set_solver|]. cbn. destruct (acquisitions s !! _) as [a0|] eqn:Ha; [|done].
    destruct (i_seen _ _ I _ _ _ Ha) as (conn' & Hc' & Hin). congruence.
  - by apply (cancel_keeps c _ _ conn (f conn)).
  - by apply (lease_keeps c _ _ _ conn (f conn)).
  - by apply (lease_keeps c _ _ _ conn (f conn)).
  - apply (preserves_after sound); [done|]. intros s1. apply keeps_writeFrame.
Qed.

Lemma keeps_dispatch c v : keeps (dispatch clock uuid sha256 stringify options c v).
Proof. apply preserves_catch; [intros s; apply message_keeps|]. intros e. apply keeps_fail. Qed.

(** ** Callbacks *)

Lemma keeps_deliver c ms : keeps (deliver (dispatch clock uuid sha256 stringify options c) ms).
Proof. induction ms as [|m ms IH]; [by intros s|]. apply preserves_bind; [apply keeps_dispatch|]. by intros _. Qed.

Lemma keeps_slices c fuel chunk :
  keeps (push_slices json_parse (decoder_at options c) (put_decoder c) local_error (dispatch clock uuid sha256 stringify options c) fuel chunk).
Proof.
  revert chunk. induction fuel as [|fuel IH]; intros chunk s I; [done|]. cbn [push_slices]. unfold mbind at 1, method_bind at 1, get at 1. cbv zeta.
  destruct (push json_parse _ _) as [r d]. apply (preserves_after sound); [by apply inv_on_conn|]. intros _. destruct r as [ms|e]; [|apply preserves_throw].
  apply preserves_bind; [apply keeps_deliver|]. intros _. destruct (_ <=? _)%nat; [apply preserves_ret|apply IH].
Qed.

Lemma keeps_data c chunk : keeps (onData clock uuid json_parse sha256 stringify options c chunk).
Proof. apply preserves_catch; [apply keeps_slices|]. intros e. apply keeps_fail. Qed.

Lemma keeps_gone c : keeps (onGone clock uuid c).
Proof. apply preserves_bind; [by apply keeps_on_conn|]. intros _. apply keeps_close. Qed.

Lemma keeps_handshake c : keeps (onHandshakeTimeout stringify options c).
Proof. apply preserves_bind; [by apply keeps_on_conn|]. intros _. apply keeps_sendAndEnd. Qed.

Lemma keeps_shutdown : keeps (onClose clock uuid).
Proof.
  intros s I. unfold onClose. destruct (closing s); [done|]. apply keeps_each; [|by apply (inv_same nobody s)].
  intros c. apply preserves_bind; [by apply keeps_on_conn|]. intros _. apply keeps_close.
Qed.

Lemma task_keeps t s : sound s -> task_ok (broker s) t -> sound (onTask stringify options t s).2.
Proof.
  intros I Ht. destruct t as [c rid o|c rid lid q o]; [by apply keeps_writeFrame|]. destruct Ht as [Hover _]. cbn [onTask]. apply (preserves_after sound).
  - destruct (is_ok o); [|done]. apply inv_forget; [done|]. intros conn ow _ _. by rewrite Hover.
  - intros _ s1 I1. eapply inv_framed; [exact I1|]. apply framed_same; try done. cbn. intros t [Ht| ->%list_elem_of_singleton]%elem_of_app; [by left|by right].
Qed.

(** The grant reaches the books of its connection. *)
Lemma inv_booked c conn rid h l s :
  sound s -> conns s !! c = Some conn -> bound conn = Some (worker (lessee l)) -> heap_of (broker s) !! h = Some l ->
  sound (on_conn c (fun conn => set_owned (<[rid := leaseId l]> (acquireLeases conn))
    (<[leaseId l := {| ow_handle := h; ow_attemptId := attemptId (lessee l); ow_acquireRequestId := rid |}]> (owned conn)) conn) s).
Proof.
  intros I Hc Hbc Hl. set (f := fun conn : ServerConnection => _).
  assert (Hlk : forall k conn', alter f c (conns s) !! k = Some conn' -> exists conn0, conns s !! k = Some conn0 /\ bound conn' = bound conn0 /\
    forall lid o, owned conn' !! lid = Some o -> owned conn0 !! lid = Some o \/ (k = c /\ lid = leaseId l /\ ow_handle o = h /\ ow_attemptId o = attemptId (lessee l))).
  { intros k conn' [(<- & conn0 & Hk & ->)|[_ Hk]]%lookup_alter_Some; [|by exists conn'; auto]. exists conn0. split; [done|]. split; [done|]. intros lid o. cbn.
    intros [[<- <-]|[_ Ho]]%lookup_insert_Some; auto. }
  assert (Hkl : forall k conn0, conns s !! k = Some conn0 -> exists conn', alter f c (conns s) !! k = Some conn' /\ bound conn' = bound conn0 /\ closed conn' = closed conn0 /\
    seenRequests conn' = seenRequests conn0 /\ forall lid o, owned conn0 !! lid = Some o ->
      owned conn' !! lid = Some o \/ (lid = leaseId l /\ exists o', owned conn' !! lid = Some o' /\ ow_handle o' = h /\ ow_attemptId o' = attemptId (lessee l))).
  { intros k conn0 Hk. destruct (decide (c = k)) as [->|Hne]; [|exists conn0; rewrite lookup_alter_ne by done; split_and!; auto]. exists (f conn0).
    rewrite lookup_alter_eq, Hk. split_and!; try done. intros lid o Ho. cbn. destruct (decide (leaseId l = lid)) as [<-|Hne]; [right|left; by rewrite lookup_insert_ne].
    split; [done|]. eexists. by rewrite lookup_insert_eq. }
  pose proof (i_ids _ _ I) as [_ Hinj]. pose proof (i_broker _ _ I) as Hr. destruct I. constructor; try done; cbn [conns on_conn set_conns broker acquisitions tasks].
  - intros k conn' w Hk Hw. destruct (Hlk k conn' Hk) as (conn0 & Hc0 & E & _). rewrite E in Hw. by apply (i_bound0 k conn0).
  - intros k k' c1 c2 w H1 H2 Hw1 Hw2. destruct (Hlk k c1 H1) as (d1 & Hd1 & E1 & _), (Hlk k' c2 H2) as (d2 & Hd2 & E2 & _). rewrite E1 in Hw1. rewrite E2 in Hw2. by apply (i_unique0 k k' d1 d2 w).
  - intros p Hp. destruct (i_queue0 p Hp) as (k & i & a & conn0 & Ha & Hpr & Hc0 & Hb & Hat). destruct (Hkl k conn0 Hc0) as (conn' & Hc' & E & _). exists k, i, a, conn'. by rewrite E.
  - intros k i a conn' p Hp Ha Hpr Hk. destruct (Hlk k conn' Hk) as (conn0 & Hc0 & -> & _). by apply (i_waiting0 k i a conn0 p).
  - intros k i a conn' addr Ha Hans Hk. destruct (Hlk k conn' Hk) as (conn0 & Hc0 & -> & _). by apply (i_granted0 k i a conn0 addr).
  - intros lid addr l0 Hl0 Hh0. destruct (i_leases0 lid addr l0 Hl0 Hh0) as [(k & conn0 & o & Hc0 & Hop & Hb & Ho & Hho & Hat)|(k & i & a & conn0 & Ha & Hans & Hc0 & Hb & Hat)];
      destruct (Hkl k conn0 Hc0) as (conn' & Hc' & E & Ecl & _ & Hown).
    + left. destruct (Hown lid o Ho) as [Ho'|(Elid & o' & Ho' & Eh & Ea)]; [exists k, conn', o; by rewrite E, Ecl|].
      exists k, conn', o'. rewrite E, Ecl. destruct (live_record _ lid addr Hr Hl0) as (l1 & Hl1 & Hid1). assert (addr = h) as -> by (apply (Hinj addr h l1 l Hl1 Hl); congruence).
      rewrite Hl in Hh0. injection Hh0 as <-. done.
    + right. exists k, i, a, conn'. by rewrite E.
  - intros k conn' lid o Hk Ho. destruct (Hlk k conn' Hk) as (conn0 & Hc0 & -> & Hown). destruct (Hown lid o Ho) as [Ho0|(-> & -> & -> & ->)]; [by apply (i_owned0 k conn0)|].
    rewrite Hc in Hc0. injection Hc0 as <-. by exists l.
  - intros k i a Ha. destruct (i_seen0 k i a Ha) as (conn0 & Hc0 & Hin). destruct (Hkl k conn0 Hc0) as (conn' & Hc' & _ & _ & E & _). exists conn'. by rewrite E.
Qed.

(** The request of a settled promise is done with. *)
Lemma inv_delivered c rid a r s :
  sound s -> acquisitions s !! (c, rid) = Some a -> answer (broker s) (aq_promise a) = Some r ->
  (forall h lid l, r = Granted h -> leases (broker s) !! lid = Some h -> heap_of (broker s) !! h = Some l -> in_books nobody s lid h (lessee l)) ->
  sound (set_acquisitions (delete (c, rid) (acquisitions s)) s).
Proof.
  intros I Ha Hans Hbooks. pose proof (reached_core _ (i_broker _ _ I)) as H. destruct I. constructor; try done; cbn [conns broker acquisitions set_acquisitions].
  - intros p Hp. destruct (i_queue0 p Hp) as (k & i & a0 & conn & Ha0 & Hpr & H0). exists k, i, a0, conn. split; [|done]. rewrite lookup_delete_ne; [done|].
    intros [= -> ->]. rewrite Ha in Ha0. injection Ha0 as <-. rewrite Hpr in Hans. cbn in Hans. by rewrite (queue_open uuid p _ H Hp) in Hans.
  - intros k i a0 conn p Hp [_ Ha0]%lookup_delete_Some. by apply (i_waiting0 k i a0 conn p).
  - intros k i a0 conn addr [_ Ha0]%lookup_delete_Some. by apply (i_granted0 k i a0 conn addr).
  - intros key a0 n [_ Ha0]%lookup_delete_Some. by apply (i_number0 key a0 n).
  - intros lid addr l Hl Hh. destruct (i_leases0 lid addr l Hl Hh) as [|(k & i & a0 & conn & Ha0 & Hans0 & H0)]; [by left|].
    destruct (decide ((c, rid) = (k, i))) as [[= -> ->]|Hne].
    + rewrite Ha in Ha0. injection Ha0 as <-. left. apply (Hbooks addr); [congruence|done..].
    + right. exists k, i, a0, conn. cbn. by rewrite lookup_delete_ne.
  - intros k i a0 [_ Ha0]%lookup_delete_Some. by apply (i_seen0 k i a0).
Qed.

Lemma acquired_keeps c rid a r s :
  sound s -> acquisitions s !! (c, rid) = Some a -> answer (broker s) (aq_promise a) = Some r -> sound (onAcquired clock uuid stringify options c rid a r s).2.
Proof.
  intros I Ha Hans. unfold onAcquired. unfold mbind at 1, method_bind at 1, get at 1. destruct (conns s !! c) as [conn|] eqn:Hc; [|done].
  do 2 (unfold mbind at 1, method_bind at 1, modify at 1). set (f := fun conn : ServerConnection => set_pending _ _).
  assert (I1 : sound (on_conn c f s)) by by apply inv_on_conn.
  assert (Hdone : (forall h, r <> Granted h) -> sound (on_conn c f (set_acquisitions (delete (c, rid) (acquisitions s)) s))).
  { intros Hno. apply (inv_delivered c rid a r (on_conn c f s)); [done..|]. intros h lid l ->. by destruct (Hno h). }
  destruct r as [h|e].
  - destruct (i_granted _ _ I c rid a conn h Ha Hans Hc) as (l & Hl & Hw & Hat). destruct (_ || _) eqn:Egone.
    + unfold release_unheard. cbn [broker on_conn set_conns set_acquisitions]. destruct (release clock uuid h (broker s)) as [r b] eqn:E. apply inv_lose.
      destruct (inv_release nobody (on_conn c f s) h r b I1 E) as (I2 & A & Hgone).
      apply (inv_delivered c rid a (Granted h) (set_broker b (on_conn c f s))); [done|done|by eapply answer_informs|].
      intros h' lid l' [= <-] Hlive. by apply Hgone in Hlive.
    + apply orb_false_iff in Egone as [Ecl _]. rewrite Hl. apply (preserves_after sound); [|intros _; apply keeps_writeFrame].
      assert (Hc1 : conns (on_conn c f s) !! c = Some (f conn)) by (cbn; by rewrite lookup_alter_eq, Hc).
      pose proof (inv_booked c (f conn) rid h l (on_conn c f s) I1 Hc1 Hw Hl) as I2. rewrite Hat.
      apply (inv_delivered c rid a (Granted h) _ I2); [done|done|]. intros h' lid l' [= <-] Hlive Hl'.
      change (leases (broker s) !! lid = Some h) in Hlive. change (heap_of (broker s) !! h = Some l') in Hl'. rewrite Hl in Hl'. injection Hl' as <-.
      destruct (live_record _ lid h (i_broker _ _ I) Hlive) as (l1 & Hl1 & Hid). rewrite Hl in Hl1. injection Hl1 as <-.
      eexists c, _, _. cbn. rewrite lookup_alter_eq, lookup_alter_eq, Hc. split; [reflexivity|]. cbn. rewrite Hid, lookup_insert_eq. by split_and!; auto.
  - destruct (closed conn); [by apply Hdone|]. by apply keeps_writeFrame, Hdone.
Qed.

(** A connection is new: nothing is known of it. *)
Lemma inv_joined c conn s : sound s -> conns s !! c = None -> bound conn = None -> owned conn = ∅ -> sound (set_conns (<[c := conn]> (conns s)) s).
Proof.
  intros I Hnew Hb Ho. assert (Hne : forall k conn0, conns s !! k = Some conn0 -> c <> k) by congruence.
  destruct I. constructor; try done; cbn [conns broker acquisitions set_conns].
  - intros k conn' w [[<- <-]|[_ Hk]]%lookup_insert_Some Hw; [congruence|by apply (i_bound0 k conn')].
  - intros k k' c1 c2 w [[<- <-]|[_ H1]]%lookup_insert_Some [[<- <-]|[_ H2]]%lookup_insert_Some Hw1 Hw2; [congruence..|]. by apply (i_unique0 k k' c1 c2 w).
  - intros p Hp. destruct (i_queue0 p Hp) as (k & i & a & conn0 & Ha & Hpr & Hk & H). exists k, i, a, conn0. rewrite lookup_insert_ne by eauto. done.
  - intros k i a conn' p Hp Ha Hpr [[<- <-]|[_ Hk]]%lookup_insert_Some; [|by apply (i_waiting0 k i a conn' p)]. destruct (i_seen0 c i a Ha) as (? & ? & _). congruence.
  - intros k i a conn' addr Ha Hans [[<- <-]|[_ Hk]]%lookup_insert_Some; [|by apply (i_granted0 k i a conn' addr)]. destruct (i_seen0 c i a Ha) as (? & ? & _). congruence.
  - intros lid addr l Hl Hh. destruct (i_leases0 lid addr l Hl Hh) as [(k & conn0 & o & Hk & H)|(k & i & a & conn0 & Ha & Hans & Hk & H)].
    + left. exists k, conn0, o. cbn. rewrite lookup_insert_ne by eauto. done.
    + right. exists k, i, a, conn0. cbn. rewrite lookup_insert_ne by eauto. done.
  - intros k conn' lid o [[<- <-]|[_ Hk]]%lookup_insert_Some Hown; [by rewrite Ho, lookup_empty in Hown|by apply (i_owned0 k conn')].
  - intros k i a Ha. destruct (i_seen0 k i a Ha) as (conn0 & Hk & Hin). exists conn0. rewrite lookup_insert_ne by eauto. done.
Qed.

Lemma inv_step s e : sound s -> sound (server_step clock uuid json_parse sha256 stringify options s e).
Proof.
  intros I. assert (Hcb : forall m s, sound (m s).2 -> sound (callback m s)).
  { intros m s0 H0. unfold callback. destruct (m s0) as [r s1]. destruct (is_ok r); [done|by apply (inv_same nobody s1)]. }
  destruct e as [c|c chunk|c|c|c rid| |n|]; cbn [server_step].
  - case_bool_decide as Hnew; [|done]. unfold onConnection. destruct (_ || _); [by apply (inv_same nobody s)|]. by apply (inv_same nobody (set_conns (<[c := mkConnection sock_open [] (new_decoder options) ∅ [] ∅ ∅ None true false]> (conns s)) s)), inv_joined.
  - destruct (conns s !! c) as [conn|]; [|done]. case_decide; [done|]. by apply Hcb, keeps_data.
  - destruct (conns s !! c) as [conn|]; [|done]. by apply Hcb, keeps_gone.
  - destruct (conns s !! c) as [conn|]; [|done]. destruct (handshakeTimer conn); [|done]. by apply Hcb, keeps_handshake.
  - destruct (acquisitions s !! (c, rid)) as [a|] eqn:Ha; [|done]. destruct (answer _ _) as [r|] eqn:Hans; [|done]. by apply Hcb, acquired_keeps.
  - destruct (tasks s) as [|t rest] eqn:Et; [done|]. apply Hcb, task_keeps.
    + eapply inv_framed; [exact I|]. apply framed_same; try done. cbn. rewrite Et. intros t' Ht'. left. by right.
    + apply (i_tasks _ _ I). rewrite Et. by left.
  - destruct (List.find _ _) as [p|] eqn:Hf; [|done]. apply find_queue in Hf as [Hp _]. apply Hcb. run_goal. destruct (onTimer clock uuid p (broker s)) as [r b] eqn:E.
    apply inv_informs; [done|eapply reached_next; [apply I|by eapply step_timer]|]. eapply (timer_informs clock uuid unique); [by eapply inv_wf|exact Hp|exact E].
  - by apply Hcb, keeps_shutdown.
Qed.

(** Every server begins and stays sound. *)
Lemma inv_new b : initial b -> so_runId options = brokerRun (config b) -> sound (newServer b).
Proof.
  intros Hi Hrun. pose proof (reachable_init initial (step clock uuid) b Hi) as Hr. destruct Hi as (run & given & limit & Hb). unfold construct in Hb.
  apply bind_Ok in Hb as (caps & _ & Hb). apply bind_Ok in Hb as (most & _ & [= <-]). constructor; cbn; try done; by intros ? ?%elem_of_nil.
Qed.

Lemma inv_serve b es : initial b -> so_runId options = brokerRun (config b) -> sound (serve clock uuid json_parse sha256 stringify options b es).
Proof.
  intros Hi Hrun. unfold serve. pose proof (inv_new b Hi Hrun) as I. revert I. generalize (newServer b). induction es as [|e es IH]; intros s I; [done|]. by apply IH, inv_step.
Qed.

(** ** Who is nobody yet moves nothing *)

Lemma abort_idle x c i s :
  inv x s -> (forall conn, conns s !! c = Some conn -> bound conn = None) -> broker (abort_acquire clock uuid c i s).2 = broker s.
Proof.
  intros I Hb. unfold abort_acquire. destruct (acquisitions s !! (c, i)) as [a|] eqn:Ha; [|done]. destruct (aq_promise a) as [|n] eqn:Hpr; [done|].
  destruct (List.find _ _) as [p|] eqn:Hf; [|done]. apply find_queue in Hf as [Hp <-]. cbn [broker set_acquisitions] in Hp.
  destruct (i_seen _ _ I c i a Ha) as (conn & Hc & _). destruct (i_waiting _ _ I c i a conn p Hp Ha Hpr Hc) as [Hw _]. by rewrite (Hb conn Hc) in Hw.
Qed.

Lemma aborts_idle x c names s :
  inv x s -> (forall conn, conns s !! c = Some conn -> bound conn = None) -> broker (each (abort_acquire clock uuid c) names s).2 = broker s.
Proof.
  revert s. induction names as [|i names IH]; intros s I Hb; [done|]. cbn [each]. unfold mbind, method_bind. destruct (abort_quiet c i s) as [E1 E2].
  pose proof (abort_idle x c i s I Hb) as E3. pose proof (keeps_abort x c i s I) as I1.
  destruct (abort_acquire clock uuid c i s) as [r s1]. cbn in E1, E2, E3, I1. subst r. rewrite IH; [done|done|]. by rewrite E2.
Qed.

Lemma close_idle c conn s : sound s -> conns s !! c = Some conn -> bound conn = None -> broker (closeConnection clock uuid c s).2 = broker s.
Proof.
  intros I Hc Hb. unfold closeConnection. unfold mbind, method_bind, get at 1. rewrite Hc. destruct (closed conn); [done|]. unfold modify at 1.
  set (s1 := set_sockets _ _). assert (I1 : inv (eq c) s1) by by apply (inv_closing c s).
  assert (Hb1 : forall conn', conns s1 !! c = Some conn' -> bound conn' = None) by (cbn; rewrite lookup_alter_eq, Hc; by intros ? [= <-]).
  pose proof (aborts_idle (eq c) c (pendingAcquires conn) s1 I1 Hb1) as E3. destruct (aborts_quiet c (pendingAcquires conn) s1) as [E1 _].
  destruct (each _ _ s1) as [r s2]. cbn in E1, E3. subst r. rewrite Hb. exact E3.
Qed.
End Server.
