(* ===== verification/ServerTheorems.v ===== *)
(** * What the broker's server promises

    The composition of connections with the resource broker: the server only ever calls
    the broker as its clients may, a lease lives as long as the connection it was granted
    to, and who has not shown the token moves nothing. *)

From S2P Require Import Prelude JsText Dto Framing JsObject ResourceBroker BrokerAccounting BrokerScheduling BrokerTheorems BrokerLeases LocalTransport BrokerServer ServerInvariant.

Local Open Scope Z_scope.

Section Server.
Context (clock : nat -> number) (uuid : nat -> jstring) (json_parse : jstring -> option (Dto.heap * value)) (sha256 : bytes -> bytes).
Context (stringify : Reply -> jstring) (options : ServerOptions).

(** ** The server is a client of the broker *)

(** The broker went from [b] to where it is by its own operations. *)
Definition driven (b : Broker) (s : Server) : Prop := rtc (step clock uuid) b (broker s).
Abbreviation drives m := (forall b, preserves (driven b) m).

Lemma driven_step b s b' : driven b s -> step clock uuid (broker s) b' -> driven b (set_broker b' s).
Proof. intros H Hs. by eapply rtc_r. Qed.

Lemma drives_modify f : (forall s, broker (f s) = broker s) -> drives (modify f : method Server ServerError unit).
Proof. intros Hf b s H. unfold driven. cbn. by rewrite Hf. Qed.

Lemma drives_op {A} (m : op A) : (forall s r s', m s = (r, s') -> step clock uuid s s') -> drives (on_broker_op m).
Proof. intros Hm b s H. unfold on_broker_op. destruct (m (broker s)) as [r b'] eqn:E. eapply driven_step; [done|by eapply Hm]. Qed.

Lemma drives_outcome {A} (m : op A) : (forall s r s', m s = (r, s') -> step clock uuid s s') -> drives (outcome_of m).
Proof. intros Hm b s H. unfold outcome_of. destruct (m (broker s)) as [r b'] eqn:E. eapply driven_step; [done|by eapply Hm]. Qed.

Lemma driven_lose b (u : bool) s : driven b s -> driven b ((if u then Datatypes.id else lose) s).
Proof. by destruct u. Qed.

Lemma drives_abort c i : drives (abort_acquire clock uuid c i).
Proof.
  intros b s H. unfold abort_acquire. destruct (acquisitions s !! (c, i)) as [a|]; [|done]. destruct (aq_promise a); [done|].
  destruct (List.find _ _) as [p|] eqn:Hf; [|done]. apply find_queue in Hf as [Hp _]. cbn [broker set_acquisitions] in Hp.
  destruct (onAbort _ _ _ _) as [r b'] eqn:E. apply driven_lose. eapply driven_step; [done|by eapply step_abort].
Qed.

Lemma drives_release h : drives (release_unheard clock uuid h).
Proof.
  intros b s H. unfold release_unheard. destruct (release _ _ _ _) as [r b'] eqn:E. apply driven_lose. eapply driven_step; [done|by eapply step_release].
Qed.

Lemma drives_write c r : drives (writeFrame stringify options c r).
Proof. intros b. unfold writeFrame. destruct (reply_frame _ _ r); [by apply drives_modify|by intros s]. Qed.

Lemma drives_send c r : drives (sendAndEnd stringify options c r).
Proof. intros b. by apply drives_modify. Qed.

Lemma drives_catch {A} (m : method Server ServerError A) f : drives m -> (forall e, drives (f e)) -> drives (catch m f).
Proof. intros Hm Hf b. apply preserves_catch; [apply Hm|]. intros e. apply Hf. Qed.

Lemma drives_each {A} (f : A -> method Server ServerError unit) l : (forall a, drives (f a)) -> drives (each f l).
Proof. intros Hf b. apply keeps_each. intros a. apply Hf. Qed.

(** Goes through a handler: every call in it drives the broker or leaves it alone. *)
Ltac drive :=
  repeat match goal with
    | |- preserves _ (_ ≫= _) => apply preserves_bind; [|intros ?]
    | |- preserves _ (mret _) => apply preserves_ret
    | |- preserves _ get => apply preserves_get
    | |- preserves _ (lift _) => apply preserves_lift
    | |- preserves _ (throw _) => apply preserves_throw
    | |- preserves _ (writeFrame _ _ _ _) => apply drives_write
    | |- preserves _ (sendAndEnd _ _ _ _) => apply drives_send
    | |- preserves _ (release_unheard _ _ _) => apply drives_release
    | |- preserves _ (abort_acquire _ _ _ _) => apply drives_abort
    | |- preserves _ (modify _) => apply drives_modify; intros ?; solve [repeat case_match; reflexivity]
    | |- preserves _ (each _ _) => apply drives_each; intros ? ?
    | |- preserves _ (match ?x with _ => _ end) => destruct x
    | |- preserves _ (let _ := _ in _) => cbv zeta
    end.

Lemma drives_close c : drives (closeConnection clock uuid c).
Proof.
  intros b. unfold closeConnection. drive. apply drives_op. intros; by eapply step_disconnect.
Qed.

Lemma drives_fail c e : drives (fail_connection clock uuid stringify options c e).
Proof. intros b. apply preserves_bind; [apply drives_close|]. intros _. apply drives_send. Qed.

Lemma drives_hello c i m : drives (handleHello clock uuid sha256 stringify options c i m).
Proof.
  intros b. unfold handleHello. drive. apply drives_catch; intros; drive. apply drives_op. intros; by eapply step_register.
Qed.

Lemma drives_acquire c i m w : drives (handleAcquire clock uuid c i m w).
Proof. intros b. unfold handleAcquire. drive. apply drives_op. intros; by eapply step_acquire. Qed.

Lemma drives_cancel c i m conn : drives (handleCancel clock uuid stringify options c i m conn).
Proof. intros b. unfold handleCancel. drive. Qed.

Lemma drives_lease c i attaching m conn : drives (handleLease clock uuid c i attaching m conn).
Proof.
  intros b. unfold handleLease. drive; apply drives_outcome; intros; [by eapply step_attach|by eapply step_release].
Qed.

Lemma drives_message c v : drives (handleMessage clock uuid sha256 stringify options c v).
Proof.
  intros b. unfold handleMessage, handleAuthenticated. drive; first [apply drives_hello|apply drives_acquire|apply drives_cancel|apply drives_lease].
Qed.

Lemma drives_dispatch c v : drives (dispatch clock uuid sha256 stringify options c v).
Proof. apply drives_catch; [apply drives_message|]. intros e. apply drives_fail. Qed.

Lemma drives_data c chunk : drives (onData clock uuid json_parse sha256 stringify options c chunk).
Proof.
  apply drives_catch; [|intros e; apply drives_fail]. intros b. unfold local_push. generalize (Datatypes.S (length chunk)). intros fuel. revert chunk.
  induction fuel as [|fuel IH]; intros chunk s H; [done|]. cbn [push_slices]. unfold mbind at 1, method_bind at 1, get at 1. cbv zeta. destruct (push json_parse _ _) as [r d].
  apply (preserves_after (driven b)); [done|]. intros _. destruct r as [ms|e]; [|by intros ? ?]. apply preserves_bind.
  - clear. induction ms as [|m ms IH]; [by intros ? ?|]. apply preserves_bind; [apply drives_dispatch|done].
  - intros _. destruct (_ <=? _)%nat; [by intros ? ?|apply IH].
Qed.

(** The server is nothing but a client of the broker: whatever a callback does to the
    broker, from any state and for any event, is a sequence of the operations the broker
    offers.  What is proved of every reachable broker (its accounts, first come first
    served, one answer per request) so holds of the broker of every server. *)
Theorem server_drives_broker s e : rtc (step clock uuid) (broker s) (broker (server_step clock uuid json_parse sha256 stringify options s e)).
Proof.
  change (driven (broker s) (server_step clock uuid json_parse sha256 stringify options s e)).
  assert (Hcb : forall m s0, drives m -> broker s0 = broker s -> driven (broker s) (callback m s0)).
  { intros m s0 Hm E. unfold callback. assert (H : driven (broker s) s0) by (unfold driven; rewrite E; constructor). specialize (Hm _ s0 H). destruct (m s0) as [r s1]. by destruct (is_ok r). }
  assert (H0 : driven (broker s) s) by constructor. destruct e as [c|c chunk|c|c|c rid| |n|]; cbn [server_step].
  - destruct (bool_decide _); [|done]. unfold onConnection. by destruct (_ || _).
  - destruct (conns s !! c) as [conn|]; [|done]. destruct (decide _); [done|]. apply Hcb; [apply drives_data|done].
  - destruct (conns s !! c) as [conn|]; [|done]. apply Hcb; [|done]. intros b. unfold onGone. drive. apply drives_close.
  - destruct (conns s !! c) as [conn|]; [|done]. destruct (handshakeTimer conn); [|done]. apply Hcb; [|done]. intros b. unfold onHandshakeTimeout. drive.
  - destruct (acquisitions s !! _) as [a|]; [|done]. destruct (answer _ _) as [r|]; [|done]. apply Hcb; [|done]. intros b. unfold onAcquired. drive.
  - destruct (tasks s) as [|t rest]; [done|]. apply Hcb; [|done]. intros b. unfold onTask. drive.
  - destruct (List.find _ _) as [p|] eqn:Hf; [|done]. apply find_queue in Hf as [Hp _]. unfold callback, on_broker_op. destruct (onTimer _ _ _ _) as [r b'] eqn:E.
    assert (driven (broker s) (set_broker b' s)) by (eapply driven_step; [done|by eapply step_timer]). by destruct r.
  - apply Hcb; [|done]. intros b s0 H. unfold onClose. destruct (closing s0); [done|]. apply keeps_each; [|done]. intros c. drive. apply drives_close.
Qed.

(** ** Strangers *)

Section Strangers.
Context (unique : forall i j, uuid i = uuid j -> i = j).
Abbreviation sound := (inv clock uuid options nobody).

(** A message that lets its connection in. *)
Definition let_in_by (v : json) : Prop :=
  exists message token, parseRequestEnvelope v PROTOCOL_VERSION = Ok message /\ rq_type message = js "hello" /\
    field_of (rq_fields message) "token" = Some (JStr token) /\ sameLocalSecret sha256 (so_token options) token = true /\
    field_of (rq_fields message) "runId" = Some (JStr (so_runId options)).

Lemma string_field v most t : string_ v most = Ok t -> v = Some (JStr t).
Proof. unfold string_. destruct v as [[]|]; try done. destruct (_ || _); [done|]. congruence. Qed.

Lemma wireId_field v kind t : wireId v kind = Ok t -> v = Some (JStr t).
Proof. unfold wireId. intros H. apply bind_Ok in H as (u & Hu & H). destruct (_ && _); [|done]. injection H as ->. by eapply string_field. Qed.

(** Where a message leaves a connection without a worker. *)
Definition untouched (c : nat) (s s' : Server) : Prop := broker s' = broker s /\ exists conn, conns s' !! c = Some conn /\ bound conn = None.

Lemma untouched_conn c f s conn : conns s !! c = Some conn -> bound (f conn) = None -> untouched c s (on_conn c f s).
Proof. intros Hc Hb. split; [done|]. exists (f conn). cbn. by rewrite lookup_alter_eq, Hc. Qed.

Lemma untouched_trans c s s1 s2 : untouched c s s1 -> untouched c s1 s2 -> untouched c s s2.
Proof. intros [E _] [E' H]. split; [congruence|done]. Qed.

Lemma untouched_send c r s conn : conns s !! c = Some conn -> bound conn = None -> untouched c s (sendAndEnd stringify options c r s).2.
Proof. intros Hc Hb. eapply untouched_conn; [done|]. unfold end_with. destruct (reply_frame _ _ r); [|done]. by case_decide. Qed.

Lemma hello_stranger c v message s conn :
  parseRequestEnvelope v PROTOCOL_VERSION = Ok message -> rq_type message = js "hello" -> conns s !! c = Some conn -> bound conn = None ->
  untouched c s (handleHello clock uuid sha256 stringify options c (rq_requestId message) (rq_fields message) s).2 \/ let_in_by v.
Proof.
  intros Hv Ht Hc Hb. assert (H0 : untouched c s s) by (split; [done|by exists conn]). unfold handleHello. unfold mbind at 1, method_bind at 1, lift at 1.
  destruct (string_ _ _) as [token|e] eqn:Etok; [|by left]. destruct (sameLocalSecret _ _ token) eqn:Esame; cbn [negb]; [|left; by eapply untouched_send].
  unfold mbind at 1, method_bind at 1, lift at 1. destruct (wireId _ _) as [run|e] eqn:Erun; [|by left].
  case_bool_decide as Hrun; [|left; by eapply untouched_send]. right. exists message, token. subst run. apply string_field in Etok. apply wireId_field in Erun. done.
Qed.

Lemma message_stranger c v s conn :
  conns s !! c = Some conn -> bound conn = None -> untouched c s (handleMessage clock uuid sha256 stringify options c v s).2 \/ let_in_by v.
Proof.
  intros Hc Hb. assert (H0 : untouched c s s) by (split; [done|by exists conn]). unfold handleMessage. unfold mbind at 1, method_bind at 1, lift at 1.
  destruct (parseRequestEnvelope v PROTOCOL_VERSION) as [message|e] eqn:Hv; [|by left]. unfold as_server at 1. unfold mbind at 1, method_bind at 1, get at 1. rewrite Hc.
  case_bool_decide; [by left|]. destruct (_ <=? _); [by left|]. unfold mbind at 1, method_bind at 1, modify at 1. rewrite Hb. set (f := set_seen _).
  assert (H1 : untouched c s (on_conn c f s)) by by eapply untouched_conn. case_bool_decide as Ht; [|by left].
  destruct (hello_stranger c v message (on_conn c f s) (f conn) Hv Ht) as [H2|H2]; [cbn; by rewrite lookup_alter_eq, Hc|done| |by right]. left. eapply untouched_trans; [exact H1|exact H2].
Qed.

(** C8 Nobody gets at the resources without the secret.  A message on a connection that
    has no worker yet leaves the broker exactly as it was, whatever it says and however it
    fails, unless it is a hello that shows the token of this server and names its run. *)
Theorem strangers_change_nothing c v s conn :
  sound s -> conns s !! c = Some conn -> bound conn = None ->
  broker (dispatch clock uuid sha256 stringify options c v s).2 = broker s \/ let_in_by v.
Proof.
  intros I Hc Hb. destruct (message_stranger c v s conn Hc Hb) as [[E (conn' & Hc' & Hb')]|H]; [left|by right].
  pose proof (message_keeps clock uuid json_parse sha256 stringify options unique c v s I) as I'. unfold dispatch, catch.
  destruct (handleMessage _ _ _ _ _ c v s) as [[u|e] s1]; [done|]. cbn [snd] in *.
  pose proof (close_idle clock uuid json_parse sha256 options unique c conn' s1 I' Hc' Hb') as E2. unfold fail_connection, mbind, method_bind.
  destruct (closeConnection clock uuid c s1) as [[[]|] s2]; cbn in *; congruence.
Qed.

(** ** Workers *)

(** A request of the worker leaves the queue. *)
Definition withdraws (w : WorkerIdentity) (b b' : Broker) : Prop :=
  exists p r, p ∈ queue b /\ worker (claimant p) = w /\ onAbort clock uuid p b = (r, b').

(** The message names the lease, shows its token and names the attempt it was granted to. *)
Definition names (m : RequestEnvelope) (l : LeaseRecord) : Prop :=
  field_of (rq_fields m) "leaseId" = Some (JStr (leaseId l)) /\ field_of (rq_fields m) "leaseToken" = Some (JStr (token l)) /\
  field_of (rq_fields m) "attemptId" = Some (JStr (attemptId (lessee l))).

(** What a message may have the broker do for the worker. *)
Inductive on_behalf (w : WorkerIdentity) (m : RequestEnvelope) (b b' : Broker) : Prop :=
| asks attempt wanted deadline r :
    rq_type m = js "acquire" -> field_of (rq_fields m) "attemptId" = Some (JStr attempt) ->
    resourceVector (field_of (rq_fields m) "resources") = Ok wanted -> finiteNumber (field_of (rq_fields m) "deadline") = Ok deadline ->
    acquire clock uuid {| owner := {| worker := w; attemptId := attempt |}; requested := wanted; until := deadline; signal := Some false |} b = (r, b') ->
    on_behalf w m b b'
| takes_back : rq_type m = js "cancel" -> withdraws w b b' -> on_behalf w m b b'
| gives_back h l r :
    rq_type m = js "cancel" -> ResourceBroker.heap b !! h = Some l -> worker (lessee l) = w -> release clock uuid h b = (r, b') -> on_behalf w m b b'
| attaches h l given r :
    rq_type m = js "attach" -> ResourceBroker.heap b !! h = Some l -> worker (lessee l) = w -> names m l -> attach h given b = (r, b') -> on_behalf w m b b'
| releases h l r :
    rq_type m = js "release" -> ResourceBroker.heap b !! h = Some l -> worker (lessee l) = w -> names m l -> release clock uuid h b = (r, b') -> on_behalf w m b b'.

(** Nothing, or one such step. *)
Definition perhaps (R : Broker -> Broker -> Prop) (b b' : Broker) : Prop := b' = b \/ R b b'.

(** The connection is bound to the worker. *)
Definition bound_to (c : nat) (w : WorkerIdentity) (s : Server) : Prop := exists conn, conns s !! c = Some conn /\ bound conn = Some w.

Lemma bound_on_conn c w k f : (forall conn, bound (f conn) = bound conn) -> preserves (bound_to c w) (modify (on_conn k f) : method Server ServerError unit).
Proof.
  intros Hf s (conn & Hc & Hb). unfold bound_to. cbn. destruct (decide (k = c)) as [->|Hne].
  - rewrite lookup_alter_eq, Hc. exists (f conn). by rewrite Hf.
  - rewrite lookup_alter_ne by done. by exists conn.
Qed.

Lemma bound_same c w f : (forall s, conns (f s) = conns s) -> preserves (bound_to c w) (modify f : method Server ServerError unit).
Proof. intros Hf s (conn & H). exists conn. cbn. by rewrite Hf. Qed.

Lemma bound_op {A} c w (m : op A) : preserves (bound_to c w) (on_broker_op m).
Proof. intros s H. unfold on_broker_op. by destruct (m (broker s)). Qed.

Lemma bound_outcome {A} c w (m : op A) : preserves (bound_to c w) (outcome_of m).
Proof. intros s H. unfold outcome_of. by destruct (m (broker s)). Qed.

Lemma bound_abort c w k i : preserves (bound_to c w) (abort_acquire clock uuid k i).
Proof. intros s H. destruct (abort_quiet clock uuid k i s) as [_ E]. unfold bound_to. by rewrite E. Qed.

Lemma bound_release c w h : preserves (bound_to c w) (release_unheard clock uuid h).
Proof. intros s H. unfold release_unheard. destruct (release _ _ _ _) as [r b]. by destruct (_ || _). Qed.

Lemma bound_write c w k r : preserves (bound_to c w) (writeFrame stringify options k r).
Proof. unfold writeFrame. destruct (reply_frame _ _ r); [|by intros s]. apply bound_on_conn. intros conn. by case_decide. Qed.

(** Goes through a handler that binds nobody. *)
Ltac stay :=
  repeat match goal with
    | |- preserves _ (_ ≫= _) => apply preserves_bind; [|intros ?]
    | |- preserves _ (mret _) => apply preserves_ret
    | |- preserves _ get => apply preserves_get
    | |- preserves _ (lift _) => apply preserves_lift
    | |- preserves _ (throw _) => apply preserves_throw
    | |- preserves _ (writeFrame _ _ _ _) => apply bound_write
    | |- preserves _ (release_unheard _ _ _) => apply bound_release
    | |- preserves _ (abort_acquire _ _ _ _) => apply bound_abort
    | |- preserves _ (on_broker_op _) => apply bound_op
    | |- preserves _ (outcome_of _) => apply bound_outcome
    | |- preserves _ (modify (on_conn _ _)) => apply bound_on_conn; intros ?; reflexivity
    | |- preserves _ (modify _) => apply bound_same; intros ?; reflexivity
    | |- preserves _ (match ?x with _ => _ end) => destruct x
    | |- preserves _ (let _ := _ in _) => cbv zeta
    end.

Lemma bound_authenticated c w k i type m w' conn : preserves (bound_to c w) (handleAuthenticated clock uuid stringify options k i type m w' conn).
Proof. unfold handleAuthenticated, handleAcquire, handleCancel, handleLease. stay. Qed.

(** *** Messages *)

Lemma abort_withdraws x c i s w :
  inv clock uuid options x s -> bound_to c w s -> perhaps (withdraws w) (broker s) (broker (abort_acquire clock uuid c i s).2).
Proof.
  intros I (conn & Hc & Hb). unfold abort_acquire. destruct (acquisitions s !! (c, i)) as [a|] eqn:Ha; [|by left]. destruct (aq_promise a) as [|n] eqn:Hpr; [by left|].
  destruct (List.find _ _) as [p|] eqn:Hf; [|by left]. apply find_queue in Hf as [Hp <-]. cbn [broker set_acquisitions] in Hp.
  destruct (i_waiting _ _ _ _ _ I c i a conn p Hp Ha Hpr Hc) as [Hw _]. destruct (onAbort _ _ _ _) as [r b] eqn:E. right. exists p, r. split; [done|]. split; [congruence|].
  cbn [broker set_acquisitions] in E. rewrite E. by destruct (is_ok r).
Qed.

Lemma release_broker h s : exists r, release clock uuid h (broker s) = (r, broker (release_unheard clock uuid h s).2).
Proof. unfold release_unheard. destruct (release clock uuid h (broker s)) as [r b]. exists r. cbn. by destruct (_ || _). Qed.

Lemma write_broker c r s : broker (writeFrame stringify options c r s).2 = broker s.
Proof. unfold writeFrame. by destruct (reply_frame _ _ r). Qed.

Lemma after_write {A} (P : Broker -> Prop) (m : method Server ServerError A) c r s : P (broker (m s).2) -> P (broker ((_ ← m; writeFrame stringify options c r) s).2).
Proof. unfold mbind, method_bind. destruct (m s) as [[a|e] s1]; [|done]. cbn [snd]. by rewrite write_broker. Qed.

Lemma acquire_acts c message w s :
  rq_type message = js "acquire" ->
  perhaps (on_behalf w message) (broker s) (broker (handleAcquire clock uuid c (rq_requestId message) (rq_fields message) w s).2).
Proof.
  intros Ht. unfold handleAcquire. unfold mbind at 1, method_bind at 1, lift at 1. destruct (wireId _ _) as [attempt|e] eqn:Ea; [|by left].
  unfold mbind at 1, method_bind at 1, lift at 1. destruct (resourceVector _) as [wanted|e] eqn:Ew; [|by left].
  unfold mbind at 1, method_bind at 1, lift at 1. destruct (finiteNumber _) as [deadline|e] eqn:Ed; [|by left]. unfold mbind, method_bind, modify, on_broker_op.
  cbn [broker on_conn set_conns]. match goal with |- context [acquire clock uuid ?o _] => destruct (acquire clock uuid o (broker s)) as [r b] eqn:E end.
  apply wireId_field in Ea. right. eapply (asks w message _ _ attempt wanted deadline r); [done..|]. rewrite E. by destruct r.
Qed.

Lemma cancel_acts c message w conn conn' s :
  sound s -> conns s !! c = Some conn' -> bound conn' = Some w -> owned conn' = owned conn -> rq_type message = js "cancel" ->
  perhaps (on_behalf w message) (broker s) (broker (handleCancel clock uuid stringify options c (rq_requestId message) (rq_fields message) conn s).2).
Proof.
  intros I Hc Hb Eo Ht. unfold handleCancel. unfold mbind at 1, method_bind at 1, lift at 1. destruct (string_ _ _) as [target|e]; [|by left].
  apply (after_write (perhaps (on_behalf w message) (broker s))). case_bool_decide.
  - destruct (abort_withdraws nobody c target s w I) as [H0|H0]; [by exists conn'|by left|right]. by apply takes_back.
  - destruct (acquireLeases conn !! target ≫= _) as [o|] eqn:Ho; [|by left]. apply bind_Some in Ho as (lid & _ & Ho). rewrite <- Eo in Ho.
    destruct (i_owned _ _ _ _ _ I c conn' lid o Hc Ho) as (l & Hl & _ & Hw & _). unfold mbind, method_bind, get, modify. rewrite Hl. right.
    destruct (release_broker (ow_handle o) (on_conn c (forget target (leaseId l)) s)) as [r Hr]. eapply (gives_back w message _ _ (ow_handle o) l r); [done|done|congruence|exact Hr].
Qed.

Lemma lease_acts c message (attaching : bool) w conn conn' s :
  sound s -> conns s !! c = Some conn' -> bound conn' = Some w -> owned conn' = owned conn -> rq_type message = js (if attaching then "attach" else "release") ->
  perhaps (on_behalf w message) (broker s) (broker (handleLease clock uuid c (rq_requestId message) attaching (rq_fields message) conn s).2).
Proof.
  intros I Hc Hb Eo Ht. unfold handleLease. unfold mbind at 1, method_bind at 1, lift at 1. destruct (string_ _ _) as [lease|e] eqn:El; [|by left].
  unfold mbind at 1, method_bind at 1, lift at 1. destruct (string_ _ 512) as [t|e] eqn:Et; [|by left]. unfold mbind at 1, method_bind at 1, lift at 1.
  destruct (wireId _ _) as [attempt|e] eqn:Ea; [|by left]. unfold mbind at 1, method_bind at 1, get at 1. rewrite <- Eo.
  destruct (owned conn' !! lease) as [o|] eqn:Ho; [|by left]. destruct (i_owned _ _ _ _ _ I c conn' lease o Hc Ho) as (l & Hl & Hid & Hw & Hat).
  cbn [mbind option_bind]. rewrite Hl. cbn [mbind option_bind]. destruct (_ && _) eqn:Eok; [|by left]. apply andb_true_iff in Eok as [H1 H2]. breflect.
  assert (names message l) as Hn.
  { apply string_field in El, Et. apply wireId_field in Ea. unfold names. rewrite El, Et, Ea. split_and!; congruence. }
  assert (worker (lessee l) = w) as Hwl by congruence. destruct attaching; unfold mbind, method_bind, lift, outcome_of, modify.
  - destruct (attachments_ _) as [given|e]; [|by left]. destruct (attach (ow_handle o) given (broker s)) as [r b] eqn:E. right. by apply (attaches w message _ _ (ow_handle o) l given r).
  - destruct (release clock uuid (ow_handle o) (broker s)) as [r b] eqn:E. right. by apply (releases w message _ _ (ow_handle o) l r).
Qed.

(** A message on the connection of a worker, before its failure is looked at. *)
Definition handled (c : nat) (v : json) (w : WorkerIdentity) (s s1 : Server) : Prop :=
  bound_to c w s1 /\ perhaps (fun b b' => exists m, parseRequestEnvelope v PROTOCOL_VERSION = Ok m /\ on_behalf w m b b') (broker s) (broker s1).

Lemma message_acts c v s w : sound s -> bound_to c w s -> handled c v w s (handleMessage clock uuid sha256 stringify options c v s).2.
Proof.
  intros I H0. assert (forall s', bound_to c w s' -> broker s' = broker s -> handled c v w s s') as Hn by by (intros s' ? ?; split; [|left]).
  pose proof H0 as (conn & Hc & Hb). unfold handleMessage. unfold mbind at 1, method_bind at 1, lift at 1.
  destruct (parseRequestEnvelope v PROTOCOL_VERSION) as [m|e] eqn:Hv; [|by apply Hn]. cbn [as_server]. unfold mbind at 1, method_bind at 1, get at 1. rewrite Hc.
  case_bool_decide; [by apply Hn|]. destruct (_ <=? _); [by apply Hn|]. unfold mbind at 1, method_bind at 1, modify at 1. rewrite Hb. set (f := set_seen _).
  assert (I1 : sound (on_conn c f s)) by by apply (inv_seen clock uuid json_parse sha256 options unique).
  assert (Hq : conns (on_conn c f s) !! c = Some (f conn)) by (cbn; by rewrite lookup_alter_eq, Hc).
  assert (H1 : bound_to c w (on_conn c f s)) by by exists (f conn).
  case_bool_decide; [by apply Hn|]. split; [by apply bound_authenticated|]. change (broker s) with (broker (on_conn c f s)).
  enough (perhaps (on_behalf w m) (broker (on_conn c f s)) (broker (handleAuthenticated clock uuid stringify options c (rq_requestId m) (rq_type m) (rq_fields m) w conn (on_conn c f s)).2))
    as [E|E] by (first [by left|right; by exists m]).
  unfold handleAuthenticated. repeat case_bool_decide.
  - by apply acquire_acts.
  - by apply (cancel_acts c m w conn (f conn)).
  - by apply (lease_acts c m true w conn (f conn)).
  - by apply (lease_acts c m false w conn (f conn)).
  - left. unfold mbind, method_bind, get. apply write_broker.
  - by left.
Qed.

(** *** Closing *)

Lemma aborts_withdraw x c l s w :
  inv clock uuid options x s -> bound_to c w s -> rtc (withdraws w) (broker s) (broker (each (abort_acquire clock uuid c) l s).2).
Proof.
  revert s. induction l as [|i l IH]; intros s I Hb; [done|]. cbn [each]. unfold mbind, method_bind. destruct (abort_quiet clock uuid c i s) as [E1 _].
  pose proof (abort_withdraws x c i s w I Hb) as Hw. pose proof (keeps_abort clock uuid json_parse sha256 options unique x c i s I) as I1. pose proof (bound_abort c w c i s Hb) as Hb1.
  destruct (abort_acquire clock uuid c i s) as [r s1]. cbn in E1, Hw, I1, Hb1. subst r. specialize (IH s1 I1 Hb1). destruct Hw as [<-|Hw]; [done|by eapply rtc_l].
Qed.

(** The requests of the worker are withdrawn and the worker is disconnected. *)
Definition leaves (w : WorkerIdentity) (b b' : Broker) : Prop := exists b1 r, rtc (withdraws w) b b1 /\ disconnectWorker clock uuid w b1 = (r, b').

Lemma close_leaves c w s : sound s -> bound_to c w s -> perhaps (leaves w) (broker s) (broker (closeConnection clock uuid c s).2).
Proof.
  intros I (conn & Hc & Hb). unfold closeConnection. unfold mbind at 1, method_bind at 1, get at 1. rewrite Hc.
  destruct (closed conn); [by left|]. right. unfold mbind, method_bind, modify at 1. set (s1 := set_sockets _ _). assert (I1 : inv clock uuid options (eq c) s1) by by apply (inv_closing clock uuid options c s).
  assert (Hb1 : bound_to c w s1) by (exists (set_closed conn); cbn; by rewrite lookup_alter_eq, Hc).
  pose proof (aborts_withdraw (eq c) c (pendingAcquires conn) s1 w I1 Hb1) as Hw. destruct (aborts_quiet clock uuid c (pendingAcquires conn) s1) as [E1 _].
  destruct (each (abort_acquire clock uuid c) (pendingAcquires conn) s1) as [r s2]. cbn [fst snd] in *. subst r. unfold modify. rewrite Hb. unfold on_broker_op.
  match goal with |- context [disconnectWorker clock uuid w (broker ?x)] => assert (broker x = broker s2) as -> by by case_decide end.
  destruct (disconnectWorker clock uuid w (broker s2)) as [r b] eqn:E. exists (broker s2), r. split; [done|]. rewrite E. by destruct r.
Qed.


(** ** Leases and connections *)

Context (b : Broker) (es : list ServerEvent) (Hb : initial b) (Hrun : so_runId options = brokerRun (config b)).
Abbreviation served := (serve clock uuid json_parse sha256 stringify options b es).

(** C7 A lease belongs to a connection.  With a UUID source that never repeats, and
    whatever clients send and in whatever order
    sockets, timers and promises are heard, every live lease is either in the books of an
    open connection, the only one of the worker it was granted to, under the attempt it was
    granted for, or its grant is still on the way to the request that asked for it. *)
Theorem leases_follow_connections lid addr l :
  (forall i j, uuid i = uuid j -> i = j) ->
  leases (broker served) !! lid = Some addr -> ResourceBroker.heap (broker served) !! addr = Some l ->
  (exists c conn o, conns served !! c = Some conn /\ closed conn = false /\ bound conn = Some (worker (lessee l)) /\
    owned conn !! lid = Some o /\ ow_handle o = addr /\ ow_attemptId o = attemptId (lessee l) /\
    forall c' conn', conns served !! c' = Some conn' -> bound conn' = bound conn -> c' = c) \/
  on_its_way served addr (lessee l).
Proof.
  intros Hu Hl Hh. pose proof (inv_serve clock uuid json_parse sha256 stringify options Hu b es Hb Hrun) as I.
  destruct (i_leases _ _ _ _ _ I lid addr l Hl Hh) as [(c & conn & o & Hc & [Hop|[]] & Hw & Ho & Hoh & Hat)|]; [left|by right].
  exists c, conn, o. split_and!; try done. intros c' conn' Hc' Hw'. apply (i_unique _ _ _ _ _ I c' c conn' conn (worker (lessee l))); congruence.
Qed.

(** Nothing outlives the connections: when every connection has been closed and the
    promises in flight have been handled, the broker has no lease and no request left. *)
Theorem nothing_outlives_connections :
  (forall c conn, conns served !! c = Some conn -> closed conn = true) -> acquisitions served = ∅ ->
  leases (broker served) = ∅ /\ queue (broker served) = [].
Proof.
  intros Hclosed Hacq. pose proof (inv_serve clock uuid json_parse sha256 stringify options unique b es Hb Hrun) as I. split.
  - apply map_eq. intros lid. rewrite lookup_empty. destruct (leases (broker served) !! lid) as [addr|] eqn:Hl; [|done]. exfalso.
    destruct (live_record clock uuid unique _ lid addr (i_broker _ _ _ _ _ I) Hl) as (l & Hh & _).
    destruct (i_leases _ _ _ _ _ I lid addr l Hl Hh) as [(c & conn & o & Hc & [Hop|[]] & _)|(c & rid & a & conn & Ha & _)].
    + specialize (Hclosed c conn Hc). congruence.
    + rewrite Hacq, lookup_empty in Ha. done.
  - destruct (queue (broker served)) as [|p q] eqn:E; [done|]. destruct (i_queue _ _ _ _ _ I p) as (c & rid & a & conn & Ha & _); [rewrite E; by left|].
    rewrite Hacq, lookup_empty in Ha. done.
Qed.
End Strangers.
End Server.

(** ** A worker comes, asks and goes *)

Module Visit.
Definition uuid4 : string := "00000000-0000-4000-8000-000000000000".
Definition run : jstring := js "run:" ++ js uuid4.
Definition secret : jstring := js "0123456789abcdef0123456789abcdef".
Definition server : ServerOptions :=
  {| so_runId := run; so_token := secret; so_maxFrameBytes := 64; so_handshakeTimeoutMs := 5000; so_maxConnections := 4; so_maxRequestsPerConnection := 9 |}.

Definition plain (props : list (string * value)) : object :=
  {| o_proxy := false; o_symbols := 0; o_prototype := ObjectPrototype; o_contents := ObjectContents ((fun p => (js p.1, DataProperty p.2 true)) <$> props) |}.
Definition request (type id : string) (props : list (string * value)) : object :=
  plain ([("v", VNum (int 1)); ("type", VStr (js type)); ("requestId", VStr (js id))] ++ props).
Definition hello : object := request "hello" "h" [("token", VStr secret); ("runId", VStr run); ("workerId", VStr (js "w")); ("workerEpoch", VNum (int 0))].
Definition ask : object :=
  request "acquire" "a" [("attemptId", VStr (js "attempt:" ++ js uuid4)); ("resources", VRef 2); ("deadline", VNum (int 1000))].

(** The texts of the messages are letters. *)
Definition parse (t : jstring) : option (Dto.heap * value) :=
  match t with
  | [104] => Some ({[1%positive := hello]}, VRef 1)
  | [97] => Some ({[1%positive := ask; 2%positive := plain [("ptySession", VNum (int 1))]]}, VRef 1)
  | [98] => Some ({[1%positive := ask; 2%positive := plain [("ptySession", VNum (int 3))]]}, VRef 1)
  | _ => None
  end.
Definition frame (letter : Z) : bytes := [0; 0; 0; 1; letter].

Definition pool : Broker :=
  match construct run {[class_name ptySession := int 2]} None with Ok s => s | Err _ => mkBroker {| brokerRun := run; capacities := ZERO; maxQueued := 0 |} ∅ ∅ ∅ ∅ ∅ [] ZERO 0 ∅ ∅ 0 0 0 end.
Definition visit : list ServerEvent -> Server := serve ticking counting parse (fun x => x) (fun _ => []) server pool.
Definition arrives : list ServerEvent := [ev_connection 0; ev_data 0 (frame 104 ++ frame 97); ev_acquired 0 (js "a")].
Definition lease : jstring := js "lease:" ++ [0].
Definition kept : option LeaseRecord := ResourceBroker.heap (broker (visit arrives)) !! 0%nat.

Lemma pool_initial : initial pool.
Proof. exists run, {[class_name ptySession := int 2]}, None. vm_compute. reflexivity. Qed.

Lemma pool_run : so_runId server = brokerRun (config pool).
Proof. vm_compute. reflexivity. Qed.

(** A release of the lease, with a token. *)
Definition returns (t : jstring) : json :=
  JObj [(js "v", JNum (int 1)); (js "type", JStr (js "release")); (js "requestId", JStr (js "r")); (js "leaseId", JStr lease); (js "leaseToken", JStr t);
        (js "attemptId", JStr (js "attempt:" ++ js uuid4))].
Definition returned (t : jstring) : Server := (dispatch ticking counting (fun x => x) (fun _ => []) server 0 (returns t) (visit arrives)).2.

(** The right token gives the lease back; another one ends the connection, and the worker with it. *)
Example token_decides :
  (fun t => (leases (broker (returned t)) !! lease, workers (broker (returned t)) !! js "w", closed <$> conns (returned t) !! 0%nat)) <$> [[1]; [2]] =
  [(None, Some (int 0), Some false); (None, None, Some true)].
Proof. vm_compute. reflexivity. Qed.

(** *** What the code does not mean to do *)

(** The connection is closed between the grant and its handler: the lease is reclaimed,
    the handler releases it again and nobody handles that rejection. *)
Example late_release_unhandled : unhandled (visit [ev_connection 0; ev_data 0 (frame 104 ++ frame 97 ++ frame 104); ev_acquired 0 (js "a")]) = 1%nat.
Proof. vm_compute. reflexivity. Qed.

(** A request that can never be granted is not answered: its connection is closed. *)
Example unavailable_closes :
  (fun conn => (closed conn, reply_id <$> sent conn)) <$> conns (visit [ev_connection 0; ev_data 0 (frame 104 ++ frame 98)]) !! 0%nat = Some (true, [js "h"; js "connection"]).
Proof. vm_compute. reflexivity. Qed.

(** A connection that was closed for its first message may still say hello; its worker is
    never disconnected. *)
Example closed_connection_registers :
  workers (broker (visit [ev_connection 0; ev_data 0 (frame 97 ++ frame 104); ev_gone 0; ev_close])) !! js "w" = Some (int 0).
Proof. vm_compute. reflexivity. Qed.
End Visit.

Lemma leases_follow_connections_witness :
  exists l, leases (broker (Visit.visit Visit.arrives)) !! Visit.lease = Some 0%nat /\ ResourceBroker.heap (broker (Visit.visit Visit.arrives)) !! 0%nat = Some l /\
    ((exists c conn o, conns (Visit.visit Visit.arrives) !! c = Some conn /\ closed conn = false /\ bound conn = Some (worker (lessee l)) /\
      owned conn !! Visit.lease = Some o /\ ow_handle o = 0%nat /\ ow_attemptId o = attemptId (lessee l) /\
      forall c' conn', conns (Visit.visit Visit.arrives) !! c' = Some conn' -> bound conn' = bound conn -> c' = c) \/
     on_its_way (Visit.visit Visit.arrives) 0 (lessee l)).
Proof.
  eexists. split; [vm_compute; reflexivity|]. split; [vm_compute; reflexivity|].
  apply (leases_follow_connections ticking counting Visit.parse (fun x => x) (fun _ => []) Visit.server Visit.pool Visit.arrives Visit.pool_initial Visit.pool_run Visit.lease 0%nat); [exact counting_unique|vm_compute; reflexivity..].
Defined.

Lemma nothing_outlives_connections_witness :
  leases (broker (Visit.visit (Visit.arrives ++ [ev_gone 0]))) = ∅ /\ queue (broker (Visit.visit (Visit.arrives ++ [ev_gone 0]))) = [].
Proof.
  apply (nothing_outlives_connections ticking counting Visit.parse (fun x => x) (fun _ => []) Visit.server counting_unique Visit.pool _ Visit.pool_initial Visit.pool_run).
  - change (map_Forall (fun _ conn => closed conn = true) (conns (Visit.visit (Visit.arrives ++ [ev_gone 0])))). apply (bool_decide_unpack _). vm_compute. exact I.
  - vm_compute. reflexivity.
Defined.

Lemma strangers_change_nothing_witness :
  broker (dispatch ticking counting (fun x => x) (fun _ => []) Visit.server 0 JNull (Visit.visit [ev_connection 0])).2 = broker (Visit.visit [ev_connection 0]) \/
  let_in_by (fun x => x) Visit.server JNull.
Proof.
  eapply (strangers_change_nothing ticking counting Visit.parse (fun x => x) (fun _ => []) Visit.server counting_unique).
  - exact (inv_serve ticking counting Visit.parse (fun x => x) (fun _ => []) Visit.server counting_unique Visit.pool [ev_connection 0] Visit.pool_initial Visit.pool_run).
  - vm_compute. reflexivity.
  - reflexivity.
Defined.

