(* ===== verification/BrokerClient.v ===== *)
(** * The broker's client (packages/resource-broker/src/transport.ts)

    The worker's side of the socket: requests with their timers and signals, the answers
    that settle them, the leases a worker holds from afar.  The handshake of the socket
    itself, before the hello, is left out.  [stringify] is what becomes of a message as
    JSON; the texts of errors are left out. *)

From S2P Require Import Prelude JsText Dto Framing JsObject ResourceBroker LocalTransport BrokerServer.

Local Open Scope Z_scope.

(** ** The wire *)

Definition BROKER_CODES : list (string * ResourceBrokerErrorCode) :=
  [("aborted", aborted); ("attempt-owner-mismatch", attempt_owner_mismatch); ("deadline-exceeded", deadline_exceeded); ("invalid-request", invalid_request);
   ("queue-full", queue_full); ("resource-unavailable", resource_unavailable); ("stale-lease", stale_lease); ("stale-run", stale_run); ("stale-worker", stale_worker)].
Definition TRANSPORT_CODES : list (string * TransportErrorCode) :=
  [("authentication-failed", authentication_failed); ("connection-closed", connection_closed); ("connection-limit", connection_limit); ("frame-too-large", frame_too_large);
   ("handshake-timeout", handshake_timeout); ("protocol-error", protocol_error); ("request-timeout", request_timeout)].

Definition code_named {A} (codes : list (string * A)) (text : jstring) : option A := snd <$> List.find (fun c => bool_decide (js c.1 = text)) codes.
Definition name_of {A} `{EqDecision A} (codes : list (string * A)) (code : A) : jstring :=
  match List.find (fun c => bool_decide (c.2 = code)) codes with Some c => js c.1 | None => [] end.
Definition wire_code (c : WireCode) : jstring := match c with on_broker c => name_of BROKER_CODES c | on_transport c => name_of TRANSPORT_CODES c end.

Definition errorFromWire (v : json) : result ServerError WireCode :=
  error ← object_of (Some v);
  code ← string_ (field_of error "code") 128;
  _ ← string_ (field_of error "message") 2048;
  match code_named BROKER_CODES code with
  | Some c => Ok (on_broker c)
  | None => Ok (on_transport (default protocol_error (code_named TRANSPORT_CODES code)))
  end.

(** [failure], [responseFailure]: the payload of a response that is not one. *)
Definition error_json (c : WireCode) (text : jstring) : json := JObj [(js "code", JStr (wire_code c)); (js "message", JStr text)].

Definition attachment_json (a : ResourceAttachment) : json :=
  JObj ((js "resource", JStr (resource a)) ::
        match pid a with Some n => [(js "pid", JNum n)] | None => [] end ++ match sessionId a with Some t => [(js "sessionId", JStr t)] | None => [] end).

Definition resources_json (l : list (ResourceClass * Z)) : json := JObj ((fun c => (class_name c.1, JNum (int c.2))) <$> l).

(** [leaseWire], as the message it becomes. *)
Definition lease_json (w : LeaseWire) : json :=
  let l := lw_lease w in let o := leaseOwner l in
  JObj [(js "runId", JStr (runId (worker o))); (js "workerId", JStr (workerId (worker o))); (js "workerEpoch", JNum (workerEpoch (worker o)));
        (js "attemptId", JStr (attemptId o)); (js "leaseId", JStr (snapshotLeaseId l)); (js "resources", resources_json (leaseResources l));
        (js "attachments", JArr (attachment_json <$> leaseAttachments l)); (js "token", JStr (lw_token w))].

Record RemoteSnapshot : Type := { rem_owner : AttemptIdentity; rem_leaseId : jstring; rem_resources : ResourceVector; rem_attachments : list ResourceAttachment }.

Definition leaseSnapshot (v : fields) : result ServerError RemoteSnapshot :=
  run ← wireId (field_of v "runId") "run";
  w ← string_ (field_of v "workerId") 256;
  epoch ← nonNegativeInteger (field_of v "workerEpoch");
  attempt ← wireId (field_of v "attemptId") "attempt";
  lease ← string_ (field_of v "leaseId") 256;
  resources ← resourceVector (field_of v "resources");
  attached ← attachments_ (field_of v "attachments");
  Ok {| rem_owner := {| worker := {| runId := run; workerId := w; workerEpoch := int epoch |}; attemptId := attempt |};
        rem_leaseId := lease; rem_resources := resources; rem_attachments := attached |}.

(** What [acquire] makes of the answer. *)
Definition acquire_result (v : json) : result ServerError (RemoteSnapshot * jstring) :=
  answer ← object_of (Some v);
  snapshot ← leaseSnapshot answer;
  token ← string_ (field_of answer "token") 512;
  Ok (snapshot, token).

(** ** The state *)

Inductive Outcome : Type := resolved (v : json) | rejected (e : WireCode).

(** An entry of [pending]: whether [cleanup] has a timer and a listener to remove. *)
Record PendingClientRequest : Type := { cr_id : jstring; cr_timed : bool; cr_listening : bool }.

Record ClientMessage : Type := { cm_type : jstring; cm_requestId : jstring; cm_fields : fields }.

(** A lease held from afar: [releasePromise] is the request that releases it. *)
Record RemoteLease : Type := { rl_snapshot : RemoteSnapshot; rl_token : jstring; rl_release : option (Outcome + jstring) }.

Record Client : Type := mkClient {
  c_socket : bool;  (** not destroyed *)
  written : list ClientMessage;
  c_decoder : LocalJsonDecoder;
  c_pending : list PendingClientRequest;
  requestSequence : Z;
  c_closed : bool;
  promises : gmap jstring (option Outcome);  (** of the requests; [None] is open *)
  awaiting : list jstring;  (** acquire requests whose answer has not been looked at *)
  remote : list RemoteLease;
}.

Definition set_c_socket x s := mkClient x (written s) (c_decoder s) (c_pending s) (requestSequence s) (c_closed s) (promises s) (awaiting s) (remote s).
Definition set_written x s := mkClient (c_socket s) x (c_decoder s) (c_pending s) (requestSequence s) (c_closed s) (promises s) (awaiting s) (remote s).
Definition set_c_decoder x s := mkClient (c_socket s) (written s) x (c_pending s) (requestSequence s) (c_closed s) (promises s) (awaiting s) (remote s).
Definition set_c_pending x s := mkClient (c_socket s) (written s) (c_decoder s) x (requestSequence s) (c_closed s) (promises s) (awaiting s) (remote s).
Definition set_requestSequence x s := mkClient (c_socket s) (written s) (c_decoder s) (c_pending s) x (c_closed s) (promises s) (awaiting s) (remote s).
Definition set_c_closed s := mkClient (c_socket s) (written s) (c_decoder s) (c_pending s) (requestSequence s) true (promises s) (awaiting s) (remote s).
Definition set_promises x s := mkClient (c_socket s) (written s) (c_decoder s) (c_pending s) (requestSequence s) (c_closed s) x (awaiting s) (remote s).
Definition set_remote x s := mkClient (c_socket s) (written s) (c_decoder s) (c_pending s) (requestSequence s) (c_closed s) (promises s) (awaiting s) x.
Definition set_awaiting x s := mkClient (c_socket s) (written s) (c_decoder s) (c_pending s) (requestSequence s) (c_closed s) (promises s) x (remote s).

Definition request_id (n : Z) : jstring := js "request:" ++ decimal n.

(** A promise settles once. *)
Definition settle (id : jstring) (o : Outcome) (s : Client) : Client :=
  match promises s !! id with Some None => set_promises (<[id := Some o]> (promises s)) s | _ => s end.

(** [pending.delete(id)] *)
Definition unpend (id : jstring) (s : Client) : Client := set_c_pending (List.filter (fun r => negb (bool_decide (cr_id r = id))) (c_pending s)) s.
Definition find_pending (id : jstring) (s : Client) : option PendingClientRequest := List.find (fun r => bool_decide (cr_id r = id)) (c_pending s).

Definition failClient (e : WireCode) (s : Client) : Client :=
  if c_closed s then s
  else set_c_pending [] (foldl (fun s r => settle (cr_id r) (rejected e) s) (set_c_socket false (set_c_closed s)) (c_pending s)).

Definition clientError (e : ServerError) : WireCode :=
  match e with
  | transport_error c => on_transport c
  | local_error l => on_transport (if decide (l = local_frame_oversized) then frame_too_large else protocol_error)
  | broker_error _ => on_transport protocol_error
  end.

(** ** Requests and answers *)

Section Client.
Context (json_parse : jstring -> option (Dto.heap * value)) (stringify : ClientMessage -> jstring) (maxFrameBytes : Z).

(** [writeFrame]: whether it throws, and what. *)
Definition writable (m : ClientMessage) : result WireCode unit :=
  match encodeFrame (StringifyText (stringify m)) (int maxFrameBytes) with Ok _ => Ok tt | Err e => Err (clientError (local_error (localError e))) end.
Definition put_on_wire (m : ClientMessage) (s : Client) : Client := if c_socket s then set_written (written s ++ [m]) s else s.

Definition next_id (s : Client) : jstring * Client := (request_id (requestSequence s + 1), set_requestSequence (requestSequence s + 1) s).

(** [deadline !== undefined && (!Number.isFinite(deadline) || deadline <= now())] *)
Definition too_late (deadline : option number) (now : number) : bool := match deadline with Some d => negb (isFinite d) || num_leb d now | None => false end.

(** [request]: a rejection at once, or the id of the request.  [signal] is whether the
    signal, if there is one, is aborted. *)
Definition request (now : number) (type : jstring) (given : fields) (deadline : option number) (signal : option bool) (s : Client) : (Outcome + jstring) * Client :=
  if c_closed s then (inl (rejected (on_transport connection_closed)), s)
  else
    let '(id, s) := next_id s in
    let s := set_promises (<[id := None]> (promises s)) s in
    let s :=
      if bool_decide (signal = Some true) then settle id (rejected (on_broker aborted)) s
      else if too_late deadline now then settle id (rejected (on_broker deadline_exceeded)) s
      else
        let m := {| cm_type := type; cm_requestId := id; cm_fields := given |} in
        let s := set_c_pending (c_pending s ++ [{| cr_id := id; cr_timed := bool_decide (is_Some deadline); cr_listening := bool_decide (is_Some signal) |}]) s in
        match writable m with
        | Ok _ => put_on_wire m s
        | Err e => settle id (rejected e) (unpend id s)
        end in
    (inr id, s).

(** [cancel], of the timer or the signal of a request. *)
Definition cancel_request (id : jstring) (e : WireCode) (s : Client) : Client :=
  match find_pending id s with
  | None => s
  | Some _ =>
      let s := settle id (rejected e) (unpend id s) in
      let '(next, s) := next_id s in
      let m := {| cm_type := js "cancel"; cm_requestId := next; cm_fields := [(js "targetRequestId", JStr id)] |} in
      match writable m with Ok _ => put_on_wire m s | Err _ => set_c_socket false s end
  end.

(** The callback of the decoder.  The request is forgotten before its error is read. *)
Definition onResponse (v : json) (s : Client) : Client :=
  match parseResponseEnvelope v PROTOCOL_VERSION 256 with
  | Err e => failClient (clientError (local_error e)) s
  | Ok m =>
      let id := rs_requestId m in
      match find_pending id s with
      | None => s
      | Some _ =>
          let s := unpend id s in
          match rs_answer m with
          | Ok r => settle id (resolved r) s
          | Err e => match errorFromWire e with Ok c => settle id (rejected c) s | Err x => failClient (clientError x) s end
          end
      end
  end.

Definition put_inner (d : FrameDecoder) (s : Client) : Client := set_c_decoder {| inner := d; maxBufferedBytes := maxBufferedBytes (c_decoder s) |} s.

Definition onClientData (chunk : bytes) (s : Client) : Client :=
  match local_push json_parse c_decoder put_inner (fun e => clientError (local_error e)) (fun v => modify (onResponse v)) chunk s with
  | (Ok _, s) => s
  | (Err e, s) => failClient e s
  end.

(** ** What the worker does *)

Definition hello_fields (token : jstring) (w : WorkerIdentity) : fields :=
  [(js "token", JStr token); (js "runId", JStr (runId w)); (js "workerId", JStr (workerId w)); (js "workerEpoch", JNum (workerEpoch w))].

Definition lease_fields (l : RemoteLease) : fields :=
  [(js "attemptId", JStr (attemptId (rem_owner (rl_snapshot l)))); (js "leaseId", JStr (rem_leaseId (rl_snapshot l))); (js "leaseToken", JStr (rl_token l))].

(** [acquire] up to its await. *)
Definition remote_acquire (now : number) (attempt : jstring) (wanted : json) (deadline : number) (signal : option bool) (s : Client) : Client :=
  match request now (js "acquire") [(js "attemptId", JStr attempt); (js "resources", wanted); (js "deadline", JNum deadline)] (Some deadline) signal s with
  | (inr id, s) => set_awaiting (awaiting s ++ [id]) s
  | (inl _, s) => s
  end.

(** What follows the await: a lease, unless the answer is a rejection or is not one. *)
Definition onAnswered (id : jstring) (s : Client) : Client :=
  match promises s !! id with
  | Some (Some o) =>
      let s := set_awaiting (List.filter (fun i => negb (bool_decide (i = id))) (awaiting s)) s in
      match o with
      | resolved v => match acquire_result v with Ok (l, t) => set_remote (remote s ++ [{| rl_snapshot := l; rl_token := t; rl_release := None |}]) s | Err _ => s end
      | rejected _ => s
      end
  | _ => s
  end.

Definition remote_attach (now : number) (given : list ResourceAttachment) (l : RemoteLease) (s : Client) : Client :=
  (request now (js "attach") (lease_fields l ++ [(js "attachments", JArr (attachment_json <$> given))]) None None s).2.

(** [releasePromise ??= request(...)] *)
Definition remote_release (now : number) (i : nat) (s : Client) : Client :=
  match remote s !! i with
  | None => s
  | Some l =>
      match rl_release l with
      | Some _ => s
      | None =>
          let '(p, s) := request now (js "release") (lease_fields l) None None s in
          set_remote (<[i := {| rl_snapshot := rl_snapshot l; rl_token := rl_token l; rl_release := Some p |}]> (remote s)) s
      end
  end.

(** The catch around the hello. *)
Definition onGreeted (s : Client) : Client := match promises s !! request_id 1 with Some (Some (rejected _)) => set_c_socket false s | _ => s end.

(** ** Events *)

Inductive ClientEvent : Type :=
| cl_hello (now : number) (token : jstring) (w : WorkerIdentity) (deadline : number) (signal : option bool)
| cl_greeted
| cl_data (chunk : bytes)
| cl_error  (** the socket's [error] and [close] *)
| cl_timer (id : jstring)
| cl_abort (id : jstring)
| cl_acquire (now : number) (attempt : jstring) (wanted : json) (deadline : number) (signal : option bool)
| cl_answered (id : jstring)
| cl_attach (now : number) (i : nat) (given : list ResourceAttachment)
| cl_release (now : number) (i : nat)
| cl_snapshot (now : number)
| cl_close.

(** A timer or a listener that was removed is not called, and no data comes from a
    destroyed socket. *)
Definition client_step (s : Client) (e : ClientEvent) : Client :=
  match e with
  | cl_hello now token w deadline signal => (request now (js "hello") (hello_fields token w) (Some deadline) signal s).2
  | cl_greeted => onGreeted s
  | cl_data chunk => if c_socket s then onClientData chunk s else s
  | cl_error => failClient (on_transport connection_closed) s
  | cl_timer id => match find_pending id s with Some r => if cr_timed r then cancel_request id (on_broker deadline_exceeded) s else s | None => s end
  | cl_abort id => match find_pending id s with Some r => if cr_listening r then cancel_request id (on_broker aborted) s else s | None => s end
  | cl_acquire now attempt wanted deadline signal => remote_acquire now attempt wanted deadline signal s
  | cl_answered id => if bool_decide (id ∈ awaiting s) then onAnswered id s else s
  | cl_attach now i given => match remote s !! i with Some l => remote_attach now given l s | None => s end
  | cl_release now i => remote_release now i s
  | cl_snapshot now => (request now (js "snapshot") [] None None s).2
  | cl_close => failClient (on_transport connection_closed) s
  end.

Definition newClient : Client := mkClient true [] (match newLocalJsonDecoder (int maxFrameBytes) with Ok d => d | Err _ => {| inner := Decoder 0 [] 0 0 None; maxBufferedBytes := 0 |} end) [] 0 false ∅ [] [].
Definition client_run (es : list ClientEvent) : Client := foldl client_step newClient es.
End Client.
