(* ===== verification/ClientTheorems.v ===== *)
(** * What the broker's client promises

    Every request of a worker is settled once and only by what concerns it, none is left
    open by a connection that ends, and what the server answers arrives as it was meant. *)

From S2P Require Import Prelude JsText Dto Framing JsObject ResourceBroker LocalTransport BrokerServer BrokerClient.
From S2P Require RunEvents.

Local Open Scope Z_scope.

Abbreviation ids_of l := (fmap cr_id l).

(** ** Ids *)

Lemma request_id_inj n m : 0 <= n -> 0 <= m -> request_id n = request_id m -> n = m.
Proof.
  unfold request_id. intros Hn Hm H. apply app_inv_head in H. destruct (decimal_spec n Hn) as (_ & En & _), (decimal_spec m Hm) as (_ & Em & _). congruence.
Qed.

(** ** Promises *)

Definition opened (s : Client) (id : jstring) : Prop := promises s !! id = Some None.
Definition keeps_settled (s s' : Client) : Prop := forall id o, promises s !! id = Some (Some o) -> promises s' !! id = Some (Some o).

Lemma settle_opened id o s k : opened (settle id o s) k <-> k <> id /\ opened s k.
Proof.
  unfold opened, settle. destruct (promises s !! id) as [[x|]|] eqn:E; cbn; [..|split; [|tauto]; intros H; split; congruence].
  - split; [|tauto]. intros H. split; congruence.
  - rewrite lookup_insert_Some. split; [intros [[_ [=]]|[Hne H]]; done|]. intros [Hne H]. by right.
Qed.

Lemma settle_settled id o s : keeps_settled s (settle id o s).
Proof. intros k x H. unfold settle. destruct (promises s !! id) as [[y|]|] eqn:E; cbn; [done| |done]. rewrite lookup_insert_ne; [done|congruence]. Qed.

Lemma settle_now id o s : opened s id -> promises (settle id o s) !! id = Some (Some o).
Proof. intros H. unfold settle. rewrite H. cbn. by rewrite lookup_insert_eq. Qed.

Lemma settle_known id o s k : is_Some (promises (settle id o s) !! k) -> is_Some (promises s !! k).
Proof. unfold settle. destruct (promises s !! id) as [[y|]|] eqn:E; cbn; [done| |done]. intros [x [[<- _]|[_ H]]%lookup_insert_Some]; by eexists. Qed.

Lemma settle_same id o s : c_closed (settle id o s) = c_closed s /\ c_pending (settle id o s) = c_pending s /\ requestSequence (settle id o s) = requestSequence s.
Proof. unfold settle. by destruct (promises s !! id) as [[x|]|]. Qed.

(** All of a list of requests are rejected. *)
Lemma reject_all e l s : let s' := foldl (fun s r => settle (cr_id r) (rejected e) s) s l in
  c_closed s' = c_closed s /\ requestSequence s' = requestSequence s /\ keeps_settled s s' /\
  (forall k, is_Some (promises s' !! k) -> is_Some (promises s !! k)) /\ forall k, opened s' k <-> k ∉ ids_of l /\ opened s k.
Proof.
  cbv zeta. revert s. induction l as [|r l IH]; intros s; cbn [foldl].
  - split_and!; [done|done|by intros k o H|done|]. intros k. split; [|tauto]. intros H. split; [apply not_elem_of_nil|done].
  - destruct (IH (settle (cr_id r) (rejected e) s)) as (E1 & E2 & E3 & E4 & E5). destruct (settle_same (cr_id r) (rejected e) s) as (Ec & _ & Es).
    split_and!; [congruence|congruence| | |].
    + intros k o H. by apply E3, settle_settled.
    + intros k H. by eapply settle_known, E4.
    + intros k. rewrite E5, settle_opened. cbn. rewrite not_elem_of_cons. tauto.
Qed.

(** ** The invariant *)

(** While the client is open the open promises are those of its pending requests, up to
    [x]; closed, it waits for none and leaves at most one open. *)
Record good_but (x : option jstring) (s : Client) : Prop := {
  g_sequence : 0 <= requestSequence s;
  g_ids id : is_Some (promises s !! id) -> exists n, 1 <= n <= requestSequence s /\ id = request_id n;
  g_open : c_closed s = false -> forall id, opened s id <-> id ∈ ids_of (c_pending s) \/ x = Some id;
  g_closed : c_closed s = true -> c_pending s = [] /\ forall id id', opened s id -> opened s id' -> id = id';
}.
Abbreviation good := (good_but None).

(** From [s0] nothing that was settled changed. *)
Definition moved_to (s0 s : Client) : Prop := good s /\ keeps_settled s0 s.

Lemma keeps_settled_trans s1 s2 s3 : keeps_settled s1 s2 -> keeps_settled s2 s3 -> keeps_settled s1 s3.
Proof. intros A B id o H. by apply B, A. Qed.

(** Failing settles all that is pending. *)
Lemma fail_opened x e s k : good_but x s -> c_closed s = false -> opened (failClient e s) k -> x = Some k /\ opened s k.
Proof.
  intros G Hc. unfold failClient. rewrite Hc. destruct (reject_all e (c_pending s) (set_c_socket false (set_c_closed s))) as (_ & _ & _ & _ & E5).
  intros [Hn Ho]%E5. split; [|done]. apply (g_open _ _ G Hc) in Ho. tauto.
Qed.

Lemma fail_none e s k : good s -> c_closed s = false -> ~ opened (failClient e s) k.
Proof. intros G Hc [? _]%(fail_opened None); done. Qed.

Lemma fail_good x e s : good_but x s -> moved_to s (failClient e s) /\ (c_closed (failClient e s) = true).
Proof.
  intros G. unfold failClient. destruct (c_closed s) eqn:Hc.
  - split; [|done]. split; [|by intros id o H]. destruct G. constructor; try done. congruence.
  - pose proof (fun k => fail_opened x e s k G Hc) as Hx. unfold failClient in Hx. rewrite Hc in Hx.
    destruct (reject_all e (c_pending s) (set_c_socket false (set_c_closed s))) as (E1 & E2 & E3 & E4 & E5). destruct G. split; [|cbn; by rewrite E1]. split; [|exact E3].
    constructor; cbn [requestSequence promises c_closed c_pending set_c_pending].
    + by rewrite E2.
    + intros id Hid. rewrite E2. by apply g_ids0, E4.
    + by rewrite E1.
    + intros _. split; [done|]. intros k k' [H _]%Hx [H' _]%Hx. congruence.
Qed.

(** A request settles and is forgotten. *)
Lemma settle_good id o s : good s -> c_closed s = false -> moved_to s (settle id o (unpend id s)).
Proof.
  intros G Hc. split; [|apply (settle_settled id o (unpend id s))]. destruct (settle_same id o (unpend id s)) as (Ec & Ep & Es). destruct G. constructor; rewrite ?Ec, ?Ep, ?Es; try done.
  - intros k Hk%settle_known. by apply g_ids0.
  - intros _ k. rewrite settle_opened. change (opened (unpend id s) k) with (opened s k). rewrite (g_open0 Hc). cbn [unpend c_pending set_c_pending].
    split; [intros [Hne [Hin|]]; [left|done]|intros [Hin|]; [|done]].
    + apply list_elem_of_fmap in Hin as (r & -> & Hr). apply list_elem_of_fmap. exists r. split; [done|]. apply list_elem_of_In, filter_In. split; [by apply list_elem_of_In|].
      by rewrite bool_decide_eq_false_2.
    + apply list_elem_of_fmap in Hin as (r & -> & Hr). apply list_elem_of_In, filter_In in Hr as [Hr Hne]. apply negb_true_iff in Hne. breflect.
      split; [done|]. left. apply list_elem_of_fmap. exists r. split; [done|by apply list_elem_of_In].
  - cbn. congruence.
Qed.

Lemma moved_refl s : good s -> moved_to s s.
Proof. intros G. split; [done|by intros id o H]. Qed.

Lemma moved_trans s0 s1 s2 : moved_to s0 s1 -> (good s1 -> moved_to s1 s2) -> moved_to s0 s2.
Proof. intros [G A] H. destruct (H G) as [G' B]. split; [done|by eapply keeps_settled_trans]. Qed.

(** What leaves requests and promises alone. *)
Lemma quiet_good s s' : good s -> promises s' = promises s -> c_pending s' = c_pending s -> c_closed s' = c_closed s -> requestSequence s <= requestSequence s' -> moved_to s s'.
Proof.
  intros G Ep Eq Ec Hs. split; [|intros id o H; by rewrite Ep]. destruct G. unfold opened in *. constructor; unfold opened; rewrite ?Ep, ?Eq, ?Ec; try done; [lia|].
  intros id Hid. destruct (g_ids0 id Hid) as (n & Hn & ->). exists n. split; [lia|done].
Qed.

Lemma wire_good m s : good s -> moved_to s (put_on_wire m s).
Proof. intros G. unfold put_on_wire. destruct (c_socket s); [by apply quiet_good|by apply moved_refl]. Qed.

(** A new request is open before it is pending. *)
Lemma fresh_good s : let '(id, s1) := next_id s in let s2 := set_promises (<[id := None]> (promises s1)) s1 in
  good s -> c_closed s = false -> good_but (Some id) s2 /\ keeps_settled s s2 /\ id ∉ ids_of (c_pending s).
Proof.
  unfold next_id. cbv beta iota zeta. remember (request_id (requestSequence s + 1)) as id eqn:Eid. intros G Hc. assert (Hnew : promises s !! id = None).
  { destruct (promises s !! id) as [o|] eqn:E; [|done]. destruct (g_ids _ _ G id ltac:(by eexists)) as (n & Hn & H). rewrite Eid in H. apply request_id_inj in H; lia. }
  assert (Hnp : id ∉ ids_of (c_pending s)).
  { intros Hin. assert (H : opened s id) by (apply (g_open _ _ G Hc); by left). unfold opened in H. congruence. }
  split_and!; [|intros k o H; cbn; rewrite lookup_insert_ne; [done|]; intros <-; by rewrite Hnew in H|done]. pose proof (g_open _ _ G Hc) as Hopen. destruct G. constructor; cbn; try congruence.
  - lia.
  - intros k [o [[<- _]|[_ H]]%lookup_insert_Some]; [exists (requestSequence s + 1); split; [lia|exact Eid]|].
    destruct (g_ids0 k ltac:(by eexists)) as (n & Hn & ->). exists n. split; [lia|done].
  - intros _ k. unfold opened in *. cbn. rewrite lookup_insert_Some, (Hopen k). split; [intros [[-> _]|[_ [H|]]]; auto; done|].
    intros [H|[= ->]]; [right; split; [by intros ->|by left]|by left].
Qed.

Lemma settle_fresh id o s : good_but (Some id) s -> id ∉ ids_of (c_pending s) -> c_closed s = false -> good (settle id o s).
Proof.
  intros G Hnp Hc. destruct (settle_same id o s) as (Ec & Ep & Es). destruct G. constructor; rewrite ?Ec, ?Ep, ?Es; try done; [intros k Hk%settle_known; by apply g_ids0| |congruence].
  intros _ k. rewrite settle_opened, (g_open0 Hc). split; [intros [Hne [H|[= ->]]]; [by left|done]|]. intros [H|]; [|done]. split; [by intros ->|by left].
Qed.

Section Client.
Context (json_parse : jstring -> option (Dto.heap * value)) (stringify : ClientMessage -> jstring) (maxFrameBytes : Z).

Lemma request_good now type given deadline signal s : good s -> moved_to s (request stringify maxFrameBytes now type given deadline signal s).2.
Proof.
  intros G. unfold request. destruct (c_closed s) eqn:Hc; [by apply moved_refl|]. pose proof (fresh_good s) as F. destruct (next_id s) as [id s1] eqn:En.
  destruct (F G Hc) as (G1 & A & Hnp). assert (E1 : c_pending s1 = c_pending s /\ c_closed s1 = false) by (by injection En as _ <-). destruct E1 as [Ep Ec].
  set (s2 := set_promises _ s1) in *. assert (Hc2 : c_closed s2 = false) by done. cbn [snd].
  assert (Hnow : forall o, moved_to s (settle id o s2)).
  { intros o. split; [apply settle_fresh; [done|change (c_pending s2) with (c_pending s1); by rewrite Ep|done]|]. eapply keeps_settled_trans; [exact A|apply settle_settled]. }
  destruct (bool_decide _); [apply Hnow|]. destruct (too_late _ _); [apply Hnow|].
  match goal with |- context [set_c_pending ?l s2] => set (s3 := set_c_pending l s2); assert (G3 : moved_to s s3) end.
  { split; [|exact A]. destruct G1. constructor; cbn; try done; [|congruence]. intros _ k. change (opened s3 k) with (opened s2 k). rewrite (g_open0 Hc2), fmap_app, elem_of_app. cbn.
    rewrite list_elem_of_singleton. split; [intros [H|[= ->]]; auto|]. intros [[H| ->]|]; auto; done. }
  destruct (writable _ _ _) as [u|e].
  - eapply moved_trans; [exact G3|apply wire_good].
  - eapply moved_trans; [exact G3|]. intros G'. by apply settle_good.
Qed.

Lemma found_open id r s : good s -> find_pending id s = Some r -> c_closed s = false.
Proof. intros G Hf. destruct (c_closed s) eqn:Hc; [|done]. destruct (g_closed _ _ G Hc) as [Hp _]. unfold find_pending in Hf. by rewrite Hp in Hf. Qed.

Lemma found_pending id r s : find_pending id s = Some r -> id ∈ ids_of (c_pending s).
Proof. unfold find_pending. intros [Hin Hid]%List.find_some. breflect. apply list_elem_of_fmap. exists r. split; [done|by apply list_elem_of_In]. Qed.

Lemma cancel_good id e s : good s -> moved_to s (cancel_request stringify maxFrameBytes id e s).
Proof.
  intros G. unfold cancel_request. destruct (find_pending id s) as [r|] eqn:Hf; [|by apply moved_refl]. pose proof (found_open id r s G Hf) as Hc.
  unfold next_id. cbv beta iota zeta. set (s1 := settle id _ _). eapply moved_trans; [by apply settle_good|]. fold s1. intros G1.
  eapply moved_trans; [apply (quiet_good s1 (set_requestSequence (requestSequence s1 + 1) s1)); try done; cbn; lia|].
  intros G2. destruct (writable _ _ _); [by apply wire_good|]. by apply quiet_good.
Qed.

(** An answer may leave the request it names open when its error cannot be read. *)
Lemma unpend_stranded id s : good s -> c_closed s = false -> id ∈ ids_of (c_pending s) -> good_but (Some id) (unpend id s).
Proof.
  intros G Hc Hid. destruct G. constructor; try done; cbn; [|congruence]. intros _ k. change (opened (unpend id s) k) with (opened s k). rewrite (g_open0 Hc). split.
  - intros [Hin|]; [|done]. destruct (decide (k = id)) as [->|Hne]; [by right|]. left. apply list_elem_of_fmap in Hin as (r & -> & Hr). apply list_elem_of_fmap. exists r.
    split; [done|]. apply list_elem_of_In, filter_In. split; [by apply list_elem_of_In|]. by rewrite bool_decide_eq_false_2.
  - intros [Hin|[= <-]]; [|by left]. apply list_elem_of_fmap in Hin as (r & -> & Hr). apply list_elem_of_In, filter_In in Hr as [Hr _]. left.
    apply list_elem_of_fmap. exists r. split; [done|by apply list_elem_of_In].
Qed.

Lemma response_good v s : good s -> moved_to s (onResponse v s).
Proof.
  intros G. unfold onResponse. destruct (parseResponseEnvelope v _ _) as [m|e]; [|by eapply fail_good].
  destruct (find_pending (rs_requestId m) s) as [r|] eqn:Hf; [|by apply moved_refl]. pose proof (found_open _ _ _ G Hf) as Hc.
  destruct (rs_answer m) as [p|e]; [by apply settle_good|]. destruct (errorFromWire e) as [c|x]; [by apply settle_good|].
  destruct (fail_good (Some (rs_requestId m)) (clientError x) (unpend (rs_requestId m) s)) as [[G' A] _]; [by apply unpend_stranded, (found_pending _ r)|]. split; [exact G'|exact A].
Qed.

Lemma data_good chunk s : good s -> moved_to s (onClientData json_parse chunk s).
Proof.
  intros G. unfold onClientData.
  assert (H : preserves (moved_to s) (local_push json_parse c_decoder put_inner (fun e => clientError (local_error e)) (fun v => modify (onResponse v)) chunk)).
  { unfold local_push. generalize (S (length chunk)). intros fuel. revert chunk. induction fuel as [|fuel IH]; intros chunk s1 M; [done|]. cbn [push_slices].
    unfold mbind at 1, method_bind at 1, get at 1. cbv zeta. destruct (push json_parse _ _) as [r d]. apply (preserves_after (moved_to s)).
    - cbn. eapply moved_trans; [exact M|]. intros G1. by apply quiet_good.
    - intros _. destruct r as [ms|e]; [|apply preserves_throw]. apply preserves_bind.
      + clear. induction ms as [|m ms IH]; [by intros s1 M|]. apply preserves_bind; [|done]. intros s1 M. cbn. eapply moved_trans; [exact M|apply response_good].
      + intros _. destruct (_ <=? _)%nat; [apply preserves_ret|apply IH]. }
  specialize (H s (moved_refl s G)). destruct (local_push _ _ _ _ _ _ s) as [[u|e] s1]; [done|]. eapply moved_trans; [exact H|]. intros G1. by eapply fail_good.
Qed.

Lemma step_good s e : good s -> moved_to s (client_step json_parse stringify maxFrameBytes s e).
Proof.
  intros G. destruct e as [now token w deadline signal| |chunk| |id|id|now attempt wanted deadline signal|id|now i given|now i|now| ]; cbn [client_step].
  - by apply request_good.
  - unfold onGreeted. repeat case_match; try (by apply moved_refl). by apply quiet_good.
  - destruct (c_socket s); [by apply data_good|by apply moved_refl].
  - by eapply fail_good.
  - destruct (find_pending id s) as [r|]; [|by apply moved_refl]. destruct (cr_timed r); [by apply cancel_good|by apply moved_refl].
  - destruct (find_pending id s) as [r|]; [|by apply moved_refl]. destruct (cr_listening r); [by apply cancel_good|by apply moved_refl].
  - unfold remote_acquire. match goal with |- context [request _ _ now ?t ?g ?d signal s] => pose proof (request_good now t g d signal s G) as M; destruct (request stringify maxFrameBytes now t g d signal s) as [[o|id] s1] end; [done|].
    eapply moved_trans; [exact M|]. intros G1. by apply quiet_good.
  - case_bool_decide; [|by apply moved_refl]. unfold onAnswered. destruct (promises s !! id) as [[[v|c]|]|]; try (by apply moved_refl); [|by apply quiet_good].
    destruct (acquire_result v) as [[l t]|x]; by apply quiet_good.
  - destruct (remote s !! i) as [l|]; [|by apply moved_refl]. by apply request_good.
  - unfold remote_release. destruct (remote s !! i) as [l|]; [|by apply moved_refl]. destruct (rl_release l); [by apply moved_refl|].
    pose proof (request_good now (js "release") (lease_fields l) None None s G) as M. destruct (request _ _ _ _ _ _ _ s) as [p s1]. eapply moved_trans; [exact M|]. intros G1. by apply quiet_good.
  - by apply request_good.
  - by eapply fail_good.
Qed.

Lemma new_good : good (newClient maxFrameBytes).
Proof. constructor; cbn; try done. - intros id [o H]. by rewrite lookup_empty in H. - intros _ id. unfold opened. cbn. rewrite lookup_empty. split; [done|]. by intros [H%elem_of_nil|]. Qed.

Lemma run_good es : good (client_run json_parse stringify maxFrameBytes es).
Proof.
  unfold client_run. pose proof new_good as G. revert G. generalize (newClient maxFrameBytes). induction es as [|e es IH]; intros s G; [done|]. apply IH. by apply step_good.
Qed.
End Client.

(** ** What crosses the wire *)

Lemma string_ok t most : 1 <= Z.of_nat (length t) <= most -> string_ (Some (JStr t)) most = Ok t.
Proof. intros H. unfold string_. destruct (Nat.eqb_spec (length t) 0); [lia|]. by destruct (Z.ltb_spec most (Z.of_nat (length t))); [lia|]. Qed.

Lemma integer_ok least z : least <= z -> Z.abs z <= max_safe -> integer_from least (Some (JNum (int z))) = Ok z.
Proof. intros H1 H2. unfold integer_from. cbn [mbind option_bind json_number]. rewrite (proj2 (to_safe_integer_Some (int z) z)) by done. by destruct (Z.ltb_spec z least); [lia|]. Qed.

Lemma uuid_length p s : RunEvents.matches_uuid p s = true -> length s = length p.
Proof. revert s. induction p as [|u p IH]; intros [|c s]; try done. cbn. intros [_ H]%andb_true_iff. f_equal. by apply IH. Qed.

Lemma wireId_ok k kind t : RunEvents.kind_name k = js kind -> (length (js kind) <= 80)%nat -> RunEvents.ID_PATTERNS_test k t = true -> wireId (Some (JStr t)) kind = Ok t.
Proof.
  unfold RunEvents.ID_PATTERNS_test, wireId. intros -> Hk H. apply andb_true_iff in H as [Hp Hu]. pose proof (uuid_length _ _ Hu) as Hl. rewrite length_drop in Hl.
  change (length RunEvents.UUID) with 36%nat in Hl. rewrite length_app in Hl. change (length (js ":")) with 1%nat in Hl.
  rewrite string_ok by lia. unfold mbind, result_bind. cbv beta iota zeta. by rewrite Hp, Hu.
Qed.

(** *** Attachments *)

Definition wire_attachment (a : ResourceAttachment) : Prop :=
  resource a ∈ ATTACHABLE /\ (forall n, pid a = Some n -> exists z, n = int z /\ 1 <= z <= max_safe) /\ (forall t, sessionId a = Some t -> 1 <= Z.of_nat (length t) <= 512).

Lemma attachable_length t : t ∈ ATTACHABLE -> 1 <= Z.of_nat (length t) <= 64.
Proof. assert (H : forallb (fun t => (1 <=? Z.of_nat (length t)) && (Z.of_nat (length t) <=? 64)) ATTACHABLE = true) by reflexivity. rewrite forallb_forall in H. intros Hin%list_elem_of_In%H. breflect. lia. Qed.

Lemma attachment_ok a : wire_attachment a -> attachment_of (attachment_json a) = Ok a.
Proof.
  destruct a as [r p t]. intros (Hr & Hp & Ht). cbn [resource pid sessionId] in *. unfold attachment_of, attachment_json. cbn [resource pid sessionId].
  unfold object_of, field_of, mbind, result_bind. pose proof (attachable_length r Hr) as Hl.
  destruct p as [n|], t as [t|]; cbn [app]; set (m := _ :: _);
    assert (E1 : jget m (js "resource") = Some (JStr r)) by reflexivity; rewrite E1, string_ok by done; cbv beta iota; rewrite bool_decide_eq_true_2 by done; unfold guard_or.
  - destruct (Hp n eq_refl) as (z & -> & Hz). assert (E2 : jget m (js "pid") = Some (JNum (int z))) by reflexivity. assert (E3 : jget m (js "sessionId") = Some (JStr t)) by reflexivity.
    unfold positiveInteger_. rewrite E2, integer_ok by lia. by rewrite E3, string_ok by auto.
  - destruct (Hp n eq_refl) as (z & -> & Hz). assert (E2 : jget m (js "pid") = Some (JNum (int z))) by reflexivity. assert (E3 : jget m (js "sessionId") = None) by reflexivity.
    unfold positiveInteger_. by rewrite E2, integer_ok, E3 by lia.
  - assert (E2 : jget m (js "pid") = None) by reflexivity. assert (E3 : jget m (js "sessionId") = Some (JStr t)) by reflexivity. by rewrite E2, E3, string_ok by auto.
  - assert (E2 : jget m (js "pid") = None) by reflexivity. assert (E3 : jget m (js "sessionId") = None) by reflexivity. by rewrite E2, E3.
Qed.

Lemma attachments_ok l : Forall wire_attachment l -> (length l <= 1000)%nat -> attachments_ (Some (JArr (attachment_json <$> l))) = Ok l.
Proof.
  intros H Hl. unfold attachments_. rewrite length_fmap. destruct (Nat.ltb_spec 1000 (length l)); [lia|]. clear Hl. induction H as [|a l Ha H IH]; [done|].
  cbn [fmap list_fmap attachments_of]. rewrite attachment_ok by done. unfold mbind, result_bind. cbn [length] in *. fold (fmap attachment_json l). by rewrite IH by lia.
Qed.

(** *** Resources *)

Definition vector_of (a : amounts) : ResourceVector := list_to_map ((fun r => (class_name r, int (a r))) <$> RESOURCE_CLASSES).

Lemma amounts_read input a rs :
  (forall r, r ∈ rs -> jget input (class_name r) = Some (JNum (int (a r)))) -> (forall r, 0 <= a r <= max_safe) ->
  read_amounts input (class_name <$> rs) = Ok (list_to_map ((fun r => (class_name r, int (a r))) <$> rs)).
Proof.
  intros Hin Ha. induction rs as [|r rs IH]; [done|]. cbn [fmap list_fmap read_amounts]. rewrite (Hin r) by left. unfold nonNegativeInteger. rewrite integer_ok by (specialize (Ha r); lia).
  unfold mbind, result_bind. fold (fmap class_name rs). rewrite IH; [done|]. intros x Hx. apply Hin. by right.
Qed.

Lemma resources_ok a : (forall r, 0 <= a r <= max_safe) -> resourceVector (Some (resources_json (listed a))) = Ok (vector_of a).
Proof.
  intros Ha. unfold resourceVector, object_of, resources_json, mbind, result_bind. set (input := _ <$> listed a).
  assert (Hk : forallb (fun key => known_class key) (keys input) = true) by reflexivity. rewrite Hk. unfold guard_or. cbv beta iota.
  apply amounts_read; [|done]. intros r _. by destruct r.
Qed.

(** *** Leases *)

(** What the worker should see of a lease. *)
Definition remote_of (l : LeaseRecord) : RemoteSnapshot :=
  {| rem_owner := lessee l; rem_leaseId := leaseId l; rem_resources := vector_of (resources l); rem_attachments := attachments l |}.

(** A lease whose holder the broker accepted, of a run and an attempt with the names of
    the protocol, with what fits the fields of a message. *)
Record wire_lease (l : LeaseRecord) : Prop := {
  wl_run : RunEvents.ID_PATTERNS_test RunEvents.kind_run (runId (worker (lessee l))) = true;
  wl_worker : assertWorker (workerId (worker (lessee l))) (workerEpoch (worker (lessee l))) = Ok tt;
  wl_attempt : RunEvents.ID_PATTERNS_test RunEvents.kind_attempt (attemptId (lessee l)) = true;
  wl_lease : 1 <= Z.of_nat (length (leaseId l)) <= 256;
  wl_resources r : 0 <= resources l r <= max_safe;
  wl_attachments : Forall wire_attachment (attachments l) /\ (length (attachments l) <= 1000)%nat;
  wl_token : 1 <= Z.of_nat (length (token l)) <= 512;
}.

Lemma worker_ok id epoch : assertWorker id epoch = Ok tt -> 1 <= Z.of_nat (length id) <= 256 /\ exists z, epoch = int z /\ 0 <= z <= max_safe.
Proof.
  unfold assertWorker. intros H. apply bind_Ok in H as ([] & Hid & H). apply guard_or_Ok, negb_true_iff, orb_false_iff in Hid as [H1 H2].
  apply Nat.eqb_neq in H1. apply Z.ltb_ge in H2. split; [lia|]. destruct (to_safe_integer epoch) as [z|] eqn:Ez; [|done].
  apply to_safe_integer_Some in Ez as [-> Hz]. apply guard_or_Ok, Z.leb_le in H. exists z. split; [done|lia].
Qed.

(** C12 A lease crosses the wire unchanged: what the worker makes of the answer to its
    request is the snapshot of the very lease that was granted, with its token. *)
Theorem lease_crosses_the_wire l :
  wire_lease l -> acquire_result (lease_json {| lw_lease := freezeLeaseSnapshot l; lw_token := token l |}) = Ok (remote_of l, token l).
Proof.
  intros [Hrun Hwk Hat Hid Hres [Hatt Hlen] Htok]. destruct (worker_ok _ _ Hwk) as [Hwid (z & Ez & Hz)]. unfold acquire_result, lease_json. cbn [lw_lease lw_token freezeLeaseSnapshot leaseOwner snapshotLeaseId leaseResources leaseAttachments].
  set (m := _ :: _). unfold object_of, mbind, result_bind. cbv beta iota. unfold leaseSnapshot, mbind, result_bind, field_of.
  assert (E1 : jget m (js "runId") = Some (JStr (runId (worker (lessee l))))) by reflexivity. assert (E2 : jget m (js "workerId") = Some (JStr (workerId (worker (lessee l))))) by reflexivity.
  assert (E3 : jget m (js "workerEpoch") = Some (JNum (int z))) by (rewrite <- Ez; reflexivity). assert (E4 : jget m (js "attemptId") = Some (JStr (attemptId (lessee l)))) by reflexivity.
  assert (E5 : jget m (js "leaseId") = Some (JStr (leaseId l))) by reflexivity. assert (E6 : jget m (js "resources") = Some (resources_json (listed (resources l)))) by reflexivity.
  assert (E7 : jget m (js "attachments") = Some (JArr (attachment_json <$> attachments l))) by reflexivity. assert (E8 : jget m (js "token") = Some (JStr (token l))) by reflexivity.
  rewrite E1, E2, E3, E4, E5, E6, E7, E8, (wireId_ok RunEvents.kind_run), (wireId_ok RunEvents.kind_attempt), resources_ok, attachments_ok by (done || (cbn; lia)).
  unfold nonNegativeInteger. rewrite integer_ok, !string_ok by lia. unfold remote_of. rewrite <- Ez. by destruct (lessee l) as [[] ?].
Qed.

(** ** Answers *)

(** A response of the server, as the message it becomes, and what it says. *)
Definition response_json (id : jstring) (answer : result (WireCode * jstring) json) : json :=
  responseEnvelope PROTOCOL_VERSION id match answer with Ok p => Ok p | Err (c, text) => Err (error_json c text) end.
Definition outcome_said (answer : result (WireCode * jstring) json) : Outcome := match answer with Ok p => resolved p | Err (c, _) => rejected c end.

Lemma code_round_trip c : 1 <= Z.of_nat (length (wire_code c)) <= 128 /\
  match code_named BROKER_CODES (wire_code c) with Some b => c = on_broker b | None => c = on_transport (default protocol_error (code_named TRANSPORT_CODES (wire_code c))) end.
Proof. destruct c as [[]|[]]; (split; [vm_compute; split; discriminate|reflexivity]). Qed.

Lemma error_round_trip c text : 1 <= Z.of_nat (length text) <= 2048 -> errorFromWire (error_json c text) = Ok c.
Proof.
  intros Ht. destruct (code_round_trip c) as [Hl Hc]. unfold errorFromWire, error_json, object_of, mbind, result_bind, field_of. set (m := _ :: _).
  assert (E1 : jget m (js "code") = Some (JStr (wire_code c))) by reflexivity. assert (E2 : jget m (js "message") = Some (JStr text)) by reflexivity.
  rewrite E1, E2, !string_ok by done. destruct (code_named BROKER_CODES (wire_code c)); f_equal; symmetry; exact Hc.
Qed.

(** An answer settles the request it names, as the server meant it, and nothing else:
    a result arrives as it is, an error as its code, and neither the other requests nor the
    connection notice. *)
Theorem answers_reach_their_request s id answer :
  good s -> id ∈ ids_of (c_pending s) -> 1 <= Z.of_nat (length id) <= 256 ->
  match answer with Ok _ => True | Err (_, text) => 1 <= Z.of_nat (length text) <= 2048 end ->
  let s' := onResponse (response_json id answer) s in
  promises s' !! id = Some (Some (outcome_said answer)) /\ id ∉ ids_of (c_pending s') /\ c_closed s' = false /\
  (forall k, k <> id -> promises s' !! k = promises s !! k /\ (k ∈ ids_of (c_pending s') <-> k ∈ ids_of (c_pending s))).
Proof.
  intros G Hid Hl Ht. cbv zeta. assert (Hf : exists r, find_pending id s = Some r).
  { unfold find_pending. destruct (List.find _ _) as [r|] eqn:E; [by exists r|]. apply list_elem_of_fmap in Hid as (r & -> & Hr). apply list_elem_of_In in Hr.
    pose proof (List.find_none _ _ E r Hr) as H. cbn in H. breflect. done. }
  destruct Hf as [r Hf]. pose proof (found_open id r s G Hf) as Hc. assert (Hop : opened s id) by (apply (g_open _ _ G Hc); by left).
  assert (E : onResponse (response_json id answer) s = settle id (outcome_said answer) (unpend id s)).
  { unfold onResponse, response_json. rewrite response_round_trip by done. cbn [rs_requestId rs_answer]. rewrite Hf. destruct answer as [p|[c text]]; [done|]. by rewrite error_round_trip. }
  rewrite E. destruct (settle_same id (outcome_said answer) (unpend id s)) as (Ec & Ep & _). rewrite Ec, Ep. cbn [unpend c_closed c_pending set_c_pending].
  assert (Hin : forall k, k ∈ ids_of (List.filter (fun r => negb (bool_decide (cr_id r = id))) (c_pending s)) <-> k <> id /\ k ∈ ids_of (c_pending s)).
  { intros k. rewrite !list_elem_of_fmap. split; [intros (x & -> & Hx)|intros [Hne (x & -> & Hx)]].
    - apply list_elem_of_In, filter_In in Hx as [Hx Hne]. apply negb_true_iff in Hne. breflect. split; [done|]. exists x. split; [done|by apply list_elem_of_In].
    - exists x. split; [done|]. apply list_elem_of_In, filter_In. split; [by apply list_elem_of_In|]. by rewrite bool_decide_eq_false_2. }
  split_and!; [by apply settle_now|rewrite Hin; tauto|done|]. intros k Hne. split; [|rewrite Hin; tauto].
  unfold settle. change (promises (unpend id s)) with (promises s). rewrite Hop. cbn. by rewrite lookup_insert_ne.
Qed.

(** ** Every request is settled *)

Section Settled.
Context (json_parse : jstring -> option (Dto.heap * value)) (stringify : ClientMessage -> jstring) (maxFrameBytes : Z).
Abbreviation run_of es := (client_run json_parse stringify maxFrameBytes es).
Abbreviation next := (client_step json_parse stringify maxFrameBytes).

(** *** The one request that may stay open *)

(** The messages a chunk completes. *)
Definition arrives (s : Client) (chunk : bytes) (v : json) : Prop :=
  v ∈ (collected_push json_parse chunk (c_decoder s, [])).2.2.

(** An answer to the request that is an error which cannot be read. *)
Definition unreadable (v : json) (id : jstring) : Prop :=
  exists m e x, parseResponseEnvelope v PROTOCOL_VERSION 256 = Ok m /\ rs_requestId m = id /\ rs_answer m = Err e /\ errorFromWire e = Err x.

(** While the client was open and waited for the request, such an answer arrived. *)
Definition stranded (es : list ClientEvent) (id : jstring) : Prop :=
  exists es1 chunk es2 v, es = es1 ++ cl_data chunk :: es2 /\ c_closed (run_of es1) = false /\ id ∈ ids_of (c_pending (run_of es1)) /\
    arrives (run_of es1) chunk v /\ unreadable v id.

Lemma collected_grows fuel chunk d out : out `prefix_of` (push_slices json_parse fst collect_put (fun e => e) collect fuel chunk (d, out)).2.2.
Proof.
  revert chunk d out. induction fuel as [|fuel IH]; intros chunk d out; [done|]. cbn [push_slices].
  unfold mbind, method_bind, get, modify. cbn [fst]. destruct (push json_parse _ _) as [[ms|e] d1]; [|done]. rewrite deliver_collect. cbn [fst snd collect_put].
  destruct (_ <=? _)%nat; [by eexists|]. etransitivity; [by eexists|apply IH].
Qed.

Lemma settle_decoder id o s : c_decoder (settle id o s) = c_decoder s.
Proof. unfold settle. by destruct (promises s !! id) as [[x|]|]. Qed.

Lemma fail_decoder e s : c_decoder (failClient e s) = c_decoder s.
Proof.
  unfold failClient. destruct (c_closed s); [done|]. cbn [c_decoder set_c_pending]. change (c_decoder s) with (c_decoder (set_c_socket false (set_c_closed s))).
  generalize (set_c_socket false (set_c_closed s)). induction (c_pending s) as [|r l IH]; intros s1; [done|]. cbn [foldl]. by rewrite IH, settle_decoder.
Qed.

Lemma response_decoder v s : c_decoder (onResponse v s) = c_decoder s.
Proof. unfold onResponse. repeat case_match; by rewrite ?fail_decoder, ?settle_decoder. Qed.

(** What each message of a chunk keeps, the chunk keeps. *)
Lemma chunk_keeps (P : Client -> Prop) fuel chunk s out :
  (forall d s, P s -> P (put_inner d s)) ->
  (forall v s', v ∈ (push_slices json_parse fst collect_put (fun e => e) collect fuel chunk (c_decoder s, out)).2.2 -> P s' -> P (onResponse v s')) ->
  P s -> P (push_slices json_parse c_decoder put_inner (fun e => clientError (local_error e)) (fun v => modify (onResponse v)) fuel chunk s).2.
Proof.
  intros Hput. revert chunk s out. induction fuel as [|fuel IH]; intros chunk s out Hv Hs; [done|]. cbn [push_slices] in *.
  unfold mbind, method_bind, get, modify in *. cbn [fst] in *. unfold slice_length in *. destruct (push json_parse _ _) as [[ms|e] d1]; cbn [snd]; [|by apply Hput].
  rewrite deliver_collect in Hv. cbn [fst snd collect_put] in Hv.
  assert (forall s1, P s1 -> c_decoder s1 = c_decoder (put_inner d1 s) ->
    (forall v, v ∈ m_dto <$> ms -> forall s', P s' -> P (onResponse v s')) ->
    exists s2, deliver (fun v s => (Ok tt, onResponse v s) : result WireCode unit * Client) ms s1 = (Ok tt, s2) /\ P s2 /\ c_decoder s2 = c_decoder (put_inner d1 s)) as Hd.
  { clear. induction ms as [|m ms IH]; intros s1 Hs Ed Hm; [by exists s1|]. cbn [deliver]. unfold mbind, method_bind. apply IH.
    - apply Hm; [by left|done].
    - by rewrite response_decoder.
    - intros v Hv. apply Hm. by right. }
  destruct (Hd (put_inner d1 s)) as (s2 & -> & Hs2 & Ed); [by apply Hput|done|..].
  { intros v Hin s' Hs'. apply Hv; [|done]. destruct (_ <=? _)%nat; cbn [snd]; [apply elem_of_app; by right|].
    eapply elem_of_prefix; [|apply collected_grows]. apply elem_of_app. by right. }
  destruct (_ <=? _)%nat; [done|]. apply (IH _ _ (out ++ (m_dto <$> ms))); [|done]. by rewrite Ed.
Qed.

(** After a chunk a closed client has no open request but one it was told an unreadable
    error for. *)
Definition told (s0 : Client) (chunk : bytes) (s : Client) : Prop :=
  good s /\ (forall k, opened s k -> opened s0 k) /\ (c_closed s = true -> forall k, opened s k -> exists v, arrives s0 chunk v /\ unreadable v k).

Lemma told_fail s0 chunk e s : told s0 chunk s -> told s0 chunk (failClient e s).
Proof.
  intros T. pose proof T as (G & _). destruct (c_closed s) eqn:E; [unfold failClient; by rewrite E|]. split; [by eapply fail_good|].
  split; [intros k Hk|intros _ k Hk]; by destruct (fail_none e s k G E).
Qed.

Lemma told_put s0 chunk d s : told s0 chunk s -> told s0 chunk (put_inner d s).
Proof. intros [G H]. split; [by apply (quiet_good s)|exact H]. Qed.

Lemma told_answer s0 chunk v s : arrives s0 chunk v -> told s0 chunk s -> told s0 chunk (onResponse v s).
Proof.
  intros Hv T. pose proof T as (G & Ho & Hc). unfold onResponse. destruct (parseResponseEnvelope v _ _) as [m|e] eqn:Em; [|by apply told_fail].
  destruct (find_pending (rs_requestId m) s) as [r|] eqn:Hf; [|done]. pose proof (found_open _ _ _ G Hf) as Hopen.
  assert (forall o, told s0 chunk (settle (rs_requestId m) o (unpend (rs_requestId m) s))) as Hsettle.
  { intros o. split; [by apply settle_good|]. split; [intros k [_ H]%settle_opened; by apply Ho|].
    destruct (settle_same (rs_requestId m) o (unpend (rs_requestId m) s)) as (-> & _). cbn. congruence. }
  destruct (rs_answer m) as [p|e] eqn:Ea; [done|]. destruct (errorFromWire e) as [c|x] eqn:Ex; [done|].
  assert (good_but (Some (rs_requestId m)) (unpend (rs_requestId m) s)) as Gu by (apply unpend_stranded; [done..|by eapply found_pending]).
  split; [by eapply fail_good|]. split.
  - intros k Hk. apply Ho. by eapply (fail_opened _ _ _ k Gu).
  - intros _ k Hk. eapply (fail_opened _ _ _ k Gu) in Hk as [[= <-] _]; [|done]. exists v. split; [done|]. by exists m, e, x.
Qed.

Lemma data_told chunk s : good s -> c_closed s = false -> told s chunk (onClientData json_parse chunk s).
Proof.
  intros G Hc. unfold onClientData, local_push. pose proof (chunk_keeps (told s chunk) (S (length chunk)) chunk s []) as H.
  destruct (push_slices _ _ _ _ _ _ _ s) as [[u|e] s1]; cbn [snd] in H; [|apply told_fail]; (apply H; [apply told_put|by intros; apply told_answer|]; split; [done|]; split; [done|congruence]).
Qed.

Lemma request_closes now type given deadline signal s : c_closed (request stringify maxFrameBytes now type given deadline signal s).2 = c_closed s.
Proof.
  unfold request. destruct (c_closed s) eqn:Hc; [done|]. unfold next_id, put_on_wire. repeat case_match; cbn [snd]; rewrite ?(proj1 (settle_same _ _ _)); done.
Qed.

Lemma cancel_closes id e s : c_closed (cancel_request stringify maxFrameBytes id e s) = c_closed s.
Proof.
  unfold cancel_request. destruct (find_pending id s); [|done]. unfold next_id, put_on_wire. repeat case_match; cbn; rewrite ?(proj1 (settle_same _ _ _)); done.
Qed.

(** Only data and the end of the connection close a client. *)
Lemma step_closes s e : c_closed s = false -> c_closed (next s e) = true -> e = cl_error \/ e = cl_close \/ exists chunk, e = cl_data chunk.
Proof.
  intros Hc. destruct e as [now token w deadline signal| |chunk| |id|id|now attempt wanted deadline signal|id|now i given|now i|now| ]; cbn [client_step]; eauto; intros H; exfalso; revert H.
  - rewrite request_closes. congruence.
  - unfold onGreeted. repeat case_match; cbn; congruence.
  - repeat case_match; rewrite ?cancel_closes; congruence.
  - repeat case_match; rewrite ?cancel_closes; congruence.
  - unfold remote_acquire. match goal with |- context [request _ _ ?a ?t ?g ?d ?si s] => pose proof (request_closes a t g d si s); destruct (request stringify maxFrameBytes a t g d si s) as [[o|id] s1] end; cbn in *; congruence.
  - unfold onAnswered. repeat case_match; cbn; congruence.
  - unfold remote_attach. destruct (remote s !! i); [|congruence]. rewrite request_closes. congruence.
  - unfold remote_release. destruct (remote s !! i) as [l|]; [|congruence]. destruct (rl_release l); [congruence|].
    match goal with |- context [request _ _ ?a ?t ?g ?d ?si s] => pose proof (request_closes a t g d si s); destruct (request stringify maxFrameBytes a t g d si s) as [p s1] end; cbn in *; congruence.
  - rewrite request_closes. congruence.
Qed.

(** Nothing opens or settles a request of a closed client. *)
Lemma closed_still s e : good s -> c_closed s = true -> promises (next s e) = promises s.
Proof.
  intros G Hc. pose proof (proj1 (g_closed _ _ G Hc)) as Hp. assert (forall id, find_pending id s = None) as Hf by (intros id; unfold find_pending; by rewrite Hp).
  assert (forall x, failClient x s = s) as Hfail by (intros x; unfold failClient; by rewrite Hc).
  assert (forall a t g d si, request stringify maxFrameBytes a t g d si s = (inl (rejected (on_transport connection_closed)), s)) as Hr by (intros; unfold request; by rewrite Hc).
  destruct e as [now token w deadline signal| |chunk| |id|id|now attempt wanted deadline signal|id|now i given|now i|now| ]; cbn [client_step];
    rewrite ?Hfail, ?Hf; unfold remote_acquire, remote_attach, remote_release; rewrite ?Hr; try done.
  - unfold onGreeted. by repeat case_match.
  - destruct (c_socket s); [|done]. unfold onClientData, local_push.
    pose proof (chunk_keeps (fun s' => promises s' = promises s /\ c_pending s' = [] /\ c_closed s' = true) (S (length chunk)) chunk s []) as H.
    destruct (push_slices _ _ _ _ _ _ _ s) as [[u|x] s1]; cbn [snd] in H.
    + apply H; [done| |done]. intros v s' _ (E & Ep & Ec). unfold onResponse, find_pending, failClient. rewrite Ep, Ec. by destruct (parseResponseEnvelope _ _ _).
    + destruct H as (E & _ & Ec); [done| |done|unfold failClient; by rewrite Ec]. intros v s' _ (E & Ep & Ec). unfold onResponse, find_pending, failClient. rewrite Ep, Ec. by destruct (parseResponseEnvelope _ _ _).
  - unfold onAnswered. by repeat case_match.
  - destruct (remote s !! i); [by rewrite Hr|done].
  - destruct (remote s !! i) as [l|]; [|done]. destruct (rl_release l); [done|by rewrite Hr].
Qed.

Lemma run_snoc es e : run_of (es ++ [e]) = next (run_of es) e.
Proof. unfold client_run. by rewrite foldl_app. Qed.

Lemma stranded_later es e id : stranded es id -> stranded (es ++ [e]) id.
Proof. intros (es1 & chunk & es2 & v & -> & H). exists es1, chunk, (es2 ++ [e]), v. by rewrite <- app_assoc. Qed.

Lemma open_stranded es id : c_closed (run_of es) = true -> opened (run_of es) id -> stranded es id.
Proof.
  induction es as [|e es IH] using rev_ind; [done|]. rewrite run_snoc. pose proof (run_good json_parse stringify maxFrameBytes es) as G.
  destruct (c_closed (run_of es)) eqn:Hc.
  { intros _ Ho. apply stranded_later, IH; [done|]. unfold opened in *. by rewrite closed_still in Ho. }
  intros Hn Ho. destruct (step_closes _ _ Hc Hn) as [->|[->|[chunk ->]]]; [by destruct (fail_none _ _ id G Hc Ho)..|]. cbn [client_step] in *.
  destruct (c_socket (run_of es)); [|congruence]. destruct (data_told chunk _ G Hc) as (_ & Hback & Htold). destruct (Htold Hn id Ho) as (v & Hv & Hu).
  exists es, chunk, [], v. split_and!; try done. apply Hback in Ho. apply (g_open _ _ G Hc) in Ho as [|]; done.
Qed.

(** C10 Every request is settled, once.  However requests, answers, timers, signals and the
    end of the connection follow each other: while the client is open exactly its pending
    requests are open; when the socket ends or the client is closed none is pending any
    more, and a request is still open only if, while it was pending, an answer to it arrived
    that is an error which cannot be read, which can be one request at most; and what has
    been settled never changes. *)
Theorem requests_settle_once es :
  let s := run_of es in
  (c_closed s = false -> forall id, promises s !! id = Some None <-> id ∈ ids_of (c_pending s)) /\
  (c_closed s = true -> c_pending s = [] /\ (forall id, promises s !! id = Some None -> stranded es id) /\
     forall id id', promises s !! id = Some None -> promises s !! id' = Some None -> id = id') /\
  c_closed (next s cl_error) = true /\ c_closed (next s cl_close) = true /\
  forall e id o, promises s !! id = Some (Some o) -> promises (next s e) !! id = Some (Some o).
Proof.
  cbv zeta. pose proof (run_good json_parse stringify maxFrameBytes es) as G. split_and!.
  - intros Hc id. pose proof (g_open _ _ G Hc id) as H. unfold opened in H. rewrite H. split; [intros [|]; done|by left].
  - intros Hc. destruct (g_closed _ _ G Hc). split_and!; [done| |done]. intros id. by apply open_stranded.
  - by eapply fail_good.
  - by eapply fail_good.
  - intros e id o. apply step_good, G.
Qed.
End Settled.

(** ** A worker asks *)

Module Asking.
Definition silent : jstring -> option (Dto.heap * value) := fun _ => None.
Definition open_client : Client := client_run silent (fun _ => []) 64 [cl_snapshot (int 0)].
Definition id : jstring := js "request:1".

(** An error without a text leaves the request it answers open, for ever. *)
Example unread_error_strands : let s := onResponse (response_json id (Err (on_broker queue_full, []))) open_client in (promises s !! id, c_pending s, c_closed s) = (Some None, [], true).
Proof. vm_compute. reflexivity. Qed.

(** What the server says of the connection as a whole concerns no request. *)
Example connection_errors_ignored : onResponse (response_json (js "connection") (Err (on_broker resource_unavailable, js "x"))) open_client = open_client.
Proof. vm_compute. reflexivity. Qed.

Definition uuid4 : string := "00000000-0000-4000-8000-000000000000".
Definition lease : LeaseRecord :=
  {| leaseId := js "lease:1"; token := js "t"; lessee := {| worker := {| runId := js "run:" ++ js uuid4; workerId := js "w"; workerEpoch := int 0 |}; attemptId := js "attempt:" ++ js uuid4 |};
     resources := fun r => if decide (r = ptySession) then 2 else 0; attachments := [{| resource := js "ptySession"; pid := Some (int 7); sessionId := None |}];
     released := false; releasePromise := None |}.
End Asking.

Lemma lease_crosses_the_wire_witness :
  acquire_result (lease_json {| lw_lease := freezeLeaseSnapshot Asking.lease; lw_token := token Asking.lease |}) = Ok (remote_of Asking.lease, token Asking.lease).
Proof.
  apply (lease_crosses_the_wire Asking.lease). constructor.
  - vm_compute. reflexivity.
  - vm_compute. reflexivity.
  - vm_compute. reflexivity.
  - vm_compute. split; discriminate.
  - intros r. unfold max_safe, Asking.lease. cbn [resources]. destruct (decide (r = ptySession)); lia.
  - split; [|cbn; lia]. constructor; [|constructor]. split; [left|]. split; [|done]. intros n [= <-]. exists 7. split; [done|unfold max_safe; lia].
  - vm_compute. split; discriminate.
Defined.

Lemma answers_reach_their_request_witness :
  let s' := onResponse (response_json Asking.id (Err (on_broker queue_full, js "full"))) Asking.open_client in
  promises s' !! Asking.id = Some (Some (rejected (on_broker queue_full))) /\ Asking.id ∉ ids_of (c_pending s') /\ c_closed s' = false /\
  (forall k, k <> Asking.id -> promises s' !! k = promises Asking.open_client !! k /\ (k ∈ ids_of (c_pending s') <-> k ∈ ids_of (c_pending Asking.open_client))).
Proof.
  apply (answers_reach_their_request Asking.open_client Asking.id (Err (on_broker queue_full, js "full"))).
  - exact (run_good Asking.silent (fun _ => []) 64 [cl_snapshot (int 0)]).
  - vm_compute. left.
  - vm_compute. split; discriminate.
  - vm_compute. split; discriminate.
Defined.
