(* ===== verification/ScreenRevisions.v ===== *)
(** * Revisions of the screen (packages/driver/src/vt.ts)

    The emulator publishes a revision for every observable change, remembers when
    each cell last changed, and answers whether a region of the screen is still what
    it was at an earlier revision. *)

From S2P Require Import Prelude JsText GridMatch.

Local Open Scope Z_scope.

(** ** What is observed *)

Record CellLink : Type := { link_uri : jstring; link_id : option jstring; link_truncated : bool }.
Record LinkedCell : Type := { lc_cell : CellSnapshot; lc_link : option CellLink }.

Inductive ActiveBuffer : Set := normal_buffer | alternate_buffer.
Global Instance ActiveBuffer_eq_dec : EqDecision ActiveBuffer.
Proof. solve_decision. Defined.

(** [structural], [cells] and [glyphs] are texts; the first is the serialization of
    everything but the cells. *)
Record ObservableVtState : Type := {
  structural : jstring;
  o_cells : list jstring;
  o_columns : Z;
  o_rows : Z;
  o_buffer : ActiveBuffer;
  viewportY : Z;
  baseY : Z;
  retainedFloor : Z;
  glyphs : list jstring;
}.

(** What the emulator holds when it is observed: the rows of the viewport, the
    serialization of the rest, and the coordinates. *)
Record Terminal : Type := {
  t_rows : list (list LinkedCell);
  t_structural : jstring;
  t_cols : Z;
  t_height : Z;
  t_buffer : ActiveBuffer;
  t_viewportY : Z;
  t_baseY : Z;
  t_retainedFloor : Z;
}.

Definition glyph (c : LinkedCell) : jstring := cell_char (lc_cell c) ++ [0] ++ decimal (cell_width (lc_cell c)).

Inductive PendingObservationEvent : Type :=
| revision_event (revision : Z)
| marker_event (payload : jstring) (screenRevision : Z).

Record VtScreen : Type := {
  revision : Z;
  lastObservedState : ObservableVtState;
  cellLastChangedRevision : list Z;
  cellLastGlyphRevision : list Z;
  globalCoordinateRevision : Z;
  pendingObservationEvents : list PendingObservationEvent;
  delivered : list PendingObservationEvent;
  pendingWriteCount : Z;
  writeInProgress : bool;
  disposed : bool;
}.

Section Screen.
(** [JSON.stringify] of a cell. *)
Context (stringify : LinkedCell -> jstring).

Definition observableState (t : Terminal) : ObservableVtState :=
  {| structural := t_structural t; o_cells := stringify <$> mjoin (t_rows t); o_columns := t_cols t; o_rows := t_height t; o_buffer := t_buffer t;
     viewportY := t_viewportY t; baseY := t_baseY t; retainedFloor := t_retainedFloor t; glyphs := glyph <$> mjoin (t_rows t) |}.

Definition newVtScreen (t : Terminal) : VtScreen :=
  let o := observableState t in
  {| revision := 0; lastObservedState := o; cellLastChangedRevision := replicate (length (o_cells o)) 0;
     cellLastGlyphRevision := replicate (length (o_cells o)) 0; globalCoordinateRevision := 0; pendingObservationEvents := []; delivered := [];
     pendingWriteCount := 0; writeInProgress := false; disposed := false |}.

(** The indices at which two lists of texts differ. *)
Definition differs (before after : list jstring) (i : nat) : bool := negb (bool_decide (before !! i = after !! i)).
Definition changedCells (before after : list jstring) : list nat := List.filter (differs before after) (seq 0 (Nat.max (length before) (length after))).

Definition moved (before after : ObservableVtState) : bool :=
  negb (o_columns before =? o_columns after) || negb (o_rows before =? o_rows after) || negb (bool_decide (o_buffer before = o_buffer after)) ||
  negb (viewportY before =? viewportY after) || negb (baseY before =? baseY after) || negb (retainedFloor before =? retainedFloor after).

(** Marks the cells of some indices with a revision. *)
Definition mark (r : Z) (indices : list nat) (revisions : list Z) : list Z := foldl (fun l i => <[i := r]> l) revisions indices.

(** [#commitObservableState] *)
Definition commitObservableState (t : Terminal) (s : VtScreen) : VtScreen :=
  let before := lastObservedState s in
  let after := observableState t in
  let changed := changedCells (o_cells before) (o_cells after) in
  if bool_decide (structural before = structural after) && bool_decide (changed = []) then s
  else
    let r := revision s + 1 in
    let all := replicate (length (o_cells after)) r in
    let global := moved before after || negb (Nat.eqb (length (cellLastChangedRevision s)) (length (o_cells after))) in
    {| revision := r; lastObservedState := after;
       cellLastChangedRevision := if global then all else mark r changed (cellLastChangedRevision s);
       cellLastGlyphRevision := if global then all else mark r (List.filter (differs (glyphs before) (glyphs after)) changed) (cellLastGlyphRevision s);
       globalCoordinateRevision := if global then r else globalCoordinateRevision s;
       pendingObservationEvents := pendingObservationEvents s ++ [revision_event r]; delivered := delivered s;
       pendingWriteCount := pendingWriteCount s; writeInProgress := writeInProgress s; disposed := disposed s |}.

(** [#flushObservationEvents]; a disposed screen has no listeners. *)
Definition flushObservationEvents (s : VtScreen) : VtScreen :=
  {| revision := revision s; lastObservedState := lastObservedState s; cellLastChangedRevision := cellLastChangedRevision s;
     cellLastGlyphRevision := cellLastGlyphRevision s; globalCoordinateRevision := globalCoordinateRevision s; pendingObservationEvents := [];
     delivered := delivered s ++ (if disposed s then [] else pendingObservationEvents s); pendingWriteCount := pendingWriteCount s;
     writeInProgress := writeInProgress s; disposed := disposed s |}.

Definition writing (count : Z) (inProgress : bool) (s : VtScreen) : VtScreen :=
  {| revision := revision s; lastObservedState := lastObservedState s; cellLastChangedRevision := cellLastChangedRevision s;
     cellLastGlyphRevision := cellLastGlyphRevision s; globalCoordinateRevision := globalCoordinateRevision s;
     pendingObservationEvents := pendingObservationEvents s; delivered := delivered s; pendingWriteCount := pendingWriteCount s + count;
     writeInProgress := inProgress; disposed := disposed s |}.

Definition push_marker (payload : jstring) (s : VtScreen) : VtScreen :=
  {| revision := revision s; lastObservedState := lastObservedState s; cellLastChangedRevision := cellLastChangedRevision s;
     cellLastGlyphRevision := cellLastGlyphRevision s; globalCoordinateRevision := globalCoordinateRevision s;
     pendingObservationEvents := pendingObservationEvents s ++ [marker_event payload (revision s)]; delivered := delivered s;
     pendingWriteCount := pendingWriteCount s; writeInProgress := writeInProgress s; disposed := disposed s |}.

Definition dispose (s : VtScreen) : VtScreen :=
  {| revision := revision s; lastObservedState := lastObservedState s; cellLastChangedRevision := cellLastChangedRevision s;
     cellLastGlyphRevision := cellLastGlyphRevision s; globalCoordinateRevision := globalCoordinateRevision s;
     pendingObservationEvents := pendingObservationEvents s; delivered := delivered s; pendingWriteCount := pendingWriteCount s;
     writeInProgress := writeInProgress s; disposed := true |}.

(** What happens to a screen.  Parsing is the emulator's: each event carries what the
    emulator then holds. *)
Inductive VtEvent : Type :=
| vt_write
| vt_start
| vt_marker (payload : jstring) (t : Terminal)
| vt_written (t : Terminal)
| vt_resize (t : Terminal)
| vt_dispose.

Definition vt_step (s : VtScreen) (e : VtEvent) : VtScreen :=
  match e with
  | vt_write => if disposed s then s else writing 1 (writeInProgress s) s
  | vt_start => if disposed s then writing (-1) (writeInProgress s) s else writing 0 true s
  | vt_marker payload t => push_marker payload (commitObservableState t s)
  | vt_written t => writing (-1) false (flushObservationEvents (commitObservableState t s))
  | vt_resize t =>
      if disposed s then s
      else let s := commitObservableState t s in if writeInProgress s then s else flushObservationEvents s
  | vt_dispose => dispose s
  end.

Definition vt_run (t0 : Terminal) (es : list VtEvent) : VtScreen := foldl vt_step (newVtScreen t0) es.
End Screen.

(** ** Regions *)

Inductive RegionChange : Set := unchanged | styling_changed | glyphs_changed | coordinate_system_moved | span_out_of_range | revision_unknown.
Global Instance RegionChange_eq_dec : EqDecision RegionChange.
Proof. solve_decision. Defined.

(** The cells of one span: whether a glyph, or only some styling, is newer. *)
Fixpoint scan_columns (s : VtScreen) (r : Z) (index : Z) (n : nat) (styled : bool) : option bool :=
  match n with
  | O => Some styled
  | S n =>
      let at_ (l : list Z) := if index <? 0 then revision s else default (revision s) (l !! Z.to_nat index) in
      if r <? at_ (cellLastGlyphRevision s) then None
      else scan_columns s r (index + 1) n (styled || (r <? at_ (cellLastChangedRevision s)))
  end.

Fixpoint scan_spans (s : VtScreen) (cols rows r : Z) (spans : list Tree.Span) (styled : bool) : RegionChange :=
  match spans with
  | [] => if styled then styling_changed else unchanged
  | span :: spans =>
      let y := Tree.sp_row span in let from := Tree.from span in let to := Tree.to span in
      if (y <? 0) || (rows <=? y) || (from <? 0) || (to <? from) || (cols <? to) then span_out_of_range
      else match scan_columns s r (y * cols + from) (Z.to_nat (to - from)) styled with
           | None => glyphs_changed
           | Some styled => scan_spans s cols rows r spans styled
           end
  end.

(** [cols] and [rows] are those of the emulator when it is asked. *)
Definition regionChangeSince (s : VtScreen) (cols rows r : Z) (spans : list Tree.Span) : RegionChange :=
  if (r <? 0) || (revision s <? r) then revision_unknown
  else if r <? globalCoordinateRevision s then coordinate_system_moved
  else scan_spans s cols rows r spans false.

Definition regionUnchangedSince (s : VtScreen) (cols rows r : Z) (spans : list Tree.Span) : bool :=
  bool_decide (regionChangeSince s cols rows r spans = unchanged).
