(* ===== verification/RevisionTheorems.v ===== *)
(** * What revisions promise

    The answer about a region is exact: it tells what happened to the cells of the
    region, and to the coordinates they are named by, at the commits after the
    revision that is asked about. *)

From S2P Require Import Prelude JsText Selectors GridMatch ScreenRevisions.

Local Open Scope Z_scope.

(** ** The states that were published *)

Section Revisions.
Context (stringify : LinkedCell -> jstring).
(** The serialization of a cell keeps its character and its width. *)
Hypothesis stringify_glyph : forall c c', stringify c = stringify c' -> glyph c = glyph c'.
#[local] Abbreviation observe := (observableState stringify).

(** A viewport of as many cells as its size says. *)
Definition grid (t : Terminal) : Prop :=
  0 <= t_cols t /\ 0 <= t_height t /\ length (t_rows t) = Z.to_nat (t_height t) /\ Forall (fun r => length r = Z.to_nat (t_cols t)) (t_rows t).

Definition event_grid (e : VtEvent) : Prop := match e with vt_marker _ t | vt_written t | vt_resize t => grid t | _ => True end.

(** The run together with the state of every revision, the first being that of
    revision zero. *)
Definition record_step (sh : VtScreen * list ObservableVtState) (e : VtEvent) : VtScreen * list ObservableVtState :=
  let s := vt_step stringify sh.1 e in
  (s, if revision s =? revision sh.1 then sh.2 else sh.2 ++ [lastObservedState s]).
Definition recorded (t0 : Terminal) (es : list VtEvent) : VtScreen * list ObservableVtState :=
  foldl record_step (newVtScreen stringify t0, [observe t0]) es.

Lemma recorded_run t0 es : (recorded t0 es).1 = vt_run stringify t0 es.
Proof.
  unfold recorded, vt_run. cut (forall sh, (foldl record_step sh es).1 = foldl (vt_step stringify) sh.1 es); [by intros H; rewrite H|].
  induction es as [|e es IH]; intros sh; [done|]. cbn [foldl]. by rewrite IH.
Qed.

(** ** Changes between successive states *)

Definition changed_at (f : ObservableVtState -> list jstring) (h : list ObservableVtState) (i k : nat) : Prop :=
  exists a b, h !! k = Some a /\ h !! S k = Some b /\ f a !! i <> f b !! i.
Definition moved_at (h : list ObservableVtState) (k : nat) : Prop := exists a b, h !! k = Some a /\ h !! S k = Some b /\ moved a b = true.

(** Something that happens at commits last happened at [r], or not since [floor]. *)
Definition last_at (P : nat -> Prop) (floor r top : Z) : Prop :=
  floor <= r <= top /\ (forall k : nat, r <= Z.of_nat k < top -> ~ P k) /\ (r = floor \/ exists k, P k /\ r = Z.of_nat k + 1).

Record books (h : list ObservableVtState) (s : VtScreen) : Prop := {
  bk_length : revision s = Z.of_nat (length h) - 1;
  bk_last : last h = Some (lastObservedState s);
  bk_observed : Forall (fun o => exists t, grid t /\ o = observe t) h;
  bk_global : last_at (moved_at h) 0 (globalCoordinateRevision s) (revision s);
  bk_cells : length (cellLastChangedRevision s) = length (o_cells (lastObservedState s));
  bk_glyphs : length (cellLastGlyphRevision s) = length (o_cells (lastObservedState s));
  bk_cell : forall i r, cellLastChangedRevision s !! i = Some r -> last_at (changed_at o_cells h i) (globalCoordinateRevision s) r (revision s);
  bk_glyph : forall i r, cellLastGlyphRevision s !! i = Some r -> last_at (changed_at glyphs h i) (globalCoordinateRevision s) r (revision s);
}.

(** ** Marking *)

Lemma mark_length r indices l : length (mark r indices l) = length l.
Proof. revert l. induction indices as [|i indices IH]; intros l; [done|]. cbn. unfold mark in IH. by rewrite IH, length_insert. Qed.
Lemma mark_lookup r indices l i : (i < length l)%nat -> mark r indices l !! i = if decide (i ∈ indices) then Some r else l !! i.
Proof.
  revert l. induction indices as [|j indices IH]; intros l Hi; cbn [mark foldl]; [by rewrite decide_False by apply not_elem_of_nil|].
  change (mark r indices (<[j := r]> l) !! i = if decide (i ∈ j :: indices) then Some r else l !! i). rewrite IH by by rewrite length_insert.
  destruct (decide (i ∈ indices)); [by rewrite decide_True by by right|]. destruct (decide (i = j)) as [->|Hij].
  - rewrite decide_True by left. by apply list_lookup_insert_eq.
  - rewrite decide_False; [by apply list_lookup_insert_ne|]. intros [?|?]%elem_of_cons; done.
Qed.

Lemma changedCells_spec a b i : i ∈ changedCells a b <-> a !! i <> b !! i.
Proof.
  unfold changedCells. rewrite list_elem_of_In, filter_In, <- list_elem_of_In, elem_of_seq. unfold differs. rewrite negb_true_iff, bool_decide_eq_false.
  split; [by intros [_ ?]|]. intros H. split; [|done]. destruct (decide (i < Nat.max (length a) (length b))%nat); [lia|].
  exfalso. apply H. by rewrite !lookup_ge_None_2 by lia.
Qed.

(** ** Observations of a grid *)

Lemma join_length (rows : list (list LinkedCell)) n : Forall (fun r => length r = n) rows -> length (mjoin rows) = (length rows * n)%nat.
Proof. induction 1 as [|r rows Hr _ IH]; [done|]. change (length (r ++ mjoin rows) = (S (length rows) * n)%nat). by rewrite length_app, Hr, IH. Qed.

Lemma observed_length t : grid t -> Z.of_nat (length (o_cells (observe t))) = o_columns (observe t) * o_rows (observe t).
Proof. intros (? & ? & Hl & Hr). cbn. rewrite length_fmap, (join_length _ _ Hr), Hl. lia. Qed.

Lemma observed_glyph t t' i : o_cells (observe t) !! i = o_cells (observe t') !! i -> glyphs (observe t) !! i = glyphs (observe t') !! i.
Proof.
  cbn. rewrite !list_lookup_fmap. destruct (mjoin (t_rows t) !! i), (mjoin (t_rows t') !! i); cbn; try done. intros [= H]. f_equal. by apply stringify_glyph.
Qed.

Lemma unmoved_length t t' : grid t -> grid t' -> moved (observe t) (observe t') = false -> length (o_cells (observe t)) = length (o_cells (observe t')).
Proof.
  intros H H' Hm. apply observed_length in H, H'. unfold moved in Hm. rewrite !orb_false_iff, !negb_false_iff, !Z.eqb_eq in Hm. destruct Hm as [[[[[Hc Hr] _] _] _] _]. nia.
Qed.

(** ** One commit *)

Lemma last_lookup (h : list ObservableVtState) o : last h = Some o -> h !! (length h - 1)%nat = Some o.
Proof. intros H. rewrite last_lookup in H. replace (length h - 1)%nat with (Nat.pred (length h)) by lia. exact H. Qed.

(** What happened before a commit still did, and at the commit [P] happens or not. *)
Lemma last_at_keep (P P' : nat -> Prop) floor r (n : nat) :
  (forall k : nat, (k < n)%nat -> P' k <-> P k) -> ~ P' n -> last_at P floor r (Z.of_nat n) -> last_at P' floor r (Z.of_nat n + 1).
Proof.
  intros Hsame Hn (Hr & Hnone & Hlast). split; [lia|]. split.
  - intros k Hk. destruct (decide (k = n)) as [->|]; [done|]. rewrite Hsame by lia. apply Hnone. lia.
  - destruct Hlast as [?|(k & Hk & ->)]; [by left|]. right. exists k. split; [|done]. apply Hsame; [lia|done].
Qed.
Lemma last_at_now (P : nat -> Prop) floor (n : nat) : floor <= Z.of_nat n + 1 -> P n -> last_at P floor (Z.of_nat n + 1) (Z.of_nat n + 1).
Proof. intros Hf Hn. split; [lia|]. split; [lia|]. right. by exists n. Qed.
Lemma last_at_floor (P : nat -> Prop) r : last_at P r r r.
Proof. split; [lia|]. split; [lia|]. by left. Qed.

Lemma changed_at_snoc f h o i k : (S k < length h)%nat -> changed_at f (h ++ [o]) i k <-> changed_at f h i k.
Proof. intros Hk. unfold changed_at. by rewrite !lookup_app_l by lia. Qed.
Lemma moved_at_snoc h o k : (S k < length h)%nat -> moved_at (h ++ [o]) k <-> moved_at h k.
Proof. intros Hk. unfold moved_at. by rewrite !lookup_app_l by lia. Qed.

Lemma changed_at_last f h a o i : last h = Some a -> changed_at f (h ++ [o]) i (length h - 1) <-> f a !! i <> f o !! i.
Proof.
  intros Ha. pose proof (last_lookup h a Ha) as Hl. assert (0 < length h)%nat by by destruct h; [|cbn; lia].
  unfold changed_at. rewrite lookup_app_l by lia. rewrite Hl. replace (S (length h - 1)) with (length h) by lia. rewrite lookup_app_r, Nat.sub_diag by lia. cbn.
  split; [intros (a' & b & [= <-] & [= <-] & H'); exact H'|intros H'; by exists a, o].
Qed.
Lemma moved_at_last h a o : last h = Some a -> moved_at (h ++ [o]) (length h - 1) <-> moved a o = true.
Proof.
  intros Ha. pose proof (last_lookup h a Ha) as Hl. assert (0 < length h)%nat by by destruct h; [|cbn; lia].
  unfold moved_at. rewrite lookup_app_l by lia. rewrite Hl. replace (S (length h - 1)) with (length h) by lia. rewrite lookup_app_r, Nat.sub_diag by lia. cbn.
  split; [intros (a' & b & [= <-] & [= <-] & H'); exact H'|intros H'; by exists a, o].
Qed.

Lemma commit_quiet t s :
  bool_decide (structural (lastObservedState s) = structural (observe t)) && bool_decide (changedCells (o_cells (lastObservedState s)) (o_cells (observe t)) = []) = true ->
  commitObservableState stringify t s = s.
Proof. intros H. unfold commitObservableState. by rewrite H. Qed.

Lemma books_observed h s : books h s -> exists t, grid t /\ lastObservedState s = observe t.
Proof.
  intros B. pose proof (last_lookup _ _ (bk_last _ _ B)) as Hl. exact (proj1 (Forall_lookup _ _) (bk_observed _ _ B) _ _ Hl).
Qed.

(** The marks of one commit, for the cells or for the glyphs. *)
Lemma marked_last_at f h a o indices l floor :
  last h = Some a -> (forall i, i ∈ indices <-> f a !! i <> f o !! i) -> floor <= Z.of_nat (length h - 1) ->
  (forall i r, l !! i = Some r -> last_at (changed_at f h i) floor r (Z.of_nat (length h - 1))) ->
  forall i r, mark (Z.of_nat (length h - 1) + 1) indices l !! i = Some r -> last_at (changed_at f (h ++ [o]) i) floor r (Z.of_nat (length h - 1) + 1).
Proof.
  intros Ha Hidx Hfloor Hl i r Hi. assert (Hb : (i < length l)%nat) by (rewrite <- (mark_length (Z.of_nat (length h - 1) + 1) indices); by eapply lookup_lt_Some).
  rewrite (mark_lookup _ _ _ _ Hb) in Hi. destruct (decide (i ∈ indices)) as [Hin|Hout].
  - injection Hi as <-. apply last_at_now; [lia|]. rewrite (changed_at_last f h a o i Ha). by apply Hidx.
  - eapply last_at_keep; [| |exact (Hl i r Hi)].
    + intros k Hk. apply changed_at_snoc. lia.
    + rewrite (changed_at_last f h a o i Ha). by rewrite <- Hidx.
Qed.

Lemma cells_exact (s : VtScreen) t i : i ∈ changedCells (o_cells (lastObservedState s)) (o_cells (observe t)) <-> o_cells (lastObservedState s) !! i <> o_cells (observe t) !! i.
Proof. apply changedCells_spec. Qed.
Lemma glyphs_exact t t' i :
  i ∈ List.filter (differs (glyphs (observe t)) (glyphs (observe t'))) (changedCells (o_cells (observe t)) (o_cells (observe t'))) <-> glyphs (observe t) !! i <> glyphs (observe t') !! i.
Proof.
  rewrite list_elem_of_In, filter_In, <- list_elem_of_In, changedCells_spec. unfold differs. rewrite negb_true_iff, bool_decide_eq_false.
  split; [by intros [_ ?]|]. intros H. split; [|done]. intros Hc. apply H. by apply observed_glyph.
Qed.

Lemma replicate_last_at (P : nat -> nat -> Prop) r n i x : replicate n r !! i = Some x -> last_at (P i) r x r.
Proof. intros [-> _]%lookup_replicate. apply last_at_floor. Qed.

Lemma commit_observed h s t : grid t -> books h s -> Forall (fun o => exists t, grid t /\ o = observe t) (h ++ [observe t]).
Proof. intros Ht B. apply Forall_app. split; [exact (bk_observed _ _ B)|]. constructor; [by exists t|constructor]. Qed.

Lemma commit_books t h s :
  grid t -> books h s ->
  let s' := commitObservableState stringify t s in
  books (if revision s' =? revision s then h else h ++ [lastObservedState s']) s'.
Proof.
  intros Ht B. destruct (bool_decide (structural (lastObservedState s) = structural (observe t)) && bool_decide (changedCells (o_cells (lastObservedState s)) (o_cells (observe t)) = [])) eqn:Hq.
  { cbn zeta. rewrite (commit_quiet _ _ Hq), Z.eqb_refl. exact B. }
  cbn zeta. unfold commitObservableState. rewrite Hq. cbn [revision lastObservedState].
  destruct (Z.eqb_spec (revision s + 1) (revision s)) as [?|_]; [lia|].
  destruct (books_observed _ _ B) as (t' & Ht' & Ho).
  pose proof (bk_length _ _ B) as Hrev. pose proof (bk_last _ _ B) as Hlast. pose proof (bk_global _ _ B) as Hglob.
  assert (Hne : (0 < length h)%nat) by (destruct h; [done|cbn; lia]).
  assert (Hrev' : revision s = Z.of_nat (length h - 1)) by lia. rewrite Hrev' in Hglob.
  pose proof (bk_cell _ _ B) as Hcell. pose proof (bk_glyph _ _ B) as Hglyph. pose proof (bk_cells _ _ B) as Hcl. pose proof (bk_glyphs _ _ B) as Hgl.
  assert (Hlen : revision s + 1 = Z.of_nat (length (h ++ [observe t])) - 1) by (rewrite length_app; cbn; lia).
  rewrite Ho in *. rewrite Hrev' in *.
  destruct (moved (observe t') (observe t)) eqn:Hm.
  - rewrite orb_true_l. constructor; cbn [revision lastObservedState cellLastChangedRevision cellLastGlyphRevision globalCoordinateRevision];
      [exact Hlen|apply last_snoc|by eapply commit_observed|..].
    + apply last_at_now; [lia|]. by apply (moved_at_last h (observe t')).
    + apply length_replicate.
    + apply length_replicate.
    + intros i r. apply replicate_last_at.
    + intros i r. apply replicate_last_at.
  - assert (Hsame : length (o_cells (observe t')) = length (o_cells (observe t))) by by apply unmoved_length.
    rewrite Hcl, Hsame, Nat.eqb_refl. cbn [orb negb].
    assert (Hfloor : globalCoordinateRevision s <= Z.of_nat (length h - 1)) by (destruct Hglob as [? _]; lia).
    constructor; cbn [revision lastObservedState cellLastChangedRevision cellLastGlyphRevision globalCoordinateRevision];
      [exact Hlen|apply last_snoc|by eapply commit_observed|..].
    + eapply last_at_keep; [|rewrite (moved_at_last _ _ _ Hlast), Hm; done|exact Hglob]. intros k Hk. apply moved_at_snoc. lia.
    + by rewrite mark_length, Hcl.
    + by rewrite mark_length, Hgl.
    + apply (marked_last_at o_cells h (observe t')); [done| |done|done]. intros i. apply changedCells_spec.
    + apply (marked_last_at glyphs h (observe t')); [done| |done|done]. intros i. apply glyphs_exact.
Qed.

(** ** Every event keeps the books *)

(** The books do not depend on what is pending, delivered or counted. *)
Definition same_books (s s' : VtScreen) : Prop :=
  revision s' = revision s /\ lastObservedState s' = lastObservedState s /\ cellLastChangedRevision s' = cellLastChangedRevision s /\
  cellLastGlyphRevision s' = cellLastGlyphRevision s /\ globalCoordinateRevision s' = globalCoordinateRevision s.

Lemma same_books_keep h s s' : same_books s s' -> books h s -> books h s'.
Proof.
  intros (Hr & Hl & Hc & Hg & Hcoord) B. destruct B as [B1 B2 B3 B4 B5 B6 B7 B8].
  constructor; rewrite ?Hr, ?Hl, ?Hc, ?Hg, ?Hcoord; done.
Qed.

(** An event is at most one commit, and bookkeeping. *)
Lemma step_commits s e :
  same_books s (vt_step stringify s e) \/ exists t, (event_grid e -> grid t) /\ same_books (commitObservableState stringify t s) (vt_step stringify s e).
Proof.
  destruct e as [| |payload t|t|t|]; cbn [vt_step event_grid].
  - left. by destruct (disposed s).
  - left. by destruct (disposed s).
  - right. by exists t.
  - right. by exists t.
  - destruct (disposed s); [by left|]. right. exists t. split; [done|]. cbn zeta. by destruct (writeInProgress (commitObservableState stringify t s)).
  - by left.
Qed.

Lemma record_step_books h s e : event_grid e -> books h s -> books (record_step (s, h) e).2 (record_step (s, h) e).1.
Proof.
  intros He B. unfold record_step. cbn [fst snd]. destruct (step_commits s e) as [Hsame|(t & Ht & Hsame)].
  - pose proof Hsame as (Hr & _). rewrite Hr, Z.eqb_refl. by apply (same_books_keep h s).
  - pose proof Hsame as (Hr & Hl & _). rewrite Hr, Hl. eapply same_books_keep; [exact Hsame|]. apply commit_books; [by apply Ht|done].
Qed.

Lemma new_books t : grid t -> books [observe t] (newVtScreen stringify t).
Proof.
  intros Ht. constructor; cbn [newVtScreen revision lastObservedState cellLastChangedRevision cellLastGlyphRevision globalCoordinateRevision].
  - done.
  - done.
  - constructor; [by exists t|constructor].
  - apply last_at_floor.
  - apply length_replicate.
  - rewrite length_replicate. done.
  - intros i r. apply replicate_last_at.
  - intros i r. apply replicate_last_at.
Qed.

Lemma recorded_books t0 es : grid t0 -> Forall event_grid es -> books (recorded t0 es).2 (recorded t0 es).1.
Proof.
  intros Ht Hes. unfold recorded. assert (B : books (newVtScreen stringify t0, [observe t0]).2 (newVtScreen stringify t0, [observe t0]).1) by by apply new_books.
  revert B. generalize (newVtScreen stringify t0, [observe t0]). induction Hes as [|e es He _ IH]; intros [s h] B; [done|].
  cbn [foldl]. apply IH. by apply record_step_books.
Qed.

(** ** What the answer says *)

Lemma last_at_newer (P : nat -> Prop) floor x top r :
  (forall k, P k -> Z.of_nat k < top) -> floor <= r -> last_at P floor x top -> r < x <-> exists k : nat, r <= Z.of_nat k /\ P k.
Proof.
  intros Hbound Hr (Hx & Hnone & Hlast). split.
  - intros Hlt. destruct Hlast as [?|(k & Hk & ->)]; [lia|]. exists k. split; [lia|done].
  - intros (k & Hk & HP). destruct (Z.lt_ge_cases r x) as [?|Hge]; [done|]. exfalso. apply (Hnone k); [|done]. specialize (Hbound k HP). lia.
Qed.

Lemma changed_at_bound f h s i k : books h s -> changed_at f h i k -> Z.of_nat k < revision s.
Proof. intros B (a & b & _ & Hb & _). apply lookup_lt_Some in Hb. rewrite (bk_length _ _ B). lia. Qed.
Lemma moved_at_bound h s k : books h s -> moved_at h k -> Z.of_nat k < revision s.
Proof. intros B (a & b & _ & Hb & _). apply lookup_lt_Some in Hb. rewrite (bk_length _ _ B). lia. Qed.

Definition newer (l : list Z) (r : Z) (i : nat) : Prop := exists x, l !! i = Some x /\ r < x.

Lemma newer_cell h s r i :
  books h s -> globalCoordinateRevision s <= r -> newer (cellLastChangedRevision s) r i -> exists k : nat, r <= Z.of_nat k /\ changed_at o_cells h i k.
Proof.
  intros B Hr (x & Hx & Hlt). eapply (last_at_newer (changed_at o_cells h i)); [intros k Hk; by eapply changed_at_bound|exact Hr|exact (bk_cell _ _ B _ _ Hx)|exact Hlt].
Qed.
Lemma newer_glyph h s r i :
  books h s -> globalCoordinateRevision s <= r -> newer (cellLastGlyphRevision s) r i -> exists k : nat, r <= Z.of_nat k /\ changed_at glyphs h i k.
Proof.
  intros B Hr (x & Hx & Hlt). eapply (last_at_newer (changed_at glyphs h i)); [intros k Hk; by eapply changed_at_bound|exact Hr|exact (bk_glyph _ _ B _ _ Hx)|exact Hlt].
Qed.
Lemma cell_newer h s r i k :
  books h s -> globalCoordinateRevision s <= r -> (i < length (cellLastChangedRevision s))%nat -> r <= Z.of_nat k -> changed_at o_cells h i k -> newer (cellLastChangedRevision s) r i.
Proof.
  intros B Hr Hi Hk Hch. destruct (lookup_lt_is_Some_2 _ _ Hi) as [x Hx]. exists x. split; [done|].
  eapply (last_at_newer (changed_at o_cells h i)); [intros j Hj; by eapply changed_at_bound|exact Hr|exact (bk_cell _ _ B _ _ Hx)|by exists k].
Qed.
Lemma glyph_newer h s r i k :
  books h s -> globalCoordinateRevision s <= r -> (i < length (cellLastGlyphRevision s))%nat -> r <= Z.of_nat k -> changed_at glyphs h i k -> newer (cellLastGlyphRevision s) r i.
Proof.
  intros B Hr Hi Hk Hch. destruct (lookup_lt_is_Some_2 _ _ Hi) as [x Hx]. exists x. split; [done|].
  eapply (last_at_newer (changed_at glyphs h i)); [intros j Hj; by eapply changed_at_bound|exact Hr|exact (bk_glyph _ _ B _ _ Hx)|by exists k].
Qed.

(** What shows the same at every commit from [r] on shows what it shows now. *)
Lemma steady f h i r now :
  last h = Some now -> (forall k : nat, r <= Z.of_nat k -> ~ changed_at f h i k) -> forall (k : nat) o, r <= Z.of_nat k -> h !! k = Some o -> f o !! i = f now !! i.
Proof.
  intros Hnow Hno. assert (Hdown : forall n (k : nat) o, (length h - 1 - k = n)%nat -> r <= Z.of_nat k -> h !! k = Some o -> f o !! i = f now !! i).
  { induction n as [|n IH]; intros k o Hn Hk Ho; pose proof (lookup_lt_Some _ _ _ Ho) as Hlt.
    - pose proof (last_lookup _ _ Hnow) as Hl. replace k with (length h - 1)%nat in Ho by lia. congruence.
    - destruct (lookup_lt_is_Some_2 h (S k)) as [o' Ho']; [lia|]. rewrite <- (IH (S k) o') by (done || lia).
      destruct (decide (f o !! i = f o' !! i)) as [?|Hne]; [done|]. exfalso. apply (Hno k Hk). by exists o, o'. }
  intros k o. exact (Hdown _ k o eq_refl).
Qed.

(** ** The scan *)

Definition span_inside (cols rows : Z) (span : Tree.Span) : Prop :=
  0 <= Tree.sp_row span < rows /\ 0 <= Tree.from span <= Tree.to span /\ Tree.to span <= cols.
(** The cells of a region, by their index. *)
Definition span_cell (cols : Z) (span : Tree.Span) (i : nat) : Prop := exists x, Tree.from span <= x < Tree.to span /\ i = Z.to_nat (Tree.sp_row span * cols + x).
Definition region_cell (cols : Z) (spans : list Tree.Span) (i : nat) : Prop := Exists (fun span => span_cell cols span i) spans.

Lemma scan_columns_spec s r n : forall start styled,
  0 <= start -> start + Z.of_nat n <= Z.of_nat (length (cellLastChangedRevision s)) -> length (cellLastGlyphRevision s) = length (cellLastChangedRevision s) ->
  let inside i := start <= Z.of_nat i < start + Z.of_nat n in
  match scan_columns s r start n styled with
  | None => exists i, inside i /\ newer (cellLastGlyphRevision s) r i
  | Some styled' =>
      (forall i, inside i -> ~ newer (cellLastGlyphRevision s) r i) /\
      (styled' = true <-> styled = true \/ exists i, inside i /\ newer (cellLastChangedRevision s) r i)
  end.
Proof.
  induction n as [|n IH]; intros start styled H0 Hend Hlen; cbn zeta in *; cbn [scan_columns].
  - split; [intros i Hi; lia|]. split; [by left|]. intros [?|(i & Hi & _)]; [done|lia].
  - rewrite (proj2 (Z.ltb_ge start 0)) by lia.
    destruct (lookup_lt_is_Some_2 (cellLastGlyphRevision s) (Z.to_nat start)) as [g Hg]; [lia|].
    destruct (lookup_lt_is_Some_2 (cellLastChangedRevision s) (Z.to_nat start)) as [c Hc]; [lia|].
    rewrite Hg, Hc. cbn [default id]. destruct (Z.ltb_spec r g) as [Hlt|Hge].
    { exists (Z.to_nat start). split; [lia|]. by exists g. }
    specialize (IH (start + 1) (styled || (r <? c)) ltac:(lia) ltac:(lia) Hlen).
    destruct (scan_columns s r (start + 1) n (styled || (r <? c))) as [styled'|].
    + destruct IH as [Hnone Hstyled]. split.
      * intros i Hi. destruct (decide (i = Z.to_nat start)) as [->|]; [|apply Hnone; lia]. intros (x & Hx & Hlt). rewrite Hg in Hx. injection Hx as <-. lia.
      * rewrite Hstyled, orb_true_iff, Z.ltb_lt. split.
        -- intros [[?|Hlt]|(i & Hi & Hn)]; [by left|right; exists (Z.to_nat start); split; [lia|by exists c]|right; exists i; split; [lia|done]].
        -- intros [?|(i & Hi & Hn)]; [by left; left|]. destruct (decide (i = Z.to_nat start)) as [->|].
           ++ left. right. destruct Hn as (x & Hx & Hlt). rewrite Hc in Hx. by injection Hx as <-.
           ++ right. exists i. split; [lia|done].
    + destruct IH as (i & Hi & Hn). exists i. split; [lia|done].
Qed.

Lemma scan_spans_spec s cols rows r spans : forall styled,
  Z.of_nat (length (cellLastChangedRevision s)) = cols * rows -> length (cellLastGlyphRevision s) = length (cellLastChangedRevision s) ->
  Forall (span_inside cols rows) spans ->
  match scan_spans s cols rows r spans styled with
  | glyphs_changed => exists i, region_cell cols spans i /\ newer (cellLastGlyphRevision s) r i
  | styling_changed =>
      (forall i, region_cell cols spans i -> ~ newer (cellLastGlyphRevision s) r i) /\
      (styled = true \/ exists i, region_cell cols spans i /\ newer (cellLastChangedRevision s) r i)
  | unchanged =>
      styled = false /\ (forall i, region_cell cols spans i -> ~ newer (cellLastGlyphRevision s) r i) /\
      (forall i, region_cell cols spans i -> ~ newer (cellLastChangedRevision s) r i)
  | _ => False
  end.
Proof.
  intros styled Hlen Hg Hin. revert styled. induction Hin as [|span spans Hsp _ IH]; intros styled; cbn [scan_spans].
  { destruct styled; [split; [|by left]|split; [done|split]]; intros i Hi; by inversion Hi. }
  destruct Hsp as (Hrow & Hfrom & Hto).
  rewrite (proj2 (Z.ltb_ge (Tree.sp_row span) 0)), (proj2 (Z.leb_gt rows (Tree.sp_row span))), (proj2 (Z.ltb_ge (Tree.from span) 0)),
    (proj2 (Z.ltb_ge (Tree.to span) (Tree.from span))), (proj2 (Z.ltb_ge cols (Tree.to span))) by lia. cbn [orb].
  pose proof (scan_columns_spec s r (Z.to_nat (Tree.to span - Tree.from span)) (Tree.sp_row span * cols + Tree.from span) styled) as Hspan.
  cbn zeta in Hspan. rewrite Z2Nat.id in Hspan by lia. specialize (Hspan ltac:(nia) ltac:(nia) Hg).
  assert (Hcells : forall i, Tree.sp_row span * cols + Tree.from span <= Z.of_nat i < Tree.sp_row span * cols + Tree.from span + (Tree.to span - Tree.from span) <-> span_cell cols span i).
  { intros i. split; [intros Hi; exists (Z.of_nat i - Tree.sp_row span * cols); split; lia|]. intros (x & Hx & ->). rewrite Z2Nat.id by nia. lia. }
  destruct (scan_columns s r _ _ styled) as [styled'|].
  - destruct Hspan as [Hnone Hstyled]. specialize (IH styled'). destruct (scan_spans s cols rows r spans styled'); try done.
    + destruct IH as (-> & Hno & Hnoc). assert (Hst : ~ (styled = true \/ exists i, span_cell cols span i /\ newer (cellLastChangedRevision s) r i)).
      { intros H. assert (false = true) as [=]. apply Hstyled. destruct H as [?|(i & Hi & Hn)]; [by left|]. right. exists i. split; [by apply Hcells|done]. }
      split; [destruct styled; [exfalso; apply Hst; by left|done]|]. split; intros i [Hi|Hi]%Exists_cons.
      * apply Hnone. by apply Hcells.
      * by apply Hno.
      * intros Hn. apply Hst. right. by exists i.
      * exact (Hnoc _ Hi).
    + destruct IH as (Hno & Hst). split.
      * intros i [Hi|Hi]%Exists_cons; [apply Hnone; by apply Hcells|by apply Hno].
      * destruct Hst as [->|(i & Hi & Hn)]; [|right; exists i; split; [by apply Exists_cons_tl|done]].
        pose proof (proj1 Hstyled eq_refl) as Hst'; destruct Hst' as [?|(i & Hi & Hn)]; [by left|]. right. exists i. split; [apply Exists_cons_hd; by apply Hcells|done].
    + destruct IH as (i & Hi & Hn). exists i. split; [by apply Exists_cons_tl|done].
  - destruct Hspan as (i & Hi & Hn). exists i. split; [apply Exists_cons_hd; by apply Hcells|done].
Qed.

Lemma moved_since h s r : books h s -> 0 <= r -> r < globalCoordinateRevision s <-> exists k : nat, r <= Z.of_nat k /\ moved_at h k.
Proof. intros B Hr. eapply last_at_newer; [intros k; by apply moved_at_bound|exact Hr|exact (bk_global _ _ B)]. Qed.

(** A cell that is not newer is what it was. *)
Lemma cell_steady h s r i :
  books h s -> globalCoordinateRevision s <= r -> (i < length (cellLastChangedRevision s))%nat -> ~ newer (cellLastChangedRevision s) r i ->
  forall (k : nat) o, r <= Z.of_nat k -> h !! k = Some o -> o_cells o !! i = o_cells (lastObservedState s) !! i.
Proof. intros B Hr Hi Hn. apply steady; [exact (bk_last _ _ B)|]. intros k Hk Hch. apply Hn. by apply (cell_newer h s r i k). Qed.
Lemma glyph_steady h s r i :
  books h s -> globalCoordinateRevision s <= r -> (i < length (cellLastGlyphRevision s))%nat -> ~ newer (cellLastGlyphRevision s) r i ->
  forall (k : nat) o, r <= Z.of_nat k -> h !! k = Some o -> glyphs o !! i = glyphs (lastObservedState s) !! i.
Proof. intros B Hr Hi Hn. apply steady; [exact (bk_last _ _ B)|]. intros k Hk Hch. apply Hn. by apply (glyph_newer h s r i k). Qed.

Lemma region_cell_inside cols rows spans i : Forall (span_inside cols rows) spans -> region_cell cols spans i -> Z.of_nat i < cols * rows.
Proof.
  intros Hin Hex. apply Exists_exists in Hex as (span & Hsp & x & Hx & ->). rewrite Forall_forall in Hin. destruct (Hin _ Hsp) as (? & ? & ?). rewrite Z2Nat.id by nia. nia.
Qed.

Lemma books_size h s : books h s -> Z.of_nat (length (cellLastChangedRevision s)) = o_columns (lastObservedState s) * o_rows (lastObservedState s).
Proof. intros B. rewrite (bk_cells _ _ B). destruct (books_observed _ _ B) as (t & Ht & ->). by apply observed_length. Qed.
End Revisions.

(** What the screen showed when each revision was published. *)
Definition published (stringify : LinkedCell -> jstring) (t0 : Terminal) (es : list VtEvent) : list ObservableVtState := (recorded stringify t0 es).2.

(** C16 [regionChangeSince] answers exactly what happened to a region since a revision.
    Whatever was written and however the terminal was resized, for a revision that was
    published and spans inside the screen it says that the coordinates moved just when
    the size, the buffer or the scroll position changed at a later commit; and
    otherwise that a glyph changed just when some cell of the region changed its glyph
    at a later commit, that only the styling did just when no glyph did and some cell
    changed, and that nothing did just when every cell of the region was, at every
    revision since, what it is now. *)
Theorem region_answers_exact (stringify : LinkedCell -> jstring) (t0 : Terminal) (es : list VtEvent) (r : Z) (spans : list Tree.Span) :
  (forall c c', stringify c = stringify c' -> glyph c = glyph c') ->
  grid t0 -> Forall event_grid es ->
  let s := vt_run stringify t0 es in
  let now := lastObservedState s in
  let h := published stringify t0 es in
  0 <= r <= revision s -> Forall (span_inside (o_columns now) (o_rows now)) spans ->
  last h = Some now /\ revision s = Z.of_nat (length h) - 1 /\
  match regionChangeSince s (o_columns now) (o_rows now) r spans with
  | coordinate_system_moved => exists k : nat, r <= Z.of_nat k /\ moved_at h k
  | glyphs_changed =>
      (forall k : nat, r <= Z.of_nat k -> ~ moved_at h k) /\
      (exists i, region_cell (o_columns now) spans i /\ exists k : nat, r <= Z.of_nat k /\ changed_at glyphs h i k)
  | styling_changed =>
      (forall k : nat, r <= Z.of_nat k -> ~ moved_at h k) /\
      (forall i, region_cell (o_columns now) spans i -> forall (k : nat) o, r <= Z.of_nat k -> h !! k = Some o -> glyphs o !! i = glyphs now !! i) /\
      (exists i, region_cell (o_columns now) spans i /\ exists k : nat, r <= Z.of_nat k /\ changed_at o_cells h i k)
  | unchanged =>
      (forall k : nat, r <= Z.of_nat k -> ~ moved_at h k) /\
      (forall i, region_cell (o_columns now) spans i -> forall (k : nat) o, r <= Z.of_nat k -> h !! k = Some o ->
        o_cells o !! i = o_cells now !! i /\ glyphs o !! i = glyphs now !! i)
  | _ => False
  end.
Proof.
  intros Hstr Ht0 Hes s now h Hr Hspans. pose proof (recorded_books stringify Hstr t0 es Ht0 Hes) as B.
  rewrite recorded_run in B. change (recorded stringify t0 es).2 with h in B. change (vt_run stringify t0 es) with s in B.
  split; [exact (bk_last _ _ _ B)|]. split; [exact (bk_length _ _ _ B)|].
  unfold regionChangeSince. rewrite (proj2 (Z.ltb_ge r 0)), (proj2 (Z.ltb_ge (revision s) r)) by lia. cbn [orb].
  pose proof (books_size _ _ _ B) as Hsize. pose proof (eq_trans (bk_glyphs _ _ _ B) (eq_sym (bk_cells _ _ _ B))) as Hlen.
  destruct (Z.ltb_spec r (globalCoordinateRevision s)) as [Hlt|Hge]; [exact (proj1 (moved_since stringify h s r B (proj1 Hr)) Hlt)|].
  assert (Hstill : forall k : nat, r <= Z.of_nat k -> ~ moved_at h k).
  { intros k Hk Hm. assert (r < globalCoordinateRevision s); [|lia]. apply (moved_since stringify h s r B (proj1 Hr)). by exists k. }
  assert (Hi : forall i, region_cell (o_columns now) spans i -> (i < length (cellLastChangedRevision s))%nat).
  { intros i Hi. apply (region_cell_inside _ _ _ _ Hspans) in Hi. fold now in Hsize. lia. }
  pose proof (scan_spans_spec s _ _ r spans false Hsize Hlen Hspans) as Hscan. fold now in Hscan.
  destruct (scan_spans s (o_columns now) (o_rows now) r spans false); try done.
  - destruct Hscan as (_ & Hg & Hc). split; [done|]. intros i Hcell k o Hk Ho.
    split; [by apply (cell_steady stringify h s r i B Hge (Hi i Hcell) (Hc i Hcell) k)|apply (glyph_steady stringify h s r i B Hge) with (k := k); [rewrite Hlen; by apply Hi|by apply Hg|done..]].
  - destruct Hscan as (Hg & [[=]|(i & Hcell & Hn)]). split; [done|]. split.
    + intros j Hcell' k o Hk Ho. apply (glyph_steady stringify h s r j B Hge) with (k := k); [rewrite Hlen; by apply Hi|by apply Hg|done..].
    + exists i. split; [done|]. by apply (newer_cell stringify h s).
  - destruct Hscan as (i & Hcell & Hn). split; [done|]. exists i. split; [done|]. by apply (newer_glyph stringify h s).
Qed.

(** *** An application that restyles one cell and rewrites another *)

Module Repaint.
Definition plain : CellAttributes := {| bold := false; dim := false; italic := false; underline := false; inverse := false; strikethrough := false |}.
Definition cell (char : string) (fg : CellColor) : LinkedCell :=
    {| lc_cell := {| cell_char := js char; cell_width := 1; cell_fg := fg; cell_bg := color_default; cell_attributes := plain |}; lc_link := None |}.
(** Just enough of the serialization to tell the cells used here apart. *)
Definition stringify (c : LinkedCell) : jstring := (if decide (cell_fg (lc_cell c) = color_default) then 0 else 1) :: glyph c.
Definition screen (a b : LinkedCell) : Terminal :=
    {| t_rows := [[a; b]]; t_structural := []; t_cols := 2; t_height := 1; t_buffer := normal_buffer; t_viewportY := 0; t_baseY := 0; t_retainedFloor := 0 |}.
Definition first : Terminal := screen (cell "a" color_default) (cell "b" color_default).
Definition events : list VtEvent :=
    [vt_write; vt_start; vt_marker (js "m") (screen (cell "a" (palette 1)) (cell "b" color_default)); vt_written (screen (cell "a" (palette 1)) (cell "c" color_default))].
Definition at_column (x : Z) : list Tree.Span := [{| Tree.sp_row := 0; Tree.from := x; Tree.to := x + 1 |}].

Lemma stringify_glyph c c' : stringify c = stringify c' -> glyph c = glyph c'.
Proof. unfold stringify. by intros [= _ H]. Qed.
Lemma screen_grid a b : grid (screen a b).
Proof. repeat split; cbn; try lia. by repeat constructor. Qed.
Lemma events_grid : Forall event_grid events.
Proof. repeat constructor; cbn; lia. Qed.
End Repaint.

Example repaint_answers :
  let s := vt_run Repaint.stringify Repaint.first Repaint.events in
  regionChangeSince s 2 1 0 (Repaint.at_column 0) = styling_changed /\ regionChangeSince s 2 1 0 (Repaint.at_column 1) = glyphs_changed /\
  regionChangeSince s 2 1 1 (Repaint.at_column 0) = unchanged /\ regionChangeSince s 2 1 3 (Repaint.at_column 0) = revision_unknown /\
  regionChangeSince s 2 1 0 (Repaint.at_column 2) = span_out_of_range /\
  delivered s = [revision_event 1; marker_event (js "m") 1; revision_event 2].
Proof. repeat split. Qed.

(** The theorem holds of the repaint, and tells that the restyled cell kept its glyph. *)
Lemma region_answers_exact_witness :
  exists now, last (published Repaint.stringify Repaint.first Repaint.events) = Some now /\
  forall o, published Repaint.stringify Repaint.first Repaint.events !! 0%nat = Some o -> glyphs o !! 0%nat = glyphs now !! 0%nat.
Proof.
  pose proof (region_answers_exact Repaint.stringify Repaint.first Repaint.events 0 (Repaint.at_column 0) Repaint.stringify_glyph (Repaint.screen_grid _ _) Repaint.events_grid) as H.
  cbn zeta in H. destruct H as (Hlast & _ & H).
  - split; [lia|]. vm_compute. discriminate.
  - constructor; [|constructor]. vm_compute. intuition discriminate.
  - change (regionChangeSince _ _ _ _ _) with styling_changed in H.
    destruct H as (_ & Hg & _). eexists. split; [exact Hlast|]. intros o Ho.
    apply (Hg 0%nat) with (k := 0%nat); [left; exists 0; split; [cbn; lia|done]|lia|exact Ho].
Defined.

(** ** Deliveries *)

(** Events in order: revisions count up by one, and a marker names the last revision
    published before it. *)
Fixpoint in_order (r : Z) (events : list PendingObservationEvent) : option Z :=
  match events with
  | [] => Some r
  | revision_event r' :: events => if r' =? r + 1 then in_order r' events else None
  | marker_event _ r' :: events => if r' =? r then in_order r events else None
  end.

Lemma in_order_app r a b : in_order r (a ++ b) = match in_order r a with Some r' => in_order r' b | None => None end.
Proof. revert r. induction a as [|[r'|payload r'] a IH]; intros r; cbn [in_order app]; [done|..]; by case_match. Qed.

(** The events in the order they were published, of which those published after the
    screen was disposed of are delivered to nobody. *)
Definition ordered (s : VtScreen) : Prop :=
  exists lost, in_order 0 (delivered s ++ lost ++ pendingObservationEvents s) = Some (revision s) /\ (disposed s = false -> lost = []).

Lemma commit_ordered stringify t s : ordered s -> ordered (commitObservableState stringify t s).
Proof.
  intros (lost & Hord & Hlost). unfold commitObservableState. destruct (_ && _); [by exists lost|]. exists lost.
  cbn [delivered pendingObservationEvents revision disposed]. split; [|done]. rewrite (app_assoc lost), app_assoc, in_order_app, Hord.
  cbn [in_order]. by rewrite Z.eqb_refl.
Qed.

Lemma flush_ordered s : ordered s -> ordered (flushObservationEvents s).
Proof.
  intros (lost & Hord & Hlost). unfold flushObservationEvents. destruct (disposed s) eqn:Hd.
  - exists (lost ++ pendingObservationEvents s). cbn. rewrite !app_nil_r. by split.
  - rewrite (Hlost eq_refl) in Hord. exists []. cbn. rewrite app_nil_r. by split.
Qed.

Lemma step_ordered stringify s e : ordered s -> ordered (vt_step stringify s e).
Proof.
  intros H. destruct e as [| |payload t|t|t|]; cbn [vt_step].
  - by destruct (disposed s).
  - by destruct (disposed s).
  - apply (commit_ordered stringify t) in H. destruct H as (lost & Hord & Hlost). exists lost. cbn. split; [|done].
    rewrite (app_assoc lost), app_assoc, in_order_app, Hord. cbn [in_order]. by rewrite Z.eqb_refl.
  - by apply flush_ordered, commit_ordered.
  - destruct (disposed s); [done|]. cbn zeta. destruct (writeInProgress (commitObservableState stringify t s)); [by apply commit_ordered|by apply flush_ordered, commit_ordered].
  - destruct H as (lost & Hord & Hlost). exists lost. cbn. by split.
Qed.

Lemma run_ordered stringify t0 es : ordered (vt_run stringify t0 es).
Proof.
  unfold vt_run. assert (H : ordered (newVtScreen stringify t0)) by by exists [].
  revert H. generalize (newVtScreen stringify t0). induction es as [|e es IH]; intros s H; [done|]. cbn [foldl]. by apply IH, step_ordered.
Qed.

(** Observers hear every revision once, in order, and every marker exactly after the
    revision of the screen it was written on; when a write has been parsed nothing is
    held back. *)
Theorem observers_hear_in_order stringify t0 es t :
  let s := vt_run stringify t0 (es ++ [vt_written t]) in
  (exists r, in_order 0 (delivered s) = Some r /\ (disposed s = false -> r = revision s)) /\ pendingObservationEvents s = [].
Proof.
  cbn zeta. assert (Hp : pendingObservationEvents (vt_run stringify t0 (es ++ [vt_written t])) = []) by (unfold vt_run; by rewrite foldl_app).
  split; [|done]. destruct (run_ordered stringify t0 (es ++ [vt_written t])) as (lost & Hord & Hlost). rewrite Hp, app_nil_r, in_order_app in Hord.
  destruct (in_order 0 (delivered _)) as [r|]; [|done]. exists r. split; [done|]. intros Hd. rewrite (Hlost Hd) in Hord. by injection Hord.
Qed.
