(* ===== verification/Inflate.v ===== *)
(** * The inflater behind the Unicode tables (packages/vt/src/graphemes/tiny-inflate.ts)

    A decoder of raw DEFLATE streams with a bounded bit buffer.  [Data] holds the
    stream state of the source; the module-level scratch arrays ([code_tree],
    [lengths]) are fields too, so that what one call leaves in them is an input of
    the next. *)

From S2P Require Import Prelude.

Local Open Scope Z_scope.

(** ** State *)

Definition MAX_DEFLATE_LOOKAHEAD_BYTES : Z := 3.

Inductive InflateError : Set :=
| bad_index | truncated | output_exceeded | bad_code_count | no_predecessor | bad_length_code | bad_distance_code
| bad_back_reference | data_error | trailing_data
| out_of_fuel. (** not of the source: a loop the model gave up *)

Global Instance InflateError_eq_dec : EqDecision InflateError.
Proof. solve_decision. Defined.

(** Counts of code lengths, and symbols in the order of their codes. *)
Record Tree : Type := { table : list Z; trans : list Z }.
Definition newTree : Tree := {| table := replicate 16 0; trans := replicate 288 0 |}.

(** [dest] is the part of the destination already written, [destLen] its length;
    [capacity] is the length of the destination array. *)
Record Data : Type := {
  tag : Z;
  bitcount : Z;
  dest : list Z;
  capacity : Z;
  ltree : Tree;
  dtree : Tree;
  source : list Z;
  sourceIndex : Z;
  paddingReads : Z;
  consumedBits : Z;
  code_tree : Tree;
  lengths : list Z;
}.

Definition destLen (d : Data) : Z := Z.of_nat (length (dest d)).

Definition set_bits (t b : Z) (d : Data) : Data :=
  {| tag := t; bitcount := b; dest := dest d; capacity := capacity d; ltree := ltree d; dtree := dtree d; source := source d;
     sourceIndex := sourceIndex d; paddingReads := paddingReads d; consumedBits := consumedBits d;
     code_tree := code_tree d; lengths := lengths d |}.
Definition set_source (i p : Z) (d : Data) : Data :=
  {| tag := tag d; bitcount := bitcount d; dest := dest d; capacity := capacity d; ltree := ltree d; dtree := dtree d;
     source := source d; sourceIndex := i; paddingReads := p; consumedBits := consumedBits d;
     code_tree := code_tree d; lengths := lengths d |}.
Definition set_consumed (c : Z) (d : Data) : Data :=
  {| tag := tag d; bitcount := bitcount d; dest := dest d; capacity := capacity d; ltree := ltree d; dtree := dtree d;
     source := source d; sourceIndex := sourceIndex d; paddingReads := paddingReads d; consumedBits := c;
     code_tree := code_tree d; lengths := lengths d |}.
Definition set_dest (l : list Z) (d : Data) : Data :=
  {| tag := tag d; bitcount := bitcount d; dest := l; capacity := capacity d; ltree := ltree d; dtree := dtree d;
     source := source d; sourceIndex := sourceIndex d; paddingReads := paddingReads d; consumedBits := consumedBits d;
     code_tree := code_tree d; lengths := lengths d |}.
Definition set_lengths (l : list Z) (d : Data) : Data :=
  {| tag := tag d; bitcount := bitcount d; dest := dest d; capacity := capacity d; ltree := ltree d; dtree := dtree d;
     source := source d; sourceIndex := sourceIndex d; paddingReads := paddingReads d; consumedBits := consumedBits d;
     code_tree := code_tree d; lengths := l |}.
Definition set_trees (c l t : Tree) (d : Data) : Data :=
  {| tag := tag d; bitcount := bitcount d; dest := dest d; capacity := capacity d; ltree := l; dtree := t;
     source := source d; sourceIndex := sourceIndex d; paddingReads := paddingReads d; consumedBits := consumedBits d;
     code_tree := c; lengths := lengths d |}.

Definition inflating (A : Type) : Type := method Data InflateError A.

(** [readAt(array, index)] *)
Definition at_index (l : list Z) (i : Z) : result InflateError Z :=
  if i <? 0 then Err bad_index else match l !! Z.to_nat i with Some v => Ok v | None => Err bad_index end.
Definition readAt (l : list Z) (i : Z) : inflating Z := lift (at_index l i).

(** ** Bits *)

Definition consumeBits (count : Z) : inflating () := d ← get;
  if Z.of_nat (length (source d)) * 8 <? consumedBits d + count then throw truncated
  else modify (set_consumed (consumedBits d + count)).

Definition readBitstreamByte : inflating Z := d ← get;
  match source d !! Z.to_nat (sourceIndex d) with
  | Some value => _ ← modify (set_source (sourceIndex d + 1) (paddingReads d)); mret value
  | None =>
      _ ← modify (set_source (sourceIndex d + 1) (paddingReads d + 1));
      if MAX_DEFLATE_LOOKAHEAD_BYTES <? paddingReads d + 1 then throw truncated else mret 0
  end.

Definition writeByte (value : Z) : inflating () := d ← get;
  if capacity d <=? destLen d then throw output_exceeded else modify (set_dest (dest d ++ [value])).

Definition tinf_getbit : inflating Z := d ← get;
  _ ← (if bitcount d =? 0 then t ← readBitstreamByte; modify (set_bits t 7) else modify (set_bits (tag d) (bitcount d - 1)));
  d ← get;
  _ ← modify (set_bits (Z.shiftr (tag d) 1) (bitcount d));
  _ ← consumeBits 1;
  mret (Z.land (tag d) 1).

(** [while (d.bitcount < 24)]: from an empty buffer three bytes are read. *)
Fixpoint refill (fuel : nat) : inflating () :=
  match fuel with
  | O => mret tt
  | S fuel => d ← get;
      if bitcount d <? 24 then
        b ← readBitstreamByte;
        _ ← modify (set_bits (Z.lor (tag d) (Z.shiftl b (bitcount d))) (bitcount d + 8));
        refill fuel
      else mret tt
  end.

Definition tinf_read_bits (num base : Z) : inflating Z :=
  if num =? 0 then mret base else
  _ ← refill 3;
  d ← get;
  let val := Z.land (tag d) (Z.shiftr 65535 (16 - num)) in
  _ ← modify (set_bits (Z.shiftr (tag d) num) (bitcount d - num));
  _ ← consumeBits num;
  mret (val + base).

(** The loop of [tinf_decode_symbol]; the table has sixteen entries. *)
Fixpoint decode_loop (fuel : nat) (t : Tree) (tag sum cur len : Z) : result InflateError (Z * Z * Z) :=
  match fuel with
  | O => Err out_of_fuel
  | S fuel =>
      let cur := 2 * cur + Z.land tag 1 in
      let tag := Z.shiftr tag 1 in
      let len := len + 1 in
      count ← at_index (table t) len;
      let sum := sum + count in
      let cur := cur - count in
      if 0 <=? cur then decode_loop fuel t tag sum cur len else Ok (tag, len, sum + cur)
  end.

Definition tinf_decode_symbol (t : Tree) : inflating Z :=
  _ ← refill 3;
  d ← get;
  r ← lift (decode_loop 16 t (tag d) 0 0 0);
  _ ← modify (set_bits r.1.1 (bitcount d - r.1.2));
  _ ← consumeBits r.1.2;
  readAt (trans t) r.2.

(** ** Static tables *)

Definition tinf_build_bits (delta : Z) : list Z :=
  (fun i => if Z.of_nat i <? delta then 0 else (Z.of_nat i - delta) / delta) <$> seq 0 30.
(** The running sum of the sizes, from [first]. *)
Fixpoint base_from (sum : Z) (bits : list Z) : list Z :=
  match bits with [] => [] | b :: bits => sum :: base_from (sum + Z.shiftl 1 b) bits end.

Definition length_bits : list Z := <[28%nat := 0]> (tinf_build_bits 4).
Definition length_base : list Z := <[28%nat := 258]> (base_from 3 (tinf_build_bits 4)).
Definition dist_bits : list Z := tinf_build_bits 2.
Definition dist_base : list Z := base_from 1 (tinf_build_bits 2).

Definition clcidx : list Z := [16; 17; 18; 0; 8; 7; 9; 6; 10; 5; 11; 4; 12; 3; 13; 2; 14; 1; 15].

Definition Zseq (from n : nat) : list Z := Z.of_nat <$> seq from n.

(** [tinf_build_fixed_trees]: what it leaves in the static trees. *)
Definition sltree : Tree :=
  {| table := replicate 7 0 ++ [24; 152; 112] ++ replicate 6 0;
     trans := Zseq 256 24 ++ Zseq 0 144 ++ Zseq 280 8 ++ Zseq 144 112 |}.
Definition sdtree : Tree :=
  {| table := replicate 5 0 ++ [32] ++ replicate 10 0; trans := Zseq 0 32 ++ replicate 256 0 |}.

(** ** Trees of code lengths *)

Definition count_length (lengths : list Z) (off : nat) (t : list Z) (i : nat) : result InflateError (list Z) :=
  codeLength ← at_index lengths (Z.of_nat (off + i));
  n ← at_index t codeLength;
  Ok (<[Z.to_nat codeLength := n + 1]> t).

Fixpoint offsets (sum : Z) (t : list Z) : list Z :=
  match t with [] => [] | n :: t => sum :: offsets (sum + n) t end.

Definition place_symbol (lengths : list Z) (off : nat) (s : list Z * list Z) (i : nat) : result InflateError (list Z * list Z) :=
  codeLength ← at_index lengths (Z.of_nat (off + i));
  if codeLength =? 0 then Ok s else
  target ← at_index s.2 codeLength;
  Ok (<[Z.to_nat target := Z.of_nat i]> s.1, <[Z.to_nat codeLength := target + 1]> s.2).

Fixpoint foldM {A B} (f : A -> B -> result InflateError A) (a : A) (l : list B) : result InflateError A :=
  match l with [] => Ok a | b :: l => a ← f a b; foldM f a l end.

Definition tinf_build_tree (t : Tree) (lengths : list Z) (off num : nat) : result InflateError Tree :=
  counts ← foldM (count_length lengths off) (replicate 16 0) (seq 0 num);
  let counts := <[0%nat := 0]> counts in
  s ← foldM (place_symbol lengths off) (trans t, offsets 0 counts) (seq 0 num);
  Ok {| table := counts; trans := s.1 |}.

Definition put_length (i : Z) (v : Z) : inflating () := d ← get; modify (set_lengths (<[Z.to_nat i := v]> (lengths d))).

Fixpoint clear_lengths (n : nat) : inflating () :=
  match n with O => mret tt | S n => _ ← clear_lengths n; put_length (Z.of_nat n) 0 end.

(** [for (i = 0; i < hclen; ++i)]: three bits for each length of a code length. *)
Fixpoint read_code_lengths (order : list nat) : inflating () :=
  match order with
  | [] => mret tt
  | i :: order =>
      clen ← tinf_read_bits 3 0;
      c ← readAt clcidx (Z.of_nat i);
      _ ← put_length c clen;
      read_code_lengths order
  end.

Fixpoint put_repeated (value num : Z) (count : nat) : inflating () :=
  match count with O => mret tt | S count => _ ← put_length num value; put_repeated value (num + 1) count end.

Definition appendRepeated (total num value count : Z) : inflating Z :=
  if total <? num + count then throw bad_code_count else _ ← put_repeated value num (Z.to_nat count); mret (num + count).

(** [switch (sym)]: a length, or a run of the length before or of zeros. *)
Definition store_lengths (total num sym : Z) : inflating Z :=
  if sym =? 16 then
    if num =? 0 then throw no_predecessor else
    d ← get;
    prev ← readAt (lengths d) (num - 1);
    length ← tinf_read_bits 2 3;
    appendRepeated total num prev length
  else if sym =? 17 then length ← tinf_read_bits 3 3; appendRepeated total num 0 length
  else if sym =? 18 then length ← tinf_read_bits 7 11; appendRepeated total num 0 length
  else _ ← put_length num sym; mret (num + 1).

(** [for (num = 0; num < total;)]: an iteration adds at least one length. *)
Fixpoint decode_lengths (fuel : nat) (total num : Z) : inflating () :=
  match fuel with
  | O => if num <? total then throw out_of_fuel else mret tt
  | S fuel =>
      if num <? total then
        d ← get;
        sym ← tinf_decode_symbol (code_tree d);
        num ← store_lengths total num sym;
        decode_lengths fuel total num
      else mret tt
  end.

Definition tinf_decode_trees : inflating () :=
  hlit ← tinf_read_bits 5 257;
  hdist ← tinf_read_bits 5 1;
  hclen ← tinf_read_bits 4 4;
  _ ← clear_lengths 19;
  _ ← read_code_lengths (seq 0 (Z.to_nat hclen));
  d ← get;
  c ← lift (tinf_build_tree (code_tree d) (lengths d) 0 19);
  _ ← modify (set_trees c (ltree d) (dtree d));
  _ ← decode_lengths (Z.to_nat (hlit + hdist)) (hlit + hdist) 0;
  d ← get;
  l ← lift (tinf_build_tree (ltree d) (lengths d) 0 (Z.to_nat hlit));
  t ← lift (tinf_build_tree (dtree d) (lengths d) (Z.to_nat hlit) (Z.to_nat hdist));
  modify (set_trees (code_tree d) l t).

(** ** Blocks *)

(** [for (i = offs; i < offs + length; ++i)] *)
Fixpoint copy_match (i : Z) (length : nat) : inflating () :=
  match length with
  | O => mret tt
  | S length =>
      d ← get;
      v ← readAt (dest d) i;
      _ ← writeByte v;
      copy_match (i + 1) length
  end.

Definition inflate_match (sym : Z) (dt : Tree) : inflating () :=
  if (sym <? 0) || (Z.of_nat (length length_bits) <=? sym) then throw bad_length_code else
  bits ← readAt length_bits sym; base ← readAt length_base sym;
  length ← tinf_read_bits bits base;
  dist ← tinf_decode_symbol dt;
  if (dist <? 0) || (Z.of_nat (List.length dist_bits) <=? dist) then throw bad_distance_code else
  bits ← readAt dist_bits dist; base ← readAt dist_base dist;
  back ← tinf_read_bits bits base;
  d ← get;
  let offs := destLen d - back in
  if (offs <? 0) || (destLen d <=? offs) || (capacity d <? destLen d + length) then throw bad_back_reference
  else copy_match offs (Z.to_nat length).

(** [for (;;)]: a symbol takes at least one bit of the stream. *)
Fixpoint tinf_inflate_block_data (fuel : nat) (lt dt : Tree) : inflating () :=
  match fuel with
  | O => throw out_of_fuel
  | S fuel =>
      sym ← tinf_decode_symbol lt;
      if sym =? 256 then mret tt
      else _ ← (if sym <? 256 then writeByte sym else inflate_match (sym - 257) dt); tinf_inflate_block_data fuel lt dt
  end.

(** [while (d.bitcount > 8)] *)
Fixpoint unread (fuel : nat) : inflating () :=
  match fuel with
  | O => mret tt
  | S fuel => d ← get;
      if 8 <? bitcount d then
        _ ← modify (fun d => set_bits (tag d) (bitcount d - 8) (set_source (sourceIndex d - 1) (paddingReads d) d)); unread fuel
      else mret tt
  end.

Fixpoint copy_source (length : nat) : inflating () :=
  match length with
  | O => mret tt
  | S length =>
      d ← get;
      v ← readAt (source d) (sourceIndex d);
      _ ← modify (set_source (sourceIndex d + 1) (paddingReads d));
      _ ← writeByte v;
      copy_source length
  end.

Definition tinf_inflate_uncompressed_block : inflating () :=
  _ ← unread 4;
  d ← get;
  _ ← modify (set_consumed (sourceIndex d * 8));
  l1 ← readAt (source d) (sourceIndex d + 1); l0 ← readAt (source d) (sourceIndex d);
  let length := 256 * l1 + l0 in
  n1 ← readAt (source d) (sourceIndex d + 3); n0 ← readAt (source d) (sourceIndex d + 2);
  let invlength := 256 * n1 + n0 in
  if negb (length =? Z.land (Z.lnot invlength) 65535) then throw data_error else
  _ ← modify (set_source (sourceIndex d + 4) (paddingReads d));
  _ ← copy_source (Z.to_nat length);
  d ← get;
  _ ← modify (set_consumed (sourceIndex d * 8));
  modify (set_bits (tag d) 0).

Definition inflate_block : inflating Z :=
  bfinal ← tinf_getbit;
  btype ← tinf_read_bits 2 0;
  d ← get;
  _ ← (if btype =? 0 then tinf_inflate_uncompressed_block
       else if btype =? 1 then tinf_inflate_block_data (8 * length (source d) + 1) sltree sdtree
       else if btype =? 2 then
         _ ← tinf_decode_trees; d ← get; tinf_inflate_block_data (8 * length (source d) + 1) (ltree d) (dtree d)
       else throw data_error);
  mret bfinal.

(** [do ... while (!bfinal)]: a block takes at least three bits. *)
Fixpoint inflate_blocks (fuel : nat) : inflating () :=
  match fuel with
  | O => throw out_of_fuel
  | S fuel => bfinal ← inflate_block; if bfinal =? 0 then inflate_blocks fuel else mret tt
  end.

Definition newData (source : list Z) (capacity : Z) (code_tree : Tree) (lengths : list Z) : Data :=
  {| tag := 0; bitcount := 0; dest := []; capacity := capacity; ltree := newTree; dtree := newTree; source := source;
     sourceIndex := 0; paddingReads := 0; consumedBits := 0; code_tree := code_tree; lengths := lengths |}.

(** What is written; the source returns the destination cut to it. *)
Definition tinf_uncompress : inflating (list Z) :=
  d ← get;
  _ ← inflate_blocks (8 * length (source d) + 1);
  d ← get;
  if (consumedBits d + 7) / 8 =? Z.of_nat (length (source d)) then mret (dest d) else throw trailing_data.

Definition inflate (source : list Z) (capacity : Z) (scratch : Tree * list Z) : result InflateError (list Z) :=
  (tinf_uncompress (newData source capacity scratch.1 scratch.2)).1.

Definition fresh_scratch : Tree * list Z := (newTree, replicate 320 0).
