(* ===== verification/InflateBits.v ===== *)
(** * The bit buffer of the inflater is the stream of its bits

    The source is a list of bits, the least significant of a byte first.  The
    buffer ([tag], [bitcount], [sourceIndex]) and its padded lookahead are proved to
    read that list, bit for bit, and to stop at its end. *)

From S2P Require Import Prelude Inflate.

Local Open Scope Z_scope.

(** ** Running a method *)

Lemma run_Ok {A B} (m : inflating A) (f : A -> inflating B) d a d' : m d = (Ok a, d') -> (m ≫= f) d = f a d'.
Proof. intros H. unfold mbind, method_bind. by rewrite H. Qed.
Lemma run_Err {A B} (m : inflating A) (f : A -> inflating B) d e d' : m d = (Err e, d') -> (m ≫= f) d = (Err e, d').
Proof. intros H. unfold mbind, method_bind. by rewrite H. Qed.
Lemma run_get {B} (f : Data -> inflating B) d : (get ≫= f) d = f d d.
Proof. done. Qed.
Lemma run_modify {B} (g : Data -> Data) (f : unit -> inflating B) d : (modify g ≫= f) d = f tt (g d).
Proof. done. Qed.

Lemma run_lift {A B} (r : result InflateError A) (f : A -> inflating B) d :
  (lift r ≫= f) d = match r with Ok a => f a d | Err e => (Err e, d) end.
Proof. by destruct r. Qed.

(** ** Bits and numbers *)

Fixpoint val (bs : list bool) : Z := match bs with [] => 0 | b :: bs => Z.b2z b + 2 * val bs end.

(** The [n] low bits of a number. *)
Fixpoint bits (n : nat) (v : Z) : list bool := match n with O => [] | S n => Z.odd v :: bits n (Z.div2 v) end.

Lemma bits_length n v : length (bits n v) = n.
Proof. revert v. induction n; intros v; cbn; auto. Qed.

Lemma val_bounds bs : 0 <= val bs < 2 ^ Z.of_nat (length bs).
Proof.
  induction bs as [|b bs IH]; cbn [val length]; [lia|]. rewrite Nat2Z.inj_succ, Z.pow_succ_r by lia.
  destruct b; cbn [Z.b2z]; lia.
Qed.

Lemma val_app bs cs : val (bs ++ cs) = val bs + 2 ^ Z.of_nat (length bs) * val cs.
Proof.
  induction bs as [|b bs IH]; cbn [val app length]; [lia|]. rewrite IH, Nat2Z.inj_succ, Z.pow_succ_r by lia. ring.
Qed.

Lemma val_bits n v : 0 <= v < 2 ^ Z.of_nat n -> val (bits n v) = v.
Proof.
  revert v. induction n as [|n IH]; intros v Hv; cbn [val bits]; [cbn in Hv; lia|].
  rewrite Nat2Z.inj_succ, Z.pow_succ_r in Hv by lia. pose proof (Z.div2_odd v). rewrite IH; destruct (Z.odd v); cbn [Z.b2z] in *; lia.
Qed.

Lemma val_take_drop n bs : val bs = val (take n bs) + 2 ^ Z.of_nat (length (take n bs)) * val (drop n bs).
Proof. by rewrite <- val_app, take_drop. Qed.

Lemma val_drop n bs : val (drop n bs) = Z.shiftr (val bs) (Z.of_nat n).
Proof.
  rewrite Z.shiftr_div_pow2 by lia. destruct (decide (n <= length bs)%nat) as [Hn|Hn].
  - rewrite (val_take_drop n bs), length_take_le by done. pose proof (val_bounds (take n bs)) as Hb. rewrite length_take_le in Hb by done.
    rewrite Z.mul_comm, Z.div_add by lia. by rewrite (Z.div_small (val (take n bs))) by lia.
  - rewrite drop_ge by lia. cbn. symmetry. apply Z.div_small. pose proof (val_bounds bs).
    assert (2 ^ Z.of_nat (length bs) <= 2 ^ Z.of_nat n) by (apply Z.pow_le_mono_r; lia). lia.
Qed.

Lemma val_take n bs : val (take n bs) = val bs mod 2 ^ Z.of_nat n.
Proof.
  destruct (decide (n <= length bs)%nat) as [Hn|Hn].
  - rewrite (val_take_drop n bs), length_take_le by done. pose proof (val_bounds (take n bs)) as Hb. rewrite length_take_le in Hb by done.
    by rewrite Z.mul_comm, Z.mod_add, Z.mod_small by lia.
  - rewrite take_ge by lia. symmetry. apply Z.mod_small. pose proof (val_bounds bs).
    assert (2 ^ Z.of_nat (length bs) <= 2 ^ Z.of_nat n) by (apply Z.pow_le_mono_r; lia). lia.
Qed.

Lemma land_ones_mod a n : 0 <= n -> Z.land a (2 ^ n - 1) = a mod 2 ^ n.
Proof. intros H. rewrite <- Z.land_ones by done. f_equal. rewrite Z.ones_equiv. lia. Qed.

Lemma mod_mod_pow a m n : 0 <= m <= n -> (a mod 2 ^ n) mod 2 ^ m = a mod 2 ^ m.
Proof.
  intros H. apply Z.mod_mod_divide. exists (2 ^ (n - m)). rewrite <- Z.pow_add_r by lia. f_equal. lia.
Qed.

Lemma shiftr_mod_pow x n m : 0 <= n -> 0 <= m -> Z.shiftr (x mod 2 ^ (n + m)) n = Z.shiftr x n mod 2 ^ m.
Proof.
  intros Hn Hm. rewrite !Z.shiftr_div_pow2, Z.pow_add_r, Z.rem_mul_r by lia.
  rewrite Z.mul_comm, Z.div_add, Z.div_small by (lia || (apply Z.mod_pos_bound; lia)). lia.
Qed.

(** More of a number below what is known of it. *)
Lemma mod_extend x n k :
  0 <= n -> 0 <= k -> Z.lor (x mod 2 ^ n) (Z.shiftl (Z.shiftr x n mod 2 ^ k) n) = x mod 2 ^ (n + k).
Proof.
  intros Hn Hk. rewrite Z.lor_comm, lor_shiftl_add; [|done|apply Z.mod_pos_bound; lia].
  rewrite Z.shiftr_div_pow2, Z.pow_add_r, Z.rem_mul_r by lia. lia.
Qed.

(** ** The source as bits *)

Definition byte_bits (b : Z) : list bool := bits 8 b.
Definition all_bits (source : list Z) : list bool := mjoin (byte_bits <$> source).
Global Arguments all_bits : simpl never.
Definition is_octet (b : Z) : Prop := 0 <= b < 256.

Lemma all_bits_cons b s : all_bits (b :: s) = byte_bits b ++ all_bits s.
Proof. done. Qed.

Lemma all_bits_length source : length (all_bits source) = (8 * length source)%nat.
Proof.
  induction source as [|b s IH]; [done|]. rewrite all_bits_cons, length_app, IH. unfold byte_bits. rewrite bits_length. cbn. lia.
Qed.

Lemma all_bits_app s t : all_bits (s ++ t) = all_bits s ++ all_bits t.
Proof. unfold all_bits. by rewrite fmap_app, join_app. Qed.

(** The byte at an index; zero behind the end. *)
Lemma byte_at source i :
  Forall is_octet source -> default 0 (source !! i) = Z.shiftr (val (all_bits source)) (8 * Z.of_nat i) mod 2 ^ 8.
Proof.
  intros Hs. rewrite (Z.mul_comm 8), <- (Z.mul_comm 8). replace (8 * Z.of_nat i) with (Z.of_nat (8 * i)) by lia.
  rewrite <- val_drop. destruct (source !! i) as [b|] eqn:E.
  - assert (source = take i source ++ b :: drop (S i) source) as Es by by rewrite take_drop_middle.
    assert (drop (8 * i) (all_bits source) = byte_bits b ++ all_bits (drop (S i) source)) as ->.
    { rewrite Es at 1. rewrite all_bits_app, drop_app_length'; [done|]. rewrite all_bits_length, length_take_le; [done|].
      apply lookup_lt_Some in E. lia. }
    rewrite val_app. unfold byte_bits. rewrite bits_length. change (Z.of_nat 8) with 8. rewrite Z.mul_comm, Z.mod_add by lia.
    rewrite Forall_lookup in Hs. specialize (Hs i b E). unfold is_octet in Hs.
    rewrite val_bits by (cbn; lia). rewrite Z.mod_small; [done|cbn; lia].
  - rewrite drop_ge; [done|]. rewrite all_bits_length. apply lookup_ge_None in E. lia.
Qed.

(** ** The buffer *)

(** [d] stands at bits [bs] of its source: everything but the buffered bits. *)
Record standing (d : Data) (bs : list bool) : Prop := {
  st_octets : Forall is_octet (source d);
  st_count : 0 <= bitcount d <= 31;
  st_index : 8 * sourceIndex d = consumedBits d + bitcount d;
  st_consumed : 0 <= consumedBits d <= 8 * Z.of_nat (length (source d));
  st_padding : paddingReads d = Z.max 0 (sourceIndex d - Z.of_nat (length (source d)));
  st_bits : bs = drop (Z.to_nat (consumedBits d)) (all_bits (source d));
}.

(** The buffer holds the next [bitcount] of them, zeros behind the end. *)
Definition buffered (d : Data) (bs : list bool) : Prop := tag d = val bs mod 2 ^ bitcount d.

Definition at_bits (d : Data) (bs : list bool) : Prop := standing d bs /\ buffered d bs.

(** Between blocks an empty buffer may hold anything. *)
Definition between_blocks (d : Data) (bs : list bool) : Prop := standing d bs /\ (bitcount d = 0 \/ buffered d bs).

(** Only the reader moved. *)
Record same_rest (d d' : Data) : Prop := {
  sr_dest : dest d' = dest d;
  sr_capacity : capacity d' = capacity d;
  sr_ltree : ltree d' = ltree d;
  sr_dtree : dtree d' = dtree d;
  sr_source : source d' = source d;
  sr_code_tree : code_tree d' = code_tree d;
  sr_lengths : lengths d' = lengths d;
}.

Lemma same_rest_refl d : same_rest d d.
Proof. done. Qed.
Lemma same_rest_trans d1 d2 d3 : same_rest d1 d2 -> same_rest d2 d3 -> same_rest d1 d3.
Proof. intros [] []. split; congruence. Qed.

Lemma standing_length d bs : standing d bs -> Z.of_nat (length bs) = 8 * Z.of_nat (length (source d)) - consumedBits d.
Proof. intros H. rewrite (st_bits _ _ H), length_drop, all_bits_length. pose proof (st_consumed _ _ H). lia. Qed.

(** The byte behind the buffered bits, or a padding byte. *)
Lemma readBitstreamByte_next d bs :
  standing d bs -> sourceIndex d < Z.of_nat (length (source d)) + 3 ->
  exists d', readBitstreamByte d = (Ok (Z.shiftr (val bs) (bitcount d) mod 2 ^ 8), d') /\ same_rest d d' /\
    d' = set_source (sourceIndex d + 1) (Z.max 0 (sourceIndex d + 1 - Z.of_nat (length (source d)))) d.
Proof.
  intros H Hi. unfold readBitstreamByte, mbind, method_bind, get, modify, throw, mret, method_ret. cbv beta iota.
  pose proof (st_index _ _ H) as Hx. pose proof (st_count _ _ H). pose proof (st_consumed _ _ H).
  assert (Z.shiftr (val bs) (bitcount d) mod 2 ^ 8 = default 0 (source d !! Z.to_nat (sourceIndex d))) as ->.
  { rewrite (byte_at _ _ (st_octets _ _ H)), (st_bits _ _ H), val_drop, Z.shiftr_shiftr by lia. f_equal. f_equal. lia. }
  destruct (source d !! Z.to_nat (sourceIndex d)) as [v|] eqn:E.
  - apply lookup_lt_Some in E. eexists. split; [done|]. split; [done|]. f_equal. rewrite (st_padding _ _ H). lia.
  - apply lookup_ge_None in E. unfold MAX_DEFLATE_LOOKAHEAD_BYTES. rewrite (st_padding _ _ H). destruct (Z.ltb_spec 3 (Z.max 0 (sourceIndex d - Z.of_nat (length (source d))) + 1)); [lia|].
    eexists. split; [done|]. split; [done|]. f_equal. lia.
Qed.

Lemma consumeBits_spec d count :
  consumeBits count d =
  if Z.of_nat (length (source d)) * 8 <? consumedBits d + count then (Err truncated, d) else (Ok tt, set_consumed (consumedBits d + count) d).
Proof. unfold consumeBits, mbind, method_bind, get, modify, throw. by destruct (_ <? _). Qed.

(** The refilled buffer holds at least twenty-four bits. *)
Lemma refill_spec n d bs :
  at_bits d bs -> 24 <= bitcount d + 8 * Z.of_nat n ->
  exists d', refill n d = (Ok tt, d') /\ at_bits d' bs /\ 24 <= bitcount d' /\ same_rest d d' /\ consumedBits d' = consumedBits d.
Proof.
  revert d. induction n as [|n IH]; intros d [Hs Hb] Hn; cbn [refill].
  { exists d. split_and!; done || lia. }
  unfold mbind, method_bind, get. cbv beta iota. destruct (Z.ltb_spec (bitcount d) 24) as [Hlt|Hge]; [|by exists d].
  pose proof (st_index _ _ Hs). pose proof (st_count _ _ Hs). pose proof (st_consumed _ _ Hs).
  destruct (readBitstreamByte_next d bs Hs) as (d1 & -> & Hr & ->); [lia|]. unfold modify. cbv beta iota.
  edestruct IH as (d2 & E & K1 & K2 & K3 & K4); [| |rewrite E; exists d2; split_and!; [done|exact K1|done| |exact K4]].
  - destruct Hs as [O1 O2 O3 O4 O5 O6]. split; [split; cbn; try done; lia|]. unfold buffered in *. cbn. rewrite Hb. apply mod_extend; lia.
  - cbn. lia.
  - eapply same_rest_trans; [|exact K3]. done.
Qed.

(** Dropping bits that are buffered. *)
Lemma at_bits_drop d bs n :
  at_bits d bs -> 0 <= n <= bitcount d -> (Z.to_nat n <= length bs)%nat ->
  at_bits (set_consumed (consumedBits d + n) (set_bits (Z.shiftr (tag d) n) (bitcount d - n) d)) (drop (Z.to_nat n) bs).
Proof.
  intros [Hs Hb] Hn Hl. pose proof (standing_length _ _ Hs) as Hlen. destruct Hs as [O1 O2 O3 O4 O5 O6]. split.
  - split; cbn; try done; try lia. rewrite O6, drop_drop. f_equal. lia.
  - unfold buffered in *. cbn. rewrite Hb, val_drop, Z2Nat.id by lia.
    replace (bitcount d) with (n + (bitcount d - n)) at 1 by lia. by apply shiftr_mod_pow; lia.
Qed.

(** One bit, when there is one. *)
Lemma tinf_getbit_spec d bs :
  between_blocks d bs ->
  match bs with
  | b :: bs => exists d', tinf_getbit d = (Ok (Z.b2z b), d') /\ at_bits d' bs /\ same_rest d d' /\ consumedBits d' = consumedBits d + 1
  | [] => (tinf_getbit d).1 = Err truncated
  end.
Proof.
  intros [Hs Hb]. pose proof (standing_length _ _ Hs) as Hlen. pose proof (st_count _ _ Hs). pose proof (st_index _ _ Hs). pose proof (st_consumed _ _ Hs).
  assert (exists d1, (if bitcount d =? 0 then t ← readBitstreamByte; modify (set_bits t 7) else modify (set_bits (tag d) (bitcount d - 1))) d = (Ok tt, d1) /\
    same_rest d d1 /\ consumedBits d1 = consumedBits d /\ 1 <= bitcount d1 + 1 <= 31 /\ 8 * sourceIndex d1 = consumedBits d + (bitcount d1 + 1) /\
    paddingReads d1 = Z.max 0 (sourceIndex d1 - Z.of_nat (length (source d))) /\ tag d1 = val bs mod 2 ^ (bitcount d1 + 1)) as (d1 & E & Hr & Hc & Hb1 & Hi & Hp & Ht).
  { destruct (Z.eqb_spec (bitcount d) 0) as [E0|E0].
    - destruct (readBitstreamByte_next d bs Hs) as (d1 & E & Hr & Ed); [lia|]. unfold mbind, method_bind. rewrite E. unfold modify. eexists. split; [done|].
      rewrite Ed. cbn. rewrite E0, Z.shiftr_0_r. split_and!; try done; lia.
    - destruct Hb as [?|Hb]; [done|]. unfold modify. eexists. split; [done|]. cbn. destruct Hs. split_and!; try done; try lia. rewrite Z.sub_add. exact Hb. }
  unfold tinf_getbit. rewrite run_get, (run_Ok _ _ _ _ _ E), run_get, run_modify. unfold mbind, method_bind. rewrite consumeBits_spec. cbn [source consumedBits set_bits]. rewrite (sr_source _ _ Hr), Hc.
  destruct (Z.ltb_spec (Z.of_nat (length (source d)) * 8) (consumedBits d + 1)) as [Hlt|Hge].
  { destruct bs; [done|]. cbn [length] in Hlen. lia. }
  destruct bs as [|b bs]; [cbn in Hlen; lia|]. cbn [mret method_ret tag set_consumed set_bits].
  assert (Z.land (tag d1) 1 = Z.b2z b) as ->.
  { change 1 with (2 ^ 1 - 1). rewrite land_ones_mod by lia. rewrite Ht, mod_mod_pow by lia. cbn [val]. rewrite Z.mul_comm, Z.mod_add by lia. by destruct b. }
  eexists. split; [done|]. split; [|split; [|done]].
  - destruct Hs as [O1 O2 O3 O4 O5 O6]. split.
    + split; cbn; rewrite ?(sr_source _ _ Hr); try done; try lia. replace (Z.to_nat (consumedBits d + 1)) with (Z.to_nat (consumedBits d) + 1)%nat by lia.
      by rewrite <- drop_drop, <- O6.
    + unfold buffered. cbn. rewrite Ht, (Z.add_comm _ 1), shiftr_mod_pow by lia. f_equal. by rewrite <- (val_drop 1).
  - destruct Hr. split; cbn; done.
Qed.

(** Reading a field: all of it is there, or the stream is truncated. *)
Lemma tinf_read_bits_spec d bs num base :
  at_bits d bs -> 0 <= num <= 16 ->
  if (Z.to_nat num <=? length bs)%nat then
    exists d', tinf_read_bits num base d = (Ok (val (take (Z.to_nat num) bs) + base), d') /\
      at_bits d' (drop (Z.to_nat num) bs) /\ same_rest d d' /\ consumedBits d' = consumedBits d + num
  else (tinf_read_bits num base d).1 = Err truncated.
Proof.
  intros H Hn. unfold tinf_read_bits. destruct (Z.eqb_spec num 0) as [->|Hnz].
  { cbn. exists d. split_and!; done || lia. }
  destruct (refill_spec 3 d bs H) as (d1 & E & H1 & Hc & Hr & Hcons); [pose proof (st_count _ _ (proj1 H)); lia|].
  rewrite (run_Ok _ _ _ _ _ E), run_get. cbv zeta. rewrite run_modify. unfold mbind, method_bind. rewrite consumeBits_spec.
  cbn [source consumedBits set_bits]. pose proof (standing_length _ _ (proj1 H1)) as Hlen. rewrite (sr_source _ _ Hr) in *.
  pose proof (st_consumed _ _ (proj1 H1)) as Hc1. rewrite (sr_source _ _ Hr) in Hc1.
  destruct (Nat.leb_spec (Z.to_nat num) (length bs)) as [Hle|Hgt].
  - destruct (Z.ltb_spec (Z.of_nat (length (source d)) * 8) (consumedBits d1 + num)); [lia|].
    eexists. split; [|split; [exact (at_bits_drop d1 bs num H1 ltac:(lia) Hle)|split; [|cbn; lia]]].
    + unfold mret, method_ret. do 3 f_equal. destruct H1 as [_ Hb]. rewrite Hb, val_take, Z2Nat.id by lia.
      assert (Z.shiftr 65535 (16 - num) = 2 ^ num - 1) as ->.
      { change 65535 with (Z.ones 16). rewrite Z.shiftr_div_pow2, Z.ones_div_pow2 by lia. rewrite Z.ones_equiv. replace (16 - (16 - num)) with num by lia. lia. }
      rewrite land_ones_mod by lia. apply mod_mod_pow. lia.
    + destruct Hr. split; cbn; done.
  - destruct (Z.ltb_spec (Z.of_nat (length (source d)) * 8) (consumedBits d1 + num)); [done|]. lia.
Qed.

(** ** Symbols *)

(** The loop reads as many bits as it counts, and looks at no others. *)
Lemma decode_loop_Ok fuel t x sum cur len x' len' i :
  decode_loop fuel t x sum cur len = Ok (x', len', i) ->
  x' = Z.shiftr x (len' - len) /\ len < len' <= len + Z.of_nat fuel /\ (0 <= len -> len' < Z.of_nat (length (table t))).
Proof.
  revert x sum cur len. induction fuel as [|fuel IH]; intros x sum cur len; cbn [decode_loop]; [done|]. cbv zeta.
  unfold at_index. destruct (Z.ltb_spec (len + 1) 0) as [Hl|Hl]; [done|].
  destruct (table t !! Z.to_nat (len + 1)) as [count|] eqn:E; [|done]. cbn [mbind result_bind].
  apply lookup_lt_Some in E. destruct (0 <=? _).
  - intros (-> & H1 & H2)%IH. split; [|split; lia]. rewrite Z.shiftr_shiftr by lia. f_equal. lia.
  - intros [= <- <- <-]. split; [f_equal; lia|]. split; lia.
Qed.

Lemma decode_loop_low fuel t x y sum cur len :
  x mod 2 ^ Z.of_nat fuel = y mod 2 ^ Z.of_nat fuel ->
  (fun r => (r.1.2, r.2)) <$> decode_loop fuel t x sum cur len = (fun r => (r.1.2, r.2)) <$> decode_loop fuel t y sum cur len.
Proof.
  revert x y sum cur len. induction fuel as [|fuel IH]; intros x y sum cur len H; cbn [decode_loop]; [done|]. cbv zeta.
  rewrite Nat2Z.inj_succ in H.
  assert (Z.land x 1 = Z.land y 1) as ->.
  { change 1 with (2 ^ 1 - 1). rewrite !land_ones_mod by lia. rewrite <- (mod_mod_pow x 1 (Z.succ (Z.of_nat fuel))), H by lia. apply mod_mod_pow. lia. }
  destruct (at_index _ _) as [count|]; cbn [mbind result_bind]; [|done]. destruct (0 <=? _); [|done].
  apply IH. rewrite <- !shiftr_mod_pow by lia. replace (1 + Z.of_nat fuel) with (Z.succ (Z.of_nat fuel)) by lia. by rewrite H.
Qed.

(** A symbol is the one the tree gives the bits ahead, if the stream has them. *)
Lemma tinf_decode_symbol_spec d bs t :
  at_bits d bs -> (length (table t) <= 16)%nat ->
  match decode_loop 16 t (val bs) 0 0 0 with
  | Ok (_, l, i) =>
      1 <= l <= 15 /\
      if (Z.to_nat l <=? length bs)%nat then
        exists d', tinf_decode_symbol t d = (at_index (trans t) i, d') /\ at_bits d' (drop (Z.to_nat l) bs) /\ same_rest d d' /\
          consumedBits d' = consumedBits d + l
      else (tinf_decode_symbol t d).1 = Err truncated
  | Err e => (tinf_decode_symbol t d).1 = Err e
  end.
Proof.
  intros H Ht. unfold tinf_decode_symbol.
  destruct (refill_spec 3 d bs H) as (d1 & E & H1 & Hc & Hr & Hcons); [pose proof (st_count _ _ (proj1 H)); lia|].
  rewrite (run_Ok _ _ _ _ _ E), run_get. pose proof (proj2 H1) as Hb. unfold buffered in Hb.
  pose proof (decode_loop_low 16 t (tag d1) (val bs) 0 0 0) as Hlow.
  rewrite Hb, mod_mod_pow in Hlow by (pose proof (st_count _ _ (proj1 H1)); lia). specialize (Hlow eq_refl). rewrite <- Hb in Hlow.
  rewrite run_lift.
  destruct (decode_loop 16 t (val bs) 0 0 0) as [[[x l] i]|e] eqn:Ev; destruct (decode_loop 16 t (tag d1) 0 0 0) as [[[x1 l1] i1]|e1] eqn:Et; try done;
    [|by injection Hlow as ->].
  cbn in Hlow. injection Hlow as -> ->. apply decode_loop_Ok in Ev as (_ & L1 & L2). apply decode_loop_Ok in Et as (-> & _ & _). cbn [fst snd].
  split; [lia|]. rewrite run_modify. unfold mbind, method_bind. rewrite consumeBits_spec. cbn [source consumedBits set_bits].
  pose proof (standing_length _ _ (proj1 H1)) as Hlen. pose proof (st_consumed _ _ (proj1 H1)) as Hc1. rewrite (sr_source _ _ Hr) in *.
  destruct (Nat.leb_spec (Z.to_nat l) (length bs)) as [Hle|Hgt].
  - destruct (Z.ltb_spec (Z.of_nat (length (source d)) * 8) (consumedBits d1 + l)); [lia|].
    eexists. split; [unfold readAt, lift; done|]. rewrite Z.sub_0_r. split; [exact (at_bits_drop d1 bs l H1 ltac:(lia) Hle)|]. split; [|cbn; lia].
    destruct Hr. split; cbn; done.
  - destruct (Z.ltb_spec (Z.of_nat (length (source d)) * 8) (consumedBits d1 + l)); [done|]. lia.
Qed.
