(* ===== verification/Huffman.v ===== *)
(** * The inflater's trees decode canonical Huffman codes

    [tinf_build_tree] turns code lengths into counts and sorted symbols, and the
    loop of [tinf_decode_symbol] walks them without ever building a code.  The
    reference is the assignment of codes of RFC 1951, section 3.2.2: codes of one
    length are consecutive, and the first of a length is twice the one after the
    last of the length before. *)

From S2P Require Import Prelude Inflate InflateBits.

Local Open Scope Z_scope.

(** ** Canonical codes *)

Section Canonical.
Context (lens : list Z).

(** How often a length occurs. *)
Fixpoint occ (l : Z) (xs : list Z) : Z :=
  match xs with [] => 0 | x :: xs => (if x =? l then 1 else 0) + occ l xs end.

(** How many codes have length [l]; no code has length zero. *)
Definition bl_count (l : nat) : Z := match l with O => 0 | _ => occ (Z.of_nat l) lens end.

(** The first code of length [l]. *)
Fixpoint next_code (l : nat) : Z := match l with O => 0 | S l => 2 * (next_code l + bl_count l) end.

(** How many codes are shorter than [l]. *)
Fixpoint shorter (l : nat) : Z := match l with O => 0 | S l => shorter l + bl_count l end.

(** The code of symbol [i], of length [l], and its bits, the most significant first. *)
Definition code (i l : nat) : Z := next_code l + occ (Z.of_nat l) (take i lens).

Fixpoint msb (n : nat) (v : Z) : list bool := match n with O => [] | S n => Z.testbit v (Z.of_nat n) :: msb n v end.

Definition code_bits (i : nat) : list bool := match lens !! i with Some l => msb (Z.to_nat l) (code i (Z.to_nat l)) | None => [] end.

Definition valid_lengths : Prop := Forall (fun l => 0 <= l <= 15) lens.

(** The codes of each length fit it. *)
Definition feasible : Prop := forall l, (1 <= l <= 15)%nat -> next_code l + bl_count l <= 2 ^ Z.of_nat l.
End Canonical.

Lemma occ_app l xs ys : occ l (xs ++ ys) = occ l xs + occ l ys.
Proof. induction xs as [|x xs IH]; cbn [occ app]; lia. Qed.

Lemma occ_bounds l xs : 0 <= occ l xs <= Z.of_nat (length xs).
Proof. induction xs as [|x xs IH]; cbn [occ length]; [lia|]. destruct (x =? l); lia. Qed.

Lemma occ_take_S l xs i x : xs !! i = Some x -> occ l (take (S i) xs) = occ l (take i xs) + (if x =? l then 1 else 0).
Proof. intros H. rewrite (take_S_r _ _ _ H), occ_app. cbn [occ]. lia. Qed.

Lemma occ_take_le l xs i : occ l (take i xs) <= occ l xs.
Proof. rewrite <- (take_drop i xs) at 2. rewrite occ_app. pose proof (occ_bounds l (drop i xs)). lia. Qed.

Lemma occ_take_lt l xs i : xs !! i = Some l -> occ l (take i xs) < occ l xs.
Proof. intros H. pose proof (occ_take_S l xs i l H) as E. rewrite Z.eqb_refl in E. pose proof (occ_take_le l xs (S i)). lia. Qed.

Section Codes.
Context (lens : list Z).

Lemma bl_count_nonneg l : 0 <= bl_count lens l.
Proof. destruct l; cbn [bl_count]; [lia|apply occ_bounds]. Qed.

Lemma bl_count_pos l : 0 < l -> bl_count lens (Z.to_nat l) = occ l lens.
Proof. intros H. unfold bl_count. destruct (Z.to_nat l) eqn:E; [lia|]. by rewrite <- E, Z2Nat.id by lia. Qed.

Lemma shorter_nonneg l : 0 <= shorter lens l.
Proof. induction l; cbn [shorter]; [lia|]. pose proof (bl_count_nonneg l). lia. Qed.

Lemma shorter_mono l m : (l <= m)%nat -> shorter lens l <= shorter lens m.
Proof. induction 1; cbn [shorter]; [lia|]. pose proof (bl_count_nonneg m). lia. Qed.

Lemma next_code_nonneg l : 0 <= next_code lens l.
Proof. induction l; cbn [next_code]; [lia|]. pose proof (bl_count_nonneg l). lia. Qed.

(** A longer code starts behind all shorter ones. *)
Lemma next_code_ge m l : (m < l)%nat -> 2 ^ Z.of_nat (l - m) * (next_code lens m + bl_count lens m) <= next_code lens l.
Proof.
  induction 1 as [|l Hl IH]; cbn [next_code].
  - replace (S m - m)%nat with 1%nat by lia. change (2 ^ Z.of_nat 1) with 2. lia.
  - replace (S l - m)%nat with (S (l - m)) by lia. rewrite Nat2Z.inj_succ, Z.pow_succ_r by lia. pose proof (bl_count_nonneg l). nia.
Qed.

Lemma msb_length n v : length (msb n v) = n.
Proof. induction n; cbn; auto. Qed.

(** ** The tree of code lengths *)

Record tree_for (t : Tree) : Prop := {
  tf_table : table t = bl_count lens <$> seq 0 16;
  tf_trans i l : lens !! i = Some l -> 0 < l ->
    trans t !! Z.to_nat (shorter lens (Z.to_nat l) + occ l (take i lens)) = Some (Z.of_nat i);
}.

Lemma table_at t l : tree_for t -> (l <= 15)%nat -> at_index (table t) (Z.of_nat l) = Ok (bl_count lens l).
Proof.
  intros Ht Hl. unfold at_index. destruct (Z.ltb_spec (Z.of_nat l) 0); [lia|]. rewrite (tf_table _ Ht), Nat2Z.id, list_lookup_fmap.
  by rewrite lookup_seq_lt by lia.
Qed.

(** The loop follows a code to its last bit. *)
Lemma decode_loop_code t c l k rest j fuel :
  tree_for t -> (1 <= l <= 15)%nat -> c = next_code lens l + k -> 0 <= k < bl_count lens l -> (j < l)%nat -> (l - j <= fuel)%nat ->
  decode_loop fuel t (val (msb (l - j) c ++ rest)) (shorter lens (S j)) (Z.shiftr c (Z.of_nat (l - j)) - (next_code lens j + bl_count lens j))
    (Z.of_nat j) = Ok (val rest, Z.of_nat l, shorter lens l + k).
Proof.
  intros Ht Hl Hc Hk. revert fuel. remember (l - j)%nat as n eqn:En. revert j En.
  induction n as [|n IH]; intros j En fuel Hj Hf; [lia|]. destruct fuel as [|fuel]; [lia|]. cbn [decode_loop msb app val]. cbv zeta.
  set (b := Z.testbit c (Z.of_nat n)). set (x := val (msb n c ++ rest)).
  assert (Z.land (Z.b2z b + 2 * x) 1 = Z.b2z b) as ->.
  { change 1 with (2 ^ 1 - 1). rewrite land_ones_mod by lia. rewrite Z.mul_comm, Z.mod_add by lia. by destruct b. }
  assert (Z.shiftr (Z.b2z b + 2 * x) 1 = x) as ->.
  { rewrite Z.shiftr_div_pow2 by lia. change (2 ^ 1) with 2. rewrite Z.mul_comm, Z.div_add by lia. by destruct b. }
  replace (Z.of_nat j + 1) with (Z.of_nat (S j)) by lia. rewrite (table_at _ _ Ht) by lia. cbn [mbind result_bind].
  assert (Z.shiftr c (Z.of_nat n) = 2 * Z.shiftr c (Z.of_nat (S n)) + Z.b2z b) as Hs.
  { rewrite Nat2Z.inj_succ, <- Z.add_1_r, <- Z.shiftr_shiftr by lia. rewrite (Z.div2_odd (Z.shiftr c (Z.of_nat n))) at 1.
    rewrite Z.div2_spec. unfold b. by rewrite Z.testbit_odd. }
  replace (2 * (Z.shiftr c (Z.of_nat (S n)) - (next_code lens j + bl_count lens j)) + Z.b2z b - bl_count lens (S j))
    with (Z.shiftr c (Z.of_nat n) - (next_code lens (S j) + bl_count lens (S j))) by (rewrite Hs; cbn [next_code]; lia).
  destruct n as [|n].
  - assert (S j = l) as <- by lia. rewrite Z.shiftr_0_r. destruct (Z.leb_spec 0 (c - (next_code lens (S j) + bl_count lens (S j)))); [lia|].
    unfold x. cbn [msb app]. do 2 f_equal. cbn [shorter]. lia.
  - assert (next_code lens (S j) + bl_count lens (S j) <= Z.shiftr c (Z.of_nat (S n))) as Hge.
    { pose proof (next_code_ge (S j) l ltac:(lia)) as H. replace (l - S j)%nat with (S n) in H by lia.
      rewrite Z.shiftr_div_pow2 by lia. apply Z.div_le_lower_bound; lia. }
    destruct (Z.leb_spec 0 (Z.shiftr c (Z.of_nat (S n)) - (next_code lens (S j) + bl_count lens (S j)))); [|lia].
    unfold x. apply (IH (S j)); lia.
Qed.

(** Decoding the code of a symbol gives the symbol and leaves what follows. *)
Lemma decode_code t i l rest :
  tree_for t -> feasible lens -> lens !! i = Some l -> 1 <= l <= 15 ->
  decode_loop 16 t (val (code_bits lens i ++ rest)) 0 0 0 = Ok (val rest, l, shorter lens (Z.to_nat l) + occ l (take i lens)).
Proof.
  intros Ht Hf Hi Hl. unfold code_bits. rewrite Hi. unfold code. rewrite Z2Nat.id by lia.
  pose proof (occ_take_lt l lens i Hi) as Hlt. pose proof (occ_bounds l (take i lens)).
  pose proof (bl_count_pos l ltac:(lia)) as Hb.
  specialize (Hf (Z.to_nat l) ltac:(lia)). pose proof (next_code_nonneg (Z.to_nat l)) as Hn.
  set (c := next_code lens (Z.to_nat l) + occ l (take i lens)) in *.
  pose proof (decode_loop_code t c (Z.to_nat l) (occ l (take i lens)) rest 0 16 Ht ltac:(lia) eq_refl ltac:(lia) ltac:(lia) ltac:(lia)) as E.
  rewrite Nat.sub_0_r in E. cbn [shorter next_code bl_count] in E. rewrite Z2Nat.id in E by lia.
  assert (Z.shiftr c l = 0) as Hz.
  { rewrite Z.shiftr_div_pow2 by lia. apply Z.div_small. rewrite Z2Nat.id in Hf by lia. unfold c in *. lia. }
  rewrite Hz in E. exact E.
Qed.

(** Reading a symbol from the stream. *)
Lemma read_symbol t i l rest d :
  tree_for t -> feasible lens -> lens !! i = Some l -> 1 <= l <= 15 -> at_bits d (code_bits lens i ++ rest) ->
  exists d', tinf_decode_symbol t d = (Ok (Z.of_nat i), d') /\ at_bits d' rest /\ same_rest d d' /\ consumedBits d' = consumedBits d + l.
Proof.
  intros Ht Hf Hi Hl Hd. pose proof (tinf_decode_symbol_spec d _ t Hd) as H. rewrite (tf_table _ Ht), length_fmap, length_seq in H.
  specialize (H ltac:(lia)). rewrite (decode_code t i l rest Ht Hf Hi Hl) in H. destruct H as [_ H].
  assert (length (code_bits lens i) = Z.to_nat l) as Hlen by (unfold code_bits; rewrite Hi; apply msb_length).
  destruct (Nat.leb_spec (Z.to_nat l) (length (code_bits lens i ++ rest))) as [_|Hlt]; [|rewrite length_app in Hlt; lia].
  destruct H as (d' & E & Hd' & Hr & Hc). exists d'. rewrite <- Hlen, drop_app_length in Hd'. split_and!; [|done|done|done].
  rewrite E. f_equal. unfold at_index. pose proof (shorter_nonneg (Z.to_nat l)). pose proof (occ_bounds l (take i lens)).
  destruct (Z.ltb_spec (shorter lens (Z.to_nat l) + occ l (take i lens)) 0); [lia|]. by rewrite (tf_trans _ Ht i l Hi) by lia.
Qed.
End Codes.

(** ** Building the tree *)

Lemma foldM_snoc {A B} (f : A -> B -> result InflateError A) a l x :
  foldM f a (l ++ [x]) = (a' ← foldM f a l; f a' x).
Proof. revert a. induction l as [|y l IH]; intros a; cbn; [by destruct (f a x)|]. destruct (f a y); cbn; [apply IH|done]. Qed.

Lemma insert_fmap_seq (f g : nat -> Z) n m v :
  (n < m)%nat -> v = g n -> (forall i, i <> n -> f i = g i) -> <[n := v]> (f <$> seq 0 m) = g <$> seq 0 m.
Proof.
  intros Hn -> Hfg. apply list_eq. intros i. destruct (decide (i = n)) as [->|Hi].
  - rewrite list_lookup_insert_eq by (rewrite length_fmap, length_seq; lia). rewrite list_lookup_fmap, lookup_seq_lt by done. done.
  - rewrite list_lookup_insert_ne by done. rewrite !list_lookup_fmap. destruct (seq 0 m !! i) as [j|] eqn:E; [|done]. cbn.
    apply lookup_seq in E as [-> _]. by rewrite Hfg.
Qed.

Lemma shorter_cons x xs m :
  shorter (x :: xs) m = shorter xs m + (if (0 <? x) && (x <? Z.of_nat m) then 1 else 0).
Proof.
  induction m as [|m IH]; cbn [shorter].
  { destruct (Z.ltb_spec 0 x), (Z.ltb_spec x (Z.of_nat 0)); cbn [andb]; lia. }
  rewrite IH. unfold bl_count. destruct m; cbn [occ];
    repeat match goal with |- context [?a <? ?b] => destruct (Z.ltb_spec a b) | |- context [?a =? ?b] => destruct (Z.eqb_spec a b) end;
    cbn [andb]; lia.
Qed.

Lemma shorter_total xs m : shorter xs m <= Z.of_nat (length xs).
Proof.
  induction xs as [|x xs IH].
  - induction m as [|m IHm]; [done|]. cbn [shorter]. unfold bl_count. destruct m; cbn [occ]; cbn in IHm |- *; lia.
  - rewrite shorter_cons. cbn [length]. destruct (_ && _); lia.
Qed.

Section Build.
Context (lens lengths : list Z) (off : nat).
Hypothesis valid : valid_lengths lens.
Hypothesis stored : forall i l, lens !! i = Some l -> lengths !! (off + i)%nat = Some l.

Lemma length_at i l : lens !! i = Some l -> at_index lengths (Z.of_nat (off + i)) = Ok l /\ 0 <= l <= 15.
Proof.
  intros H. unfold at_index. destruct (Z.ltb_spec (Z.of_nat (off + i)) 0); [lia|]. rewrite Nat2Z.id, (stored _ _ H).
  split; [done|]. by apply (Forall_lookup_1 _ _ _ _ valid H).
Qed.

Lemma at_fmap_seq (f : nat -> Z) l : 0 <= l <= 15 -> at_index (f <$> seq 0 16) l = Ok (f (Z.to_nat l)).
Proof.
  intros H. unfold at_index. destruct (Z.ltb_spec l 0); [lia|]. by rewrite list_lookup_fmap, lookup_seq_lt by lia.
Qed.

Lemma count_lengths k :
  (k <= length lens)%nat ->
  foldM (count_length lengths off) (replicate 16 0) (seq 0 k) = Ok ((fun l => occ (Z.of_nat l) (take k lens)) <$> seq 0 16).
Proof.
  induction k as [|k IH]; intros Hk; [done|]. rewrite seq_S, foldM_snoc, IH by lia. cbn [mbind result_bind plus].
  destruct (lookup_lt_is_Some_2 lens k ltac:(lia)) as [l Hl]. destruct (length_at _ _ Hl) as [E Hr].
  unfold count_length. rewrite E. cbn [mbind result_bind]. rewrite at_fmap_seq by done. cbn [mbind result_bind]. f_equal.
  apply insert_fmap_seq; [lia| |].
  - rewrite (occ_take_S _ _ _ _ Hl), Z2Nat.id by lia. rewrite Z.eqb_refl. lia.
  - intros i Hi. rewrite (occ_take_S _ _ _ _ Hl). destruct (Z.eqb_spec l (Z.of_nat i)); lia.
Qed.

Lemma offsets_spec sum (f : nat -> Z) n m :
  offsets sum (f <$> seq n m) = (fun l => sum + foldr Z.add 0 (f <$> seq n (l - n))) <$> seq n m.
Proof.
  revert sum n. induction m as [|m IH]; intros sum n; cbn [seq fmap list_fmap offsets]; [done|]. f_equal; [rewrite Nat.sub_diag; cbn; lia|].
  rewrite IH. apply list_fmap_ext. intros i l Hl. apply lookup_seq in Hl as [-> _]. replace (S n + i - n)%nat with (S (S n + i - S n)) by lia.
  cbn. lia.
Qed.

Lemma sum_bl_count l : foldr Z.add 0 (bl_count lens <$> seq 0 l) = shorter lens l.
Proof.
  induction l as [|l IH]; [done|]. rewrite seq_S, fmap_app, foldr_app. cbn [shorter plus]. rewrite <- IH. cbn.
  generalize (bl_count lens <$> seq 0 l). intros xs. induction xs as [|x xs IHx]; cbn; lia.
Qed.

(** Where the next symbol of a length goes after [k] symbols. *)
Definition next_slot (k l : nat) : Z := shorter lens l + match l with O => 0 | _ => occ (Z.of_nat l) (take k lens) end.

Lemma slot_bounds i l : lens !! i = Some l -> 0 < l ->
  0 <= shorter lens (Z.to_nat l) + occ l (take i lens) < shorter lens (S (Z.to_nat l)).
Proof.
  intros Hi Hl. pose proof (shorter_nonneg lens (Z.to_nat l)). pose proof (occ_bounds l (take i lens)). pose proof (occ_take_lt l lens i Hi).
  cbn [shorter]. rewrite bl_count_pos by done. lia.
Qed.

Lemma place_symbols tr k :
  (k <= length lens)%nat -> (length lens <= length tr)%nat ->
  exists tr', foldM (place_symbol lengths off) (tr, next_slot 0 <$> seq 0 16) (seq 0 k) = Ok (tr', next_slot k <$> seq 0 16) /\
    length tr' = length tr /\
    forall i l, (i < k)%nat -> lens !! i = Some l -> 0 < l -> tr' !! Z.to_nat (shorter lens (Z.to_nat l) + occ l (take i lens)) = Some (Z.of_nat i).
Proof.
  intros Hk Htr. induction k as [|k IH]; [exists tr; split_and!; try done; intros; lia|].
  destruct IH as (tr' & E & Hlen & Hin); [lia|]. rewrite (seq_S k 0), foldM_snoc, E. cbn [mbind result_bind plus].
  destruct (lookup_lt_is_Some_2 lens k ltac:(lia)) as [l Hl]. destruct (length_at _ _ Hl) as [El Hr].
  unfold place_symbol. rewrite El. cbn [mbind result_bind]. destruct (Z.eqb_spec l 0) as [->|Hnz].
  - exists tr'. split_and!; [|done|].
    + do 2 f_equal. apply list_fmap_ext. intros i x Hx. apply lookup_seq in Hx as [-> _]. cbn [plus]. unfold next_slot. destruct i; [done|].
      rewrite (occ_take_S _ _ _ _ Hl). destruct (Z.eqb_spec 0 (Z.of_nat (S i))); lia.
    + intros i x Hi Hx Hpos. destruct (decide (i = k)) as [->|]; [rewrite Hl in Hx; injection Hx as <-; lia|]. apply Hin; [lia|done|done].
  - cbn [snd fst]. rewrite at_fmap_seq by lia. cbn [mbind result_bind].
    assert (next_slot k (Z.to_nat l) = shorter lens (Z.to_nat l) + occ l (take k lens)) as Es.
    { unfold next_slot. destruct (Z.to_nat l) eqn:En; [lia|]. rewrite <- En, Z2Nat.id by lia. done. }
    rewrite Es. eexists. split_and!; [f_equal; f_equal|by rewrite length_insert|].
    + apply insert_fmap_seq; [lia| |].
      * unfold next_slot. destruct (Z.to_nat l) eqn:En; [lia|]. rewrite <- En, Z2Nat.id by lia. rewrite (occ_take_S _ _ _ _ Hl), Z.eqb_refl. lia.
      * intros i Hi. unfold next_slot. destruct i; [done|]. rewrite (occ_take_S _ _ _ _ Hl). destruct (Z.eqb_spec l (Z.of_nat (S i))); lia.
    + intros i x Hi Hx Hpos. pose proof (slot_bounds k l Hl ltac:(lia)) as Bk. pose proof (slot_bounds i x Hx Hpos) as Bi.
      destruct (decide (i = k)) as [->|Hne].
      * rewrite Hl in Hx. injection Hx as <-. apply list_lookup_insert_eq. pose proof (shorter_total lens 16).
        pose proof (shorter_mono lens (S (Z.to_nat l)) 16 ltac:(lia)). lia.
      * rewrite list_lookup_insert_ne; [apply Hin; [lia|done|done]|]. intros Eq. apply Z2Nat.inj in Eq; [|lia|lia].
        destruct (Z.lt_trichotomy l x) as [Hlt|[->|Hgt]].
        -- pose proof (shorter_mono lens (S (Z.to_nat l)) (Z.to_nat x) ltac:(lia)). pose proof (occ_bounds x (take i lens)). lia.
        -- assert (occ x (take (S i) lens) <= occ x (take k lens)) as Hle.
           { replace (take (S i) lens) with (take (S i) (take k lens)) by (rewrite take_take; f_equal; lia). apply occ_take_le. }
           rewrite (occ_take_S _ _ _ _ Hx), Z.eqb_refl in Hle. lia.
        -- pose proof (shorter_mono lens (S (Z.to_nat x)) (Z.to_nat l) ltac:(lia)). pose proof (occ_bounds l (take k lens)). lia.
Qed.

(** Building succeeds, whatever the arrays of the tree held before. *)
Lemma tinf_build_tree_for t :
  (length lens <= length (trans t))%nat ->
  exists t', tinf_build_tree t lengths off (length lens) = Ok t' /\ tree_for lens t' /\ length (trans t') = length (trans t).
Proof.
  intros Htr. unfold tinf_build_tree. rewrite count_lengths by done. cbn [mbind result_bind].
  assert (<[0%nat := 0]> ((fun l => occ (Z.of_nat l) (take (length lens) lens)) <$> seq 0 16) = bl_count lens <$> seq 0 16) as ->.
  { apply insert_fmap_seq; [lia|done|]. intros i Hi. rewrite take_ge by done. destruct i; done. }
  assert (offsets 0 (bl_count lens <$> seq 0 16) = next_slot 0 <$> seq 0 16) as ->.
  { rewrite offsets_spec. apply list_fmap_ext. intros i l _. rewrite Nat.sub_0_r, sum_bl_count. unfold next_slot. rewrite take_0. destruct l; cbn [occ]; lia. }
  destruct (place_symbols (trans t) (length lens)) as (tr' & E & Hlen & Hin); [done|done|]. rewrite E. cbn [mbind result_bind fst].
  eexists. split; [done|]. split; [|done]. split; [done|]. intros i l Hi Hl. apply Hin; [by eapply lookup_lt_Some|done|done].
Qed.
End Build.
