(* ===== verification/InflateTheorems.v ===== *)
(** * The inflater decodes DEFLATE

    A stream is written by a reference encoder: stored, fixed and dynamic blocks of
    literals and back-references, with canonical codes for any feasible code
    lengths.  The inflater gives back what the stream stands for.  For any bytes at
    all it ends, within the bounds of its arrays and of the destination. *)

From S2P Require Import Prelude Inflate InflateBits Huffman.

Local Open Scope Z_scope.

(** ** What a stream stands for *)

(** A literal byte, or a length symbol and a distance symbol with their extra bits. *)
Inductive Symbol : Type := literal (b : nat) | back_reference (i : nat) (x : Z) (j : nat) (y : Z).

Definition nth_Z (l : list Z) (i : nat) : Z := default 0 (l !! i).

Definition match_length (i : nat) (x : Z) : Z := nth_Z length_base i + x.
Definition match_distance (j : nat) (y : Z) : Z := nth_Z dist_base j + y.

(** Byte for byte, so that a match may overlap what it writes. *)
Fixpoint copied (n dist : nat) (out : list Z) : list Z :=
  match n with O => out | S n => copied n dist (out ++ [nth_Z out (length out - dist)]) end.

Definition expand_symbol (out : list Z) (s : Symbol) : list Z :=
  match s with
  | literal b => out ++ [Z.of_nat b]
  | back_reference i x j y => copied (Z.to_nat (match_length i x)) (Z.to_nat (match_distance j y)) out
  end.
Definition expand (out : list Z) (ss : list Symbol) : list Z := foldl expand_symbol out ss.

(** What the codes of a block can say: symbols with a code, extra bits of the
    right number, and matches inside what was written. *)
Definition coded (lens : list Z) (i : nat) : Prop := exists l, lens !! i = Some l /\ 1 <= l <= 15.

Definition good_symbol (llens dlens : list Z) (out : list Z) (s : Symbol) : Prop :=
  match s with
  | literal b => (b < 256)%nat /\ coded llens b
  | back_reference i x j y =>
      (i < 29)%nat /\ (j < 30)%nat /\ coded llens (257 + i) /\ coded dlens j /\
      0 <= x < 2 ^ nth_Z length_bits i /\ 0 <= y < 2 ^ nth_Z dist_bits j /\ match_distance j y <= Z.of_nat (length out)
  end.

Fixpoint good_symbols (llens dlens : list Z) (out : list Z) (ss : list Symbol) : Prop :=
  match ss with
  | [] => True
  | s :: ss => good_symbol llens dlens out s /\ good_symbols llens dlens (expand_symbol out s) ss
  end.

(** ** The reference encoder of a block's symbols *)

Definition symbol_bits (llens dlens : list Z) (s : Symbol) : list bool :=
  match s with
  | literal b => code_bits llens b
  | back_reference i x j y =>
      code_bits llens (257 + i) ++ bits (Z.to_nat (nth_Z length_bits i)) x ++ code_bits dlens j ++ bits (Z.to_nat (nth_Z dist_bits j)) y
  end.
Definition data_bits (llens dlens : list Z) (ss : list Symbol) : list bool :=
  mjoin (symbol_bits llens dlens <$> ss) ++ code_bits llens 256.

Lemma data_bits_cons llens dlens s ss : data_bits llens dlens (s :: ss) = symbol_bits llens dlens s ++ data_bits llens dlens ss.
Proof. unfold data_bits. cbn [fmap list_fmap mjoin list_join]. by rewrite app_assoc. Qed.

(** The tables are those of RFC 1951, section 3.2.5. *)
Example rfc_length_base :
  take 29 length_base = [3; 4; 5; 6; 7; 8; 9; 10; 11; 13; 15; 17; 19; 23; 27; 31; 35; 43; 51; 59; 67; 83; 99; 115; 131; 163; 195; 227; 258].
Proof. done. Qed.
Example rfc_length_bits : take 29 length_bits = [0; 0; 0; 0; 0; 0; 0; 0; 1; 1; 1; 1; 2; 2; 2; 2; 3; 3; 3; 3; 4; 4; 4; 4; 5; 5; 5; 5; 0].
Proof. done. Qed.
Example rfc_dist_base :
  dist_base = [1; 2; 3; 4; 5; 7; 9; 13; 17; 25; 33; 49; 65; 97; 129; 193; 257; 385; 513; 769; 1025; 1537; 2049; 3073; 4097; 6145; 8193;
               12289; 16385; 24577].
Proof. done. Qed.
Example rfc_dist_bits :
  dist_bits = [0; 0; 0; 0; 1; 1; 2; 2; 3; 3; 4; 4; 5; 5; 6; 6; 7; 7; 8; 8; 9; 9; 10; 10; 11; 11; 12; 12; 13; 13].
Proof. done. Qed.

(** ** Writing *)

(** Only the reader and the destination moved. *)
Record same_block (d d' : Data) : Prop := {
  sb_capacity : capacity d' = capacity d;
  sb_ltree : ltree d' = ltree d;
  sb_dtree : dtree d' = dtree d;
  sb_source : source d' = source d;
  sb_code_tree : code_tree d' = code_tree d;
  sb_lengths : lengths d' = lengths d;
}.

Lemma same_block_refl d : same_block d d.
Proof. done. Qed.
Lemma same_block_trans d1 d2 d3 : same_block d1 d2 -> same_block d2 d3 -> same_block d1 d3.
Proof. intros [] []. split; congruence. Qed.
Lemma same_rest_block d d' : same_rest d d' -> same_block d d'.
Proof. by intros []. Qed.
Lemma same_block_dest d l : same_block d (set_dest l d).
Proof. done. Qed.
#[local] Hint Resolve same_block_refl same_rest_block same_block_dest : core.

Lemma at_bits_dest d bs l : at_bits d bs -> at_bits (set_dest l d) bs.
Proof. intros [[] Hb]. split; [by split|exact Hb]. Qed.

Lemma writeByte_spec d v : destLen d < capacity d -> writeByte v d = (Ok tt, set_dest (dest d ++ [v]) d).
Proof. intros H. unfold writeByte. rewrite run_get. destruct (Z.leb_spec (capacity d) (destLen d)); [lia|done]. Qed.

Lemma copied_length n dist out : length (copied n dist out) = (length out + n)%nat.
Proof. revert out. induction n as [|n IH]; intros out; cbn [copied]; [lia|]. rewrite IH, length_app. cbn. lia. Qed.

Lemma copy_match_spec n dist d :
  (1 <= dist <= length (dest d))%nat -> destLen d + Z.of_nat n <= capacity d ->
  copy_match (destLen d - Z.of_nat dist) n d = (Ok tt, set_dest (copied n dist (dest d)) d).
Proof.
  revert d. induction n as [|n IH]; intros d Hd Hc; cbn [copy_match copied]; [by destruct d|]. rewrite run_get.
  unfold destLen in *.
  assert (readAt (dest d) (Z.of_nat (length (dest d)) - Z.of_nat dist) d = (Ok (nth_Z (dest d) (length (dest d) - dist)), d)) as E.
  { unfold readAt, lift, at_index, nth_Z. destruct (Z.ltb_spec (Z.of_nat (length (dest d)) - Z.of_nat dist) 0); [lia|].
    replace (Z.to_nat (Z.of_nat (length (dest d)) - Z.of_nat dist)) with (length (dest d) - dist)%nat by lia.
    destruct (lookup_lt_is_Some_2 (dest d) (length (dest d) - dist)) as [v ->]; [lia|done]. }
  rewrite (run_Ok _ _ _ _ _ E). rewrite (run_Ok _ _ _ _ _ (writeByte_spec d _ ltac:(unfold destLen; lia))).
  set (d1 := set_dest _ d). replace (Z.of_nat (length (dest d)) - Z.of_nat dist + 1) with (Z.of_nat (length (dest d1)) - Z.of_nat dist)
    by (unfold d1; cbn; rewrite length_app; cbn; lia).
  rewrite IH; [done|unfold d1; cbn; rewrite length_app; cbn; lia..].
Qed.

(** ** The symbols of a block *)

Lemma read_bits_of n v base rest d :
  at_bits d (bits n v ++ rest) -> (n <= 16)%nat -> 0 <= v < 2 ^ Z.of_nat n ->
  exists d', tinf_read_bits (Z.of_nat n) base d = (Ok (v + base), d') /\ at_bits d' rest /\ same_rest d d' /\
    consumedBits d' = consumedBits d + Z.of_nat n.
Proof.
  intros H Hn Hv. pose proof (tinf_read_bits_spec d _ (Z.of_nat n) base H ltac:(lia)) as E. rewrite Nat2Z.id in E.
  destruct (Nat.leb_spec n (length (bits n v ++ rest))) as [_|Hlt]; [|rewrite length_app, bits_length in Hlt; lia].
  destruct E as (d' & E & H1 & H2 & H3). exists d'. rewrite take_app_length' in E by by rewrite bits_length. rewrite val_bits in E by done.
  rewrite drop_app_length' in H1 by by rewrite bits_length. done.
Qed.

Lemma at_nth (l : list Z) i d : (i < length l)%nat -> readAt l (Z.of_nat i) d = (Ok (nth_Z l i), d).
Proof.
  intros H. unfold readAt, lift, at_index, nth_Z. destruct (Z.ltb_spec (Z.of_nat i) 0); [lia|]. rewrite Nat2Z.id.
  by destruct (lookup_lt_is_Some_2 l i H) as [v ->].
Qed.

Lemma table_bounds :
  Forall (fun b => 0 <= b <= 5) (take 29 length_bits) /\ Forall (fun b => 0 <= b <= 13) dist_bits /\
  Forall (fun b => 3 <= b) (take 29 length_base) /\ Forall (fun b => 1 <= b) dist_base.
Proof. rewrite rfc_length_bits, rfc_dist_bits, rfc_length_base, rfc_dist_base. repeat split; repeat constructor; lia. Qed.

Lemma nth_bound (P : Z -> Prop) l n i : Forall P (take n l) -> (i < n)%nat -> (i < length l)%nat -> P (nth_Z l i).
Proof.
  intros H Hn Hl. unfold nth_Z. destruct (lookup_lt_is_Some_2 l i Hl) as [v E]. rewrite E. cbn.
  apply (Forall_lookup_1 _ _ i v H). by rewrite lookup_take_lt.
Qed.

Section Data.
Context (llens dlens : list Z) (lt dt : Tree).
Hypothesis lt_for : tree_for llens lt.
Hypothesis dt_for : tree_for dlens dt.
Hypothesis lf : feasible llens.
Hypothesis df : feasible dlens.

Lemma read_coded lens t i rest d :
  tree_for lens t -> feasible lens -> coded lens i -> at_bits d (code_bits lens i ++ rest) ->
  exists d', tinf_decode_symbol t d = (Ok (Z.of_nat i), d') /\ at_bits d' rest /\ same_rest d d'.
Proof.
  intros Ht Hf (l & Hi & Hl) Hd. destruct (read_symbol lens t i l rest d Ht Hf Hi Hl Hd) as (d' & E & H1 & H2 & _). by exists d'.
Qed.

Lemma inflate_match_spec i x j y rest d :
  good_symbol llens dlens (dest d) (back_reference i x j y) ->
  at_bits d (bits (Z.to_nat (nth_Z length_bits i)) x ++ code_bits dlens j ++ bits (Z.to_nat (nth_Z dist_bits j)) y ++ rest) ->
  destLen d + match_length i x <= capacity d ->
  exists d', inflate_match (Z.of_nat i) dt d = (Ok tt, d') /\ at_bits d' rest /\ same_block d d' /\
    dest d' = expand_symbol (dest d) (back_reference i x j y).
Proof.
  intros (Hi & Hj & _ & Hcj & Hx & Hy & Hdist) H Hcap. destruct table_bounds as (B1 & B2 & B3 & B4).
  assert (length length_bits = 30%nat /\ length length_base = 30%nat /\ length dist_bits = 30%nat /\ length dist_base = 30%nat) as (L1 & L2 & L3 & L4) by done.
  apply (nth_bound _ _ 29 i) in B1; [|lia|lia]. apply (nth_bound _ _ 29 i) in B3; [|lia|lia].
  apply (nth_bound _ dist_bits 30 j) in B2; [|lia|lia]. apply (nth_bound _ dist_base 30 j) in B4; [|lia|lia].
  cbv beta in B1, B2, B3, B4.
  unfold inflate_match. destruct (Z.ltb_spec (Z.of_nat i) 0); [lia|]. rewrite L1. destruct (Z.leb_spec (Z.of_nat 30) (Z.of_nat i)); [lia|]. cbn [orb].
  rewrite (run_Ok _ _ _ _ _ (at_nth length_bits i d ltac:(lia))), (run_Ok _ _ _ _ _ (at_nth length_base i d ltac:(lia))).
  destruct (read_bits_of _ x (nth_Z length_base i) _ d H) as (d1 & E1 & K1 & R1 & _); [lia|by rewrite Z2Nat.id by lia|].
  rewrite Z2Nat.id in E1 by lia. rewrite (run_Ok _ _ _ _ _ E1).
  destruct (read_coded dlens dt j _ d1 dt_for df Hcj K1) as (d2 & E2 & K2 & R2). rewrite (run_Ok _ _ _ _ _ E2).
  destruct (Z.ltb_spec (Z.of_nat j) 0); [lia|]. rewrite L3. destruct (Z.leb_spec (Z.of_nat 30) (Z.of_nat j)); [lia|]. cbn [orb].
  rewrite (run_Ok _ _ _ _ _ (at_nth dist_bits j d2 ltac:(lia))), (run_Ok _ _ _ _ _ (at_nth dist_base j d2 ltac:(lia))).
  destruct (read_bits_of _ y (nth_Z dist_base j) _ d2 K2) as (d3 & E3 & K3 & R3 & _); [lia|by rewrite Z2Nat.id by lia|].
  rewrite Z2Nat.id in E3 by lia. rewrite (run_Ok _ _ _ _ _ E3), run_get. cbv zeta.
  pose proof (same_rest_trans _ _ _ R1 (same_rest_trans _ _ _ R2 R3)) as R. pose proof (sr_dest _ _ R) as Ed. pose proof (sr_capacity _ _ R) as Ec.
  unfold match_length, match_distance, destLen in *. rewrite Ed, Ec.
  destruct (Z.ltb_spec (Z.of_nat (length (dest d)) - (y + nth_Z dist_base j)) 0); [lia|].
  destruct (Z.leb_spec (Z.of_nat (length (dest d))) (Z.of_nat (length (dest d)) - (y + nth_Z dist_base j))); [lia|].
  destruct (Z.ltb_spec (capacity d) (Z.of_nat (length (dest d)) + (x + nth_Z length_base i))); [lia|]. cbn [orb].
  pose proof (copy_match_spec (Z.to_nat (x + nth_Z length_base i)) (Z.to_nat (y + nth_Z dist_base j)) d3) as Hcopy.
  unfold destLen in Hcopy. rewrite Ed, Ec, !Z2Nat.id in Hcopy by lia. rewrite Hcopy by lia.
  eexists. split; [done|]. split; [by apply at_bits_dest|]. split; [eapply same_block_trans; [apply same_rest_block, R|done]|].
  cbn [dest set_dest expand_symbol]. unfold match_length, match_distance. by rewrite (Z.add_comm _ x), (Z.add_comm _ y).
Qed.

(** The data of a block is decoded to what it stands for. *)
Lemma block_data_spec ss fuel rest d :
  coded llens 256 -> good_symbols llens dlens (dest d) ss -> at_bits d (data_bits llens dlens ss ++ rest) ->
  Z.of_nat (length (expand (dest d) ss)) <= capacity d -> (length ss < fuel)%nat ->
  exists d', tinf_inflate_block_data fuel lt dt d = (Ok tt, d') /\ at_bits d' rest /\ same_block d d' /\ dest d' = expand (dest d) ss.
Proof.
  intros Heob. revert fuel d. induction ss as [|s ss IH]; intros fuel d Hg H Hc Hf; destruct fuel as [|fuel]; [lia| |lia|]; cbn [tinf_inflate_block_data].
  - unfold data_bits in H. cbn in H. destruct (read_coded llens lt 256 rest d lt_for lf Heob H) as (d1 & E & K1 & R).
    rewrite (run_Ok _ _ _ _ _ E). cbn. exists d1. split_and!; [done|done|by apply same_rest_block|exact (sr_dest _ _ R)].
  - destruct Hg as [Hs Hg]. cbn [expand foldl] in Hc.
    assert (length (expand_symbol (dest d) s) <= length (expand (expand_symbol (dest d) s) ss))%nat as Hmono.
    { clear. generalize (expand_symbol (dest d) s). induction ss as [|s' ss IH]; intros out; cbn; [lia|]. etransitivity; [|apply IH].
      destruct s'; cbn; [rewrite length_app; lia|rewrite copied_length; lia]. }
    enough (exists d', (sym ← tinf_decode_symbol lt; if sym =? 256 then mret tt else _ ← (if sym <? 256 then writeByte sym else inflate_match (sym - 257) dt);
                          tinf_inflate_block_data fuel lt dt) d = tinf_inflate_block_data fuel lt dt d' /\
            at_bits d' (data_bits llens dlens ss ++ rest) /\ same_block d d' /\ dest d' = expand_symbol (dest d) s) as (d' & E & K1 & R & Ed).
    { rewrite <- Ed in Hg, Hc. destruct (IH fuel d') as (d2 & E2 & K2 & R2 & Ed2); [done|done|rewrite (sb_capacity _ _ R); exact Hc|cbn in Hf; lia|].
      exists d2. rewrite E, E2. split_and!; [done|done|by eapply same_block_trans|]. by rewrite Ed2, Ed. }
    rewrite data_bits_cons, <- app_assoc in H. unfold expand in Hmono. destruct s as [b|i x j y]; cbn [symbol_bits] in H.
    + destruct Hs as [Hb Hcb]. destruct (read_coded llens lt b _ d lt_for lf Hcb H) as (d1 & E & K1 & R).
      rewrite (run_Ok _ _ _ _ _ E). destruct (Z.eqb_spec (Z.of_nat b) 256); [lia|]. destruct (Z.ltb_spec (Z.of_nat b) 256); [|lia].
      cbn in Hmono. rewrite length_app in Hmono. cbn in Hmono, Hc.
      rewrite (run_Ok _ _ _ _ _ (writeByte_spec d1 _ ltac:(unfold destLen; rewrite (sr_dest _ _ R), (sr_capacity _ _ R); lia))).
      eexists. split; [done|]. split; [by apply at_bits_dest|]. split; [eapply same_block_trans; [apply same_rest_block, R|done]|]. cbn. by rewrite (sr_dest _ _ R).
    + destruct Hs as (Hi & Hj & Hci & Hs). rewrite <- !app_assoc in H. destruct (read_coded llens lt (257 + i) _ d lt_for lf Hci H) as (d1 & E & K1 & R).
      rewrite (run_Ok _ _ _ _ _ E). destruct (Z.eqb_spec (Z.of_nat (257 + i)) 256); [lia|]. destruct (Z.ltb_spec (Z.of_nat (257 + i)) 256); [lia|].
      replace (Z.of_nat (257 + i) - 257) with (Z.of_nat i) by lia. destruct table_bounds as (_ & _ & B3 & _). apply (nth_bound _ _ 29 i) in B3; [cbv beta in B3|lia|cbn; lia].
      assert (Z.of_nat (length (expand_symbol (dest d) (back_reference i x j y))) <= capacity d) as Hcap by lia.
      cbn [expand_symbol] in Hcap. rewrite copied_length in Hcap. unfold match_length in Hcap.
      destruct (inflate_match_spec i x j y (data_bits llens dlens ss ++ rest) d1) as (d2 & E2 & K2 & R2 & Ed2).
      * rewrite (sr_dest _ _ R). exact (conj Hi (conj Hj (conj Hci Hs))).
      * exact K1.
      * unfold destLen, match_length. rewrite (sr_dest _ _ R), (sr_capacity _ _ R). destruct Hs as (_ & Hx & _). lia.
      * rewrite (run_Ok _ _ _ _ _ E2). exists d2. split_and!; [done|done|eapply same_block_trans; [apply same_rest_block, R|done]|]. by rewrite Ed2, (sr_dest _ _ R).
Qed.
End Data.
