(* ===== verification/InflateStream.v ===== *)
(** * Whole DEFLATE streams

    The header of a dynamic block, the three kinds of block and the sequence of
    blocks, each written by a reference encoder and read back by the inflater. *)

From S2P Require Import Prelude Inflate InflateBits Huffman InflateTheorems.

Local Open Scope Z_scope.

(** ** The code lengths of a dynamic block *)

(** One length, or a run: of the length before, or of zeros. *)
Inductive LengthToken : Type := one (l : nat) | again (x : Z) | zeros_short (x : Z) | zeros_long (x : Z).

Definition expand_length (acc : list Z) (t : LengthToken) : list Z :=
  match t with
  | one l => acc ++ [Z.of_nat l]
  | again x => acc ++ replicate (Z.to_nat (x + 3)) (default 0 (last acc))
  | zeros_short x => acc ++ replicate (Z.to_nat (x + 3)) 0
  | zeros_long x => acc ++ replicate (Z.to_nat (x + 11)) 0
  end.
Definition expand_lengths (acc : list Z) (ts : list LengthToken) : list Z := foldl expand_length acc ts.

Definition length_bits_of (clens : list Z) (t : LengthToken) : list bool :=
  match t with
  | one l => code_bits clens l
  | again x => code_bits clens 16 ++ bits 2 x
  | zeros_short x => code_bits clens 17 ++ bits 3 x
  | zeros_long x => code_bits clens 18 ++ bits 7 x
  end.

Definition good_length (clens : list Z) (acc : list Z) (t : LengthToken) : Prop :=
  match t with
  | one l => (l <= 15)%nat /\ coded clens l
  | again x => 0 <= x < 4 /\ coded clens 16 /\ acc <> []
  | zeros_short x => 0 <= x < 8 /\ coded clens 17
  | zeros_long x => 0 <= x < 128 /\ coded clens 18
  end.
Fixpoint good_lengths (clens acc : list Z) (ts : list LengthToken) : Prop :=
  match ts with [] => True | t :: ts => good_length clens acc t /\ good_lengths clens (expand_length acc t) ts end.

(** What the reader of the header leaves alone. *)
Record same_output (d d' : Data) : Prop := {
  so_dest : dest d' = dest d;
  so_capacity : capacity d' = capacity d;
  so_source : source d' = source d;
}.
Lemma same_output_refl d : same_output d d.
Proof. done. Qed.
Lemma same_output_trans d1 d2 d3 : same_output d1 d2 -> same_output d2 d3 -> same_output d1 d3.
Proof. intros [] []. split; congruence. Qed.

Record same_header (d d' : Data) : Prop := {
  sh_output : same_output d d';
  sh_ltree : ltree d' = ltree d;
  sh_dtree : dtree d' = dtree d;
  sh_code_tree : code_tree d' = code_tree d;
}.
Lemma same_header_refl d : same_header d d.
Proof. done. Qed.
Lemma same_header_trans d1 d2 d3 : same_header d1 d2 -> same_header d2 d3 -> same_header d1 d3.
Proof. intros [] []. split; [by eapply same_output_trans|congruence..]. Qed.
Lemma same_rest_header d d' : same_rest d d' -> same_header d d'.
Proof. by intros []. Qed.
Lemma same_block_output d d' : same_block d d' -> dest d' = dest d -> same_output d d'.
Proof. by intros []. Qed.

Lemma at_bits_lengths d bs l : at_bits d bs -> at_bits (set_lengths l d) bs.
Proof. intros [[] Hb]. split; [by split|exact Hb]. Qed.
Lemma at_bits_trees d bs c l t : at_bits d bs -> at_bits (set_trees c l t d) bs.
Proof. intros [[] Hb]. split; [by split|exact Hb]. Qed.

(** The first entries of the scratch array. *)
Definition holds (d : Data) (acc : list Z) : Prop := length (lengths d) = 320%nat /\ take (length acc) (lengths d) = acc.

Lemma put_length_holds d acc v :
  holds d acc -> (length acc < 320)%nat ->
  exists d', put_length (Z.of_nat (length acc)) v d = (Ok tt, d') /\ holds d' (acc ++ [v]) /\ same_header d d' /\
    (forall bs, at_bits d bs -> at_bits d' bs).
Proof.
  intros [Hlen Hacc] Hlt. eexists. split; [done|]. rewrite Nat2Z.id. split; [|split; [done|intros; by apply at_bits_lengths]].
  split; cbn; [by rewrite length_insert|]. rewrite length_app. cbn. rewrite Nat.add_1_r.
  rewrite (take_S_r _ _ v) by (apply list_lookup_insert_eq; lia). by rewrite take_insert_ge, Hacc by done.
Qed.

Lemma put_repeated_holds v n d acc :
  holds d acc -> (length acc + n <= 320)%nat ->
  exists d', put_repeated v (Z.of_nat (length acc)) n d = (Ok tt, d') /\ holds d' (acc ++ replicate n v) /\ same_header d d' /\
    (forall bs, at_bits d bs -> at_bits d' bs).
Proof.
  revert d acc. induction n as [|n IH]; intros d acc H Hle; cbn [put_repeated replicate].
  { exists d. rewrite app_nil_r. split_and!; done. }
  destruct (put_length_holds d acc v H) as (d1 & E & H1 & R1 & B1); [lia|]. rewrite (run_Ok _ _ _ _ _ E).
  destruct (IH d1 (acc ++ [v]) H1) as (d2 & E2 & H2 & R2 & B2); [rewrite length_app; cbn; lia|].
  rewrite length_app in E2. cbn in E2. replace (Z.of_nat (length acc) + 1) with (Z.of_nat (length acc + 1)) by lia.
  exists d2. rewrite <- app_assoc in H2. split_and!; [done|done|by eapply same_header_trans|auto].
Qed.

Lemma appendRepeated_holds total v n d acc :
  holds d acc -> total <= 320 -> Z.of_nat (length acc) + n <= total -> 0 <= n ->
  exists d', appendRepeated total (Z.of_nat (length acc)) v n d = (Ok (Z.of_nat (length acc) + n), d') /\
    holds d' (acc ++ replicate (Z.to_nat n) v) /\ same_header d d' /\ (forall bs, at_bits d bs -> at_bits d' bs).
Proof.
  intros H Ht Hn Hpos. unfold appendRepeated. destruct (Z.ltb_spec total (Z.of_nat (length acc) + n)); [lia|].
  destruct (put_repeated_holds v (Z.to_nat n) d acc H) as (d1 & E & H1 & R1 & B1); [lia|]. rewrite (run_Ok _ _ _ _ _ E). by exists d1.
Qed.

Lemma holds_last d acc : holds d acc -> acc <> [] -> readAt (lengths d) (Z.of_nat (length acc) - 1) d = (Ok (default 0 (last acc)), d).
Proof.
  intros [Hlen Hacc] Hne. destruct (exists_last Hne) as (ys & y & ->). rewrite last_snoc. rewrite length_app in *. cbn [length] in *.
  unfold readAt, lift, at_index. destruct (Z.ltb_spec (Z.of_nat (length ys + 1) - 1) 0); [lia|].
  replace (Z.to_nat (Z.of_nat (length ys + 1) - 1)) with (length ys) by lia.
  assert (lengths d !! length ys = Some y) as ->; [|done].
  rewrite <- (lookup_take_lt (lengths d) (length ys + 1)) by lia. rewrite Hacc. by rewrite lookup_app_r, Nat.sub_diag by done.
Qed.

Lemma expand_length_longer clens acc t : good_length clens acc t -> (length acc < length (expand_length acc t))%nat.
Proof. destruct t; cbn; intros H; rewrite length_app, ?length_replicate; cbn; lia. Qed.

Lemma expand_lengths_longer clens acc ts : good_lengths clens acc ts -> (length acc + length ts <= length (expand_lengths acc ts))%nat.
Proof.
  revert acc. induction ts as [|t ts IH]; intros acc; cbn; [lia|]. intros [Ht Hts]. apply IH in Hts. apply expand_length_longer in Ht.
  unfold expand_lengths in *. lia.
Qed.

Lemma holds_rest d d' acc : same_rest d d' -> holds d acc -> holds d' acc.
Proof. intros R []. split; by rewrite (sr_lengths _ _ R). Qed.

(** A run with its extra bits. *)
Lemma store_run n (v base x total : Z) rest d acc :
  at_bits d (bits n x ++ rest) -> (n <= 16)%nat -> 0 <= x < 2 ^ Z.of_nat n -> holds d acc -> total <= 320 ->
  0 <= base -> Z.of_nat (length acc) + (x + base) <= total ->
  exists d', (length ← tinf_read_bits (Z.of_nat n) base; appendRepeated total (Z.of_nat (List.length acc)) v length) d =
      (Ok (Z.of_nat (length acc) + (x + base)), d') /\
    holds d' (acc ++ replicate (Z.to_nat (x + base)) v) /\ at_bits d' rest /\ same_header d d'.
Proof.
  intros H Hn Hx Hh Ht Hb Hle. destruct (read_bits_of n x base _ d H Hn Hx) as (d1 & E1 & B1 & R1 & _).
  destruct (appendRepeated_holds total v (x + base) d1 acc (holds_rest _ _ _ R1 Hh) Ht Hle) as (d2 & E2 & H2 & R2 & B2); [lia|].
  exists d2. rewrite (run_Ok _ _ _ _ _ E1), E2. split_and!; [done|done|by apply B2|]. eapply same_header_trans; [by apply same_rest_header|done].
Qed.

(** The symbol of a token. *)
Definition length_symbol (t : LengthToken) : nat := match t with one l => l | again _ => 16 | zeros_short _ => 17 | zeros_long _ => 18 end.
Definition length_extra (t : LengthToken) : list bool :=
  match t with one l => [] | again x => bits 2 x | zeros_short x => bits 3 x | zeros_long x => bits 7 x end.

Lemma length_bits_split clens t : length_bits_of clens t = code_bits clens (length_symbol t) ++ length_extra t.
Proof. destruct t; cbn; by rewrite ?app_nil_r. Qed.
Lemma good_length_coded clens acc t : good_length clens acc t -> coded clens (length_symbol t).
Proof. destruct t; cbn; tauto. Qed.

Lemma store_lengths_spec clens t total rest d acc :
  good_length clens acc t -> holds d acc -> at_bits d (length_extra t ++ rest) ->
  Z.of_nat (length (expand_length acc t)) <= total -> total <= 320 ->
  exists d', store_lengths total (Z.of_nat (length acc)) (Z.of_nat (length_symbol t)) d = (Ok (Z.of_nat (length (expand_length acc t))), d') /\
    holds d' (expand_length acc t) /\ at_bits d' rest /\ same_header d d'.
Proof.
  intros Hg Hh H Hlen Ht. unfold store_lengths.
  destruct t as [l|x|x|x]; cbn [good_length length_symbol length_extra expand_length] in *; rewrite ?length_app, ?length_replicate in *.
  - destruct Hg as [Hl _]. destruct (Z.eqb_spec (Z.of_nat l) 16), (Z.eqb_spec (Z.of_nat l) 17), (Z.eqb_spec (Z.of_nat l) 18); try lia.
    destruct (put_length_holds d acc (Z.of_nat l) Hh) as (d1 & E & H1 & R1 & B1); [cbn in Hlen; lia|].
    exists d1. rewrite (run_Ok _ _ _ _ _ E). split_and!; [|done|by apply B1|done]. unfold mret, method_ret. do 2 f_equal. cbn. lia.
  - destruct Hg as (Hx & _ & Hne). change (Z.of_nat 16 =? 16) with true. cbv iota.
    destruct (Z.eqb_spec (Z.of_nat (length acc)) 0) as [E0|_]; [destruct acc; [done|cbn in E0; lia]|].
    rewrite run_get, (run_Ok _ _ _ _ _ (holds_last _ _ Hh Hne)).
    destruct (store_run 2 (default 0 (last acc)) 3 x total rest d acc H) as (d1 & E & R); try done; try lia.
    exists d1. change (Z.of_nat 2) with 2 in E. rewrite E. split; [|done]. do 2 f_equal. lia.
  - destruct Hg as (Hx & _). change (Z.of_nat 17 =? 16) with false. change (Z.of_nat 17 =? 17) with true. cbv iota.
    destruct (store_run 3 0 3 x total rest d acc H) as (d1 & E & R); try done; try lia. exists d1. change (Z.of_nat 3) with 3 in E. rewrite E. split; [|done]. do 2 f_equal. lia.
  - destruct Hg as (Hx & _). change (Z.of_nat 18 =? 16) with false. change (Z.of_nat 18 =? 17) with false. change (Z.of_nat 18 =? 18) with true. cbv iota.
    destruct (store_run 7 0 11 x total rest d acc H) as (d1 & E & R); try done; try lia. exists d1. change (Z.of_nat 7) with 7 in E. rewrite E. split; [|done]. do 2 f_equal. lia.
Qed.

(** The lengths are read into the scratch array. *)
Lemma decode_lengths_spec clens ts fuel total acc rest d :
  tree_for clens (code_tree d) -> feasible clens -> good_lengths clens acc ts -> holds d acc ->
  at_bits d (mjoin (length_bits_of clens <$> ts) ++ rest) ->
  Z.of_nat (length (expand_lengths acc ts)) = total -> total <= 320 -> (length ts <= fuel)%nat ->
  exists d', decode_lengths fuel total (Z.of_nat (length acc)) d = (Ok tt, d') /\ holds d' (expand_lengths acc ts) /\
    at_bits d' rest /\ same_header d d'.
Proof.
  intros Hc Hf. revert fuel acc d Hc. induction ts as [|t ts IH]; intros fuel acc d Hc Hg Hh H Ht Hle Hfuel.
  { exists d. cbn in *. split; [|done]. destruct fuel; cbn [decode_lengths]; (destruct (Z.ltb_spec (Z.of_nat (length acc)) total); [lia|done]). }
  destruct fuel as [|fuel]; [cbn in Hfuel; lia|]. cbn [decode_lengths]. pose proof (expand_lengths_longer _ _ _ Hg) as Hlong. cbn [length] in Hlong.
  destruct Hg as [Hgt Hgs]. pose proof (expand_lengths_longer _ _ _ Hgs) as Hlong2.
  cbn [expand_lengths foldl] in Ht. fold (expand_lengths (expand_length acc t) ts) in Ht. cbn [expand_lengths foldl] in Hlong. fold (expand_lengths (expand_length acc t) ts) in Hlong.
  destruct (Z.ltb_spec (Z.of_nat (length acc)) total) as [_|Hx]; [|lia]. rewrite run_get.
  cbn [fmap list_fmap mjoin list_join] in H. rewrite length_bits_split, <- !app_assoc in H.
  destruct (read_coded _ _ _ _ d Hc Hf (good_length_coded _ _ _ Hgt) H) as (d1 & E & H1 & R1). rewrite (run_Ok _ _ _ _ _ E).
  destruct (store_lengths_spec clens t total (mjoin (length_bits_of clens <$> ts) ++ rest) d1 acc Hgt (holds_rest _ _ _ R1 Hh) H1) as (d2 & E2 & H2 & B2 & R2); [lia|done|].
  rewrite (run_Ok _ _ _ _ _ E2). pose proof (same_header_trans _ _ _ (same_rest_header _ _ R1) R2) as R.
  destruct (IH fuel (expand_length acc t) d2) as (d3 & E3 & H3 & B3 & R3); try done.
  - by rewrite (sh_code_tree _ _ R).
  - cbn in Hfuel. lia.
  - exists d3. split_and!; [done|done|done|by eapply same_header_trans].
Qed.

(** ** The header of a dynamic block *)

Record Header : Type := {
  hclen : nat;
  clens : list Z;
  tokens : list LengthToken;
  llens : list Z;
  dlens : list Z;
}.

Definition clc (i : nat) : nat := Z.to_nat (nth_Z clcidx i).

Definition header_bits (h : Header) : list bool :=
  bits 5 (Z.of_nat (length (llens h)) - 257) ++ bits 5 (Z.of_nat (length (dlens h)) - 1) ++ bits 4 (Z.of_nat (hclen h) - 4) ++
  mjoin ((fun i => bits 3 (nth_Z (clens h) (clc i))) <$> seq 0 (hclen h)) ++ mjoin (length_bits_of (clens h) <$> tokens h).

Record good_header (h : Header) : Prop := {
  gh_hclen : (4 <= hclen h <= 19)%nat;
  gh_clens : length (clens h) = 19%nat /\ Forall (fun l => 0 <= l <= 7) (clens h) /\ feasible (clens h);
  gh_unsent c : (c < 19)%nat -> c ∉ clc <$> seq 0 (hclen h) -> nth_Z (clens h) c = 0;
  gh_tokens : good_lengths (clens h) [] (tokens h) /\ expand_lengths [] (tokens h) = llens h ++ dlens h;
  gh_counts : (257 <= length (llens h) <= 288)%nat /\ (1 <= length (dlens h) <= 32)%nat;
  gh_feasible : feasible (llens h) /\ feasible (dlens h);
}.

Lemma clear_lengths_spec n d :
  (n <= length (lengths d))%nat ->
  exists d', clear_lengths n d = (Ok tt, d') /\ same_header d d' /\ (forall bs, at_bits d bs -> at_bits d' bs) /\
    length (lengths d') = length (lengths d) /\ forall c, (c < n)%nat -> lengths d' !! c = Some 0.
Proof.
  induction n as [|n IH]; intros Hn; cbn [clear_lengths].
  { exists d. split_and!; try done. intros; lia. }
  destruct IH as (d1 & E & R & B & L & Hz); [lia|]. rewrite (run_Ok _ _ _ _ _ E).
  eexists. split; [done|]. cbn [lengths set_lengths]. rewrite Nat2Z.id, length_insert. split_and!.
  - eapply same_header_trans; [exact R|done].
  - intros bs Hb. by apply at_bits_lengths, B.
  - done.
  - intros c Hc. destruct (decide (c = n)) as [->|]; [apply list_lookup_insert_eq; lia|]. rewrite list_lookup_insert_ne by done. apply Hz. lia.
Qed.

Lemma read_code_lengths_spec cls order rest d :
  Forall (fun l => 0 <= l <= 7) cls -> Forall (fun i => i < 19)%nat order -> (19 <= length (lengths d))%nat ->
  at_bits d (mjoin ((fun i => bits 3 (nth_Z cls (clc i))) <$> order) ++ rest) ->
  exists d', read_code_lengths order d = (Ok tt, d') /\ same_header d d' /\ at_bits d' rest /\ length (lengths d') = length (lengths d) /\
    forall c, (c < length (lengths d))%nat -> lengths d' !! c = if decide (c ∈ clc <$> order) then Some (nth_Z cls c) else lengths d !! c.
Proof.
  intros Hcl. revert d. induction order as [|i order IH]; intros d Ho Hl H; cbn [read_code_lengths].
  { exists d. split_and!; try done. }
  apply Forall_cons in Ho as [Hi Ho]. cbn [fmap list_fmap mjoin list_join] in H. rewrite <- app_assoc in H.
  assert (0 <= nth_Z cls (clc i) <= 7) as Hv.
  { unfold nth_Z at 1 2. destruct (cls !! clc i) eqn:E; cbn; [|lia]. by apply (Forall_lookup_1 _ _ _ _ Hcl E). }
  destruct (read_bits_of 3 _ 0 _ d H) as (d1 & E1 & B1 & R1 & _); [lia|cbn; lia|]. change (Z.of_nat 3) with 3 in E1. rewrite (run_Ok _ _ _ _ _ E1).
  rewrite (run_Ok _ _ _ _ _ (at_nth clcidx i d1 Hi)), Z.add_0_r.
  set (d2 := set_lengths (<[clc i := nth_Z cls (clc i)]> (lengths d)) d1).
  assert (put_length (nth_Z clcidx i) (nth_Z cls (clc i)) d1 = (Ok tt, d2)) as E2 by (unfold d2; by rewrite <- (sr_lengths _ _ R1)).
  rewrite (run_Ok _ _ _ _ _ E2).
  destruct (IH d2) as (d3 & E3 & R3 & B3 & L3 & H3); [done|by cbn; rewrite length_insert|by apply at_bits_lengths|].
  exists d3. cbn [lengths set_lengths d2] in L3, H3. rewrite length_insert in L3, H3. split_and!; [done| |done|done|].
  - eapply same_header_trans; [apply same_rest_header, R1|]. eapply same_header_trans; [|exact R3]. done.
  - intros c Hc. rewrite H3 by done. cbn [fmap list_fmap]. destruct (decide (c ∈ clc <$> order)) as [Hin|Hnin].
    + by rewrite decide_True by by right.
    + destruct (decide (c = clc i)) as [->|Hne].
      * rewrite decide_True by left. by apply list_lookup_insert_eq.
      * rewrite decide_False by (intros [?|?]%elem_of_cons; done). by apply list_lookup_insert_ne.
Qed.

(** The trees are built with their full arrays. *)
Definition full (d : Data) : Prop :=
  length (lengths d) = 320%nat /\ length (trans (code_tree d)) = 288%nat /\ length (trans (ltree d)) = 288%nat /\ length (trans (dtree d)) = 288%nat.

Lemma good_lengths_valid cls acc ts : valid_lengths acc -> good_lengths cls acc ts -> valid_lengths (expand_lengths acc ts).
Proof.
  revert acc. induction ts as [|t ts IH]; intros acc Ha; [done|]. intros [Ht Hts]. apply IH; [|done]. unfold valid_lengths in *.
  destruct t as [l|x|x|x]; cbn [expand_length good_length] in *; apply Forall_app; (split; [done|]).
  - repeat constructor; lia.
  - apply Forall_replicate. destruct (last acc) as [v|] eqn:E; cbn; [|lia]. apply last_Some in E as [l ->]. apply Forall_app in Ha as [_ Ha]. by apply Forall_cons in Ha as [Ha _].
  - apply Forall_replicate. lia.
  - apply Forall_replicate. lia.
Qed.

Lemma tinf_decode_trees_spec h rest d :
  good_header h -> full d -> at_bits d (header_bits h ++ rest) ->
  exists d', tinf_decode_trees d = (Ok tt, d') /\ at_bits d' rest /\ same_output d d' /\ full d' /\
    tree_for (llens h) (ltree d') /\ tree_for (dlens h) (dtree d').
Proof.
  intros [Hn (Hcl & Hcv & Hcf) Hun [Hg Hexp] [Hcl1 Hcl2] _] (F1 & F2 & F3 & F4) H. unfold header_bits in H. rewrite <- !app_assoc in H.
  unfold tinf_decode_trees.
  destruct (read_bits_of 5 _ 257 _ d H) as (d1 & E1 & B1 & R1 & _); [lia|cbn; lia|]. change (Z.of_nat 5) with 5 in E1. rewrite (run_Ok _ _ _ _ _ E1).
  destruct (read_bits_of 5 _ 1 _ d1 B1) as (d2 & E2 & B2 & R2 & _); [lia|cbn; lia|]. change (Z.of_nat 5) with 5 in E2. rewrite (run_Ok _ _ _ _ _ E2).
  destruct (read_bits_of 4 _ 4 _ d2 B2) as (d3 & E3 & B3 & R3 & _); [lia|cbn; lia|]. change (Z.of_nat 4) with 4 in E3. rewrite (run_Ok _ _ _ _ _ E3).
  rewrite !Z.sub_add. rewrite !Nat2Z.id. pose proof (same_rest_trans _ _ _ R1 (same_rest_trans _ _ _ R2 R3)) as R.
  destruct (clear_lengths_spec 19 d3) as (d4 & E4 & R4 & B4 & L4 & Z4); [rewrite (sr_lengths _ _ R), F1; lia|]. rewrite (run_Ok _ _ _ _ _ E4).
  rewrite (sr_lengths _ _ R), F1 in L4.
  destruct (read_code_lengths_spec (clens h) (seq 0 (hclen h)) (mjoin (length_bits_of (clens h) <$> tokens h) ++ rest) d4) as (d5 & E5 & R5 & B5 & L5 & H5).
  { done. } { apply Forall_seq. lia. } { rewrite L4. lia. } { by apply B4. }
  rewrite (run_Ok _ _ _ _ _ E5), run_get. pose proof (same_header_trans _ _ _ (same_rest_header _ _ R) (same_header_trans _ _ _ R4 R5)) as R'.
  destruct (tinf_build_tree_for (clens h) (lengths d5) 0) with (t := code_tree d5) as (c & E6 & C6 & L6).
  { eapply Forall_impl; [exact Hcv|]. cbn. lia. }
  { intros i l Hi. cbn [plus]. pose proof (lookup_lt_Some _ _ _ Hi). rewrite H5 by lia. assert (nth_Z (clens h) i = l) as Hl by (unfold nth_Z; by rewrite Hi).
    destruct (decide _) as [Hin|Hnin]; [by rewrite Hl|]. rewrite Z4 by lia. by rewrite <- Hl, Hun by (done || lia). }
  { rewrite (sh_code_tree _ _ R'). lia. }
  rewrite Hcl in E6. rewrite run_lift, E6, run_modify.
  set (d6 := set_trees c (ltree d5) (dtree d5) d5).
  destruct (decode_lengths_spec (clens h) (tokens h) (Z.to_nat (Z.of_nat (length (llens h)) + Z.of_nat (length (dlens h))))
              (Z.of_nat (length (llens h)) + Z.of_nat (length (dlens h))) [] rest d6) as (d7 & E7 & [L7 H7] & B7 & R7).
  { done. } { done. } { done. } { split; [cbn; lia|done]. } { by apply at_bits_trees. }
  { rewrite Hexp, length_app. lia. } { lia. }
  { pose proof (expand_lengths_longer _ _ _ Hg) as Hlong. rewrite Hexp, length_app in Hlong. cbn in Hlong. lia. }
  cbn [length Z.of_nat] in E7. rewrite (run_Ok _ _ _ _ _ E7), run_get. rewrite Hexp in H7.
  assert (valid_lengths (llens h ++ dlens h)) as Hv by (rewrite <- Hexp; eapply good_lengths_valid; [constructor|exact Hg]).
  assert (forall i l, (llens h ++ dlens h) !! i = Some l -> lengths d7 !! i = Some l) as H7'.
  { intros i l Hi. rewrite <- H7 in Hi. by apply lookup_take_Some in Hi as [? _]. }
  apply Forall_app in Hv as [Hvl Hvd].
  destruct (tinf_build_tree_for (llens h) (lengths d7) 0 Hvl) with (t := ltree d7) as (l & E8 & C8 & L8).
  { intros i l Hi. apply H7'. by apply lookup_app_l_Some. }
  { rewrite (sh_ltree _ _ R7). cbn. rewrite (sh_ltree _ _ R'), F3. lia. }
  destruct (tinf_build_tree_for (dlens h) (lengths d7) (length (llens h)) Hvd) with (t := dtree d7) as (t & E9 & C9 & L9).
  { intros i l' Hi. apply H7'. rewrite lookup_app_r by lia. by replace (length (llens h) + i - length (llens h))%nat with i by lia. }
  { rewrite (sh_dtree _ _ R7). cbn. rewrite (sh_dtree _ _ R'), F4. lia. }
  rewrite run_lift, E8, run_lift, E9. eexists. split; [done|]. split_and!; [by apply at_bits_trees| | |done|done].
  - destruct (sh_output _ _ R') as [O1 O2 O3], (sh_output _ _ R7) as [P1 P2 P3]. cbn in *. split; cbn; congruence.
  - unfold full. cbn. split_and!; [done| | |].
    + rewrite (sh_code_tree _ _ R7). cbn. rewrite L6, (sh_code_tree _ _ R'). exact F2.
    + rewrite L8, (sh_ltree _ _ R7). cbn. rewrite (sh_ltree _ _ R'). exact F3.
    + rewrite L9, (sh_dtree _ _ R7). cbn. rewrite (sh_dtree _ _ R'). exact F4.
Qed.

(** ** Blocks *)

Definition fixed_llens : list Z := replicate 144 8 ++ replicate 112 9 ++ replicate 24 7 ++ replicate 8 8.
Definition fixed_dlens : list Z := replicate 32 5.

Definition trans_matches (lens : list Z) (t : Tree) : bool :=
  forallb (fun i => let l := nth_Z lens i in
    (l <=? 0) || bool_decide (trans t !! Z.to_nat (shorter lens (Z.to_nat l) + occ l (take i lens)) = Some (Z.of_nat i))) (seq 0 (length lens)).

Lemma tree_for_check lens t : table t = bl_count lens <$> seq 0 16 -> trans_matches lens t = true -> tree_for lens t.
Proof.
  intros Ht H. split; [done|]. intros i l Hi Hl. unfold trans_matches in H. rewrite forallb_forall in H.
  specialize (H i). cbv beta zeta in H. assert (nth_Z lens i = l) as E by (unfold nth_Z; by rewrite Hi). rewrite E in H.
  destruct (Z.leb_spec l 0); [lia|]. cbn [orb] in H. apply (bool_decide_eq_true_1 _), H. apply in_seq. split; [lia|]. apply lookup_lt_Some in Hi. lia.
Qed.

Lemma fixed_trees : tree_for fixed_llens sltree /\ tree_for fixed_dlens sdtree.
Proof. split; apply tree_for_check; by vm_compute. Qed.

Definition feasible_check (lens : list Z) : bool := forallb (fun l => next_code lens l + bl_count lens l <=? 2 ^ Z.of_nat l) (seq 1 15).
Lemma feasible_check_spec lens : feasible_check lens = true -> feasible lens.
Proof. unfold feasible_check. rewrite forallb_forall. intros H l Hl. apply Z.leb_le, H, in_seq. lia. Qed.

Lemma fixed_feasible : feasible fixed_llens /\ feasible fixed_dlens.
Proof. split; apply feasible_check_spec; by vm_compute. Qed.

(** [skipped] are the bits before the byte boundary a stored block starts its
    bytes at: an encoder may put anything there. *)
Inductive Block : Type :=
| stored (skipped : list bool) (data : list Z)
| fixed (symbols : list Symbol)
| dynamic (h : Header) (symbols : list Symbol).

Definition expand_block (out : list Z) (b : Block) : list Z :=
  match b with stored _ data => out ++ data | fixed ss => expand out ss | dynamic _ ss => expand out ss end.

(** The bits up to the next byte boundary. *)
Definition padding (position : nat) : nat := (7 - (position + 7) mod 8)%nat.

(** Length and its complement, then the bytes. *)
Definition stored_bytes (data : list Z) : list Z :=
  let n := Z.of_nat (length data) in [n mod 256; n / 256; 255 - n mod 256; 255 - n / 256] ++ data.

Definition block_bits (position : nat) (final : bool) (b : Block) : list bool :=
  final :: match b with
  | stored skipped data => bits 2 0 ++ skipped ++ all_bits (stored_bytes data)
  | fixed ss => bits 2 1 ++ data_bits fixed_llens fixed_dlens ss
  | dynamic h ss => bits 2 2 ++ header_bits h ++ data_bits (llens h) (dlens h) ss
  end.

(** What the format asks of a block: a length of sixteen bits, coded symbols, and
    matches that reach no further back than the output. *)
Definition good_block (position : nat) (out : list Z) (b : Block) : Prop :=
  match b with
  | stored skipped data => length skipped = padding (position + 3) /\ Z.of_nat (length data) < 65536 /\ Forall is_octet data
  | fixed ss => good_symbols fixed_llens fixed_dlens out ss
  | dynamic h ss => good_header h /\ coded (llens h) 256 /\ good_symbols (llens h) (dlens h) out ss
  end.

(** What the inflater asks besides: the three bits that open a stored block do not
    end on a byte boundary, or the byte behind them is taken for padding
    ([aligned_stored_block] below). *)
Definition unaligned_block (position : nat) (b : Block) : Prop :=
  match b with stored _ _ => ((position + 3) mod 8 <> 0)%nat | _ => True end.

(** The source bytes behind a byte boundary. *)
Lemma all_bits_drop n s : drop (8 * n) (all_bits s) = all_bits (drop n s).
Proof.
  destruct (decide (n <= length s)%nat) as [Hn|Hn].
  - rewrite <- (take_drop n s) at 1. rewrite all_bits_app, drop_app_length'; [done|]. rewrite all_bits_length, length_take_le; lia.
  - rewrite !drop_ge; [done|lia|rewrite all_bits_length; lia].
Qed.

Lemma bits_inj n v w : 0 <= v < 2 ^ Z.of_nat n -> 0 <= w < 2 ^ Z.of_nat n -> bits n v = bits n w -> v = w.
Proof. intros Hv Hw H. by rewrite <- (val_bits n v Hv), <- (val_bits n w Hw), H. Qed.

Lemma all_bits_prefix s l rest :
  Forall is_octet s -> Forall is_octet l -> all_bits s = all_bits l ++ rest -> exists s', s = l ++ s' /\ all_bits s' = rest.
Proof.
  intros Hs Hl. revert s Hs. induction Hl as [|b l Hb _ IH]; intros s Hs H; [by exists s|].
  destruct Hs as [|c s Hc Hs].
  - apply (f_equal length) in H. rewrite length_app, !all_bits_length in H. cbn in H. lia.
  - rewrite !all_bits_cons, <- app_assoc in H. apply app_inj_1 in H as [Hbits H]; [|unfold byte_bits; by rewrite !bits_length].
    apply bits_inj in Hbits as ->; [|done|done]. destruct (IH s Hs H) as (s' & -> & Hs'). by exists s'.
Qed.

(** Giving back whole bytes of lookahead. *)
Lemma unread_spec fuel d bs :
  standing d bs -> bitcount d <= 8 * Z.of_nat fuel + 8 ->
  exists d', unread fuel d = (Ok tt, d') /\ same_rest d d' /\ paddingReads d' = paddingReads d /\ consumedBits d' = consumedBits d /\
    8 * sourceIndex d' = consumedBits d + bitcount d' /\ bitcount d' <= 8 /\ (0 < bitcount d -> 0 < bitcount d') /\ sourceIndex d' <= sourceIndex d /\ 0 <= bitcount d'.
Proof.
  intros H. pose proof (st_index _ _ H) as Hx. pose proof (st_count _ _ H) as Hc. clear H. revert d Hx Hc.
  induction fuel as [|fuel IH]; intros d Hx Hc Hf; cbn [unread]; [exists d; split_and!; done || lia|]. rewrite run_get.
  destruct (Z.ltb_spec 8 (bitcount d)) as [Hlt|Hge]; [|exists d; split_and!; done || lia]. rewrite run_modify.
  set (d1 := set_bits _ _ _). destruct (IH d1) as (d2 & E & R & P & C & S & B & B' & I & N); [cbn; lia|cbn; lia|cbn; lia|].
  exists d2. cbn in C, S, B', I, P. split_and!; try done; try lia. eapply same_rest_trans; [|exact R]. done.
Qed.

Lemma copy_source_spec n d data rest :
  drop (Z.to_nat (sourceIndex d)) (source d) = data ++ rest -> length data = n -> 0 <= sourceIndex d ->
  destLen d + Z.of_nat n <= capacity d ->
  copy_source n d = (Ok tt, set_dest (dest d ++ data) (set_source (sourceIndex d + Z.of_nat n) (paddingReads d) d)).
Proof.
  revert d data. induction n as [|n IH]; intros d data Hd Hn Hi Hc; cbn [copy_source].
  { destruct data; [|done]. rewrite app_nil_r, Z.add_0_r. by destruct d. }
  destruct data as [|v data]; [done|]. injection Hn as Hn. rewrite run_get.
  assert (source d !! Z.to_nat (sourceIndex d) = Some v) as Ev.
  { replace (Z.to_nat (sourceIndex d)) with (Z.to_nat (sourceIndex d) + 0)%nat by lia. by rewrite <- lookup_drop, Hd. }
  assert (readAt (source d) (sourceIndex d) d = (Ok v, d)) as E.
  { unfold readAt, lift, at_index. destruct (Z.ltb_spec (sourceIndex d) 0); [lia|]. by rewrite Ev. }
  rewrite (run_Ok _ _ _ _ _ E), run_modify. set (d1 := set_source _ _ d).
  rewrite (run_Ok _ _ _ _ _ (writeByte_spec d1 v ltac:(unfold destLen in *; cbn; lia))).
  rewrite (IH _ data); cbn [dest set_dest sourceIndex source set_source capacity destLen d1].
  - f_equal. unfold set_dest, set_source. cbn. f_equal; [by rewrite <- app_assoc|lia].
  - replace (Z.to_nat (sourceIndex d + 1)) with (Z.to_nat (sourceIndex d) + 1)%nat by lia. by rewrite <- drop_drop, Hd.
  - done.
  - lia.
  - unfold destLen in *. cbn. rewrite length_app. cbn. lia.
Qed.

Lemma complement n : 0 <= n < 65536 -> Z.land (Z.lnot (65535 - n)) 65535 = n.
Proof.
  intros H. change 65535 with (2 ^ 16 - 1) at 2. rewrite land_ones_mod by lia. unfold Z.lnot.
  replace (Z.pred (- (65535 - n))) with (n + (-1) * 2 ^ 16) by lia. rewrite Z.mod_add by lia. apply Z.mod_small. lia.
Qed.

Lemma stored_block_spec skipped data rest d :
  length skipped = padding (Z.to_nat (consumedBits d)) -> Z.of_nat (length data) < 65536 -> Forall is_octet data -> consumedBits d mod 8 <> 0 ->
  at_bits d (skipped ++ all_bits (stored_bytes data) ++ rest) ->
  destLen d + Z.of_nat (length data) <= capacity d ->
  exists d', tinf_inflate_uncompressed_block d = (Ok tt, d') /\ between_blocks d' rest /\ same_block d d' /\ dest d' = dest d ++ data /\
    code_tree d' = code_tree d.
Proof.
  intros Hskip Hlen Hoct Hmod [Hs _] Hcap. pose proof (st_consumed _ _ Hs) as Hcons. pose proof (st_count _ _ Hs) as Hcount. pose proof (st_index _ _ Hs) as Hindex.
  unfold tinf_inflate_uncompressed_block.
  destruct (unread_spec 4 d _ Hs ltac:(lia)) as (d1 & E1 & R1 & P1 & C1 & S1 & B1 & B1' & I1 & N1).
  assert (0 < bitcount d1 < 8) as Hb.
  { assert (bitcount d1 <> 0 /\ bitcount d1 <> 8) as [? ?]; [|lia]. split; intros Hb; apply Hmod; rewrite Hb in S1.
    - replace (consumedBits d) with (sourceIndex d1 * 8) by lia. apply Z.mod_mul. lia.
    - replace (consumedBits d) with ((sourceIndex d1 - 1) * 8) by lia. apply Z.mod_mul. lia. }
  assert (Z.to_nat (consumedBits d) + padding (Z.to_nat (consumedBits d)) = 8 * Z.to_nat (sourceIndex d1))%nat as Hpad.
  { unfold padding. replace (Z.to_nat (consumedBits d) + 7)%nat with ((7 - Z.to_nat (bitcount d1)) + Z.to_nat (sourceIndex d1) * 8)%nat by lia.
    rewrite Nat.Div0.mod_add, Nat.mod_small by lia. lia. }
  set (n := Z.of_nat (length data)) in *. pose proof (st_octets _ _ Hs) as Hos.
  assert (all_bits (drop (Z.to_nat (sourceIndex d1)) (source d)) = all_bits (stored_bytes data) ++ rest) as Hsrc.
  { rewrite <- all_bits_drop, <- Hpad, <- drop_drop, <- (st_bits _ _ Hs), drop_app_length'; done. }
  assert (Forall is_octet (stored_bytes data)) as Hob.
  { unfold stored_bytes. fold n. pose proof (Z.mod_pos_bound n 256 ltac:(lia)). pose proof (Z.div_pos n 256 ltac:(lia) ltac:(lia)).
    assert (n / 256 < 256) by (apply Z.div_lt_upper_bound; lia). unfold is_octet. repeat constructor; try lia. done. }
  destruct (all_bits_prefix _ _ _ (Forall_drop _ _ _ Hos) Hob Hsrc) as (s' & Hsplit & Hrest).
  rewrite (run_Ok _ _ _ _ _ E1), run_get, run_modify. set (d2 := set_consumed _ d1).
  assert (source d1 = source d) as Es1 by exact (sr_source _ _ R1).
  assert (forall k, (k < 4)%nat -> readAt (source d1) (sourceIndex d1 + Z.of_nat k) d2 = (Ok (nth_Z (stored_bytes data) k), d2)) as Hrd.
  { intros k Hk. unfold readAt, lift, at_index. destruct (Z.ltb_spec (sourceIndex d1 + Z.of_nat k) 0); [lia|].
    replace (Z.to_nat (sourceIndex d1 + Z.of_nat k)) with (Z.to_nat (sourceIndex d1) + k)%nat by lia.
    rewrite Es1, <- lookup_drop, Hsplit, lookup_app_l by (unfold stored_bytes; cbn; lia).
    unfold nth_Z. destruct (lookup_lt_is_Some_2 (stored_bytes data) k) as [v ->]; [unfold stored_bytes; cbn; lia|done]. }
  rewrite (run_Ok _ _ _ _ _ (Hrd 1%nat ltac:(lia))). pose proof (Hrd 0%nat ltac:(lia)) as H0. rewrite Z.add_0_r in H0. rewrite (run_Ok _ _ _ _ _ H0).
  rewrite (run_Ok _ _ _ _ _ (Hrd 3%nat ltac:(lia))), (run_Ok _ _ _ _ _ (Hrd 2%nat ltac:(lia))). cbv zeta.
  change (nth_Z (stored_bytes data) 0) with (n mod 256). change (nth_Z (stored_bytes data) 1) with (n / 256).
  change (nth_Z (stored_bytes data) 2) with (255 - n mod 256). change (nth_Z (stored_bytes data) 3) with (255 - n / 256).
  assert (256 * (n / 256) + n mod 256 = n) as En by (rewrite <- Z.div_mod; lia). rewrite En.
  replace (256 * (255 - n / 256) + (255 - n mod 256)) with (65535 - n) by lia. rewrite complement, Z.eqb_refl by lia. cbn [negb].
  rewrite run_modify. set (d3 := set_source _ _ d2).
  assert (length (source d) = Z.to_nat (sourceIndex d1) + (4 + length data + length s'))%nat as Hsl.
  { apply (f_equal length) in Hsplit. rewrite length_drop, length_app in Hsplit. unfold stored_bytes in Hsplit. cbn in Hsplit. lia. }
  rewrite (run_Ok _ _ _ _ _ (copy_source_spec (Z.to_nat n) d3 data s' ltac:(cbn; rewrite Es1;
    replace (Z.to_nat (sourceIndex d1 + 4)) with (Z.to_nat (sourceIndex d1) + 4)%nat by lia; by rewrite <- drop_drop, Hsplit) ltac:(lia) ltac:(cbn; lia)
    ltac:(unfold destLen in *; cbn; rewrite (sr_dest _ _ R1), (sr_capacity _ _ R1); lia))).
  rewrite run_get, run_modify. eexists. split; [done|]. cbn. rewrite (sr_dest _ _ R1), (sr_code_tree _ _ R1). split_and!; [|by destruct R1|done|done].
  split; [|by left]. split; cbn; rewrite ?Es1; try done; try lia.
  - rewrite P1, (st_padding _ _ Hs). lia.
  - replace (Z.to_nat ((sourceIndex d1 + 4 + Z.of_nat (Z.to_nat n)) * 8)) with (8 * (Z.to_nat (sourceIndex d1) + (4 + length data)))%nat by lia.
    rewrite all_bits_drop, <- drop_drop, Hsplit. rewrite drop_app_length'; [done|]. by unfold stored_bytes.
Qed.

(** Blocks keep the scratch arrays at their size. *)
Lemma same_block_full d d' : same_block d d' -> full d -> full d'.
Proof. intros R (H1 & H2 & H3 & H4). unfold full. by rewrite (sb_lengths _ _ R), (sb_code_tree _ _ R), (sb_ltree _ _ R), (sb_dtree _ _ R). Qed.

Lemma expand_symbols_length llens dlens ss out :
  good_symbols llens dlens out ss -> (length out + length ss <= length (expand out ss))%nat.
Proof.
  unfold expand. revert out. induction ss as [|s ss IH]; intros out; cbn; [lia|]. intros [Hs Hss]. apply IH in Hss.
  enough (length out < length (expand_symbol out s))%nat by lia. destruct s as [b|i x j y]; cbn; [rewrite length_app; cbn; lia|].
  rewrite copied_length. destruct Hs as (Hi & _ & _ & _ & Hx & _). destruct table_bounds as (_ & _ & B & _).
  apply (nth_bound _ _ 29 i) in B; [cbv beta in B|lia|cbn; lia]. unfold match_length. lia.
Qed.

(** The fuel of a block is enough: every symbol takes a bit. *)
Lemma data_bits_length llens dlens out ss :
  good_symbols llens dlens out ss -> (length ss <= length (data_bits llens dlens ss))%nat.
Proof.
  assert (forall lens i, coded lens i -> (1 <= length (code_bits lens i))%nat) as Hc.
  { intros lens i (l & Hi & Hl). unfold code_bits. rewrite Hi, msb_length. lia. }
  revert out. induction ss as [|s ss IH]; intros out; [cbn; lia|]. intros [Hs Hss]. rewrite data_bits_cons, length_app. apply IH in Hss.
  enough (1 <= length (symbol_bits llens dlens s))%nat by (cbn; lia). destruct s as [b|i x j y]; cbn [symbol_bits good_symbol] in *.
  - apply Hc, Hs.
  - rewrite length_app. destruct Hs as (_ & _ & Hci & _). specialize (Hc _ _ Hci). lia.
Qed.

Definition bool_Z (b : bool) : Z := if b then 1 else 0.

Lemma inflate_block_spec b final rest d :
  good_block (Z.to_nat (consumedBits d)) (dest d) b -> unaligned_block (Z.to_nat (consumedBits d)) b -> full d ->
  between_blocks d (block_bits (Z.to_nat (consumedBits d)) final b ++ rest) ->
  Z.of_nat (length (expand_block (dest d) b)) <= capacity d ->
  exists d', inflate_block d = (Ok (bool_Z final), d') /\ between_blocks d' rest /\ full d' /\
    dest d' = expand_block (dest d) b /\ capacity d' = capacity d /\ source d' = source d.
Proof.
  intros Hg Hpos Hfull H Hcap. pose proof (tinf_getbit_spec d _ H) as Hbit. cbn [block_bits app] in Hbit. destruct Hbit as (d1 & E1 & H1 & R1 & C1).
  pose proof (st_consumed _ _ (proj1 H)) as Hcons.
  unfold inflate_block. rewrite (run_Ok _ _ _ _ _ E1). replace (Z.b2z final) with (bool_Z final) by (by destruct final).
  assert (full d1) as F1 by (eapply same_block_full; [apply same_rest_block, R1|done]).
  assert (forall t payload, 0 <= t < 3 -> at_bits d1 (bits 2 t ++ payload) ->
    exists d2, tinf_read_bits 2 0 d1 = (Ok t, d2) /\ at_bits d2 payload /\ same_rest d d2 /\ consumedBits d2 = consumedBits d + 3 /\ full d2) as Htype.
  { intros t payload Ht Hb. destruct (read_bits_of 2 t 0 payload d1 Hb) as (d2 & E & Hb2 & R2 & C2); [lia|cbn; lia|].
    rewrite Z.add_0_r in E. exists d2. split_and!; [done|done|by eapply same_rest_trans|lia|]. eapply same_block_full; [apply same_rest_block, R2|done]. }
  destruct b as [skipped data|ss|h ss]; cbn [good_block unaligned_block expand_block] in *; rewrite <- !app_assoc in H1.
  - destruct Hg as (Hskip & Hlen & Hoct). destruct (Htype 0 _ ltac:(lia) H1) as (d2 & E2 & H2 & R2 & C2 & F2). rewrite (run_Ok _ _ _ _ _ E2), run_get.
    replace (Z.to_nat (consumedBits d) + 3)%nat with (Z.to_nat (consumedBits d2)) in Hskip, Hpos by lia.
    destruct (stored_block_spec skipped data rest d2 Hskip Hlen Hoct) as (d3 & E3 & H3 & R3 & D3 & _).
    + intros Hz. apply Hpos. apply Nat2Z.inj. rewrite Nat2Z.inj_mod, Z2Nat.id by lia. exact Hz.
    + exact H2.
    + unfold destLen. rewrite (sr_dest _ _ R2), (sr_capacity _ _ R2). rewrite length_app in Hcap. lia.
    + cbn [Z.eqb]. rewrite (run_Ok _ _ _ _ _ E3). exists d3. split_and!; [done|done|by eapply same_block_full| | |].
      * by rewrite D3, (sr_dest _ _ R2).
      * by rewrite (sb_capacity _ _ R3), (sr_capacity _ _ R2).
      * by rewrite (sb_source _ _ R3), (sr_source _ _ R2).
  - destruct (Htype 1 _ ltac:(lia) H1) as (d2 & E2 & H2 & R2 & C2 & F2). rewrite (run_Ok _ _ _ _ _ E2), run_get. change (1 =? 0) with false. change (1 =? 1) with true. cbv iota.
    pose proof (data_bits_length _ _ _ _ Hg) as Hfuel. pose proof (standing_length _ _ (proj1 H2)) as Hl. rewrite length_app in Hl.
    destruct (block_data_spec fixed_llens fixed_dlens sltree sdtree) with (ss := ss) (fuel := (8 * length (source d2) + 1)%nat) (rest := rest) (d := d2) as (d3 & E3 & H3 & R3 & D3).
    { apply fixed_trees. } { apply fixed_trees. } { apply fixed_feasible. } { apply fixed_feasible. }
    { exists 7. split; [by vm_compute|lia]. } { by rewrite (sr_dest _ _ R2). } { done. }
    { by rewrite (sr_dest _ _ R2), (sr_capacity _ _ R2). } { lia. }
    rewrite (run_Ok _ _ _ _ _ E3). exists d3. split_and!; [done|destruct H3; split; [done|by right]|by eapply same_block_full| | |].
    + by rewrite D3, (sr_dest _ _ R2).
    + by rewrite (sb_capacity _ _ R3), (sr_capacity _ _ R2).
    + by rewrite (sb_source _ _ R3), (sr_source _ _ R2).
  - destruct Hg as (Hh & Heob & Hss).
    destruct (Htype 2 _ ltac:(lia) H1) as (d2 & E2 & H2 & R2 & C2 & F2). rewrite (run_Ok _ _ _ _ _ E2), run_get.
    change (2 =? 0) with false. change (2 =? 1) with false. change (2 =? 2) with true. cbv iota.
    destruct (tinf_decode_trees_spec h _ d2 Hh F2 H2) as (d3 & E3 & H3 & R3 & F3 & Tl & Td).
    pose proof (data_bits_length _ _ _ _ Hss) as Hfuel. pose proof (standing_length _ _ (proj1 H3)) as Hl. rewrite length_app in Hl.
    destruct (gh_feasible _ Hh) as [Hfl Hfd].
    destruct (block_data_spec (llens h) (dlens h) (ltree d3) (dtree d3)) with (ss := ss) (fuel := (8 * length (source d3) + 1)%nat) (rest := rest) (d := d3)
      as (d4 & E4 & H4 & R4 & D4); try done.
    { by rewrite (so_dest _ _ R3), (sr_dest _ _ R2). }
    { by rewrite (so_dest _ _ R3), (sr_dest _ _ R2), (so_capacity _ _ R3), (sr_capacity _ _ R2). }
    { pose proof (st_consumed _ _ (proj1 H3)). lia. }
    unfold mbind at 1, method_bind at 1. rewrite (run_Ok _ _ _ _ _ E3), run_get, E4. exists d4. split_and!; [done|destruct H4; split; [done|by right]|by eapply same_block_full| | |].
    + by rewrite D4, (so_dest _ _ R3), (sr_dest _ _ R2).
    + by rewrite (sb_capacity _ _ R4), (so_capacity _ _ R3), (sr_capacity _ _ R2).
    + by rewrite (sb_source _ _ R4), (so_source _ _ R3), (sr_source _ _ R2).
Qed.

(** ** Streams *)

Fixpoint stream_bits (position : nat) (b : Block) (bs : list Block) : list bool :=
  match bs with
  | [] => block_bits position true b
  | b' :: bs => let w := block_bits position false b in w ++ stream_bits (position + length w) b' bs
  end.

Fixpoint good_stream (position : nat) (out : list Z) (b : Block) (bs : list Block) : Prop :=
  good_block position out b /\
  match bs with
  | [] => True
  | b' :: bs => good_stream (position + length (block_bits position false b)) (expand_block out b) b' bs
  end.

Fixpoint unaligned (position : nat) (b : Block) (bs : list Block) : Prop :=
  unaligned_block position b /\
  match bs with [] => True | b' :: bs => unaligned (position + length (block_bits position false b)) b' bs end.

Definition expand_stream (b : Block) (bs : list Block) : list Z := foldl expand_block [] (b :: bs).

Lemma expand_block_longer position out b : good_block position out b -> (length out <= length (expand_block out b))%nat.
Proof.
  destruct b as [skipped data|ss|h ss]; cbn; [rewrite length_app; lia|..].
  - intros H%expand_symbols_length. lia.
  - intros (_ & _ & H%expand_symbols_length). lia.
Qed.

Lemma expand_stream_longer position out b bs :
  good_stream position out b bs -> (length (expand_block out b) <= length (foldl expand_block out (b :: bs)))%nat.
Proof.
  revert position out b. induction bs as [|b' bs IH]; intros position out b; [done|]. intros [Hb Hbs]. pose proof (IH _ _ _ Hbs) as Hle.
  cbn [foldl] in *. destruct bs as [|]; destruct Hbs as [Hb' _]; apply expand_block_longer in Hb'; lia.
Qed.

Lemma inflate_blocks_spec bs b rest d fuel :
  good_stream (Z.to_nat (consumedBits d)) (dest d) b bs -> unaligned (Z.to_nat (consumedBits d)) b bs -> full d ->
  between_blocks d (stream_bits (Z.to_nat (consumedBits d)) b bs ++ rest) ->
  Z.of_nat (length (foldl expand_block (dest d) (b :: bs))) <= capacity d -> (length bs < fuel)%nat ->
  exists d', inflate_blocks fuel d = (Ok tt, d') /\ between_blocks d' rest /\ dest d' = foldl expand_block (dest d) (b :: bs) /\
    source d' = source d.
Proof.
  revert b d fuel. induction bs as [|b' bs IH]; intros b d fuel Hg Hu Hfull H Hcap Hf; (destruct fuel as [|fuel]; [lia|]); cbn [inflate_blocks].
  - destruct Hg as [Hb _]. destruct Hu as [Hub _]. destruct (inflate_block_spec b true rest d Hb Hub Hfull H) as (d1 & E1 & H1 & F1 & D1 & C1 & S1); [exact Hcap|].
    rewrite (run_Ok _ _ _ _ _ E1). by exists d1.
  - pose proof Hg as Hlong. apply expand_stream_longer in Hlong. destruct Hg as [Hb Hbs]. destruct Hu as [Hub Hubs]. cbn [stream_bits] in H. cbv zeta in H. rewrite <- app_assoc in H.
    destruct (inflate_block_spec b false _ d Hb Hub Hfull H) as (d1 & E1 & H1 & F1 & D1 & C1 & S1); [lia|].
    rewrite (run_Ok _ _ _ _ _ E1). change (bool_Z false =? 0) with true. cbv iota.
    assert (Z.to_nat (consumedBits d1) = Z.to_nat (consumedBits d) + length (block_bits (Z.to_nat (consumedBits d)) false b))%nat as Hpos.
    { pose proof (standing_length _ _ (proj1 H)) as L0. pose proof (standing_length _ _ (proj1 H1)) as L1. rewrite length_app in L0. rewrite S1 in L1.
      pose proof (st_consumed _ _ (proj1 H)). pose proof (st_consumed _ _ (proj1 H1)). lia. }
    rewrite <- Hpos, <- D1 in Hbs. rewrite <- Hpos in H1, Hubs.
    destruct (IH b' d1 fuel Hbs Hubs F1 H1) as (d2 & E2 & H2 & D2 & S2); [rewrite D1, C1; exact Hcap|cbn in Hf; lia|].
    exists d2. split_and!; [done|done|by rewrite D2, D1|by rewrite S2].
Qed.

Lemma coded_check lens i : (let l := nth_Z lens i in (i <? length lens)%nat && (1 <=? l) && (l <=? 15)) = true -> coded lens i.
Proof.
  intros H. unfold nth_Z in H. exists (default 0 (lens !! i)). breflect. destruct (lookup_lt_is_Some_2 lens i) as [v Hv]; [lia|].
  rewrite Hv in *. change (default 0 (Some v)) with v in *. split; [done|lia].
Qed.

(** C14 The inflater reads back what the reference encoder writes, save behind an
    aligned header: for a well-formed sequence of stored, fixed and dynamic blocks
    packed into bytes, in which the three bits that open a stored block never end on
    a byte boundary, it returns exactly the bytes they stand for, whatever an
    earlier call left in the scratch arrays. A stored block whose three bits do end
    there is well-formed too, and the inflater loses the byte behind them:
    [aligned_stored_block] is such a stream, refused. *)
Theorem inflate_decodes_deflate b bs pad source capacity scratch :
  good_stream 0 [] b bs -> unaligned 0 b bs -> Forall is_octet source ->
  all_bits source = stream_bits 0 b bs ++ pad -> (length pad < 8)%nat ->
  Z.of_nat (length (expand_stream b bs)) <= capacity ->
  length (trans scratch.1) = 288%nat -> length scratch.2 = 320%nat ->
  inflate source capacity scratch = Ok (expand_stream b bs).
Proof.
  intros Hg Hu Hoct Hbits Hpad Hcap Hs1 Hs2. unfold inflate, tinf_uncompress. rewrite run_get. cbn [Inflate.source newData].
  assert (forall p b bs, (length bs < length (stream_bits p b bs))%nat) as Hlen.
  { clear. intros p b bs. revert p b. induction bs as [|b' bs IH]; intros p b; [cbn; lia|]. cbn [stream_bits length]. cbv zeta. rewrite length_app.
    specialize (IH (p + length (block_bits p false b))%nat b'). assert (1 <= length (block_bits p false b))%nat by (cbn; lia). lia. }
  specialize (Hlen 0%nat b bs). pose proof (all_bits_length source) as Hl. rewrite Hbits, length_app in Hl.
  destruct (inflate_blocks_spec bs b pad (newData source capacity scratch.1 scratch.2) (8 * length source + 1)) as (d' & E & H & D & S); try done.
  - split; [|by left]. split; cbn; try done; try lia.
  - lia.
  - rewrite (run_Ok _ _ _ _ _ E), run_get, S. cbn [Inflate.source newData]. pose proof (standing_length _ _ (proj1 H)) as L. rewrite S in L. cbn in L.
    pose proof (st_consumed _ _ (proj1 H)) as Hc. rewrite S in Hc. cbn in Hc.
    replace ((consumedBits d' + 7) / 8) with (Z.of_nat (length source)); [rewrite Z.eqb_refl; cbn; by rewrite D|].
    apply Z.div_unique with (r := consumedBits d' + 7 - 8 * Z.of_nat (length source)); lia.
Qed.

(** A stored block, then a literal and an overlapping match. *)
Lemma inflate_decodes_deflate_witness :
  inflate [0; 2; 0; 253; 255; 104; 105; 75; 4; 2; 0] 6 fresh_scratch = Ok [104; 105; 97; 97; 97; 97].
Proof.
  refine (inflate_decodes_deflate (stored (replicate 5 false) [104; 105]) [fixed [literal 97; back_reference 0 0 0 0]] (replicate 2 false) _ _ fresh_scratch _ _ _ _ _ _ _ _).
  - split; [split_and!; [by vm_compute|cbn; lia|by repeat constructor]|]. split; [|done]. split; [split; [lia|apply coded_check; by vm_compute]|].
    split; [|done]. split_and!; try (apply coded_check; by vm_compute); try lia; vm_compute; done.
  - by (vm_compute; repeat split; lia).
  - by repeat constructor.
  - by (vm_compute; reflexivity).
  - cbn. lia.
  - by vm_compute.
  - done.
  - done.
Defined.

(** Three literals of nine bits and the end of the block leave the header of the
    stored block behind it at a byte boundary: the inflater takes the byte there for
    padding, and refuses a stream other decoders read as [[144; 145; 146; 7]]. *)
Example aligned_stored_block :
  good_stream 0 [] (fixed [literal 144; literal 145; literal 146]) [stored [] [7]] /\
  expand_stream (fixed [literal 144; literal 145; literal 146]) [stored [] [7]] = [144; 145; 146; 7] /\
  all_bits [154; 48; 113; 18; 32; 1; 0; 254; 255; 7] =
    stream_bits 0 (fixed [literal 144; literal 145; literal 146]) [stored [] [7]] /\
  inflate [154; 48; 113; 18; 32; 1; 0; 254; 255; 7] 4 fresh_scratch = Err data_error.
Proof.
  assert (forall b, (b <? 288)%nat && (1 <=? nth_Z fixed_llens b) && (nth_Z fixed_llens b <=? 15) = true -> coded fixed_llens b) as Hc.
  { intros b H. by apply coded_check. }
  split_and!; try by vm_compute. split; [|split; [|done]].
  - cbn [good_block good_symbols good_symbol]. split_and!; try (apply Hc; by vm_compute); try done; lia.
  - cbn [good_block]. split_and!; [by vm_compute|cbn; lia|by repeat constructor].
Qed.
