(* ===== verification/InflateTotal.v ===== *)
(** * The inflater always ends

    For any bytes the inflater returns or throws: the fuel its loops are given is
    never what stops them, since each round consumes bits of the stream or fills
    the table of lengths, and what it returns fits the destination. *)

From S2P Require Import Prelude Inflate InflateBits Huffman InflateTheorems InflateStream.

Local Open Scope Z_scope.

(** ** Methods that only move forward *)

Record bounded (d : Data) : Prop := {
  bd_dest : destLen d <= capacity d;
  bd_ltree : (length (table (ltree d)) <= 16)%nat;
  bd_dtree : (length (table (dtree d)) <= 16)%nat;
  bd_code_tree : (length (table (code_tree d)) <= 16)%nat;
}.

Record moved (n : nat) (d d' : Data) (bs : list bool) : Prop := {
  mv_bounded : bounded d';
  mv_capacity : capacity d' = capacity d;
  mv_source : source d' = source d;
  mv_bits : exists k, (n <= k <= length bs)%nat /\ at_bits d' (drop k bs);
}.

(** [m] throws an error of the source, or consumes at least [n] bits and returns
    what satisfies [Q]. *)
Definition forward {A} (n : nat) (m : inflating A) (Q : A -> Prop) : Prop :=
  forall d bs, at_bits d bs -> bounded d ->
    match m d with (Ok a, d') => Q a /\ moved n d d' bs | (Err e, _) => e <> out_of_fuel end.

Lemma moved_weaken n n' d d' bs : moved n d d' bs -> (n' <= n)%nat -> moved n' d d' bs.
Proof. intros [M1 M2 M3 (k & Hk & M4)] Hn. split; try done. exists k. split; [lia|done]. Qed.

Lemma forward_weaken {A} n n' (m : inflating A) (Q Q' : A -> Prop) :
  forward n m Q -> (n' <= n)%nat -> (forall a, Q a -> Q' a) -> forward n' m Q'.
Proof.
  intros H Hn HQ d bs Hd Hb. specialize (H d bs Hd Hb). destruct (m d) as [[a|e] d']; [|done]. destruct H as [Ha M].
  split; [by apply HQ|by eapply moved_weaken].
Qed.

Lemma forward_bind {A B} n n' (m : inflating A) (f : A -> inflating B) Q Q' :
  forward n m Q -> (forall a, Q a -> forward n' (f a) Q') -> forward (n + n') (m ≫= f) Q'.
Proof.
  intros Hm Hf d bs Hd Hb. specialize (Hm d bs Hd Hb). unfold mbind, method_bind. destruct (m d) as [[a|e] d1]; [|done].
  destruct Hm as [Ha [M1 M2 M3 (k & Hk & M4)]]. specialize (Hf a Ha d1 _ M4 M1). destruct (f a d1) as [[b|e] d2]; [|done].
  destruct Hf as [Hb' [N1 N2 N3 (k' & Hk' & N4)]]. split; [done|]. split; [done|congruence|congruence|]. rewrite length_drop in Hk'.
  exists (k + k')%nat. rewrite drop_drop in N4. split; [lia|done].
Qed.

Lemma forward_ret {A} (a : A) (Q : A -> Prop) : Q a -> forward 0 (mret a) Q.
Proof. intros Ha d bs Hd Hb. split; [done|]. split; try done. exists O. split; [lia|done]. Qed.

Lemma forward_throw {A} n e (Q : A -> Prop) : e <> out_of_fuel -> forward n (throw e) Q.
Proof. by intros He d bs Hd Hb. Qed.

Lemma forward_get {B} n (f : Data -> inflating B) Q : (forall d, bounded d -> forward n (f d) Q) -> forward n (get ≫= f) Q.
Proof. intros H d bs Hd Hb. rewrite run_get. by apply H. Qed.

Lemma forward_lift {A} (r : result InflateError A) (Q : A -> Prop) :
  match r with Ok a => Q a | Err e => e <> out_of_fuel end -> forward 0 (lift r) Q.
Proof. intros H d bs Hd Hb. unfold lift. destruct r as [a|]; [|done]. by apply forward_ret. Qed.

Lemma bounded_rest d d' : same_rest d d' -> bounded d -> bounded d'.
Proof. intros [] []. split; unfold destLen in *; congruence. Qed.

Lemma moved_rest n k d d' bs :
  bounded d -> same_rest d d' -> at_bits d' (drop k bs) -> (n <= k <= length bs)%nat -> moved n d d' bs.
Proof. intros Hb R H Hk. split; [by eapply bounded_rest|by destruct R|by destruct R|by exists k]. Qed.

Lemma forward_read_bits num base : 0 <= num <= 16 -> forward (Z.to_nat num) (tinf_read_bits num base) (fun v => base <= v).
Proof.
  intros Hn d bs Hd Hb. pose proof (tinf_read_bits_spec d bs num base Hd Hn) as H. destruct (Nat.leb_spec (Z.to_nat num) (length bs)).
  - destruct H as (d' & -> & H1 & R & _). split; [pose proof (val_bounds (take (Z.to_nat num) bs)); lia|]. by eapply moved_rest.
  - destruct (tinf_read_bits num base d) as [[v|e] d']; [done|]. by injection H as ->.
Qed.

(** The table of a tree ends before the fuel. *)
Lemma decode_loop_ends fuel t x sum cur len :
  (length (table t) <= 16)%nat -> 16 <= len + Z.of_nat fuel -> 0 <= len <= 15 -> decode_loop fuel t x sum cur len <> Err out_of_fuel.
Proof.
  intros Ht. revert x sum cur len. induction fuel as [|fuel IH]; intros x sum cur len Hf Hl; [lia|]. cbn [decode_loop]. cbv zeta.
  unfold at_index. destruct (Z.ltb_spec (len + 1) 0); [done|]. destruct (table t !! Z.to_nat (len + 1)) as [c|] eqn:E; [|done].
  apply lookup_lt_Some in E. cbn [mbind result_bind]. destruct (0 <=? _); [|done]. apply IH; lia.
Qed.

Lemma at_index_ends l i : at_index l i <> Err out_of_fuel.
Proof. unfold at_index. destruct (i <? 0); [done|]. by destruct (l !! _). Qed.

Lemma forward_symbol t : (length (table t) <= 16)%nat -> forward 1 (tinf_decode_symbol t) (fun _ => True).
Proof.
  intros Ht d bs Hd Hb. pose proof (tinf_decode_symbol_spec d bs t Hd Ht) as H. pose proof (decode_loop_ends 16 t (val bs) 0 0 0 Ht) as He.
  destruct (decode_loop 16 t (val bs) 0 0 0) as [[[x l] i]|e]; [|destruct (tinf_decode_symbol t d) as [[v|?] d']; [done|]; injection H as ->; intros ->; by apply He; [lia..|]].
  destruct H as [Hl H]. destruct (Nat.leb_spec (Z.to_nat l) (length bs)); [|destruct (tinf_decode_symbol t d) as [[v|?] d']; [done|]; by injection H as ->].
  destruct H as (d' & -> & H1 & R & _). pose proof (at_index_ends (trans t) i) as Hi. destruct (at_index (trans t) i); [|congruence].
  split; [done|]. eapply moved_rest; [done|done|exact H1|lia].
Qed.

Lemma forward_write v : forward 0 (writeByte v) (fun _ => True).
Proof.
  intros d bs Hd Hb. unfold writeByte. rewrite run_get. destruct (Z.leb_spec (capacity d) (destLen d)) as [Hle|Hlt]; [done|].
  split; [done|]. destruct Hb. split; try done.
  - split; try done. unfold destLen in *. cbn. rewrite length_app. cbn. lia.
  - exists O. split; [lia|by apply at_bits_dest].
Qed.

Lemma forward_put_length i v : forward 0 (put_length i v) (fun _ => True).
Proof. intros d bs Hd Hb. split; [done|]. destruct Hb. split; try done. exists O. split; [lia|by apply at_bits_lengths]. Qed.

Lemma forward_read l i : forward 0 (readAt l i) (fun _ => True).
Proof. apply forward_lift. pose proof (at_index_ends l i). destruct (at_index l i); [done|congruence]. Qed.

(** Steps through a method; consumed bits add up from the left. *)
Ltac forward_step :=
  first [ by apply forward_throw
        | apply (forward_ret _ (fun _ => True)); exact I
        | eapply (forward_bind 0 0); [first [apply forward_write | apply forward_read | apply forward_put_length]|intros ? _] ].

Lemma forward_copy i n : forward 0 (copy_match i n) (fun _ => True).
Proof.
  revert i. induction n as [|n IH]; intros i; cbn [copy_match]; [by apply forward_ret|]. apply forward_get. intros d _. do 2 forward_step. apply IH.
Qed.

Lemma forward_match sym dt : (length (table dt) <= 16)%nat -> forward 0 (inflate_match sym dt) (fun _ => True).
Proof.
  intros Ht. unfold inflate_match. destruct ((sym <? 0) || (Z.of_nat (length length_bits) <=? sym)) eqn:E1; [forward_step|].
  assert (forall l i, (length l = 30)%nat -> forallb (fun b => (0 <=? b) && (b <=? 16)) l = true ->
    forward 0 (readAt l i) (fun b => 0 <= b <= 16)) as Hread.
  { intros l i Hl Hall. apply forward_lift. unfold at_index. destruct (i <? 0); [done|]. destruct (l !! Z.to_nat i) as [v|] eqn:Ev; [|done].
    rewrite forallb_forall in Hall. apply list_elem_of_lookup_2, list_elem_of_In, Hall in Ev. breflect. lia. }
  eapply (forward_bind 0 0); [by apply Hread|intros b1 Hb1]. forward_step.
  eapply (forward_bind 0 0); [eapply forward_weaken; [by apply forward_read_bits|lia|done]|intros n _].
  eapply (forward_bind 0 0); [eapply forward_weaken; [by apply forward_symbol|lia|done]|intros s _].
  destruct ((s <? 0) || _); [forward_step|].
  eapply (forward_bind 0 0); [by apply Hread|intros b2 Hb2]. forward_step.
  eapply (forward_bind 0 0); [eapply forward_weaken; [by apply forward_read_bits|lia|done]|intros m _].
  apply forward_get. intros d _. cbv zeta. destruct (_ || _ || _); [forward_step|]. apply forward_copy.
Qed.

(** ** The loops *)

(** One symbol takes one bit at least, so this fuel is enough. *)
Lemma forward_block_data fuel lt dt d bs :
  (length (table lt) <= 16)%nat -> (length (table dt) <= 16)%nat -> at_bits d bs -> bounded d -> (length bs < fuel)%nat ->
  match tinf_inflate_block_data fuel lt dt d with (Ok _, d') => moved 0 d d' bs | (Err e, _) => e <> out_of_fuel end.
Proof.
  intros Hl Ht. revert bs d. induction fuel as [|fuel IH]; intros bs d Hd Hb Hf; [lia|]. cbn [tinf_inflate_block_data].
  pose proof (forward_symbol lt Hl d bs Hd Hb) as Hsym. destruct (tinf_decode_symbol lt d) as [[sym|e] d1] eqn:E1; [|by rewrite (run_Err _ _ _ _ _ E1)].
  rewrite (run_Ok _ _ _ _ _ E1). destruct Hsym as [_ M1]. destruct (sym =? 256); [by eapply moved_weaken; [exact M1|lia]|].
  assert (forward 0 (if sym <? 256 then writeByte sym else inflate_match (sym - 257) dt) (fun _ => True)) as Hstep
    by (destruct (sym <? 256); [apply forward_write|by apply forward_match]).
  destruct M1 as [B1 C1 S1 (k & Hk & A1)]. specialize (Hstep d1 _ A1 B1).
  destruct ((if sym <? 256 then writeByte sym else inflate_match (sym - 257) dt) d1) as [[u|e] d2] eqn:E2; [|by rewrite (run_Err _ _ _ _ _ E2)].
  rewrite (run_Ok _ _ _ _ _ E2). destruct Hstep as [_ [B2 C2 S2 (k' & Hk' & A2)]]. rewrite drop_drop in A2. rewrite length_drop in Hk'.
  specialize (IH _ d2 A2 B2). rewrite length_drop in IH. specialize (IH ltac:(lia)). destruct (tinf_inflate_block_data fuel lt dt d2) as [[u'|e] d3]; [|done].
  destruct IH as [B3 C3 S3 (n & Hn & A3)]. split; [done|congruence|congruence|]. rewrite drop_drop in A3. rewrite length_drop in Hn.
  eexists. split; [|exact A3]. lia.
Qed.

Lemma foldM_preserves {A B} (f : A -> B -> result InflateError A) (P : A -> Prop) l a a' :
  P a -> (forall a b a', P a -> f a b = Ok a' -> P a') -> foldM f a l = Ok a' -> P a'.
Proof.
  intros Ha Hf. revert a Ha. induction l as [|b l IH]; intros a Ha; cbn; [by intros [= <-]|].
  destruct (f a b) as [a1|] eqn:E; cbn; [|done]. apply IH. by eapply Hf.
Qed.

Lemma build_tree_table t lens off num t' : tinf_build_tree t lens off num = Ok t' -> length (table t') = 16%nat.
Proof.
  unfold tinf_build_tree. destruct (foldM (count_length lens off) _ _) as [counts|] eqn:E; cbn [mbind result_bind]; [|done].
  assert (length counts = 16%nat) as Hc.
  { revert E. apply (foldM_preserves _ (fun c => length c = 16%nat)); [done|]. intros a b a' Ha. unfold count_length.
    destruct (at_index lens _); cbn; [|done]. destruct (at_index a _); cbn; [|done]. intros [= <-]. by rewrite length_insert. }
  destruct (foldM (place_symbol lens off) _ _) as [s|]; cbn; [|done]. intros [= <-]. cbn. by rewrite length_insert.
Qed.

Lemma forward_set_trees c l t :
  (length (table c) <= 16)%nat -> (length (table l) <= 16)%nat -> (length (table t) <= 16)%nat -> forward 0 (modify (set_trees c l t)) (fun _ => True).
Proof. intros Hc Hl Ht d bs Hd Hb. split; [done|]. destruct Hb. split; try done. exists O. split; [lia|by apply at_bits_trees]. Qed.

Lemma forward_clear n : forward 0 (clear_lengths n) (fun _ => True).
Proof. induction n as [|n IH]; cbn [clear_lengths]; [forward_step|]. eapply (forward_bind 0 0); [exact IH|intros _ _; apply forward_put_length]. Qed.

Lemma forward_code_lengths order : forward 0 (read_code_lengths order) (fun _ => True).
Proof.
  induction order as [|i order IH]; cbn [read_code_lengths]; [forward_step|].
  eapply (forward_bind 0 0); [eapply forward_weaken; [apply forward_read_bits; lia|lia|done]|intros n _]. do 2 forward_step. exact IH.
Qed.

Lemma forward_append total num v count : 0 < count -> forward 0 (appendRepeated total num v count) (fun n => num < n).
Proof.
  intros Hc. unfold appendRepeated. destruct (_ <? _); [by apply forward_throw|]. eapply (forward_bind 0 0).
  - assert (forall k i, forward 0 (put_repeated v i k) (fun _ => True)) as H; [|apply H]. induction k as [|k IH]; intros i; cbn [put_repeated]; [forward_step|].
    forward_step. apply IH.
  - intros _ _. apply forward_ret. lia.
Qed.

(** A round stores at least one length. *)
Lemma forward_store total num sym : forward 0 (store_lengths total num sym) (fun n => num < n).
Proof.
  assert (forall bits base v, 0 <= bits <= 16 -> 0 < base ->
    forward 0 (length ← tinf_read_bits bits base; appendRepeated total num v length) (fun n => num < n)) as Hrun.
  { intros bits base v Hb Hbase. eapply (forward_bind 0 0); [eapply forward_weaken; [by apply forward_read_bits|lia|done]|]. cbv beta. intros n Hn. apply forward_append. lia. }
  unfold store_lengths. destruct (sym =? 16).
  { destruct (num =? 0); [by apply forward_throw|]. apply forward_get. intros d _. eapply (forward_bind 0 0); [apply forward_read|intros v _]. apply Hrun; lia. }
  destruct (sym =? 17); [apply Hrun; lia|]. destruct (sym =? 18); [apply Hrun; lia|].
  eapply (forward_bind 0 0); [apply forward_put_length|intros _ _]. apply forward_ret. lia.
Qed.

Lemma forward_lengths fuel total num : total <= num + Z.of_nat fuel -> forward 0 (decode_lengths fuel total num) (fun _ => True).
Proof.
  revert num. induction fuel as [|fuel IH]; intros num Hf; cbn [decode_lengths]; (destruct (Z.ltb_spec num total); [|forward_step]); [lia|].
  apply forward_get. intros d Hd. eapply (forward_bind 0 0); [eapply forward_weaken; [apply forward_symbol, Hd|lia|done]|intros sym _].
  eapply (forward_bind 0 0); [apply forward_store|cbv beta; intros n Hn]. apply IH. lia.
Qed.

(** The methods that build trees throw errors of the source. *)
Lemma foldM_ends {A B} (f : A -> B -> result InflateError A) l a :
  (forall a b, f a b <> Err out_of_fuel) -> foldM f a l <> Err out_of_fuel.
Proof.
  intros Hf. revert a. induction l as [|b l IH]; intros a; cbn; [done|]. specialize (Hf a b). destruct (f a b); cbn; [apply IH|congruence].
Qed.

Lemma forward_build t lens off num : forward 0 (lift (tinf_build_tree t lens off num)) (fun c => length (table c) = 16%nat).
Proof.
  apply forward_lift. pose proof (build_tree_table t lens off num) as Ht. destruct (tinf_build_tree t lens off num) as [c|e] eqn:E; [by apply Ht|].
  intros ->. revert E. clear. unfold tinf_build_tree.
  pose proof (foldM_ends (count_length lens off) (seq 0 num) (replicate 16 0)) as H1. destruct (foldM (count_length lens off) _ _) as [counts|e]; cbn [mbind result_bind].
  - pose proof (foldM_ends (place_symbol lens off) (seq 0 num) (trans t, offsets 0 (<[0%nat:=0]> counts))) as H2.
    destruct (foldM (place_symbol lens off) _ _) as [s|e]; cbn [mbind result_bind]; [done|]. intros [= ->]. apply H2; [|done]. clear.
    intros [s o] i. unfold place_symbol. pose proof (at_index_ends lens (Z.of_nat (off + i))). destruct (at_index lens _) as [c|]; cbn; [|congruence].
    destruct (c =? 0); [done|]. pose proof (at_index_ends o c). destruct (at_index o c); cbn; congruence.
  - intros [= ->]. apply H1; [|done]. clear. intros a i. unfold count_length. pose proof (at_index_ends lens (Z.of_nat (off + i))).
    destruct (at_index lens _) as [c|]; cbn; [|congruence]. pose proof (at_index_ends a c). destruct (at_index a c); cbn; congruence.
Qed.

Lemma forward_trees : forward 0 tinf_decode_trees (fun _ => True).
Proof.
  unfold tinf_decode_trees.
  eapply (forward_bind 0 0); [eapply forward_weaken; [apply forward_read_bits; lia|lia|done]|intros hlit _].
  eapply (forward_bind 0 0); [eapply forward_weaken; [apply forward_read_bits; lia|lia|done]|intros hdist _].
  eapply (forward_bind 0 0); [eapply forward_weaken; [apply forward_read_bits; lia|lia|done]|intros hcl _].
  eapply (forward_bind 0 0); [apply forward_clear|intros _ _].
  eapply (forward_bind 0 0); [apply forward_code_lengths|intros _ _]. apply forward_get. intros d Hd.
  eapply (forward_bind 0 0); [apply forward_build|intros c Hc; cbv beta in Hc].
  eapply (forward_bind 0 0); [apply forward_set_trees; [lia|apply Hd|apply Hd]|intros _ _].
  eapply (forward_bind 0 0); [apply forward_lengths; lia|intros _ _]. apply forward_get. intros d1 Hd1.
  eapply (forward_bind 0 0); [apply forward_build|intros l Hl; cbv beta in Hl].
  eapply (forward_bind 0 0); [apply forward_build|intros t Ht; cbv beta in Ht].
  apply forward_set_trees; [apply Hd1|lia|lia].
Qed.

(** ** Blocks *)

(** A block ends between two blocks, at least [n] bits further on. *)
Record passed (n : nat) (d d' : Data) (bs : list bool) : Prop := {
  ps_bounded : bounded d';
  ps_capacity : capacity d' = capacity d;
  ps_source : source d' = source d;
  ps_bits : exists k, (n <= k <= length bs)%nat /\ between_blocks d' (drop k bs);
}.

Lemma moved_passed n d d' bs : moved n d d' bs -> passed n d d' bs.
Proof. intros [M1 M2 M3 (k & Hk & [M4 M5])]. split; try done. exists k. split; [done|split; [done|by right]]. Qed.

Lemma copy_source_ends n d :
  0 <= sourceIndex d -> destLen d <= capacity d -> sourceIndex d <= Z.of_nat (length (source d)) ->
  match copy_source n d with
  | (Ok _, d') => exists l, d' = set_dest (dest d ++ l) (set_source (sourceIndex d + Z.of_nat n) (paddingReads d) d) /\
      sourceIndex d + Z.of_nat n <= Z.of_nat (length (source d)) /\ destLen d' <= capacity d
  | (Err e, _) => e <> out_of_fuel
  end.
Proof.
  revert d. induction n as [|n IH]; intros d Hi Hc Hlen; cbn [copy_source].
  { exists []. rewrite app_nil_r, Z.add_0_r. split_and!; [by destruct d|lia|done]. }
  rewrite run_get. unfold readAt. rewrite run_lift. pose proof (at_index_ends (source d) (sourceIndex d)) as He.
  unfold at_index in *. destruct (Z.ltb_spec (sourceIndex d) 0); [lia|]. destruct (source d !! Z.to_nat (sourceIndex d)) as [v|] eqn:Ev; [|done].
  apply lookup_lt_Some in Ev. rewrite run_modify. set (d1 := set_source _ _ d). unfold mbind at 1, method_bind at 1, writeByte. rewrite run_get.
  destruct (Z.leb_spec (capacity d1) (destLen d1)) as [Hle|Hlt]; [done|]. unfold modify. set (d2 := set_dest _ d1).
  assert (destLen d2 <= capacity d2) as Hd2 by (unfold destLen in *; cbn in *; rewrite length_app; cbn; lia).
  specialize (IH d2 ltac:(cbn; lia) Hd2 ltac:(cbn; lia)). destruct (copy_source n d2) as [[u|e] d3]; [|done]. destruct IH as (l & -> & Hl & Hcap). exists (v :: l).
  split_and!; [|cbn in Hl; lia|done]. unfold set_dest, set_source. cbn. f_equal; [by rewrite <- app_assoc|lia].
Qed.

(** A stored block, whatever its bytes. *)
Lemma stored_block_ends d bs :
  at_bits d bs -> bounded d ->
  match tinf_inflate_uncompressed_block d with (Ok _, d') => passed 0 d d' bs | (Err e, _) => e <> out_of_fuel end.
Proof.
  intros [Hs _] Hb. pose proof (st_consumed _ _ Hs) as Hcons. pose proof (st_count _ _ Hs) as Hcount. pose proof (st_index _ _ Hs) as Hindex.
  unfold tinf_inflate_uncompressed_block. destruct (unread_spec 4 d _ Hs ltac:(lia)) as (d1 & E1 & R1 & P1 & C1 & S1 & B1 & B1' & I1 & N1).
  rewrite (run_Ok _ _ _ _ _ E1), run_get, run_modify. set (d2 := set_consumed _ d1). pose proof (sr_source _ _ R1) as Es1. unfold readAt. rewrite !run_lift.
  pose proof (at_index_ends (source d1)) as He. pose proof (He (sourceIndex d1 + 1)). pose proof (He (sourceIndex d1)). pose proof (He (sourceIndex d1 + 2)).
  destruct (at_index (source d1) (sourceIndex d1 + 1)) as [l1|e]; [|congruence]. rewrite run_lift.
  destruct (at_index (source d1) (sourceIndex d1)) as [l0|e]; [|congruence]. cbv zeta. rewrite run_lift. pose proof (He (sourceIndex d1 + 3)).
  destruct (at_index (source d1) (sourceIndex d1 + 3)) as [n1|e] eqn:E3; [|congruence]. rewrite run_lift.
  destruct (at_index (source d1) (sourceIndex d1 + 2)) as [n0|e]; [|congruence]. destruct (negb _); [done|]. rewrite run_modify. set (d3 := set_source _ _ d2).
  assert (sourceIndex d1 + 4 <= Z.of_nat (length (source d))) as Hlen.
  { unfold at_index in E3. destruct (_ <? 0); [done|]. destruct (source d1 !! Z.to_nat (sourceIndex d1 + 3)) eqn:E; [|done]. apply lookup_lt_Some in E. rewrite Es1 in E. lia. }
  destruct Hb as [D1 D2 D3 D4]. destruct R1 as [Rd Rc Rl Rt _ Rct _].
  pose proof (copy_source_ends (Z.to_nat (256 * l1 + l0)) d3 ltac:(cbn; lia) ltac:(unfold destLen in *; cbn; rewrite Rd, Rc; done) ltac:(cbn; rewrite Es1; lia)) as Hcopy.
  destruct (copy_source _ d3) as [[u|e] d4] eqn:E4; [|by rewrite (run_Err _ _ _ _ _ E4)]. rewrite (run_Ok _ _ _ _ _ E4), run_get, run_modify. destruct Hcopy as (l & -> & Hl & Hcap).
  set (n := Z.to_nat (256 * l1 + l0)) in *. cbn [sourceIndex set_dest set_source d3 d2 set_consumed source paddingReads capacity dest] in *. rewrite ?Es1 in *.
  split; cbn; try congruence.
  - split; cbn; unfold destLen in *; cbn in *; congruence.
  - exists (Z.to_nat (8 * (sourceIndex d1 + 4 + Z.of_nat n) - consumedBits d)). pose proof (standing_length _ _ Hs). split; [lia|]. split; [|by left].
    split; cbn; rewrite ?Es1; [apply Hs|lia|lia|lia|rewrite P1, (st_padding _ _ Hs); lia|]. rewrite (st_bits _ _ Hs), drop_drop. f_equal. lia.
Qed.

Lemma inflate_block_ends d bs :
  between_blocks d bs -> bounded d ->
  match inflate_block d with (Ok _, d') => passed 1 d d' bs | (Err e, _) => e <> out_of_fuel end.
Proof.
  intros H Hb. pose proof (tinf_getbit_spec d bs H) as Hbit. unfold inflate_block. destruct bs as [|b bs].
  { destruct (tinf_getbit d) as [[v|e] d1] eqn:E1; [done|]. rewrite (run_Err _ _ _ _ _ E1). by injection Hbit as ->. }
  destruct Hbit as (d1 & E1 & H1 & R1 & _). rewrite (run_Ok _ _ _ _ _ E1). pose proof (bounded_rest _ _ R1 Hb) as Hb1.
  pose proof (forward_read_bits 2 0 ltac:(lia) d1 bs H1 Hb1) as Htype. destruct (tinf_read_bits 2 0 d1) as [[btype|e] d2] eqn:E2; [|by rewrite (run_Err _ _ _ _ _ E2)].
  rewrite (run_Ok _ _ _ _ _ E2), run_get. destruct Htype as [_ [B2 C2 S2 (k & Hk & A2)]].
  match goal with |- match (mbind _ ?m) d2 with _ => _ end => set (body := m) end.
  enough (match body d2 with (Ok _, d') => passed 0 d2 d' (drop k bs) | (Err e, _) => e <> out_of_fuel end) as Hbody.
  { unfold mbind at 1, method_bind at 1. destruct (body d2) as [[u|e] d3]; [|done]. destruct Hbody as [B3 C3 S3 (n & Hn & A3)].
    split; [done|rewrite C3, C2; apply R1|rewrite S3, S2; apply R1|]. rewrite length_drop in Hn. rewrite drop_drop in A3. exists (S (k + n)). split; [cbn; lia|done]. }
  unfold body. clear body.
  assert (forall d bs, at_bits d bs -> (length bs < 8 * length (source d) + 1)%nat) as Hfuel.
  { intros d0 bs0 H0. pose proof (standing_length _ _ (proj1 H0)). pose proof (st_consumed _ _ (proj1 H0)). lia. }
  destruct (btype =? 0); [by apply stored_block_ends|]. destruct (btype =? 1).
  { pose proof (forward_block_data (8 * length (source d2) + 1) sltree sdtree d2 _ ltac:(cbn; lia) ltac:(cbn; lia) A2 B2 (Hfuel _ _ A2)) as Hd.
    destruct (tinf_inflate_block_data _ _ _ d2) as [[u|e] d3]; [by apply moved_passed|done]. }
  destruct (btype =? 2); [|done]. pose proof (forward_trees d2 _ A2 B2) as Ht.
  destruct (tinf_decode_trees d2) as [[u|e] d3] eqn:E3; [|by rewrite (run_Err _ _ _ _ _ E3)]. rewrite (run_Ok _ _ _ _ _ E3), run_get.
  destruct Ht as [_ [B3 C3 S3 (n & Hn & A3)]].
  pose proof (forward_block_data _ (ltree d3) (dtree d3) d3 _ (bd_ltree _ B3) (bd_dtree _ B3) A3 B3 (Hfuel _ _ A3)) as Hd.
  destruct (tinf_inflate_block_data _ _ _ d3) as [[u'|e] d4]; [|done]. apply moved_passed in Hd. destruct Hd as [B4 C4 S4 (m & Hm & A4)].
  split; [done|congruence|congruence|]. rewrite length_drop in Hm. rewrite drop_drop in A4. exists (n + m)%nat. split; [lia|done].
Qed.

Lemma inflate_blocks_end fuel d bs :
  between_blocks d bs -> bounded d -> (length bs < fuel)%nat ->
  match inflate_blocks fuel d with (Ok _, d') => bounded d' /\ capacity d' = capacity d | (Err e, _) => e <> out_of_fuel end.
Proof.
  revert d bs. induction fuel as [|fuel IH]; intros d bs H Hb Hf; [lia|]. cbn [inflate_blocks]. pose proof (inflate_block_ends d bs H Hb) as Hblock.
  destruct (inflate_block d) as [[final|e] d1] eqn:E1; [|by rewrite (run_Err _ _ _ _ _ E1)]. rewrite (run_Ok _ _ _ _ _ E1).
  destruct Hblock as [B1 C1 S1 (k & Hk & A1)]. destruct (final =? 0); [|done]. specialize (IH d1 _ A1 B1). rewrite length_drop in IH.
  specialize (IH ltac:(lia)). destruct (inflate_blocks fuel d1) as [[u|e] d2]; [|done]. destruct IH as [B2 C2]. split; [done|congruence].
Qed.

(** C40 Inflating always ends, on any bytes at all: no loop of the inflater runs out
    of the fuel it is given, so that the answer is an error of the source or an
    output, and an output never exceeds the declared capacity. *)
Theorem inflate_always_ends source capacity scratch :
  Forall is_octet source -> 0 <= capacity -> (length (table scratch.1) <= 16)%nat ->
  match inflate source capacity scratch with
  | Ok out => Z.of_nat (length out) <= capacity
  | Err e => e <> out_of_fuel
  end.
Proof.
  intros Hoct Hcap Ht. unfold inflate, tinf_uncompress. rewrite run_get. cbn [Inflate.source newData].
  set (d := newData _ _ _ _). assert (between_blocks d (all_bits source)) as H.
  { split; [|by left]. split; cbn; try done; try lia. }
  pose proof (inflate_blocks_end (8 * length source + 1) d _ H ltac:(by split; cbn; [..|lia|lia|]) ltac:(rewrite all_bits_length; lia)) as Hend.
  destruct (inflate_blocks _ d) as [[u|e] d1] eqn:E; [|by rewrite (run_Err _ _ _ _ _ E)]. rewrite (run_Ok _ _ _ _ _ E), run_get.
  destruct Hend as [B C]. destruct (_ =? _); cbn; [|done]. pose proof (bd_dest _ B) as Hd. rewrite C in Hd. exact Hd.
Qed.

(** The reserved type of block, and a match with nothing behind it. *)
Lemma inflate_always_ends_witness :
  (inflate [7] 4 fresh_scratch = Err data_error /\ data_error <> out_of_fuel) /\
  inflate [3; 2; 0] 4 fresh_scratch = Err bad_back_reference /\ bad_back_reference <> out_of_fuel.
Proof.
  assert (inflate [7] 4 fresh_scratch = Err data_error) as E1 by (vm_compute; reflexivity).
  assert (inflate [3; 2; 0] 4 fresh_scratch = Err bad_back_reference) as E2 by (vm_compute; reflexivity).
  pose proof (inflate_always_ends [7] 4 fresh_scratch ltac:(by repeat constructor) ltac:(lia) ltac:(cbn; lia)) as H1. rewrite E1 in H1.
  pose proof (inflate_always_ends [3; 2; 0] 4 fresh_scratch ltac:(by repeat constructor) ltac:(lia) ltac:(cbn; lia)) as H2. rewrite E2 in H2.
  exact (conj (conj E1 H1) (conj E2 H2)).
Defined.
